(* ===== verification/_CoqProject ===== *)
-Q . S2P
Prelude.v
Fnmatch.v
SandboxPolicy.v
PermissionEngine.v
Messages.v
Compact.v
Hooks.v
ToolOutputs.v
ToolRuntime.v
Kernel.v
Agent.v
Snowflake.v
DbRouter.v
Redis.v
Lock.v
Cache.v
Quota.v
Utf8.v
Sse.v
JsonValue.v
Channels.v
Responses.v
Dispatch.v
Metering.v
Gateway.v
Streaming.v
Streams.v
Sql.v
Billing.v
Plans.v
Orders.v
Http.v
WeChat.v
Kv.v
Runs.v
Extract.v
Calendar.v
SessionStore.v
Swarm.v
Vectors.v
Compute.v
VectorIndex.v
VectorManager.v
MemoryEngine.v
MemoryStores.v
Documents.v
MemoryService.v
Accounts.v
Tenants.v
Verification.v
PasswordReset.v
Auth.v
Users.v
Sessions.v
AiHandler.v
Tasks.v
