(* ===== verification/Prelude.v ===== *)
(** * AINS: a verification library of the agent runtime and the gateway

    AINS has two halves that carry logic of their own.  The agent runtime
    ([crates/rust-agent]) drives a language model: a kernel sends the
    conversation to the model, dispatches the tool calls it asks for, and feeds
    the results back, with a permission engine, hooks, a sandbox policy and
    context compaction in between.  The server ([server], with
    [crates/distributed-ratelimit]) is the gateway in front of the models: it
    checks a request, takes a call from the user's plan, chooses a channel,
    translates between protocols, streams the answer back and writes the bill.
    This library models the core of both.

    ** The agent runtime, from the bottom up

    - [Prelude]: results, Rust text ([str] as the list of its code points) with
      the [str] methods the code uses, wrap-around of 64-bit words, the
      interfaces [Unicode], [Platform] and [Environment], the hint database
      [ains] and the lemmas that all files share.
    - [Fnmatch] ([fnmatch.rs]): the glob matcher, loop by loop, and the
      denotation of patterns it is equal to.
    - [SandboxPolicy] ([policy/sandbox_policy.rs]): network rules, filesystem
      quadrants, the macOS profile text.
    - [PermissionEngine] ([policy/permission_engine.rs]): the allow, deny or
      ask decision for a tool on a path.  Uses [Fnmatch].
    - [Messages] ([kernel/messages.rs], [kernel/context.rs], metadata of
      [tools/mod.rs]): content blocks, history pruning, the context store.
      Well-pairedness of a history, every tool request answered by the next
      message, is the invariant that all later files keep.
    - [Compact] ([context/compact.rs]): the four stages that shorten a history,
      the model summary with its retries, the circuit breaker.
    - [Hooks] ([hooks/mod.rs]), [ToolOutputs] ([tools/outputs.rs]).
    - [ToolRuntime] ([tools/runtime.rs]): registry, permission paths, one
      dispatch from the activity check to the output budget, and both batch
      modes.  Uses [PermissionEngine], [SandboxPolicy], [Hooks], [ToolOutputs].
    - [Kernel] ([kernel/fsm.rs], [state.rs], [event_loop.rs]): the state
      machine and its loop, one step per iteration.  It sees the runtime
      through the interface [Dispatcher]; [runtime_dispatcher] is the instance
      made of [ToolRuntime].
    - [Agent]: the two together.  A [session] follows the effects on the user's
      machine through everything a host does with a kernel on that runtime.
    - [Tasks] ([tasks/mod.rs]): background commands.  [World] is the table of
      the manager with what its fibers share outside of the lock; [step] is one
      lock region, atomic access, channel operation or notification.
    - [Kv] ([memory/kv.rs], [kv_native.rs], [in_memory.rs]): key value rows with
      envelopes that expire, the native store and the hash map.  A store is one
      command at a time; [command] lets each fail.
    - [Runs]: the reasoning about commands of which some fail, for the components
      that work on [Kv] rows.
    - [Calendar] ([memory/memdir.rs], [tools/compute.rs]): instants as text and
      back.  [Compute] ([tools/compute.rs]): the calculator and the other compute
      tools.
    - [SessionStore] ([context/session.rs]): snapshots of sessions, with the
      tombstones of those that were cleared.
    - [Swarm] ([swarm/mod.rs]): definitions of agents, the executor, mailboxes on
      [Kv] rows.
    - [Vectors] ([memory/vector.rs], [vector_linear.rs], [backend.rs]): binary
      floating point, the quantised form, scores, the codec of embeddings.
    - [VectorIndex] ([vector_linear.rs], [vector_native.rs]): the class
      [VectorIndex] with its two implementations, the exact scan and the slots
      around an HNSW graph ([Hnsw], a library, with [brute_force] as a witness).
    - [VectorManager] ([vector_manager.rs]): one index per namespace, loaded on
      first use.  [IndexLaws] is what the manager needs of an index.
    - [MemoryEngine] ([memory/engine.rs], [manage.rs]): remembering with
      deduplication and eviction, forgetting, searching, over tables and index.
    - [Extract] ([memory/extract.rs], [prompts/memory.rs]): transcripts, the
      reading of what a model says is worth remembering, checkpoints.
    - [MemoryStores] ([memory/stores.rs]): the [Host] that the sessions of a process
      share, and the lock of its engine.  [Documents] ([memory/document.rs],
      [parser.rs]): cutting, indexing, searching.  [MemoryService]
      ([memory/service.rs], [tools/memory.rs]): what a session remembers, recalls,
      extracts and clears, over [MemoryEngine], [Documents] and [SessionStore].

    ** Shared services of the server

    - [Snowflake] ([server/src/utils/snowflake.rs]): layout, lock-free
      generator, worker registration.
    - [DbRouter] ([server/src/utils/db_router.rs]): reads on replicas with
      breakers and retries, writes on the writer.
    - [Redis]: the server as an interface with laws, and an implementation over
      finite maps that shows that the laws can hold.  [Lock]
      ([services/lock.rs]), [Cache] ([services/cache.rs]) and [Quota]
      ([services/quota.rs], the limiter crate) are proved against it; [Cache]
      takes the stampede lock from [Lock], [Quota] its counters from [Cache].
    - [Utf8] and [JsonValue]: bytes, text and [serde_json::Value], for the code
      that cuts and builds them by hand.

    ** The gateway

    - [Sse] ([services/gateway.rs], [handlers/responses.rs]): event framing.
      Gateway and handler find block ends by different rules, so the interface
      [Framing] has two instances.
    - [Channels] ([services/gateway.rs], [repositories/channel.rs]): channel
      administration, the health breaker, selection by tenant, capability, model
      and weight.
    - [Responses] ([services/responses.rs]): requests and answers between the
      unified shape, OpenAI and Anthropic; embeddings; usage.
    - [Dispatch] ([services/dispatch.rs]): upstream addresses, headers, the
      outcome of one upstream request.  [Metering] ([services/metering.rs]):
      cost and the usage record.
    - [Gateway] ([services/gateway.rs]): [proxy_request] in both modes, from the
      rate limit to the bill, and the loops that forward a stream.
    - [Streaming] ([handlers/responses.rs]): the handler's end of a stream, the
      translation of upstream events, its end and its bill.  [Streams]: gateway
      and handler composed, from the provider's bytes to the client's events.
    - [AiHandler] ([handlers/responses.rs], [ains-runtime/src/error.rs]): the
      endpoint; validation and normalisation of every capability,
      [ai_response_inner] with the call it takes and gives back.

    ** Plans and payment

    - [Sql]: statements and transactions over an abstract set of tables.  A
      [moment] is what one statement meets: the clock, a fault or none, and what
      others did since the last one.  Inside a transaction others do nothing to
      the rows it has locked.  [spec] is the rely and guarantee form in which the
      services are proved.
    - [Billing] ([repositories/plan.rs], [user.rs], [user_plan.rs],
      [payment_order.rs]): rows, tables, and the atomic [event]s by which they
      change, the abstract specification of the services.
    - [Plans] ([services/plan.rs]), [Orders] ([services/payment_order.rs] and
      the balances of [services/user.rs]): the services, refining those events.
      [AiHandler] takes its calls from [Plans].

    ** Accounts

    - [Http] ([ains-runtime/src/error.rs], [auth.rs], [utils/error.rs]): the
      errors of the endpoints, the authenticated user.
    - [Accounts] ([repositories/user.rs], [refresh_token.rs], [tenant.rs]): rows,
      tables and cache entries, the statements on them, and the atomic [step]s by
      which they change, labelled with the events that concern the codes.
    - [Tenants] ([services/tenant.rs], [handlers/tenant.rs]), [Verification]
      ([services/verification.rs]), [PasswordReset]
      ([services/password_reset.rs]), [Auth] ([services/auth.rs],
      [utils/jwt.rs], [lib.rs], the middleware of [ains-axum]), [Users]
      ([services/user.rs], [utils/validator.rs]): the services, each refining
      those steps.
    - [Sessions] ([handlers/auth.rs], [handlers/api.rs], [utils/error.rs]): the
      endpoints made of them, with what the client is told and which cookies it
      gets.
    - [WeChat] ([crates/wechat-api], [services/wechat.rs], [handlers/wechat.rs]):
      callbacks, captchas over either store, the gate before the login.

    ** How effects are modelled

    Code that owns its state is a function from state to state; the kernel is a
    state monad.  What other tasks, users, the model, the clock or the network
    do is data: an argument of the function, consumed in the order in which the
    code looks at it (the kernel's [arrivals] and interrupt flags, a dispatch's
    [view], a [command] of the cache with what others did to the server
    meanwhile, the [moment]s of a service, the bytes of a stream).  Theorems
    quantify over that data, hence over interleavings.  Where the interleaving
    itself is the point there is a step relation or a schedule:
    [Kernel.reachable], [Lock.world_step], [Billing.history], [Tasks.run],
    [Snowflake.run_schedule] (one step per access to an atomic, sequentially
    consistent: the weaker orderings of the code can only add behaviours).

    ** What is shown

    - Conversation: pruning is exact; every request a reachable kernel sends is
      well paired; compaction keeps pairs and what the user said recently, with
      bounded requests; batches are answered completely and in order.
    - Authorisation: in a whole session every executed tool is a call the model
      asked for, executed at most once; a tool runs, exactly once, exactly when no
      hook, disable switch, permission or stop forbids it; the decision table of the
      engine, with what it asks about and what it refuses;
      credential paths are refused in every mode and never asked about; what is
      stored as always allowed is the identity that was judged.
    - Liveness and budgets: the loop ends ([run] with any fuel above the
      measure [progress], which every iteration lowers), a query sends at most
      seven requests in each of at most [max_turns] turns, an interrupt stops
      it at the next boundary.
    - Background tasks: the limits hold in every interleaving, final records
      stay as they are, no waiter sleeps past the end of its task.
    - Swarm: a posted message arrives once in its inbox only; no agent runs twice at
      a time; tools are granted by name.
    - Memory: the two stores are one (answers agree on any sequence of commands);
      embeddings are stored bit for bit and quantised sums stay in range; the
      linear index is exact, the native one returns live nodes once; the same
      content is one memory, domains do not touch each other, what was remembered
      can be forgotten without a trace; a session recalls what it may see and
      sweeps what is overdue only; cutting a document loses nothing.
    - Sessions of the agent: what was cleared is not loaded or saved again.
    - Compute: the calculator evaluates the grammar of expressions; instants survive
      the way to text and back.
    - Policies: glob matching equals its denotation; network and filesystem
      rules decide as specified; quoting and profile text cannot be escaped.
    - Shared services: identifiers pack losslessly and increase within one
      caller; the read router tries what it claims and returns the truth; a lock
      has one holder; the limiter refines a fixed window; the breaker follows
      consecutive failures; population on a miss is exact.
    - Gateway: a selected channel is one the request may use, chosen in
      proportion to its weight; a translated request says, read by the protocol, what
      the client said; a request sends at most one upstream request and is billed at
      most once; only validated events are forwarded, however the network cuts them;
      a stream's events are numbered without gaps and end once; the text of a whole
      Anthropic stream, with its events of every type, reaches the client.
    - Payment: every operation refines the atomic events under interference and
      faults, so prices, counters and balances stay in range and every call is
      accounted for, until the owner of the instance is deleted; a purchase is all or
      nothing; a request that reaches the gateway costs one call of an instance that
      expires first, unless no channel is found, and any other costs nothing; an
      administrator sees and changes his own tenant only.
    - Accounts: every request refines the atomic steps, hence rows stay well
      formed, system accounts stay, and at most five guesses are compared with a
      code, in any interleaving; passwords change only for a counted right guess
      or the current password, and the sessions end with them; a refresh token is
      exchanged once; the token of a login is worth what it says while its version
      is known, and revoked tokens are refused; a wrong guess is answered alike over
      any two databases; administrators stay in their tenant.
    - WeChat: a captcha opens one login, for who sent a signed message.

    Some theorems state where the code differs from its comments: two
    overlapping [generate] calls with one identifier, a second retry phase that
    ignores breakers, requests that the provider refuses and that cost a call, an interrupt
    that outlives its query, a stream that handler and gateway judge
    differently, a join handle that outlives its record, a revoked token that
    passes for half a minute, a reset code redeemed after it was replaced.

    ** Fuel

    [Fnmatch.match_loop], [Compact.strip_tag_loop], [Compact.fold_blank_lines],
    [ToolRuntime.trim_tilde], [Kernel.run], [Sse.consume_loop], [Utf8.decode],
    [Tasks.shorten], [Tasks.prune_rounds], [Compute.tokenize_loop],
    [Documents.hard_cut], [Documents.widen] and [MemoryService.recall_loop] take
    fuel where the code loops.  The fuel used by the caller is enough: the product
    of the lengths for the matcher ([match_loop_terminates]), the length of the text or
    buffer for loops that shorten it ([strip_tag_loop_done],
    [fold_blank_lines_done], [consume_eq], [from_utf8_spec]; [trim_tilde] drops
    two characters per round), the length of the order for pruning
    ([prune_rounds_ok]), the length of the text for the tokens and the cuts, of which
    every round takes a character ([hard_cut_spec]), the number of entries for the
    windows of a search, which grow until they cover it ([widen_enough],
    [recall_loop_enough]), [progress] for the kernel ([step_progress]).  The three
    attempts of [Plans.consume_call] are the code's own.  [Snowflake.generate]
    ends with the readings of the clock it is given, and [generate_returns] says
    how many suffice.

    ** What is not modelled

    Interfaces stand for code outside the repository: JSON ([Json], [Serde],
    [JsonText], [Jsonb]), base64 ([Base64Text]), addresses ([UrlLibrary]), the
    cipher of channel keys ([Sealing]), password hashes ([Argon2]), signed tokens
    ([Jwt]), digests ([Digest]), Unicode tables, number formatting, the
    file system below permission paths, the shell, the model, Redis and the
    database.  A transaction is idealised: what it has locked does not change
    under it, and a replica never lags behind the writer.  Cached values are
    parsed, request bodies arrive parsed with the outcome of their validation.
    Further interfaces: the graph of the native index ([Hnsw]), real powers
    ([Power]), what serde makes of a snapshot ([SnapshotCodec]), SHA-1, AES and XML
    of the WeChat crate ([Sha1], [Xml]), the embedding and the extraction model
    ([Models]), the recogniser of credentials and the places of Markdown headings.
    Logging, serde derivations, the aggregate queries behind statistics and lists of
    channels, key derivation and the HTTP layer are left out.  Still to come: the
    file memory, skills, commands and personalisation on the runtime's side.  User
    interfaces, the other HTTP handlers and the platform sandboxes are input and
    output around these rules. *)

From stdpp Require Export base tactics decidable numbers list strings gmap
  relations pretty.
From Stdlib Require Export Lia ZArith.

(** ** Results *)

Inductive result (A E : Type) : Type :=
| Ok (a : A)
| Err (e : E).
Arguments Ok {A E} a.
Arguments Err {A E} e.

Definition is_ok {A E} (r : result A E) : bool :=
  match r with Ok _ => true | Err _ => false end.

(** [Result::and_then]. *)
Definition and_then {A B E} (r : result A E) (f : A -> result B E) : result B E :=
  match r with Ok a => f a | Err e => Err e end.

#[export] Instance result_eq_dec {A E} `{EqDecision A} `{EqDecision E} :
  EqDecision (result A E).
Proof. solve_decision. Defined.

#[global] Arguments N.eqb : simpl never.
#[global] Arguments N.leb : simpl never.

(** ** Text

    A Rust [char] is a Unicode scalar value, kept as its code point in [N];
    a Rust [String] or [&str] is the sequence of its [char]s.  What depends on
    the UTF-8 encoding ([str::len]) goes through [utf8_len]. *)

Abbreviation char := N (only parsing).
Abbreviation str := (list N) (only parsing).

(** An ASCII literal of the source. *)
Definition lit (s : string) : str :=
  Ascii.N_of_ascii <$> String.list_ascii_of_string s.

Definition newline : char := 10%N.
Definition space : char := 32%N.
Definition dquote : char := 34%N.
Definition slash : char := 47%N.
Definition backslash : char := 92%N.

(** Decimal rendering ([format!("{n}")]). *)
Definition show_N (n : N) : str := lit (pretty n).
Definition show_nat (n : nat) : str := show_N (N.of_nat n).
Definition show_Z (n : Z) : str :=
  (if n <? 0 then lit "-" ++ show_N (Z.to_N (- n)) else show_N (Z.to_N n))%Z.

(** *** [char] and [str] methods of the standard library *)

(** [char::len_utf8]. *)
Definition len_utf8 (c : char) : N :=
  if (c <? 128)%N then 1%N
  else if (c <? 2048)%N then 2%N
  else if (c <? 65536)%N then 3%N else 4%N.

(** [str::len], the number of bytes of the encoding. *)
Fixpoint utf8_len (s : str) : N :=
  match s with [] => 0%N | c :: s' => (len_utf8 c + utf8_len s')%N end.

(** [char::is_whitespace]: the Unicode [White_Space] property. *)
Definition is_whitespace (c : char) : bool :=
  ((9 <=? c) && (c <=? 13) || (c =? 32) || (c =? 133) || (c =? 160)
   || (c =? 5760) || (8192 <=? c) && (c <=? 8202) || (c =? 8232) || (c =? 8233)
   || (c =? 8239) || (c =? 8287) || (c =? 12288))%N.

Definition ascii_lower_char (c : char) : char :=
  if ((65 <=? c) && (c <=? 90))%N then (c + 32)%N else c.
Definition ascii_upper_char (c : char) : char :=
  if ((97 <=? c) && (c <=? 122))%N then (c - 32)%N else c.
Definition to_ascii_lowercase (s : str) : str := ascii_lower_char <$> s.
Definition to_ascii_uppercase (s : str) : str := ascii_upper_char <$> s.

Fixpoint drop_while {A} (f : A -> bool) (l : list A) : list A :=
  match l with
  | [] => []
  | x :: l' => if f x then drop_while f l' else l
  end.

Definition trim_start (s : str) : str := drop_while is_whitespace s.
Definition trim_end (s : str) : str := reverse (drop_while is_whitespace (reverse s)).
Definition trim (s : str) : str := trim_end (trim_start s).
Definition trim_end_matches (c : char) (s : str) : str :=
  reverse (drop_while (N.eqb c) (reverse s)).

(** [str::is_empty] and [Vec::is_empty]. *)
Definition is_empty {A} (l : list A) : bool :=
  match l with [] => true | _ => false end.

(** Equality of text as the code's [==]. *)
Definition str_eqb (a b : str) : bool := bool_decide (a = b).

Fixpoint starts_with (p s : str) : bool :=
  match p, s with
  | [], _ => true
  | _ :: _, [] => false
  | x :: p', y :: s' => (x =? y)%N && starts_with p' s'
  end.

Definition ends_with (p s : str) : bool := starts_with (reverse p) (reverse s).

Definition strip_prefix (p s : str) : option str :=
  if starts_with p s then Some (drop (length p) s) else None.

(** [str::find]: the position of the first occurrence. *)
Fixpoint find (p s : str) : option nat :=
  if starts_with p s then Some 0
  else match s with [] => None | _ :: s' => S <$> find p s' end.

(** [str::contains]. *)
Definition contains (p s : str) : bool :=
  match find p s with Some _ => true | None => false end.

(** [str::replace] of one character. *)
Definition replace_char (a : char) (b : str) (s : str) : str :=
  s ≫= (fun c => if (c =? a)%N then b else [c]).

(** [str::replace] of a non-empty pattern: the non-overlapping occurrences,
    from the left.  [skip] counts the characters of the occurrence being
    replaced that are still to be dropped. *)
Fixpoint replace_go (p by_ : str) (skip : nat) (s : str) : str :=
  match s with
  | [] => []
  | c :: s' =>
      match skip with
      | S k => replace_go p by_ k s'
      | 0 => if starts_with p s
             then by_ ++ replace_go p by_ (pred (length p)) s'
             else c :: replace_go p by_ 0 s'
      end
  end.
Definition replace (p by_ s : str) : str := replace_go p by_ 0 s.

(** [str::split_whitespace]: [cur] is the word being read, reversed. *)
Fixpoint split_whitespace_go (cur : str) (s : str) : list str :=
  match s with
  | [] => if is_empty cur then [] else [reverse cur]
  | c :: s' =>
      if is_whitespace c
      then (if is_empty cur then [] else [reverse cur]) ++ split_whitespace_go [] s'
      else split_whitespace_go (c :: cur) s'
  end.
Definition split_whitespace (s : str) : list str := split_whitespace_go [] s.

(** *** Pieces of text *)

Definition carriage_return : char := 13%N.

(** [str::split_once] at a character. *)
Definition split_once (c : char) (s : str) : option (str * str) :=
  i ← find [c] s; Some (take i s, drop (S i) s).

(** [str::split] at a character. *)
Fixpoint split_go (c : char) (cur s : str) : list str :=
  match s with
  | [] => [reverse cur]
  | x :: s => if (x =? c)%N then reverse cur :: split_go c [] s else split_go c (x :: cur) s
  end.
Definition split_on (c : char) (s : str) : list str := split_go c [] s.

(** [str::strip_suffix]. *)
Definition strip_suffix (p s : str) : option str :=
  if ends_with p s then Some (take (length s - length p) s) else None.

Definition strip_suffix_char (c : char) (s : str) : str :=
  match reverse s with
  | x :: rest => if (x =? c)%N then reverse rest else s
  | [] => s
  end.

(** [str::lines]: [cur] is the line being read, reversed; a line that ends
    without a newline keeps its carriage return. *)
Fixpoint lines_go (cur : str) (s : str) : list str :=
  match s with
  | [] => if is_empty cur then [] else [reverse cur]
  | c :: rest =>
      if (c =? newline)%N then strip_suffix_char carriage_return (reverse cur) :: lines_go [] rest
      else lines_go (c :: cur) rest
  end.
Definition lines (s : str) : list str := lines_go [] s.

(** [[T]::join]. *)
Fixpoint join (sep : str) (l : list str) : str :=
  match l with
  | [] => []
  | [x] => x
  | x :: l' => x ++ sep ++ join sep l'
  end.

(** [str::to_lowercase] uses the Unicode tables, which the development does
    not restate: a client relies only on the ASCII part of the mapping. *)
Definition is_ascii (c : char) : Prop := (c < 128)%N.

Class Unicode := {
  to_lowercase : str -> str;
  to_lowercase_ascii : forall s, Forall is_ascii s -> to_lowercase s = to_ascii_lowercase s
}.

(** The tables restricted to ASCII, for evaluating concrete inputs. *)
Definition ascii_tables : Unicode :=
  {| to_lowercase := to_ascii_lowercase; to_lowercase_ascii := fun _ _ => eq_refl |}.

(** ** The build target and its environment *)

(** [target_arch = "wasm32"], as a boolean. *)
Class Platform := { wasm : bool }.

(** [std::env::var(..).ok()]. *)
Class Environment := { env_var : str -> option str }.

(** [str::parse::<usize>] on a 64-bit target: an optional plus sign and
    decimal digits. *)
Definition digit_value (c : char) : option N :=
  if ((48 <=? c) && (c <=? 57))%N then Some (c - 48)%N else None.

Fixpoint parse_digits (acc : N) (s : str) : option N :=
  match s with
  | [] => Some acc
  | c :: s' => d ← digit_value c; parse_digits (acc * 10 + d)%N s'
  end.

Definition parse_unsigned (limit : N) (s : str) : option N :=
  let digits := match s with 43%N :: (_ :: _) as rest => tl s | _ => s end in
  if is_empty digits then None
  else n ← parse_digits 0 digits; if (n <=? limit)%N then Some n else None.

(** [hex::encode], and [{n:0width$x}] for numbers of at most [width] digits. *)
Definition hex_digit (d : N) : char := if (d <? 10)%N then (48 + d)%N else (87 + d)%N.
Definition hex_encode (bytes : list N) : str := b ← bytes; [hex_digit (b / 16); hex_digit (b mod 16)]%N.
Fixpoint hex_padded (width : nat) (n : N) : str :=
  match width with O => [] | S width => hex_padded width (n / 16) ++ [hex_digit (n mod 16)] end.

(** [{z:0width$}]. *)
Definition decimal_padded (width : nat) (z : Z) : str :=
  if (z <? 0)%Z then 45%N :: replicate (width - 1 - length (show_N (Z.to_N (- z)))) 48%N ++ show_N (Z.to_N (- z))
  else replicate (width - length (show_N (Z.to_N z))) 48%N ++ show_N (Z.to_N z).

(** SHA-256 of the UTF-8 form of a text, in hex. *)
Class Digest := { sha256_hex : str -> str }.

Definition usize_max : N := 2 ^ 64 - 1.
Definition parse_usize : str -> option N := parse_unsigned usize_max.

(** [str::parse::<i64>]. *)
Definition parse_i64 (s : str) : option Z :=
  match s with
  | 45%N :: rest =>
      match rest with
      | [] => None
      | _ => n ← parse_digits 0 rest; if (Z.of_N n <=? 2 ^ 63)%Z then Some (- Z.of_N n)%Z else None
      end
  | _ => Z.of_N <$> parse_unsigned (2 ^ 63 - 1) s
  end.

(** What is written is read back. *)
Lemma digit_char (d : N) : (d < 10)%N -> digit_value (Ascii.N_of_ascii (pretty_N_char d)) = Some d.
Proof.
  intros Hd. assert (d = 0 \/ d = 1 \/ d = 2 \/ d = 3 \/ d = 4 \/ d = 5 \/ d = 6 \/ d = 7 \/ d = 8 \/ d = 9)%N as H by lia.
  by repeat destruct H as [->|H]; [..|subst].
Qed.

Lemma parse_pretty x s : parse_digits 0 (lit (pretty_N_go x s)) = parse_digits x (lit s).
Proof.
  revert s. induction (N.lt_wf_0 x) as [x _ IH]. intros s. destruct (decide (x = 0)%N) as [->|Hx].
  - by rewrite pretty_N_go_0.
  - rewrite pretty_N_go_step, IH by (try apply N.div_lt; lia).
    change (lit (String ?c ?s)) with (Ascii.N_of_ascii c :: lit s). cbn [parse_digits].
    rewrite digit_char by (apply N.mod_upper_bound; lia). cbn.
    f_equal. rewrite (N.div_mod x 10) at 3 by lia. lia.
Qed.

Lemma parse_show_digits n : parse_digits 0 (show_N n) = Some n.
Proof.
  unfold show_N. destruct (decide (n = 0)%N) as [->|Hn]; [done|]. unfold pretty, pretty_N. rewrite decide_False by done.
  by rewrite parse_pretty.
Qed.

Lemma show_N_digit n : exists d rest, show_N n = d :: rest /\ is_Some (digit_value d).
Proof.
  pose proof (parse_show_digits n) as Hp. destruct (show_N n) as [|d rest] eqn:E.
  - destruct (decide (n = 0)%N) as [->|]; [done|]. injection Hp as Hp. congruence.
  - exists d, rest. split; [done|]. cbn in Hp. destruct (digit_value d); [by eexists|done].
Qed.

Lemma parse_show_N limit n : (n <= limit)%N -> parse_unsigned limit (show_N n) = Some n.
Proof.
  intros Hn. unfold parse_unsigned. destruct (show_N_digit n) as (d & rest & E & Hd).
  assert (match show_N n with 43%N :: (_ :: _) as r => tl (show_N n) | _ => show_N n end = show_N n) as ->.
  { rewrite E. destruct (decide (d = 43%N)) as [->|Hne]; [by destruct Hd|].
    destruct d as [|p]; [done|]. repeat (destruct p as [p|p|]; try done). }
  cbv zeta. assert (is_empty (show_N n) = false) as -> by (by rewrite E). rewrite parse_show_digits. cbn. by rewrite (proj2 (N.leb_le _ _) Hn).
Qed.

Lemma parse_show_i64 z : (- 2 ^ 63 <= z < 2 ^ 63)%Z -> parse_i64 (show_Z z) = Some z.
Proof.
  intros Hz. unfold show_Z. destruct (Z.ltb_spec z 0).
  - destruct (show_N_digit (Z.to_N (- z))) as (d & rest & E & _). change (lit "-" ++ show_N (Z.to_N (- z))) with (45%N :: show_N (Z.to_N (- z))).
    unfold parse_i64. rewrite E. cbv beta iota.
    rewrite <- E, parse_show_digits. cbn -[Z.pow]. rewrite Z2N.id by lia. rewrite (proj2 (Z.leb_le _ _)) by lia. f_equal. lia.
  - unfold parse_i64. destruct (show_N_digit (Z.to_N z)) as (d & rest & E & Hd).
    destruct (decide (d = 45%N)) as [->|Hne]; [by destruct Hd|].
    transitivity (Z.of_N <$> parse_unsigned (2 ^ 63 - 1) (show_N (Z.to_N z))).
    { rewrite E. destruct d as [|p]; [done|]. repeat (destruct p as [p|p|]; try done). }
    rewrite parse_show_N by lia. cbn. f_equal. lia.
Qed.

(** ** Fixed-width integers *)

Definition u32_max : Z := (2 ^ 32 - 1)%Z.
Definition u64_wrap (z : Z) : Z := (z mod 2 ^ 64)%Z.
(** Reinterpretation of a 64-bit word as [i64] ([as i64]). *)
Definition i64_of_u64 (z : Z) : Z :=
  (let w := u64_wrap z in if w <? 2 ^ 63 then w else w - 2 ^ 64)%Z.

(** ** Automation *)

Create HintDb ains discriminated.

Lemma is_empty_true {A} (l : list A) : is_empty l = true <-> l = [].
Proof. by destruct l. Qed.

Lemma is_empty_false {A} (l : list A) : is_empty l = false <-> l <> [].
Proof. by destruct l. Qed.

(** Turn the boolean hypotheses and goal of the code's conditions into
    propositions that [lia] and [congruence] use. *)
Ltac bool_to_prop :=
  repeat match goal with
  | H : (_ && _) = true |- _ => apply andb_true_iff in H as [? ?]
  | H : (_ || _) = false |- _ => apply orb_false_iff in H as [? ?]
  | H : negb _ = true |- _ => apply negb_true_iff in H
  | H : negb _ = false |- _ => apply negb_false_iff in H
  | H : (_ =? _)%N = true |- _ => apply N.eqb_eq in H
  | H : (_ =? _)%N = false |- _ => apply N.eqb_neq in H
  | H : (_ =? _)%nat = true |- _ => apply Nat.eqb_eq in H
  | H : (_ =? _)%nat = false |- _ => apply Nat.eqb_neq in H
  | H : bool_decide _ = true |- _ => apply bool_decide_eq_true in H
  | H : bool_decide _ = false |- _ => apply bool_decide_eq_false in H
  | H : is_empty _ = true |- _ => apply is_empty_true in H
  | H : is_empty _ = false |- _ => apply is_empty_false in H
  | H : str_eqb _ _ = true |- _ => apply bool_decide_eq_true in H
  | H : str_eqb _ _ = false |- _ => apply bool_decide_eq_false in H
  end.

(** Case analysis on the conditions of the goal, outermost first. *)
Ltac split_ifs :=
  repeat (case_match; simplify_eq/=; try done).

(** ** Generic lemmas *)

Lemma str_eqb_eq a b : str_eqb a b = true <-> a = b.
Proof. apply bool_decide_eq_true. Qed.

Lemma str_eqb_refl a : str_eqb a a = true.
Proof. by apply str_eqb_eq. Qed.

Lemma starts_with_spec p s : starts_with p s = true <-> exists t, s = p ++ t.
Proof.
  revert s; induction p as [|x p IH]; intros s; simpl.
  - split; [eauto | done].
  - destruct s as [|y s]; [split; [done | by intros [? ?]]|].
    rewrite andb_true_iff, N.eqb_eq, IH. split.
    + intros [-> [t ->]]. by exists t.
    + intros [t [= -> ->]]. eauto.
Qed.

Lemma starts_with_app p t : starts_with p (p ++ t) = true.
Proof. apply starts_with_spec. eauto. Qed.

Lemma ends_with_spec p s : ends_with p s = true <-> exists t, s = t ++ p.
Proof.
  unfold ends_with. rewrite starts_with_spec. split.
  - intros [t Ht]. exists (reverse t).
    by rewrite <- (reverse_involutive s), Ht, reverse_app, reverse_involutive.
  - intros [t ->]. exists (reverse t). by rewrite reverse_app.
Qed.

Lemma find_Some p s i :
  find p s = Some i ->
  i <= length s /\ starts_with p (drop i s) = true /\
  forall j, j < i -> starts_with p (drop j s) = false.
Proof.
  revert i; induction s as [|c s IH]; intros i; simpl.
  - destruct (starts_with p []) eqn:E; [|done]. intros [= <-].
    rewrite drop_0. repeat split; [lia | done | lia].
  - destruct (starts_with p (c :: s)) eqn:E.
    + intros [= <-]. repeat split; [lia | done | lia].
    + destruct (find p s) as [k|]; [|done]. intros [= <-].
      destruct (IH k eq_refl) as (Hk & Hs & Hlt). repeat split; [lia | done |].
      intros [|j] Hj; [done | apply Hlt; lia].
Qed.

Lemma find_None p s : find p s = None -> forall j, j <= length s -> starts_with p (drop j s) = false.
Proof.
  induction s as [|c s IH]; simpl.
  - destruct (starts_with p []) eqn:E; [done|]. intros _ j Hj.
    destruct j; [done | lia].
  - destruct (starts_with p (c :: s)) eqn:E; [done|].
    destruct (find p s); [done|]. intros _ [|j] Hj; [done | apply IH; [done | lia]].
Qed.

Lemma contains_spec p s : contains p s = true <-> exists a b, s = a ++ p ++ b.
Proof.
  unfold contains. destruct (find p s) as [i|] eqn:E; (split; [intros Ht|intros Hs]); try done.
  - apply find_Some in E as (_ & Hs & _). apply starts_with_spec in Hs as [t Hdrop].
    exists (take i s), t. by rewrite <- Hdrop, take_drop.
  - destruct Hs as (a & b & ->).
    pose proof (find_None _ _ E (length a)) as H.
    rewrite drop_app_length, starts_with_app in H.
    rewrite length_app in H. discriminate H. lia.
Qed.

Lemma drop_while_nil_iff {A} (f : A -> bool) l :
  drop_while f l = [] <-> forallb f l = true.
Proof.
  induction l as [|x l IH]; simpl; [done|].
  destruct (f x); simpl; [exact IH | done].
Qed.

Lemma drop_while_suffix {A} (f : A -> bool) l :
  exists k, l = k ++ drop_while f l /\ forallb f k = true.
Proof.
  induction l as [|x l (k & Hk & Hf)]; simpl; [by exists []|].
  destruct (f x) eqn:E.
  - exists (x :: k). simpl. by rewrite E, <- Hk.
  - by exists [].
Qed.

Lemma utf8_len_app s t : utf8_len (s ++ t) = (utf8_len s + utf8_len t)%N.
Proof. induction s as [|c s IH]; simpl; [done | rewrite IH; lia]. Qed.

Lemma forallb_existsb_negb {A} (f : A -> bool) l :
  existsb f l = false <-> forall x, x ∈ l -> f x = false.
Proof.
  induction l as [|x l IH]; simpl; [set_solver|].
  rewrite orb_false_iff, IH. set_solver.
Qed.

Lemma existsb_elem {A} (f : A -> bool) l :
  existsb f l = true <-> exists x, x ∈ l /\ f x = true.
Proof. rewrite existsb_exists. by setoid_rewrite list_elem_of_In. Qed.

Lemma drop_while_stop {A} (f : A -> bool) (l k : list A) x :
  f x = false -> drop_while f (l ++ x :: k) <> [].
Proof. intros Hx. induction l as [|y l IH]; simpl; [by rewrite Hx|]. by destruct (f y). Qed.

(** A text with a visible character is not blank. *)
Lemma trim_visible s t c : is_whitespace c = false -> is_empty (trim (s ++ c :: t)) = false.
Proof.
  intros Hc. apply is_empty_false. unfold trim, trim_end, trim_start. intros H.
  assert (exists s', drop_while is_whitespace (s ++ c :: t) = s' ++ c :: t) as [s' E].
  { clear H. induction s as [|x s IH]; simpl; [rewrite Hc; by exists []|].
    destruct (is_whitespace x); [done|]. by exists (x :: s). }
  rewrite E, reverse_app, reverse_cons in H. apply (f_equal reverse) in H.
  rewrite reverse_involutive, <- app_assoc in H. simpl in H. by eapply drop_while_stop.
Qed.

Lemma drop_while_head {A} (f : A -> bool) (l k : list A) x : drop_while f l = x :: k -> f x = false.
Proof. induction l as [|y l IH]; simpl; [done|]. destruct (f y) eqn:E; [done|]. by intros [= <- <-]. Qed.

(** ** Hexadecimal numbers *)

Lemma hex_padded_length width n : length (hex_padded width n) = width.
Proof. revert n. induction width as [|w IH]; intros n; [done|]. cbn. rewrite length_app, IH. cbn. lia. Qed.

Lemma hex_digit_inj a b : (a < 16 -> b < 16 -> hex_digit a = hex_digit b -> a = b)%N.
Proof. unfold hex_digit. destruct (N.ltb_spec a 10), (N.ltb_spec b 10); lia. Qed.

Lemma hex_padded_inj width a b :
  (a < 16 ^ N.of_nat width -> b < 16 ^ N.of_nat width -> hex_padded width a = hex_padded width b -> a = b)%N.
Proof.
  revert a b. induction width as [|w IH]; intros a b Ha Hb; [cbn in *; lia|]. cbn [hex_padded].
  intros [H1 H2]%app_inj_2; [|done]. injection H2 as H2. apply hex_digit_inj in H2; [|apply N.mod_lt; lia..].
  rewrite Nat2N.inj_succ, N.pow_succ_r' in Ha, Hb. apply IH in H1; [|apply N.Div0.div_lt_upper_bound; lia..].
  rewrite (N.div_mod a 16), (N.div_mod b 16) by lia. lia.
Qed.

Lemma trim_trim_nonempty s : trim s <> [] -> trim (trim s) <> [].
Proof.
  intros H. destruct (drop_while is_whitespace (reverse (trim_start s))) as [|c l] eqn:E.
  - by destruct H; unfold trim, trim_end; rewrite E.
  - unfold trim at 2, trim_end at 1. rewrite E, reverse_cons. apply is_empty_false.
    apply (trim_visible _ []). by eapply drop_while_head.
Qed.

#[export] Hint Resolve starts_with_app str_eqb_refl : ains.

(** *** Pieces of text *)

Lemma find_single c a b : c ∉ a -> find [c] (a ++ c :: b) = Some (length a).
Proof.
  induction a as [|x a IH]; intros H; cbn [app find length].
  - cbn [starts_with]. by rewrite N.eqb_refl.
  - apply not_elem_of_cons in H as [Hx H]. cbn [starts_with].
    destruct (N.eqb_spec c x); [congruence|]. cbn [andb]. by rewrite IH.
Qed.

Lemma split_once_app c a b : c ∉ a -> split_once c (a ++ c :: b) = Some (a, b).
Proof.
  intros H. unfold split_once. rewrite find_single by done. cbn.
  rewrite take_app_length. f_equal. f_equal. rewrite drop_app_ge by lia.
  by replace (S (length a) - length a)%nat with 1%nat by lia.
Qed.

Lemma strip_suffix_app (s p : str) : strip_suffix p (s ++ p) = Some s.
Proof.
  unfold strip_suffix. rewrite (proj2 (ends_with_spec p (s ++ p))) by by exists s.
  f_equal. rewrite length_app. replace (length s + length p - length p)%nat with (length s) by lia.
  apply take_app_length.
Qed.

Lemma split_go_app c cur a b : c ∉ a -> split_go c cur (a ++ c :: b) = (reverse cur ++ a) :: split_on c b.
Proof.
  revert cur. induction a as [|x a IH]; intros cur H; cbn [app split_go].
  - by rewrite N.eqb_refl, app_nil_r.
  - apply not_elem_of_cons in H as [Hx H]. destruct (N.eqb_spec x c); [congruence|]. rewrite IH by done. by rewrite reverse_cons, <- app_assoc.
Qed.

Lemma split_on_app c a b : c ∉ a -> split_on c (a ++ c :: b) = a :: split_on c b.
Proof. intros H. unfold split_on at 1. by rewrite split_go_app. Qed.

Lemma split_go_end c cur a : c ∉ a -> split_go c cur a = [reverse cur ++ a].
Proof.
  revert cur. induction a as [|x a IH]; intros cur H; cbn [split_go]; [by rewrite app_nil_r|].
  apply not_elem_of_cons in H as [Hx H]. destruct (N.eqb_spec x c); [congruence|]. rewrite IH by done. by rewrite reverse_cons, <- app_assoc.
Qed.

Lemma split_on_end c a : c ∉ a -> split_on c a = [a].
Proof. intros H. unfold split_on. by rewrite split_go_end. Qed.

Lemma split_once_none c s : c ∉ s -> split_once c s = None.
Proof.
  intros H. unfold split_once. assert (find [c] s = None) as ->; [|done].
  induction s as [|x s IH]; [done|]. apply not_elem_of_cons in H as [Hx H]. cbn [find starts_with].
  destruct (N.eqb_spec c x); [congruence|]. cbn [andb]. by rewrite IH.
Qed.
