(* ===== verification/Fnmatch.v ===== *)
(** * Glob matching ([crates/rust-agent/src/fnmatch.rs])

    [fnmatch name pattern] is the code's single pass with one backtracking
    point; [Glob.spec] is the meaning of a pattern as the list of its tokens.
    The main results are that the loop always ends ([match_loop_terminates])
    and that it decides the specification ([match_here_spec]). *)

From S2P Require Import Prelude.

Definition star : char := 42%N.
Definition question : char := 63%N.
Definition lbracket : char := 91%N.
Definition rbracket : char := 93%N.
Definition bang : char := 33%N.
Definition dash : char := 45%N.

(** ** The matcher of the code *)

(** The [loop] of [match_class] that looks for the closing bracket: [e] is
    the index of the head of [rest]. *)
Fixpoint scan_close (rest : str) (class_start e : nat) : option nat :=
  match rest with
  | [] => None
  | c :: rest' =>
      if (c =? rbracket)%N && (class_start <? e) then Some e
      else scan_close rest' class_start (S e)
  end.

(** The [while j < members.len()] loop of [match_class]. *)
Fixpoint class_members_match (ch : char) (members : str) : bool :=
  match members with
  | [] => false
  | a :: rest =>
      match rest with
      | d :: b :: rest' =>
          if (d =? dash)%N
          then ((a <=? ch)%N && (ch <=? b)%N) || class_members_match ch rest'
          else (a =? ch)%N || class_members_match ch rest
      | _ => (a =? ch)%N || class_members_match ch rest
      end
  end.

Definition match_class (ch : char) (pattern : str) (start : nat) : option (bool * nat) :=
  let i := start + 1 in
  let negated := bool_decide (pattern !! i = Some bang) in
  let class_start := if negated then i + 1 else i in
  match scan_close (drop class_start pattern) class_start class_start with
  | None => None
  | Some e =>
      let members := take (e - class_start) (drop class_start pattern) in
      let matched := class_members_match ch members in
      Some (negb (Bool.eqb matched negated), e + 1)
  end.

#[global] Arguments match_class : simpl never.

(** The local variables of [match_here]. *)
Record cursor := Cursor {
  n : nat; p : nat; star_p : option nat; star_n : nat
}.

Inductive loop_step :=
| Next (s : cursor)
| Return (b : bool).

(** The tail of the loop body: back to the last [*], which takes one more
    character. *)
Definition backtrack (s : cursor) : loop_step :=
  match star_p s with
  | Some sp => Next (Cursor (star_n s + 1) (sp + 1) (Some sp) (star_n s + 1))
  | None => Return false
  end.

(** One turn of [while n < name.len()], and the return after it. *)
Definition match_step (name pattern : str) (s : cursor) : loop_step :=
  match name !! n s with
  | None => Return (forallb (N.eqb star) (drop (p s) pattern))
  | Some c =>
      match pattern !! p s with
      | None => backtrack s
      | Some x =>
          if (x =? star)%N then Next (Cursor (n s) (p s + 1) (Some (p s)) (n s))
          else if (x =? question)%N then Next (Cursor (n s + 1) (p s + 1) (star_p s) (star_n s))
          else if (x =? lbracket)%N then
            match match_class c pattern (p s) with
            | Some (true, next_p) => Next (Cursor (n s + 1) next_p (star_p s) (star_n s))
            | Some (false, _) => backtrack s
            | None =>
                if (x =? c)%N then Next (Cursor (n s + 1) (p s + 1) (star_p s) (star_n s))
                else backtrack s
            end
          else if (x =? c)%N then Next (Cursor (n s + 1) (p s + 1) (star_p s) (star_n s))
          else backtrack s
      end
  end.

Fixpoint match_loop (fuel : nat) (name pattern : str) (s : cursor) : option bool :=
  match fuel with
  | 0 => None
  | S k =>
      match match_step name pattern s with
      | Return b => Some b
      | Next s' => match_loop k name pattern s'
      end
  end.

Definition match_fuel (name pattern : str) : nat :=
  S ((length name + 1) * (length pattern + 1)).

Definition match_here (name pattern : str) : bool :=
  default false (match_loop (match_fuel name pattern) name pattern (Cursor 0 0 None 0)).

Definition fnmatch (name pattern : str) : bool := match_here name pattern.

(** ** Specification *)

Module Glob.

(** What one position of a pattern stands for. *)
Inductive token :=
| Any                                       (* [*] *)
| Single                                    (* [?] *)
| Literal (x : char)
| Class (negated : bool) (members : str).   (* [[...]], [[!...]] *)

Definition accepts (t : token) (c : char) : bool :=
match t with
| Any => false
| Single => true
| Literal x => (x =? c)%N
| Class negated members => negb (Bool.eqb (class_members_match c members) negated)
end.

(** The class that an opening bracket at index [i] starts, if it is closed:
  its contents, and the index after it. *)
Definition class_at (pattern : str) (i : nat) : option (bool * str * nat) :=
let negated := bool_decide (pattern !! (i + 1) = Some bang) in
let first := if negated then i + 2 else i + 1 in
match scan_close (drop first pattern) first first with
| None => None
| Some e => Some (negated, take (e - first) (drop first pattern), e + 1)
end.

(** The pattern from index [i] on, read one token at a time; [skip] counts
  the characters of a class that are already read. *)
Fixpoint tokens (pattern rest : str) (i skip : nat) : list token :=
match rest with
| [] => []
| x :: rest' =>
    match skip with
    | S k => tokens pattern rest' (S i) k
    | 0 =>
        if (x =? star)%N then Any :: tokens pattern rest' (S i) 0
        else if (x =? question)%N then Single :: tokens pattern rest' (S i) 0
        else if (x =? lbracket)%N then
          match class_at pattern i with
          | Some (negated, members, next) =>
              Class negated members :: tokens pattern rest' (S i) (next - i - 1)
          | None => Literal x :: tokens pattern rest' (S i) 0
          end
        else Literal x :: tokens pattern rest' (S i) 0
    end
end.

Definition tokens_at (pattern : str) (i : nat) : list token :=
tokens pattern (drop i pattern) i 0.

Inductive matches : list token -> str -> Prop :=
| matches_nil : matches [] []
| matches_any ts s1 s2 : matches ts s2 -> matches (Any :: ts) (s1 ++ s2)
| matches_one t ts c s : accepts t c = true -> matches ts s -> matches (t :: ts) (c :: s).

(** The whole of [name] is described by [pattern]. *)
Definition spec (name pattern : str) : Prop := matches (tokens_at pattern 0) name.

End Glob.
Import Glob.

(** ** Character classes *)

Lemma scan_close_bounds rest cs e r :
  scan_close rest cs e = Some r -> cs < r /\ e <= r < e + length rest.
Proof.
  revert e; induction rest as [|c rest IH]; intros e; simpl; [done|].
  destruct (_ && _) eqn:E.
  - intros [= <-]. bool_to_prop. match goal with H : (_ <? _) = true |- _ => apply Nat.ltb_lt in H end. lia.
  - intros H. apply IH in H. lia.
Qed.

Lemma class_at_bounds pattern i neg ms e :
  class_at pattern i = Some (neg, ms, e) -> i + 1 < e <= length pattern.
Proof.
  unfold class_at. case_match eqn:E; [|done]. intros [= <- <- <-].
  apply scan_close_bounds in E. rewrite length_drop in E. case_bool_decide; lia.
Qed.

(** The code reads the class and tests the character in one function. *)
Lemma match_class_class_at c pattern i :
  match_class c pattern i =
  (fun '(neg, ms, e) => (accepts (Class neg ms) c, e)) <$> class_at pattern i.
Proof.
  unfold match_class, class_at.
  replace (i + 1 + 1) with (i + 2) by lia. by case_match.
Qed.

(** ** Reading the tokens of a pattern *)

Lemma tokens_skip pattern rest i k :
  tokens pattern rest i k = tokens pattern (drop k rest) (i + k) 0.
Proof.
  revert i k; induction rest as [|x rest IH]; intros i [|k]; simpl; try done.
  - by rewrite Nat.add_0_r.
  - rewrite IH. f_equal. lia.
Qed.

Lemma drop_lookup_cons {A} (l : list A) i x : l !! i = Some x -> drop i l = x :: drop (S i) l.
Proof. intros H. by rewrite (drop_S l x i H). Qed.

Lemma tokens_at_end pattern i : length pattern <= i -> tokens_at pattern i = [].
Proof. intros H. unfold tokens_at. by rewrite drop_ge. Qed.

Lemma tokens_at_star pattern i :
  pattern !! i = Some star -> tokens_at pattern i = Any :: tokens_at pattern (i + 1).
Proof.
  intros H. unfold tokens_at. rewrite (drop_lookup_cons _ _ _ H). simpl.
  by rewrite Nat.add_1_r.
Qed.

Lemma tokens_at_class pattern i neg ms e :
  pattern !! i = Some lbracket -> class_at pattern i = Some (neg, ms, e) ->
  tokens_at pattern i = Class neg ms :: tokens_at pattern e.
Proof.
  intros H Hc. unfold tokens_at. rewrite (drop_lookup_cons _ _ _ H).
  apply class_at_bounds in Hc as He. cbn [tokens].
  rewrite Hc. cbn. f_equal. rewrite tokens_skip, drop_drop. f_equal; [f_equal|]; lia.
Qed.

(** A position that is neither [*] nor a class matches one character. *)
Definition literal_ok (x c : char) : bool := (x =? question)%N || (x =? c)%N.

Lemma tokens_at_literal pattern i x :
  pattern !! i = Some x -> x <> star -> (x = lbracket -> class_at pattern i = None) ->
  exists t, tokens_at pattern i = t :: tokens_at pattern (i + 1) /\ t <> Any /\
    forall c, accepts t c = literal_ok x c.
Proof.
  intros H Hs Hb. unfold tokens_at, literal_ok. rewrite (drop_lookup_cons _ _ _ H). cbn [tokens].
  rewrite Nat.add_1_r. apply N.eqb_neq in Hs. rewrite Hs.
  destruct (x =? question)%N eqn:E; [by exists Single|].
  destruct (x =? lbracket)%N eqn:El; [|by exists (Literal x)].
  apply N.eqb_eq in El as ->. rewrite Hb by done. by exists (Literal lbracket).
Qed.

(** Every position before the end starts a token. *)
Lemma tokens_at_cons pattern i x :
  pattern !! i = Some x ->
  exists t e, tokens_at pattern i = t :: tokens_at pattern e /\ i < e <= length pattern /\
    (t = Any <-> x = star).
Proof.
  intros Hx. pose proof (lookup_lt_Some _ _ _ Hx).
  destruct (decide (x = star)) as [->|Hs].
  { exists Any, (i + 1). rewrite tokens_at_star by done. split; [done|]. split; [lia | done]. }
  destruct (decide (x = lbracket)) as [->|Hl].
  - destruct (class_at pattern i) as [[[neg ms] e]|] eqn:E.
    + exists (Class neg ms), e. rewrite (tokens_at_class _ _ _ _ _ Hx E).
      apply class_at_bounds in E. split; [done|]. split; [lia | done].
    + destruct (tokens_at_literal _ _ _ Hx Hs) as (t & Ht & ? & _); [done|].
      exists t, (i + 1). split; [done|]. split; [lia | done].
  - destruct (tokens_at_literal _ _ _ Hx Hs) as (t & Ht & ? & _); [done|].
    exists t, (i + 1). split; [done|]. split; [lia | done].
Qed.

(** ** Matching tokens *)

Lemma matches_any_iff ts s :
  matches (Any :: ts) s <-> exists k, k <= length s /\ matches ts (drop k s).
Proof.
  split.
  - inversion 1; subst; [|done]. exists (length s1).
    rewrite length_app, drop_app_length. split; [lia | done].
  - intros (k & _ & H). rewrite <- (take_drop k s). by constructor.
Qed.

Lemma matches_one_iff t ts c s :
  t <> Any -> matches (t :: ts) (c :: s) <-> accepts t c = true /\ matches ts s.
Proof. intros Ht. split; [by inversion 1 | intros []; by constructor]. Qed.

Lemma matches_one_nil t ts : t <> Any -> ~ matches (t :: ts) [].
Proof. intros Ht. by inversion 1. Qed.

Lemma matches_nil_cons c s : ~ matches [] (c :: s).
Proof. by inversion 1. Qed.

Lemma matches_app ts1 ts2 s1 s2 :
  matches ts1 s1 -> matches ts2 s2 -> matches (ts1 ++ ts2) (s1 ++ s2).
Proof.
  intros H H2. induction H; simpl; [done| |by constructor].
  rewrite <- app_assoc. by constructor.
Qed.

(** A run of one-character tokens. *)
Definition fixed (seg : list token) : Prop := Forall (fun t => t <> Any) seg.

Lemma matches_fixed_app seg ts s :
  fixed seg -> matches (seg ++ ts) s -> length seg <= length s /\ matches ts (drop (length seg) s).
Proof.
  intros Hf; revert s; induction Hf as [|t seg Hne Hf IH]; intros s Hm; simpl in *.
  - split; [lia | done].
  - inversion Hm; subst; [done|].
    match goal with H : matches (seg ++ ts) ?s0 |- _ => destruct (IH s0 H) end.
    simpl. split; [lia | done].
Qed.

Lemma tokens_at_nil_iff pattern i :
  i <= length pattern ->
  matches (tokens_at pattern i) [] <-> forallb (N.eqb star) (drop i pattern) = true.
Proof.
  remember (length pattern - i) as k eqn:Hk. revert i Hk.
  induction k as [|k IH]; intros i Hk Hi.
  - rewrite tokens_at_end, drop_ge by lia. split; [done | constructor].
  - destruct (lookup_lt_is_Some_2 pattern i) as [x Hx]; [lia|].
    rewrite (drop_lookup_cons _ _ _ Hx). cbn [forallb].
    rewrite andb_true_iff, N.eqb_eq.
    destruct (decide (x = star)) as [->|Hne].
    + rewrite tokens_at_star, matches_any_iff, Nat.add_1_r by done.
      rewrite <- (IH (S i)) by lia. split.
      * intros (k' & Hk' & H). simpl in Hk'. replace k' with 0 in H by lia. done.
      * intros [_ H]. exists 0. split; [simpl; lia | done].
    + split; [|intros [? _]; congruence]. intros Hm. exfalso.
      destruct (tokens_at_cons _ _ _ Hx) as (t & e & Heq & _ & Ht).
      rewrite Heq in Hm. apply matches_one_nil in Hm; [done|]. by rewrite Ht.
Qed.

(** ** The loop decides the specification *)

Section Loop.
Context (name pattern : str).
Abbreviation T := (tokens_at pattern).

(** What is left to try: at the cursor, or with the last [*] taking more. *)
Definition candidates (s : cursor) : Prop :=
  matches (T (p s)) (drop (n s) name) \/
  exists sp k, star_p s = Some sp /\ star_n s < k <= length name /\
    matches (T (sp + 1)) (drop k name).

Record loop_inv (s : cursor) : Prop := {
  inv_n : n s <= length name;
  inv_p : p s <= length pattern;
  inv_star_n : star_n s <= n s;
  (* since the last [*] the cursor went over single-character tokens *)
  inv_seg : forall sp, star_p s = Some sp -> sp < length pattern /\
    exists seg, fixed seg /\ T (sp + 1) = seg ++ T (p s) /\ length seg = n s - star_n s;
  inv_spec : spec name pattern <-> candidates s
}.

Definition measure (s : cursor) : nat :=
  (length name - star_n s) * (length pattern + 1) + (length pattern - p s).

Definition step_ok (s : cursor) (r : loop_step) : Prop :=
  match r with
  | Next s' => loop_inv s' /\ measure s' < measure s
  | Return b => b = true <-> spec name pattern
  end.

Lemma loop_inv_init : loop_inv (Cursor 0 0 None 0).
Proof.
  constructor; simpl; try lia; [done|].
  unfold spec, candidates; simpl. rewrite drop_0. naive_solver.
Qed.

Lemma step_advance s c t p' :
  loop_inv s -> name !! n s = Some c -> T (p s) = t :: T p' -> t <> Any -> accepts t c = true ->
  p s < p' <= length pattern ->
  step_ok s (Next (Cursor (n s + 1) p' (star_p s) (star_n s))).
Proof.
  intros I Hc HT Ht Hok Hp. pose proof (lookup_lt_Some _ _ _ Hc). destruct I as [In Ip Isn Iseg Ispec].
  split; [constructor; simpl; try lia|unfold measure; simpl; lia].
  - intros sp Hsp. destruct (Iseg sp Hsp) as (? & seg & Hf & Heq & Hlen). split; [done|].
    exists (seg ++ [t]). rewrite <- app_assoc, length_app. simpl. rewrite <- HT.
    split; [|split; [done | lia]]. apply Forall_app. split; [done|]. by repeat constructor.
  - rewrite Ispec. unfold candidates; simpl.
    rewrite HT, (drop_lookup_cons _ _ _ Hc), matches_one_iff, Nat.add_1_r by done. naive_solver.
Qed.

Lemma step_backtrack s c :
  loop_inv s -> name !! n s = Some c -> ~ matches (T (p s)) (drop (n s) name) ->
  step_ok s (backtrack s).
Proof.
  intros I Hc Hno. pose proof (lookup_lt_Some _ _ _ Hc). destruct I as [In Ip Isn Iseg Ispec].
  unfold backtrack. destruct (star_p s) as [sp|] eqn:Es; simpl.
  - destruct (Iseg sp eq_refl) as (? & _).
    split; [constructor; simpl; try lia|unfold measure; simpl; nia].
    + intros sp' [= <-]. split; [done|]. exists []. split; [constructor|]. split; [done | simpl; lia].
    + rewrite Ispec. unfold candidates; simpl. rewrite Es. split.
      * intros [?|(sp' & k & [= <-] & Hk & Hm)]; [done|].
        destruct (decide (k = star_n s + 1)) as [->|]; [by left|].
        right. exists sp, k. split; [done|]. split; [lia | done].
      * intros [Hm|(sp' & k & [= <-] & Hk & Hm)]; right.
        -- exists sp, (star_n s + 1). split; [done|]. split; [lia | done].
        -- exists sp, k. split; [done|]. split; [lia | done].
  - split; [done|]. rewrite Ispec. unfold candidates. rewrite Es. naive_solver.
Qed.

(** A new [*] makes the alternatives of the previous one superfluous. *)
Lemma step_star s c :
  loop_inv s -> name !! n s = Some c -> pattern !! p s = Some star ->
  step_ok s (Next (Cursor (n s) (p s + 1) (Some (p s)) (n s))).
Proof.
  intros I Hc Hp. pose proof (lookup_lt_Some _ _ _ Hc). pose proof (lookup_lt_Some _ _ _ Hp).
  destruct I as [In Ip Isn Iseg Ispec].
  split; [constructor; simpl; try lia|unfold measure; simpl; nia].
  - intros sp [= <-]. split; [done|]. exists []. split; [constructor|]. split; [done | simpl; lia].
  - assert (spec name pattern <->
      exists k, n s <= k <= length name /\ matches (T (p s + 1)) (drop k name)) as ->.
    { rewrite Ispec. unfold candidates. rewrite (tokens_at_star _ _ Hp), matches_any_iff, length_drop.
      setoid_rewrite drop_drop. split.
      - intros [(k & Hk & Hm)|(sp & k & Hsp & Hk & Hm)].
        + exists (n s + k). split; [lia | done].
        + destruct (Iseg sp Hsp) as (_ & seg & Hf & Heq & Hlen). rewrite Heq in Hm.
          apply matches_fixed_app in Hm as [Hl Hm]; [|done].
          rewrite (tokens_at_star _ _ Hp), matches_any_iff in Hm.
          destruct Hm as (k' & Hk' & Hm). rewrite !drop_drop in Hm.
          rewrite !length_drop in Hk'. rewrite length_drop in Hl.
          eexists; split; [|exact Hm]. lia.
      - intros (k & Hk & Hm). left. exists (k - n s). split; [lia|].
        by replace (n s + (k - n s)) with k by lia. }
    unfold candidates; simpl. split.
    + intros (k & Hk & Hm). destruct (decide (k = n s)) as [->|]; [by left|].
      right. exists (p s), k. split; [done|]. split; [lia | done].
    + intros [Hm|(sp & k & [= <-] & Hk & Hm)]; [exists (n s) | exists k]; (split; [lia | done]).
Qed.

Lemma step_end s :
  loop_inv s -> length name <= n s ->
  step_ok s (Return (forallb (N.eqb star) (drop (p s) pattern))).
Proof.
  intros [In Ip Isn Iseg Ispec] Hn. simpl.
  rewrite <- tokens_at_nil_iff, Ispec by done. unfold candidates.
  rewrite (drop_ge name (n s)) by lia. split; [by left|].
  intros [?|(sp & k & Hsp & Hk & Hm)]; [done|].
  destruct (Iseg sp Hsp) as (_ & seg & Hf & Heq & Hlen). rewrite Heq in Hm.
  apply matches_fixed_app in Hm as [Hl _]; [|done]. rewrite length_drop in Hl. lia.
Qed.

Lemma match_step_ok s : loop_inv s -> step_ok s (match_step name pattern s).
Proof.
  intros I. unfold match_step. destruct (name !! n s) as [c|] eqn:Hc.
  2:{ apply step_end; [done | by apply lookup_ge_None]. }
  pose proof (drop_lookup_cons _ _ _ Hc) as Hd.
  destruct (pattern !! p s) as [x|] eqn:Hx.
  2:{ apply (step_backtrack _ c); [done..|]. apply lookup_ge_None in Hx.
      rewrite tokens_at_end, Hd by done. apply matches_nil_cons. }
  pose proof (lookup_lt_Some _ _ _ Hx) as Hlt.
  assert (x <> star -> (x = lbracket -> class_at pattern (p s) = None) ->
    step_ok s (if literal_ok x c then Next (Cursor (n s + 1) (p s + 1) (star_p s) (star_n s))
               else backtrack s)) as Hlit.
  { intros Hs Hb. destruct (tokens_at_literal _ _ _ Hx Hs Hb) as (t & HT & Ht & Hok).
    specialize (Hok c). destruct (literal_ok x c) eqn:El.
    - eapply step_advance; eauto; lia.
    - eapply step_backtrack; eauto. rewrite HT, Hd, matches_one_iff, Hok by done. by intros [? _]. }
  unfold literal_ok in Hlit.
  destruct (x =? star)%N eqn:Es; [apply N.eqb_eq in Es as ->; by apply (step_star _ c)|].
  apply N.eqb_neq in Es. specialize (Hlit Es).
  destruct (x =? question)%N eqn:Eq; simpl in Hlit.
  { apply N.eqb_eq in Eq as ->. by apply Hlit. }
  destruct (x =? lbracket)%N eqn:El; [|by apply Hlit; apply N.eqb_neq in El].
  apply N.eqb_eq in El as ->. rewrite match_class_class_at.
  destruct (class_at pattern (p s)) as [[[neg ms] e]|] eqn:Em; cbn [fmap option_fmap option_map];
    [|by apply Hlit].
  pose proof (tokens_at_class _ _ _ _ _ Hx Em) as HT.
  pose proof (class_at_bounds _ _ _ _ _ Em) as He.
  destruct (accepts (Class neg ms) c) eqn:Eok.
  - eapply step_advance; eauto; lia.
  - eapply step_backtrack; eauto. rewrite HT, Hd, matches_one_iff, Eok by done. by intros [? _].
Qed.

Lemma match_loop_ok fuel s :
  loop_inv s -> measure s < fuel ->
  exists b, match_loop fuel name pattern s = Some b /\ (b = true <-> spec name pattern).
Proof.
  revert s; induction fuel as [|fuel IH]; intros s I Hm; [lia|]. simpl.
  pose proof (match_step_ok s I) as Hs. destruct (match_step name pattern s) as [s'|b]; simpl in Hs.
  - apply IH; [apply Hs | destruct Hs; lia].
  - eauto.
Qed.
End Loop.

Lemma match_fuel_enough name pattern :
  measure name pattern (Cursor 0 0 None 0) < match_fuel name pattern.
Proof. unfold measure, match_fuel; simpl. nia. Qed.

Lemma fnmatch_iff name pattern : fnmatch name pattern = true <-> spec name pattern.
Proof.
  unfold fnmatch, match_here.
  destruct (match_loop_ok name pattern _ _ (loop_inv_init name pattern) (match_fuel_enough _ _))
    as (b & -> & Hb). exact Hb.
Qed.

(** ** Directory patterns: [pattern/*] *)

Lemma scan_close_app r suf cs e :
  rbracket ∉ suf -> scan_close (r ++ suf) cs e = scan_close r cs e.
Proof.
  intros Hs. revert e; induction r as [|c r IH]; intros e; simpl.
  - revert e; induction suf as [|c suf IH]; intros e; simpl; [done|].
    replace (c =? rbracket)%N with false by (symmetry; apply N.eqb_neq; set_solver).
    apply IH. set_solver.
  - by rewrite IH.
Qed.

Lemma class_at_app pattern suf i :
  i < length pattern -> rbracket ∉ suf -> head suf <> Some bang ->
  class_at (pattern ++ suf) i = class_at pattern i.
Proof.
  intros Hi Hs Hh. unfold class_at.
  assert (bool_decide ((pattern ++ suf) !! (i + 1) = Some bang)
          = bool_decide (pattern !! (i + 1) = Some bang)) as ->.
  { apply bool_decide_ext. destruct (decide (i + 1 < length pattern)).
    - by rewrite lookup_app_l.
    - rewrite lookup_app_r, (lookup_ge_None_2 pattern) by lia.
      replace (i + 1 - length pattern) with 0 by lia. destruct suf; simpl in *; naive_solver. }
  set (first := if bool_decide _ then _ else _).
  assert (first <= length pattern) as Hf.
  { subst first. case_bool_decide as Hb; [apply lookup_lt_Some in Hb|]; lia. }
  rewrite drop_app_le, scan_close_app by done.
  destruct (scan_close _ _ _) eqn:E; [|done].
  apply scan_close_bounds in E. rewrite take_app_le by (rewrite length_drop in *; lia). done.
Qed.

Lemma tokens_at_app pattern suf i :
  rbracket ∉ suf -> head suf <> Some bang -> i <= length pattern ->
  tokens_at (pattern ++ suf) i = tokens_at pattern i ++ tokens_at (pattern ++ suf) (length pattern).
Proof.
  intros Hs Hh. remember (length pattern - i) as k eqn:Hk. revert i Hk.
  induction (lt_wf k) as [k _ IH]; intros i Hk Hi.
  destruct (pattern !! i) as [x|] eqn:Hx.
  2:{ apply lookup_ge_None in Hx. rewrite (tokens_at_end pattern) by done.
      by replace i with (length pattern) by lia. }
  pose proof (lookup_lt_Some _ _ _ Hx).
  assert ((pattern ++ suf) !! i = Some x) as Hx' by by rewrite lookup_app_l.
  assert (forall e, i < e <= length pattern ->
    tokens_at (pattern ++ suf) e = tokens_at pattern e ++ tokens_at (pattern ++ suf) (length pattern))
    as IH' by (intros e He; eapply (IH (length pattern - e)); lia).
  unfold tokens_at at 1 2. rewrite (drop_lookup_cons _ _ _ Hx), (drop_lookup_cons _ _ _ Hx').
  cbn [tokens]. rewrite class_at_app by done.
  assert (forall e, tokens pattern (drop (S i) pattern) (S i) e = tokens_at pattern (S i + e)) as E1
    by (intros e; unfold tokens_at; by rewrite tokens_skip, drop_drop).
  assert (forall e, tokens (pattern ++ suf) (drop (S i) (pattern ++ suf)) (S i) e
    = tokens_at (pattern ++ suf) (S i + e)) as E2
    by (intros e; unfold tokens_at; by rewrite tokens_skip, drop_drop).
  repeat case_match; rewrite E1, E2; cbn; f_equal; apply IH'; try lia.
  match goal with H : class_at _ _ = _ |- _ => apply class_at_bounds in H end. lia.
Qed.

(** The tokens of a pattern followed by [/*]. *)
Lemma tokens_at_dir pattern :
  tokens_at (pattern ++ lit "/*") 0 = tokens_at pattern 0 ++ [Literal slash; Any].
Proof.
  rewrite tokens_at_app; [|vm_compute; set_solver|done|lia]. f_equal.
  unfold tokens_at. rewrite drop_app_length. reflexivity.
Qed.

Lemma matches_snoc_any ts s r : matches (ts ++ [Any]) s -> matches (ts ++ [Any]) (s ++ r).
Proof.
  remember (ts ++ [Any]) as l eqn:Hl. intros H; revert ts Hl.
  induction H as [|l s1 s2 H IH|t l c s Ha H IH]; intros ts Hl.
  - by destruct ts.
  - destruct ts as [|t ts]; simplify_eq/=.
    + rewrite <- (app_nil_r ((s1 ++ s2) ++ r)). repeat constructor.
    + rewrite <- app_assoc. constructor. by eapply IH.
  - destruct ts as [|t' ts]; simplify_eq/=. constructor; [done|]. by eapply IH.
Qed.

(** What is beneath a matched directory is matched by the [/*] form. *)
Lemma fnmatch_beneath dir pattern rest :
  fnmatch dir pattern = true -> fnmatch (dir ++ slash :: rest) (pattern ++ lit "/*") = true.
Proof.
  rewrite !fnmatch_iff. unfold spec. rewrite tokens_at_dir. intros H.
  apply matches_app; [done|]. constructor; [done|].
  rewrite <- (app_nil_r rest). repeat constructor.
Qed.

Lemma fnmatch_dir_extend name pattern rest :
  fnmatch name (pattern ++ lit "/*") = true -> fnmatch (name ++ rest) (pattern ++ lit "/*") = true.
Proof.
  rewrite !fnmatch_iff. unfold spec. rewrite tokens_at_dir.
  change [Literal slash; Any] with ([Literal slash] ++ [Any]). rewrite app_assoc.
  apply matches_snoc_any.
Qed.

(** C35: the glob matcher of the permission engine is exactly the meaning of
    the pattern: [fnmatch] answers true when, and only when, the whole name
    is described by the pattern read as [*] (any run of characters, path
    separators included), [?] (one character), [[...]] and [[!...]] classes
    with ranges, and literals; an unclosed bracket is a literal. *)
Theorem fnmatch_spec name pattern :
  fnmatch name pattern = true <-> spec name pattern.
Proof. apply fnmatch_iff. Qed.

(** The matching loop always returns: from its initial cursor it reaches
    a [return] within [(|name| + 1) * (|pattern| + 1) + 1] turns, whatever the
    two strings are. *)
Theorem match_loop_terminates name pattern :
  exists b, match_loop (match_fuel name pattern) name pattern (Cursor 0 0 None 0) = Some b.
Proof.
  destruct (match_loop_ok name pattern _ _ (loop_inv_init name pattern) (match_fuel_enough _ _))
    as (b & H & _). eauto.
Qed.
