(* ===== verification/SandboxPolicy.v ===== *)
(** * Portable sandbox policy ([crates/rust-agent/src/policy/sandbox_policy.rs])

    Network rules, the four filesystem quadrants and the SBPL profile that the
    macOS shell backend is started with.  The host platform ([cfg(target_os)])
    is the parameter [windows] of [Target]. *)

From S2P Require Import Prelude Fnmatch.

(** The build target: what [cfg(target_os = "windows")] selects. *)
Class Target := { windows : bool }.

Definition dot : char := 46%N.

(** ** Network *)

Record NetworkPolicy := {
  allowed_domains : list str;
  denied_domains : list str
}.

Section Network.
Context {U : Unicode}.

Definition domain_matches (host rule : str) : bool :=
  let rule := to_lowercase (trim_end_matches dot (trim rule)) in
  if str_eqb rule (lit "*") then true
  else
    let rule := default rule (strip_prefix (lit "*.") rule) in
    if is_empty rule then false
    else str_eqb host rule || ends_with (lit "." ++ rule) host.

Definition allows_host (policy : NetworkPolicy) (host : str) : bool :=
  let host := to_lowercase (trim_end_matches dot host) in
  if existsb (domain_matches host) (denied_domains policy) then false
  else if is_empty (allowed_domains policy) then true
  else existsb (domain_matches host) (allowed_domains policy).

Definition check_host (policy : NetworkPolicy) (host : str) : result unit str :=
  if allows_host policy host then Ok tt
  else Err (lit "host " ++ host ++ lit " is blocked by the sandbox network policy").

Definition blocks_all (policy : NetworkPolicy) : bool :=
  existsb (fun rule => str_eqb (trim rule) (lit "*")) (denied_domains policy).
End Network.

(** ** Filesystem *)

Record FilesystemPolicy := {
  allow_read : list str;
  deny_read : list str;
  allow_write : list str;
  deny_write : list str
}.

(** [FilesystemPolicy::default()]. *)
Definition filesystem_default : FilesystemPolicy := Build_FilesystemPolicy [] [] [] [].

Section Filesystem.
Context {T : Target}.

Definition fs_path_matches (path pattern : str) : bool :=
  let path := replace_char backslash [slash] path in
  let pattern := replace_char backslash [slash] pattern in
  let '(path, pattern) :=
    if windows then (to_ascii_lowercase path, to_ascii_lowercase pattern)
    else (path, pattern) in
  if forallb (N.eqb slash) pattern then negb (is_empty pattern)
  else
    let pattern := trim_end_matches slash pattern in
    if is_empty pattern then false
    else fnmatch path pattern
         || str_eqb path pattern
         || starts_with (pattern ++ lit "/") path
         || fnmatch path (pattern ++ lit "/*").

Definition quadrant_allows (path : str) (allow deny : list str) : bool :=
  if existsb (fs_path_matches path) deny then false
  else if is_empty allow then true
  else existsb (fs_path_matches path) allow.

Definition can_read (policy : FilesystemPolicy) (path : str) : bool :=
  quadrant_allows path (allow_read policy) (deny_read policy).

Definition can_write (policy : FilesystemPolicy) (path : str) : bool :=
  quadrant_allows path (allow_write policy) (deny_write policy).
End Filesystem.

(** ** The whole policy *)

Record SandboxPolicy := {
  network : NetworkPolicy;
  filesystem : FilesystemPolicy
}.

Definition shell_cwd_is_allowed `{Target} (policy : SandboxPolicy) (cwd : str) : bool :=
  can_read (filesystem policy) cwd && can_write (filesystem policy) cwd.

Definition requires_shell_policy_enforcement (policy : SandboxPolicy) : bool :=
  negb (is_empty (allowed_domains (network policy)))
  || negb (is_empty (denied_domains (network policy)))
  || negb (is_empty (allow_read (filesystem policy)))
  || negb (is_empty (deny_read (filesystem policy)))
  || negb (is_empty (allow_write (filesystem policy)))
  || negb (is_empty (deny_write (filesystem policy))).

(** ** The macOS profile *)

Definition MACOS_SYSTEM_READ_SUBPATHS : list str :=
  [ lit "/usr"; lit "/bin"; lit "/sbin"; lit "/System"; lit "/Library";
    lit "/private/var/db/dyld"; lit "/dev" ].

Definition MACOS_SYSTEM_READ_LITERALS : list str :=
  [ lit "/etc/hosts"; lit "/etc/resolv.conf"; lit "/etc/nsswitch.conf";
    lit "/private/etc/hosts"; lit "/private/etc/resolv.conf";
    lit "/private/etc/nsswitch.conf" ].

Definition sbpl_escape (path : str) : str :=
  replace_char dquote [backslash; dquote] (replace_char backslash [backslash; backslash] path).

(** [Path::is_absolute] on the macOS host of this function. *)
Definition is_absolute (path : str) : bool := starts_with [slash] path.

Definition has_glob_meta (s : str) : bool :=
  existsb (fun c => (c =? star)%N || (c =? question)%N || (c =? lbracket)%N) s.

Definition sbpl_bindable (entry : str) : option str :=
  let trimmed := trim entry in
  if is_empty trimmed || has_glob_meta trimmed then None
  else if is_absolute trimmed then Some trimmed else None.

Definition macos_shell_policy_is_enforceable (policy : SandboxPolicy) : bool :=
  if negb (is_empty (allowed_domains (network policy)))
     || (negb (is_empty (denied_domains (network policy))) && negb (blocks_all (network policy)))
  then false
  else forallb (fun entry => match sbpl_bindable entry with Some _ => true | None => false end)
         (allow_read (filesystem policy) ++ allow_write (filesystem policy)
          ++ deny_read (filesystem policy) ++ deny_write (filesystem policy)).

Definition nl : str := [newline].
(** A quoted SBPL string. *)
Definition sbpl_quote (s : str) : str := [dquote] ++ sbpl_escape s ++ [dquote].

Definition sbpl_subpath_line (path : str) : str :=
  lit "  (subpath " ++ sbpl_quote path ++ lit ")" ++ nl.

Definition sbpl_literal_line (path : str) : str :=
  lit "  (literal " ++ sbpl_quote path ++ lit ")" ++ nl.

(** The lines of the bindable entries, the others skipped. *)
Definition sbpl_entries (line : str -> str) (entries : list str) : str :=
  entries ≫= (fun entry => match sbpl_bindable entry with Some path => line path | None => [] end).

Definition sbpl_deny_line (operation : str) (path : str) : str :=
  lit "(deny " ++ operation ++ lit " (subpath " ++ sbpl_quote path ++ lit "))" ++ nl.

Definition sbpl_prologue : str :=
  lit "(version 1)" ++ nl ++ lit "(deny default)" ++ nl
  ++ lit "(allow process-fork)" ++ nl ++ lit "(allow process-exec)" ++ nl
  ++ lit "(allow sysctl-read)" ++ nl ++ lit "(allow mach-lookup)" ++ nl
  ++ lit "(allow signal (target self))" ++ nl.

Definition sbpl_reads (fs : FilesystemPolicy) (cwd : str) : str :=
  (if is_empty (allow_read fs) then lit "(allow file-read*)" ++ nl
   else lit "(allow file-read*" ++ nl
        ++ (MACOS_SYSTEM_READ_SUBPATHS ≫= sbpl_subpath_line)
        ++ (MACOS_SYSTEM_READ_LITERALS ≫= sbpl_literal_line)
        ++ sbpl_entries sbpl_subpath_line (allow_read fs)
        ++ lit "  (subpath " ++ sbpl_quote cwd ++ lit "))" ++ nl)
  ++ sbpl_entries (sbpl_deny_line (lit "file-read*")) (deny_read fs).

Definition sbpl_writes (fs : FilesystemPolicy) (cwd : str) : str :=
  lit "(allow file-write*" ++ nl ++ sbpl_subpath_line cwd
  ++ sbpl_entries sbpl_subpath_line (allow_write fs)
  ++ sbpl_literal_line (lit "/dev/null") ++ sbpl_literal_line (lit "/dev/stdout")
  ++ lit "  (literal " ++ sbpl_quote (lit "/dev/stderr") ++ lit "))" ++ nl
  ++ sbpl_entries (sbpl_deny_line (lit "file-write*")) (deny_write fs).

Definition macos_sbpl_profile (policy : SandboxPolicy) (cwd : str) : str :=
  sbpl_prologue
  ++ sbpl_reads (filesystem policy) cwd
  ++ sbpl_writes (filesystem policy) cwd
  ++ (if blocks_all (network policy) then [] else lit "(allow network*)" ++ nl).

(** ** Network rules *)

Section NetworkFacts.
Context {U : Unicode}.

(** A rule as [domain_matches] reads it. *)
Definition rule_domain (rule : str) : str :=
  let rule := to_lowercase (trim_end_matches dot (trim rule)) in
  default rule (strip_prefix (lit "*.") rule).

Definition rule_is_wildcard (rule : str) : Prop :=
  to_lowercase (trim_end_matches dot (trim rule)) = lit "*".

Lemma domain_matches_iff host rule :
  domain_matches host rule = true <->
  rule_is_wildcard rule \/
  rule_domain rule <> [] /\
    (host = rule_domain rule \/ exists sub, host = sub ++ dot :: rule_domain rule).
Proof.
  unfold domain_matches, rule_is_wildcard, rule_domain.
  set (r := to_lowercase _). cbn zeta.
  destruct (str_eqb r (lit "*")) eqn:E; bool_to_prop; [by split; [left|]|].
  set (d := default _ _).
  destruct (is_empty d) eqn:Ed.
  - destruct d; [|done]. naive_solver.
  - assert (d <> []) by by destruct d.
    rewrite orb_true_iff, str_eqb_eq, ends_with_spec. naive_solver.
Qed.

Lemma domain_matches_star host rule :
  trim rule = lit "*" -> domain_matches host rule = true.
Proof.
  intros H. apply domain_matches_iff. left. unfold rule_is_wildcard. rewrite H.
  change (trim_end_matches dot (lit "*")) with (lit "*").
  rewrite to_lowercase_ascii; [done|]. by repeat constructor.
Qed.

Lemma domain_matches_subdomain host sub rule :
  domain_matches host rule = true -> domain_matches (sub ++ dot :: host) rule = true.
Proof.
  rewrite !domain_matches_iff. intros [?|(Hd & [->|[s ->]])]; [by left| |]; right; split; try done; right.
  - eauto.
  - exists (sub ++ dot :: s). by rewrite <- app_assoc.
Qed.

(** The decision of [allows_host], as the two lists read. *)
Lemma allows_host_iff policy host :
  let h := to_lowercase (trim_end_matches dot host) in
  allows_host policy host = true <->
  (forall rule, rule ∈ denied_domains policy -> domain_matches h rule = false) /\
  (allowed_domains policy = [] \/
   exists rule, rule ∈ allowed_domains policy /\ domain_matches h rule = true).
Proof.
  intros h. unfold allows_host. fold h.
  destruct (existsb (domain_matches h) (denied_domains policy)) eqn:E.
  - apply existsb_elem in E as (r & Hr & Hm). split; [done|]. intros [H _].
    by rewrite H in Hm.
  - rewrite <- forallb_existsb_negb, <- existsb_elem.
    rewrite E. destruct (allowed_domains policy) as [|a l]; cbn [is_empty].
    + by split; [intros _; split; [|left]|].
    + split; [by intros ?; split; [|right] | by intros [_ [?|?]]].
Qed.
End NetworkFacts.

(** ** Filesystem rules *)

Section FilesystemFacts.
Context {T : Target}.

Lemma quadrant_allows_iff path allow deny :
  quadrant_allows path allow deny = true <->
  (forall rule, rule ∈ deny -> fs_path_matches path rule = false) /\
  (allow = [] \/ exists rule, rule ∈ allow /\ fs_path_matches path rule = true).
Proof.
  unfold quadrant_allows. destruct (existsb _ deny) eqn:E.
  - apply existsb_elem in E as (r & Hr & Hm). split; [done|]. intros [H _]. by rewrite H in Hm.
  - rewrite <- forallb_existsb_negb, <- existsb_elem, E. destruct allow; cbn [is_empty].
    + by split; [intros _; split; [|left]|].
    + split; [by intros ?; split; [|right] | by intros [_ [?|?]]].
Qed.

(** The path part of one comparison, after the separators and case are
    made uniform. *)
Definition norm (s : str) : str :=
  let s := replace_char backslash [slash] s in
  if windows then to_ascii_lowercase s else s.

Definition rule_matches (path pattern : str) : bool :=
  if forallb (N.eqb slash) pattern then negb (is_empty pattern)
  else
    let pattern := trim_end_matches slash pattern in
    if is_empty pattern then false
    else fnmatch path pattern
         || str_eqb path pattern
         || starts_with (pattern ++ lit "/") path
         || fnmatch path (pattern ++ lit "/*").

Lemma fs_path_matches_norm path pattern :
  fs_path_matches path pattern = rule_matches (norm path) (norm pattern).
Proof. unfold fs_path_matches, norm. by destruct windows. Qed.

Lemma norm_app a b : norm (a ++ b) = norm a ++ norm b.
Proof.
  unfold norm, replace_char, to_ascii_lowercase. rewrite bind_app.
  destruct windows; [by rewrite fmap_app | done].
Qed.

Lemma norm_slash : norm [slash] = [slash].
Proof. unfold norm. by destruct windows. Qed.

Lemma rule_matches_beneath path pattern rest :
  rule_matches path pattern = true -> rule_matches (path ++ slash :: rest) pattern = true.
Proof.
  unfold rule_matches. destruct (forallb _ _); [done|]. cbn zeta.
  set (q := trim_end_matches slash pattern). destruct (is_empty q); [done|].
  rewrite !orb_true_iff, !str_eqb_eq, !starts_with_spec.
  intros [[[H| ->]|[t ->]]|H].
  - right. by apply fnmatch_beneath.
  - left; right. exists rest. by rewrite <- app_assoc.
  - left; right. exists (t ++ slash :: rest). by rewrite <- app_assoc.
  - right. by apply fnmatch_dir_extend.
Qed.

Lemma fs_path_matches_beneath path pattern rest :
  fs_path_matches path pattern = true ->
  fs_path_matches (path ++ slash :: rest) pattern = true.
Proof.
  rewrite !fs_path_matches_norm. change (path ++ slash :: rest) with (path ++ [slash] ++ rest).
  rewrite !norm_app, norm_slash. apply rule_matches_beneath.
Qed.

Lemma rule_matches_root path pattern :
  pattern <> [] -> forallb (N.eqb slash) pattern = true -> rule_matches path pattern = true.
Proof. intros Hne H. unfold rule_matches. rewrite H. by destruct pattern. Qed.

Lemma norm_root rule :
  forallb (fun c => N.eqb slash c || N.eqb backslash c) rule = true ->
  forallb (N.eqb slash) (norm rule) = true /\ (norm rule = [] -> rule = []).
Proof.
  induction rule as [|c rule IH]; [by unfold norm; destruct windows|]. simpl.
  intros H. bool_to_prop. change (c :: rule) with ([c] ++ rule). rewrite norm_app.
  assert (norm [c] = [slash]) as ->.
  { unfold norm, replace_char. simpl.
    match goal with H : (_ || _) = true |- _ => apply orb_true_iff in H as [E|E] end;
      apply N.eqb_eq in E as <-; by destruct windows. }
  simpl. split; [by apply IH | done].
Qed.

Lemma fs_path_matches_root path rule :
  rule <> [] -> forallb (fun c => N.eqb slash c || N.eqb backslash c) rule = true ->
  fs_path_matches path rule = true.
Proof.
  intros Hne H. rewrite fs_path_matches_norm. apply norm_root in H as [H1 H2].
  apply rule_matches_root; [|done]. auto.
Qed.
End FilesystemFacts.

(** ** SBPL strings *)

(** The lexical rule of an SBPL (Scheme) string after its opening quote:
    a backslash takes the next character literally, the first bare quote
    closes the string.  The result is the text read and what follows. *)
Fixpoint sbpl_read (s : str) : option (str * str) :=
  match s with
  | [] => None
  | c :: s' =>
      if (c =? dquote)%N then Some ([], s')
      else if (c =? backslash)%N then
        match s' with
        | [] => None
        | d :: s'' => (fun '(text, rest) => (d :: text, rest)) <$> sbpl_read s''
        end
      else (fun '(text, rest) => (c :: text, rest)) <$> sbpl_read s'
  end.

Lemma sbpl_escape_cons c s :
  sbpl_escape (c :: s) =
  (if ((c =? dquote) || (c =? backslash))%N then [backslash; c] else [c]) ++ sbpl_escape s.
Proof.
  unfold sbpl_escape, replace_char. simpl. rewrite bind_app. f_equal.
  destruct (c =? backslash)%N eqn:Eb; bool_to_prop; [by subst|].
  simpl. destruct (c =? dquote)%N eqn:Eq; bool_to_prop; by subst.
Qed.

Lemma sbpl_read_escape path rest :
  sbpl_read (sbpl_escape path ++ dquote :: rest) = Some (path, rest).
Proof.
  induction path as [|c path IH]; [done|].
  rewrite sbpl_escape_cons. destruct (_ || _) eqn:E; simpl.
  - by rewrite IH.
  - apply orb_false_iff in E as [-> ->]. by rewrite IH.
Qed.

Lemma sbpl_entries_elem line entries entry path :
  entry ∈ entries -> sbpl_bindable entry = Some path ->
  exists a b, sbpl_entries line entries = a ++ line path ++ b.
Proof.
  intros Hin Hb. apply list_elem_of_split in Hin as (l1 & l2 & ->).
  unfold sbpl_entries. rewrite bind_app. simpl. rewrite Hb. eauto.
Qed.

Lemma enforceable_bindable policy entry :
  macos_shell_policy_is_enforceable policy = true ->
  entry ∈ deny_read (filesystem policy) \/ entry ∈ deny_write (filesystem policy) ->
  sbpl_bindable entry = Some (trim entry).
Proof.
  unfold macos_shell_policy_is_enforceable. destruct (_ || _); [done|].
  rewrite forallb_forall. intros Hall Hin.
  assert (match sbpl_bindable entry with Some _ => true | None => false end = true) as Hb.
  { apply Hall, list_elem_of_In. rewrite !elem_of_app. tauto. }
  unfold sbpl_bindable in *. cbn zeta in *. by repeat case_match.
Qed.

(** ** Properties *)

(** A filesystem rule covers whole subtrees: if a rule of a quadrant
    matches a directory, by whatever form (glob, exact path, directory
    prefix, root), it matches every path beneath it, so the deny rules of the
    read quadrant that stop a directory stop everything inside it. *)
Theorem denied_subtree `{Target} policy dir rest rule :
  rule ∈ deny_read policy -> fs_path_matches dir rule = true ->
  can_read policy (dir ++ slash :: rest) = false.
Proof.
  intros Hin Hm. apply not_true_is_false. unfold can_read. rewrite quadrant_allows_iff.
  intros [Hd _]. pose proof (fs_path_matches_beneath _ _ rest Hm). by rewrite Hd in *.
Qed.

Lemma denied_subtree_witness :
  let T := {| windows := false |} in
  let policy := {| allow_read := []; deny_read := [lit "/work/sec*"]; allow_write := [];
                   deny_write := [] |} in
  lit "/work/sec*" ∈ deny_read policy /\
  fs_path_matches (lit "/work/secrets") (lit "/work/sec*") = true /\
  can_read policy (lit "/work/secrets" ++ slash :: lit "a/key") = false.
Proof.
  intros T policy. assert (lit "/work/sec*" ∈ deny_read policy) as H1 by constructor.
  assert (fs_path_matches (lit "/work/secrets") (lit "/work/sec*") = true) as H2
    by (vm_compute; reflexivity).
  exact (conj H1 (conj H2 (denied_subtree policy (lit "/work/secrets") (lit "a/key") _ H1 H2))).
Defined.

(** A deny rule made only of separators (["/"], ["//"], a backslash)
    is the root rule and fails closed: it denies every path of its quadrant,
    whatever the allow list says. *)
Theorem root_deny_fails_closed `{Target} policy path rule :
  rule ∈ deny_write policy -> rule <> [] ->
  forallb (fun c => N.eqb slash c || N.eqb backslash c) rule = true ->
  can_write policy path = false.
Proof.
  intros Hin Hne Hall. apply not_true_is_false. unfold can_write. rewrite quadrant_allows_iff.
  intros [Hd _]. pose proof (fs_path_matches_root path _ Hne Hall). by rewrite Hd in *.
Qed.

Lemma root_deny_fails_closed_witness :
  let T := {| windows := false |} in
  can_write {| allow_read := []; deny_read := []; allow_write := [lit "/work"];
               deny_write := [lit "//"] |} (lit "/work/a") = false.
Proof.
  intros T. apply (root_deny_fails_closed _ _ (lit "//")); [constructor | done | reflexivity].
Defined.

(** The network decision: a host is allowed exactly when no deny rule
    matches it and, if there is an allow list, some allow rule does; and a
    rule that matches a host matches all its subdomains, so denying a domain
    denies everything under it. *)
Theorem network_decision {U : Unicode} policy host :
  let h := to_lowercase (trim_end_matches dot host) in
  (allows_host policy host = true <->
    (forall rule, rule ∈ denied_domains policy -> domain_matches h rule = false) /\
    (allowed_domains policy = [] \/
     exists rule, rule ∈ allowed_domains policy /\ domain_matches h rule = true)) /\
  (forall sub rule, domain_matches h rule = true -> domain_matches (sub ++ dot :: h) rule = true).
Proof. split; [apply allows_host_iff | intros; by apply domain_matches_subdomain]. Qed.

(** The coarse network switch of the shell sandbox agrees with the
    host filter: when [blocks_all] cuts the network, [allows_host] refuses
    every host. *)
Theorem blocks_all_denies_every_host {U : Unicode} policy host :
  blocks_all policy = true -> allows_host policy host = false.
Proof.
  unfold blocks_all. rewrite existsb_elem. intros (rule & Hin & Hr). bool_to_prop.
  apply not_true_is_false. rewrite allows_host_iff. intros [Hd _].
  specialize (Hd rule Hin). by rewrite domain_matches_star in Hd.
Qed.

Lemma blocks_all_denies_every_host_witness :
  let U := ascii_tables in
  allows_host {| allowed_domains := [lit "a.com"]; denied_domains := [lit " * "] |} (lit "a.com")
  = false.
Proof. intros U. apply blocks_all_denies_every_host. vm_compute. reflexivity. Defined.

(** The converse fails: the deny rule ["*."] makes [allows_host]
    refuse every host (the final dot of a rule is stripped before it is
    compared with the wildcard), but [blocks_all] does not see it, so the
    macOS profile still opens the network to the shell. *)
Theorem dotted_star_blocks_hosts_not_shell {U : Unicode} fs cwd host :
  let policy := {| network := {| allowed_domains := []; denied_domains := [lit "*."] |};
                   filesystem := fs |} in
  allows_host (network policy) host = false /\
  blocks_all (network policy) = false /\
  exists before, macos_sbpl_profile policy cwd = before ++ lit "(allow network*)" ++ nl.
Proof.
  intros policy. split; [|split].
  - apply not_true_is_false. rewrite allows_host_iff. intros [Hd _].
    specialize (Hd (lit "*.")). rewrite <- Bool.not_true_iff_false in Hd.
    apply Hd; [constructor|]. apply domain_matches_iff. left. unfold rule_is_wildcard.
    change (trim_end_matches dot (trim (lit "*."))) with (lit "*").
    rewrite to_lowercase_ascii; [done|]. by repeat constructor.
  - reflexivity.
  - exists (sbpl_prologue ++ sbpl_reads fs cwd ++ sbpl_writes fs cwd). by rewrite <- !app_assoc.
Qed.

(** The network policy in full: a host is allowed exactly when no deny
    rule matches it and, if there is an allow list, some allow rule does; a
    rule that matches a host matches all its subdomains; when the coarse
    switch [blocks_all] cuts the network, no host is allowed.  The converse
    fails for the rule ["*."]: it refuses every host (the final dot of a rule
    is stripped before it is compared with the wildcard), but the switch does
    not see it, and the macOS profile leaves the network open to the shell. *)
Theorem network_policy_decision {U : Unicode} policy host fs cwd :
  let h := to_lowercase (trim_end_matches dot host) in
  (allows_host policy host = true <->
    (forall rule, rule ∈ denied_domains policy -> domain_matches h rule = false) /\
    (allowed_domains policy = [] \/
     exists rule, rule ∈ allowed_domains policy /\ domain_matches h rule = true)) /\
  (forall sub rule, domain_matches h rule = true -> domain_matches (sub ++ dot :: h) rule = true) /\
  (blocks_all policy = true -> allows_host policy host = false) /\
  let dotted := {| allowed_domains := []; denied_domains := [lit "*."] |} in
  allows_host dotted host = false /\ blocks_all dotted = false /\
  exists before,
    macos_sbpl_profile {| network := dotted; filesystem := fs |} cwd = before ++ lit "(allow network*)" ++ nl.
Proof.
  cbv zeta. destruct (network_decision policy host) as [H1 H2]. split; [exact H1|]. split; [exact H2|].
  split; [apply blocks_all_denies_every_host | apply (dotted_star_blocks_hosts_not_shell fs cwd host)].
Qed.

(** Escaping is exact and cannot be broken out of: reading an escaped
    path back by the lexical rule of SBPL strings returns that very path and
    stops at the closing quote that the profile writes, whatever the path
    contains. *)
Theorem sbpl_escape_roundtrip path rest :
  sbpl_read (sbpl_escape path ++ dquote :: rest) = Some (path, rest).
Proof. apply sbpl_read_escape. Qed.

(** For an enforceable policy no read restriction is lost on the way
    to the macOS shell: every deny rule of the read quadrant appears in the
    generated profile as a deny clause for that path. *)
Theorem enforceable_profile_keeps_denies policy cwd entry :
  macos_shell_policy_is_enforceable policy = true ->
  entry ∈ deny_read (filesystem policy) ->
  contains (sbpl_deny_line (lit "file-read*") (trim entry)) (macos_sbpl_profile policy cwd) = true.
Proof.
  intros He Hin. apply contains_spec.
  pose proof (enforceable_bindable _ _ He (or_introl Hin)) as Hb.
  destruct (sbpl_entries_elem (sbpl_deny_line (lit "file-read*")) _ _ _ Hin Hb) as (a & b & Hab).
  unfold macos_sbpl_profile, sbpl_reads. rewrite Hab. set (allow := if is_empty _ then _ else _).
  eexists (sbpl_prologue ++ allow ++ a), (b ++ _). by rewrite <- !app_assoc.
Qed.

Lemma enforceable_profile_keeps_denies_witness :
  let policy := {| network := {| allowed_domains := []; denied_domains := [] |};
                   filesystem := {| allow_read := []; deny_read := [lit " /secret "];
                                    allow_write := []; deny_write := [] |} |} in
  contains (sbpl_deny_line (lit "file-read*") (lit "/secret")) (macos_sbpl_profile policy (lit "/w"))
  = true.
Proof.
  intros policy. apply (enforceable_profile_keeps_denies policy (lit "/w") (lit " /secret "));
    [vm_compute; reflexivity | constructor].
Defined.
