(* ===== verification/PermissionEngine.v ===== *)
(** * The three-way permission engine
    ([crates/rust-agent/src/policy/permission_engine.rs])

    [evaluate] is the decision sequence of the code, guard by guard.  The mode
    and the session allow list sit behind locks that the host may take between
    two reads of one evaluation, so [evaluate_reads] takes every read as an
    argument and the safety theorems hold for arbitrary reads; [evaluate] is
    the case where nothing is written meanwhile. *)

From S2P Require Import Prelude Fnmatch SandboxPolicy.

Inductive PermissionMode := Default | Plan | FullAuto.
#[export] Instance PermissionMode_eq_dec : EqDecision PermissionMode.
Proof. solve_decision. Defined.

Definition SENSITIVE_PATH_PATTERNS : list str :=
  [ lit "*/.ssh/*"; lit "*/.aws/credentials"; lit "*/.aws/config";
    lit "*/.config/gcloud/*"; lit "*/.azure/*"; lit "*/.gnupg/*";
    lit "*/.docker/config.json"; lit "*/.kube/config"; lit "*/.ains/credentials.json" ].

Record PathRule := { pattern : str; allow : bool }.

Record PermissionSettings := {
  allowed_tools : list str;
  denied_tools : list str;
  denied_commands : list str;
  path_rules : list PathRule
}.

Record PermissionDecision := {
  allowed : bool;
  requires_confirmation : bool;
  reason : str
}.

Definition decision_allow (reason : str) : PermissionDecision :=
  {| allowed := true; requires_confirmation := false; reason := reason |}.
Definition decision_deny (reason : str) : PermissionDecision :=
  {| allowed := false; requires_confirmation := false; reason := reason |}.
Definition decision_confirm (reason : str) : PermissionDecision :=
  {| allowed := false; requires_confirmation := true; reason := reason |}.

Record PermissionEngine := {
  settings : PermissionSettings;
  filesystem : FilesystemPolicy;
  mode : PermissionMode;
  session_allowed : gset str
}.

(** ** Construction and the two writes *)

Definition clean_path_rules (rules : list PathRule) : list PathRule :=
  (fun rule => {| pattern := trim (pattern rule); allow := allow rule |})
    <$> List.filter (fun rule => negb (is_empty (trim (pattern rule)))) rules.

Definition with_filesystem_policy (mode : PermissionMode) (s : PermissionSettings)
    (fs : FilesystemPolicy) : PermissionEngine :=
  {| settings := {| allowed_tools := allowed_tools s; denied_tools := denied_tools s;
                    denied_commands := denied_commands s;
                    path_rules := clean_path_rules (path_rules s) |};
     filesystem := fs; mode := mode; session_allowed := ∅ |}.

Definition engine_new (mode : PermissionMode) (s : PermissionSettings) : PermissionEngine :=
  with_filesystem_policy mode s filesystem_default.

Definition set_mode (e : PermissionEngine) (m : PermissionMode) : PermissionEngine :=
  {| settings := settings e; filesystem := filesystem e; mode := m;
     session_allowed := session_allowed e |}.

Definition allow_for_session (e : PermissionEngine) (tool_name : str) : PermissionEngine :=
  {| settings := settings e; filesystem := filesystem e; mode := mode e;
     session_allowed := {[tool_name]} ∪ session_allowed e |}.

(** ** Paths and commands *)

Definition policy_match_paths (file_path : str) : list str :=
  let portable := replace_char backslash [slash] file_path in
  let normalized := trim_end_matches slash portable in
  if is_empty normalized then [file_path]
  else [normalized; normalized ++ lit "/"].

Section Engine.
Context {T : Target} {U : Unicode}.

Definition policy_path_matches (path pattern : str) : bool :=
  let path := replace_char backslash [slash] path in
  let pattern := replace_char backslash [slash] pattern in
  if windows then fnmatch (to_lowercase path) (to_lowercase pattern)
  else fnmatch path pattern.

(** The first (candidate, pattern) pair that matches, candidates outside. *)
Definition sensitive_path_pattern (file_path : str) : option str :=
  (fix go (candidates : list str) : option str :=
     match candidates with
     | [] => None
     | candidate :: rest =>
         match List.find (policy_path_matches candidate) SENSITIVE_PATH_PATTERNS with
         | Some pattern => Some pattern
         | None => go rest
         end
     end) (policy_match_paths file_path).

Definition INSTALL_MARKERS : list str :=
  [ lit "npm install"; lit "pnpm install"; lit "yarn install"; lit "bun install";
    lit "pip install"; lit "uv pip install"; lit "poetry install"; lit "cargo install";
    lit "create-next-app"; lit "npm create "; lit "pnpm create "; lit "yarn create ";
    lit "bun create "; lit "npx create-"; lit "npm init "; lit "pnpm init "; lit "yarn init " ].

Definition bash_permission_hint (command : option str) : option str :=
  match command with
  | None => None
  | Some command =>
      let lowered := to_lowercase command in
      if existsb (fun marker => contains marker lowered) INSTALL_MARKERS
      then Some (lit "Package installation and scaffolding commands change the workspace, so they will not run automatically in default mode.")
      else None
  end.

Definition SENSITIVE_TOOLS : list str := [ lit "clipboard"; lit "screenshot" ].

Definition SENSITIVE_COMMAND_PATTERNS : list str :=
  [ lit "*rm -rf*"; lit "*rm -fr*"; lit "*rm -r *"; lit "*rm --recursive*"; lit "sudo *";
    lit "*| sudo *"; lit "* sudo *"; lit "*mkfs*"; lit "*dd if=*"; lit "*of=/dev/*";
    lit "*> /dev/sd*"; lit "*shutdown*"; lit "*reboot*"; lit "*chmod -r*"; lit "*chown -r*";
    lit "*git push*--force*"; lit "*git push*-f *"; lit "*:(){*"; lit "*curl*|*sh*";
    lit "*wget*|*sh*" ].

Definition sensitive_operation (tool_name : str) (command : option str) : option str :=
  if existsb (str_eqb tool_name) SENSITIVE_TOOLS
  then Some (lit "This tool accesses potentially private data and always requires confirmation.")
  else
    match command with
    | Some command =>
        let lowered := to_lowercase command in
        if existsb (fnmatch lowered) SENSITIVE_COMMAND_PATTERNS
        then Some (lit "This command is potentially destructive and always requires confirmation, even in full-auto mode.")
        else None
    | None => None
    end.

(** ** Access checks of compound tools *)

Definition rule_hits (path : str) (rule : PathRule) : bool :=
  existsb (fun candidate => policy_path_matches candidate (pattern rule))
    (policy_match_paths path).

Definition quadrant_permits (e : PermissionEngine) (path : str) (is_read_only : bool) : bool :=
  if is_read_only then can_read (filesystem e) path else can_write (filesystem e) path.

Definition file_access_allowed (e : PermissionEngine) (path : str) (is_read_only : bool) : bool :=
  match sensitive_path_pattern path with
  | Some _ => false
  | None =>
      if negb (quadrant_permits e path is_read_only) then false
      else negb (existsb (fun rule => negb (allow rule) && rule_hits path rule)
                   (path_rules (settings e)))
  end.

Definition recursive_read_allowed (e : PermissionEngine) (root : str) : bool :=
  is_empty (deny_read (filesystem e))
  && negb (existsb (fun rule => negb (allow rule)) (path_rules (settings e)))
  && file_access_allowed e root true.

(** ** The decision *)

(** What one evaluation reads from the shared state, in order: the mode
    before the session list (5.5), the list, the mode at 6 and at 8. *)
Record reads := {
  mode_session : PermissionMode;
  session : gset str;
  mode_auto : PermissionMode;
  mode_plan : PermissionMode
}.

(** Steps 1 to 3: what refuses before any rule can allow. *)
Definition evaluate_denials (e : PermissionEngine) (tool_name : str) (is_read_only : bool)
    (file_path command : option str) : option PermissionDecision :=
  match (path ← file_path; pattern ← sensitive_path_pattern path; Some (path, pattern)) with
  | Some (path, pattern) =>
      Some (decision_deny (lit "Access denied: " ++ path ++ lit " is a sensitive credential path (matched built-in pattern '" ++ pattern ++ lit "')"))
  | None =>
      if existsb (fun denied => str_eqb denied tool_name) (denied_tools (settings e))
      then Some (decision_deny (tool_name ++ lit " is explicitly denied"))
      else
        match (path ← file_path; if quadrant_permits e path is_read_only then None else Some path) with
        | Some path =>
            Some (decision_deny (lit "Access denied: " ++ path ++ lit " is outside the sandbox filesystem "
              ++ (if is_read_only then lit "read" else lit "write") ++ lit " policy"))
        | None =>
            match (command ← command; List.find (fnmatch command) (denied_commands (settings e))) with
            | Some pattern => Some (decision_deny (lit "Command matches deny pattern: " ++ pattern))
            | None => None
            end
        end
  end.

(** Step 4: the first path rule that matches decides. *)
Definition evaluate_path_rules (e : PermissionEngine) (file_path : option str)
    (sensitive : option str) : option PermissionDecision :=
  match file_path with
  | None => None
  | Some path =>
      match List.find (rule_hits path) (path_rules (settings e)) with
      | None => None
      | Some rule =>
          if negb (allow rule)
          then Some (decision_deny (lit "Path " ++ path ++ lit " matches deny rule: " ++ pattern rule))
          else
            match sensitive with
            | Some reason => Some (decision_confirm reason)
            | None => Some (decision_allow (lit "Path " ++ path ++ lit " matches allow rule: " ++ pattern rule))
            end
      end
  end.

(** An allowing step, unless the operation is sensitive. *)
Definition allow_or_confirm (sensitive : option str) (reason : str) : PermissionDecision :=
  match sensitive with
  | Some why => decision_confirm why
  | None => decision_allow reason
  end.

(** Steps 5 to 9. *)
Definition evaluate_modes (e : PermissionEngine) (r : reads) (tool_name : str)
    (is_read_only : bool) (command : option str) (sensitive : option str) : PermissionDecision :=
  if existsb (fun allowed => str_eqb allowed tool_name) (allowed_tools (settings e))
  then allow_or_confirm (sensitive_operation tool_name command)
         (tool_name ++ lit " is explicitly allowed")
  else if negb (bool_decide (mode_session r = Plan)) && bool_decide (tool_name ∈ session r)
  then allow_or_confirm sensitive (tool_name ++ lit " is allowed for this session")
  else if bool_decide (mode_auto r = FullAuto)
  then allow_or_confirm sensitive (lit "Auto mode allows all tools")
  else if is_read_only
  then allow_or_confirm sensitive (lit "read-only tools are allowed")
  else if bool_decide (mode_plan r = Plan)
  then if str_eqb tool_name (lit "exit_plan_mode")
       then decision_confirm (lit "Exiting plan mode requires user confirmation")
       else decision_deny (lit "Plan mode blocks mutating tools until the user exits plan mode")
  else
    let base := lit "Mutating tools require user confirmation in default mode. Approve the prompt when asked, or run /permissions full_auto if you want to allow them for this session." in
    decision_confirm
      (match bash_permission_hint command with
       | Some hint => base ++ [space] ++ hint
       | None => base
       end).

Definition evaluate_reads (e : PermissionEngine) (r : reads) (tool_name : str)
    (is_read_only : bool) (file_path command : option str) : PermissionDecision :=
  match evaluate_denials e tool_name is_read_only file_path command with
  | Some d => d
  | None =>
      let sensitive := sensitive_operation tool_name command in
      match evaluate_path_rules e file_path sensitive with
      | Some d => d
      | None => evaluate_modes e r tool_name is_read_only command sensitive
      end
  end.

Definition reads_of (e : PermissionEngine) : reads :=
  {| mode_session := mode e; session := session_allowed e;
     mode_auto := mode e; mode_plan := mode e |}.

Definition evaluate (e : PermissionEngine) (tool_name : str) (is_read_only : bool)
    (file_path command : option str) : PermissionDecision :=
  evaluate_reads e (reads_of e) tool_name is_read_only file_path command.
End Engine.

(** ** The steps, one by one *)

Section Facts.
Context {T : Target} {U : Unicode}.

(** An operation is refused before the rules: the four guards together. *)
Definition refused_early (e : PermissionEngine) (tool_name : str) (is_read_only : bool)
    (file_path command : option str) : Prop :=
  (exists path, file_path = Some path /\ is_Some (sensitive_path_pattern path)) \/
  tool_name ∈ denied_tools (settings e) \/
  (exists path, file_path = Some path /\ quadrant_permits e path is_read_only = false) \/
  (exists c pattern, command = Some c /\ pattern ∈ denied_commands (settings e) /\
     fnmatch c pattern = true).

Lemma evaluate_denials_Some e tool ro path cmd d :
  evaluate_denials e tool ro path cmd = Some d ->
  allowed d = false /\ requires_confirmation d = false.
Proof.
  unfold evaluate_denials. intros H.
  repeat case_match; simplify_eq; done.
Qed.

Lemma evaluate_denials_iff e tool ro path cmd :
  is_Some (evaluate_denials e tool ro path cmd) <-> refused_early e tool ro path cmd.
Proof.
  unfold evaluate_denials, refused_early.
  assert (existsb (fun d => str_eqb d tool) (denied_tools (settings e)) = true
          <-> tool ∈ denied_tools (settings e)) as Ht.
  { rewrite existsb_elem. setoid_rewrite str_eqb_eq. naive_solver. }
  destruct path as [path|]; cbn [mbind option_bind];
    [destruct (sensitive_path_pattern path) eqn:Es; cbn [mbind option_bind]; [naive_solver|]|];
    (destruct (existsb _ _); [naive_solver|]);
    [destruct (quadrant_permits e path ro) eqn:Eq; [|naive_solver]|];
    (destruct cmd as [c|]; cbn [mbind option_bind];
     [destruct (List.find (fnmatch c) _) as [pat|] eqn:Ef|]);
    try (apply find_some in Ef as [Hin Hm]; apply list_elem_of_In in Hin; naive_solver);
    (split; [by intros [? ?]|]).
  all: intros [(p & ? & [? ?])|[?|[(p & ? & ?)|(c' & pat & ? & Hin & Hm)]]]; simplify_eq; try naive_solver.
  all: apply list_elem_of_In in Hin; by rewrite (List.find_none _ _ Ef _ Hin) in Hm.
Qed.

Lemma evaluate_path_rules_confirms e path why d :
  evaluate_path_rules e path (Some why) = Some d -> allowed d = false.
Proof. unfold evaluate_path_rules. intros H. repeat case_match; by simplify_eq. Qed.

Lemma allow_or_confirm_allowed sensitive why :
  allowed (allow_or_confirm sensitive why) = true <-> sensitive = None.
Proof. by destruct sensitive. Qed.

Lemma evaluate_modes_sensitive e r tool ro cmd why :
  sensitive_operation tool cmd = Some why ->
  allowed (evaluate_modes e r tool ro cmd (Some why)) = false.
Proof. intros H. unfold evaluate_modes. rewrite H. by repeat case_match. Qed.

(** Who lets an operation through once nothing refuses it. *)
Definition let_through (e : PermissionEngine) (r : reads) (tool_name : str) (is_read_only : bool)
    (file_path : option str) : Prop :=
  match (path ← file_path; List.find (rule_hits path) (path_rules (settings e))) with
  | Some rule => allow rule = true
  | None =>
      tool_name ∈ allowed_tools (settings e) \/
      (mode_session r <> Plan /\ tool_name ∈ session r) \/
      mode_auto r = FullAuto \/ is_read_only = true
  end.

Lemma evaluate_modes_allowed e r tool ro cmd :
  sensitive_operation tool cmd = None ->
  allowed (evaluate_modes e r tool ro cmd None) = true <->
  tool ∈ allowed_tools (settings e) \/ (mode_session r <> Plan /\ tool ∈ session r) \/
  mode_auto r = FullAuto \/ ro = true.
Proof.
  intros Hs. unfold evaluate_modes. rewrite Hs.
  assert (existsb (fun d => str_eqb d tool) (allowed_tools (settings e)) = true
          <-> tool ∈ allowed_tools (settings e)) as Ht.
  { rewrite existsb_elem. setoid_rewrite str_eqb_eq. naive_solver. }
  destruct (existsb _ _); [naive_solver|].
  repeat case_bool_decide; destruct ro; simpl; repeat case_match; naive_solver.
Qed.

Lemma evaluate_reads_allowed_iff e r tool ro path cmd :
  allowed (evaluate_reads e r tool ro path cmd) = true <->
  ~ refused_early e tool ro path cmd /\ sensitive_operation tool cmd = None /\
  let_through e r tool ro path.
Proof.
  rewrite <- evaluate_denials_iff. unfold evaluate_reads.
  destruct (evaluate_denials e tool ro path cmd) as [d|] eqn:Ed.
  { apply evaluate_denials_Some in Ed as [-> _]. split; [done|]. intros [H _]. by destruct H. }
  rewrite <- eq_None_not_Some. destruct (sensitive_operation tool cmd) as [why|] eqn:Es.
  { split; [|naive_solver]. destruct (evaluate_path_rules e path (Some why)) eqn:Ep.
    - by rewrite (evaluate_path_rules_confirms _ _ _ _ Ep).
    - by rewrite evaluate_modes_sensitive. }
  pose proof (evaluate_modes_allowed e r tool ro cmd Es) as Hm.
  unfold evaluate_path_rules, let_through. destruct path as [path|]; cbn [mbind option_bind]; [|naive_solver].
  destruct (List.find _ _) as [rule|]; [|naive_solver].
  destruct (allow rule); naive_solver.
Qed.

(** Nothing decides: no path rule matches and nobody lets the operation through. *)
Definition left_open (e : PermissionEngine) (r : reads) (tool_name : str) (is_read_only : bool)
    (file_path : option str) : Prop :=
  (path ← file_path; List.find (rule_hits path) (path_rules (settings e))) = None /\
  ~ let_through e r tool_name is_read_only file_path.

(** Plan mode blocks an operation that is left open, except the way out. *)
Definition plan_blocks (r : reads) (tool_name : str) : Prop :=
  mode_plan r = Plan /\ tool_name <> lit "exit_plan_mode".

Lemma evaluate_modes_table e r tool ro cmd :
  let P := tool ∈ allowed_tools (settings e) \/ (mode_session r <> Plan /\ tool ∈ session r) \/
           mode_auto r = FullAuto \/ ro = true in
  let d := evaluate_modes e r tool ro cmd (sensitive_operation tool cmd) in
  P /\ d = allow_or_confirm (sensitive_operation tool cmd) (PermissionEngine.reason d) /\
    (forall why, sensitive_operation tool cmd = Some why -> d = decision_confirm why) \/
  ~ P /\ ~ plan_blocks r tool /\ d = decision_confirm (PermissionEngine.reason d) \/
  ~ P /\ plan_blocks r tool /\ d = decision_deny (PermissionEngine.reason d).
Proof.
  cbv zeta. unfold evaluate_modes. set (sensitive := sensitive_operation tool cmd).
  assert (forall why, allow_or_confirm sensitive why
            = allow_or_confirm sensitive (PermissionEngine.reason (allow_or_confirm sensitive why)) /\
          (forall w, sensitive = Some w -> allow_or_confirm sensitive why = decision_confirm w)) as Hlet.
  { intros why. destruct sensitive; split; try done. by intros ? [= ->]. }
  destruct (existsb _ _) eqn:Ea.
  { left. split; [left|apply Hlet]. apply existsb_elem in Ea as (x & Hx & ->%str_eqb_eq). done. }
  assert (tool ∉ allowed_tools (settings e)) as Hna.
  { intros Hin. enough (existsb (fun d => str_eqb d tool) (allowed_tools (settings e)) = true) by congruence.
    apply existsb_elem. exists tool. split; [done|by apply str_eqb_eq]. }
  destruct (negb _ && _) eqn:Es.
  { left. split; [right; left|apply Hlet]. apply andb_true_iff in Es as [Hm%negb_true_iff Hs].
    apply bool_decide_eq_false in Hm. by apply bool_decide_eq_true in Hs. }
  assert (~ (mode_session r <> Plan /\ tool ∈ session r)) as Hns.
  { intros [Hm Hs]. by rewrite bool_decide_eq_false_2, bool_decide_eq_true_2 in Es. }
  clear Es. case_bool_decide as Ef; [left; split; [by right; right; left|apply Hlet]|].
  destruct ro; [left; split; [by right; right; right|apply Hlet]|].
  right. unfold plan_blocks. case_bool_decide as Ep.
  - pose proof (str_eqb_eq tool (lit "exit_plan_mode")) as Hx.
    destruct (str_eqb tool _); [left|right]; (split; [by intros [?|[?|[?|?]]]|]); split; try done; [|split; [done|]]; naive_solver.
  - left. split; [by intros [?|[?|[?|?]]]|]. split; [naive_solver|done].
Qed.

(** A decision is one of the three: allow, ask, refuse. *)
Definition three_way (d : PermissionDecision) : Prop :=
  ~ (allowed d = true /\ requires_confirmation d = true).

Lemma three_way_allow why : three_way (decision_allow why).
Proof. by intros [? ?]. Qed.
Lemma three_way_deny why : three_way (decision_deny why).
Proof. by intros [? ?]. Qed.
Lemma three_way_confirm why : three_way (decision_confirm why).
Proof. by intros [? ?]. Qed.
Hint Resolve three_way_allow three_way_deny three_way_confirm : ains.

Lemma three_way_allow_or_confirm sensitive why : three_way (allow_or_confirm sensitive why).
Proof. destruct sensitive; simpl; auto with ains. Qed.
Hint Resolve three_way_allow_or_confirm : ains.

Lemma evaluate_modes_three_way e r tool ro cmd sensitive :
  three_way (evaluate_modes e r tool ro cmd sensitive).
Proof. unfold evaluate_modes. repeat case_match; auto with ains. Qed.

Lemma evaluate_reads_three_way e r tool ro path cmd :
  three_way (evaluate_reads e r tool ro path cmd).
Proof.
  unfold evaluate_reads. destruct (evaluate_denials _ _ _ _ _) eqn:Ed.
  - apply evaluate_denials_Some in Ed as [Ha _]. intros [? _]. congruence.
  - destruct (evaluate_path_rules _ _ _) eqn:Ep; [|apply evaluate_modes_three_way].
    unfold evaluate_path_rules in Ep. repeat case_match; simplify_eq; auto with ains.
Qed.

(** *** Built-in credential paths *)

Lemma trim_end_matches_app_cons a c s :
  c <> slash -> trim_end_matches slash (a ++ c :: s) = a ++ c :: trim_end_matches slash s.
Proof.
  intros Hc. unfold trim_end_matches. rewrite reverse_app, reverse_cons, <- app_assoc.
  assert (forall l r, drop_while (N.eqb slash) (l ++ [c] ++ r)
                      = drop_while (N.eqb slash) l ++ [c] ++ r) as H.
  { induction l as [|x l IH]; intros r; simpl.
    - replace (slash =? c)%N with false; [done|]. symmetry. apply N.eqb_neq. naive_solver.
    - destruct (slash =? x)%N; [apply IH | done]. }
  rewrite H, !reverse_app, reverse_involutive. by rewrite <- app_assoc.
Qed.

Lemma trim_end_matches_cons s :
  trim_end_matches slash (slash :: s) = [] \/
  exists s', trim_end_matches slash (slash :: s) = slash :: s'.
Proof.
  unfold trim_end_matches. rewrite reverse_cons.
  destruct (drop_while_suffix (N.eqb slash) (reverse s ++ [slash])) as (k & Hk & _).
  destruct (drop_while _ _) as [|x l] eqn:E using rev_ind; [by left|].
  right. rewrite reverse_snoc. rewrite app_assoc in Hk. apply app_inj_tail in Hk as [_ ->]. eauto.
Qed.

Lemma sensitive_path_pattern_elem path candidate pat :
  candidate ∈ policy_match_paths path -> pat ∈ SENSITIVE_PATH_PATTERNS ->
  policy_path_matches candidate pat = true -> is_Some (sensitive_path_pattern path).
Proof.
  intros Hc Hp Hm. unfold sensitive_path_pattern.
  induction (policy_match_paths path) as [|c l IH]; [set_solver|].
  destruct (List.find (policy_path_matches c) _) eqn:E; [eauto|].
  apply elem_of_cons in Hc as [->|Hc]; [|by apply IH].
  apply list_elem_of_In in Hp. by rewrite (List.find_none _ _ E _ Hp) in Hm.
Qed.

Lemma matches_ssh a b :
  fnmatch (a ++ lit "/.ssh/" ++ b) (lit "*/.ssh/*") = true.
Proof.
  apply fnmatch_iff. unfold Glob.spec.
  let t := eval vm_compute in (Glob.tokens_at (lit "*/.ssh/*") 0) in
    change (Glob.tokens_at (lit "*/.ssh/*") 0) with t.
  constructor. rewrite <- (app_nil_r b). repeat (constructor; [reflexivity|]). repeat constructor.
Qed.
End Facts.


Definition is_separator (c : char) : bool := (c =? slash)%N || (c =? backslash)%N.

Lemma ssh_path_sensitive {U : Unicode} a b s1 s2 :
  let T := {| windows := false |} in
  is_separator s1 = true -> is_separator s2 = true ->
  is_Some (sensitive_path_pattern (a ++ [s1] ++ lit ".ssh" ++ [s2] ++ b)).
Proof.
  intros T H1 H2. set (path := a ++ _). set (A := replace_char backslash [slash] a).
  assert (replace_char backslash [slash] path
          = (A ++ lit "/.ss") ++ 104%N :: slash :: replace_char backslash [slash] b) as Hp.
  { unfold path, A, replace_char. rewrite !bind_app, <- app_assoc. f_equal.
    unfold is_separator in *.
    apply orb_true_iff in H1 as [E|E], H2 as [E'|E']; bool_to_prop; subst; reflexivity. }
  assert (exists candidate B, candidate ∈ policy_match_paths path /\ candidate = A ++ lit "/.ssh/" ++ B)
    as (candidate & B & Hin & Hc).
  { unfold policy_match_paths. cbn zeta. rewrite Hp, trim_end_matches_app_cons by done.
    destruct (trim_end_matches_cons (replace_char backslash [slash] b)) as [->|[B ->]];
      (destruct (is_empty _) eqn:E; [by rewrite <- !app_assoc in E; destruct A|]).
    - eexists _, []. split; [right; left | by rewrite <- !app_assoc].
    - eexists _, B. split; [left | by rewrite <- !app_assoc]. }
  eapply sensitive_path_pattern_elem; [exact Hin | left |].
  unfold policy_path_matches. simpl windows. cbn iota. rewrite Hc.
  change (replace_char backslash [slash] (lit "*/.ssh/*")) with (lit "*/.ssh/*").
  unfold replace_char. rewrite !bind_app. apply matches_ssh.
Qed.

Section Recursive.
Context {T : Target} {U : Unicode}.

Lemma can_read_beneath fs root rest :
  deny_read fs = [] -> can_read fs root = true -> can_read fs (root ++ slash :: rest) = true.
Proof.
  unfold can_read. rewrite !quadrant_allows_iff. intros -> [_ H]. split; [set_solver|].
  destruct H as [?|(rule & ? & ?)]; [by left|]. right. exists rule.
  split; [done|]. by apply fs_path_matches_beneath.
Qed.

Lemma file_access_no_denies e path :
  (forall rule, rule ∈ path_rules (settings e) -> allow rule = true) ->
  file_access_allowed e path true = true <->
  sensitive_path_pattern path = None /\ can_read (filesystem e) path = true.
Proof.
  intros Hr. unfold file_access_allowed, quadrant_permits.
  destruct (sensitive_path_pattern path); [naive_solver|].
  destruct (can_read _ _); [|naive_solver]. simpl.
  assert (existsb (fun rule => negb (allow rule) && rule_hits path rule) (path_rules (settings e))
          = false) as ->; [|naive_solver].
  apply forallb_existsb_negb. intros rule Hin. by rewrite Hr.
Qed.
End Recursive.

(** ** Properties *)

(** C16: the complete decision table.  Whatever the mode switches and session
    grants that race with the evaluation, let [guarded] be the four early guards
    (credential path, denied tool, filesystem quadrant, denied command).  An
    operation is allowed exactly when it is not guarded, not a sensitive operation,
    and the first path rule that matches allows it, or no path rule matches and
    the tool is allowed by configuration, by the session (outside plan mode), by
    full-auto mode, or because it only reads.  It is asked for exactly when it is
    not guarded and it is a sensitive operation that would be let through, or one
    that nothing decides and that plan mode does not block (plan mode lets only
    [exit_plan_mode] ask).  It is refused without a question exactly when it is
    guarded, the first matching path rule denies it, or plan mode blocks it. *)
Theorem evaluate_allowed_iff {T : Target} {U : Unicode} e r tool ro path cmd :
  let d := evaluate_reads e r tool ro path cmd in
  let guarded := refused_early e tool ro path cmd in
  (allowed d = true <->
     ~ guarded /\ sensitive_operation tool cmd = None /\ let_through e r tool ro path) /\
  (requires_confirmation d = true <->
     ~ guarded /\ (let_through e r tool ro path /\ is_Some (sensitive_operation tool cmd) \/
                   left_open e r tool ro path /\ ~ plan_blocks r tool)) /\
  (allowed d = false /\ requires_confirmation d = false <->
     guarded \/
     (exists p rule, path = Some p /\ List.find (rule_hits p) (path_rules (settings e)) = Some rule /\ allow rule = false) \/
     left_open e r tool ro path /\ plan_blocks r tool).
Proof.
  cbv zeta. split; [apply evaluate_reads_allowed_iff|]. rewrite <- evaluate_denials_iff. unfold evaluate_reads.
  destruct (evaluate_denials e tool ro path cmd) as [d|] eqn:Ed.
  { apply evaluate_denials_Some in Ed as [-> ->]. split; split; [done|intros [H _]; by destruct H|intros _; left; by eexists|done]. }
  rewrite <- eq_None_not_Some.
  pose proof (evaluate_modes_table e r tool ro cmd) as Hm. cbv zeta in Hm.
  assert (forall d, (d = evaluate_modes e r tool ro cmd (sensitive_operation tool cmd)) ->
    (path ← path; List.find (rule_hits path) (path_rules (settings e))) = None ->
    (requires_confirmation d = true <->
       (@None PermissionDecision = None) /\ (let_through e r tool ro path /\ is_Some (sensitive_operation tool cmd) \/
                   left_open e r tool ro path /\ ~ plan_blocks r tool)) /\
    (allowed d = false /\ requires_confirmation d = false <-> left_open e r tool ro path /\ plan_blocks r tool)) as Hopen.
  { intros d -> Hnone. unfold left_open, let_through. rewrite Hnone.
    destruct Hm as [(HP & Hd & Hs)|[(HP & Hb & Hd)|(HP & Hb & Hd)]]; rewrite Hd; cbn [requires_confirmation allowed decision_confirm decision_deny].
    - destruct (sensitive_operation tool cmd); cbn; split; split; naive_solver.
    - split; split; naive_solver.
    - split; split; naive_solver. }
  destruct path as [p|]; cbn [evaluate_path_rules mbind option_bind] in *.
  2: { destruct (Hopen _ eq_refl eq_refl) as [H1 H2]. split; [exact H1|]. rewrite H2. split; [by right; right|].
       intros [[? H]|[(? & ? & [=] & _)|H]]; done. }
  destruct (List.find (rule_hits p) (path_rules (settings e))) as [rule|] eqn:Ef.
  2: { destruct (Hopen _ eq_refl eq_refl) as [H1 H2]. split; [exact H1|]. rewrite H2. split; [by right; right|].
       intros [[? H]|[(? & ? & [= <-] & H & _)|H]]; [done|congruence|done]. }
  unfold left_open, let_through. cbn [mbind option_bind]. rewrite Ef.
  destruct (allow rule) eqn:Ea, (sensitive_operation tool cmd); cbn; split; split; naive_solver.
Qed.

(** A credential path cannot be unlocked: a path with an [.ssh]
    component, written with either separator, is refused without a prompt
    for every tool, rule set, allow list, session grant and mode. *)
Theorem ssh_path_always_refused {U : Unicode} e r tool ro cmd a b s1 s2 :
  let T := {| windows := false |} in
  is_separator s1 = true -> is_separator s2 = true ->
  let d := evaluate_reads e r tool ro (Some (a ++ [s1] ++ lit ".ssh" ++ [s2] ++ b)) cmd in
  allowed d = false /\ requires_confirmation d = false.
Proof.
  intros T H1 H2. destruct (ssh_path_sensitive a b s1 s2 H1 H2) as [pat Hp].
  cbn zeta. unfold evaluate_reads. destruct (evaluate_denials _ _ _ _ _) as [d|] eqn:E.
  - by apply evaluate_denials_Some in E.
  - unfold evaluate_denials in E. cbn [mbind option_bind] in E. fold T in Hp. by rewrite Hp in E.
Qed.

Lemma ssh_path_always_refused_witness :
  let U := ascii_tables in
  let T := {| windows := false |} in
  let e := engine_new FullAuto {| allowed_tools := [lit "read_file"]; denied_tools := [];
    denied_commands := []; path_rules := [{| pattern := lit "*"; allow := true |}] |} in
  allowed (evaluate_reads e (reads_of e) (lit "read_file") true
    (Some (lit "C:" ++ [backslash] ++ lit ".ssh" ++ [slash] ++ lit "id_rsa")) None) = false.
Proof.
  intros U T e.
  exact (proj1 (ssh_path_always_refused e (reads_of e) (lit "read_file") true None
    (lit "C:") (lit "id_rsa") backslash slash eq_refl eq_refl)).
Defined.

(** Path rules are read in order and the first one that matches any
    form of the path decides: a deny refuses, an allow lets the operation
    through whatever the mode, except that a sensitive operation is turned
    into a request to confirm. *)
Theorem first_path_rule_decides {T : Target} {U : Unicode} e r tool ro path cmd before rule after :
  ~ refused_early e tool ro (Some path) cmd ->
  path_rules (settings e) = before ++ rule :: after ->
  (forall r', r' ∈ before -> rule_hits path r' = false) -> rule_hits path rule = true ->
  let d := evaluate_reads e r tool ro (Some path) cmd in
  (allow rule = false -> allowed d = false /\ requires_confirmation d = false) /\
  (allow rule = true -> sensitive_operation tool cmd = None -> allowed d = true) /\
  (forall why, allow rule = true -> sensitive_operation tool cmd = Some why -> d = decision_confirm why).
Proof.
  intros Hno Hrules Hbefore Hhit. cbn zeta. unfold evaluate_reads.
  rewrite <- evaluate_denials_iff, <- eq_None_not_Some in Hno. rewrite Hno.
  assert (List.find (rule_hits path) (path_rules (settings e)) = Some rule) as Hf.
  { rewrite Hrules. clear Hrules. induction before as [|x before IH]; simpl; [by rewrite Hhit|].
    rewrite Hbefore by set_solver. apply IH. set_solver. }
  unfold evaluate_path_rules. rewrite Hf.
  destruct (allow rule), (sensitive_operation tool cmd); simpl; naive_solver.
Qed.

Lemma first_path_rule_decides_witness :
  let U := ascii_tables in
  let T := {| windows := false |} in
  let rule := {| pattern := lit "*/denied/*"; allow := false |} in
  let e := engine_new FullAuto {| allowed_tools := [lit "write_file"]; denied_tools := [];
    denied_commands := []; path_rules := [rule] |} in
  allowed (evaluate_reads e (reads_of e) (lit "write_file") false (Some (lit "/w/denied/a")) None)
  = false.
Proof.
  intros U T rule e.
  apply (first_path_rule_decides e (reads_of e) (lit "write_file") false (lit "/w/denied/a") None
    [] rule []).
  - rewrite <- evaluate_denials_iff, <- eq_None_not_Some. vm_compute. reflexivity.
  - reflexivity.
  - intros r' Hr. apply elem_of_nil in Hr. destruct Hr.
  - vm_compute. reflexivity.
  - reflexivity.
Defined.

(** Plan mode is read-only: with the engine in plan mode, a mutating
    tool that no path rule and no configured allow list lets through is
    never allowed, session grants included, and the only one that may even
    ask the user is the one that leaves plan mode. *)
Theorem plan_mode_blocks_mutation {T : Target} {U : Unicode} e tool path cmd :
  mode e = Plan -> tool ∉ allowed_tools (settings e) ->
  (forall p rule, path = Some p -> rule ∈ path_rules (settings e) -> rule_hits p rule = false) ->
  let d := evaluate e tool false path cmd in
  allowed d = false /\ (requires_confirmation d = true -> tool = lit "exit_plan_mode").
Proof.
  intros Hmode Htool Hrules. cbn zeta. unfold evaluate, evaluate_reads.
  destruct (evaluate_denials _ _ _ _ _) as [d|] eqn:Ed.
  { apply evaluate_denials_Some in Ed as [-> ->]. done. }
  assert (evaluate_path_rules e path (sensitive_operation tool cmd) = None) as ->.
  { unfold evaluate_path_rules. destruct path as [p|]; [|done].
    destruct (List.find _ _) as [rule|] eqn:Ef; [|done].
    apply find_some in Ef as [Hin Hh]. apply list_elem_of_In in Hin.
    by rewrite (Hrules p rule) in Hh. }
  unfold evaluate_modes, reads_of; simpl. rewrite Hmode.
  destruct (existsb _ _) eqn:E.
  { apply existsb_elem in E as (x & Hx & Heq). bool_to_prop. by subst. }
  rewrite (bool_decide_eq_true_2 (Plan = Plan)) by done. cbn [negb andb].
  rewrite (bool_decide_eq_false_2 (Plan = FullAuto)) by done.
  destruct (str_eqb tool _) eqn:Et; simpl; [|done]. bool_to_prop. done.
Qed.

Lemma plan_mode_blocks_mutation_witness :
  let U := ascii_tables in
  let T := {| windows := false |} in
  let e := allow_for_session (engine_new Plan {| allowed_tools := []; denied_tools := [];
    denied_commands := []; path_rules := [] |}) (lit "write_file") in
  allowed (evaluate e (lit "write_file") false (Some (lit "/w/a")) None) = false.
Proof.
  intros U T e. apply plan_mode_blocks_mutation.
  - reflexivity.
  - apply not_elem_of_nil.
  - intros p rule _ Hr. apply elem_of_nil in Hr. destruct Hr.
Defined.

(** The single check that a traversal tool makes on its root is
    enough: if [recursive_read_allowed] accepts the root, every path beneath
    it that is not a built-in credential path is readable under the same
    policy. *)
Theorem recursive_read_sound {T : Target} {U : Unicode} e root rest :
  recursive_read_allowed e root = true ->
  sensitive_path_pattern (root ++ slash :: rest) = None ->
  file_access_allowed e (root ++ slash :: rest) true = true.
Proof.
  unfold recursive_read_allowed. intros H Hs. bool_to_prop.
  match goal with H : existsb _ _ = false |- _ => rename H into Hr end.
  rewrite forallb_existsb_negb in Hr.
  assert (forall rule, rule ∈ path_rules (settings e) -> allow rule = true) as Hall.
  { intros rule Hin. by apply negb_false_iff, Hr. }
  rewrite file_access_no_denies in * by done. split; [done|].
  apply can_read_beneath; naive_solver.
Qed.

Lemma recursive_read_sound_witness :
  let U := ascii_tables in
  let T := {| windows := false |} in
  let e := with_filesystem_policy Default {| allowed_tools := []; denied_tools := [];
      denied_commands := []; path_rules := [] |}
    {| allow_read := [lit "/work"]; deny_read := []; allow_write := []; deny_write := [] |} in
  file_access_allowed e (lit "/work" ++ slash :: lit "src/a.rs") true = true.
Proof. intros U T e. apply recursive_read_sound; vm_compute; reflexivity. Defined.
