(* ===== verification/Messages.v ===== *)
(** * Conversation messages and the context store
    ([kernel/messages.rs], [kernel/state.rs], [kernel/context.rs] and the
    metadata of [tools/mod.rs], all under [crates/rust-agent/src])

    Messages are the code's tagged content blocks.  JSON values come from
    [serde_json] and only pass through: they are the interface [Json].
    [sanitize_conversation_messages] is proved to produce exactly the
    histories in which every tool request is answered ([well_paired]). *)

From S2P Require Import Prelude.

(** [serde_json::Value], as far as the code looks at it: the constructors it
    uses, the [as_] accessors, rendering and parsing. *)
Class Json := {
  Value : Type;
  value_null : Value;
  value_bool : bool -> Value;
  value_number : Z -> Value;
  value_string : str -> Value;
  value_object : gmap str Value -> Value;
  value_as_bool : Value -> option bool;
  value_as_str : Value -> option str;
  value_as_object : Value -> option (gmap str Value);
  value_to_string : Value -> str;
  value_parse : str -> option Value;
  value_eq_dec :: EqDecision Value;
  value_as_str_string : forall s, value_as_str (value_string s) = Some s
}.

(** A small concrete JSON (objects hold strings only), for evaluating
    concrete inputs. *)
Inductive small_value :=
| SNull
| SBool (b : bool)
| SNumber (z : Z)
| SString (s : str)
| SObject (fields : list (str * str)).

#[export] Instance small_value_eq_dec : EqDecision small_value.
Proof. solve_decision. Defined.

Definition small_string (v : small_value) : option str :=
  match v with SString s => Some s | _ => None end.

Definition small_json : Json :=
  {| Value := small_value; value_null := SNull; value_bool := SBool; value_number := SNumber;
     value_string := SString;
     value_object m := SObject (map_to_list (omap small_string m));
     value_as_bool v := match v with SBool b => Some b | _ => None end;
     value_as_str := small_string;
     value_as_object v := match v with
                          | SObject l => Some (SString <$> (list_to_map l : gmap str str))
                          | _ => None
                          end;
     value_to_string v := match v with
                          | SString s => [dquote] ++ s ++ [dquote]
                          | SBool b => if b then lit "true" else lit "false"
                          | SObject _ => lit "{}"
                          | _ => lit "null"
                          end;
     value_parse _ := None;
     value_as_str_string s := eq_refl |}.

(** The standard alphabet encoder of the [base64] crate. *)
Class Base64 := { base64_encode : list N -> str }.

(** ** Errors ([error.rs]) *)

(** The namespace of a missing vector index is kept as the text that
    [{0:?}] prints. *)
Inductive MemoryError :=
| Storage (message : str)
| Serialization (message : str)
| Encryption (message : str)
| SensitiveContent
| NamespaceNotFound (namespace : str)
| EntryNotFound (key : str).

Inductive ToolError :=
| ToolNotFound (name : str)
| InvalidInput (message : str)
| Execution (message : str)
| PermissionDenied (message : str).

Inductive SkillsError :=
| SkillNotFound (name : str)
| SkillInvalidFormat (message : str)
| SkillStorage (message : str).

Inductive CommandError :=
| CommandNotFound (name : str)
| CommandInvalidFormat (message : str).

Inductive AgentError :=
| MemoryErr (e : MemoryError)
| ToolErr (e : ToolError)
| SkillsErr (e : SkillsError)
| CommandErr (e : CommandError)
| ModelErr (message : str)
| MaxTurnsExceeded.

(** The [Display] texts of the [#[error]] attributes. *)
Definition agent_error_to_string (e : AgentError) : str :=
  match e with
  | MemoryErr (Storage m) => lit "storage error: " ++ m
  | MemoryErr (Serialization m) => lit "serialization error: " ++ m
  | MemoryErr (Encryption m) => lit "encryption error: " ++ m
  | MemoryErr SensitiveContent => lit "refusing to persist potentially sensitive memory content"
  | MemoryErr (NamespaceNotFound n) => lit "vector index namespace not found: " ++ n
  | MemoryErr (EntryNotFound k) => lit "entry not found: " ++ k
  | ToolErr (ToolNotFound n) => lit "tool not found: " ++ n
  | ToolErr (InvalidInput m) => lit "invalid tool input: " ++ m
  | ToolErr (Execution m) => lit "tool execution failed: " ++ m
  | ToolErr (PermissionDenied m) => lit "permission denied: " ++ m
  | SkillsErr (SkillNotFound n) => lit "skill not found: " ++ n
  | SkillsErr (SkillInvalidFormat m) => lit "invalid skill format: " ++ m
  | SkillsErr (SkillStorage m) => lit "skill storage error: " ++ m
  | CommandErr (CommandNotFound n) => lit "command not found: " ++ n
  | CommandErr (CommandInvalidFormat m) => lit "invalid command format: " ++ m
  | ModelErr m => lit "model transport error: " ++ m
  | MaxTurnsExceeded => lit "max turns exceeded"
  end.

Inductive Role := User | Assistant.
#[export] Instance Role_eq_dec : EqDecision Role.
Proof. solve_decision. Defined.

Section Data.
Context {J : Json}.

Inductive ContentBlock :=
| Text (text : str)
| Image (media_type data : str)
| ToolUseBlock (id name : str) (input : Value)
| ToolResult (tool_use_id content : str) (is_error : bool) (result_metadata : Value).

#[export] Instance ContentBlock_eq_dec : EqDecision ContentBlock.
Proof. solve_decision. Defined.

Record ToolUse := { id : str; name : str; input : Value }.

Record ConversationMessage := { role : Role; content : list ContentBlock }.

#[export] Instance ConversationMessage_eq_dec : EqDecision ConversationMessage.
Proof. solve_decision. Defined.

Definition from_user_text (text : str) : ConversationMessage :=
  {| role := User; content := [Text text] |}.

Definition from_user_content (content : list ContentBlock) : ConversationMessage :=
  {| role := User; content := content |}.

Definition block_text (b : ContentBlock) : option str :=
  match b with Text text => Some text | _ => None end.

Definition text (m : ConversationMessage) : str := concat (omap block_text (content m)).

Definition block_tool_use (b : ContentBlock) : option ToolUse :=
  match b with
  | ToolUseBlock id name input => Some {| id := id; name := name; input := input |}
  | _ => None
  end.

Definition tool_uses (m : ConversationMessage) : list ToolUse := omap block_tool_use (content m).

Definition is_effectively_empty (m : ConversationMessage) : bool :=
  negb (existsb (fun b => match b with
                          | Text text => negb (is_empty (trim text))
                          | Image _ _ | ToolUseBlock _ _ _ | ToolResult _ _ _ _ => true
                          end) (content m)).

(** ** History pruning *)

Definition block_result_id (b : ContentBlock) : option str :=
  match b with ToolResult tool_use_id _ _ _ => Some tool_use_id | _ => None end.

Definition result_id_list (m : ConversationMessage) : list str := omap block_result_id (content m).

Definition is_tool_result (b : ContentBlock) : bool :=
  match b with ToolResult _ _ _ _ => true | _ => false end.

(** The three local variables of [sanitize_conversation_messages]. *)
Record pruning := Pruning {
  sanitized : list ConversationMessage;
  pending_tool_use_ids : gset str;
  pending_tool_use_index : option nat
}.

(** The removal of the assistant message left without its results. *)
Definition drop_pending (out : list ConversationMessage) (index : option nat) :
    list ConversationMessage :=
  match index with
  | Some i => if i <? length out then delete i out else out
  | None => out
  end.

Definition push_message (out : list ConversationMessage) (pending : gset str)
    (index : option nat) (m : ConversationMessage) : pruning :=
  let out := out ++ [m] in
  if bool_decide (role m = Assistant) && negb (is_empty (tool_uses m))
  then Pruning out (list_to_set (id <$> tool_uses m)) (Some (length out - 1))
  else Pruning out pending index.

(** The body of the loop. *)
Definition sanitize_step (s : pruning) (m : ConversationMessage) : pruning :=
  if bool_decide (role m = Assistant) && is_effectively_empty m then s
  else
    let is_user := bool_decide (role m = User) in
    let result_ids : gset str := if is_user then list_to_set (result_id_list m) else ∅ in
    let has_pending := negb (bool_decide (pending_tool_use_ids s = ∅)) in
    let covers_pending := is_user && bool_decide (pending_tool_use_ids s ⊆ result_ids) in
    let matched := has_pending && covers_pending in
    let out := if has_pending && negb covers_pending
               then drop_pending (sanitized s) (pending_tool_use_index s) else sanitized s in
    let pending := if has_pending then ∅ else pending_tool_use_ids s in
    let index := if has_pending then None else pending_tool_use_index s in
    if is_user && negb (bool_decide (result_ids = ∅)) && negb matched then
      let remaining := List.filter (fun b => negb (is_tool_result b)) (content m) in
      if is_empty remaining then Pruning out pending index
      else push_message out pending index {| role := User; content := remaining |}
    else push_message out pending index m.

Definition sanitize_conversation_messages (messages : list ConversationMessage) :
    list ConversationMessage :=
  let s := fold_left sanitize_step messages (Pruning [] ∅ None) in
  if negb (bool_decide (pending_tool_use_ids s = ∅))
  then drop_pending (sanitized s) (pending_tool_use_index s)
  else sanitized s.

(** ** Metadata carried across turns *)

Definition TOOL_METADATA_LIST_CAP : nat := 50.

Record ToolMetadata := {
  read_files : list str;
  invoked_skills : list str;
  user_goal : option str;
  work_log : list str;
  active_artifacts : list str;
  extra : gmap str Value
}.

Definition metadata_default : ToolMetadata :=
  {| read_files := []; invoked_skills := []; user_goal := None; work_log := [];
     active_artifacts := []; extra := ∅ |}.

Fixpoint remove_first (value : str) (l : list str) : list str :=
  match l with
  | [] => []
  | x :: l' => if str_eqb x value then l' else x :: remove_first value l'
  end.

Definition push_capped_unique (l : list str) (value : str) : list str :=
  let l := remove_first value l ++ [value] in
  if TOOL_METADATA_LIST_CAP <? length l then drop (length l - TOOL_METADATA_LIST_CAP) l else l.

Definition record_read_file (m : ToolMetadata) (path : str) : ToolMetadata :=
  {| read_files := push_capped_unique (read_files m) path; invoked_skills := invoked_skills m;
     user_goal := user_goal m; work_log := work_log m; active_artifacts := active_artifacts m;
     extra := extra m |}.

Definition record_invoked_skill (m : ToolMetadata) (name : str) : ToolMetadata :=
  {| read_files := read_files m; invoked_skills := push_capped_unique (invoked_skills m) name;
     user_goal := user_goal m; work_log := work_log m; active_artifacts := active_artifacts m;
     extra := extra m |}.

Definition set_user_goal (m : ToolMetadata) (goal : str) : ToolMetadata :=
  {| read_files := read_files m; invoked_skills := invoked_skills m;
     user_goal := Some goal; work_log := work_log m; active_artifacts := active_artifacts m;
     extra := extra m |}.

Definition append_work_log (m : ToolMetadata) (entry : str) : ToolMetadata :=
  {| read_files := read_files m; invoked_skills := invoked_skills m;
     user_goal := user_goal m; work_log := push_capped_unique (work_log m) entry;
     active_artifacts := active_artifacts m; extra := extra m |}.

Definition record_active_artifact (m : ToolMetadata) (reference : str) : ToolMetadata :=
  {| read_files := read_files m; invoked_skills := invoked_skills m;
     user_goal := user_goal m; work_log := work_log m;
     active_artifacts := push_capped_unique (active_artifacts m) reference; extra := extra m |}.

(** ** Events and the context store *)

Record Attachment := { mime_type : str; data : list N }.

Inductive SystemEventType := Startup | Shutdown.

Inductive AgentEvent :=
| UserMessage (content : str) (attachments : list Attachment)
| ClearConversation
| SystemEvent (event_type : SystemEventType).

(** The [loaded_skills] of the store belong to the skills component and are
    not touched here. *)
Record ContextStore := {
  conversation : list ConversationMessage;
  tool_metadata : ToolMetadata
}.

Definition context_new : ContextStore :=
  {| conversation := []; tool_metadata := metadata_default |}.

Context {B : Base64}.

Definition attachment_block (a : Attachment) : option ContentBlock :=
  if starts_with (lit "image/") (mime_type a)
  then Some (Image (mime_type a) (base64_encode (data a))) else None.

(** [build] returns a [Result] but no path of it fails. *)
Definition context_build (c : ContextStore) (event : AgentEvent) :
    result ContextStore AgentError :=
  match event with
  | UserMessage content attachments =>
      let blank := is_empty (trim content) in
      let blocks := (if blank then [] else [Text content]) ++ omap attachment_block attachments in
      if is_empty blocks then Ok c
      else Ok {| conversation := conversation c ++ [{| role := User; content := blocks |}];
                 tool_metadata := if blank then tool_metadata c
                                  else set_user_goal (tool_metadata c) (trim content) |}
  | ClearConversation | SystemEvent _ => Ok c
  end.

Definition clear_conversation (c : ContextStore) : ContextStore :=
  {| conversation := []; tool_metadata := metadata_default |}.
End Data.

#[global] Arguments drop_pending : simpl never.
#[global] Arguments push_message : simpl never.

(** ** Well-paired histories *)

Section Pairing.
Context {J : Json}.
Implicit Types (m a r : ConversationMessage) (l : list ConversationMessage).

Definition tool_use_ids m : gset str := list_to_set (id <$> tool_uses m).
Definition result_ids m : gset str := list_to_set (result_id_list m).

(** A message that neither asks for a tool nor answers one. *)
Definition plain m : Prop :=
  match role m with
  | Assistant => is_effectively_empty m = false /\ tool_uses m = []
  | User => result_id_list m = []
  end.

(** An assistant message that asks for tools. *)
Definition asks m : Prop := role m = Assistant /\ tool_uses m <> [].

(** Every request for tools is answered, in full, by the very next message,
    and results appear nowhere else. *)
Inductive well_paired : list ConversationMessage -> Prop :=
| well_paired_nil : well_paired []
| well_paired_plain m l : plain m -> well_paired l -> well_paired (m :: l)
| well_paired_pair a r l :
    asks a -> role r = User -> tool_use_ids a ⊆ result_ids r -> well_paired l ->
    well_paired (a :: r :: l).

Hint Constructors well_paired : ains.

Lemma well_paired_app l1 l2 : well_paired l1 -> well_paired l2 -> well_paired (l1 ++ l2).
Proof. induction 1; simpl; auto with ains. Qed.

Lemma well_paired_snoc l m : well_paired l -> plain m -> well_paired (l ++ [m]).
Proof. intros. apply well_paired_app; auto with ains. Qed.

Lemma well_paired_snoc_pair l a r :
  well_paired l -> asks a -> role r = User -> tool_use_ids a ⊆ result_ids r ->
  well_paired ((l ++ [a]) ++ [r]).
Proof. intros. rewrite <- app_assoc. apply well_paired_app; simpl; auto with ains. Qed.

Lemma tool_use_ids_empty m : tool_use_ids m = ∅ <-> tool_uses m = [].
Proof.
  unfold tool_use_ids. destruct (tool_uses m) as [|u us]; simpl; [done|].
  split; [set_solver | done].
Qed.

Lemma asks_not_empty m : asks m -> is_effectively_empty m = false.
Proof.
  intros [_ Hu]. unfold is_effectively_empty. apply negb_false_iff, existsb_elem.
  unfold tool_uses in Hu. destruct (omap block_tool_use (content m)) as [|u us] eqn:E; [done|].
  assert (u ∈ omap block_tool_use (content m)) as Hin by (rewrite E; left).
  apply list_elem_of_omap in Hin as (b & Hb & Hbu). exists b. split; [done|]. by destruct b.
Qed.

Lemma asks_ids_nonempty m : asks m -> tool_use_ids m <> ∅.
Proof. intros [_ H]. by rewrite tool_use_ids_empty. Qed.

(** *** The invariant of the pruning loop *)

Inductive prune_inv : pruning -> Prop :=
| prune_settled out : well_paired out -> prune_inv (Pruning out ∅ None)
| prune_open out a :
    well_paired out -> asks a ->
    prune_inv (Pruning (out ++ [a]) (tool_use_ids a) (Some (length out))).

Lemma drop_pending_last out a : drop_pending (out ++ [a]) (Some (length out)) = out.
Proof.
  unfold drop_pending. rewrite length_app. simpl.
  replace (length out <? length out + 1) with true by (symmetry; apply Nat.ltb_lt; lia).
  rewrite delete_middle. by rewrite app_nil_r.
Qed.

Lemma push_plain out m : plain m -> push_message out ∅ None m = Pruning (out ++ [m]) ∅ None.
Proof.
  unfold plain, push_message. destruct (role m) eqn:E; [done|]. intros [_ ->]. done.
Qed.

Lemma push_asks out m :
  asks m -> push_message out ∅ None m = Pruning (out ++ [m]) (tool_use_ids m) (Some (length out)).
Proof.
  intros [E Hu]. unfold push_message. rewrite E. apply is_empty_false in Hu. rewrite Hu. simpl.
  f_equal. f_equal. rewrite length_app. simpl. lia.
Qed.

(** What a message becomes once no request is pending, [None] when it goes
    away. *)
Definition prune_free m : option ConversationMessage :=
  match role m with
  | Assistant => if is_effectively_empty m then None else Some m
  | User =>
      if is_empty (result_id_list m) then Some m
      else
        let remaining := List.filter (fun b => negb (is_tool_result b)) (content m) in
        if is_empty remaining then None else Some {| role := User; content := remaining |}
  end.

Lemma result_id_list_filter bs :
  omap block_result_id (List.filter (fun b => negb (is_tool_result b)) bs) = [].
Proof. induction bs as [|[] bs IH]; simpl; done. Qed.

Lemma result_ids_empty m : bool_decide (result_ids m = ∅) = is_empty (result_id_list m).
Proof.
  unfold result_ids. destruct (result_id_list m); simpl; [by apply bool_decide_eq_true|].
  apply bool_decide_eq_false. set_solver.
Qed.

Lemma prune_free_inv out m m' :
  well_paired out -> prune_free m = Some m' -> prune_inv (push_message out ∅ None m').
Proof.
  intros Hwp. unfold prune_free. destruct (role m) eqn:Er.
  - destruct (is_empty (result_id_list m)) eqn:E; bool_to_prop.
    + intros [= <-]. rewrite push_plain by (unfold plain; by rewrite Er).
      constructor. apply well_paired_snoc; [done|]. unfold plain. by rewrite Er.
    + cbn zeta. destruct (is_empty _); [done|]. intros [= <-].
      assert (plain {| role := User; content :=
        List.filter (fun b => negb (is_tool_result b)) (content m) |}) as Hp
        by apply result_id_list_filter.
      rewrite push_plain by done. constructor. by apply well_paired_snoc.
  - destruct (is_effectively_empty m) eqn:E; [done|]. intros [= <-].
    destruct (decide (tool_uses m = [])) as [Hu|Hu].
    + assert (plain m) as Hp by (unfold plain; by rewrite Er).
      rewrite push_plain by done. constructor. by apply well_paired_snoc.
    + assert (asks m) as Ha by done. rewrite push_asks by done. by constructor.
Qed.

Definition push_free out (o : option ConversationMessage) : pruning :=
  match o with
  | Some m => push_message out ∅ None m
  | None => Pruning out ∅ None
  end.

(** With nothing pending, one turn of the loop is [prune_free]. *)
Lemma sanitize_step_settled out m :
  sanitize_step (Pruning out ∅ None) m = push_free out (prune_free m).
Proof.
  unfold sanitize_step, prune_free. destruct (role m) eqn:Er; simpl.
  - rewrite ?(bool_decide_true (∅ =@{gset str} ∅)) by done. simpl.
    fold (result_ids m). rewrite result_ids_empty.
    destruct (is_empty (result_id_list m)); simpl; [done|].
    by destruct (is_empty (List.filter _ _)).
  - by destruct (is_effectively_empty m).
Qed.

(** With a request pending, the next message answers it or the request is
    dropped and the message is read as if it had never been made. *)
Lemma sanitize_step_open out a m :
  asks a ->
  sanitize_step (Pruning (out ++ [a]) (tool_use_ids a) (Some (length out))) m =
  if bool_decide (role m = Assistant) && is_effectively_empty m
  then Pruning (out ++ [a]) (tool_use_ids a) (Some (length out))
  else if bool_decide (role m = User) && bool_decide (tool_use_ids a ⊆ result_ids m)
  then Pruning ((out ++ [a]) ++ [m]) ∅ None
  else push_free out (prune_free m).
Proof.
  intros Ha. pose proof (asks_ids_nonempty _ Ha) as Hne.
  unfold sanitize_step, prune_free. destruct (role m) eqn:Er; simpl.
  - rewrite (bool_decide_false (tool_use_ids a = ∅)) by done. simpl.
    fold (result_ids m). rewrite result_ids_empty.
    destruct (bool_decide (tool_use_ids a ⊆ result_ids m)) eqn:Ec; simpl.
    + rewrite andb_false_r. unfold push_message. by rewrite Er.
    + rewrite drop_pending_last. destruct (is_empty (result_id_list m)); simpl; [done|].
      by destruct (is_empty (List.filter _ _)).
  - destruct (is_effectively_empty m); simpl; [done|].
    rewrite (bool_decide_false (tool_use_ids a = ∅)) by done. simpl.
    by rewrite drop_pending_last.
Qed.

Lemma push_free_inv out m : well_paired out -> prune_inv (push_free out (prune_free m)).
Proof.
  intros Hwp. destruct (prune_free m) eqn:E; simpl; [by eapply prune_free_inv | by constructor].
Qed.

Lemma sanitize_step_inv s m : prune_inv s -> prune_inv (sanitize_step s m).
Proof.
  intros [out Hwp|out a Hwp Ha].
  - rewrite sanitize_step_settled. by apply push_free_inv.
  - rewrite sanitize_step_open by done.
    destruct (_ && _); [by constructor|].
    destruct (_ && _) eqn:E; [|by apply push_free_inv].
    bool_to_prop. constructor. by apply well_paired_snoc_pair.
Qed.

Lemma sanitize_loop_inv l s : prune_inv s -> prune_inv (fold_left sanitize_step l s).
Proof. revert s; induction l; simpl; auto using sanitize_step_inv. Qed.

Lemma sanitize_well_paired l : well_paired (sanitize_conversation_messages l).
Proof.
  unfold sanitize_conversation_messages.
  destruct (sanitize_loop_inv l (Pruning [] ∅ None)) as [out Hwp|out a Hwp Ha];
    [constructor; constructor | |]; simpl; [done|].
  rewrite bool_decide_false by (by apply asks_ids_nonempty). simpl. by rewrite drop_pending_last.
Qed.

(** A history that is already well paired goes through unchanged. *)
Lemma sanitize_loop_id l out :
  well_paired l -> fold_left sanitize_step l (Pruning out ∅ None) = Pruning (out ++ l) ∅ None.
Proof.
  intros H; revert out; induction H as [|m l Hp H IH|a r l Ha Hr Hsub H IH]; intros out; simpl.
  - by rewrite app_nil_r.
  - rewrite sanitize_step_settled.
    assert (prune_free m = Some m) as ->.
    { unfold plain in Hp. unfold prune_free. destruct (role m); [by rewrite Hp | by destruct Hp as [-> _]]. }
    simpl. rewrite push_plain, IH by done. by rewrite <- app_assoc.
  - rewrite sanitize_step_settled.
    assert (prune_free a = Some a) as ->.
    { unfold prune_free. destruct Ha as [Hra Hu]. rewrite Hra, asks_not_empty by done. done. }
    simpl. rewrite push_asks, sanitize_step_open, Hr by done. simpl.
    rewrite bool_decide_true by done. rewrite IH. by rewrite <- !app_assoc.
Qed.

Lemma sanitize_id l : well_paired l -> sanitize_conversation_messages l = l.
Proof. intros H. unfold sanitize_conversation_messages. by rewrite sanitize_loop_id. Qed.
End Pairing.
#[export] Hint Constructors well_paired : ains.

(** ** What pruning keeps *)

Section Kept.
Context {J : Json}.
Implicit Types (m a r : ConversationMessage) (l out : list ConversationMessage).

(** What the user contributed: the blocks of user messages other than tool
    results. *)
Definition user_blocks m : list ContentBlock :=
  match role m with
  | User => List.filter (fun b => negb (is_tool_result b)) (content m)
  | Assistant => []
  end.
Definition said l : list ContentBlock := l ≫= user_blocks.

Lemma said_app l1 l2 : said (l1 ++ l2) = said l1 ++ said l2.
Proof. apply bind_app. Qed.

Lemma said_single m : said [m] = user_blocks m.
Proof. apply app_nil_r. Qed.

Lemma filter_no_results bs :
  omap block_result_id bs = [] -> List.filter (fun b => negb (is_tool_result b)) bs = bs.
Proof. induction bs as [|[] bs IH]; simpl; intros H; f_equal; auto. done. Qed.

Lemma filter_filter_results bs :
  List.filter (fun b => negb (is_tool_result b)) (List.filter (fun b => negb (is_tool_result b)) bs)
  = List.filter (fun b => negb (is_tool_result b)) bs.
Proof. apply filter_no_results, result_id_list_filter. Qed.

Lemma push_message_out out pending index m : sanitized (push_message out pending index m) = out ++ [m].
Proof. unfold push_message. by case_match. Qed.

Lemma said_push_free out m :
  said (sanitized (push_free out (prune_free m))) = said out ++ user_blocks m.
Proof.
  unfold prune_free, user_blocks. destruct (role m) eqn:Er.
  - destruct (is_empty (result_id_list m)); simpl.
    + rewrite push_message_out, said_app, said_single. unfold user_blocks. by rewrite Er.
    + destruct (is_empty _) eqn:E; simpl; bool_to_prop; [by rewrite E, app_nil_r|].
      rewrite ?push_message_out, said_app, said_single. unfold user_blocks; simpl.
      by rewrite filter_filter_results.
  - destruct (is_effectively_empty m); simpl; [by rewrite app_nil_r|].
    rewrite push_message_out, said_app, said_single. unfold user_blocks. by rewrite Er.
Qed.

Lemma said_asks out a : asks a -> said (out ++ [a]) = said out.
Proof.
  intros [Hr _]. rewrite said_app, said_single. unfold user_blocks. by rewrite Hr, app_nil_r.
Qed.

Lemma said_step s m :
  prune_inv s -> said (sanitized (sanitize_step s m)) = said (sanitized s) ++ user_blocks m.
Proof.
  intros [out Hwp|out a Hwp Ha]; [by rewrite sanitize_step_settled, said_push_free|].
  rewrite sanitize_step_open by done. destruct (_ && is_effectively_empty m) eqn:Ee.
  - bool_to_prop. unfold user_blocks.
    match goal with H : role m = _ |- _ => rewrite H end. by rewrite app_nil_r.
  - destruct (bool_decide (role m = User) && _).
    + simpl. by rewrite said_app, said_single.
    + rewrite said_push_free. simpl. by rewrite said_asks.
Qed.

Lemma said_loop l s :
  prune_inv s -> said (sanitized (fold_left sanitize_step l s)) = said (sanitized s) ++ said l.
Proof.
  revert s; induction l as [|m l IH]; intros s Hs; simpl; [by rewrite app_nil_r|].
  rewrite IH by by apply sanitize_step_inv. rewrite said_step by done.
  by rewrite <- app_assoc.
Qed.

Lemma said_sanitize l : said (sanitize_conversation_messages l) = said l.
Proof.
  unfold sanitize_conversation_messages.
  pose proof (said_loop l (Pruning [] ∅ None)) as Hl.
  destruct (sanitize_loop_inv l (Pruning [] ∅ None)) as [out Hwp|out a Hwp Ha];
    [constructor; constructor | |]; simpl in *.
  - apply Hl. constructor. constructor.
  - rewrite bool_decide_false by (by apply asks_ids_nonempty). simpl.
    rewrite drop_pending_last, <- (said_asks out a) by done.
    apply Hl. constructor. constructor.
Qed.

(** *** The context store *)

Context {B : Base64}.

Lemma omap_result_images atts : omap block_result_id (omap attachment_block atts) = [].
Proof.
  induction atts as [|a atts IH]; simpl; [done|]. unfold attachment_block at 1.
  by destruct (starts_with _ _).
Qed.

Lemma context_build_well_paired c event c' :
  well_paired (conversation c) -> context_build c event = Ok c' -> well_paired (conversation c').
Proof.
  intros Hwp. destruct event as [content atts| |]; simpl; [|by intros [= <-]..].
  destruct (is_empty (_ ++ _)); intros [= <-]; [done|]. simpl.
  apply well_paired_snoc; [done|]. unfold plain; simpl. unfold result_id_list; simpl.
  destruct (is_empty (trim content)); simpl; apply omap_result_images.
Qed.
End Kept.

(** *** Capped lists *)

Lemma remove_first_not_in value l : value ∉ l -> remove_first value l = l.
Proof.
  induction l as [|x l IH]; simpl; [done|]. intros H.
  destruct (str_eqb x value) eqn:E; bool_to_prop; [set_solver|]. f_equal. apply IH. set_solver.
Qed.

Lemma remove_first_spec value l :
  NoDup l -> (value ∉ remove_first value l) /\ NoDup (remove_first value l) /\
  (forall x, x ∈ remove_first value l <-> x ∈ l /\ x <> value).
Proof.
  induction 1 as [|x l Hx Hl IH]; simpl; [split; [set_solver | split; [constructor | set_solver]]|].
  destruct (str_eqb x value) eqn:E; bool_to_prop.
  - subst. split; [done|]. split; [done|]. intros y. rewrite elem_of_cons. naive_solver.
  - destruct IH as (H1 & H2 & H3). split; [set_solver|]. split.
    + constructor; [rewrite H3; naive_solver | done].
    + intros y. rewrite !elem_of_cons, H3. naive_solver.
Qed.

(** ** Properties *)

(** C32: pruning a history before it is sent or resumed is exact: whatever
    the input, the result is well paired (every assistant request for tools
    is answered in full by the next message, results appear nowhere else, no
    empty assistant message remains), and a history is left unchanged when,
    and only when, it is already well paired, so pruning is idempotent. *)
Theorem sanitize_exact {J : Json} (l : list ConversationMessage) :
  well_paired (sanitize_conversation_messages l) /\
  (sanitize_conversation_messages l = l <-> well_paired l).
Proof.
  split; [apply sanitize_well_paired|]. split; [|apply sanitize_id].
  intros <-. apply sanitize_well_paired.
Qed.

(** Pruning never loses what the user said: the text and images of the
    user messages, in order, are the same before and after. *)
Theorem sanitize_keeps_user_content {J : Json} (l : list ConversationMessage) :
  said (sanitize_conversation_messages l) = said l.
Proof. apply said_sanitize. Qed.

(** The lists of the metadata bag are bounded least-recently-used
    sets: recording a value in a duplicate-free list of at most 50 entries
    keeps it duplicate-free and within 50 entries, puts the value last, and
    keeps every other entry unless the list was full, when only the oldest
    goes. *)
Theorem push_capped_unique_lru l value :
  NoDup l -> length l <= TOOL_METADATA_LIST_CAP ->
  NoDup (push_capped_unique l value) /\
  length (push_capped_unique l value) <= TOOL_METADATA_LIST_CAP /\
  last (push_capped_unique l value) = Some value /\
  (exists dropped, remove_first value l ++ [value] = dropped ++ push_capped_unique l value /\
    length dropped <= 1 /\ (length l < TOOL_METADATA_LIST_CAP -> dropped = [])).
Proof.
  intros Hnd Hlen. destruct (remove_first_spec value l Hnd) as (Hni & Hnd' & Hin).
  assert (length (remove_first value l) <= length l) as Hle.
  { clear. induction l as [|x l IH]; simpl; [lia|]. destruct (str_eqb x value); simpl; lia. }
  assert (NoDup (remove_first value l ++ [value])) as Hnd2.
  { apply NoDup_app. split; [done|]. split; [set_solver | apply NoDup_singleton]. }
  unfold push_capped_unique. set (l' := remove_first value l ++ [value]) in *.
  assert (length l' = length (remove_first value l) + 1) as Hl' by (unfold l'; by rewrite length_app).
  destruct (TOOL_METADATA_LIST_CAP <? length l') eqn:E.
  - apply Nat.ltb_lt in E. set (k := length l' - TOOL_METADATA_LIST_CAP).
    rewrite <- (take_drop k l') in Hnd2. apply NoDup_app in Hnd2 as (_ & _ & ?).
    split; [done|]. rewrite length_drop. split; [unfold k; lia|]. split.
    + assert (k <= length (remove_first value l)) by (unfold k, TOOL_METADATA_LIST_CAP; lia).
      unfold l'. rewrite drop_app_le by done. by rewrite last_snoc.
    + exists (take k l'). rewrite take_drop. split; [done|]. rewrite length_take.
      split; [unfold k; lia|]. intros. exfalso. lia.
  - apply Nat.ltb_ge in E. split; [done|]. split; [done|]. split; [apply last_snoc|].
    exists []. split; [done|]. split; [simpl; lia | done].
Qed.

Lemma push_capped_unique_lru_witness :
  last (push_capped_unique [lit "a"; lit "b"] (lit "a")) = Some (lit "a").
Proof.
  apply (push_capped_unique_lru [lit "a"; lit "b"] (lit "a")).
  - apply (bool_decide_unpack _). vm_compute. exact I.
  - unfold TOOL_METADATA_LIST_CAP. simpl. lia.
Defined.
