(* ===== verification/Compact.v ===== *)
(** * Context compaction ([crates/rust-agent/src/context/compact.rs])

    The four-stage chain: microcompact, text collapse, session memory, model
    summary.  Token counts are kept in [N]: a [u64] cannot overflow on the
    byte lengths of texts in memory.  The model is the interface
    [ModelClient]: its answer may depend on how many calls came before. *)

From S2P Require Import Prelude Messages.

(** ** Requests and the model ([model_client.rs]) *)

(** [f32], as far as a status text prints it ([{:.1}]). *)
Class Float32 := { F32 : Type; show_f32_1 : F32 -> str }.

(** Seconds in whole numbers, for evaluating concrete inputs. *)
Definition whole_seconds : Float32 := {| F32 := N; show_f32_1 := show_N |}.

Section Model.
Context {J : Json} {F : Float32}.

Record ToolDef := { def_name : str; def_description : str; input_schema : Value }.

Record ModelRequest := {
  model : option str;
  messages : list ConversationMessage;
  system_prompt : option str;
  max_output_tokens : N;
  tools : list ToolDef
}.

Record UsageSnapshot := { input_tokens : N; output_tokens : N }.

Inductive ModelStreamEvent :=
| TextDelta (text : str)
| Complete (message : ConversationMessage) (usage : UsageSnapshot) (stop_reason : option str)
| Retry (message : str) (attempt max_attempts : N) (delay_secs : F32).

(** The [n]-th call to [stream_response]: an error, or the events of the
    stream until it closes. *)
Definition ModelClient := nat -> ModelRequest -> result (list ModelStreamEvent) AgentError.
End Model.

Inductive CompactTrigger := Auto | Manual | Reactive.

(** ** Constants *)

Definition COMPACTABLE_TOOLS : list str :=
  [ lit "read_file"; lit "bash"; lit "grep"; lit "glob"; lit "web_search"; lit "web_fetch";
    lit "edit_file"; lit "write_file" ].
Definition CLEARED_TOOL_RESULT : str := lit "[Old tool result content cleared]".
Definition AUTOCOMPACT_BUFFER_TOKENS : N := 13000.
Definition MAX_OUTPUT_TOKENS_FOR_SUMMARY : N := 20000.
Definition MAX_CONSECUTIVE_AUTOCOMPACT_FAILURES : nat := 3.
Definition MAX_COMPACT_STREAMING_RETRIES : nat := 2.
Definition MAX_PTL_RETRIES : nat := 3.
Definition SESSION_MEMORY_KEEP_RECENT : nat := 12.
Definition SESSION_MEMORY_MAX_LINES : nat := 48.
Definition SESSION_MEMORY_MAX_CHARS : N := 4000.
Definition CONTEXT_COLLAPSE_TEXT_CHAR_LIMIT : nat := 2400.
Definition CONTEXT_COLLAPSE_HEAD_CHARS : nat := 900.
Definition CONTEXT_COLLAPSE_TAIL_CHARS : nat := 500.
Definition DEFAULT_KEEP_RECENT : nat := 5.
Definition DEFAULT_PRESERVE_RECENT : nat := 6.
Definition TOKEN_ESTIMATION_NUM : N := 4.
Definition TOKEN_ESTIMATION_DEN : N := 3.
Definition VISION_IMAGE_TOKEN_ESTIMATE : N := 3072.
Definition DEFAULT_CONTEXT_WINDOW : N := 200000.
Definition PTL_RETRY_MARKER : str := lit "[earlier conversation truncated for compaction retry]".

Definition line_break : str := [newline].

Definition COMPACT_PROMPT : str :=
  lit "CRITICAL: Respond with TEXT ONLY. Do NOT call any tools. You already have all the context you need in the conversation above."
  ++ line_break ++ line_break
  ++ lit "Your task is to create a detailed summary of the conversation so far. This summary will replace the earlier messages, so it must capture all important information."
  ++ line_break ++ line_break
  ++ lit "First, draft your analysis inside <analysis> tags. Then produce a structured summary inside <summary> tags with these sections:" ++ line_break
  ++ lit "1. Primary Request and Intent" ++ line_break
  ++ lit "2. Key Technical Concepts" ++ line_break
  ++ lit "3. Files and Code Sections (with paths and line numbers)" ++ line_break
  ++ lit "4. Errors and Fixes" ++ line_break
  ++ lit "5. Problem Solving" ++ line_break
  ++ lit "6. All User Messages" ++ line_break
  ++ lit "7. Pending Tasks" ++ line_break
  ++ lit "8. Current Work" ++ line_break
  ++ lit "9. Optional Next Step" ++ line_break ++ line_break
  ++ lit "REMINDER: Respond with plain text only " ++ [8212%N]
  ++ lit " an <analysis> block followed by a <summary> block. Tool calls will be rejected.".

Definition COMPACTION_SYSTEM_PROMPT : str := lit "You are a conversation summarizer.".

(** ** Token estimates *)

Definition estimate_tokens (text : str) : N :=
  if is_empty text then 0%N else N.max ((utf8_len text + 3) / 4) 1.

Section Compact.
Context {J : Json} {F : Float32} {U : Unicode}.

Definition estimate_block_tokens (b : ContentBlock) : N :=
  match b with
  | Text text => estimate_tokens text
  | ToolResult _ content _ _ => estimate_tokens content
  | ToolUseBlock _ name input => (estimate_tokens name + estimate_tokens (value_to_string input))%N
  | Image _ _ => VISION_IMAGE_TOKEN_ESTIMATE
  end.

Definition raw_message_tokens (messages : list ConversationMessage) : N :=
  foldr (fun m acc => foldr (fun b acc => (estimate_block_tokens b + acc)%N) acc (content m))
    0%N messages.

Definition estimate_message_tokens (messages : list ConversationMessage) : N :=
  (raw_message_tokens messages * TOKEN_ESTIMATION_NUM / TOKEN_ESTIMATION_DEN)%N.

Definition get_context_window (_model : option str) : N := DEFAULT_CONTEXT_WINDOW.

Definition get_autocompact_threshold (model : option str) : N :=
  (get_context_window model - N.min MAX_OUTPUT_TOKENS_FOR_SUMMARY 20000
   - AUTOCOMPACT_BUFFER_TOKENS)%N.

Record AutoCompactState := {
  compacted : bool;
  turn_counter : N;
  consecutive_failures : nat
}.

Definition compact_state_default : AutoCompactState :=
  {| compacted := false; turn_counter := 0; consecutive_failures := 0 |}.

Definition should_autocompact (messages : list ConversationMessage) (model : option str)
    (state : AutoCompactState) : bool :=
  if MAX_CONSECUTIVE_AUTOCOMPACT_FAILURES <=? consecutive_failures state then false
  else (get_autocompact_threshold model <=? estimate_message_tokens messages)%N.

(** ** Splitting *)

Definition boundary_crosses_tool_pair (previous current : ConversationMessage) : bool :=
  if negb (bool_decide (role previous = Assistant)) || negb (bool_decide (role current = User))
  then false
  else
    let pending : gset str := list_to_set (id <$> tool_uses previous) in
    if bool_decide (pending = ∅) then false
    else existsb (fun i => bool_decide (i ∈ pending)) (result_id_list current).

(** The [while split > 0] loop. *)
Fixpoint split_point (messages : list ConversationMessage) (split : nat) : nat :=
  match split with
  | 0 => 0
  | S k =>
      match messages !! k, messages !! split with
      | Some previous, Some current =>
          if boundary_crosses_tool_pair previous current then split_point messages k else split
      | _, _ => split
      end
  end.

Definition split_preserving_tool_pairs (messages : list ConversationMessage)
    (preserve_recent : nat) : list ConversationMessage * list ConversationMessage :=
  if length messages <=? preserve_recent
  then ([], sanitize_conversation_messages messages)
  else
    let split := split_point messages (length messages - preserve_recent) in
    (take split messages, sanitize_conversation_messages (drop split messages)).

(** ** Stage 1: microcompact *)

(** The [HashMap] of names: the last use of an id wins. *)
Definition tool_name_of (uses : list ToolUse) (i : str) : option str :=
  (list_to_map (reverse ((fun u => (id u, name u)) <$> uses)) : gmap str str) !! i.

Definition collect_compactable_tool_ids (messages : list ConversationMessage) : list str :=
  let uses := messages ≫= tool_uses in
  List.filter (fun i => match tool_name_of uses i with
                        | Some name => existsb (str_eqb name) COMPACTABLE_TOOLS
                        | None => false
                        end) (id <$> uses).

Definition clear_block (clear_set : gset str) (b : ContentBlock) : ContentBlock * N :=
  match b with
  | ToolResult tool_use_id content is_error meta =>
      if bool_decide (tool_use_id ∈ clear_set) && negb (str_eqb content CLEARED_TOOL_RESULT)
      then (ToolResult tool_use_id CLEARED_TOOL_RESULT is_error meta, estimate_tokens content)
      else (b, 0%N)
  | _ => (b, 0%N)
  end.

Definition clear_message (clear_set : gset str) (m : ConversationMessage) :
    ConversationMessage * N :=
  if negb (bool_decide (role m = User)) then (m, 0%N)
  else
    let bs := clear_block clear_set <$> content m in
    ({| role := role m; content := fst <$> bs |}, foldr (fun p acc => (snd p + acc)%N) 0%N bs).

Definition microcompact_messages (messages : list ConversationMessage) (keep_recent : nat) :
    list ConversationMessage * N :=
  let keep_recent := Nat.max keep_recent 1 in
  let all_ids := collect_compactable_tool_ids messages in
  if length all_ids <=? keep_recent then (messages, 0%N)
  else
    let keep_from := length all_ids - keep_recent in
    let clear_set : gset str := list_to_set (take keep_from all_ids) in
    let ms := clear_message clear_set <$> messages in
    (fst <$> ms, foldr (fun p acc => (snd p + acc)%N) 0%N ms).

(** ** Stage 2: text collapse *)

Definition collapse_text (text : str) : str :=
  let char_count := length text in
  if char_count <=? CONTEXT_COLLAPSE_TEXT_CHAR_LIMIT then text
  else
    let omitted := char_count - CONTEXT_COLLAPSE_HEAD_CHARS - CONTEXT_COLLAPSE_TAIL_CHARS in
    let head := take CONTEXT_COLLAPSE_HEAD_CHARS text in
    let tail := drop (char_count - CONTEXT_COLLAPSE_TAIL_CHARS) text in
    trim_end head ++ line_break ++ lit "...[collapsed " ++ show_nat omitted
    ++ lit " chars]..." ++ line_break ++ trim_start tail.

Definition collapse_block (b : ContentBlock) : ContentBlock :=
  match b with
  | Text text => Text (collapse_text text)
  | ToolResult tool_use_id content is_error meta =>
      ToolResult tool_use_id (collapse_text content) is_error meta
  | other => other
  end.

Definition collapse_message (m : ConversationMessage) : ConversationMessage :=
  {| role := role m; content := collapse_block <$> content m |}.

(** The [changed] flag: some text of the block is not its own collapse. *)
Definition block_changes (b : ContentBlock) : bool :=
  match b with
  | Text text => negb (str_eqb (collapse_text text) text)
  | ToolResult _ content _ _ => negb (str_eqb (collapse_text content) content)
  | _ => false
  end.

Definition try_context_collapse (messages : list ConversationMessage) (preserve_recent : nat) :
    option (list ConversationMessage) :=
  if length messages <=? preserve_recent + 2 then None
  else
    let '(older, newer) := split_preserving_tool_pairs messages preserve_recent in
    let changed := existsb (fun m => existsb block_changes (content m)) older in
    if negb changed then None
    else
      let result := (collapse_message <$> older) ++ newer in
      if (estimate_message_tokens messages <=? estimate_message_tokens result)%N then None
      else Some result.

(** ** Stage 3: session memory *)

Definition role_name (r : Role) : str :=
  match r with User => lit "user" | Assistant => lit "assistant" end.

Definition summarize_message_for_memory (m : ConversationMessage) : str :=
  let role := role_name (role m) in
  let text := join [space] (split_whitespace (text m)) in
  if negb (is_empty text) then role ++ lit ": " ++ take 160 text
  else
    let tools := take 4 (name <$> tool_uses m) in
    if negb (is_empty tools) then role ++ lit ": tool calls -> " ++ join (lit ", ") tools
    else if existsb is_tool_result (content m) then role ++ lit ": tool results returned"
    else role ++ lit ": [non-text content]".

(** The loop of [build_session_memory_message]; [lines] is what is kept so
    far, in order. *)
Fixpoint memory_lines (messages : list ConversationMessage) (lines : list str) (total_chars : N) :
    list str :=
  match messages with
  | [] => lines
  | m :: rest =>
      let line := summarize_message_for_memory m in
      let projected := (total_chars + utf8_len line + 1)%N in
      if negb (is_empty lines)
         && ((SESSION_MEMORY_MAX_LINES <=? length lines)
             || (SESSION_MEMORY_MAX_CHARS <=? projected)%N)
      then lines ++ [lit "... earlier context condensed ..."]
      else memory_lines rest (lines ++ [line]) projected
  end.

Definition build_session_memory_message (messages : list ConversationMessage) :
    option ConversationMessage :=
  let lines := memory_lines messages [] 0%N in
  if is_empty lines then None
  else Some (from_user_text
    (lit "Session memory summary from earlier in this conversation:" ++ line_break
     ++ join line_break lines)).

Definition try_session_memory_compaction (messages : list ConversationMessage)
    (preserve_recent : nat) : option (list ConversationMessage) :=
  if length messages <=? preserve_recent + 4 then None
  else
    let '(older, newer) := split_preserving_tool_pairs messages preserve_recent in
    summary ← build_session_memory_message older;
    let provisional := summary :: newer in
    if (estimate_message_tokens messages <=? estimate_message_tokens provisional)%N
       && (length messages <=? length provisional)
    then None
    else Some (sanitize_conversation_messages provisional).

(** ** Stage 4: the text of a model summary *)

(** The [while let] loop of [strip_tag_block]. *)
Fixpoint strip_tag_loop (fuel : nat) (open close out : str) : str :=
  match fuel with
  | 0 => out
  | S k =>
      match find open out, find close out with
      | Some start, Some stop =>
          if stop <? start then out
          else strip_tag_loop k open close (take start out ++ drop (stop + length close) out)
      | _, _ => out
      end
  end.

Definition open_tag (tag : str) : str := lit "<" ++ tag ++ lit ">".
Definition close_tag (tag : str) : str := lit "</" ++ tag ++ lit ">".

Definition strip_tag_block (text tag : str) : str :=
  strip_tag_loop (S (length text)) (open_tag tag) (close_tag tag) text.

Definition extract_tag_inner (text tag : str) : option str :=
  i ← find (open_tag tag) text;
  let start := i + length (open_tag tag) in
  j ← find (close_tag tag) (drop start text);
  Some (take j (drop start text)).

(** The [while text.contains] loop that folds blank lines. *)
Definition three_newlines : str := [newline; newline; newline].
Definition two_newlines : str := [newline; newline].

Fixpoint fold_blank_lines (fuel : nat) (text : str) : str :=
  match fuel with
  | 0 => text
  | S k => if contains three_newlines text
           then fold_blank_lines k (replace three_newlines two_newlines text) else text
  end.

Definition format_compact_summary (raw : str) : str :=
  let text := strip_tag_block raw (lit "analysis") in
  let text :=
    match extract_tag_inner text (lit "summary") with
    | Some inner =>
        replace (lit "<summary>" ++ inner ++ lit "</summary>")
          (lit "Summary:" ++ line_break ++ trim inner) text
    | None => text
    end in
  trim (fold_blank_lines (S (length text)) text).

Definition build_compact_summary_message (summary : str) (suppress_follow_up : bool) :
    ConversationMessage :=
  from_user_text
    (lit "This session is being continued from a previous conversation that ran out of context. The summary below covers the earlier portion of the conversation."
     ++ line_break ++ line_break ++ format_compact_summary summary
     ++ (if suppress_follow_up
         then line_break ++ lit "Continue the conversation from where it left off without asking the user any further questions. Resume directly."
         else [])).

Definition replace_image (b : ContentBlock) : ContentBlock :=
  match b with
  | Image media_type _ =>
      Text (lit "[image content omitted for compaction: " ++ media_type ++ lit "]")
  | other => other
  end.

Definition replace_images_with_placeholders (messages : list ConversationMessage) :
    list ConversationMessage :=
  (fun m => {| role := role m; content := replace_image <$> content m |}) <$> messages.

(** ** Stage 4: dropping the oldest rounds *)

Definition starts_round (m : ConversationMessage) : bool :=
  bool_decide (role m = User)
  && negb (existsb is_tool_result (content m))
  && negb (is_empty (trim (text m))).

Fixpoint group_rounds (messages current : list ConversationMessage) :
    list (list ConversationMessage) :=
  match messages with
  | [] => if is_empty current then [] else [current]
  | m :: rest =>
      if starts_round m && negb (is_empty current)
      then current :: group_rounds rest [m]
      else group_rounds rest (current ++ [m])
  end.

Definition group_by_prompt_round (messages : list ConversationMessage) :
    list (list ConversationMessage) := group_rounds messages [].

Definition truncate_head_for_ptl_retry (messages : list ConversationMessage) :
    option (list ConversationMessage) :=
  let groups := group_by_prompt_round messages in
  if length groups <? 2 then None
  else
    let drop_count := Nat.min (Nat.max (length groups / 5) 1) (length groups - 1) in
    match concat (drop drop_count groups) with
    | [] => None
    | first :: rest =>
        if bool_decide (role first = Assistant)
        then Some (from_user_text PTL_RETRY_MARKER :: first :: rest)
        else Some (first :: rest)
    end.

(** ** Stage 4: the model summary

    [log] lists the requests sent to the model so far; its length is the
    index of the next call. *)

Definition PTL_NEEDLES : list str :=
  [ lit "prompt too long"; lit "context_length_exceeded"; lit "context length";
    lit "maximum context"; lit "context window"; lit "input tokens exceed";
    lit "too many tokens"; lit "exceeds the available context size" ].

Definition is_prompt_too_long (message : str) : bool :=
  existsb (fun needle => contains needle (to_lowercase message)) PTL_NEEDLES.

Record SummaryFailure := { failure_message : str; terminal : bool }.

(** The local variables of the event loop of [collect_summary]. *)
Record collecting := { collected : str; last_retry : option str; is_terminal : bool }.

Definition collect_event (c : collecting) (event : ModelStreamEvent) : collecting :=
  match event with
  | Complete message _ _ =>
      {| collected := text message; last_retry := last_retry c; is_terminal := is_terminal c |}
  | Retry message attempt max_attempts _ =>
      {| collected := collected c; last_retry := Some message;
         is_terminal := (max_attempts <=? attempt)%N |}
  | TextDelta _ => c
  end.

Definition summary_request (model_name : option str) (request_messages : list ConversationMessage) :
    ModelRequest :=
  {| model := model_name;
     messages := replace_images_with_placeholders request_messages;
     system_prompt := Some COMPACTION_SYSTEM_PROMPT;
     max_output_tokens := MAX_OUTPUT_TOKENS_FOR_SUMMARY;
     tools := [] |}.

Definition collect_summary (client : ModelClient) (log : list ModelRequest)
    (model_name : option str) (request_messages : list ConversationMessage) :
    result str SummaryFailure :=
  match client (length log) (summary_request model_name request_messages) with
  | Err e => Err {| failure_message := agent_error_to_string e; terminal := false |}
  | Ok events =>
      let c := fold_left collect_event events
                 {| collected := []; last_retry := None; is_terminal := false |} in
      if is_empty (trim (collected c))
      then Err {| failure_message :=
                    default (lit "compaction returned an empty summary") (last_retry c);
                  terminal := is_terminal c |}
      else Ok (collected c)
  end.

Record summary_run := {
  outcome : result str str;
  requests : list ModelRequest;
  notes : list str
}.

(** The retry loop.  [ptl_left] and [stream_left] are what remains of the
    two budgets ([MAX_PTL_RETRIES - ptl_retries] and
    [MAX_COMPACT_STREAMING_RETRIES - stream_retries]); [body] is the request
    without its last message, the compaction prompt. *)
Fixpoint summary_loop (client : ModelClient) (model_name : option str) (ptl_left : nat) :
    nat -> list ModelRequest -> list str -> list ConversationMessage -> summary_run :=
  fix stream_loop stream_left log progress body :=
    let request_messages := body ++ [from_user_text COMPACT_PROMPT] in
    let log' := log ++ [summary_request model_name request_messages] in
    let fail failure :=
      {| outcome := Err (failure_message failure); requests := log'; notes := progress |} in
    match collect_summary client log model_name request_messages with
    | Ok text => {| outcome := Ok text; requests := log'; notes := progress |}
    | Err failure =>
        if is_prompt_too_long (failure_message failure) then
          match ptl_left with
          | 0 => fail failure
          | S ptl_left =>
              match truncate_head_for_ptl_retry body with
              | None => fail failure
              | Some truncated =>
                  summary_loop client model_name ptl_left stream_left log'
                    (progress ++ [lit "compact_retry"]) truncated
              end
          end
        else if terminal failure then fail failure
        else
          match stream_left with
          | 0 => fail failure
          | S stream_left =>
              stream_loop stream_left log' (progress ++ [lit "compact_retry"]) body
          end
    end.

Record conversation_run := {
  compact_outcome : result (list ConversationMessage) str;
  compact_requests : list ModelRequest;
  compact_notes : list str
}.

Definition compact_conversation (messages : list ConversationMessage) (client : ModelClient)
    (log : list ModelRequest) (model_name : option str) (preserve_recent : nat)
    (_trigger : CompactTrigger) (progress : list str) : conversation_run :=
  if length messages <=? preserve_recent
  then {| compact_outcome := Ok messages; compact_requests := log; compact_notes := progress |}
  else
    let working := fst (microcompact_messages messages DEFAULT_KEEP_RECENT) in
    let '(older, newer) := split_preserving_tool_pairs working preserve_recent in
    if is_empty older
    then {| compact_outcome := Ok working; compact_requests := log; compact_notes := progress |}
    else
      let run := summary_loop client model_name MAX_PTL_RETRIES MAX_COMPACT_STREAMING_RETRIES
                   log progress older in
      {| compact_outcome :=
           match outcome run with
           | Err reason => Err reason
           | Ok summary =>
               Ok (sanitize_conversation_messages
                     (build_compact_summary_message summary true :: newer))
           end;
         compact_requests := requests run; compact_notes := notes run |}.

Record auto_run := {
  run_messages : list ConversationMessage;
  was_compacted : bool;
  run_state : AutoCompactState;
  run_requests : list ModelRequest;
  run_notes : list str
}.

Definition compact_succeeded (s : AutoCompactState) : AutoCompactState :=
  {| compacted := true; turn_counter := turn_counter s + 1; consecutive_failures := 0 |}.
Definition compact_failed (s : AutoCompactState) : AutoCompactState :=
  {| compacted := compacted s; turn_counter := turn_counter s;
     consecutive_failures := S (consecutive_failures s) |}.

Definition model_stage (messages : list ConversationMessage) (client : ModelClient)
    (log : list ModelRequest) (model_name : option str) (state : AutoCompactState)
    (trigger : CompactTrigger) (preserve_recent : nat) (progress : list str) : auto_run :=
  let run := compact_conversation messages client log model_name preserve_recent trigger
               (progress ++ [lit "compact_start"]) in
  let answer ms done st note :=
    {| run_messages := ms; was_compacted := done; run_state := st;
       run_requests := compact_requests run; run_notes := compact_notes run ++ [note] |} in
  match compact_outcome run with
  | Ok compacted =>
      if bool_decide (compacted = messages) then answer compacted false state (lit "compact_noop")
      else answer compacted true (compact_succeeded state) (lit "compact_end")
  | Err _ => answer messages false (compact_failed state) (lit "compact_failed")
  end.

Definition later_stages (messages : list ConversationMessage) (client : ModelClient)
    (log : list ModelRequest) (model_name : option str) (state : AutoCompactState)
    (trigger : CompactTrigger) (preserve_recent : nat) (progress : list str) : auto_run :=
  match try_session_memory_compaction messages
          (Nat.max preserve_recent SESSION_MEMORY_KEEP_RECENT) with
  | Some condensed =>
      {| run_messages := condensed; was_compacted := true; run_state := compact_succeeded state;
         run_requests := log;
         run_notes := progress ++ [lit "session_memory_start"; lit "session_memory_end"] |}
  | None => model_stage messages client log model_name state trigger preserve_recent progress
  end.

Definition auto_compact_if_needed (messages : list ConversationMessage) (client : ModelClient)
    (log : list ModelRequest) (model_name : option str) (state : AutoCompactState)
    (trigger : CompactTrigger) (preserve_recent : nat) (force : bool) : auto_run :=
  let stop ms done st progress :=
    {| run_messages := ms; was_compacted := done; run_state := st; run_requests := log;
       run_notes := progress |} in
  if negb force && negb (should_autocompact messages model_name state)
  then stop messages false state []
  else
    let '(messages, freed) := microcompact_messages messages DEFAULT_KEEP_RECENT in
    if (0 <? freed)%N && negb force && negb (should_autocompact messages model_name state)
    then stop messages true (compact_succeeded state) []
    else
      match try_context_collapse messages preserve_recent with
      | Some collapsed =>
          let progress := [lit "context_collapse_start"; lit "context_collapse_end"] in
          if negb force && negb (should_autocompact collapsed model_name state)
          then stop collapsed true (compact_succeeded state) progress
          else later_stages collapsed client log model_name state trigger preserve_recent progress
      | None => later_stages messages client log model_name state trigger preserve_recent []
      end.
End Compact.
#[global] Arguments COMPACT_PROMPT : simpl never.
#[global] Arguments PTL_RETRY_MARKER : simpl never.
#[global] Arguments CLEARED_TOOL_RESULT : simpl never.
#[global] Arguments collapse_text : simpl never.

(** ** Stages that rewrite block by block *)

Section Similar.
Context {J : Json} {F : Float32} {U : Unicode}.
Implicit Types (m a r : ConversationMessage) (l older newer : list ConversationMessage).

(** What pairing looks at is the same, and nothing becomes empty. *)
Record similar m m' : Prop := {
  similar_role : role m' = role m;
  similar_uses : tool_uses m' = tool_uses m;
  similar_results : result_id_list m' = result_id_list m;
  similar_empty : is_effectively_empty m = false -> is_effectively_empty m' = false
}.

Lemma similar_refl m : similar m m.
Proof. by constructor. Qed.

Lemma similar_plain m m' : similar m m' -> plain m -> plain m'.
Proof.
  intros [Hr Hu Hi He]. unfold plain. rewrite Hr, Hu, Hi. destruct (role m); [done|].
  intros [? ?]. auto.
Qed.

Lemma similar_well_paired l l' : Forall2 similar l l' -> well_paired l -> well_paired l'.
Proof.
  intros HF Hw. revert l' HF. induction Hw as [|m l Hp H IH|a r l Ha Hr Hs H IH]; intros l' HF.
  - inversion HF. constructor.
  - inversion HF as [|? m' ? l2 Hm HF']; subst. constructor; [by eapply similar_plain | auto].
  - inversion HF as [|? a' ? l2 [Ar Au Ai _] HF']; subst.
    inversion HF' as [|? r' ? l3 [Rr Ru Ri _] HF'']; subst.
    constructor; [|congruence| |by apply IH].
    + destruct Ha as [Hra Hua]. split; [congruence | by rewrite Au].
    + unfold tool_use_ids, result_ids. by rewrite Au, Ri.
Qed.

Lemma omap_fmap_same {A B} (g : A -> option B) (f : A -> A) (bs : list A) :
  (forall b, g (f b) = g b) -> omap g (f <$> bs) = omap g bs.
Proof. intros H. induction bs as [|b bs IH]; csimpl; [done|]. by rewrite H, IH. Qed.

(** Rewriting the blocks of a message one by one. *)
Lemma similar_map (f : ContentBlock -> ContentBlock) m :
  (forall b, block_tool_use (f b) = block_tool_use b) ->
  (forall b, block_result_id (f b) = block_result_id b) ->
  (forall t, f (Text t) = Text t \/
             exists t', f (Text t) = Text t' /\ is_empty (trim t') = false) ->
  (forall mt d, f (Image mt d) = Image mt d \/
             exists t', f (Image mt d) = Text t' /\ is_empty (trim t') = false) ->
  similar m {| role := role m; content := f <$> content m |}.
Proof.
  intros Hu Hi Ht Him. constructor; simpl; [done| | |].
  - unfold tool_uses; simpl. by apply omap_fmap_same.
  - unfold result_id_list; simpl. by apply omap_fmap_same.
  - unfold is_effectively_empty. simpl. rewrite !negb_false_iff, !existsb_elem.
    intros (b & Hb & Hne). exists (f b). split; [by apply list_elem_of_fmap_2|].
    destruct b as [t|a d|i n v|i c e v].
    + destruct (Ht t) as [->|(t' & -> & ->)]; done.
    + destruct (Him a d) as [->|(t' & -> & ->)]; done.
    + specialize (Hu (ToolUseBlock i n v)). by destruct (f _).
    + specialize (Hi (ToolResult i c e v)). by destruct (f _).
Qed.

Lemma clear_message_similar cs m : similar m (fst (clear_message cs m)).
Proof.
  unfold clear_message. destruct (negb _); simpl; [apply similar_refl|].
  rewrite <- list_fmap_compose. apply similar_map.
  - intros []; simpl; try done. by case_match.
  - intros []; simpl; try done. by case_match.
  - by left.
  - by left.
Qed.

Lemma clear_message_said cs m : user_blocks (fst (clear_message cs m)) = user_blocks m.
Proof.
  unfold clear_message, user_blocks. destruct (role m) eqn:Er; simpl; [|by rewrite Er].
  rewrite <- list_fmap_compose. induction (content m) as [|b bs IH]; simpl; [done|].
  destruct b; simpl; try (by f_equal). by destruct (_ && _).
Qed.

Lemma collapse_text_cases t :
  collapse_text t = t \/ is_empty (trim (collapse_text t)) = false.
Proof.
  unfold collapse_text. case_match; [by left|]. right.
  rewrite app_assoc. apply (trim_visible _ _ 46%N). done.
Qed.

Lemma collapse_message_similar m : similar m (collapse_message m).
Proof.
  apply similar_map; [by intros []|by intros []| |].
  - intros t. simpl. destruct (collapse_text_cases t) as [->|H]; [by left|]. right. eauto.
  - by left.
Qed.

Lemma replace_image_similar m :
  similar m {| role := role m; content := replace_image <$> content m |}.
Proof.
  apply similar_map; [by intros []|by intros []|by left|].
  intros mt d. right. eexists. split; [done|].
  apply (trim_visible [] _ 91%N). done.
Qed.

Lemma map_similar (f : ConversationMessage -> ConversationMessage) l :
  (forall m, similar m (f m)) -> Forall2 similar l (f <$> l).
Proof. intros H. induction l; simpl; constructor; auto. Qed.

Lemma replace_images_well_paired l :
  well_paired l -> well_paired (replace_images_with_placeholders l).
Proof. apply similar_well_paired, map_similar, replace_image_similar. Qed.

(** *** Microcompact *)

Lemma microcompact_map messages k :
  exists f : ConversationMessage -> ConversationMessage,
    fst (microcompact_messages messages k) = f <$> messages /\
    (forall m, similar m (f m)) /\ (forall m, user_blocks (f m) = user_blocks m).
Proof.
  unfold microcompact_messages. case_match; simpl.
  - exists (fun m => m). rewrite list_fmap_id. split; [done|]. split; [apply similar_refl|done].
  - eexists. rewrite <- list_fmap_compose. split; [done|]. split; intros m.
    + apply clear_message_similar.
    + apply clear_message_said.
Qed.

Lemma microcompact_well_paired messages k :
  well_paired messages -> well_paired (fst (microcompact_messages messages k)).
Proof.
  destruct (microcompact_map messages k) as (f & -> & Hs & _).
  by apply similar_well_paired, map_similar.
Qed.

Lemma said_cons m l : said (m :: l) = user_blocks m ++ said l.
Proof. done. Qed.

Lemma said_map (f : ConversationMessage -> ConversationMessage) l :
  (forall m, user_blocks (f m) = user_blocks m) -> said (f <$> l) = said l.
Proof. intros H. induction l as [|m l IH]; [done|]. rewrite fmap_cons, !said_cons. by rewrite H, IH. Qed.

(** *** Splitting *)

(** The cut before position [k] separates a request from its results. *)
Definition cuts_pair l k : Prop :=
  exists i p c, k = S i /\ l !! i = Some p /\ l !! k = Some c /\
    boundary_crosses_tool_pair p c = true.

Lemma split_point_no_cut l k : ~ cuts_pair l (split_point l k).
Proof.
  induction k as [|k IH]; cbn [split_point].
  - by intros (i & p & c & Hk & _).
  - destruct (l !! k) as [p'|] eqn:Ep; [destruct (l !! S k) as [c'|] eqn:Ec|];
      [destruct (boundary_crosses_tool_pair p' c') eqn:Eb; [exact IH|]| |];
      intros (i & p & c & Hk & Hi & Hc & Hx); congruence.
Qed.

Lemma split_point_le l k : split_point l k <= k.
Proof. induction k as [|k IH]; cbn [split_point]; [lia|]. repeat case_match; lia. Qed.

Lemma asks_crosses a r :
  asks a -> role r = User -> tool_use_ids a ⊆ result_ids r ->
  boundary_crosses_tool_pair a r = true.
Proof.
  intros Ha Hr Hs. unfold boundary_crosses_tool_pair. pose proof (asks_ids_nonempty _ Ha) as Hne.
  destruct Ha as [Hra _]. fold (tool_use_ids a).
  rewrite !(bool_decide_true (_ = _)) by done. simpl. rewrite bool_decide_false by done.
  apply existsb_elem. apply set_choose_L in Hne as [i Hi]. exists i.
  split; [|by apply bool_decide_eq_true]. apply Hs in Hi. by apply elem_of_list_to_set in Hi.
Qed.

Lemma well_paired_split l k :
  well_paired l -> ~ cuts_pair l k -> well_paired (take k l) /\ well_paired (drop k l).
Proof.
  intros Hw. revert k. induction Hw as [|m l Hp H IH|a r l Ha Hr Hs H IH]; intros k Hk.
  - rewrite take_nil, drop_nil. auto with ains.
  - destruct k as [|k]; [simpl; auto with ains|]. simpl.
    destruct (IH k) as [? ?]; [|auto with ains].
    intros (i & p & c & -> & Hi & Hc & Hx). apply Hk. by exists (S i), p, c.
  - destruct k as [|[|k]]; [simpl; auto with ains| |].
    + exfalso. apply Hk. exists 0, a, r. by rewrite asks_crosses.
    + simpl. destruct (IH k) as [? ?]; [|auto with ains].
      intros (i & p & c & -> & Hi & Hc & Hx). apply Hk. by exists (S (S i)), p, c.
Qed.

Lemma split_preserving_spec l p older newer :
  well_paired l -> split_preserving_tool_pairs l p = (older, newer) ->
  l = older ++ newer /\ well_paired older /\ well_paired newer /\
  (length older <= length l - p).
Proof.
  intros Hw. unfold split_preserving_tool_pairs. destruct (_ <=? _).
  - intros [= <- <-]. rewrite sanitize_id by done. repeat split; auto with ains. simpl. lia.
  - intros [= <- <-].
    destruct (well_paired_split l (split_point l (length l - p))) as [? Hd];
      [done | apply split_point_no_cut |].
    rewrite sanitize_id by done. rewrite take_drop. repeat split; auto.
    rewrite length_take. pose proof (split_point_le l (length l - p)). lia.
Qed.
End Similar.

(** ** The four stages *)

Section Stages.
Context {J : Json} {F : Float32} {U : Unicode}.
Implicit Types (m : ConversationMessage) (l older newer body : list ConversationMessage).

(** The [n] newest messages. *)
Definition tail n l := drop (length l - n) l.

Lemma drop_tail n l k : k <= length l - n -> exists pre, drop k l = pre ++ tail n l.
Proof.
  intros Hk. exists (drop k (take (length l - n) l)). unfold tail.
  rewrite <- (take_drop (length l - n) l) at 1.
  rewrite drop_app_le; [done|]. rewrite length_take. lia.
Qed.

Lemma said_tail_suffix n older newer :
  length older <= length (older ++ newer) - n ->
  exists pre, said newer = pre ++ said (tail n (older ++ newer)).
Proof.
  intros H. destruct (drop_tail n (older ++ newer) (length older) H) as [pre E].
  rewrite drop_app_length in E. exists (said pre). rewrite <- said_app. by f_equal.
Qed.

Lemma microcompact_said_tail l k n :
  said (tail n (fst (microcompact_messages l k))) = said (tail n l).
Proof.
  destruct (microcompact_map l k) as (f & -> & _ & Hf). unfold tail.
  by rewrite length_fmap, <- fmap_drop, said_map.
Qed.

Lemma context_collapse_spec l p l' :
  well_paired l -> try_context_collapse l p = Some l' ->
  well_paired l' /\ length l' = length l /\ tail p l' = tail p l /\
  (estimate_message_tokens l' < estimate_message_tokens l)%N.
Proof.
  intros Hw. unfold try_context_collapse. destruct (_ <=? _); [done|].
  destruct (split_preserving_tool_pairs l p) as [older newer] eqn:E.
  apply split_preserving_spec in E as (-> & Ho & Hn & Hlen); [|done].
  destruct (negb _); [done|]. destruct (N.leb _ _) eqn:El; [done|]. intros [= <-].
  apply N.leb_gt in El. split.
  { apply well_paired_app; [|done]. apply (similar_well_paired older); [|done].
    apply map_similar, collapse_message_similar. }
  split; [by rewrite !length_app, length_fmap|]. split; [|done].
  unfold tail. rewrite !length_app, length_fmap.
  rewrite length_app in Hlen.
  rewrite !drop_app_ge by (rewrite ?length_fmap; lia). by rewrite length_fmap.
Qed.

Lemma well_paired_user_text t l : well_paired l -> well_paired (from_user_text t :: l).
Proof. by constructor. Qed.

Lemma memory_message_shape l m :
  build_session_memory_message l = Some m -> exists t, m = from_user_text t.
Proof. unfold build_session_memory_message. case_match; [done|]. intros [= <-]. eauto. Qed.

Lemma session_memory_spec l p l' :
  well_paired l -> try_session_memory_compaction l p = Some l' ->
  exists t older newer, l = older ++ newer /\ l' = from_user_text t :: newer /\
    well_paired l' /\ length older <= length l - p /\
    ((estimate_message_tokens l' < estimate_message_tokens l)%N \/ length l' < length l).
Proof.
  intros Hw. unfold try_session_memory_compaction. destruct (_ <=? _); [done|].
  destruct (split_preserving_tool_pairs l p) as [older newer] eqn:E.
  apply split_preserving_spec in E as (-> & Ho & Hn & Hlen); [|done].
  destruct (build_session_memory_message older) as [m|] eqn:Em; [|done]. cbn [mbind option_bind].
  apply memory_message_shape in Em as [t ->].
  destruct (_ && _) eqn:Ec; [done|]. intros [= <-].
  rewrite sanitize_id by (by apply well_paired_user_text).
  exists t, older, newer. split; [done|]. split; [done|].
  split; [by apply well_paired_user_text|]. split; [done|].
  apply andb_false_iff in Ec as [Ec|Ec]; [left; by apply N.leb_gt in Ec|].
  right. by apply Nat.leb_gt in Ec.
Qed.

(** *** Dropping rounds *)

Lemma group_rounds_concat l current : concat (group_rounds l current) = current ++ l.
Proof.
  revert current; induction l as [|m l IH]; intros current; simpl.
  - by destruct current; simpl; rewrite ?app_nil_r.
  - destruct (_ && _); simpl; rewrite IH; [done|]. by rewrite <- app_assoc.
Qed.

Definition opens_with_prompt (g : list ConversationMessage) : Prop :=
  exists m g', g = m :: g' /\ starts_round m = true.

(** Every round but the first opens with a prompt. *)
Lemma group_rounds_open l current :
  current <> [] ->
  exists g gs, group_rounds l current = g :: gs /\ g <> [] /\ Forall opens_with_prompt gs.
Proof.
  revert current; induction l as [|m l IH]; intros current Hc; simpl.
  - destruct current as [|x current]; [done|]. simpl. by exists (x :: current), [].
  - destruct (is_empty current) eqn:Ee; bool_to_prop; [done|]. simpl. rewrite andb_true_r.
    destruct (starts_round m) eqn:Em.
    + eexists _, _. split; [done|]. split; [done|].
      assert (forall k c, opens_with_prompt c -> Forall opens_with_prompt (group_rounds k c)) as Hg.
      { clear. induction k as [|x k IHk]; intros c Ho; simpl.
        - case_match; repeat constructor; done.
        - destruct (starts_round x && _) eqn:Ex.
          + constructor; [done|]. apply IHk. bool_to_prop. by exists x, [].
          + apply IHk. destruct Ho as (y & c' & -> & Hy). by exists y, (c' ++ [x]). }
      apply Hg. by exists m, [].
    + apply IH. by destruct current.
Qed.

Lemma group_by_prompt_round_open l :
  l <> [] ->
  exists g gs, group_by_prompt_round l = g :: gs /\ g <> [] /\ Forall opens_with_prompt gs.
Proof.
  destruct l as [|m l]; [done|]. intros _. unfold group_by_prompt_round. simpl.
  rewrite andb_false_r. by apply group_rounds_open.
Qed.

(** What is left after dropping rounds: a strict suffix that opens with a
    prompt, so the marker is never put in front. *)
Lemma truncate_head_spec body r :
  truncate_head_for_ptl_retry body = Some r ->
  exists dropped, dropped <> [] /\ body = dropped ++ r /\ opens_with_prompt r.
Proof.
  unfold truncate_head_for_ptl_retry. destruct (decide (body = [])) as [->|Hb]; [done|].
  destruct (group_by_prompt_round_open body Hb) as (g & gs & Eg & Hg & Ho).
  pose proof (group_rounds_concat body []) as Hcat. fold (group_by_prompt_round body) in Hcat.
  rewrite Eg in Hcat |- *. set (k := Nat.min _ _).
  destruct (length (g :: gs) <? 2) eqn:El; [done|]. apply Nat.ltb_ge in El.
  assert (exists k', k = S k' /\ k' < length gs) as (k' & Hk & Hlt).
  { exists (pred k). assert (0 < Nat.max (length (g :: gs) / 5) 1) by lia.
    cbn [length] in *. subst k. lia. }
  rewrite Hk. cbn [drop].
  assert (exists h hs, drop k' gs = h :: hs /\ opens_with_prompt h) as (h & hs & Eh & Hh).
  { destruct (drop k' gs) as [|h hs] eqn:E.
    - apply (f_equal length) in E. rewrite length_drop in E. simpl in E. lia.
    - exists h, hs. split; [done|]. eapply Forall_forall; [exact Ho|].
      apply list_elem_of_In. rewrite <- (take_drop k' gs). rewrite E.
      apply list_elem_of_In. set_solver. }
  rewrite Eh. destruct Hh as (m & h' & -> & Hm). cbn [concat app].
  assert (role m = User) as Hr by (unfold starts_round in Hm; by bool_to_prop).
  rewrite Hr. simpl. intros [= <-].
  exists (concat (take k (g :: gs))). split; [|split].
  - rewrite Hk. simpl. by destruct g.
  - simpl in Hcat. rewrite <- Hcat. change (g ++ concat gs) with (concat (g :: gs)).
    transitivity (concat (take k (g :: gs)) ++ concat (drop k (g :: gs))).
    { by rewrite <- concat_app, take_drop. }
    f_equal. rewrite Hk. cbn [drop]. by rewrite Eh.
  - by exists m, (h' ++ concat hs).
Qed.

Lemma starts_round_no_results m : starts_round m = true -> role m = User /\ result_id_list m = [].
Proof.
  unfold starts_round. intros H. bool_to_prop. split; [done|].
  match goal with H : existsb _ _ = false |- _ => revert H end.
  unfold result_id_list. clear. induction (content m) as [|b bs IH]; csimpl; [done|].
  destruct b; simpl; try done; auto.
Qed.

(** A suffix that opens with a prompt is well paired on its own. *)
Lemma well_paired_suffix dropped r :
  well_paired (dropped ++ r) -> opens_with_prompt r -> well_paired r.
Proof.
  intros Hw (m & r' & -> & Hm). apply starts_round_no_results in Hm as [Hr Hi].
  assert (~ cuts_pair (dropped ++ m :: r') (length dropped)) as Hc.
  { intros (i & p & c & Hk & Hp & Hc & Hx).
    rewrite lookup_app_r, Nat.sub_diag in Hc by lia. injection Hc as <-.
    unfold boundary_crosses_tool_pair in Hx. rewrite Hi in Hx.
    destruct (_ || _); [done|]. by destruct (bool_decide (_ = ∅)). }
  apply well_paired_split in Hc as [_ H]; [|done]. by rewrite drop_app_length in H.
Qed.

Lemma truncate_head_well_paired body r :
  well_paired body -> truncate_head_for_ptl_retry body = Some r -> well_paired r.
Proof.
  intros Hw Ht. apply truncate_head_spec in Ht as (d & _ & -> & Ho).
  by eapply well_paired_suffix.
Qed.
End Stages.

(** ** The model stage and the whole chain *)

Section Chain.
Context {J : Json} {F : Float32} {U : Unicode}.
Context (client : ModelClient).
Implicit Types (m : ConversationMessage) (l older newer body : list ConversationMessage).
Implicit Types (log : list ModelRequest).

(** A request whose conversation pairs every tool request with its results. *)
Definition request_ok (r : ModelRequest) : Prop := well_paired (messages r).

(** What one part of the chain did to the log: at most [n] requests were
    added, all of them acceptable. *)
Definition log_grows (n : nat) log log' : Prop :=
  exists new, log' = log ++ new /\ length new <= n /\ Forall request_ok new.

Lemma log_grows_refl n log : log_grows n log log.
Proof. exists []. rewrite app_nil_r. repeat split; [simpl; lia | constructor]. Qed.

Lemma log_grows_weaken n n' log log' : log_grows n log log' -> n <= n' -> log_grows n' log log'.
Proof. intros (new & -> & ? & ?) ?. exists new. repeat split; [lia | done]. Qed.

Lemma log_grows_cons n log r log' :
  request_ok r -> log_grows n (log ++ [r]) log' -> log_grows (S n) log log'.
Proof.
  intros Hr (new & -> & Hn & Hok). exists (r :: new).
  rewrite <- app_assoc. split; [done|]. split; [simpl; lia | by constructor].
Qed.

Lemma summary_request_ok name body :
  well_paired body -> request_ok (summary_request name (body ++ [from_user_text COMPACT_PROMPT])).
Proof.
  intros Hw. unfold request_ok. cbn [messages summary_request].
  by apply replace_images_well_paired, well_paired_snoc.
Qed.

Lemma summary_loop_log name ptl stream log notes0 body :
  well_paired body ->
  log_grows (S (ptl + stream)) log (requests (summary_loop client name ptl stream log notes0 body)).
Proof.
  revert stream log notes0 body. induction ptl as [|ptl IHp];
    intros stream; induction stream as [|stream IHs]; intros log notes0 body Hw;
    (eapply log_grows_cons; [by apply summary_request_ok|]);
    cbn [summary_loop]; (destruct (collect_summary _ _ _ _) as [t|f]; [apply log_grows_refl|]);
    destruct (is_prompt_too_long _).
  1, 3: apply log_grows_refl.
  1: destruct (terminal f); apply log_grows_refl.
  1: destruct (terminal f); [apply log_grows_refl | by apply IHs].
  1, 3: destruct (truncate_head_for_ptl_retry body) as [r|] eqn:Et; [|apply log_grows_refl];
        eapply log_grows_weaken; [by eapply IHp, truncate_head_well_paired | lia].
  - destruct (terminal f); apply log_grows_refl.
  - destruct (terminal f); [apply log_grows_refl|].
    eapply log_grows_weaken; [by apply IHs | lia].
Qed.

Definition MAX_SUMMARY_CALLS : nat := S (MAX_PTL_RETRIES + MAX_COMPACT_STREAMING_RETRIES).

(** What a compaction that went through returned. *)
Lemma compact_conversation_spec l log name p trigger notes0 :
  well_paired l ->
  let run := compact_conversation l client log name p trigger notes0 in
  log_grows MAX_SUMMARY_CALLS log (compact_requests run) /\
  forall l', compact_outcome run = Ok l' ->
    well_paired l' /\ exists pre, said l' = pre ++ said (tail p l).
Proof.
  intros Hw run. subst run. unfold compact_conversation. destruct (_ <=? _) eqn:El.
  { cbn [compact_outcome compact_requests]. split; [apply log_grows_refl|].
    intros l' [= <-]. split; [done|]. exists [].
    apply Nat.leb_le in El. unfold tail. by replace (length l - p) with 0 by lia. }
  pose proof (microcompact_well_paired l DEFAULT_KEEP_RECENT Hw) as Hm.
  pose proof (microcompact_said_tail l DEFAULT_KEEP_RECENT p) as Ht.
  set (working := fst (microcompact_messages l DEFAULT_KEEP_RECENT)) in *.
  destruct (split_preserving_tool_pairs working p) as [older newer] eqn:E.
  apply split_preserving_spec in E as (Hsplit & Ho & Hn & Hlen); [|done].
  rewrite Hsplit in Hlen, Ht.
  destruct (said_tail_suffix p older newer Hlen) as [pre Hpre].
  destruct (is_empty older) eqn:Ee; bool_to_prop; cbn [compact_outcome compact_requests].
  - split; [apply log_grows_refl|]. intros l' [= <-]. split; [done|].
    exists pre. rewrite Hsplit, Ee. simpl. by rewrite Hpre, Ht.
  - split; [by apply summary_loop_log|]. intros l'. destruct (outcome _) as [t|]; [|done].
    intros [= <-]. rewrite sanitize_id by (by apply well_paired_user_text).
    split; [by apply well_paired_user_text|].
    exists (user_blocks (build_compact_summary_message t true) ++ pre).
    rewrite said_cons, Hpre, Ht. by rewrite app_assoc.
Qed.

(** What any run of the chain guarantees, for messages that come out. *)
Record run_ok l log state p (run : auto_run) : Prop := {
  run_paired : well_paired (run_messages run);
  run_recent : exists pre, said (run_messages run) = pre ++ said (tail p l);
  run_log : log_grows MAX_SUMMARY_CALLS log (run_requests run);
  run_done : was_compacted run = true -> run_state run = compact_succeeded state;
  run_not_done : was_compacted run = false ->
    run_state run = state \/ run_state run = compact_failed state
}.

Lemma model_stage_ok l log name state trigger p notes0 :
  well_paired l -> run_ok l log state p (model_stage l client log name state trigger p notes0).
Proof.
  intros Hw. unfold model_stage.
  destruct (compact_conversation_spec l log name p trigger (notes0 ++ [lit "compact_start"]) Hw)
    as [Hlog Hout].
  destruct (compact_outcome _) as [l'|e].
  - destruct (Hout l' eq_refl) as [Hw' Hs]. case_bool_decide; constructor; auto; done.
  - constructor; auto; try done. by exists (said (take (length l - p) l));
      rewrite <- said_app; unfold tail; rewrite take_drop.
Qed.

Lemma later_stages_ok l log name state trigger p notes0 :
  well_paired l -> run_ok l log state p (later_stages l client log name state trigger p notes0).
Proof.
  intros Hw. unfold later_stages.
  destruct (try_session_memory_compaction l _) as [l'|] eqn:E; [|by apply model_stage_ok].
  apply session_memory_spec in E as (t & older & newer & -> & -> & Hw' & Hlen & _); [|done].
  destruct (said_tail_suffix p older newer) as [pre Hpre]; [lia|].
  constructor; try done; [|apply log_grows_refl].
  exists (user_blocks (from_user_text t) ++ pre).
  cbn [run_messages]. by rewrite said_cons, Hpre, app_assoc.
Qed.

Lemma run_ok_tail l1 l2 log state p run :
  said (tail p l1) = said (tail p l2) -> run_ok l1 log state p run -> run_ok l2 log state p run.
Proof. intros H [? Hr ? ? ?]. constructor; auto. by rewrite <- H. Qed.

Lemma run_stop_ok l l' log state p done st progress :
  well_paired l' -> said (tail p l') = said (tail p l) ->
  st = (if done : bool then compact_succeeded state else state) ->
  run_ok l log state p
    {| run_messages := l'; was_compacted := done; run_state := st; run_requests := log;
       run_notes := progress |}.
Proof.
  intros Hw Ht ->. apply (run_ok_tail l'); [done|].
  constructor; try (by destruct done; auto); [|apply log_grows_refl]. cbn [run_messages].
  exists (said (take (length l' - p) l')). rewrite <- said_app. unfold tail. by rewrite take_drop.
Qed.

Lemma auto_compact_ok l log name state trigger p force :
  well_paired l ->
  run_ok l log state p (auto_compact_if_needed l client log name state trigger p force).
Proof.
  intros Hw. unfold auto_compact_if_needed.
  destruct (negb force && _); [by apply run_stop_ok|].
  pose proof (microcompact_well_paired l DEFAULT_KEEP_RECENT Hw) as Hm.
  pose proof (microcompact_said_tail l DEFAULT_KEEP_RECENT p) as Ht.
  destruct (microcompact_messages l DEFAULT_KEEP_RECENT) as [l1 freed]. cbn [fst] in Hm, Ht.
  destruct (_ && _ && _); [by apply run_stop_ok|].
  destruct (try_context_collapse l1 p) as [l2|] eqn:Ec.
  - apply context_collapse_spec in Ec as (Hw2 & _ & Ht2 & _); [|done]. rewrite <- Ht2 in Ht.
    destruct (_ && _); [by apply run_stop_ok|].
    by eapply run_ok_tail, later_stages_ok.
  - by eapply run_ok_tail, later_stages_ok.
Qed.
End Chain.


(** ** The text loops *)

Section Texts.

Lemma replace_go_length p by_ k s :
  length by_ <= length p -> p <> [] ->
  length (replace_go p by_ k s) + Nat.min k (length s) <= length s.
Proof.
  intros Hb Hp. revert k. induction s as [|c s IH]; intros k; cbn [replace_go length]; [lia|].
  destruct k as [|k].
  - destruct (starts_with p (c :: s)) eqn:E.
    + rewrite length_app. specialize (IH (pred (length p))).
      apply starts_with_spec in E as [t E]. apply (f_equal length) in E.
      rewrite length_app in E. destruct p; [done|]. cbn [length pred] in *. lia.
    + specialize (IH 0). cbn [length]. lia.
  - specialize (IH k). lia.
Qed.

(** Replacing by something shorter shortens a text that has an occurrence. *)
Lemma replace_shortens p by_ s :
  length by_ < length p -> contains p s = true -> length (replace p by_ s) < length s.
Proof.
  intros Hb. assert (p <> []) as Hp by (destruct p; [simpl in Hb; lia | done]).
  unfold replace, contains.
  induction s as [|c s IH]; cbn [find replace_go]; [destruct p; done|].
  destruct (starts_with p (c :: s)) eqn:E.
  - intros _. pose proof (replace_go_length p by_ (pred (length p)) s ltac:(lia) Hp) as H.
    apply starts_with_spec in E as [t E]. apply (f_equal length) in E.
    rewrite length_app in E |- *. cbn [length] in *. destruct p; [done|]. cbn [length pred] in *. lia.
  - destruct (find p s); [|done]. intros H. cbn [length]. specialize (IH H). lia.
Qed.

Lemma fold_blank_lines_done fuel s :
  length s < fuel -> contains three_newlines (fold_blank_lines fuel s) = false.
Proof.
  revert s; induction fuel as [|fuel IH]; intros s Hf; [lia|]. cbn [fold_blank_lines].
  destruct (contains three_newlines s) eqn:E; [|done]. apply IH.
  apply (replace_shortens _ two_newlines) in E; [lia | cbn; lia].
Qed.

(** The condition of the [while let] loop no longer holds. *)
Definition strip_stopped (open close out : str) : Prop :=
  match find open out, find close out with
  | Some start, Some stop => stop < start
  | _, _ => True
  end.

Lemma strip_tag_loop_done fuel open close s :
  close <> [] -> length s < fuel -> strip_stopped open close (strip_tag_loop fuel open close s).
Proof.
  intros Hc. revert s; induction fuel as [|fuel IH]; intros s Hf; [lia|]. cbn [strip_tag_loop].
  unfold strip_stopped.
  destruct (find open s) as [a|] eqn:Ea; [destruct (find close s) as [b|] eqn:Eb|].
  - destruct (b <? a) eqn:E; [rewrite Ea, Eb; by apply Nat.ltb_lt|]. apply IH.
    apply Nat.ltb_ge in E. apply find_Some in Eb as (Hb & Hs & _).
    apply starts_with_spec in Hs as [t Ht]. apply (f_equal length) in Ht.
    rewrite length_drop, length_app in Ht. rewrite length_app, length_take, length_drop.
    destruct close; [done|]. cbn [length] in *. lia.
  - by rewrite Ea, Eb.
  - by rewrite Ea.
Qed.

Lemma trim_infix s : exists a b, s = a ++ trim s ++ b.
Proof.
  unfold trim, trim_end, trim_start.
  destruct (drop_while_suffix is_whitespace s) as (a & Ha & _). set (s1 := drop_while _ s) in *.
  destruct (drop_while_suffix is_whitespace (reverse s1)) as (b & Hb & _).
  set (s2 := drop_while _ (reverse s1)) in *. exists a, (reverse b).
  rewrite <- reverse_app, <- Hb, reverse_involutive. done.
Qed.

Lemma contains_infix p a s b : contains p s = true -> contains p (a ++ s ++ b) = true.
Proof.
  rewrite !contains_spec. intros (x & y & ->). exists (a ++ x), (y ++ b). by rewrite <- !app_assoc.
Qed.

Lemma trim_keeps_out p s : contains p s = false -> contains p (trim s) = false.
Proof.
  intros H. destruct (contains p (trim s)) eqn:E; [|done]. destruct (trim_infix s) as (a & b & Es).
  apply (contains_infix _ a _ b) in E. rewrite <- Es in E. congruence.
Qed.
End Texts.

(** ** What microcompact changes *)

Section Cleared.
Context {J : Json}.

Definition cleared (ids : list str) (b b' : ContentBlock) : Prop :=
  b' = b \/ exists i c e v, b = ToolResult i c e v /\ i ∈ ids /\
    b' = ToolResult i CLEARED_TOOL_RESULT e v.

Lemma clear_block_cleared ids b : cleared ids b (fst (clear_block (list_to_set ids) b)).
Proof.
  unfold clear_block, cleared. destruct b as [| | |i c e v]; try by left.
  destruct (_ && _) eqn:E; [|by left]. right. exists i, c, e, v. bool_to_prop.
  split; [done|]. split; [|done].
  match goal with H : i ∈ _ |- _ => by apply elem_of_list_to_set in H end.
Qed.

Lemma Forall2_map {A} (R : A -> A -> Prop) (f : A -> A) (l : list A) :
  (forall x, R x (f x)) -> Forall2 R l (f <$> l).
Proof. intros H. induction l; constructor; auto. Qed.

Lemma clear_message_cleared ids m :
  let m' := fst (clear_message (list_to_set ids) m) in
  role m' = role m /\ Forall2 (cleared ids) (content m) (content m').
Proof.
  cbv zeta. unfold clear_message. destruct (negb _); cbn [fst role content]; split; try done.
  - apply Forall_Forall2_diag, Forall_forall. intros; by left.
  - rewrite <- list_fmap_compose. apply Forall2_map. intros b. apply clear_block_cleared.
Qed.

Lemma microcompact_changes l k :
  let ids := collect_compactable_tool_ids l in
  Forall2 (fun m m' => role m' = role m /\
    Forall2 (cleared (take (length ids - Nat.max k 1) ids)) (content m) (content m'))
    l (fst (microcompact_messages l k)).
Proof.
  cbv zeta. unfold microcompact_messages. destruct (_ <=? _); cbn [fst].
  - apply Forall_Forall2_diag, Forall_forall. intros m _. split; [done|].
    apply Forall_Forall2_diag, Forall_forall. intros; by left.
  - rewrite <- list_fmap_compose. apply Forall2_map. intros m. apply clear_message_cleared.
Qed.

Lemma clear_block_again cs b : clear_block cs (fst (clear_block cs b)) = (fst (clear_block cs b), 0%N).
Proof.
  destruct b as [| | |i c e v]; try done. unfold clear_block.
  destruct (bool_decide (i ∈ cs)) eqn:Ei; cbn [andb fst]; [|by rewrite Ei].
  destruct (negb (str_eqb c CLEARED_TOOL_RESULT)) eqn:Ec; cbn [fst]; rewrite Ei; cbn [andb].
  - by rewrite str_eqb_refl.
  - by rewrite Ec.
Qed.

Lemma again_sum {A} (g : A -> A * N) (l : list A) :
  (forall x, g (fst (g x)) = (fst (g x), 0%N)) ->
  let gs := g <$> (fst <$> (g <$> l)) in
  (fst <$> gs) = (fst <$> (g <$> l)) /\ foldr (fun p acc => (snd p + acc)%N) 0%N gs = 0%N.
Proof.
  intros H. cbv zeta. induction l as [|x l [IH1 IH2]]; [done|].
  rewrite !fmap_cons. cbn [foldr]. rewrite H. cbn [fst snd]. by rewrite IH1, IH2.
Qed.

Lemma clear_message_again cs m :
  clear_message cs (fst (clear_message cs m)) = (fst (clear_message cs m), 0%N).
Proof.
  unfold clear_message. destruct (negb (bool_decide (role m = User))) eqn:E; cbn [fst]; [by rewrite E|].
  cbn [role content]. rewrite E.
  destruct (again_sum (clear_block cs) (content m) (clear_block_again cs)) as [H1 H2].
  by rewrite H1, H2.
Qed.

Lemma collect_similar (f : ConversationMessage -> ConversationMessage) l :
  (forall m, similar m (f m)) -> collect_compactable_tool_ids (f <$> l) = collect_compactable_tool_ids l.
Proof.
  intros H. unfold collect_compactable_tool_ids.
  assert ((f <$> l) ≫= tool_uses = l ≫= tool_uses) as ->; [|done].
  induction l as [|m l IH]; [done|]. rewrite fmap_cons, !bind_cons, IH. f_equal. apply H.
Qed.

Lemma microcompact_fixed l k :
  let l' := fst (microcompact_messages l k) in
  collect_compactable_tool_ids l' = collect_compactable_tool_ids l /\
  microcompact_messages l' k = (l', 0%N).
Proof.
  cbv zeta. assert (collect_compactable_tool_ids (fst (microcompact_messages l k))
    = collect_compactable_tool_ids l) as Hc.
  { destruct (microcompact_map l k) as (f & -> & Hf & _). by apply collect_similar. }
  split; [done|]. unfold microcompact_messages at 1. rewrite Hc.
  unfold microcompact_messages. destruct (_ <=? _); [done|]. cbn [fst].
  destruct (again_sum (clear_message (list_to_set (take (length (collect_compactable_tool_ids l)
    - Nat.max k 1) (collect_compactable_tool_ids l)))) l) as [H1 H2].
  { intros m. apply clear_message_again. }
  by rewrite H1, H2.
Qed.
End Cleared.

(** ** The circuit breaker *)

Section Breaker.
Context {J : Json} {F : Float32} {U : Unicode}.
Context (client : ModelClient).

Lemma model_stage_state l log name state trigger p notes0 :
  let st := run_state (model_stage l client log name state trigger p notes0) in
  st = state \/ st = compact_succeeded state \/ st = compact_failed state.
Proof.
  cbv zeta. unfold model_stage. destruct (compact_outcome _); [case_bool_decide|]; auto.
Qed.

Lemma later_stages_state l log name state trigger p notes0 :
  let st := run_state (later_stages l client log name state trigger p notes0) in
  st = state \/ st = compact_succeeded state \/ st = compact_failed state.
Proof.
  cbv zeta. unfold later_stages. destruct (try_session_memory_compaction _ _); [by auto|].
  apply model_stage_state.
Qed.

Lemma auto_compact_state l log name state trigger p force :
  let st := run_state (auto_compact_if_needed l client log name state trigger p force) in
  st = state \/ st = compact_succeeded state \/ st = compact_failed state.
Proof.
  cbv zeta. unfold auto_compact_if_needed. destruct (negb force && _); [by auto|].
  destruct (microcompact_messages _ _) as [l1 freed]. destruct (_ && _ && _); [by auto|].
  destruct (try_context_collapse _ _); [destruct (_ && _); [by auto|]|];
    apply later_stages_state.
Qed.

Lemma auto_compact_open l log name state trigger p :
  MAX_CONSECUTIVE_AUTOCOMPACT_FAILURES <= consecutive_failures state ->
  auto_compact_if_needed l client log name state trigger p false =
  {| run_messages := l; was_compacted := false; run_state := state; run_requests := log;
     run_notes := [] |}.
Proof.
  intros H. unfold auto_compact_if_needed, should_autocompact.
  replace (_ <=? consecutive_failures state) with true by (symmetry; by apply Nat.leb_le). done.
Qed.

(** Automatic runs one after the other, on whatever histories the kernel
    hands over between them. *)
Definition automatic_runs name trigger p (histories : list (list ConversationMessage))
    (start : AutoCompactState * list ModelRequest) : AutoCompactState * list ModelRequest :=
  fold_left (fun s l =>
    let run := auto_compact_if_needed l client (snd s) name (fst s) trigger p false in
    (run_state run, run_requests run)) histories start.
End Breaker.

(** ** Properties *)

(** C15: whatever the model answers, and whichever stages run, a compaction
    of a well-paired history keeps its promises: the history it returns is
    well paired; it ends with everything the user said in the
    [preserve_recent] newest messages; at most six requests go to the model,
    each of them well paired; the state records a success exactly when the
    run reports one, and otherwise is unchanged or counts one more failure. *)
Theorem compaction_chain_sound {J : Json} {F : Float32} {U : Unicode}
    (client : ModelClient) l log name state trigger preserve_recent force :
  well_paired l ->
  let run := auto_compact_if_needed l client log name state trigger preserve_recent force in
  well_paired (run_messages run) /\
  (exists pre, said (run_messages run) = pre ++ said (tail preserve_recent l)) /\
  (exists new, run_requests run = log ++ new /\ length new <= 6 /\
     Forall (fun r => well_paired (messages r)) new) /\
  (was_compacted run = true -> run_state run = compact_succeeded state) /\
  (was_compacted run = false ->
     run_state run = state \/ run_state run = compact_failed state).
Proof.
  intros Hw run.
  destruct (auto_compact_ok client l log name state trigger preserve_recent force Hw). done.
Qed.

Section Witness.
Definition demo_call : @ConversationMessage small_json :=
  {| role := Assistant; content := [@ToolUseBlock small_json (lit "t1") (lit "bash") SNull] |}.
Definition demo_result : @ConversationMessage small_json :=
  {| role := User; content := [@ToolResult small_json (lit "t1") (lit "done") false SNull] |}.
Definition demo_history : list (@ConversationMessage small_json) :=
  [from_user_text (lit "hello"); demo_call; demo_result; from_user_text (lit "next")].

Lemma demo_history_paired : @well_paired small_json demo_history.
Proof.
  unfold demo_history. constructor; [done|]. constructor; [done | done | |by repeat constructor].
  apply (bool_decide_unpack _). vm_compute. exact I.
Qed.

(** A model whose every stream closes without an answer. *)
Definition silent_model : @ModelClient small_json whole_seconds := fun _ _ => Ok [].
End Witness.

Lemma compaction_chain_sound_witness :
  well_paired (run_messages (@auto_compact_if_needed small_json whole_seconds ascii_tables
    demo_history silent_model [] None compact_state_default Manual 1 true)).
Proof.
  apply (@compaction_chain_sound small_json whole_seconds ascii_tables
           silent_model demo_history [] None compact_state_default Manual 1 true).
  exact demo_history_paired.
Defined.

(** The split before a compaction loses nothing and never separates a
    tool request from its results: the two parts put together are the history,
    each is well paired on its own, and at least the [preserve_recent] newest
    messages stay in the newer part. *)
Theorem split_never_cuts_pair {J : Json} l preserve_recent :
  well_paired l ->
  let older := fst (split_preserving_tool_pairs l preserve_recent) in
  let newer := snd (split_preserving_tool_pairs l preserve_recent) in
  l = older ++ newer /\ well_paired older /\ well_paired newer /\
  Nat.min preserve_recent (length l) <= length newer.
Proof.
  intros Hw. destruct (split_preserving_tool_pairs l preserve_recent) as [older newer] eqn:E.
  apply split_preserving_spec in E as (E & Ho & Hn & Hlen); [|done]. cbn [fst snd].
  split; [done|]. split; [done|]. split; [done|].
  apply (f_equal length) in E. rewrite length_app in E. lia.
Qed.

Lemma split_never_cuts_pair_witness :
  demo_history = fst (split_preserving_tool_pairs demo_history 2)
                 ++ snd (split_preserving_tool_pairs demo_history 2).
Proof. apply (split_never_cuts_pair demo_history 2). exact demo_history_paired. Defined.

(** A text collapse is only accepted when it pays off: it strictly
    lowers the estimated size, keeps every message and its pairing, and leaves
    the [preserve_recent] newest messages exactly as they were. *)
Theorem context_collapse_pays_off {J : Json} l preserve_recent l' :
  well_paired l -> try_context_collapse l preserve_recent = Some l' ->
  (estimate_message_tokens l' < estimate_message_tokens l)%N /\
  well_paired l' /\ length l' = length l /\ tail preserve_recent l' = tail preserve_recent l.
Proof. intros Hw H. by apply context_collapse_spec in H as (? & ? & ? & ?). Qed.

(** A history with one oversized old text. *)
Definition bulky_history : list (@ConversationMessage small_json) :=
  from_user_text (replicate 3000 120%N) :: demo_history.

Lemma context_collapse_pays_off_witness :
  exists l', try_context_collapse bulky_history 1 = Some l' /\ length l' = 5.
Proof.
  destruct (try_context_collapse bulky_history 1) as [l'|] eqn:E.
  - exists l'. split; [done|]. change 5 with (length bulky_history).
    apply (context_collapse_pays_off bulky_history 1 l'); [|exact E].
    constructor; [done | exact demo_history_paired].
  - exfalso. revert E. apply (bool_decide_unpack (_ <> None)). vm_compute. exact I.
Defined.

(** Microcompact is exact: only the contents of tool results change,
    and only to the placeholder; the results that change answer requests
    outside the newest [max keep_recent 1] compactable ones; and doing it
    again changes nothing. *)
Theorem microcompact_exact {J : Json} l keep_recent :
  let ids := collect_compactable_tool_ids l in
  let old_ids := take (length ids - Nat.max keep_recent 1) ids in
  let l' := fst (microcompact_messages l keep_recent) in
  Forall2 (fun m m' => role m' = role m /\
    Forall2 (fun b b' => b' = b \/ exists i c e v, b = ToolResult i c e v /\ i ∈ old_ids /\
      b' = ToolResult i CLEARED_TOOL_RESULT e v) (content m) (content m')) l l' /\
  collect_compactable_tool_ids l' = ids /\
  microcompact_messages l' keep_recent = (l', 0%N).
Proof.
  cbv zeta. destruct (microcompact_fixed l keep_recent) as [Hids Hfix].
  split; [|done]. apply microcompact_changes.
Qed.

(** The text of a model summary is normalised and every loop that does
    it stops by its own condition: no complete analysis block that the loop
    would still strip remains, and the result never has three line breaks in
    a row. *)
Theorem summary_text_normalised raw :
  strip_stopped (open_tag (lit "analysis")) (close_tag (lit "analysis"))
    (strip_tag_block raw (lit "analysis")) /\
  contains three_newlines (format_compact_summary raw) = false.
Proof.
  split.
  - apply strip_tag_loop_done; [done | lia].
  - unfold format_compact_summary. apply trim_keeps_out, fold_blank_lines_done. lia.
Qed.

(** Dropping the oldest rounds for a retry makes real progress and
    leaves a valid request: what remains is a strict suffix of the history
    that starts with a user prompt, so pairing is kept, and the retry marker
    (which the code puts in front of a leading assistant message) is never
    used. *)
Theorem truncate_head_drops_rounds {J : Json} body r :
  truncate_head_for_ptl_retry body = Some r ->
  (exists dropped, dropped <> [] /\ body = dropped ++ r) /\
  (exists m r', r = m :: r' /\ role m = User /\ result_id_list m = []) /\
  (well_paired body -> well_paired r).
Proof.
  intros H. pose proof (truncate_head_spec _ _ H) as (d & Hd & E & m & r' & -> & Hm).
  apply starts_round_no_results in Hm. split; [eauto|]. split; [eauto|].
  intros Hw. by eapply truncate_head_well_paired.
Qed.

Lemma truncate_head_drops_rounds_witness :
  exists r, truncate_head_for_ptl_retry demo_history = Some r /\ (well_paired demo_history -> well_paired r).
Proof.
  exists [@from_user_text small_json (lit "next")].
  assert (truncate_head_for_ptl_retry demo_history = Some [@from_user_text small_json (lit "next")])
    as H by (vm_compute; reflexivity).
  split; [exact H|]. apply (truncate_head_drops_rounds demo_history _ H).
Defined.

(** The circuit breaker holds over any sequence of automatic runs: the
    failure count never passes three, and once it is there every later run
    hands its history back untouched and sends nothing to the model. *)
Theorem breaker_limits_failures {J : Json} {F : Float32} {U : Unicode} (client : ModelClient)
    name trigger p histories log :
  let '(state, log') :=
    automatic_runs client name trigger p histories (compact_state_default, log) in
  consecutive_failures state <= 3 /\
  (consecutive_failures state = 3 -> forall l,
     auto_compact_if_needed l client log' name state trigger p false =
     {| run_messages := l; was_compacted := false; run_state := state; run_requests := log';
        run_notes := [] |}).
Proof.
  assert (forall hs st lg, consecutive_failures st <= 3 ->
    consecutive_failures (fst (automatic_runs client name trigger p hs (st, lg))) <= 3) as H.
  { induction hs as [|h hs IH]; intros st lg Hle; [done|]. cbn [automatic_runs fold_left fst snd].
    apply IH. destruct (decide (3 <= consecutive_failures st)) as [Hge|Hlt].
    - by rewrite auto_compact_open.
    - pose proof (auto_compact_state client h lg name st trigger p false) as [H | [H | H] ]; rewrite H; simpl; lia. }
  specialize (H histories compact_state_default log).
  destruct (automatic_runs _ _ _ _ _ _) as [state log']. cbn [fst] in H.
  split; [apply H; simpl; lia|]. intros E l. apply auto_compact_open.
  rewrite E. unfold MAX_CONSECUTIVE_AUTOCOMPACT_FAILURES. lia.
Qed.
