(* ===== verification/Hooks.v ===== *)
(** * Hooks ([crates/rust-agent/src/hooks/mod.rs])

    Registration and ordering, matching, the two kinds of hook and the
    aggregated verdict.  The shell sandbox and the model behind a prompt hook
    are parameters of the executor; each call carries the moment it is made, so
    that equal requests may be answered differently. *)

From S2P Require Import Prelude Fnmatch Messages Compact.
From Stdlib Require Import Sorting.Sorted.

Inductive HookEvent :=
| SessionStart
| SessionEnd
| PreCompact
| PostCompact
| PreToolUse
| PostToolUse
| UserPromptSubmit
| Notification
| Stop
| SubagentStop.

#[export] Instance HookEvent_eq_dec : EqDecision HookEvent.
Proof. solve_decision. Defined.

Definition hook_event_as_str (event : HookEvent) : str :=
  match event with
  | SessionStart => lit "session_start"
  | SessionEnd => lit "session_end"
  | PreCompact => lit "pre_compact"
  | PostCompact => lit "post_compact"
  | PreToolUse => lit "pre_tool_use"
  | PostToolUse => lit "post_tool_use"
  | UserPromptSubmit => lit "user_prompt_submit"
  | Notification => lit "notification"
  | Stop => lit "stop"
  | SubagentStop => lit "subagent_stop"
  end.

Definition COMMAND_HOOK_STREAM_MAX_BYTES : N := 256 * 1024.
Definition HOOK_PAYLOAD_MAX_BYTES : N := 256 * 1024.
Definition PROMPT_HOOK_MESSAGE_MAX_BYTES : N := 256 * 1024.

(** [i32] priorities and [u32] timeouts are kept in [Z] and [N]: the code
    only compares and prints them. *)
Record CommandHookDefinition := {
  command : str;
  command_timeout_seconds : N;
  command_matcher : option str;
  command_block_on_failure : bool;
  command_priority : Z
}.

Record PromptHookDefinition := {
  prompt : str;
  prompt_model : option str;
  prompt_timeout_seconds : N;
  prompt_matcher : option str;
  prompt_block_on_failure : bool;
  prompt_priority : Z
}.

Inductive HookDefinition :=
| Command (hook : CommandHookDefinition)
| Prompt (hook : PromptHookDefinition).

#[export] Instance CommandHookDefinition_eq_dec : EqDecision CommandHookDefinition.
Proof. solve_decision. Defined.
#[export] Instance PromptHookDefinition_eq_dec : EqDecision PromptHookDefinition.
Proof. solve_decision. Defined.
#[export] Instance HookDefinition_eq_dec : EqDecision HookDefinition.
Proof. solve_decision. Defined.

Definition hook_priority (d : HookDefinition) : Z :=
  match d with Command h => command_priority h | Prompt h => prompt_priority h end.

Definition hook_matcher (d : HookDefinition) : option str :=
  match d with Command h => command_matcher h | Prompt h => prompt_matcher h end.

Definition hook_blocks_on_failure (d : HookDefinition) : bool :=
  match d with Command h => command_block_on_failure h | Prompt h => prompt_block_on_failure h end.

(** ** The registry *)

Definition HookRegistry := list (HookEvent * HookDefinition).

Definition register (r : HookRegistry) (event : HookEvent) (d : HookDefinition) : HookRegistry :=
  r ++ [(event, d)].

Definition register_if_absent (r : HookRegistry) (event : HookEvent) (d : HookDefinition) :
    HookRegistry * bool :=
  if existsb (fun e => bool_decide (e = (event, d))) r then (r, false)
  else (register r event d, true).

(** [sort_by_key] with [Reverse(priority)]: a stable sort, highest first. *)
Fixpoint insert_by_priority (d : HookDefinition) (l : list HookDefinition) : list HookDefinition :=
  match l with
  | [] => [d]
  | x :: l' => if (hook_priority x <? hook_priority d)%Z then d :: l
               else x :: insert_by_priority d l'
  end.

Definition sort_by_priority (l : list HookDefinition) : list HookDefinition :=
  fold_left (fun sorted d => insert_by_priority d sorted) l [].

Definition registered (r : HookRegistry) (event : HookEvent) : list HookDefinition :=
  omap (fun e => if bool_decide (fst e = event) then Some (snd e) else None) r.

Definition registry_get (r : HookRegistry) (event : HookEvent) : list HookDefinition :=
  sort_by_priority (registered r event).

(** ** Text *)

Definition single_quote : char := 39.

Definition is_ascii_alphanumeric (c : char) : bool :=
  ((48 <=? c) && (c <=? 57) || (65 <=? c) && (c <=? 90) || (97 <=? c) && (c <=? 122))%N.

Definition shell_safe (c : char) : bool :=
  is_ascii_alphanumeric c || existsb (N.eqb c) (lit "@%+=:,./-_").

Definition shell_quote (value : str) : str :=
  if negb (is_empty value) && forallb shell_safe value then value
  else [single_quote]
       ++ replace_char single_quote [single_quote; dquote; single_quote; dquote; single_quote] value
       ++ [single_quote].

Definition inject_arguments (template serialized_payload : str) (shell_escape : bool) : str :=
  replace (lit "$ARGUMENTS")
    (if shell_escape then shell_quote serialized_payload else serialized_payload) template.

(** The longest prefix of at most [limit] bytes that ends between two
    characters. *)
Fixpoint take_bytes (limit : N) (s : str) : str :=
  match s with
  | [] => []
  | c :: s' => if (len_utf8 c <=? limit)%N then c :: take_bytes (limit - len_utf8 c) s' else []
  end.

Definition truncate_hook_output (output : str) : str * bool :=
  if (utf8_len output <=? COMMAND_HOOK_STREAM_MAX_BYTES)%N then (output, false)
  else (take_bytes COMMAND_HOOK_STREAM_MAX_BYTES output
        ++ [newline] ++ lit "...[output truncated]..." ++ [newline], true).

Section Hooks.
Context {J : Json} {F : Float32} {U : Unicode} {P : Platform}.

Abbreviation payload := (gmap str Value).

Definition matches_hook (d : HookDefinition) (p : payload) : bool :=
  match hook_matcher d with
  | None => true
  | Some matcher =>
      if is_empty matcher then true
      else
        let subject key :=
          v ← p !! key; s ← value_as_str v; if is_empty s then None else Some s in
        let chosen :=
          match subject (lit "tool_name") with
          | Some s => Some s
          | None => match subject (lit "prompt") with
                    | Some s => Some s
                    | None => subject (lit "event")
                    end
          end in
        fnmatch (default [] chosen) matcher
  end.

Definition serialize_hook_payload (p : payload) : result str unit :=
  let text := value_to_string (value_object p) in
  if (utf8_len text <=? HOOK_PAYLOAD_MAX_BYTES)%N then Ok text else Err tt.

Definition parse_hook_json (text : str) : bool * str :=
  match (v ← value_parse text; o ← value_as_object v; ok ← (o !! lit "ok") ≫= value_as_bool;
         Some (o, ok)) with
  | Some (parsed, ok) =>
      let reason := default (lit "hook rejected the event")
                      ((parsed !! lit "reason") ≫= value_as_str) in
      (ok, if (ok : bool) then [] else reason)
  | None =>
      let lowered := to_lowercase (trim text) in
      if existsb (str_eqb lowered) [lit "ok"; lit "true"; lit "yes"] then (true, [])
      else
        let reason := trim text in
        (false, if is_empty reason then lit "hook returned invalid JSON" else reason)
  end.

(** ** Results *)

Record HookResult := {
  hook_type : str;
  success : bool;
  output : str;
  blocked : bool;
  reason : str;
  metadata : payload
}.

(** [AggregatedHookResult]. *)
Definition any_blocked (results : list HookResult) : bool := existsb blocked results.

Definition first_reason (results : list HookResult) : str :=
  match List.find blocked results with
  | Some r => if is_empty (reason r) then output r else reason r
  | None => []
  end.

(** ** The executor *)

Record ShellRequest := {
  shell_command : str;
  shell_cwd : str;
  shell_timeout_seconds : N;
  max_output_bytes : N
}.

Record ShellOutcome := { shell_output : str; exit_code : option Z; timed_out : bool }.

Inductive SandboxError := Unavailable (message : str) | SandboxExecution (message : str).

Definition sandbox_error_to_string (e : SandboxError) : str :=
  match e with
  | Unavailable m => lit "sandbox unavailable: " ++ m
  | SandboxExecution m => lit "sandbox execution failed: " ++ m
  end.

(** The moment of a call: the run of the executor, the hook in it. *)
Definition moment : Type := nat * nat.

Record Sandbox := {
  sandbox_name : str;
  shell_capability : bool;
  exec_shell : moment -> ShellRequest -> result ShellOutcome SandboxError
}.

(** The model of prompt hooks: [None] when the time limit passes first. *)
Definition HookModel := moment -> ModelRequest -> option (result (list ModelStreamEvent) AgentError).

Record HookExecutor := {
  registry : HookRegistry;
  hook_cwd : str;
  hook_model : option HookModel;
  default_model : option str;
  sandbox : Sandbox
}.

Definition hook_failure (kind : str) (block_on_failure : bool) (why : str) : HookResult :=
  {| hook_type := kind; success := false; output := []; blocked := block_on_failure;
     reason := why; metadata := ∅ |}.

Definition hook_script (hook : CommandHookDefinition) (event : HookEvent) (serialized : str) : str :=
  lit "export AINS_HOOK_EVENT=" ++ shell_quote (hook_event_as_str event)
  ++ lit "; export AINS_HOOK_PAYLOAD=" ++ shell_quote serialized ++ lit "; "
  ++ inject_arguments (command hook) serialized true.

Definition show_exit_code (code : option Z) : str :=
  match code with
  | None => lit "unknown"
  | Some z => (if (z <? 0)%Z then lit "-" else []) ++ show_N (Z.abs_N z)
  end.

Definition command_outcome (hook : CommandHookDefinition) (outcome : ShellOutcome) : HookResult :=
  let '(combined, truncated) := truncate_hook_output (trim (shell_output outcome)) in
  let success := bool_decide (exit_code outcome = Some 0%Z) in
  {| hook_type := lit "command"; success := success; output := combined;
     blocked := command_block_on_failure hook && negb success;
     reason := if success then []
               else if is_empty combined
               then lit "command hook failed with exit code " ++ show_exit_code (exit_code outcome)
               else combined;
     metadata := <[lit "returncode" := match exit_code outcome with
                                       | Some z => value_number z | None => value_null end]>
                 (<[lit "output_truncated" := value_bool truncated]> ∅) |}.

Definition run_command_hook (x : HookExecutor) (now : moment) (hook : CommandHookDefinition)
    (event : HookEvent) (p : payload) : HookResult :=
  let fail := hook_failure (lit "command") (command_block_on_failure hook) in
  if wasm then fail (lit "command hooks are not supported on the web platform")
  else
    match serialize_hook_payload p with
    | Err _ => fail (lit "command hook payload exceeded the " ++ show_N HOOK_PAYLOAD_MAX_BYTES
                     ++ lit " byte limit")
    | Ok serialized =>
        if negb (shell_capability (sandbox x))
        then fail (lit "command hook requires shell capability, but sandbox '"
                   ++ sandbox_name (sandbox x) ++ lit "' does not provide it")
        else
          let request := {| shell_command := hook_script hook event serialized;
                            shell_cwd := hook_cwd x;
                            shell_timeout_seconds := command_timeout_seconds hook;
                            max_output_bytes := COMMAND_HOOK_STREAM_MAX_BYTES |} in
          match exec_shell (sandbox x) now request with
          | Err error => fail (sandbox_error_to_string error)
          | Ok outcome =>
              if timed_out outcome
              then fail (lit "command hook timed out after "
                         ++ show_N (command_timeout_seconds hook) ++ lit "s")
              else command_outcome hook outcome
          end
    end.

Definition PROMPT_HOOK_SYSTEM_PROMPT : str :=
  lit "You are validating whether a hook condition passes in AINS. Return strict JSON: {"
  ++ [dquote] ++ lit "ok" ++ [dquote] ++ lit ": true} or {" ++ [dquote] ++ lit "ok" ++ [dquote]
  ++ lit ": false, " ++ [dquote] ++ lit "reason" ++ [dquote] ++ lit ": " ++ [dquote] ++ lit "..."
  ++ [dquote] ++ lit "}.".

(** The loop over the stream: [None] when a limit is passed. *)
Fixpoint collect_prompt_events (events : list ModelStreamEvent) (deltas : str)
    (final_text : option str) : option str :=
  match events with
  | [] => Some (default deltas final_text)
  | TextDelta text :: rest =>
      if (PROMPT_HOOK_MESSAGE_MAX_BYTES <? utf8_len deltas + utf8_len text)%N then None
      else collect_prompt_events rest (deltas ++ text) final_text
  | Complete message _ _ :: rest =>
      let t := text message in
      if (PROMPT_HOOK_MESSAGE_MAX_BYTES <? utf8_len t)%N then None
      else collect_prompt_events rest deltas (if is_empty t then final_text else Some t)
  | Retry _ _ _ _ :: rest => collect_prompt_events rest deltas final_text
  end.

Definition prompt_request (x : HookExecutor) (hook : PromptHookDefinition) (prompt : str) :
    ModelRequest :=
  {| model := match prompt_model hook with Some m => Some m | None => default_model x end;
     messages := [from_user_text prompt];
     system_prompt := Some PROMPT_HOOK_SYSTEM_PROMPT;
     max_output_tokens := 512;
     tools := [] |}.

Definition prompt_verdict (hook : PromptHookDefinition) (text : str) : HookResult :=
  let '(ok, why) := parse_hook_json text in
  {| hook_type := lit "prompt"; success := ok; output := text;
     blocked := if ok then false else prompt_block_on_failure hook;
     reason := if ok then [] else why; metadata := ∅ |}.

Definition run_prompt_hook (x : HookExecutor) (now : moment) (hook : PromptHookDefinition)
    (p : payload) : HookResult :=
  let fail := hook_failure (lit "prompt") (prompt_block_on_failure hook) in
  let too_long what := fail (lit "prompt hook " ++ what ++ lit " exceeded the "
                             ++ show_N PROMPT_HOOK_MESSAGE_MAX_BYTES ++ lit " byte limit") in
  match hook_model x with
  | None => fail (lit "prompt hooks require a model client")
  | Some client =>
      match serialize_hook_payload p with
      | Err _ => too_long (lit "payload")
      | Ok serialized =>
          let prompt := inject_arguments (prompt hook) serialized false in
          if (PROMPT_HOOK_MESSAGE_MAX_BYTES <? utf8_len prompt)%N then too_long (lit "request")
          else
            match client now (prompt_request x hook prompt) with
            | None => fail (lit "prompt hook timed out after "
                            ++ show_N (prompt_timeout_seconds hook) ++ lit "s")
            | Some (Err error) => fail (agent_error_to_string error)
            | Some (Ok events) =>
                match collect_prompt_events events [] None with
                | None => too_long (lit "response")
                | Some text => prompt_verdict hook text
                end
            end
      end
  end.

Definition run_hook (x : HookExecutor) (now : moment) (d : HookDefinition) (event : HookEvent)
    (p : payload) : HookResult :=
  match d with
  | Command hook => run_command_hook x now hook event p
  | Prompt hook => run_prompt_hook x now hook p
  end.

(** The [run]-th execution of the executor. *)
Definition execute (x : HookExecutor) (run : nat) (event : HookEvent) (p : payload) :
    list HookResult :=
  imap (fun i d => run_hook x (run, i) d event p)
    (List.filter (fun d => matches_hook d p) (registry_get (registry x) event)).

Definition update_registry (x : HookExecutor) (r : HookRegistry) : HookExecutor :=
  {| registry := r; hook_cwd := hook_cwd x; hook_model := hook_model x;
     default_model := default_model x; sandbox := sandbox x |}.
End Hooks.

#[global] Arguments execute : simpl never.

(** ** Ordering *)

Section Ordering.
Implicit Types (d x : HookDefinition) (l : list HookDefinition).

Definition before d x : Prop := (hook_priority x <= hook_priority d)%Z.

(** The hooks of one priority. *)
Definition at_priority (p : Z) l : list HookDefinition :=
  List.filter (fun d => (hook_priority d =? p)%Z) l.

Lemma insert_by_priority_perm d l : Permutation (insert_by_priority d l) (d :: l).
Proof.
  induction l as [|x l IH]; simpl; [done|]. destruct (_ <? _)%Z; [done|].
  rewrite IH. constructor.
Qed.

Lemma insert_by_priority_sorted d l :
  StronglySorted before l -> StronglySorted before (insert_by_priority d l).
Proof.
  induction 1 as [|x l Hs IH Hx]; simpl; [repeat constructor|].
  destruct (_ <? _)%Z eqn:E.
  - apply Z.ltb_lt in E. constructor; [by constructor|].
    constructor; [unfold before; lia|]. eapply Forall_impl; [exact Hx|]. unfold before. simpl. lia.
  - apply Z.ltb_ge in E. constructor; [done|]. rewrite insert_by_priority_perm. by constructor.
Qed.

Lemma at_priority_above p d l :
  Forall (before d) l -> (hook_priority d < p)%Z -> at_priority p l = [].
Proof.
  unfold before. induction 1 as [|x l Hx Hl IH]; intros Hp; simpl; [done|].
  destruct (Z.eqb_spec (hook_priority x) p); [lia | auto].
Qed.

(** A new hook comes after the others of its priority. *)
Lemma insert_by_priority_stable p d l :
  StronglySorted before l ->
  at_priority p (insert_by_priority d l) = at_priority p l ++ at_priority p [d].
Proof.
  induction 1 as [|x l Hs IH Hx]; simpl; [done|]. destruct (_ <? _)%Z eqn:E; simpl.
  - apply Z.ltb_lt in E. destruct (Z.eqb_spec (hook_priority d) p) as [Ed|Ed]; [|by rewrite app_nil_r].
    destruct (Z.eqb_spec (hook_priority x) p); [lia|].
    fold (at_priority p l). by rewrite (at_priority_above p x) by (done || lia).
  - fold (at_priority p (insert_by_priority d l)) (at_priority p l). rewrite IH.
    by destruct (Z.eqb_spec (hook_priority x) p).
Qed.

Lemma sort_by_priority_spec l acc :
  StronglySorted before acc ->
  let r := fold_left (fun sorted d => insert_by_priority d sorted) l acc in
  StronglySorted before r /\ Permutation r (acc ++ l) /\
  forall p, at_priority p r = at_priority p acc ++ at_priority p l.
Proof.
  cbv zeta. revert acc; induction l as [|d l IH]; intros acc Hs; simpl.
  - rewrite app_nil_r. split; [done|]. split; [done|]. intros p. by rewrite app_nil_r.
  - destruct (IH (insert_by_priority d acc)) as (H1 & H2 & H3);
      [by apply insert_by_priority_sorted|].
    split; [done|]. split.
    + rewrite H2, insert_by_priority_perm. apply Permutation_middle.
    + intros p. rewrite H3, insert_by_priority_stable by done. rewrite <- app_assoc.
      f_equal. unfold at_priority. simpl. by destruct (_ =? _)%Z.
Qed.
End Ordering.

(** ** Results *)

Section Results.
Context {J : Json} {F : Float32} {U : Unicode} {P : Platform}.

Lemma run_hook_blocked x now d event p :
  blocked (run_hook x now d event p) = true ->
  hook_blocks_on_failure d = true /\ success (run_hook x now d event p) = false.
Proof.
  assert (forall kind flag why, blocked (hook_failure kind flag why) = true ->
    flag = true /\ success (hook_failure kind flag why) = false) as Hf.
  { intros kind flag why H. split; [exact H | reflexivity]. }
  destruct d as [hook|hook]; simpl.
  - unfold run_command_hook. destruct wasm; [apply Hf|].
    destruct (serialize_hook_payload p); [|apply Hf].
    destruct (negb _); [apply Hf|]. destruct (exec_shell _ _ _) as [o|]; [|apply Hf].
    destruct (timed_out o); [apply Hf|]. unfold command_outcome.
    destruct (truncate_hook_output _). simpl. intros [? ?%negb_true_iff]%andb_true_iff. done.
  - unfold run_prompt_hook. destruct (hook_model x) as [client|]; [|apply Hf].
    destruct (serialize_hook_payload p); [|apply Hf]. destruct (_ <? _)%N; [apply Hf|].
    destruct (client _ _) as [[events|]|]; try apply Hf.
    destruct (collect_prompt_events _ _ _); [|apply Hf]. unfold prompt_verdict.
    by destruct (parse_hook_json _) as [[] ?].
Qed.

Lemma any_blocked_imap (f : nat -> HookDefinition -> HookResult) l :
  any_blocked (imap f l) = true <-> exists i d, l !! i = Some d /\ blocked (f i d) = true.
Proof.
  unfold any_blocked. rewrite existsb_elem. split.
  - intros (r & Hr & Hb). apply elem_of_lookup_imap in Hr as (i & d & -> & Hl). eauto.
  - intros (i & d & Hl & Hb). exists (f i d). split; [|done]. by apply elem_of_lookup_imap_2.
Qed.
End Results.

(** ** Quoting *)

(** How a POSIX shell reads one word, for the quoting the code produces: bare
    characters, single quotes, double quotes without expansions.  A space or
    a semicolon ends the word; [None] when the shell would give a character
    another meaning. *)
Inductive quoting := Bare | Single | Double.

Definition ends_word (c : char) : bool := (c =? 32)%N || (c =? 59)%N.

Fixpoint sh_word (mode : quoting) (s : str) : option (str * str) :=
  match s with
  | [] => match mode with Bare => Some ([], []) | _ => None end
  | c :: s' =>
      let keep mode := match sh_word mode s' with
                       | Some (w, rest) => Some (c :: w, rest) | None => None end in
      match mode with
      | Bare => if (c =? single_quote)%N then sh_word Single s'
                else if (c =? dquote)%N then sh_word Double s'
                else if ends_word c then Some ([], s)
                else if shell_safe c then keep Bare else None
      | Single => if (c =? single_quote)%N then sh_word Bare s' else keep Single
      | Double => if (c =? dquote)%N then sh_word Bare s'
                  else if (c =? 36)%N || (c =? 96)%N || (c =? backslash)%N then None
                  else keep Double
      end
  end.

(** What follows a word in a script. *)
Definition word_end (rest : str) : Prop :=
  match rest with [] => True | c :: _ => ends_word c = true end.

Lemma shell_safe_plain c :
  shell_safe c = true ->
  (c =? single_quote)%N = false /\ (c =? dquote)%N = false /\ ends_word c = false.
Proof.
  intros H. assert (forall x, (x < 128)%N -> shell_safe x = false -> c <> x) as Hne by (intros x _ Hx ->; congruence).
  unfold ends_word. rewrite !orb_false_iff, !N.eqb_neq.
  repeat split; apply Hne; (reflexivity || vm_compute; reflexivity).
Qed.

Lemma sh_word_bare s rest :
  forallb shell_safe s = true -> word_end rest -> sh_word Bare (s ++ rest) = Some (s, rest).
Proof.
  intros Hs Hr. induction s as [|c s IH]; simpl in *.
  - destruct rest as [|c rest]; [done|]. simpl in *.
    assert (c = 32%N \/ c = 59%N) as [-> | ->]; [|done|done].
    unfold ends_word in Hr. apply orb_true_iff in Hr as [?%N.eqb_eq|?%N.eqb_eq]; auto.
  - apply andb_true_iff in Hs as [Hc Hs]. pose proof (shell_safe_plain c Hc) as (-> & -> & ->).
    rewrite Hc. by rewrite IH.
Qed.

Lemma sh_word_single s rest :
  word_end rest ->
  sh_word Single (replace_char single_quote
    [single_quote; dquote; single_quote; dquote; single_quote] s ++ [single_quote] ++ rest)
  = Some (s, rest).
Proof.
  intros Hr. induction s as [|c s IH].
  - simpl. exact (sh_word_bare [] rest eq_refl Hr).
  - unfold replace_char in *. rewrite bind_cons, <- app_assoc.
    destruct (c =? single_quote)%N eqn:E.
    + apply N.eqb_eq in E as ->. cbn [app sh_word]. rewrite !N.eqb_refl.
      change (dquote =? single_quote)%N with false. change (single_quote =? dquote)%N with false.
      change ((single_quote =? 36) || (single_quote =? 96) || (single_quote =? backslash))%N with false.
      cbn [app] in IH. cbv iota beta. by rewrite IH.
    + cbn [app sh_word] in *. rewrite E. by rewrite IH.
Qed.

Lemma sh_word_shell_quote s rest :
  word_end rest -> sh_word Bare (shell_quote s ++ rest) = Some (s, rest).
Proof.
  intros Hr. unfold shell_quote. destruct (_ && _) eqn:E.
  - apply andb_true_iff in E as [_ E]. by apply sh_word_bare.
  - rewrite <- !app_assoc. cbn [app sh_word]. rewrite N.eqb_refl. by apply sh_word_single.
Qed.

(** ** Properties *)

(** The hooks of an event run by priority: the list that [get] returns
    holds exactly the hooks registered for the event, highest priority first,
    and hooks of one priority keep their registration order. *)
Theorem hooks_run_by_priority r event :
  StronglySorted before (registry_get r event) /\
  Permutation (registry_get r event) (registered r event) /\
  forall p, at_priority p (registry_get r event) = at_priority p (registered r event).
Proof. apply (sort_by_priority_spec (registered r event) []). constructor. Qed.

(** A hook can only veto when it was asked to: if an event comes out
    blocked, some hook that is registered for the event, matches it and has
    [block_on_failure] ran and failed; and every matching hook ran, also after
    one that blocked. *)
Theorem veto_needs_failing_blocking_hook {J : Json} {F : Float32} {U : Unicode} {P : Platform}
    x run event p :
  length (execute x run event p) =
    length (List.filter (fun d => matches_hook d p) (registry_get (registry x) event)) /\
  (any_blocked (execute x run event p) = true ->
   exists i d, d ∈ registered (registry x) event /\ matches_hook d p = true /\
     hook_blocks_on_failure d = true /\ success (run_hook x (run, i) d event p) = false).
Proof.
  unfold execute. rewrite length_imap. split; [done|].
  rewrite any_blocked_imap. intros (i & d & Hl & Hb). exists i, d.
  apply list_elem_of_lookup_2, list_elem_of_In, filter_In in Hl as [Hin Hm].
  pose proof (sort_by_priority_spec (registered (registry x) event) [] ltac:(constructor)) as (_ & Hp & _).
  apply list_elem_of_In in Hin. unfold registry_get, sort_by_priority in Hin. rewrite Hp in Hin.
  apply run_hook_blocked in Hb as [? ?]. done.
Qed.

Definition demo_hook : CommandHookDefinition :=
  {| command := lit "true"; command_timeout_seconds := 30; command_matcher := None;
     command_block_on_failure := true; command_priority := 0 |}.

Definition demo_executor {J : Json} {F : Float32} : HookExecutor :=
  {| registry := [(PreToolUse, Command demo_hook)]; hook_cwd := lit "/"; hook_model := None;
     default_model := None;
     sandbox := {| sandbox_name := lit "noop"; shell_capability := false;
                   exec_shell _ _ := Err (Unavailable (lit "none")) |} |}.

Lemma veto_needs_failing_blocking_hook_witness :
  any_blocked (@execute small_json whole_seconds ascii_tables {| wasm := false |}
    demo_executor 0 PreToolUse ∅) = true /\
  exists i, success (@run_hook small_json whole_seconds ascii_tables {| wasm := false |}
    demo_executor (0, i) (Command demo_hook) PreToolUse ∅) = false.
Proof.
  assert (any_blocked (@execute small_json whole_seconds ascii_tables {| wasm := false |}
    demo_executor 0 PreToolUse ∅) = true) as H by (vm_compute; reflexivity).
  split; [exact H|].
  destruct (proj2 (@veto_needs_failing_blocking_hook small_json whole_seconds ascii_tables
    {| wasm := false |} demo_executor 0 PreToolUse ∅) H) as (i & d & Hd & _ & _ & Hs).
  exists i. unfold registered in Hd. simpl in Hd. apply list_elem_of_singleton in Hd as ->. exact Hs.
Defined.

(** Quoting is exact: whatever text a payload holds, a shell that reads
    the quoted word gets that text back, nothing more and nothing less, and
    goes on with the rest of the script; no payload can add a command. *)
Theorem shell_quote_exact value rest :
  word_end rest -> sh_word Bare (shell_quote value ++ rest) = Some (value, rest).
Proof. apply sh_word_shell_quote. Qed.

Lemma shell_quote_exact_witness :
  sh_word Bare (shell_quote (lit "'; rm -rf /") ++ lit "; true") = Some (lit "'; rm -rf /", lit "; true").
Proof. apply (shell_quote_exact (lit "'; rm -rf /") (lit "; true")). reflexivity. Defined.

(** The executor with another shell behind the same sandbox. *)
Definition with_shell {J : Json} {F : Float32} (x : HookExecutor)
    (shell : moment -> ShellRequest -> result ShellOutcome SandboxError) : HookExecutor :=
  {| registry := registry x; hook_cwd := hook_cwd x; hook_model := hook_model x;
     default_model := default_model x;
     sandbox := {| sandbox_name := sandbox_name (sandbox x);
                   shell_capability := shell_capability (sandbox x); exec_shell := shell |} |}.

(** Command hooks fail closed: without a shell capability (and on the
    web) the result does not depend on what the shell would do, the hook counts
    as failed, and it blocks exactly when it is configured to block on
    failure. *)
Theorem command_hook_fails_closed {J : Json} {F : Float32} {U : Unicode} {P : Platform}
    x now hook event p :
  (wasm : bool) = true \/ shell_capability (sandbox x) = false ->
  let r := run_command_hook x now hook event p in
  success r = false /\ blocked r = command_block_on_failure hook /\
  (forall shell, run_command_hook (with_shell x shell) now hook event p = r).
Proof.
  cbv zeta. intros Hw. unfold run_command_hook. destruct (wasm : bool); [done|].
  destruct (serialize_hook_payload p); [|done]. cbn [with_shell sandbox shell_capability]. destruct Hw as [Hw|Hw]; [done|]. by rewrite Hw.
Qed.

Lemma command_hook_fails_closed_witness :
  success (@run_command_hook small_json whole_seconds {| wasm := false |}
    demo_executor (0, 0) demo_hook PreToolUse ∅) = false.
Proof.
  apply (@command_hook_fails_closed small_json whole_seconds ascii_tables {| wasm := false |}
    demo_executor (0, 0) demo_hook PreToolUse ∅). right. reflexivity.
Defined.
