(* ===== verification/ToolOutputs.v ===== *)
(** * Output budgets ([crates/rust-agent/src/tools/outputs.rs])

    What a tool prints is capped before it reaches the conversation; the full
    text goes to an artifact sink, which is a parameter. *)

From S2P Require Import Prelude Hooks.

Definition DEFAULT_TOOL_OUTPUT_INLINE_CHARS : N := 16000.
Definition DEFAULT_TOOL_OUTPUT_PREVIEW_CHARS : N := 3000.
Definition DEFAULT_MICROCOMPACT_TOOL_RESULT_CHARS : N := 4000.

Definition parse_positive_value (raw : option str) (default_value minimum : N) : N :=
  match raw with
  | None => default_value
  | Some raw =>
      if is_empty (trim raw) then default_value
      else match parse_usize (trim raw) with
           | Some value => N.max value minimum
           | None => default_value
           end
  end.

(** [ArtifactSink::store]. *)
Definition ArtifactSink := str -> str -> str -> result str str.

Record OffloadedOutput := { inline : str; artifact : option str }.

Record InlineBudget := { inline_chars : nat; preview_chars : nat }.

Section Outputs.
Context {P : Platform} {E : Environment}.

Definition read_positive_env (name : str) (default_value minimum : N) : N :=
  if wasm then default_value else parse_positive_value (env_var name) default_value minimum.

Definition tool_output_inline_chars : nat :=
  N.to_nat (read_positive_env (lit "AINS_TOOL_OUTPUT_INLINE_CHARS")
              DEFAULT_TOOL_OUTPUT_INLINE_CHARS 256).

Definition tool_output_preview_chars : nat :=
  N.to_nat (read_positive_env (lit "AINS_TOOL_OUTPUT_PREVIEW_CHARS")
              DEFAULT_TOOL_OUTPUT_PREVIEW_CHARS 128).

Definition microcompact_tool_result_chars : nat :=
  N.to_nat (read_positive_env (lit "AINS_MICROCOMPACT_TOOL_RESULT_CHARS")
              DEFAULT_MICROCOMPACT_TOOL_RESULT_CHARS 256).

Definition is_microcompactable_tool_result (tool_name content : str) : bool :=
  if starts_with (lit "mcp__") (trim tool_name) then true
  else microcompact_tool_result_chars <=? length content.

Definition build_truncated_inline (tool_name tool_use_id output : str) (total_chars : nat)
    (reference store_error : option str) (budget : InlineBudget) : OffloadedOutput :=
  let preview := take (Nat.min (preview_chars budget) (inline_chars budget)) output in
  let shown := length preview in
  let omitted := total_chars - shown in
  let nl := [newline] in
  let header :=
    lit "[Tool output truncated]" ++ nl ++ lit "Tool: " ++ tool_name ++ nl
    ++ lit "Tool use id: " ++ tool_use_id ++ nl
    ++ lit "Original size: " ++ show_nat total_chars ++ lit " chars" ++ nl in
  let where_ :=
    match reference, store_error with
    | Some r, _ => lit "Full output saved to: " ++ r ++ nl
    | None, Some e => lit "Full output not persisted (artifact storage failed: " ++ e ++ lit ")" ++ nl
    | None, None => lit "Full output not persisted (no artifact storage available)" ++ nl
    end in
  let text :=
    header ++ where_ ++ lit "Inline preview: first " ++ show_nat shown ++ lit " chars"
    ++ (if 0 <? omitted then lit " (" ++ show_nat omitted ++ lit " chars omitted)" else [])
    ++ (if is_empty preview then [] else nl ++ nl ++ lit "Preview:" ++ nl ++ preview) in
  {| inline := if inline_chars budget <? length text then take (inline_chars budget) text else text;
     artifact := reference |}.

Definition offload_tool_output_if_needed (tool_name tool_use_id output : str)
    (sink : option ArtifactSink) : OffloadedOutput :=
  let total_chars := length output in
  let inline_limit := tool_output_inline_chars in
  let budget := {| inline_chars := inline_limit; preview_chars := tool_output_preview_chars |} in
  if total_chars <=? inline_limit then {| inline := output; artifact := None |}
  else
    match sink with
    | None => build_truncated_inline tool_name tool_use_id output total_chars None None budget
    | Some store =>
        match store tool_name tool_use_id output with
        | Ok reference =>
            build_truncated_inline tool_name tool_use_id output total_chars (Some reference) None budget
        | Err error =>
            build_truncated_inline tool_name tool_use_id output total_chars None (Some error) budget
        end
    end.
End Outputs.

(** ** File names of artifacts *)

Definition name_char (c : char) : bool :=
  is_ascii_alphanumeric c || existsb (N.eqb c) (lit "_.-").

(** The loop of [safe_name]; [last] is [last_was_replacement]. *)
Fixpoint safe_chars (last : bool) (s : str) : str :=
  match s with
  | [] => []
  | c :: s' => if name_char c then c :: safe_chars false s'
               else if last then safe_chars true s' else 95%N :: safe_chars true s'
  end.

Definition safe_name (tool_name : str) : str :=
  let normalized := safe_chars false (trim tool_name) in
  take 80 (if is_empty normalized then lit "tool" else normalized).

Definition artifact_filename (now_ms : N) (tool_name : str) (seq : N) : str :=
  show_N now_ms ++ lit "-" ++ safe_name tool_name ++ lit "-" ++ show_N seq ++ lit ".txt".

Lemma safe_chars_ok last s : forallb name_char (safe_chars last s) = true.
Proof.
  revert last; induction s as [|c s IH]; intros last; simpl; [done|].
  destruct (name_char c) eqn:E; [by simpl; rewrite E, IH|]. destruct last; [done|]. simpl. apply IH.
Qed.

Lemma forallb_take {A} (f : A -> bool) n l : forallb f l = true -> forallb f (take n l) = true.
Proof.
  revert n; induction l as [|x l IH]; intros [|n]; simpl; try done.
  intros [Hx Hl]%andb_true_iff. by rewrite Hx, IH.
Qed.

(** ** Properties *)

(** No tool output can overrun the conversation: whatever the tool
    prints, whatever the sink answers and however the environment sets the
    budget, the inlined text has at most [tool_output_inline_chars]
    characters; a text within the budget is inlined as it is, and an artifact
    reference is reported exactly when a longer text was stored. *)
Theorem inline_within_budget {P : Platform} {E : Environment} tool_name tool_use_id output sink :
  let r := offload_tool_output_if_needed tool_name tool_use_id output sink in
  length (inline r) <= tool_output_inline_chars /\
  (length output <= tool_output_inline_chars -> inline r = output) /\
  (forall reference, artifact r = Some reference <->
     tool_output_inline_chars < length output /\
     exists store, sink = Some store /\ store tool_name tool_use_id output = Ok reference).
Proof.
  cbv zeta.
  assert (forall total reference err budget,
    length (inline (build_truncated_inline tool_name tool_use_id output total reference err budget))
    <= inline_chars budget) as Hlen.
  { intros. cbn [inline build_truncated_inline].
    destruct (inline_chars budget <? _) eqn:Hc.
    - rewrite length_take. lia.
    - by apply Nat.ltb_ge in Hc. }
  unfold offload_tool_output_if_needed. destruct (_ <=? _) eqn:El.
  - apply Nat.leb_le in El. simpl. split; [done|]. split; [done|].
    intros reference. split; [done | lia].
  - apply Nat.leb_gt in El. destruct sink as [store|].
    + destruct (store _ _ _) as [r|e] eqn:Es; (split; [apply Hlen|]; split; [lia|]);
        intros reference; cbn [artifact build_truncated_inline]; split; try done.
      * intros [= ->]. eauto.
      * intros [_ (st & [= ->] & H)]. congruence.
      * intros [_ (st & [= ->] & H)]. congruence.
    + split; [apply Hlen|]. split; [lia|]. intros reference. split; [done|].
      by intros [_ (st & ? & _)].
Qed.

(** A tool name cannot steer where its artifact is written: whatever
    the name, the sanitised part is not empty, at most 80 characters, and made
    only of letters, digits, underscores, dots and dashes, so no path
    separator comes from it. *)
Theorem artifact_name_has_no_separator tool_name :
  1 <= length (safe_name tool_name) <= 80 /\
  forallb name_char (safe_name tool_name) = true /\
  (slash ∉ safe_name tool_name) /\ (backslash ∉ safe_name tool_name).
Proof.
  assert (forallb name_char (safe_name tool_name) = true) as Hok.
  { unfold safe_name. apply forallb_take. destruct (is_empty _); [done | apply safe_chars_ok]. }
  split; [|split; [done|]].
  - unfold safe_name. rewrite length_take.
    destruct (is_empty _) eqn:E; [change (length (lit "tool")) with 4; lia|]. apply is_empty_false in E.
    destruct (safe_chars _ _); [done | cbn [length]; lia].
  - split; intros H; apply list_elem_of_In in H;
      rewrite forallb_forall in Hok; specialize (Hok _ H); vm_compute in Hok; discriminate.
Qed.
