(* ===== verification/ToolRuntime.v ===== *)
(** * The tool runtime ([crates/rust-agent/src/tools/runtime.rs])

    The registry, the dispatch pipeline (activity, hooks, permission, prompt,
    execution, output budget) and the batch dispatch with its metadata merge.

    A dispatch runs concurrently with its siblings, the user interface and the
    permission engine.  What it reads from that shared world, in order, is the
    argument [view]; what it does to it is the list of [effect]s it returns.
    Theorems hold for every view, hence for every interleaving. *)

From S2P Require Import Prelude Fnmatch SandboxPolicy PermissionEngine Messages Compact Hooks.
From S2P Require Import ToolOutputs.

(** ** Paths

    A Unix path is its text; [components] keeps what [Path::components]
    yields after the root, without the [CurDir] entries that every caller here
    drops. *)

Fixpoint split_char_go (c : char) (cur : str) (s : str) : list str :=
  match s with
  | [] => [reverse cur]
  | x :: s' => if (x =? c)%N then reverse cur :: split_char_go c [] s'
               else split_char_go c (x :: cur) s'
  end.
(** [str::split] at a character. *)
Definition split_char (c : char) (s : str) : list str := split_char_go c [] s.

Definition current_dir : str := lit ".".
Definition parent_dir : str := lit "..".

Definition components (path : str) : list str :=
  List.filter (fun n => negb (is_empty n) && negb (str_eqb n current_dir)) (split_char slash path).

(** [PathBuf::push] of one name, and [Path::join] of any path. *)
Definition push_name (base name : str) : str :=
  if is_empty base || ends_with [slash] base then base ++ name else base ++ [slash] ++ name.

Definition path_join (base path : str) : str :=
  if is_absolute path then path else push_name base path.

Definition render_path (absolute : bool) (names : list str) : str :=
  (if absolute then [slash] else []) ++ join [slash] names.

(** The loop of [lexical_resolve_path]: the names kept so far, last first.
    [..] at the top is dropped. *)
Definition resolve_component (names : list str) (component : str) : list str :=
  if str_eqb component parent_dir then tl names else component :: names.

Definition resolve_names (path : str) : list str :=
  reverse (fold_left resolve_component (components path) []).

Definition lexical_resolve_path (path : str) : str :=
  render_path (is_absolute path) (resolve_names path).

(** The file system and the process environment, as far as paths go. *)
Class FileSystem := {
  home_dir : option str;
  canonicalize : str -> option str
}.

(** [trim_start_matches] of the two characters [~/]. *)
Fixpoint trim_tilde (fuel : nat) (s : str) : str :=
  match fuel, s with
  | S k, 126%N :: 47%N :: s' => trim_tilde k s'
  | _, _ => s
  end.

Definition tilde : str := lit "~".

Definition expand_tilde (candidate : str) (home : option str) : str :=
  if str_eqb candidate tilde || starts_with (lit "~/") candidate
  then match home with
       | Some home => path_join home (trim_tilde (length candidate) candidate)
       | None => candidate
       end
  else candidate.

Section Paths.
Context {P : Platform} {FS : FileSystem}.

(** The loop of [resolve_existing_ancestor]: [names] are those of the cursor,
    last first, [missing] those below it. *)
Fixpoint existing_ancestor (absolute : bool) (names missing : list str) : option str :=
  match canonicalize (render_path absolute (reverse names)) with
  | Some canonical => Some (fold_left push_name missing canonical)
  | None => match names with
            | [] => None
            | n :: rest => existing_ancestor absolute rest (n :: missing)
            end
  end.

Definition resolve_existing_ancestor (path : str) : str :=
  default path (existing_ancestor (is_absolute path) (reverse (components path)) []).

Definition resolve_permission_candidate (cwd candidate : str) : str :=
  let path := expand_tilde candidate home_dir in
  let anchored := if is_absolute path then path else path_join cwd path in
  let resolved := lexical_resolve_path anchored in
  if wasm then resolved else resolve_existing_ancestor resolved.
End Paths.

(** ** Tools *)

Section Runtime.
Context {J : Json} {F : Float32} {T : Target} {U : Unicode}.
Context {P : Platform} {E : Environment} {FS : FileSystem}.

Definition object_str (object : gmap str Value) (key : string) : option str :=
  v ← object !! lit key; value_as_str v.

Definition resolve_permission_file_path (tool_name cwd : str) (input : Value) : option str :=
  object ← value_as_object input;
  if str_eqb tool_name (lit "shell_command")
  then Some (resolve_permission_candidate cwd (default (lit ".") (object_str object "cwd")))
  else if str_eqb tool_name (lit "background_task")
          && bool_decide (object_str object "action" = Some (lit "run"))
  then Some (resolve_permission_candidate cwd (lit "."))
  else
    let pattern := object_str object "pattern" in
    if str_eqb tool_name (lit "glob")
       && match pattern with Some p => is_absolute p | None => false end
    then Some (resolve_permission_candidate cwd (default [] pattern))
    else
      let usable key := v ← object_str object key;
                        if is_empty (trim v) then None else Some v in
      let chosen :=
        match usable "file_path" with
        | Some v => Some v
        | None => match usable "path" with Some v => Some v | None => usable "root" end
        end in
      resolve_permission_candidate cwd <$> chosen.

Definition extract_permission_command (input : Value) : option str :=
  object ← value_as_object input;
  value ← object_str object "command";
  if is_empty (trim value) then None else Some value.

Record ToolResult := { tool_output : str; tool_is_error : bool; tool_result_metadata : Value }.

Definition tool_ok (output : str) : ToolResult :=
  {| tool_output := output; tool_is_error := false; tool_result_metadata := value_null |}.
Definition tool_err (output : str) : ToolResult :=
  {| tool_output := output; tool_is_error := true; tool_result_metadata := value_null |}.

(** A [dyn Tool].  Availability and execution may change over time; the
    number is the moment of the call. *)
Record Tool := {
  definition : ToolDef;
  is_available : nat -> bool;
  is_read_only : Value -> bool;
  exclusive_execution_key : Value -> str -> option str;
  execute_tool : nat -> Value -> str -> ToolMetadata -> result ToolResult ToolError * ToolMetadata
}.

Record ToolRuntime := {
  runtime_tools : list Tool;
  index : gmap str nat;
  permissions : PermissionEngine;
  permission_prompt : bool;
  hooks : option HookExecutor;
  artifact_sink : option ArtifactSink
}.

Definition runtime_new (engine : PermissionEngine) : ToolRuntime :=
  {| runtime_tools := []; index := ∅; permissions := engine; permission_prompt := false;
     hooks := None; artifact_sink := None |}.

Definition register_tool (rt : ToolRuntime) (tool : Tool) : ToolRuntime :=
  let name := def_name (definition tool) in
  let '(tools, idx) :=
    match index rt !! name with
    | Some position => (<[position := tool]> (runtime_tools rt), index rt)
    | None => (runtime_tools rt ++ [tool], <[name := length (runtime_tools rt)]> (index rt))
    end in
  {| runtime_tools := tools; index := idx; permissions := permissions rt;
     permission_prompt := permission_prompt rt; hooks := hooks rt;
     artifact_sink := artifact_sink rt |}.

Definition get_tool (rt : ToolRuntime) (name : str) : option Tool :=
  position ← index rt !! name; runtime_tools rt !! position.

(** The set of disabled tools is shared with the host; [observer] tells
    whether the mutation callback ran. *)
Definition set_tool_enabled (disabled : gset str) (name : str) (enabled : bool) :
    gset str * bool :=
  let changed := if enabled then bool_decide (name ∈ disabled)
                 else negb (bool_decide (name ∈ disabled)) in
  ((if enabled then disabled ∖ {[name]} else {[name]} ∪ disabled), changed).

Definition is_tool_enabled (disabled : gset str) (name : str) : bool :=
  negb (bool_decide (name ∈ disabled)).

Definition import_disabled (disabled : gset str) (names : list str) : gset str * bool :=
  let incoming : gset str := list_to_set names in
  let changed := negb (size incoming =? size disabled)
                 || existsb (fun n => negb (bool_decide (n ∈ disabled))) (elements incoming) in
  (incoming, changed).

Definition api_schemas (rt : ToolRuntime) (at_ : nat) (disabled : gset str) : list ToolDef :=
  omap (fun tool => if negb (bool_decide (def_name (definition tool) ∈ disabled))
                       && is_available tool at_
                    then Some (definition tool) else None) (runtime_tools rt).

Definition all_schemas (rt : ToolRuntime) (at_ : nat) : list ToolDef :=
  definition <$> List.filter (fun tool => is_available tool at_) (runtime_tools rt).

(** ** Dispatch *)

Inductive PermissionReply := Allow | AlwaysAllow | Deny.

Record PermissionRequest := {
  request_tool_name : str;
  request_reason : str;
  request_tool_input : Value;
  resolved_file_path : option str;
  request_command : option str
}.

(** What one dispatch observes of the shared world, in program order. *)
Record view := {
  at_time : nat;
  cancelled_before : bool;
  disabled_set : gset str;
  pre_run : nat;
  engine_reads : reads;
  reply : PermissionReply;
  cancelled_after_prompt : bool;
  cancelled_at_start : bool
}.

Inductive effect :=
| RanHooks (event : HookEvent) (p : gmap str Value)
| Asked (request : PermissionRequest)
| Persisted (identity : str)
| Executed (name : str) (input : Value).

Definition cancelled_result : ToolResult := tool_err (lit "Tool execution interrupted by user").

Definition permission_denied_message (reason tool_name : str) : str :=
  if is_empty reason then lit "Permission denied for " ++ tool_name else reason.

Definition apply_output_budget (rt : ToolRuntime) (u : ToolUse) (r : ToolResult)
    (m : ToolMetadata) : ToolResult * ToolMetadata :=
  let offloaded := offload_tool_output_if_needed (name u) (id u) (tool_output r) (artifact_sink rt) in
  ({| tool_output := inline offloaded; tool_is_error := tool_is_error r;
      tool_result_metadata := tool_result_metadata r |},
   match artifact offloaded with
   | Some reference => record_active_artifact m reference
   | None => m
   end).

(** [background_task] with the actions [run] and [stop] is judged as a shell
    command. *)
Definition permission_identity (u : ToolUse) : str :=
  let action := object ← value_as_object (input u); object_str object "action" in
  if str_eqb (name u) (lit "background_task")
     && (bool_decide (action = Some (lit "run")) || bool_decide (action = Some (lit "stop")))
  then lit "shell_command" else name u.

Definition decide_permission (rt : ToolRuntime) (v : view) (tool : Tool) (u : ToolUse)
    (file_path command : option str) : PermissionDecision :=
  let engine := permissions rt in
  let compound := existsb (str_eqb (name u)) [lit "edit_file"; lit "todo_write"] in
  let traversal := existsb (str_eqb (name u)) [lit "glob"; lit "grep"] in
  let general := evaluate_reads engine (engine_reads v) (permission_identity u)
                   (is_read_only tool (input u)) file_path command in
  match file_path with
  | None => general
  | Some path =>
      match sensitive_path_pattern path with
      | Some pattern =>
          decision_deny (lit "Access denied: " ++ path
            ++ lit " is a sensitive credential path (matched built-in pattern '" ++ pattern
            ++ lit "')")
      | None =>
          if compound && negb (file_access_allowed engine path true)
          then decision_deny (lit "Access denied: " ++ path
                 ++ lit " is not readable under the sandbox filesystem policy")
          else if traversal && negb (recursive_read_allowed engine path)
          then decision_deny (lit "Recursive access denied: " ++ path
                 ++ lit " cannot be authorized with the configured sandbox deny rules")
          else general
      end
  end.

Definition pre_payload (u : ToolUse) : gmap str Value :=
  <[lit "tool_name" := value_string (name u)]>
  (<[lit "tool_input" := input u]>
  (<[lit "event" := value_string (hook_event_as_str PreToolUse)]> ∅)).

Definition insert_optional (key : string) (o : option str) (p : gmap str Value) : gmap str Value :=
  match o with Some s => <[lit key := value_string s]> p | None => p end.

Definition notification_payload (u : ToolUse) (reason : str) (file_path command : option str) :
    gmap str Value :=
  insert_optional "command" command (insert_optional "resolved_file_path" file_path
  (<[lit "event" := value_string (hook_event_as_str Notification)]>
  (<[lit "notification_type" := value_string (lit "permission_prompt")]>
  (<[lit "tool_name" := value_string (name u)]>
  (<[lit "reason" := value_string reason]>
  (<[lit "tool_input" := input u]> ∅)))))).

Definition post_payload (u : ToolUse) (r : ToolResult) : gmap str Value :=
  <[lit "tool_name" := value_string (name u)]>
  (<[lit "tool_input" := input u]>
  (<[lit "tool_output" := value_string (tool_output r)]>
  (<[lit "tool_is_error" := value_bool (tool_is_error r)]>
  (<[lit "event" := value_string (hook_event_as_str PostToolUse)]> ∅)))).

Definition run_observed (rt : ToolRuntime) (event : HookEvent) (p : gmap str Value) : list effect :=
  match hooks rt with Some _ => [RanHooks event p] | None => [] end.

Definition dispatched : Type := ToolResult * ToolMetadata * list effect.

Definition finish (rt : ToolRuntime) (u : ToolUse) (m : ToolMetadata) (effects : list effect)
    (r : ToolResult) : dispatched :=
  let '(r, m) := apply_output_budget rt u r m in (r, m, effects).

(** Steps 5 to 7. *)
Definition execute_step (rt : ToolRuntime) (v : view) (cwd : str) (u : ToolUse) (tool : Tool)
    (m : ToolMetadata) (effects : list effect) : dispatched :=
  if cancelled_at_start v then finish rt u m effects cancelled_result
  else
    let '(outcome, m) := execute_tool tool (at_time v) (input u) cwd m in
    let r := match outcome with
             | Ok r => r
             | Err error => tool_err (lit "Tool " ++ name u ++ lit " failed: "
                                      ++ agent_error_to_string (ToolErr error))
             end in
    let '(r, m) := apply_output_budget rt u r m in
    (r, m, effects ++ [Executed (name u) (input u)] ++ run_observed rt PostToolUse (post_payload u r)).

(** Step 4. *)
Definition permission_step (rt : ToolRuntime) (v : view) (cwd : str) (u : ToolUse) (tool : Tool)
    (m : ToolMetadata) (effects : list effect) : dispatched :=
  let file_path := resolve_permission_file_path (name u) cwd (input u) in
  let command := extract_permission_command (input u) in
  let decision := decide_permission rt v tool u file_path command in
  let denied effects :=
    finish rt u m effects (tool_err (permission_denied_message (PermissionEngine.reason decision) (name u))) in
  if allowed decision then execute_step rt v cwd u tool m effects
  else if requires_confirmation decision && permission_prompt rt
  then
    let effects :=
      effects ++ run_observed rt Notification
                   (notification_payload u (PermissionEngine.reason decision) file_path command)
      ++ [Asked {| request_tool_name := name u; request_reason := PermissionEngine.reason decision;
                   request_tool_input := input u; resolved_file_path := file_path;
                   request_command := command |}] in
    match reply v with
    | Deny => denied effects
    | Allow =>
        if cancelled_after_prompt v then finish rt u m effects cancelled_result
        else execute_step rt v cwd u tool m effects
    | AlwaysAllow =>
        if cancelled_after_prompt v then finish rt u m effects cancelled_result
        else execute_step rt v cwd u tool m (effects ++ [Persisted (permission_identity u)])
    end
  else denied effects.

Definition pre_hook_results (rt : ToolRuntime) (v : view) (u : ToolUse) : list HookResult :=
  match hooks rt with
  | Some x => Hooks.execute x (pre_run v) PreToolUse (pre_payload u)
  | None => []
  end.

Definition dispatch (rt : ToolRuntime) (v : view) (cwd : str) (u : ToolUse) (m : ToolMetadata) :
    dispatched :=
  if cancelled_before v then finish rt u m [] cancelled_result
  else if negb (is_tool_enabled (disabled_set v) (name u))
  then finish rt u m [] (tool_err (lit "Tool '" ++ name u ++ lit "' is disabled and cannot be called"))
  else
    let pre := pre_hook_results rt v u in
    let effects := run_observed rt PreToolUse (pre_payload u) in
    if any_blocked pre
    then finish rt u m effects
           (tool_err (if is_empty (first_reason pre)
                      then lit "pre_tool_use hook blocked " ++ name u else first_reason pre))
    else
      match get_tool rt (name u) with
      | None => finish rt u m effects (tool_err (lit "Unknown tool: " ++ name u))
      | Some tool =>
          if negb (is_available tool (at_time v))
          then finish rt u m effects
                 (tool_err (lit "Tool '" ++ name u ++ lit "' is not authorized for the current request"))
          else permission_step rt v cwd u tool m effects
      end.

(** ** Batches *)

(** [replay_list_delta] first skips the longest prefix of [local] that is a
    subsequence of [baseline], then replays the rest. *)
Fixpoint position_of (value : str) (l : list str) : option nat :=
  match l with
  | [] => None
  | x :: l' => if str_eqb x value then Some 0 else S <$> position_of value l'
  end.

Fixpoint delta (baseline local : list str) : list str :=
  match local with
  | [] => []
  | value :: rest =>
      match position_of value baseline with
      | None => local
      | Some offset =>
          let baseline := drop (S offset) baseline in
          if is_empty baseline then rest else delta baseline rest
      end
  end.

Definition merge_metadata_delta (baseline local target : ToolMetadata) : ToolMetadata :=
  let target := fold_left record_read_file (delta (read_files baseline) (read_files local)) target in
  let target := fold_left record_invoked_skill (delta (invoked_skills baseline) (invoked_skills local)) target in
  let target := fold_left append_work_log (delta (work_log baseline) (work_log local)) target in
  let target := fold_left record_active_artifact (delta (active_artifacts baseline) (active_artifacts local)) target in
  {| read_files := read_files target; invoked_skills := invoked_skills target;
     user_goal := if bool_decide (user_goal local = user_goal baseline)
                  then user_goal target else user_goal local;
     work_log := work_log target; active_artifacts := active_artifacts target;
     extra :=
       map_imap (fun key value => if bool_decide (extra baseline !! key = Some value)
                                  then None else Some value) (extra local)
       ∪ filter (fun kv : str * Value => ~ (is_Some (extra baseline !! fst kv) /\ extra local !! fst kv = None)) (extra target) |}.

Definition batch_conflict (rt : ToolRuntime) (cwd : str) (uses : list ToolUse) : bool :=
  let keys := omap (fun u => tool ← get_tool rt (name u);
                             exclusive_execution_key tool (input u) cwd) uses in
  negb (bool_decide (NoDup keys)).

(** Sequential dispatch with shared metadata. *)
Fixpoint dispatch_in_order (rt : ToolRuntime) (views : nat -> view) (cwd : str) (i : nat)
    (uses : list ToolUse) (m : ToolMetadata) : list ToolResult * ToolMetadata * list effect :=
  match uses with
  | [] => ([], m, [])
  | u :: rest =>
      let '(r, m, es) := dispatch rt (views i) cwd u m in
      let '(rs, m, es') := dispatch_in_order rt views cwd (S i) rest m in
      (r :: rs, m, es ++ es')
  end.

(** Concurrent dispatch: each call works on its own copy of the metadata; the
    changes are merged in the order of the calls. *)
Definition dispatch_concurrently (rt : ToolRuntime) (views : nat -> view) (cwd : str)
    (uses : list ToolUse) (m : ToolMetadata) : list ToolResult * ToolMetadata * list effect :=
  let completed := imap (fun i u => dispatch rt (views i) cwd u m) uses in
  (fst <$> (fst <$> completed),
   fold_left (fun target local => merge_metadata_delta m local target)
     (snd <$> (fst <$> completed)) m,
   completed ≫= snd).

Definition dispatch_many (rt : ToolRuntime) (views : nat -> view) (cwd : str)
    (uses : list ToolUse) (m : ToolMetadata) : list ToolResult * ToolMetadata * list effect :=
  match uses with
  | [] => ([], m, [])
  | [u] => dispatch_in_order rt views cwd 0 uses m
  | _ => if batch_conflict rt cwd uses then dispatch_in_order rt views cwd 0 uses m
         else dispatch_concurrently rt views cwd uses m
  end.
End Runtime.
#[global] Arguments finish : simpl never.
#[global] Arguments apply_output_budget : simpl never.

Lemma forallb_andb {A} (f g : A -> bool) l :
  forallb (fun x => f x && g x) l = forallb f l && forallb g l.
Proof.
  induction l as [|x l IH]; simpl; [done|]. rewrite IH.
  destruct (f x), (g x), (forallb f l); done.
Qed.

(** ** The pipeline, backwards from its effects *)

Section Pipeline.
Context {J : Json} {F : Float32} {T : Target} {U : Unicode}.
Context {P : Platform} {E : Environment} {FS : FileSystem}.
Implicit Types (rt : ToolRuntime) (v : view) (u : ToolUse) (m : ToolMetadata) (tool : Tool).

Definition effects_of (d : dispatched) : list effect := snd d.
Definition result_of (d : dispatched) : ToolResult := fst (fst d).

#[local] Arguments effects_of : simpl never.
#[local] Arguments result_of : simpl never.

(** Effects that touch nothing: hooks that observe, questions asked. *)
Definition harmless (e : effect) : bool :=
  match e with RanHooks _ _ | Asked _ => true | Persisted _ | Executed _ _ => false end.

Definition did_ask (e : effect) : bool := match e with Asked _ => true | _ => false end.

Lemma finish_effects rt u m es r : effects_of (finish rt u m es r) = es.
Proof. unfold finish. by destruct (apply_output_budget _ _ _ _). Qed.

Lemma finish_error rt u m es r : tool_is_error (result_of (finish rt u m es r)) = tool_is_error r.
Proof. done. Qed.

Lemma run_observed_harmless rt event p : forallb harmless (run_observed rt event p) = true.
Proof. unfold run_observed. by destruct (hooks rt). Qed.

(** The permission of a use, as [dispatch] computes it. *)
Definition use_path cwd u : option str := resolve_permission_file_path (name u) cwd (input u).
Definition use_decision rt v tool cwd u : PermissionDecision :=
  decide_permission rt v tool u (use_path cwd u) (extract_permission_command (input u)).

(** The user was asked and agreed, and the query was not stopped meanwhile. *)
Definition confirmed rt v (d : PermissionDecision) : Prop :=
  requires_confirmation d = true /\ permission_prompt rt = true /\
  reply v <> Deny /\ cancelled_after_prompt v = false.

Lemma execute_step_effects rt v cwd u tool m es :
  effects_of (execute_step rt v cwd u tool m es) = es /\ cancelled_at_start v = true \/
  (exists r, effects_of (execute_step rt v cwd u tool m es) =
     es ++ [Executed (name u) (input u)] ++ run_observed rt PostToolUse (post_payload u r)) /\
  cancelled_at_start v = false.
Proof.
  unfold execute_step. destruct (cancelled_at_start v).
  - left. by rewrite finish_effects.
  - right. split; [|done]. destruct (execute_tool _ _ _ _ _) as [o m'].
    destruct (apply_output_budget _ _ _ _) as [r m'']. by exists r.
Qed.

(** What the permission step may do beyond hooks and questions. *)
Inductive permitted rt v cwd u tool : effect -> Prop :=
| may_execute :
    cancelled_at_start v = false ->
    allowed (use_decision rt v tool cwd u) = true \/ confirmed rt v (use_decision rt v tool cwd u) ->
    permitted rt v cwd u tool (Executed (name u) (input u))
| may_persist :
    reply v = AlwaysAllow -> confirmed rt v (use_decision rt v tool cwd u) ->
    allowed (use_decision rt v tool cwd u) = false ->
    permitted rt v cwd u tool (Persisted (permission_identity u))
| may_harmless e : harmless e = true -> permitted rt v cwd u tool e.

Definition all_permitted rt v cwd u tool (es : list effect) : Prop :=
  Forall (permitted rt v cwd u tool) es.

Lemma harmless_permitted rt v cwd u tool es :
  forallb harmless es = true -> all_permitted rt v cwd u tool es.
Proof.
  intros H. apply Forall_forall. intros e He. apply may_harmless.
  rewrite forallb_forall in H. apply H. by apply list_elem_of_In.
Qed.

Lemma execute_step_permitted rt v cwd u tool m es :
  allowed (use_decision rt v tool cwd u) = true \/ confirmed rt v (use_decision rt v tool cwd u) ->
  all_permitted rt v cwd u tool es ->
  all_permitted rt v cwd u tool (effects_of (execute_step rt v cwd u tool m es)).
Proof.
  intros Hd Hes. destruct (execute_step_effects rt v cwd u tool m es) as [[-> _]|[[r ->] Hc]]; [done|].
  apply Forall_app; split; [done|]. constructor; [by constructor|].
  apply harmless_permitted, run_observed_harmless.
Qed.

Lemma permission_step_permitted rt v cwd u tool m es :
  all_permitted rt v cwd u tool es ->
  all_permitted rt v cwd u tool (effects_of (permission_step rt v cwd u tool m es)).
Proof.
  intros Hes. unfold permission_step. fold (use_path cwd u). fold (use_decision rt v tool cwd u).
  destruct (allowed _) eqn:Ea; [apply execute_step_permitted; auto|].
  destruct (_ && _) eqn:Ec; [|by rewrite finish_effects].
  apply andb_true_iff in Ec as [Hrc Hp].
  match goal with |- context [es ++ ?b ++ ?c] => set (es' := es ++ b ++ c) end.
  assert (all_permitted rt v cwd u tool es') as Hes'.
  { apply Forall_app; split; [done|]. apply harmless_permitted.
    rewrite forallb_app, run_observed_harmless. done. }
  destruct (reply v) eqn:Er.
  - destruct (cancelled_after_prompt v) eqn:Ecp; [by rewrite finish_effects|].
    apply execute_step_permitted; [|done]. right. split; [done|]. split; [done|]. by rewrite Er.
  - destruct (cancelled_after_prompt v) eqn:Ecp; [by rewrite finish_effects|].
    assert (confirmed rt v (use_decision rt v tool cwd u)) as Hconf.
    { split; [done|]. split; [done|]. by rewrite Er. }
    apply execute_step_permitted; [by right|]. apply Forall_app; split; [done|].
    constructor; [|constructor]. by constructor.
  - by rewrite finish_effects.
Qed.

(** The guards passed before the permission step. *)
Definition passed_guards rt v u tool : Prop :=
  cancelled_before v = false /\ is_tool_enabled (disabled_set v) (name u) = true /\
  any_blocked (pre_hook_results rt v u) = false /\ get_tool rt (name u) = Some tool /\
  is_available tool (at_time v) = true.

Lemma dispatch_cases rt v cwd u m :
  forallb harmless (effects_of (dispatch rt v cwd u m)) = true /\
    tool_is_error (result_of (dispatch rt v cwd u m)) = true /\
    forallb (fun e => negb (did_ask e)) (effects_of (dispatch rt v cwd u m)) = true \/
  exists tool, passed_guards rt v u tool /\
    dispatch rt v cwd u m =
    permission_step rt v cwd u tool m (run_observed rt PreToolUse (pre_payload u)).
Proof.
  unfold dispatch, passed_guards.
  assert (forallb (fun e => negb (did_ask e)) (run_observed rt PreToolUse (pre_payload u)) = true)
    as Hna by (unfold run_observed; by destruct (hooks rt)).
  destruct (cancelled_before v); [left; by rewrite finish_effects|].
  destruct (is_tool_enabled _ _); cbn [negb]; [|left; by rewrite finish_effects].
  destruct (any_blocked _); [left; by rewrite finish_effects, run_observed_harmless|].
  destruct (get_tool rt (name u)) as [tool|];
    [|left; by rewrite finish_effects, run_observed_harmless].
  destruct (is_available tool _) eqn:Ea; cbn [negb];
    [|left; by rewrite finish_effects, run_observed_harmless].
  right. by exists tool.
Qed.

Lemma dispatch_permitted rt v cwd u m e :
  e ∈ effects_of (dispatch rt v cwd u m) -> harmless e = false ->
  exists tool, passed_guards rt v u tool /\ permitted rt v cwd u tool e.
Proof.
  intros He Hh. destruct (dispatch_cases rt v cwd u m) as [[H _]|(tool & Hg & Hd)].
  - rewrite forallb_forall in H. apply list_elem_of_In in He. specialize (H e He). congruence.
  - exists tool. split; [done|]. rewrite Hd in He.
    assert (all_permitted rt v cwd u tool (run_observed rt PreToolUse (pre_payload u))) as Hp
      by apply harmless_permitted, run_observed_harmless.
    apply (permission_step_permitted rt v cwd u tool m) in Hp.
    unfold all_permitted in Hp. rewrite Forall_forall in Hp. by apply Hp.
Qed.

(** A sensitive path decides alone. *)
Lemma sensitive_use_denied rt v tool cwd u p pattern :
  use_path cwd u = Some p -> sensitive_path_pattern p = Some pattern ->
  allowed (use_decision rt v tool cwd u) = false /\
  requires_confirmation (use_decision rt v tool cwd u) = false.
Proof. intros Hp Hs. unfold use_decision, decide_permission. by rewrite Hp, Hs. Qed.

(** *** Batches *)

Lemma dispatch_in_order_length rt views cwd i uses m :
  length (fst (fst (dispatch_in_order rt views cwd i uses m))) = length uses.
Proof.
  revert i m; induction uses as [|u uses IH]; intros i m; simpl; [done|].
  destruct (dispatch _ _ _ _ _) as [[r m1] es].
  specialize (IH (S i) m1). destruct (dispatch_in_order _ _ _ _ _ _) as [[rs m2] es'].
  simpl in *. by rewrite IH.
Qed.

Lemma dispatch_many_length rt views cwd uses m :
  length (fst (fst (dispatch_many rt views cwd uses m))) = length uses.
Proof.
  destruct uses as [|u [|u' uses]]; [done | apply dispatch_in_order_length |].
  unfold dispatch_many. destruct (batch_conflict _ _ _); [apply dispatch_in_order_length|].
  unfold dispatch_concurrently. cbn [fst]. by rewrite !length_fmap, length_imap.
Qed.

(** The [i]-th result belongs to the [i]-th call: it is what dispatching that
    call gives, on some metadata. *)
Lemma dispatch_in_order_lookup rt views cwd j uses m i r :
  fst (fst (dispatch_in_order rt views cwd j uses m)) !! i = Some r ->
  exists u m', uses !! i = Some u /\ r = result_of (dispatch rt (views (j + i)) cwd u m').
Proof.
  revert i j m; induction uses as [|u uses IH]; intros i j m; simpl; [done|].
  destruct (dispatch rt (views j) cwd u m) as [[r1 m1] es] eqn:Ed.
  specialize (IH (pred i) (S j) m1). destruct (dispatch_in_order _ _ _ _ _ _) as [[rs m2] es'].
  destruct i as [|i]; simpl in *.
  - intros [= <-]. exists u, m. rewrite Nat.add_0_r, Ed. done.
  - intros Hl. destruct (IH Hl) as (u' & m' & ? & ->). exists u', m'. by rewrite Nat.add_succ_r.
Qed.

Lemma dispatch_many_lookup rt views cwd uses m i r :
  fst (fst (dispatch_many rt views cwd uses m)) !! i = Some r ->
  exists u m', uses !! i = Some u /\ r = result_of (dispatch rt (views i) cwd u m').
Proof.
  destruct uses as [|u [|u' uses]]; [done | apply (dispatch_in_order_lookup rt views cwd 0) |].
  unfold dispatch_many. destruct (batch_conflict _ _ _);
    [apply (dispatch_in_order_lookup rt views cwd 0)|].
  unfold dispatch_concurrently. cbn [fst]. rewrite !list_lookup_fmap, list_lookup_imap.
  destruct ((u :: u' :: uses) !! i) as [w|] eqn:Ew; [|done]. intros [= <-]. by exists w, m.
Qed.
End Pipeline.

(** ** Paths *)

Definition plain_name (n : str) : Prop :=
  n <> [] /\ n <> current_dir /\ n <> parent_dir /\ (slash ∉ n).

Lemma split_char_go_clean c cur s :
  (c ∉ cur) -> Forall (fun n => c ∉ n) (split_char_go c cur s).
Proof.
  revert cur; induction s as [|x s IH]; intros cur Hc; simpl.
  - constructor; [by rewrite elem_of_reverse | constructor].
  - destruct (x =? c)%N eqn:E.
    + constructor; [by rewrite elem_of_reverse|]. apply IH. set_solver.
    + apply N.eqb_neq in E. apply IH. set_solver.
Qed.

Lemma components_clean path :
  Forall (fun n => n <> [] /\ n <> current_dir /\ (slash ∉ n)) (components path).
Proof.
  unfold components, split_char. pose proof (split_char_go_clean slash [] path) as H.
  apply Forall_forall. intros n Hn. apply list_elem_of_In, filter_In in Hn as [Hin Hn].
  bool_to_prop. repeat split; [done | done |]. apply list_elem_of_In in Hin.
  rewrite Forall_forall in H. apply H; [set_solver | done].
Qed.

Lemma resolve_names_plain path : Forall plain_name (resolve_names path).
Proof.
  unfold resolve_names. apply Forall_reverse. pose proof (components_clean path) as Hc.
  assert (forall cs acc, Forall (fun n => n <> [] /\ n <> current_dir /\ (slash ∉ n)) cs ->
    Forall plain_name acc -> Forall plain_name (fold_left resolve_component cs acc)) as H;
    [|by apply H].
  clear. induction cs as [|c cs IH]; intros acc Hcs Hacc; simpl; [done|].
  inversion Hcs as [|? ? (? & ? & ?) Hrest]; subst. apply IH; [done|]. unfold resolve_component.
  destruct (str_eqb c parent_dir) eqn:E; bool_to_prop.
  - destruct Hacc; [constructor | done].
  - by constructor.
Qed.

(** Splitting a joined list of names gives the names back. *)
Lemma split_char_go_app c cur n rest :
  (c ∉ n) -> split_char_go c cur (n ++ c :: rest) = (reverse cur ++ n) :: split_char_go c [] rest.
Proof.
  revert cur; induction n as [|x n IH]; intros cur Hn; simpl.
  - rewrite N.eqb_refl. by rewrite app_nil_r.
  - assert ((x =? c)%N = false) as -> by (apply N.eqb_neq; set_solver).
    rewrite IH by set_solver. by rewrite reverse_cons, <- app_assoc.
Qed.

Lemma split_char_go_last c cur n :
  (c ∉ n) -> split_char_go c cur n = [reverse cur ++ n].
Proof.
  revert cur; induction n as [|x n IH]; intros cur Hn; simpl; [by rewrite app_nil_r|].
  assert ((x =? c)%N = false) as -> by (apply N.eqb_neq; set_solver).
  rewrite IH by set_solver. by rewrite reverse_cons, <- app_assoc.
Qed.

Lemma filter_names_plain names :
  Forall plain_name names ->
  List.filter (fun n => negb (is_empty n) && negb (str_eqb n current_dir)) names = names.
Proof.
  induction 1 as [|n names (H1 & H2 & _) _ IH]; simpl; [done|].
  rewrite IH. destruct n; [done|]. simpl.
  assert (str_eqb (n :: n0) current_dir = false) as -> by by apply bool_decide_eq_false. done.
Qed.

Lemma split_join names :
  names <> [] -> Forall plain_name names -> split_char slash (join [slash] names) = names.
Proof.
  unfold split_char. induction names as [|n names IH]; [done|]. intros _ Hp.
  inversion Hp as [|? ? (_ & _ & _ & Hs) Hrest]; subst. destruct names as [|n' names].
  - simpl. by rewrite split_char_go_last.
  - change (join [slash] (n :: n' :: names)) with (n ++ slash :: join [slash] (n' :: names)).
    rewrite split_char_go_app by done. cbn [reverse app]. f_equal. by apply IH.
Qed.

Lemma components_render absolute names :
  Forall plain_name names -> components (render_path absolute names) = names.
Proof.
  intros Hp. unfold components, render_path.
  destruct (decide (names = [])) as [->|Hne]; [by destruct absolute|].
  destruct absolute; cbn [app].
  - unfold split_char. cbn [split_char_go]. rewrite N.eqb_refl. cbn [List.filter reverse].
    fold (split_char slash (join [slash] names)). rewrite split_join by done. simpl.
    by apply filter_names_plain.
  - rewrite split_join by done. by apply filter_names_plain.
Qed.

Lemma fold_resolve_plain names acc :
  Forall plain_name names -> fold_left resolve_component names acc = reverse names ++ acc.
Proof.
  intros H. revert acc. induction H as [|n names (_ & _ & Hp & _) _ IH]; intros acc; simpl; [done|].
  unfold resolve_component at 2.
  assert (str_eqb n parent_dir = false) as -> by by apply bool_decide_eq_false.
  rewrite IH, reverse_cons, <- app_assoc. done.
Qed.

Lemma resolve_names_render absolute names :
  Forall plain_name names -> resolve_names (render_path absolute names) = names.
Proof.
  intros H. unfold resolve_names. rewrite components_render, fold_resolve_plain by done.
  by rewrite app_nil_r, reverse_involutive.
Qed.

Lemma is_absolute_render absolute names :
  Forall plain_name names -> is_absolute (render_path absolute names) = absolute.
Proof.
  intros H. unfold is_absolute, render_path. destruct absolute; [done|]. cbn [app].
  destruct H as [|n names (Hn & _ & _ & Hs) _]; [done|].
  destruct n as [|c n]; [done|].
  assert (exists r, join [slash] ((c :: n) :: names) = c :: r) as [r ->]
    by (destruct names; eexists; reflexivity).
  simpl. rewrite andb_true_r. apply N.eqb_neq. set_solver.
Qed.

(** ** Merging *)

Lemma position_of_head value l : position_of value (value :: l) = Some 0.
Proof. simpl. by rewrite str_eqb_refl. Qed.

Lemma delta_appended baseline ys : delta baseline (baseline ++ ys) = ys.
Proof.
  induction baseline as [|b baseline IH]; [by destruct ys|].
  cbn [app delta]. rewrite position_of_head.
  change (drop 1 (b :: baseline)) with baseline.
  destruct (is_empty baseline) eqn:E; bool_to_prop; [by rewrite E | exact IH].
Qed.

Lemma delta_same baseline : delta baseline baseline = [].
Proof. pose proof (delta_appended baseline []) as H. by rewrite app_nil_r in H. Qed.

Section MetadataFolds.
Context {J : Json}.

Lemma read_files_fold (f : ToolMetadata -> str -> ToolMetadata) xs m :
  (forall m x, read_files (f m x) = read_files m) -> read_files (fold_left f xs m) = read_files m.
Proof. intros H. revert m; induction xs as [|x xs IH]; intros m; simpl; [done|]. by rewrite IH, H. Qed.

Lemma read_files_fold_record ys m :
  read_files (fold_left record_read_file ys m) = fold_left push_capped_unique ys (read_files m).
Proof. revert m; induction ys as [|y ys IH]; intros m; simpl; [done|]. by rewrite IH. Qed.
End MetadataFolds.

(** ** The registry *)

Section Registry.
Context {J : Json} {F : Float32} {T : Target} {U : Unicode} {P : Platform} {E : Environment}.
Implicit Types (rt : ToolRuntime) (tool : Tool).

(** Every indexed name is the name of the tool at its position, and every
    position is indexed by the name of its tool. *)
Definition runtime_ok rt : Prop :=
  forall n i, index rt !! n = Some i <->
    exists tool, runtime_tools rt !! i = Some tool /\ def_name (definition tool) = n.

Lemma runtime_new_ok e : runtime_ok (runtime_new e).
Proof. intros n i. simpl. rewrite lookup_empty. split; [done|]. by intros (? & ? & _). Qed.

Lemma runtime_ok_insert rt tool :
  runtime_ok rt -> runtime_ok (register_tool rt tool).
Proof.
  unfold runtime_ok. intros Hok n i. unfold register_tool.
  destruct (index rt !! def_name (definition tool)) as [pos|] eqn:Ei; cbn [index runtime_tools].
  - rewrite Hok. apply Hok in Ei as (old & Hold & Hname).
    destruct (decide (i = pos)) as [->|Hne].
    + rewrite list_lookup_insert_eq by by eapply lookup_lt_Some.
      split.
      * intros (t & Ht & Hn). exists tool. split; [done|]. congruence.
      * intros (t & [= <-] & Hn). exists old. split; [done|]. congruence.
    + by rewrite list_lookup_insert_ne.
  - destruct (decide (n = def_name (definition tool))) as [->|Hn].
    + rewrite lookup_insert_eq. split.
      * intros [= <-]. exists tool. split; [|done]. by rewrite lookup_app_r, Nat.sub_diag.
      * intros (t & Ht & Hname). f_equal. apply lookup_app_Some in Ht as [Ht|[Hle Ht]].
        -- exfalso. assert (index rt !! def_name (definition tool) = Some i) by (apply Hok; eauto).
           congruence.
        -- apply list_lookup_singleton_Some in Ht as [? _]. lia.
    + rewrite lookup_insert_ne by done. rewrite Hok. split; intros (t & Ht & Hname).
      * exists t. split; [|done]. by apply lookup_app_l_Some.
      * exists t. split; [|done]. apply lookup_app_Some in Ht as [Ht|[Hle Ht]]; [done|].
        apply list_lookup_singleton_Some in Ht as [_ <-]. congruence.
Qed.

Lemma get_tool_registered rt tool n :
  runtime_ok rt ->
  get_tool (register_tool rt tool) n =
  if bool_decide (n = def_name (definition tool)) then Some tool else get_tool rt n.
Proof.
  intros Hok. unfold get_tool, register_tool.
  destruct (index rt !! def_name (definition tool)) as [pos|] eqn:Ei; cbn [index runtime_tools].
  - apply Hok in Ei as Hpos. destruct Hpos as (old & Hold & Hname).
    case_bool_decide as Hn; [subst n; rewrite Ei; simpl|].
    + by rewrite list_lookup_insert_eq by by eapply lookup_lt_Some.
    + destruct (index rt !! n) as [i|] eqn:En; [|done]. simpl.
      rewrite list_lookup_insert_ne; [done|]. intros ->. apply Hok in En as (t & Ht & Htn). congruence.
  - case_bool_decide as Hn; [subst n; rewrite lookup_insert_eq; simpl|].
    + by rewrite lookup_app_r, Nat.sub_diag.
    + rewrite lookup_insert_ne by done. destruct (index rt !! n) as [i|] eqn:En; [|done]. simpl.
      apply Hok in En as (t & Ht & _). rewrite Ht. by apply lookup_app_l_Some.
Qed.
End Registry.

(** ** A small concrete runtime *)

Definition linux_target : Target := {| windows := false |}.
Definition native : Platform := {| wasm := false |}.
Definition empty_environment : Environment := {| env_var _ := None |}.
Definition alice : FileSystem := {| home_dir := Some (lit "/home/alice"); canonicalize _ := None |}.

Section Demo.
#[local] Existing Instances small_json whole_seconds linux_target ascii_tables native
  empty_environment alice.

Definition demo_tool : Tool :=
  {| definition := {| def_name := lit "write_file"; def_description := []; input_schema := SNull |};
     is_available _ := true; is_read_only _ := false; exclusive_execution_key _ _ := None;
     execute_tool _ _ _ m := (Ok (tool_ok (lit "written")), m) |}.

Definition demo_engine : PermissionEngine :=
  engine_new Default {| allowed_tools := []; denied_tools := []; denied_commands := [];
                        path_rules := [] |}.

Definition demo_runtime : ToolRuntime :=
  let rt := register_tool (runtime_new demo_engine) demo_tool in
  {| runtime_tools := runtime_tools rt; index := index rt; permissions := permissions rt;
     permission_prompt := true; hooks := None; artifact_sink := None |}.

Definition demo_use (path : string) : ToolUse :=
  {| id := lit "t1"; name := lit "write_file"; input := SObject [(lit "file_path", lit path)] |}.

Definition demo_view (r : PermissionReply) : view :=
  {| at_time := 0; cancelled_before := false; disabled_set := ∅; pre_run := 0;
     engine_reads := reads_of demo_engine; reply := r; cancelled_after_prompt := false;
     cancelled_at_start := false |}.
End Demo.

(** ** Properties *)

(** The executions among the effects of a dispatch. *)
Definition executions {J : Json} (es : list effect) : list effect :=
  List.filter (fun e => match e with Executed _ _ => true | _ => false end) es.

(** Everything that has to allow the execution of [tool]. *)
Definition authorized {J : Json} {F : Float32} {T : Target} {U : Unicode} {P : Platform} {E : Environment}
    {FS : FileSystem} rt v cwd u tool : Prop :=
  cancelled_before v = false /\ (name u ∉ disabled_set v) /\ any_blocked (pre_hook_results rt v u) = false /\
  get_tool rt (name u) = Some tool /\ is_available tool (at_time v) = true /\
  (allowed (use_decision rt v tool cwd u) = true \/ confirmed rt v (use_decision rt v tool cwd u)) /\
  cancelled_at_start v = false.

(** The result of an execution, a failure included. *)
Definition outcome_of {J : Json} (u : ToolUse) (outcome : result ToolResult ToolError) : ToolResult :=
  match outcome with
  | Ok r => r
  | Err error => tool_err (lit "Tool " ++ name u ++ lit " failed: " ++ agent_error_to_string (ToolErr error))
  end.

Lemma executions_harmless {J : Json} es : forallb harmless es = true -> executions es = [].
Proof.
  unfold executions. induction es as [|e es IH]; [done|]. cbn. intros [He Hes]%andb_true_iff. rewrite (IH Hes). by destruct e.
Qed.

Lemma executed_app {J : Json} es1 es2 : executions (es1 ++ es2) = executions es1 ++ executions es2.
Proof. apply List.filter_app. Qed.

(** Nothing ran, and the model is told of an error. *)
Definition refused_use {J : Json} (d : dispatched) : Prop := executions (effects_of d) = [] /\ tool_is_error (result_of d) = true.

(** The tool ran once, on the input and with the state of the call. *)
Definition ran_once {J : Json} {F : Float32} {T : Target} {U : Unicode} {P : Platform} {E : Environment}
    {FS : FileSystem} rt v cwd u tool m (d : dispatched) : Prop :=
  executions (effects_of d) = [Executed (name u) (input u)] /\
  fst d = (let '(outcome, m) := execute_tool tool (at_time v) (input u) cwd m in
           apply_output_budget rt u (outcome_of u outcome) m).

Section Once.
Context {J : Json} {F : Float32} {T : Target} {U : Unicode} {P : Platform} {E : Environment} {FS : FileSystem}.
Context (rt : ToolRuntime) (v : view) (cwd : str) (u : ToolUse) (m : ToolMetadata).

Lemma finish_refused es r : executions es = [] -> tool_is_error r = true -> refused_use (finish rt u m es r).
Proof using. intros He Hr. unfold refused_use. by rewrite finish_effects, finish_error. Qed.

Lemma execute_step_runs tool es :
  executions es = [] ->
  if cancelled_at_start v then refused_use (execute_step rt v cwd u tool m es)
  else ran_once rt v cwd u tool m (execute_step rt v cwd u tool m es).
Proof using.
  intros He. unfold execute_step. destruct (cancelled_at_start v); [by apply finish_refused|].
  unfold ran_once, outcome_of. destruct (execute_tool _ _ _ _ _) as [o m'].
  destruct (apply_output_budget _ _ _ _) as [r m'']. unfold effects_of. cbn [fst snd]. split; [|done].
  rewrite !executed_app, He, (executions_harmless (run_observed _ _ _)) by apply run_observed_harmless. done.
Qed.

Lemma permission_step_runs tool es :
  executions es = [] ->
  let d := permission_step rt v cwd u tool m es in
  (allowed (use_decision rt v tool cwd u) = true \/ confirmed rt v (use_decision rt v tool cwd u)) /\
    (if cancelled_at_start v then refused_use d else ran_once rt v cwd u tool m d) \/
  ~ (allowed (use_decision rt v tool cwd u) = true \/ confirmed rt v (use_decision rt v tool cwd u)) /\ refused_use d.
Proof using.
  intros He. unfold permission_step, confirmed. fold (use_path cwd u). fold (use_decision rt v tool cwd u). cbv zeta.
  destruct (allowed _) eqn:Ea; [left; split; [by left|by apply execute_step_runs]|].
  destruct (requires_confirmation _); cbn [andb]; [|right; split; [naive_solver|by apply finish_refused]].
  destruct (permission_prompt rt); [|right; split; [naive_solver|by apply finish_refused]].
  match goal with |- context [es ++ ?b ++ ?c] => set (es' := es ++ b ++ c) end.
  assert (executions es' = []) as He'.
  { unfold es'. rewrite !executed_app, He, (executions_harmless (run_observed _ _ _)) by apply run_observed_harmless. done. }
  destruct (reply v); [| |right; split; [naive_solver|by apply finish_refused]];
    (destruct (cancelled_after_prompt v); [right; split; [naive_solver|by apply finish_refused]|]);
    left; (split; [naive_solver|]); apply execute_step_runs; [done|].
  by rewrite executed_app, He'.
Qed.
End Once.

(** C14: a tool runs exactly when everything allows it, and then once.
    Whatever happens concurrently, a dispatch executes the requested tool exactly
    once, on the requested input, and returns what that execution made of the
    state, when the query was not stopped at any of the checks, the tool is not
    disabled, no hook vetoed it, it is registered and available, and the
    permission engine either allowed it or asked for a confirmation that the
    user gave.  In every other case nothing is executed and the result is an
    error. *)
Theorem dispatch_only_executes_authorized {J : Json} {F : Float32} {T : Target} {U : Unicode}
    {P : Platform} {E : Environment} {FS : FileSystem} rt v cwd u m :
  (exists tool, authorized rt v cwd u tool /\ ran_once rt v cwd u tool m (dispatch rt v cwd u m)) \/
  (forall tool, ~ authorized rt v cwd u tool) /\ refused_use (dispatch rt v cwd u m).
Proof.
  unfold dispatch, authorized.
  assert (executions (run_observed rt PreToolUse (pre_payload u)) = []) as Hpre
    by apply executions_harmless, run_observed_harmless.
  destruct (cancelled_before v); [right; split; [naive_solver|by apply finish_refused]|].
  destruct (is_tool_enabled _ _) eqn:Hen; cbn [negb]; unfold is_tool_enabled in Hen.
  2: { apply negb_false_iff, bool_decide_eq_true in Hen. right. split; [|by apply finish_refused]. naive_solver. }
  apply negb_true_iff, bool_decide_eq_false in Hen.
  destruct (any_blocked _); [right; split; [naive_solver|by apply finish_refused]|].
  destruct (get_tool rt (name u)) as [tool|]; [|right; split; [naive_solver|by apply finish_refused]].
  destruct (is_available tool _) eqn:Hav; cbn [negb].
  2: { right. split; [|by apply finish_refused]. intros t (_ & _ & _ & [= <-] & Ha & _). congruence. }
  destruct (permission_step_runs rt v cwd u m tool _ Hpre) as [[Hd Hr]|[Hd Hr]].
  2: { right. split; [|done]. by intros t (_ & _ & _ & [= <-] & _ & Ha & _). }
  destruct (cancelled_at_start v); [right; split; [by intros t (_ & _ & _ & _ & _ & _ & [=])|done]|]. left. by exists tool.
Qed.

Section WitnessRun.
#[local] Existing Instances small_json whole_seconds linux_target ascii_tables native
  empty_environment alice.

(** The user said yes, and the file is written once; he said no, and it is not. *)
Lemma dispatch_only_executes_authorized_witness :
  executions (effects_of (dispatch demo_runtime (demo_view Allow) (lit "/work") (demo_use "a.txt") metadata_default))
    = [Executed (lit "write_file") (input (demo_use "a.txt"))] /\
  executions (effects_of (dispatch demo_runtime (demo_view Deny) (lit "/work") (demo_use "a.txt") metadata_default)) = [].
Proof.
  split.
  - destruct (dispatch_only_executes_authorized demo_runtime (demo_view Allow) (lit "/work") (demo_use "a.txt") metadata_default)
      as [(tool & _ & H & _)|(_ & _ & H)]; [exact H|vm_compute in H; discriminate H].
  - destruct (dispatch_only_executes_authorized demo_runtime (demo_view Deny) (lit "/work") (demo_use "a.txt") metadata_default)
      as [(tool & Ha & _)|(_ & H & _)]; [|exact H].
    destruct Ha as (_ & _ & _ & Ht & _ & [Ha|(_ & _ & Hd & _)] & _); [|destruct (Hd eq_refl)].
    vm_compute in Ht. injection Ht as <-. vm_compute in Ha. discriminate Ha.
Defined.
End WitnessRun.

(** Credential paths are out of reach of the user's own consent: when
    the path of a call matches a built-in credential pattern, the dispatch
    fails without executing, without persisting a permission and without even
    asking, in every mode and under every configuration. *)
Theorem credential_paths_never_ask {J : Json} {F : Float32} {T : Target} {U : Unicode}
    {P : Platform} {E : Environment} {FS : FileSystem} rt v cwd u m path pattern :
  use_path cwd u = Some path -> sensitive_path_pattern path = Some pattern ->
  forallb (fun e => harmless e && negb (did_ask e)) (effects_of (dispatch rt v cwd u m)) = true /\
  tool_is_error (result_of (dispatch rt v cwd u m)) = true.
Proof.
  intros Hp Hs. rewrite forallb_andb.
  destruct (dispatch_cases rt v cwd u m) as [(H1 & H2 & H3)|(tool & _ & ->)].
  { by rewrite H1, H3. }
  destruct (sensitive_use_denied rt v tool cwd u path pattern Hp Hs) as [Ha Hc].
  unfold permission_step. fold (use_path cwd u). fold (use_decision rt v tool cwd u).
  rewrite Ha, Hc. cbn [andb]. rewrite finish_effects, finish_error, run_observed_harmless.
  split; [|done]. unfold run_observed. by destruct (hooks rt).
Qed.

Section WitnessCredential.
#[local] Existing Instances small_json whole_seconds linux_target ascii_tables native
  empty_environment alice.

Lemma credential_paths_never_ask_witness :
  tool_is_error (result_of (dispatch demo_runtime (demo_view AlwaysAllow) (lit "/work")
    (demo_use "~/.ssh/id_rsa") metadata_default)) = true.
Proof.
  apply (credential_paths_never_ask demo_runtime (demo_view AlwaysAllow) (lit "/work")
    (demo_use "~/.ssh/id_rsa") metadata_default (lit "/home/alice/.ssh/id_rsa") (lit "*/.ssh/*"));
    vm_compute; reflexivity.
Defined.
End WitnessCredential.

(** Stop is final: once a dispatch sees the query cancelled it starts
    nothing.  Cancelled at the outset, it has no effect at all; cancelled
    while the user was being asked, an approval that still arrives neither
    executes the tool nor enters the session allow list; cancelled before
    execution, the tool does not run. *)
Theorem stop_is_final {J : Json} {F : Float32} {T : Target} {U : Unicode}
    {P : Platform} {E : Environment} {FS : FileSystem} rt v cwd u m :
  (cancelled_before v = true -> effects_of (dispatch rt v cwd u m) = []) /\
  (cancelled_after_prompt v = true -> forall e, e ∈ effects_of (dispatch rt v cwd u m) ->
     harmless e = true \/
     exists tool, get_tool rt (name u) = Some tool /\ e = Executed (name u) (input u) /\
       allowed (use_decision rt v tool cwd u) = true) /\
  (cancelled_at_start v = true -> forall called i,
     Executed called i ∉ effects_of (dispatch rt v cwd u m)).
Proof.
  split; [|split].
  - intros Hc. unfold dispatch. rewrite Hc. apply finish_effects.
  - intros Hc e He. destruct (harmless e) eqn:Eh; [by left|]. right.
    apply dispatch_permitted in He as (tool & (_ & _ & _ & Hg & _) & Hp); [|done].
    destruct Hp as [_ [Ha|(_ & _ & _ & Hc')]|_ (_ & _ & _ & Hc') _|e He]; try congruence. eauto.
  - intros Hc called i He. apply dispatch_permitted in He as (tool & _ & Hp); [|done].
    inversion Hp; congruence || done.
Qed.

(** A session permission is granted to the identity that was judged:
    when a dispatch persists a permission, the user had answered "always" to a
    question about this very call, the name stored is the one the engine
    evaluated (a background run is stored as a shell command), and the query
    was not stopped in between. *)
Theorem persisted_identity_was_confirmed {J : Json} {F : Float32} {T : Target} {U : Unicode}
    {P : Platform} {E : Environment} {FS : FileSystem} rt v cwd u m identity :
  Persisted identity ∈ effects_of (dispatch rt v cwd u m) ->
  identity = permission_identity u /\ reply v = AlwaysAllow /\ permission_prompt rt = true /\
  cancelled_after_prompt v = false /\
  exists tool, get_tool rt (name u) = Some tool /\
    requires_confirmation (use_decision rt v tool cwd u) = true.
Proof.
  intros He. apply dispatch_permitted in He as (tool & (_ & _ & _ & Hg & _) & Hp); [|done].
  inversion Hp as [|Hr (H1 & H2 & _ & H4) Ha Eq|? Hh Eq]; [subst|by subst]. eauto 8.
Qed.

Section WitnessPersist.
#[local] Existing Instances small_json whole_seconds linux_target ascii_tables native
  empty_environment alice.

Lemma persisted_identity_was_confirmed_witness :
  reply (demo_view AlwaysAllow) = AlwaysAllow /\ lit "write_file" = permission_identity (demo_use "a.txt").
Proof.
  split; [reflexivity|].
  apply (persisted_identity_was_confirmed demo_runtime (demo_view AlwaysAllow) (lit "/work")
    (demo_use "a.txt") metadata_default (lit "write_file")).
  apply list_elem_of_In. vm_compute. tauto.
Defined.
End WitnessPersist.

(** A batch is answered in full and in order: whether it runs one by
    one or concurrently, [dispatch_many] returns exactly one result per call,
    and the result at a position is what dispatching the call at that position
    gives. *)
Theorem dispatch_many_answers_in_order {J : Json} {F : Float32} {T : Target} {U : Unicode}
    {P : Platform} {E : Environment} {FS : FileSystem} rt views cwd uses m :
  let results := fst (fst (dispatch_many rt views cwd uses m)) in
  length results = length uses /\
  forall i r, results !! i = Some r ->
    exists u m', uses !! i = Some u /\ r = result_of (dispatch rt (views i) cwd u m').
Proof. split; [apply dispatch_many_length | apply dispatch_many_lookup]. Qed.

(** The path that permissions are judged on is lexically canonical:
    its components are never empty, [.] or [..], so no spelling can climb out
    of a judged directory; an absolute path stays absolute; resolving again
    changes nothing. *)
Theorem lexical_resolve_canonical path :
  let resolved := lexical_resolve_path path in
  components resolved = resolve_names path /\ Forall plain_name (components resolved) /\
  is_absolute resolved = is_absolute path /\ lexical_resolve_path resolved = resolved.
Proof.
  cbv zeta. unfold lexical_resolve_path. pose proof (resolve_names_plain path) as H.
  rewrite components_render, is_absolute_render, resolve_names_render by done. done.
Qed.

(** Concurrent tools do not lose each other's metadata: a call that
    changed nothing merges to nothing, and what a call appended to its copy of
    a list is recorded in the session's list, in order, on top of what the
    other calls recorded. *)
Theorem merge_keeps_appended_entries {J : Json} baseline target local ys :
  merge_metadata_delta baseline baseline target = target /\
  (read_files local = read_files baseline ++ ys ->
   read_files (merge_metadata_delta baseline local target) =
   fold_left push_capped_unique ys (read_files target)).
Proof.
  split.
  - unfold merge_metadata_delta. rewrite !delta_same. cbn [fold_left].
    rewrite bool_decide_true by done. destruct target as [? ? ? ? ? ex]; cbn. f_equal.
    apply map_eq. intros k. rewrite lookup_union, map_lookup_imap.
    destruct (extra baseline !! k) as [x|] eqn:Eb; cbn [mbind option_bind].
    + rewrite bool_decide_true by done. rewrite option_union_left_id.
      apply option_eq. intros y. rewrite map_lookup_filter_Some. cbn [fst].
      rewrite Eb. naive_solver.
    + rewrite option_union_left_id. apply option_eq. intros y.
      rewrite map_lookup_filter_Some. cbn [fst]. rewrite Eb. split; [naive_solver|].
      intros. split; [done|]. intros [[? ?] _]. done.
  - intros Hy. unfold merge_metadata_delta. rewrite Hy, delta_appended. cbn [read_files].
    rewrite !read_files_fold by done. apply read_files_fold_record.
Qed.

Section WitnessMerge.
#[local] Existing Instance small_json.

Lemma merge_keeps_appended_entries_witness :
  read_files (merge_metadata_delta (record_read_file metadata_default (lit "a"))
    (record_read_file (record_read_file metadata_default (lit "a")) (lit "b"))
    (record_read_file (record_read_file metadata_default (lit "a")) (lit "c")))
  = [lit "a"; lit "c"; lit "b"].
Proof.
  rewrite (proj2 (merge_keeps_appended_entries (record_read_file metadata_default (lit "a"))
    (record_read_file (record_read_file metadata_default (lit "a")) (lit "c"))
    (record_read_file (record_read_file metadata_default (lit "a")) (lit "b")) [lit "b"]) eq_refl).
  vm_compute. reflexivity.
Defined.
End WitnessMerge.

(** Registration behaves like a dictionary that keeps its order: from a
    consistent registry, registering a tool makes its name resolve to it and
    leaves every other name as it was, the registry stays consistent, and a
    tool registered again under its name keeps its place among the schemas. *)
Theorem register_is_dictionary {J : Json} {F : Float32} rt tool n :
  runtime_ok rt ->
  runtime_ok (register_tool rt tool) /\
  get_tool (register_tool rt tool) n =
    (if bool_decide (n = def_name (definition tool)) then Some tool else get_tool rt n) /\
  (is_Some (get_tool rt (def_name (definition tool))) ->
   (def_name ∘ definition) <$> runtime_tools (register_tool rt tool) =
   (def_name ∘ definition) <$> runtime_tools rt).
Proof.
  intros Hok. split; [by apply runtime_ok_insert|]. split; [by apply get_tool_registered|].
  unfold get_tool, register_tool. intros [old Hold].
  destruct (index rt !! def_name (definition tool)) as [pos|] eqn:Ei; [|done]. cbn [runtime_tools].
  simpl in Hold. apply Hok in Ei as (t & Ht & Hn). rewrite Hold in Ht. injection Ht as <-.
  rewrite list_fmap_insert. apply list_insert_id. rewrite list_lookup_fmap, Hold. simpl.
  unfold compose. by rewrite Hn.
Qed.

Section WitnessRegister.
#[local] Existing Instances small_json whole_seconds linux_target ascii_tables native
  empty_environment alice.

Lemma register_is_dictionary_witness :
  get_tool (register_tool demo_runtime demo_tool) (lit "other") = get_tool demo_runtime (lit "other").
Proof.
  rewrite (proj1 (proj2 (register_is_dictionary demo_runtime demo_tool (lit "other")
    (runtime_ok_insert (runtime_new demo_engine) demo_tool (runtime_new_ok demo_engine))))).
  vm_compute. reflexivity.
Defined.
End WitnessRegister.

(** The bare [~] is not the home directory: the code strips the two
    characters [~/], which the bare tilde does not have, so the path judged
    (and the one opened) is an entry named [~] inside the home directory. *)
Theorem bare_tilde_is_not_home home :
  home <> [] -> ends_with [slash] home = false ->
  expand_tilde tilde (Some home) = home ++ [slash] ++ tilde.
Proof.
  intros Hne He. unfold expand_tilde. change (str_eqb tilde tilde || _) with true.
  cbn [trim_tilde]. unfold path_join, push_name. change (is_absolute _) with false.
  rewrite He. destruct home; done.
Qed.

Lemma bare_tilde_is_not_home_witness :
  expand_tilde tilde (Some (lit "/home/alice")) = lit "/home/alice/~".
Proof. apply (bare_tilde_is_not_home (lit "/home/alice")); [discriminate | reflexivity]. Defined.
