(* ===== verification/Kernel.v ===== *)
(** * The agent kernel ([crates/rust-agent/src/kernel/])

    The state machine of [fsm.rs] and [state.rs] and the event loop of
    [event_loop.rs], one step per iteration of the loop.

    The kernel is a state monad over the record [Kernel].  What the outside
    does is data: [arrivals] is what the idle select sees, in order (its end is
    the closed channel); [sets] tells, for each access to the shared interrupt
    flag, whether the user set it since the access before; a model stream is
    the list of its events and of the polls of the interrupt flag in between
    (its end is the closed stream).  What the kernel does to the outside is
    logged: [emitted], [sent], [hook_log], [batches]. *)

From S2P Require Import Prelude SandboxPolicy PermissionEngine Messages Compact Hooks ToolRuntime.

(** ** What the kernel relies on: the tool runtime as an interface *)

Class Dispatcher {J : Json} := {
  (** [hooks()] and its execution; [None] without an executor. *)
  hooks_execute : nat -> HookEvent -> gmap str Value -> option (list HookResult);
  (** The [n]-th batch. *)
  dispatch_batch : nat -> list ToolUse -> str -> ToolMetadata -> list ToolResult * ToolMetadata;
  schemas_at : nat -> list ToolDef;
  permission_mode_at : nat -> PermissionMode;
  dispatch_batch_length : forall n uses cwd m,
    length (fst (dispatch_batch n uses cwd m)) = length uses
}.

Section Kernel.
Context {J : Json} {F : Float32} {U : Unicode} {B : Base64} {D : Dispatcher}.

(** ** States ([state.rs], [fsm.rs]) *)

Inductive AgentState :=
| Idle
| Observing (event : AgentEvent)
| Querying (turn : N)
| ExecutingTools (tool_uses : list ToolUse) (turn : N)
| Compacting (trigger : CompactTrigger)
| Waiting
| Completed
| Failed (error : AgentError).

Inductive StateKind :=
| KIdle | KObserving | KQuerying | KExecutingTools | KCompacting | KWaiting | KCompleted | KFailed.

Definition kind (s : AgentState) : StateKind :=
  match s with
  | Idle => KIdle
  | Observing _ => KObserving
  | Querying _ => KQuerying
  | ExecutingTools _ _ => KExecutingTools
  | Compacting _ => KCompacting
  | Waiting => KWaiting
  | Completed => KCompleted
  | Failed _ => KFailed
  end.

Definition is_terminal_state (s : AgentState) : bool :=
  match s with Completed | Failed _ => true | _ => false end.

Definition is_valid_transition (from to : StateKind) : bool :=
  match from, to with
  | KIdle, (KObserving | KWaiting | KCompleted) => true
  | KObserving, (KQuerying | KIdle | KCompleted) => true
  | KQuerying, (KIdle | KExecutingTools | KCompacting | KFailed) => true
  | KExecutingTools, (KQuerying | KIdle | KFailed) => true
  | KCompacting, (KQuerying | KIdle | KFailed) => true
  | KWaiting, KIdle => true
  | _, _ => false
  end.

(** ** Events to the user interface ([stream_events.rs]) *)

Inductive StreamEvent :=
| AssistantTextDelta (text : str)
| AssistantTurnComplete (message : ConversationMessage) (usage : UsageSnapshot)
    (tool_metadata : ToolMetadata)
| ToolExecutionStarted (tool_use_id tool_name : str) (tool_input : Value)
| ToolExecutionCompleted (tool_use_id tool_name output : str) (is_error : bool)
    (metadata : Value) (tool_metadata : ToolMetadata)
| ErrorEvent (message : str) (recoverable : bool)
| Status (message : str)
| CompactProgress (phase : str) (trigger : CompactTrigger)
| Compacted (trigger : CompactTrigger) (tool_metadata : ToolMetadata).

(** ** Configuration and inputs *)

Record AgentKernelConfig := {
  cwd : str;
  max_turns : N;
  config_system_prompt : option str;
  config_model : option str;
  config_max_output_tokens : N;
  memory_provider : option (nat -> list ConversationMessage -> option str)
}.

(** What a model stream delivers to the loop that reads it. *)
Inductive stream_item := Tick | Item (event : ModelStreamEvent).

Definition StreamingModel := nat -> ModelRequest -> result (list stream_item) AgentError.

(** The same model, read without polling. *)
Definition client_of (model : StreamingModel) : ModelClient :=
  fun n r => match model n r with
             | Ok items => Ok (omap (fun i => match i with Item e => Some e | Tick => None end) items)
             | Err e => Err e
             end.

Inductive arrival := Arrives (event : AgentEvent) | TimesOut.

Record Kernel := {
  state : AgentState;
  context : ContextStore;
  compact_state : AutoCompactState;
  interrupt : bool;
  sets : list bool;
  arrivals : list arrival;
  emitted : list StreamEvent;
  sent : list ModelRequest;
  hook_log : list (HookEvent * gmap str Value);
  batches : list (list ToolUse)
}.

Definition with_state (k : Kernel) (s : AgentState) : Kernel :=
  {| state := s; context := context k; compact_state := compact_state k;
     interrupt := interrupt k; sets := sets k; arrivals := arrivals k; emitted := emitted k;
     sent := sent k; hook_log := hook_log k; batches := batches k |}.
Definition with_context (k : Kernel) (c : ContextStore) : Kernel :=
  {| state := state k; context := c; compact_state := compact_state k;
     interrupt := interrupt k; sets := sets k; arrivals := arrivals k; emitted := emitted k;
     sent := sent k; hook_log := hook_log k; batches := batches k |}.
Definition with_compact_state (k : Kernel) (s : AutoCompactState) : Kernel :=
  {| state := state k; context := context k; compact_state := s;
     interrupt := interrupt k; sets := sets k; arrivals := arrivals k; emitted := emitted k;
     sent := sent k; hook_log := hook_log k; batches := batches k |}.
Definition with_interrupt (k : Kernel) (b : bool) (rest : list bool) : Kernel :=
  {| state := state k; context := context k; compact_state := compact_state k;
     interrupt := b; sets := rest; arrivals := arrivals k; emitted := emitted k;
     sent := sent k; hook_log := hook_log k; batches := batches k |}.
Definition with_arrivals (k : Kernel) (l : list arrival) : Kernel :=
  {| state := state k; context := context k; compact_state := compact_state k;
     interrupt := interrupt k; sets := sets k; arrivals := l; emitted := emitted k;
     sent := sent k; hook_log := hook_log k; batches := batches k |}.
Definition with_emitted (k : Kernel) (l : list StreamEvent) : Kernel :=
  {| state := state k; context := context k; compact_state := compact_state k;
     interrupt := interrupt k; sets := sets k; arrivals := arrivals k; emitted := l;
     sent := sent k; hook_log := hook_log k; batches := batches k |}.
Definition with_sent (k : Kernel) (l : list ModelRequest) : Kernel :=
  {| state := state k; context := context k; compact_state := compact_state k;
     interrupt := interrupt k; sets := sets k; arrivals := arrivals k; emitted := emitted k;
     sent := l; hook_log := hook_log k; batches := batches k |}.
Definition with_hook_log (k : Kernel) (l : list (HookEvent * gmap str Value)) : Kernel :=
  {| state := state k; context := context k; compact_state := compact_state k;
     interrupt := interrupt k; sets := sets k; arrivals := arrivals k; emitted := emitted k;
     sent := sent k; hook_log := l; batches := batches k |}.
Definition with_batches (k : Kernel) (l : list (list ToolUse)) : Kernel :=
  {| state := state k; context := context k; compact_state := compact_state k;
     interrupt := interrupt k; sets := sets k; arrivals := arrivals k; emitted := emitted k;
     sent := sent k; hook_log := hook_log k; batches := l |}.

(** ** The monad *)

Definition M (A : Type) : Type := Kernel -> A * Kernel.
Definition ret {A} (a : A) : M A := fun k => (a, k).
Definition bind {A C} (m : M A) (f : A -> M C) : M C := fun k => let '(a, k') := m k in f a k'.
Definition modify (f : Kernel -> Kernel) : M unit := fun k => (tt, f k).
Definition gets {A} (f : Kernel -> A) : M A := fun k => (f k, k).

Declare Scope kernel_scope.
Delimit Scope kernel_scope with kernel.
Open Scope kernel_scope.
Notation "x <- m ;; f" := (bind m (fun x => f))
  (at level 100, m at next level, right associativity) : kernel_scope.
Notation "m ;;; f" := (bind m (fun _ : unit => f))
  (at level 100, right associativity) : kernel_scope.

Definition emit (e : StreamEvent) : M unit := modify (fun k => with_emitted k (emitted k ++ [e])).

Definition set_conversation (l : list ConversationMessage) : M unit :=
  modify (fun k => with_context k {| conversation := l; tool_metadata := tool_metadata (context k) |}).

Definition push_conversation (m : ConversationMessage) : M unit :=
  modify (fun k => with_context k {| conversation := conversation (context k) ++ [m];
                                     tool_metadata := tool_metadata (context k) |}).

(** The flag as the next access finds it. *)
Definition flag_now (k : Kernel) : bool := interrupt k || default false (head (sets k)).

(** [swap(false)] and [store(false)]. *)
Definition interrupt_requested : M bool :=
  fun k => (flag_now k, with_interrupt k false (tl (sets k))).

Definition clear_interrupt : M unit := modify (fun k => with_interrupt k false (tl (sets k))).

Definition QUERY_INTERRUPTED_STATUS : str := lit "Query interrupted by user.".

(** ** Hooks *)

Definition run_hooks (event : HookEvent) (p : gmap str Value) : M (option (list HookResult)) :=
  n <- gets (fun k => length (hook_log k)) ;;
  match hooks_execute n event p with
  | None => ret None
  | Some results => modify (fun k => with_hook_log k (hook_log k ++ [(event, p)])) ;;; ret (Some results)
  end.

Definition run_blocking_hook (event : HookEvent) (p : gmap str Value) : M bool :=
  o <- run_hooks event p ;;
  match o with
  | None => ret false
  | Some results =>
      if negb (any_blocked results) then ret false
      else
        let why := first_reason results in
        emit (ErrorEvent (if is_empty why then hook_event_as_str event ++ lit " hook blocked the event"
                          else why) true) ;;; ret true
  end.

Definition run_observational_hook (event : HookEvent) (p : gmap str Value) : M unit :=
  _ <- run_hooks event p ;; ret tt.

Definition lifecycle_payload (event : HookEvent) (cwd : str) : gmap str Value :=
  <[lit "event" := value_string (hook_event_as_str event)]> (<[lit "cwd" := value_string cwd]> ∅).

Definition agent_event_hook_payload (event : AgentEvent) (cwd : str) : gmap str Value :=
  let p := lifecycle_payload UserPromptSubmit cwd in
  match event with
  | UserMessage content attachments =>
      <[lit "prompt" := value_string content]>
      (<[lit "attachment_count" := value_number (Z.of_nat (length attachments))]> p)
  | _ => p
  end.

Definition stop_payload (cwd stop_reason : str) : gmap str Value :=
  <[lit "stop_reason" := value_string stop_reason]> (lifecycle_payload Stop cwd).

Definition trigger_name (t : CompactTrigger) : str :=
  match t with Auto => lit "auto" | Manual => lit "manual" | Reactive => lit "reactive" end.

Section Loop.
Context (model_client : StreamingModel) (config : AgentKernelConfig).

(** The three interrupted exits run the same code. *)
Definition report_interrupted : M unit :=
  emit (Status QUERY_INTERRUPTED_STATUS) ;;;
  run_observational_hook Stop (stop_payload (cwd config) (lit "interrupted")).

(** ** Model turns *)

Definition is_terminal_retry (attempt max_attempts : N) : bool := (max_attempts <=? attempt)%N.

Definition format_retry_status (message : str) (attempt max_attempts : N) (delay_secs : F32) : str :=
  lit "Request failed; retrying in " ++ show_f32_1 delay_secs ++ lit "s (attempt " ++ show_N attempt
  ++ lit " of " ++ show_N max_attempts ++ lit "): " ++ message.

Definition transport_error_message (error : AgentError) : str :=
  let text := agent_error_to_string error in
  let lowered := to_lowercase text in
  if contains (lit "connect") lowered || contains (lit "timeout") lowered
     || contains (lit "network") lowered
  then lit "Network error: " ++ text ++ lit ". Check your internet connection and try again."
  else lit "API error: " ++ text.

(** The read loop.  A stream that completed is not read further: both when it
    closes in time and when it does not, the loop ends with that message. *)
Fixpoint read_stream (items : list stream_item) : M (option (ConversationMessage * UsageSnapshot)) :=
  match items with
  | [] =>
      emit (ErrorEvent (lit "Model stream finished without a final message") true) ;;; ret None
  | i :: rest =>
      stop <- interrupt_requested ;;
      if (stop : bool) then emit (Status QUERY_INTERRUPTED_STATUS) ;;; ret None
      else
        match i with
        | Tick => read_stream rest
        | Item (TextDelta text) => emit (AssistantTextDelta text) ;;; read_stream rest
        | Item (Retry message attempt max_attempts delay_secs) =>
            if is_terminal_retry attempt max_attempts
            then emit (ErrorEvent message true) ;;; ret None
            else emit (Status (format_retry_status message attempt max_attempts delay_secs)) ;;;
                 read_stream rest
        | Item (Complete message usage _) => ret (Some (message, usage))
        end
  end.

(** The checks after the stream: the role is forced, an empty message is
    refused. *)
Definition accept_message (o : option (ConversationMessage * UsageSnapshot)) :
    M (option (ConversationMessage * UsageSnapshot)) :=
  match o with
  | None => ret None
  | Some (message, usage) =>
      let message := {| role := Assistant; content := content message |} in
      if is_effectively_empty message
      then emit (ErrorEvent (lit "Model returned an empty assistant message. The turn was ignored to keep the session healthy.") true) ;;; ret None
      else ret (Some (message, usage))
  end.

Definition stream_model_turn (request : ModelRequest) :
    M (option (ConversationMessage * UsageSnapshot)) :=
  n <- gets (fun k => length (sent k)) ;;
  modify (fun k => with_sent k (sent k ++ [request])) ;;;
  match model_client n request with
  | Err error => emit (ErrorEvent (transport_error_message error) true) ;;; ret None
  | Ok items => o <- read_stream items ;; accept_message o
  end.

(** ** Compaction *)

Definition compact_payload (event : HookEvent) (trigger : CompactTrigger) : gmap str Value :=
  <[lit "trigger" := value_string (trigger_name trigger)]> (lifecycle_payload event (cwd config)).

Definition run_compaction (trigger : CompactTrigger) (force : bool) : M bool :=
  blocked <- run_blocking_hook PreCompact (compact_payload PreCompact trigger) ;;
  if (blocked : bool) then ret false
  else
    run <- gets (fun k => auto_compact_if_needed (conversation (context k)) (client_of model_client)
                            (sent k) (config_model config) (compact_state k) trigger
                            DEFAULT_PRESERVE_RECENT force) ;;
    modify (fun k => with_sent k (run_requests run)) ;;;
    modify (fun k => with_compact_state k (run_state run)) ;;;
    modify (fun k => with_emitted k
              (emitted k ++ ((fun phase => CompactProgress phase trigger) <$> run_notes run))) ;;;
    set_conversation (run_messages run) ;;;
    (if was_compacted run
     then meta <- gets (fun k => tool_metadata (context k)) ;; emit (Compacted trigger meta)
     else ret tt) ;;;
    run_observational_hook PostCompact
      (<[lit "success" := value_bool (was_compacted run)]> (compact_payload PostCompact trigger)) ;;;
    ret (was_compacted run).

(** ** The system prompt ([build_system_prompt], [prompts/core.rs]) *)

Definition permission_mode_guidance (mode : PermissionMode) : str :=
  match mode with
  | Plan => lit "Plan mode is enabled. Treat this session as read-only planning and analysis. Do not call mutating tools such as file writes, edits, state-changing shell commands, or task-spawning actions unless the user exits plan mode."
  | FullAuto => lit "Full-auto permission mode is enabled. You may use mutating tools when they are necessary for the user's request, while keeping changes scoped and intentional."
  | Default => lit "Default permission mode is enabled. Read-only tools can run directly; mutating tools may require explicit user approval."
  end.

Definition permission_mode_section (mode : PermissionMode) : str :=
  lit "# Current Permission Mode" ++ [newline] ++ permission_mode_guidance mode.

Definition build_system_prompt (n : nat) (messages : list ConversationMessage) : option str :=
  let mode_section := permission_mode_section (permission_mode_at n) in
  let dynamic := match memory_provider config with
                 | Some provide => provide n messages
                 | None => None
                 end in
  let gap := [newline; newline] in
  Some (match config_system_prompt config, dynamic with
        | Some base, Some dynamic => base ++ gap ++ dynamic ++ gap ++ mode_section
        | Some base, None => base ++ gap ++ mode_section
        | None, Some dynamic => dynamic ++ gap ++ mode_section
        | None, None => mode_section
        end).

(** ** Tool batches *)

Definition MAX_TOOL_USE_BATCH : nat := 64.

Fixpoint check_ids (seen : gset str) (tool_uses : list ToolUse) : result unit str :=
  match tool_uses with
  | [] => Ok tt
  | u :: rest =>
      if is_empty (trim (id u)) then Err (lit "tool_use IDs must not be empty or whitespace-only")
      else if bool_decide (id u ∈ seen)
      then Err (lit "tool_use IDs must be unique within an assistant turn")
      else check_ids ({[id u]} ∪ seen) rest
  end.

Definition validate_tool_use_ids (tool_uses : list ToolUse) : result unit str :=
  if MAX_TOOL_USE_BATCH <? length tool_uses
  then Err (lit "tool_use batch exceeds the maximum size (64)")
  else check_ids ∅ tool_uses.

Definition interrupted_result (u : ToolUse) : ContentBlock :=
  Messages.ToolResult (id u) (lit "interrupted") true value_null.

Definition outcome_block (p : ToolUse * ToolRuntime.ToolResult) : ContentBlock :=
  let '(u, o) := p in
  Messages.ToolResult (id u) (tool_output o) (tool_is_error o) (tool_result_metadata o).

Definition started_event (u : ToolUse) : StreamEvent := ToolExecutionStarted (id u) (name u) (input u).

Definition completed_event (m : ToolMetadata) (p : ToolUse * ToolRuntime.ToolResult) : StreamEvent :=
  let '(u, o) := p in
  ToolExecutionCompleted (id u) (name u) (tool_output o) (tool_is_error o)
    (tool_result_metadata o) m.

Definition run_batch (tool_uses : list ToolUse) : M unit :=
  modify (fun k => with_emitted k (emitted k ++ (started_event <$> tool_uses))) ;;;
  n <- gets (fun k => length (batches k)) ;;
  meta <- gets (fun k => tool_metadata (context k)) ;;
  let '(outcomes, meta) := dispatch_batch n tool_uses (cwd config) meta in
  modify (fun k => with_batches k (batches k ++ [tool_uses])) ;;;
  modify (fun k => with_context k {| conversation := conversation (context k); tool_metadata := meta |}) ;;;
  modify (fun k => with_emitted k (emitted k ++ (completed_event meta <$> zip tool_uses outcomes))) ;;;
  push_conversation {| role := User; content := outcome_block <$> zip tool_uses outcomes |}.

(** ** One iteration of the loop, state by state *)

Definition u32_saturating_succ (n : N) : N := N.min (n + 1) (2 ^ 32 - 1).

Definition on_idle : M AgentState :=
  l <- gets arrivals ;;
  match l with
  | [] =>
      run_observational_hook SessionEnd (lifecycle_payload SessionEnd (cwd config)) ;;; ret Completed
  | Arrives event :: rest => modify (fun k => with_arrivals k rest) ;;; ret (Observing event)
  | TimesOut :: rest => modify (fun k => with_arrivals k rest) ;;; ret Waiting
  end.

Definition on_user_event (event : AgentEvent) : M AgentState :=
  blocked <- run_blocking_hook UserPromptSubmit (agent_event_hook_payload event (cwd config)) ;;
  if (blocked : bool) then ret Idle
  else
    conv <- gets (fun k => conversation (context k)) ;;
    set_conversation (sanitize_conversation_messages conv) ;;;
    c <- gets context ;;
    match context_build c event with
    | Ok c => modify (fun k => with_context k c) ;;;
              ret (if is_empty (conversation c) then Idle else Querying 0)
    | Err err => emit (ErrorEvent (lit "Context build failed: " ++ agent_error_to_string err) false) ;;;
                 ret (Failed err)
    end.

Definition on_observing (event : AgentEvent) : M AgentState :=
  match event with
  | SystemEvent Shutdown =>
      run_observational_hook SessionEnd (lifecycle_payload SessionEnd (cwd config)) ;;; ret Completed
  | SystemEvent Startup =>
      run_observational_hook SessionStart (lifecycle_payload SessionStart (cwd config)) ;;; ret Idle
  | ClearConversation =>
      modify (fun k => with_context k (clear_conversation (context k))) ;;;
      modify (fun k => with_compact_state k compact_state_default) ;;;
      clear_interrupt ;;; ret Idle
  | UserMessage _ _ => on_user_event event
  end.

(** After the message of a model turn. *)
Definition on_assistant_message (message : ConversationMessage) (usage : UsageSnapshot) (turn : N) :
    M AgentState :=
  let uses := tool_uses message in
  match validate_tool_use_ids uses with
  | Err why =>
      emit (ErrorEvent (lit "Model returned an invalid tool_use batch: " ++ why
              ++ lit ". The turn was ignored to keep the session healthy.") true) ;;;
      _ <- interrupt_requested ;; ret Idle
  | Ok _ =>
      push_conversation message ;;;
      meta <- gets (fun k => tool_metadata (context k)) ;;
      emit (AssistantTurnComplete message usage meta) ;;;
      if is_empty uses
      then
        run_observational_hook Stop (stop_payload (cwd config) (lit "tool_uses_empty")) ;;;
        _ <- interrupt_requested ;; ret Idle
      else ret (ExecutingTools uses turn)
  end.

Definition model_request (k : Kernel) : ModelRequest :=
  {| model := config_model config;
     messages := conversation (context k);
     system_prompt := build_system_prompt (length (sent k)) (conversation (context k));
     max_output_tokens := config_max_output_tokens config;
     tools := schemas_at (length (sent k)) |}.

Definition on_turn (turn : N) : M AgentState :=
  due <- gets (fun k => should_autocompact (conversation (context k)) (config_model config)
                          (compact_state k)) ;;
  (if (due : bool) then _ <- run_compaction Auto false ;; ret tt else ret tt) ;;;
  request <- gets model_request ;;
  answer <- stream_model_turn request ;;
  match answer with
  | None => ret Idle
  | Some (message, usage) => on_assistant_message message usage turn
  end.

Definition on_querying (turn : N) : M AgentState :=
  stop <- interrupt_requested ;;
  if (stop : bool) then report_interrupted ;;; ret Idle
  else if (max_turns config <=? turn)%N
  then emit (ErrorEvent (lit "Exceeded maximum turn limit (" ++ show_N (max_turns config) ++ lit ")") true) ;;;
       ret Idle
  else on_turn turn.

Definition on_executing (tool_uses : list ToolUse) (turn : N) : M AgentState :=
  stop <- interrupt_requested ;;
  if (stop : bool)
  then push_conversation {| role := User; content := interrupted_result <$> tool_uses |} ;;;
       report_interrupted ;;; ret Idle
  else run_batch tool_uses ;;; ret (Querying (u32_saturating_succ turn)).

Definition on_compacting (trigger : CompactTrigger) : M AgentState :=
  stop <- interrupt_requested ;;
  if (stop : bool) then report_interrupted ;;; ret Idle
  else
    done_ <- run_compaction trigger (match trigger with Manual => true | _ => false end) ;;
    if (done_ : bool) then ret (Querying 0)
    else emit (Status (lit "Compaction skipped (blocked by hook or nothing to compact).")) ;;; ret Idle.

Definition handle (s : AgentState) : M AgentState :=
  match s with
  | Idle => on_idle
  | Observing event => on_observing event
  | Querying turn => on_querying turn
  | ExecutingTools tool_uses turn => on_executing tool_uses turn
  | Compacting trigger => on_compacting trigger
  | Waiting => ret Idle
  | Completed | Failed _ => ret s
  end.

Definition step (k : Kernel) : Kernel :=
  let '(next, k') := handle (state k) (with_state k Idle) in with_state k' next.

(** [run]: [None] when the fuel ends before a terminal state. *)
Fixpoint run (fuel : nat) (k : Kernel) : option Kernel :=
  if is_terminal_state (state k) then Some k
  else match fuel with 0 => None | S n => run n (step k) end.

(** ** Entry points outside the loop *)

Definition has_pending_continuation (k : Kernel) : bool :=
  match last (conversation (context k)) with
  | None => false
  | Some l =>
      if negb (bool_decide (role l = User)) || negb (existsb is_tool_result (content l)) then false
      else
        match List.find (fun m => bool_decide (role m = Assistant))
                (tl (reverse (conversation (context k)))) with
        | Some m => negb (is_empty (tool_uses m))
        | None => false
        end
  end.

Definition prepare_continuation (k : Kernel) : Kernel * bool :=
  let k := with_context k {| conversation := sanitize_conversation_messages (conversation (context k));
                             tool_metadata := tool_metadata (context k) |} in
  if has_pending_continuation k then (with_state k (Querying 0), true) else (k, false).

Definition kernel_new (sets : list bool) (arrivals : list arrival) : Kernel :=
  {| state := Idle; context := context_new; compact_state := compact_state_default;
     interrupt := false; sets := sets; arrivals := arrivals; emitted := []; sent := [];
     hook_log := []; batches := [] |}.
End Loop.
End Kernel.

(** ** Frames: what an operation leaves alone *)

Section Frames.
Context {J : Json} {F : Float32} {U : Unicode} {B : Base64} {D : Dispatcher}.

Definition preserves {X A} (p : Kernel -> X) (m : M A) : Prop := forall k, p (snd (m k)) = p k.

Lemma preserves_ret {X A} (p : Kernel -> X) (a : A) : preserves p (ret a).
Proof. done. Qed.

Lemma preserves_gets {X A} (p : Kernel -> X) (f : Kernel -> A) : preserves p (gets f).
Proof. done. Qed.

Lemma preserves_bind {X A C} (p : Kernel -> X) (m : M A) (f : A -> M C) :
  preserves p m -> (forall a, preserves p (f a)) -> preserves p (bind m f).
Proof.
  intros Hm Hf k. unfold bind. specialize (Hm k). destruct (m k) as [a k']. simpl in Hm.
  by rewrite Hf.
Qed.

(** The part of the kernel that hooks, events and flag accesses leave alone. *)
Definition core (k : Kernel) :=
  (state k, context k, compact_state k, arrivals k, sent k, batches k).

Lemma core_emit e : preserves core (emit e).
Proof. done. Qed.
Lemma core_interrupt_requested : preserves core interrupt_requested.
Proof. done. Qed.
Lemma core_clear_interrupt : preserves core clear_interrupt.
Proof. done. Qed.

Lemma core_run_hooks e p : preserves core (run_hooks e p).
Proof.
  unfold run_hooks. apply preserves_bind; [apply preserves_gets|]. intros n.
  destruct (hooks_execute n e p); [|apply preserves_ret]. by apply preserves_bind.
Qed.

Lemma core_run_blocking_hook e p : preserves core (run_blocking_hook e p).
Proof.
  unfold run_blocking_hook. apply preserves_bind; [apply core_run_hooks|].
  intros [results|]; [|done]. destruct (negb _); [done|]. by apply preserves_bind.
Qed.

Lemma core_run_observational_hook e p : preserves core (run_observational_hook e p).
Proof. unfold run_observational_hook. by apply preserves_bind; [apply core_run_hooks|]. Qed.

Lemma core_report_interrupted config : preserves core (report_interrupted config).
Proof. apply preserves_bind; [done|]. intros _. apply core_run_observational_hook. Qed.

Lemma core_read_stream items : preserves core (read_stream items).
Proof.
  induction items as [|i rest IH]; cbn [read_stream]; [by apply preserves_bind|].
  apply preserves_bind; [done|]. intros []; [by apply preserves_bind|].
  destruct i as [|[text|message usage reason|message a n d]]; [done | by apply preserves_bind | done |].
  destruct (is_terminal_retry a n); by apply preserves_bind.
Qed.

Lemma core_accept_message o : preserves core (accept_message o).
Proof.
  destruct o as [[message usage]|]; [|done]. unfold accept_message.
  destruct (is_effectively_empty _); [by apply preserves_bind | done].
Qed.

(** Reading the frame of one operation. *)
Lemma core_eq k k' : core k' = core k ->
  state k' = state k /\ context k' = context k /\ compact_state k' = compact_state k /\
  arrivals k' = arrivals k /\ sent k' = sent k /\ batches k' = batches k.
Proof. unfold core. intros [= -> -> -> -> -> ->]. done. Qed.

Lemma preserves_core {A} (m : M A) k a k' :
  preserves core m -> m k = (a, k') ->
  state k' = state k /\ context k' = context k /\ compact_state k' = compact_state k /\
  arrivals k' = arrivals k /\ sent k' = sent k /\ batches k' = batches k.
Proof. intros Hm E. apply core_eq. specialize (Hm k). by rewrite E in Hm. Qed.

(** A read stream only ever returns a complete message. *)
Lemma accept_message_spec o k m u k' :
  accept_message o k = (Some (m, u), k') -> role m = Assistant /\ is_effectively_empty m = false.
Proof.
  destruct o as [[message usage]|]; simpl; [|done].
  destruct (is_effectively_empty _) eqn:E; [done|]. by intros [= <- _ _].
Qed.
End Frames.

Lemma bind_inv {J : Json} {F : Float32} {A C} (m : M A) (f : A -> M C) k x k2 :
  bind m f k = (x, k2) -> exists a k1, m k = (a, k1) /\ f a k1 = (x, k2).
Proof. unfold bind. destruct (m k) as [a k1]. eauto. Qed.

(** Split the first operation off a sequence. *)
Ltac next H a k1 E := apply bind_inv in H as (a & k1 & E & H).

(** The same, for an operation that leaves the core alone: the frame [E] says
    so, field by field. *)
Ltac next_quiet H lem a k1 :=
  let E := fresh "E" in
  apply bind_inv in H as (a & k1 & E & H); apply preserves_core in E; [|apply lem];
  destruct E as (? & ? & ? & ? & ? & ?).

(** ** The invariant *)

Section Invariant.
Context {J : Json} {F : Float32} {U : Unicode} {B : Base64} {D : Dispatcher}.
Context (model_client : StreamingModel) (config : AgentKernelConfig).
Implicit Types (k : Kernel).

Definition conv k : list ConversationMessage := conversation (context k).
Definition sent_ok k : Prop := Forall request_ok (sent k).

(** The history is one answer away from being well paired. *)
Definition awaiting (uses : list ToolUse) k : Prop :=
  exists l a, conv k = l ++ [a] /\ well_paired l /\ asks a /\ tool_uses a = uses.

Definition state_ok (s : AgentState) k : Prop :=
  match s with
  | Querying _ | Compacting _ => well_paired (conv k)
  | ExecutingTools uses _ => awaiting uses k /\ validate_tool_use_ids uses = Ok tt
  | _ => True
  end.

(** Only [n] requests were added and all are well paired. *)
Definition sends (n : nat) k k' : Prop := log_grows n (sent k) (sent k').

Lemma sends_refl n k k' : sent k' = sent k -> sends n k k'.
Proof. unfold sends. intros ->. apply log_grows_refl. Qed.

Lemma sends_trans n n' k1 k2 k3 : sends n k1 k2 -> sends n' k2 k3 -> sends (n + n') k1 k3.
Proof.
  unfold sends. intros (x & E1 & Hx & Fx) (y & E2 & Hy & Fy). exists (x ++ y).
  rewrite E2, E1, <- app_assoc. split; [done|]. rewrite length_app. split; [lia|].
  by apply Forall_app.
Qed.

Lemma sends_ok n k k' : sends n k k' -> sent_ok k -> sent_ok k'.
Proof. intros (x & E & _ & Fx) H. unfold sent_ok. rewrite E. by apply Forall_app. Qed.

(** *** Compaction *)

Lemma run_compaction_spec trigger force k done_ k' :
  run_compaction model_client config trigger force k = (done_, k') ->
  arrivals k' = arrivals k /\ batches k' = batches k /\
  (well_paired (conv k) -> well_paired (conv k') /\ sends MAX_SUMMARY_CALLS k k').
Proof.
  unfold run_compaction. intros H. next_quiet H core_run_blocking_hook blocked_ k0.
  destruct blocked_.
  { injection H as <- <-. split; [congruence|]. split; [congruence|].
    unfold conv. intros Hw. split; [congruence | by apply sends_refl]. }
  next H r0 k1 E1. injection E1 as <- <-. set (r := auto_compact_if_needed _ _ _ _ _ _ _ _) in H.
  next H u1 k1 E1. injection E1 as _ <-. next H u2 k2 E2. injection E2 as _ <-.
  next H u3 k3 E3. injection E3 as _ <-. next H u4 k4 E4. injection E4 as _ <-.
  next H u5 k5 E5.
  assert (core k5 = core (with_context (with_emitted (with_compact_state (with_sent k0
    (run_requests r)) (run_state r)) []) {| conversation := run_messages r;
    tool_metadata := tool_metadata (context k0) |})) as Hc
    by (destruct (was_compacted r); injection E5 as _ <-; reflexivity).
  apply core_eq in Hc as (_ & Hctx & _ & Harr & Hsent & Hbat). cbn in Hctx, Harr, Hsent, Hbat.
  next_quiet H core_run_observational_hook u6 k6. injection H as _ <-.
  split; [congruence|]. split; [congruence|]. intros Hw.
  assert (well_paired (conversation (context k0))) as Hw0 by (unfold conv in Hw; congruence).
  destruct (auto_compact_ok (client_of model_client) (conversation (context k0)) (sent k0)
    (config_model config) (compact_state k0) trigger DEFAULT_PRESERVE_RECENT force Hw0)
    as [Hp _ Hl _ _]. fold r in Hp, Hl.
  assert (context k6 = context k5) as Hc6 by done. assert (sent k6 = sent k5) as Hs6 by done.
  unfold conv, sends. rewrite Hc6, Hctx, Hs6, Hsent. cbn [conversation].
  split; [exact Hp|]. assert (sent k = sent k0) as -> by done. exact Hl.
Qed.

(** *** Model turns *)

Lemma stream_model_turn_spec request k o k' :
  stream_model_turn model_client request k = (o, k') ->
  arrivals k' = arrivals k /\ batches k' = batches k /\ context k' = context k /\
  sent k' = sent k ++ [request] /\
  forall m u, o = Some (m, u) -> role m = Assistant /\ is_effectively_empty m = false.
Proof.
  unfold stream_model_turn. intros H. next H n k1 E1. injection E1 as <- <-.
  next H u1 k1 E1. injection E1 as _ <-.
  destruct (model_client _ request) as [items|e].
  - next_quiet H core_read_stream o1 k1. pose proof H as Hq.
    apply (preserves_core _ _ _ _ (core_accept_message o1)) in Hq as (? & ? & ? & ? & ? & ?).
    cbn in *. split; [congruence|]. split; [congruence|]. split; [congruence|]. split; [congruence|].
    intros m u ->. by eapply accept_message_spec.
  - next H u2 k2 E2. injection E2 as _ <-. injection H as <- <-. done.
Qed.

(** *** The answer of a turn *)

(** What ends a query, or hands it to the tools. *)
Definition turn_result (turn : N) (s : AgentState) k' : Prop :=
  s = Idle /\ well_paired (conv k') \/
  exists uses, s = ExecutingTools uses turn /\ awaiting uses k' /\
    validate_tool_use_ids uses = Ok tt.

Lemma on_assistant_message_spec m u turn k s k' :
  role m = Assistant -> is_effectively_empty m = false -> well_paired (conv k) ->
  on_assistant_message config m u turn k = (s, k') ->
  arrivals k' = arrivals k /\ batches k' = batches k /\ sent k' = sent k /\ turn_result turn s k'.
Proof.
  intros Hr He Hw. unfold on_assistant_message.
  destruct (validate_tool_use_ids (tool_uses m)) as [[]|why] eqn:Ev; intros H.
  - next H u1 k1 E1. injection E1 as _ <-. next H me k1 E1. injection E1 as <- <-.
    next H u2 k2 E2. injection E2 as _ <-. destruct (is_empty (tool_uses m)) eqn:Eu; bool_to_prop.
    + next_quiet H core_run_observational_hook u3 k3. next_quiet H core_interrupt_requested b k4.
      injection H as <- <-. cbn in *. split; [congruence|]. split; [congruence|]. split; [congruence|].
      left. split; [done|]. unfold conv.
      assert (context k4 = {| conversation := conversation (context k) ++ [m];
        tool_metadata := tool_metadata (context k) |}) as -> by congruence.
      apply well_paired_snoc; [done|]. unfold plain. by rewrite Hr.
    + injection H as <- <-. cbn. split; [done|]. split; [done|]. split; [done|]. right.
      exists (tool_uses m). split; [done|]. split; [|done]. by exists (conv k), m.
  - next H u1 k1 E1. injection E1 as _ <-. next_quiet H core_interrupt_requested b k2.
    injection H as <- <-. cbn in *. split; [congruence|]. split; [congruence|]. split; [congruence|].
    left. unfold conv in *. split; [done|]. congruence.
Qed.

Lemma request_ok_now k : well_paired (conv k) -> request_ok (model_request config k).
Proof. done. Qed.

(** At most one compaction (six requests) and the turn itself. *)
Definition MAX_TURN_REQUESTS : nat := MAX_SUMMARY_CALLS + 1.

Lemma on_turn_spec turn k s k' :
  well_paired (conv k) -> on_turn model_client config turn k = (s, k') ->
  arrivals k' = arrivals k /\ batches k' = batches k /\ sends MAX_TURN_REQUESTS k k' /\
  turn_result turn s k'.
Proof.
  intros Hw. unfold on_turn. intros H. next H due k1 E1. injection E1 as <- <-.
  next H u1 k1 E1.
  assert (arrivals k1 = arrivals k /\ batches k1 = batches k /\ well_paired (conv k1) /\
    sends MAX_SUMMARY_CALLS k k1) as (Ha & Hb & Hw1 & Hs1).
  { destruct (should_autocompact _ _ _).
    - next E1 d k2 E2. injection E1 as _ <-.
      apply run_compaction_spec in E2 as (? & ? & H2). destruct (H2 Hw). done.
    - injection E1 as _ <-. repeat split; try done. by apply sends_refl. }
  next H req k2 E2. injection E2 as <- <-. next H ans k3 E3.
  apply stream_model_turn_spec in E3 as (Ha3 & Hb3 & Hc3 & Hs3 & Hm).
  assert (sends MAX_TURN_REQUESTS k k3) as Hs.
  { eapply sends_trans; [exact Hs1|]. exists [model_request config k1]. split; [done|].
    split; [simpl; lia|]. constructor; [by apply request_ok_now | constructor]. }
  assert (well_paired (conv k3)) as Hw3 by (unfold conv in *; by rewrite Hc3).
  destruct ans as [[m u]|].
  - destruct (Hm m u eq_refl) as [Hr He].
    apply on_assistant_message_spec in H as (? & ? & Hs4 & Hres); [|done..].
    split; [congruence|]. split; [congruence|]. split; [|done]. unfold sends in *. by rewrite Hs4.
  - injection H as <- <-. split; [congruence|]. split; [congruence|]. split; [done|]. by left.
Qed.

Lemma on_querying_spec turn k s k' :
  well_paired (conv k) -> on_querying model_client config turn k = (s, k') ->
  arrivals k' = arrivals k /\ batches k' = batches k /\
  sends (if (turn <? max_turns config)%N then MAX_TURN_REQUESTS else 0) k k' /\
  turn_result turn s k' /\
  ((max_turns config <= turn)%N -> s = Idle) /\
  (flag_now k = true -> s = Idle /\ sent k' = sent k).
Proof.
  intros Hw. unfold on_querying. intros H. next H stop k1 E1. injection E1 as <- <-.
  destruct (flag_now k) eqn:Ef.
  - next_quiet H core_report_interrupted u k2. injection H as <- <-. cbn in *.
    split; [congruence|]. split; [congruence|]. split; [apply sends_refl; congruence|].
    split; [left; split; [done|]; unfold conv in *; congruence|]. auto.
  - destruct (max_turns config <=? turn)%N eqn:Em.
    + next H u k2 E2. injection E2 as _ <-. injection H as <- <-. cbn.
      split; [done|]. split; [done|]. split; [by apply sends_refl|]. split; [by left|]. done.
    + apply N.leb_gt in Em. assert ((turn <? max_turns config)%N = true) as -> by (by apply N.ltb_lt).
      apply on_turn_spec in H as (? & ? & ? & ?); [|done]. repeat split; try done. lia.
Qed.

(** *** Tool batches *)

Lemma result_id_list_interrupted uses :
  result_id_list {| role := User; content := interrupted_result <$> uses |} = id <$> uses.
Proof. unfold result_id_list. simpl. induction uses as [|u uses IH]; csimpl; [done|]. by rewrite IH. Qed.

Lemma result_id_list_outcomes uses outs :
  length outs = length uses ->
  result_id_list {| role := User; content := outcome_block <$> zip uses outs |} = id <$> uses.
Proof.
  unfold result_id_list. simpl. revert outs.
  induction uses as [|u uses IH]; intros [|o outs] Hl; csimpl in *; try done.
  by rewrite IH by lia.
Qed.

(** An answer that names every requested id closes the batch. *)
Lemma awaiting_closed uses k r :
  awaiting uses k -> role r = User -> result_id_list r = id <$> uses -> well_paired (conv k ++ [r]).
Proof.
  intros (l & a & -> & Hl & Ha & <-) Hr Hi. apply well_paired_snoc_pair; try done.
  unfold tool_use_ids, result_ids. by rewrite Hi.
Qed.

Lemma run_batch_spec uses k u k' :
  run_batch config uses k = (u, k') ->
  arrivals k' = arrivals k /\ batches k' = batches k ++ [uses] /\ sent k' = sent k /\
  compact_state k' = compact_state k /\ interrupt k' = interrupt k /\ sets k' = sets k /\
  exists outcomes, length outcomes = length uses /\
    conv k' = conv k ++ [{| role := User; content := outcome_block <$> zip uses outcomes |}] /\
    emitted k' = emitted k ++ (started_event <$> uses)
                 ++ (completed_event (tool_metadata (context k')) <$> zip uses outcomes).
Proof.
  unfold run_batch. intros H. next H u1 k1 E1. injection E1 as _ <-.
  next H n k1 E1. injection E1 as <- <-. next H me k1 E1. injection E1 as <- <-.
  pose proof (dispatch_batch_length (length (batches k)) uses (cwd config) (tool_metadata (context k))) as Hl.
  cbn in H. destruct (dispatch_batch _ _ _ _) as [outcomes meta]. cbn [fst] in Hl.
  next H u2 k2 E2. injection E2 as _ <-. next H u3 k3 E3. injection E3 as _ <-.
  next H u4 k4 E4. injection E4 as _ <-. injection H as _ <-. cbn.
  do 6 (split; [done|]). exists outcomes. split; [done|]. split; [done|]. by rewrite <- app_assoc.
Qed.

Lemma on_executing_spec uses turn k s k' :
  awaiting uses k -> on_executing config uses turn k = (s, k') ->
  arrivals k' = arrivals k /\ sent k' = sent k /\ well_paired (conv k') /\
  (flag_now k = true -> s = Idle /\ batches k' = batches k /\
     conv k' = conv k ++ [{| role := User; content := interrupted_result <$> uses |}]) /\
  (flag_now k = false -> s = Querying (u32_saturating_succ turn)).
Proof.
  intros Hw. unfold on_executing. intros H. next H stop k1 E1. injection E1 as <- <-.
  destruct (flag_now k) eqn:Ef.
  - next H u1 k1 E1. injection E1 as _ <-. next_quiet H core_report_interrupted u k2.
    injection H as <- <-. cbn in *.
    assert (conv k2 = conv k ++ [{| role := User; content := interrupted_result <$> uses |}]) as Hc.
    { unfold conv.
      assert (context k2 = {| conversation := conversation (context k) ++
        [{| role := User; content := interrupted_result <$> uses |}];
        tool_metadata := tool_metadata (context k) |}) as -> by congruence. done. }
    split; [congruence|]. split; [congruence|]. split.
    { rewrite Hc. eapply awaiting_closed; [done | done | apply result_id_list_interrupted]. }
    done.
  - next H u1 k2 E2. apply run_batch_spec in E2 as (? & ? & ? & _ & _ & _ & outs & Hl & Hc & _).
    injection H as <- <-. cbn in *. split; [done|]. split; [done|]. split; [|done].
    rewrite Hc. eapply awaiting_closed; [exact Hw | done | by apply result_id_list_outcomes].
Qed.

(** *** Every state *)

Lemma on_idle_spec k s k' :
  on_idle config k = (s, k') ->
  sent k' = sent k /\ batches k' = batches k /\
  match arrivals k with
  | [] => s = Completed /\ arrivals k' = []
  | Arrives e :: rest => s = Observing e /\ arrivals k' = rest
  | TimesOut :: rest => s = Waiting /\ arrivals k' = rest
  end.
Proof.
  unfold on_idle. intros H. next H l k1 E1. injection E1 as <- <-.
  destruct (arrivals k) as [|[e|] rest] eqn:Ea.
  - next_quiet H core_run_observational_hook u k1. injection H as <- <-. repeat split; congruence.
  - next H u k1 E1. injection E1 as _ <-. by injection H as <- <-.
  - next H u k1 E1. injection E1 as _ <-. by injection H as <- <-.
Qed.

Lemma on_observing_spec event k s k' :
  on_observing config event k = (s, k') ->
  sent k' = sent k /\ batches k' = batches k /\ arrivals k' = arrivals k /\
  (s = Completed \/ s = Idle \/ s = Querying 0 /\ well_paired (conv k') /\ conv k' <> []).
Proof.
  destruct event as [content atts| |[|]]; unfold on_observing; intros H.
  - unfold on_user_event in H. next_quiet H core_run_blocking_hook b k1. destruct b.
    { injection H as <- <-. repeat split; auto. }
    next H cv k2 E2. injection E2 as <- <-. next H u2 k2 E2. injection E2 as _ <-.
    next H c k2 E2. injection E2 as <- <-. cbn [context with_context] in H.
    match type of H with context [context_build ?c ?e] =>
      pose proof (context_build_well_paired c e) as Hb; destruct (context_build c e) as [c'|err] eqn:Eb end.
    + next H u3 k3 E3. injection E3 as _ <-. injection H as <- <-. cbn in *.
      split; [congruence|]. split; [congruence|]. split; [congruence|].
      destruct (is_empty (conversation c')) eqn:Ee; [by auto|]. right; right. split; [done|].
      split; [apply (Hb c'); [apply sanitize_well_paired | done]|]. by apply is_empty_false.
    + exfalso. revert Eb. cbn. destruct (is_empty _); discriminate.
  - next H u1 k1 E1. injection E1 as _ <-. next H u2 k2 E2. injection E2 as _ <-.
    next H u3 k3 E3. injection E3 as _ <-. injection H as <- <-. repeat split; auto.
  - next_quiet H core_run_observational_hook u k1. injection H as <- <-. repeat split; auto.
  - next_quiet H core_run_observational_hook u k1. injection H as <- <-. repeat split; auto.
Qed.

Lemma on_compacting_spec trigger k s k' :
  well_paired (conv k) -> on_compacting model_client config trigger k = (s, k') ->
  arrivals k' = arrivals k /\ batches k' = batches k /\ sends MAX_SUMMARY_CALLS k k' /\
  well_paired (conv k') /\ (s = Idle \/ s = Querying 0).
Proof.
  intros Hw. unfold on_compacting. intros H. next H stop k1 E1. injection E1 as <- <-.
  destruct (flag_now k).
  - next_quiet H core_report_interrupted u k2. injection H as <- <-. cbn in *.
    split; [congruence|]. split; [congruence|]. split; [apply sends_refl; congruence|].
    split; [unfold conv in *; congruence | by left].
  - next H d k2 E2. apply run_compaction_spec in E2 as (Ha & Hb & Hs). destruct (Hs Hw) as [Hw' Hs'].
    cbn in Ha, Hb.
    destruct d.
    + injection H as <- <-. cbn. repeat split; auto.
    + next H u k3 E3. injection E3 as _ <-. injection H as <- <-. cbn. repeat split; auto.
Qed.

Definition batch_ok (uses : list ToolUse) : Prop := validate_tool_use_ids uses = Ok tt.

(** Requests a state may still send in one step. *)
Definition step_requests (s : AgentState) : nat :=
  match s with
  | Querying turn => if (turn <? max_turns config)%N then MAX_TURN_REQUESTS else 0
  | Compacting _ => MAX_SUMMARY_CALLS
  | _ => 0
  end.

(** One step from a state that is in order. *)
Lemma step_spec k :
  state_ok (state k) k -> is_terminal_state (state k) = false ->
  let k' := step model_client config k in
  state_ok (state k') k' /\ sends (step_requests (state k)) k k' /\
  is_valid_transition (kind (state k)) (kind (state k')) = true /\
  (Forall batch_ok (batches k) -> Forall batch_ok (batches k')) /\
  match state k, state k' with
  | Idle, Observing e => arrivals k = Arrives e :: arrivals k'
  | Idle, Waiting => arrivals k = TimesOut :: arrivals k'
  | Idle, Completed => arrivals k = [] /\ arrivals k' = []
  | Observing _, (Completed | Idle) => arrivals k' = arrivals k
  | Observing _, Querying t => arrivals k' = arrivals k /\ t = 0%N
  | Querying t, Idle => arrivals k' = arrivals k
  | Querying t, ExecutingTools _ t' => arrivals k' = arrivals k /\ t' = t /\ (t < max_turns config)%N
  | ExecutingTools _ t, Idle => arrivals k' = arrivals k
  | ExecutingTools _ t, Querying t' => arrivals k' = arrivals k /\ t' = u32_saturating_succ t
  | Compacting _, Idle => arrivals k' = arrivals k
  | Compacting _, Querying t => arrivals k' = arrivals k /\ t = 0%N
  | Waiting, Idle => arrivals k' = arrivals k
  | _, _ => False
  end.
Proof.
  cbv zeta. unfold step. intros Hok Hterm.
  destruct (handle model_client config (state k) (with_state k Idle)) as [s k'] eqn:H.
  assert (forall n, sends n (with_state k Idle) k' -> sends n k (with_state k' s)) as Hsends by done.
  cbn [state with_state arrivals batches]. destruct (state k) as [|e|t|uses t|tr| | |]; try done;
    cbn [handle] in H; cbn [state_ok step_requests] in Hok |- *.
  - apply on_idle_spec in H as (Hs & Hb & Hm). cbn in Hs, Hb, Hm. rewrite Hb.
    destruct (arrivals k) as [|[e|] rest]; [destruct Hm as [-> Ha] | destruct Hm as [-> Ha] | destruct Hm as [-> Ha]];
      cbn; rewrite ?Ha; (split; [done|]); (split; [by apply sends_refl|]); done.
  - apply on_observing_spec in H as (Hs & Hb & Ha & Hm). cbn in Hs, Hb, Ha. rewrite Hb, Ha.
    destruct Hm as [-> | [-> | (-> & Hw & _)] ]; cbn; (split; [done|]);
      (split; [by apply sends_refl|]); done.
  - apply on_querying_spec in H as (Ha & Hb & Hs & Hr & Hmax & _); [|exact Hok].
    cbn in Ha, Hb. rewrite Hb, Ha. destruct Hr as [[-> Hw]|(uses & -> & Haw & Hv)]; cbn.
    + split; [done|]. split; [exact Hs|]. done.
    + split; [split; [exact Haw | exact Hv]|]. split; [exact Hs|]. split; [done|]. split; [done|].
      split; [done|]. split; [done|]. destruct (N.lt_ge_cases t (max_turns config)) as [?|Hge]; [done|].
      specialize (Hmax Hge). done.
  - destruct Hok as [Haw Hv]. pose proof H as Hx.
    apply on_executing_spec in H as (Ha & Hs & Hw & Hi & Hn); [|exact Haw].
    cbn in Ha, Hs. rewrite Ha. destruct (flag_now (with_state k Idle)).
    + destruct (Hi eq_refl) as (-> & Hb & _). cbn in Hb. rewrite Hb. cbn.
      split; [done|]. split; [by apply sends_refl|]. done.
    + rewrite (Hn eq_refl) in *. cbn. split; [exact Hw|]. split; [by apply sends_refl|]. split; [done|].
      split; [|done]. intros HF.
      unfold on_executing in Hx. next Hx stop k1 E1. injection E1 as <- <-.
      destruct (flag_now (with_state k Idle)).
      * next Hx u1 k1 E1. injection E1 as _ <-. next_quiet Hx core_report_interrupted u2 k2.
        injection Hx as _ <-. cbn in *. congruence.
      * next Hx u1 k1 E1. apply run_batch_spec in E1 as (_ & Hb & _). injection Hx as <-.
        rewrite Hb. apply Forall_app. split; [done|]. by constructor.
  - apply on_compacting_spec in H as (Ha & Hb & Hs & Hw & Hr); [|exact Hok].
    cbn in Ha, Hb. rewrite Hb, Ha. destruct Hr as [-> | ->]; cbn; (split; [done|]);
      (split; [exact Hs|]); done.
  - injection H as <- <-. cbn. split; [done|]. split; [by apply sends_refl|]. done.
Qed.

(** *** Progress *)

Definition rank (s : AgentState) : nat :=
  let limit := N.to_nat (max_turns config) in
  match s with
  | Idle => 1
  | Waiting => 2
  | Observing _ => 2 * limit + 7
  | Compacting _ => 2 * limit + 6
  | Querying t => if (t <? max_turns config)%N then 2 * (limit - N.to_nat t) + 4 else 2
  | ExecutingTools _ t => if (t <? max_turns config)%N then 2 * (limit - N.to_nat t) + 3 else 3
  | Completed | Failed _ => 0
  end.

Definition progress (k : Kernel) : nat :=
  length (arrivals k) * (2 * N.to_nat (max_turns config) + 8) + rank (state k).

Definition limit_is_u32 : Prop := (max_turns config <= 2 ^ 32 - 1)%N.

Lemma rank_querying_0 : rank (Querying 0) <= 2 * N.to_nat (max_turns config) + 4.
Proof. cbn. destruct (_ <? _)%N; lia. Qed.

Lemma rank_next_turn t uses :
  limit_is_u32 -> rank (Querying (u32_saturating_succ t)) < rank (ExecutingTools uses t).
Proof.
  unfold limit_is_u32, u32_saturating_succ. intros Hu. cbn [rank].
  change (2 ^ 32 - 1)%N with 4294967295%N in *.
  destruct (N.ltb_spec t (max_turns config)); destruct (N.ltb_spec (N.min (t + 1) 4294967295) (max_turns config)); lia.
Qed.

Lemma step_progress k :
  limit_is_u32 -> state_ok (state k) k -> is_terminal_state (state k) = false ->
  progress (step model_client config k) < progress k.
Proof.
  intros Hu Hok Ht. destruct (step_spec k Hok Ht) as (_ & _ & _ & _ & H).
  set (k' := step model_client config k) in *. clearbody k'. unfold progress.
  pose proof rank_querying_0 as H0.
  destruct (state k) as [|e|t|uses t|tr| | |] eqn:Es; try done;
    destruct (state k') as [|e'|t'|uses' t'|tr'| | |]; try done;
    repeat match goal with E : _ /\ _ |- _ => destruct E end; subst;
    repeat match goal with E : arrivals _ = _ |- _ => rewrite E; clear E end;
    try (pose proof (rank_next_turn t uses Hu); lia);
    cbn [rank length] in *;
    repeat match goal with E : (_ < _)%N |- _ => apply N.ltb_lt in E; rewrite E end;
    try destruct (t <? max_turns config)%N; try destruct (0 <? max_turns config)%N; lia.
Qed.

(** *** Reachable kernels *)

(** What a host can do with a kernel: create it, drive it, and between runs
    reload its history or ask for a continuation. *)
Inductive reachable : Kernel -> Prop :=
| reach_new sets arrivals : reachable (kernel_new sets arrivals)
| reach_step k :
    reachable k -> is_terminal_state (state k) = false -> reachable (step model_client config k)
| reach_reload k c : reachable k -> state k = Idle -> reachable (with_context k c)
| reach_resume k : reachable k -> state k = Idle -> reachable (fst (prepare_continuation k)).

(** The states the code ever enters. *)
Definition entered (s : AgentState) : Prop :=
  match s with Compacting _ | Failed _ => False | _ => True end.

Lemma step_entered k :
  state_ok (state k) k -> is_terminal_state (state k) = false -> entered (state k) ->
  entered (state (step model_client config k)).
Proof.
  intros Hok Ht He. destruct (step_spec k Hok Ht) as (_ & _ & _ & _ & H).
  destruct (state k), (state (step model_client config k)); done.
Qed.

Record in_order k : Prop := {
  order_state : state_ok (state k) k;
  order_sent : sent_ok k;
  order_batches : Forall batch_ok (batches k);
  order_entered : entered (state k)
}.

Lemma in_order_idle k c :
  in_order k -> state k = Idle -> in_order (with_context k c).
Proof. intros [] Hs. split; try done. cbn. by rewrite Hs. Qed.

Lemma in_order_step k :
  in_order k -> is_terminal_state (state k) = false -> in_order (step model_client config k).
Proof.
  intros [Hk Hs Hb He] Ht. destruct (step_spec k Hk Ht) as (Hk' & Hs' & _ & Hb' & _).
  split; [done | by eapply sends_ok | by apply Hb' | by apply step_entered].
Qed.

Lemma in_order_resume k : in_order k -> state k = Idle -> in_order (fst (prepare_continuation k)).
Proof.
  intros Hk Hs. unfold prepare_continuation. cbv zeta.
  set (k1 := with_context k _).
  assert (in_order k1) as H1 by (by apply in_order_idle).
  destruct (has_pending_continuation k1); cbn [fst]; [|done].
  destruct H1. split; try done. cbn. apply sanitize_well_paired.
Qed.

Lemma reachable_in_order k : reachable k -> in_order k.
Proof.
  induction 1; auto using in_order_step, in_order_idle, in_order_resume.
  split; cbn; auto; constructor.
Qed.

(** *** Validated batches *)

Lemma check_ids_spec seen uses :
  check_ids seen uses = Ok tt ->
  NoDup (id <$> uses) /\ Forall (fun u => id u ∉ seen) uses /\
  Forall (fun u => trim (id u) <> []) uses.
Proof.
  revert seen. induction uses as [|u uses IH]; intros seen; csimpl.
  { repeat split; constructor. }
  destruct (is_empty (trim (id u))) eqn:Et; [done|]. case_bool_decide; [done|].
  intros (Hn & Hs & Ht)%IH. apply is_empty_false in Et. rewrite Forall_forall in Hs.
  split; [|split]; constructor; auto.
  - intros (v & Hv & Hin)%list_elem_of_fmap. specialize (Hs v Hin). set_solver.
  - apply Forall_forall. intros v Hv. specialize (Hs v Hv). set_solver.
Qed.

Lemma batch_ok_spec uses :
  batch_ok uses ->
  length uses <= 64 /\ NoDup (id <$> uses) /\ Forall (fun u => trim (id u) <> []) uses.
Proof.
  unfold batch_ok, validate_tool_use_ids, MAX_TOOL_USE_BATCH.
  destruct (Nat.ltb_spec 64 (length uses)); [done|]. intros (? & _ & ?)%check_ids_spec. done.
Qed.

(** *** Driving a query *)

Definition in_query (s : AgentState) : bool :=
  match s with Querying _ | ExecutingTools _ _ => true | _ => false end.

(** [run], up to the end of the query. *)
Fixpoint run_query (fuel : nat) (k : Kernel) : option Kernel :=
  if in_query (state k)
  then match fuel with 0 => None | S n => run_query n (step model_client config k) end
  else Some k.

(** Model requests and tool batches the rest of a query can still cost. *)
Definition turns_left (s : AgentState) : nat :=
  match s with
  | Querying t => N.to_nat (max_turns config) - N.to_nat t
  | ExecutingTools _ t => N.to_nat (max_turns config) - N.to_nat (u32_saturating_succ t)
  | _ => 0
  end.

Definition batch_due (s : AgentState) : nat := match s with ExecutingTools _ _ => 1 | _ => 0 end.

Lemma step_batches k :
  state_ok (state k) k -> is_terminal_state (state k) = false ->
  length (batches (step model_client config k)) <= length (batches k) + batch_due (state k).
Proof.
  unfold step. intros Hok Ht.
  destruct (handle model_client config (state k) (with_state k Idle)) as [s k'] eqn:H. cbn.
  destruct (state k) as [|e|t|uses t|tr| | |]; try done; cbn [handle] in H; cbn in Hok |- *.
  - apply on_idle_spec in H as (_ & Hb & _). cbn in Hb. rewrite Hb. lia.
  - apply on_observing_spec in H as (_ & Hb & _). cbn in Hb. rewrite Hb. lia.
  - apply on_querying_spec in H as (_ & Hb & _); [|exact Hok]. cbn in Hb. rewrite Hb. lia.
  - unfold on_executing in H. next H stop k1 E1. injection E1 as <- <-.
    destruct (flag_now (with_state k Idle)).
    + next H u1 k1 E1. injection E1 as _ <-. next_quiet H core_report_interrupted u2 k2.
      injection H as _ <-. cbn in *.
      match goal with E : batches k2 = _ |- _ => rewrite E end. lia.
    + next H u1 k1 E1. apply run_batch_spec in E1 as (_ & Hb & _). injection H as _ <-.
      cbn in Hb. rewrite Hb, length_app. simpl. lia.
  - apply on_compacting_spec in H as (_ & Hb & _); [|exact Hok]. cbn in Hb. rewrite Hb. lia.
  - injection H as <- <-. cbn. lia.
Qed.

Lemma step_turns k :
  limit_is_u32 -> state_ok (state k) k -> in_query (state k) = true ->
  let k' := step model_client config k in
  (in_query (state k') = true \/ state k' = Idle) /\
  length (sent k') + MAX_TURN_REQUESTS * turns_left (state k')
    <= length (sent k) + MAX_TURN_REQUESTS * turns_left (state k) /\
  length (batches k') + (turns_left (state k') + batch_due (state k'))
    <= length (batches k) + (turns_left (state k) + batch_due (state k)).
Proof.
  cbv zeta. intros Hu Hok Hq.
  assert (is_terminal_state (state k) = false) as Ht by (by destruct (state k)).
  destruct (step_spec k Hok Ht) as (_ & (new & Es & Hn & _) & _ & _ & H).
  pose proof (step_batches k Hok Ht) as Hb. rewrite Es, length_app.
  set (k' := step model_client config k) in *. clearbody k'.
  unfold MAX_TURN_REQUESTS in *. unfold limit_is_u32 in Hu.
  destruct (state k) as [|e|t|uses t|tr| | |] eqn:Ek; try done; clear Ek;
    destruct (state k') as [|e'|t'|uses' t'|tr'| | |]; try done;
    repeat match goal with E : _ /\ _ |- _ => destruct E end; subst;
    cbn [step_requests turns_left batch_due] in *; unfold u32_saturating_succ in *;
    (split; [by auto|]);
    repeat match goal with
    | H : context [N.ltb ?a ?b] |- _ => destruct (N.ltb_spec a b)
    end; unfold MAX_TURN_REQUESTS in *;
    change (2 ^ 32 - 1)%N with 4294967295%N in *; split; nia.
Qed.

Lemma run_query_bounds n k :
  limit_is_u32 -> in_order k -> (in_query (state k) = true \/ state k = Idle) ->
  progress k <= n ->
  exists k', run_query n k = Some k' /\ state k' = Idle /\
    length (sent k') <= length (sent k) + MAX_TURN_REQUESTS * turns_left (state k) /\
    length (batches k') <= length (batches k) + (turns_left (state k) + batch_due (state k)).
Proof.
  intros Hu. revert k. induction n as [|n IH]; intros k Hk Hs Hn.
  - exfalso. unfold progress in Hn. destruct Hs as [Hs | Hs]; [|rewrite Hs in Hn; cbn in Hn; lia].
    destruct (state k); try done; cbn in Hn; destruct (_ <? _)%N in Hn; lia.
  - destruct Hs as [Hs | Hs].
    + cbn [run_query]. rewrite Hs.
      assert (is_terminal_state (state k) = false) as Ht by (by destruct (state k)).
      pose proof (step_progress k Hu (order_state _ Hk) Ht) as Hp.
      destruct (step_turns k Hu (order_state _ Hk) Hs) as (Hq & H1 & H2).
      destruct (IH (step model_client config k)) as (k' & E & Ei & H3 & H4);
        [by apply in_order_step | done | lia |].
      exists k'. split; [done|]. split; [done|]. lia.
    + exists k. cbn [run_query]. rewrite Hs. cbn. split; [done|]. split; [done|]. lia.
Qed.

(** *** The loop *)

Lemma run_completes_from n k :
  limit_is_u32 -> in_order k -> progress k <= n ->
  exists k', run model_client config n k = Some k' /\ state k' = Completed /\ sent_ok k'.
Proof.
  intros Hu. revert k. induction n as [|n IH]; intros k Hk Hn.
  - exists k. assert (state k = Completed) as Hs.
    { pose proof (order_entered _ Hk) as He. unfold progress in Hn.
      destruct (state k); try done; cbn in Hn; try lia; destruct (_ <? _)%N in Hn; lia. }
    cbn. rewrite Hs. split; [done|]. split; [done|]. apply Hk.
  - cbn [run]. destruct (is_terminal_state (state k)) eqn:Ht.
    + exists k. split; [done|]. split; [|apply Hk].
      pose proof (order_entered _ Hk). by destruct (state k).
    + apply IH; [by apply in_order_step|].
      pose proof (step_progress k Hu (order_state _ Hk) Ht). lia.
Qed.
End Invariant.

(** ** The tool runtime implements the interface *)

Section RuntimeDispatcher.
Context {J : Json} {F : Float32} {T : Target} {U : Unicode}.
Context {P : Platform} {E : Environment} {FS : FileSystem}.

(** What a runtime observes during the run of a kernel. *)
Record session_view := {
  batch_view : nat -> nat -> view;
  hook_run_id : nat -> nat;
  schema_view : nat -> nat * gset str;
  mode_view : nat -> PermissionMode
}.

Definition runtime_dispatcher (rt : ToolRuntime) (s : session_view) : Dispatcher.
Proof.
  refine {|
    hooks_execute n event p := (fun x => execute x (hook_run_id s n) event p) <$> hooks rt;
    dispatch_batch n uses cwd m := fst (dispatch_many rt (batch_view s n) cwd uses m);
    schemas_at n := let '(at_, disabled) := schema_view s n in api_schemas rt at_ disabled;
    permission_mode_at n := mode_view s n
  |}.
  intros n uses cwd m. apply dispatch_many_length.
Defined.
End RuntimeDispatcher.

(** ** Flag and events around an interrupted exit *)

Section Interrupted.
Context {J : Json} {F : Float32} {U : Unicode} {B : Base64} {D : Dispatcher}.

Definition outside (k : Kernel) := (interrupt k, sets k, emitted k).

Lemma outside_run_observational_hook e p : preserves outside (run_observational_hook e p).
Proof.
  unfold run_observational_hook, run_hooks. apply preserves_bind; [|done].
  apply preserves_bind; [done|]. intros n. destruct (hooks_execute n e p); [|done].
  by apply preserves_bind.
Qed.

Lemma report_interrupted_outside config k u k' :
  report_interrupted config k = (u, k') ->
  interrupt k' = interrupt k /\ sets k' = sets k /\
  emitted k' = emitted k ++ [Status QUERY_INTERRUPTED_STATUS].
Proof.
  unfold report_interrupted. intros H. next H u1 k1 E1. injection E1 as _ <-.
  pose proof (outside_run_observational_hook Stop (stop_payload (cwd config) (lit "interrupted"))
    (with_emitted k (emitted k ++ [Status QUERY_INTERRUPTED_STATUS]))) as Ho.
  rewrite H in Ho. unfold outside in Ho. cbn in Ho. by injection Ho as -> -> ->.
Qed.
End Interrupted.

(** ** Continuations *)

Section Continuation.
Context {J : Json} {F : Float32}.
Implicit Types (l : list ConversationMessage) (k : Kernel).

(** The history ends with an answered tool request. *)
Definition pending l : Prop :=
  exists l0 a r, l = l0 ++ [a; r] /\ asks a /\ role r = User /\ tool_use_ids a ⊆ result_ids r.

Lemma well_paired_end l :
  well_paired l -> l = [] \/ (exists l0 m, l = l0 ++ [m] /\ plain m) \/ pending l.
Proof.
  induction 1 as [|m l Hm Hl IH|a r l Ha Hr Hs Hl IH]; [by left| |]; right.
  - destruct IH as [-> |[(l0 & x & -> & Hx)|(l0 & a & r & -> & ?)] ].
    + left. by exists [], m.
    + left. by exists (m :: l0), x.
    + right. by exists (m :: l0), a, r.
  - destruct IH as [-> |[(l0 & x & -> & Hx)|(l0 & a' & r' & -> & ?)] ].
    + right. by exists [], a, r.
    + left. by exists (a :: r :: l0), x.
    + right. by exists (a :: r :: l0), a', r'.
Qed.

Lemma plain_user_no_results m :
  plain m -> role m = User -> existsb is_tool_result (content m) = false.
Proof.
  unfold plain, result_id_list. intros Hp Hr. rewrite Hr in Hp.
  induction (content m) as [|b bs IH]; [done|]. simpl in *. destruct b; simpl in *; auto. done.
Qed.

Lemma results_of_answer a r :
  asks a -> tool_use_ids a ⊆ result_ids r -> existsb is_tool_result (content r) = true.
Proof.
  intros [_ Hu] Hs. unfold tool_use_ids, result_ids, result_id_list in Hs.
  destruct (tool_uses a) as [|u us]; [done|]. csimpl in Hs.
  assert (id u ∈ omap block_result_id (content r)) as (b & Hb & Hi)%list_elem_of_omap by set_solver.
  apply existsb_exists. exists b. split; [by apply list_elem_of_In|]. by destruct b.
Qed.

Lemma has_pending_iff k :
  well_paired (conv k) -> has_pending_continuation k = true <-> pending (conv k).
Proof.
  intros Hw. unfold has_pending_continuation. fold (conv k). split.
  - destruct (well_paired_end _ Hw) as [-> |[(l0 & m & -> & Hm)|Hp] ]; [done| |done].
    rewrite last_snoc. destruct (bool_decide (role m = User)) eqn:Er; [|done].
    apply bool_decide_eq_true in Er. rewrite (plain_user_no_results m) by done. done.
  - intros (l0 & a & r & -> & Ha & Hr & Hs). rewrite last_app_cons. cbn [last].
    rewrite bool_decide_true by done. rewrite (results_of_answer a r) by done. cbn [negb orb].
    rewrite reverse_app. change (reverse [a; r]) with [r; a]. cbn [app tl List.find].
    rewrite bool_decide_true by apply Ha. destruct Ha as [_ Hu]. by destruct (tool_uses a).
Qed.
End Continuation.

(** ** Small concrete kernels *)

Definition plain_base64 : Base64 := {| base64_encode l := l |}.

Section Demo.
#[local] Existing Instances small_json whole_seconds ascii_tables plain_base64.

(** A tool runtime that answers every call with its own name. *)
Definition echo_dispatcher : Dispatcher.
Proof.
  refine {|
    hooks_execute _ _ _ := None;
    dispatch_batch _ uses _ m := ((fun u => tool_ok (name u)) <$> uses, m);
    schemas_at _ := [];
    permission_mode_at _ := Default
  |}.
  intros. apply length_fmap.
Defined.

Definition demo_call : ToolUse := {| id := lit "t1"; name := lit "echo"; input := SNull |}.

(** Asks for a tool first and answers afterwards. *)
Definition demo_model : StreamingModel :=
  fun n _ => Ok [Item (Complete
    {| role := Assistant;
       content := if n =? 0 then [Messages.ToolUseBlock (id demo_call) (name demo_call) (input demo_call)]
                  else [Text (lit "done")] |}
    {| input_tokens := 0; output_tokens := 0 |} None)].

Definition demo_config : AgentKernelConfig :=
  {| cwd := lit "/work"; max_turns := 8; config_system_prompt := None; config_model := None;
     config_max_output_tokens := 4096; memory_provider := None |}.

Definition demo_kernel : Kernel := kernel_new [] [Arrives (UserMessage (lit "hello") [])].

Definition demo_step : Kernel -> Kernel :=
  @step small_json whole_seconds ascii_tables plain_base64 echo_dispatcher demo_model demo_config.
End Demo.

(** ** Properties *)

(** C1: the model never sees a broken conversation: whatever the host did
    (reloading arbitrary histories included), however the user interrupted and
    whatever the model and the tools answered, every request a kernel ever
    sends carries a history in which each tool request is directly followed by
    a message that answers all of it; and every batch of tool calls it
    dispatches has at most 64 calls with pairwise distinct, non-blank ids. *)
Theorem requests_always_well_paired {J : Json} {F : Float32} {U : Unicode} {B : Base64}
    {D : Dispatcher} model_client config k :
  reachable model_client config k ->
  Forall (fun r => well_paired (messages r)) (sent k) /\
  Forall (fun uses => length uses <= 64 /\ NoDup (id <$> uses) /\
                      Forall (fun u => trim (id u) <> []) uses) (batches k).
Proof.
  intros [_ Hs Hb _]%reachable_in_order. split; [exact Hs|].
  eapply Forall_impl; [exact Hb|]. intros uses Hu. by apply batch_ok_spec.
Qed.

Section WitnessRequests.
#[local] Existing Instances small_json whole_seconds ascii_tables plain_base64 echo_dispatcher.

Lemma requests_always_well_paired_witness :
  exists k, reachable demo_model demo_config k /\ length (sent k) = 2 /\ length (batches k) = 1 /\
    Forall (fun r => well_paired (messages r)) (sent k).
Proof.
  assert (reachable demo_model demo_config
            (demo_step (demo_step (demo_step (demo_step (demo_step demo_kernel)))))) as H.
  { repeat (apply reach_step; [|reflexivity]). apply reach_new. }
  eexists. split; [exact H|]. split; [reflexivity|]. split; [reflexivity|].
  apply (requests_always_well_paired demo_model demo_config _ H).
Defined.
End WitnessRequests.

(** C31: the loop terminates: with a turn limit that fits its 32 bits, a
    kernel that still has finitely many events to read ends in [Completed]
    (never in [Failed]) after at most [progress] iterations: each iteration
    lowers that measure. *)
Theorem run_always_completes {J : Json} {F : Float32} {U : Unicode} {B : Base64} {D : Dispatcher}
    model_client config k :
  limit_is_u32 config -> reachable model_client config k ->
  exists k', run model_client config (progress config k) k = Some k' /\ state k' = Completed /\
    Forall request_ok (sent k').
Proof. intros Hu Hk%reachable_in_order. by apply run_completes_from. Qed.

Section WitnessRun.
#[local] Existing Instances small_json whole_seconds ascii_tables plain_base64 echo_dispatcher.

Lemma run_always_completes_witness :
  exists k', run demo_model demo_config (progress demo_config demo_kernel) demo_kernel = Some k' /\
    state k' = Completed.
Proof.
  destruct (run_always_completes demo_model demo_config demo_kernel) as (k' & H & Hs & _);
    [vm_compute; discriminate | apply reach_new | by exists k'].
Defined.
End WitnessRun.

(** C39: a query has a fixed budget: from the start of a query ([Querying]
    with turn 0) the loop is back in [Idle] after finitely many steps, having
    sent at most seven requests per turn (one answer and at most six for a
    compaction) and dispatched at most one batch per turn, [max_turns] turns
    in all; at the limit nothing is sent. *)
Theorem query_has_budget {J : Json} {F : Float32} {U : Unicode} {B : Base64} {D : Dispatcher}
    model_client config k turn :
  limit_is_u32 config -> reachable model_client config k -> state k = Querying turn ->
  exists k', run_query model_client config (progress config k) k = Some k' /\ state k' = Idle /\
    length (sent k') <= length (sent k) + 7 * (N.to_nat (max_turns config) - N.to_nat turn) /\
    length (batches k') <= length (batches k) + (N.to_nat (max_turns config) - N.to_nat turn).
Proof.
  intros Hu Hk%reachable_in_order Hs.
  destruct (run_query_bounds model_client config (progress config k) k Hu Hk) as (k' & E & Hi & H1 & H2);
    [left; by rewrite Hs | done |].
  exists k'. rewrite Hs in H1, H2. cbn in H1, H2. split; [done|]. split; [done|]. lia.
Qed.

Section WitnessBudget.
#[local] Existing Instances small_json whole_seconds ascii_tables plain_base64 echo_dispatcher.

Lemma query_has_budget_witness :
  exists k', run_query demo_model demo_config (progress demo_config (demo_step (demo_step demo_kernel)))
    (demo_step (demo_step demo_kernel)) = Some k' /\ state k' = Idle /\ length (batches k') <= 8.
Proof.
  destruct (query_has_budget demo_model demo_config (demo_step (demo_step demo_kernel)) 0)
    as (k' & H & Hs & _ & Hb);
    [vm_compute; discriminate
    | repeat (apply reach_step; [|reflexivity]); apply reach_new | reflexivity |].
  exists k'. split; [exact H|]. split; [exact Hs|]. exact Hb.
Defined.
End WitnessBudget.

(** Every iteration of the loop takes an edge of the transition table,
    so the debug assertion of the loop holds, and no run ever enters
    [Compacting] or [Failed]: automatic compaction is inlined in [Querying]
    and building a context from a user message cannot fail. *)
Theorem steps_follow_the_table {J : Json} {F : Float32} {U : Unicode} {B : Base64} {D : Dispatcher}
    model_client config k :
  reachable model_client config k -> is_terminal_state (state k) = false ->
  is_valid_transition (kind (state k)) (kind (state (step model_client config k))) = true /\
  (forall trigger, state (step model_client config k) <> Compacting trigger) /\
  (forall error, state (step model_client config k) <> Failed error).
Proof.
  intros Hk%reachable_in_order Ht.
  destruct (step_spec model_client config k (order_state _ Hk) Ht) as (_ & _ & Hv & _).
  pose proof (step_entered model_client config k (order_state _ Hk) Ht (order_entered _ Hk)) as He.
  split; [done|]. by destruct (state (step model_client config k)).
Qed.

Section WitnessTable.
#[local] Existing Instances small_json whole_seconds ascii_tables plain_base64 echo_dispatcher.

Lemma steps_follow_the_table_witness :
  is_valid_transition (kind (state demo_kernel)) (kind (state (demo_step demo_kernel))) = true.
Proof. apply (steps_follow_the_table demo_model demo_config demo_kernel); [apply reach_new | reflexivity]. Defined.
End WitnessTable.

(** C34: an interrupt stops a query at its next boundary: with the flag set
    when a model turn or a tool batch is about to start, the step sends
    nothing, dispatches nothing, reports the interruption, clears the flag and
    returns to [Idle]; before a model turn the history is untouched, before a
    tool batch every call of the batch is answered by an error result
    "interrupted", in order, so that the history stays well paired. *)
Theorem interrupt_stops_the_query {J : Json} {F : Float32} {U : Unicode} {B : Base64}
    {D : Dispatcher} model_client config k :
  reachable model_client config k -> flag_now k = true -> in_query (state k) = true ->
  let k' := step model_client config k in
  state k' = Idle /\ sent k' = sent k /\ batches k' = batches k /\ interrupt k' = false /\
  emitted k' = emitted k ++ [Status QUERY_INTERRUPTED_STATUS] /\ well_paired (conv k') /\
  match state k with
  | ExecutingTools uses _ =>
      conv k' = conv k ++ [{| role := User; content := interrupted_result <$> uses |}]
  | _ => conv k' = conv k
  end.
Proof.
  cbv zeta. intros Hk%reachable_in_order Hf Hq. pose proof (order_state _ Hk) as Hok. unfold step.
  destruct (handle model_client config (state k) (with_state k Idle)) as [s k'] eqn:H.
  assert (flag_now (with_state k Idle) = true) as Hf' by done.
  destruct (state k) as [|e|turn|uses turn|tr| | |]; try done; cbn [handle] in H; cbn in Hok.
  - unfold on_querying in H. next H stop k1 E1. injection E1 as <- <-. rewrite Hf' in H.
    next H u k2 E2. pose proof E2 as (Hi & _ & He)%report_interrupted_outside.
    apply preserves_core in E2 as (_ & Hc & _ & _ & Hs & Hb); [|apply core_report_interrupted].
    injection H as <- <-. cbn in *. rewrite Hi, He, Hs, Hb. unfold conv in *. cbn. by rewrite Hc.
  - pose proof H as (_ & _ & Hw & Hx & _)%on_executing_spec; [|apply Hok].
    destruct (Hx Hf') as (-> & Hb & Hc). unfold on_executing in H.
    next H stop k1 E1. injection E1 as <- <-. rewrite Hf' in H. next H u1 k1 E1. injection E1 as _ <-.
    next H u k2 E2. pose proof E2 as (Hi & _ & He)%report_interrupted_outside.
    apply preserves_core in E2 as (_ & _ & _ & _ & Hs & _); [|apply core_report_interrupted].
    injection H as <-. cbn in *. by rewrite Hi, He, Hs, Hb.
Qed.

Section WitnessInterrupt.
#[local] Existing Instances small_json whole_seconds ascii_tables plain_base64 echo_dispatcher.

(** The user presses stop while the tool call is being handed over. *)
Lemma interrupt_stops_the_query_witness :
  let k := demo_step (demo_step (demo_step
             (kernel_new [false; false; true] [Arrives (UserMessage (lit "hello") [])]))) in
  state k = ExecutingTools [demo_call] 0 /\
  conv (demo_step k) = conv k ++ [{| role := User; content := [interrupted_result demo_call] |}].
Proof.
  cbv zeta. set (k := demo_step _). assert (reachable demo_model demo_config k) as Hr.
  { repeat (apply reach_step; [|reflexivity]). apply reach_new. }
  split; [reflexivity|].
  pose proof (interrupt_stops_the_query demo_model demo_config k Hr eq_refl eq_refl) as H.
  exact (proj2 (proj2 (proj2 (proj2 (proj2 (proj2 H)))))).
Defined.
End WitnessInterrupt.

(** A dispatched batch is answered in full: without an interrupt the
    step appends one user message with exactly one result per call, in the
    order of the calls and under their ids, carrying what the runtime
    returned; each call was announced before it ran and reported after it, and
    the next model turn sees one more turn used. *)
Theorem batch_answered_in_order {J : Json} {F : Float32} {U : Unicode} {B : Base64} {D : Dispatcher}
    model_client config k uses turn :
  state k = ExecutingTools uses turn -> flag_now k = false ->
  let k' := step model_client config k in
  let '(outcomes, meta) := dispatch_batch (length (batches k)) uses (cwd config)
                             (tool_metadata (context k)) in
  state k' = Querying (u32_saturating_succ turn) /\ batches k' = batches k ++ [uses] /\
  conv k' = conv k ++ [{| role := User; content := outcome_block <$> zip uses outcomes |}] /\
  result_id_list {| role := User; content := outcome_block <$> zip uses outcomes |} = id <$> uses /\
  tool_metadata (context k') = meta /\
  emitted k' = emitted k ++ (started_event <$> uses) ++ (completed_event meta <$> zip uses outcomes).
Proof.
  intros Hs Hf. cbv zeta.
  pose proof (dispatch_batch_length (length (batches k)) uses (cwd config) (tool_metadata (context k))) as Hl.
  unfold step. rewrite Hs. cbn [handle].
  unfold on_executing, run_batch, bind, interrupt_requested, modify, gets, push_conversation, ret.
  change (flag_now (with_state k Idle)) with (flag_now k). rewrite Hf. cbn.
  destruct (dispatch_batch _ _ _ _) as [outcomes meta]. cbn [fst] in Hl.
  pose proof (result_id_list_outcomes uses outcomes Hl). unfold conv. cbn.
  rewrite <- app_assoc. done.
Qed.

Section WitnessBatch.
#[local] Existing Instances small_json whole_seconds ascii_tables plain_base64 echo_dispatcher.

Lemma batch_answered_in_order_witness :
  let k := demo_step (demo_step (demo_step demo_kernel)) in
  conv (demo_step k) =
    conv k ++ [{| role := User; content := [Messages.ToolResult (lit "t1") (lit "echo") false SNull] |}].
Proof.
  cbv zeta.
  pose proof (batch_answered_in_order demo_model demo_config
    (demo_step (demo_step (demo_step demo_kernel))) [demo_call] 0 eq_refl eq_refl) as H.
  exact (proj1 (proj2 (proj2 H))).
Defined.
End WitnessBatch.

(** A continuation is prepared exactly when there is something to
    continue: the history is pruned first; the kernel enters [Querying] with a
    fresh turn budget if and only if the pruned history ends with a tool
    request and its answer, and is otherwise left in the state it was in; a
    history that is in order is resumed as it is. *)
Theorem continuation_exact {J : Json} {F : Float32} {U : Unicode} {B : Base64} k :
  let '(k', resumed) := prepare_continuation k in
  conv k' = sanitize_conversation_messages (conv k) /\
  (resumed = true <-> pending (conv k')) /\
  state k' = (if resumed then Querying 0 else state k) /\
  (well_paired (conv k) -> conv k' = conv k).
Proof.
  unfold prepare_continuation. cbv zeta. set (k1 := with_context k _).
  assert (conv k1 = sanitize_conversation_messages (conv k)) as Hc by done.
  assert (well_paired (conv k1)) as Hw by (rewrite Hc; apply sanitize_well_paired).
  pose proof (has_pending_iff k1 Hw) as Hp.
  destruct (has_pending_continuation k1);
    (split; [exact Hc|]; split; [exact Hp|]; split; [reflexivity|]; intros Hk;
     etransitivity; [exact Hc | by apply sanitize_id]).
Qed.

(** An interrupt that arrives while a finished stream is being closed is
    meant to be dropped with the query it belongs to, and is dropped when the
    answer has text and calls no tool or when its tool calls are invalid; but
    when the answer is empty the flag survives, and the next user message is
    aborted before anything is sent for it. *)
Theorem stale_interrupt_after_empty_answer {J : Json} {F : Float32} {U : Unicode} {B : Base64}
    {D : Dispatcher} model_client config message usage turn k :
  let answer := {| role := Assistant; content := content message |} in
  let finish_turn :=
    bind (accept_message (Some (message, usage))) (fun o =>
      match o with Some (m, u) => on_assistant_message config m u turn | None => ret Idle end) in
  interrupt k = true ->
  (is_effectively_empty answer = false ->
   tool_uses answer = [] \/ validate_tool_use_ids (tool_uses answer) <> Ok tt ->
   interrupt (snd (finish_turn k)) = false) /\
  (is_effectively_empty answer = true ->
   let '(s, k') := finish_turn k in s = Idle /\ interrupt k' = true) /\
  (forall j, in_query (state j) = true -> interrupt j = true -> reachable model_client config j ->
   sent (step model_client config j) = sent j /\ state (step model_client config j) = Idle).
Proof.
  cbv zeta. intros Hi. unfold bind, accept_message. split; [|split].
  - intros He Hu. rewrite He. cbn [ret]. unfold on_assistant_message.
    set (m := {| role := Assistant; content := content message |}) in *.
    destruct (validate_tool_use_ids (tool_uses m)) as [[]|why] eqn:Ev; [|done].
    destruct Hu as [Hu|]; [|done]. rewrite Hu. unfold bind. cbn.
    by destruct (run_observational_hook _ _ _).
  - intros He. rewrite He. done.
  - intros j Hq Hj Hr.
    assert (flag_now j = true) as Hf by (unfold flag_now; by rewrite Hj).
    pose proof (reachable_in_order _ _ _ Hr) as Ho.
    unfold step. destruct (handle model_client config (state j) (with_state j Idle)) as [s k'] eqn:H.
    destruct (state j) eqn:Es; try done; cbn [handle] in H.
    + pose proof (order_state _ Ho) as Hw. rewrite Es in Hw.
      apply on_querying_spec in H as (_ & _ & _ & _ & _ & H); [|exact Hw].
      destruct (H Hf) as [-> Hs]. done.
    + pose proof (order_state _ Ho) as Hw. rewrite Es in Hw.
      apply on_executing_spec in H as (_ & Hs & _ & H & _); [|apply Hw].
      destruct (H Hf) as [-> _]. done.
Qed.

Section WitnessStale.
#[local] Existing Instances small_json whole_seconds ascii_tables plain_base64 echo_dispatcher.

Definition empty_answer : ConversationMessage := {| role := Assistant; content := [Text (lit "  ")] |}.
Definition stopped_kernel : Kernel := with_interrupt demo_kernel true [].

Lemma stale_interrupt_after_empty_answer_witness :
  interrupt stopped_kernel = true /\
  is_effectively_empty empty_answer = true /\
  interrupt (snd (accept_message (Some (empty_answer, {| input_tokens := 0; output_tokens := 0 |}))
                    stopped_kernel)) = true.
Proof.
  split; [reflexivity|]. split; [reflexivity|].
  exact (proj2 (proj1 (proj2 (stale_interrupt_after_empty_answer demo_model demo_config empty_answer
    {| input_tokens := 0; output_tokens := 0 |} 0 stopped_kernel eq_refl)) eq_refl)).
Defined.
End WitnessStale.
