(* ===== verification/Agent.v ===== *)
(** * The agent: the kernel on top of the tool runtime

    [Kernel] is proved against the interface [Dispatcher]; here it runs with
    [runtime_dispatcher], the instance made of [ToolRuntime], and the effects
    of both are followed through a whole session: what is executed on the
    user's machine, and by whose permission. *)

From S2P Require Import Prelude SandboxPolicy PermissionEngine Messages Compact Hooks.
From S2P Require Import ToolRuntime Kernel.

(** ** What a batch does *)

Section Executions.
Context {J : Json}.

Definition did_execute (e : effect) : bool :=
  match e with Executed _ _ => true | _ => false end.

Definition executions (es : list effect) : nat := length (List.filter did_execute es).

Lemma executions_app es1 es2 : executions (es1 ++ es2) = executions es1 + executions es2.
Proof. unfold executions. by rewrite List.filter_app, length_app. Qed.

Lemma harmless_executions es : forallb harmless es = true -> executions es = 0.
Proof.
  induction es as [|e es IH]; [done|]. cbn [forallb]. intros [He Hes]%andb_true_iff.
  unfold executions in *. cbn [List.filter]. destruct e; try done; cbn; by apply IH.
Qed.

End Executions.

Section Batch.
Context {J : Json} {F : Float32} {T : Target} {U : Unicode}.
Context {P : Platform} {E : Environment} {FS : FileSystem}.
Context (rt : ToolRuntime) (cwd : str).

Lemma execute_step_once v u tool m es :
  executions (effects_of (execute_step rt v cwd u tool m es)) <= executions es + 1.
Proof.
  destruct (execute_step_effects rt v cwd u tool m es) as [[-> _]|[[r ->] _] ]; [lia|].
  rewrite !executions_app, (harmless_executions (run_observed _ _ _)) by apply run_observed_harmless.
  cbn. lia.
Qed.

Lemma permission_step_once v u tool m es :
  executions (effects_of (permission_step rt v cwd u tool m es)) <= executions es + 1.
Proof.
  unfold permission_step. fold (use_path cwd u). fold (use_decision rt v tool cwd u).
  destruct (allowed _); [apply execute_step_once|].
  destruct (_ && _); [|rewrite finish_effects; lia].
  match goal with |- context [es ++ ?b ++ ?c] => set (es' := es ++ b ++ c) end.
  assert (executions es' = executions es) as Hes'.
  { unfold es'. rewrite !executions_app, (harmless_executions (run_observed _ _ _))
      by apply run_observed_harmless. cbn. lia. }
  destruct (reply v); destruct (cancelled_after_prompt v); rewrite ?finish_effects;
    try (etrans; [apply execute_step_once|]); rewrite ?executions_app; cbn; lia.
Qed.

Lemma dispatch_once v u m : executions (effects_of (dispatch rt v cwd u m)) <= 1.
Proof.
  destruct (dispatch_cases rt v cwd u m) as [[H _]|(tool & _ & ->)].
  - rewrite harmless_executions by done. lia.
  - etrans; [apply permission_step_once|]. rewrite harmless_executions; [lia|apply run_observed_harmless].
Qed.

(** An effect of a batch is an effect of dispatching one of its calls. *)
Definition from_calls (views : nat -> view) (uses : list ToolUse) (es : list effect) : Prop :=
  Forall (fun e => exists i u m, uses !! i = Some u /\ e ∈ effects_of (dispatch rt (views i) cwd u m)) es /\
  executions es <= length uses.

Lemma from_calls_nil views : from_calls views [] [].
Proof. split; [constructor | done]. Qed.

Lemma from_calls_cons views u uses m es :
  from_calls (views ∘ S) uses es ->
  from_calls views (u :: uses) (effects_of (dispatch rt (views 0) cwd u m) ++ es).
Proof.
  intros [H1 H2]. split.
  - apply Forall_app. split; [apply Forall_forall; intros e He; by exists 0, u, m|].
    eapply Forall_impl; [exact H1|]. intros e (i & w & m' & Hi & He). by exists (S i), w, m'.
  - rewrite executions_app. pose proof (dispatch_once (views 0) u m). cbn. lia.
Qed.

Lemma dispatch_in_order_effects views j uses m :
  from_calls (fun i => views (j + i)) uses (snd (dispatch_in_order rt views cwd j uses m)).
Proof.
  revert j m; induction uses as [|u uses IH]; intros j m; cbn [dispatch_in_order]; [apply from_calls_nil|].
  destruct (dispatch rt (views j) cwd u m) as [[r m1] es] eqn:Ed.
  specialize (IH (S j) m1). destruct (dispatch_in_order _ _ _ _ _ _) as [[rs m2] es'].
  pose proof (from_calls_cons (fun i => views (j + i)) u uses m es') as Hc. cbn beta in Hc.
  rewrite Nat.add_0_r, Ed in Hc. apply Hc. unfold compose. cbn [snd] in IH.
  destruct IH as [H1 H2]. split; [|done]. eapply Forall_impl; [exact H1|].
  intros e (i & w & m' & Hi & He). exists i, w, m'. split; [done|]. by rewrite <- Nat.add_succ_comm.
Qed.

Lemma dispatch_concurrently_effects views uses m :
  from_calls views uses (snd (dispatch_concurrently rt views cwd uses m)).
Proof.
  unfold dispatch_concurrently. cbn [snd].
  revert views; induction uses as [|u uses IH]; intros views; cbn [imap]; [apply from_calls_nil|].
  rewrite bind_cons. apply from_calls_cons. exact (IH (views ∘ S)).
Qed.

Lemma dispatch_many_effects views uses m :
  from_calls views uses (snd (dispatch_many rt views cwd uses m)).
Proof.
  destruct uses as [|u [|u' uses] ]; [apply from_calls_nil | apply (dispatch_in_order_effects views 0)|].
  unfold dispatch_many. destruct (batch_conflict _ _ _);
    [apply (dispatch_in_order_effects views 0) | apply dispatch_concurrently_effects].
Qed.
End Batch.

(** ** A session *)

Section Session.
Context {J : Json} {F : Float32} {T : Target} {U : Unicode} {B : Base64}.
Context {P : Platform} {E : Environment} {FS : FileSystem}.
Context (rt : ToolRuntime) (s : session_view).
Context (model_client : StreamingModel) (config : AgentKernelConfig).

#[local] Instance dispatcher : Dispatcher := runtime_dispatcher rt s.

(** The batch an iteration of the loop hands to the runtime, if any, and what
    the runtime then does. *)
Definition dispatched_by (k : Kernel) : list (list ToolUse) :=
  match state k with
  | ExecutingTools uses _ => if flag_now k then [] else [uses]
  | _ => []
  end.

Definition batch_effects (k : Kernel) (uses : list ToolUse) : list effect :=
  snd (dispatch_many rt (batch_view s (length (batches k))) (cwd config) uses (tool_metadata (context k))).

Definition step_effects (k : Kernel) : list effect := dispatched_by k ≫= batch_effects k.

(** What a host can do ([Kernel.reachable]), with the effects so far. *)
Inductive session : Kernel -> list effect -> Prop :=
| session_new sets arrivals : session (kernel_new sets arrivals) []
| session_step k es :
    session k es -> is_terminal_state (state k) = false ->
    session (step model_client config k) (es ++ step_effects k)
| session_reload k es c : session k es -> state k = Idle -> session (with_context k c) es
| session_resume k es : session k es -> state k = Idle -> session (fst (prepare_continuation k)) es.

Lemma session_quiet k es :
  session k es -> is_terminal_state (state k) = false -> dispatched_by k = [] ->
  session (step model_client config k) es.
Proof.
  intros Hs Ht Hd. apply session_step in Hs; [|done]. unfold step_effects in Hs. rewrite Hd in Hs.
  cbn in Hs. by rewrite app_nil_r in Hs.
Qed.

Lemma session_in_order k es : session k es -> in_order k.
Proof.
  induction 1; [|by apply in_order_step|by apply in_order_idle|by apply in_order_resume].
  apply (reachable_in_order model_client config), reach_new.
Qed.

Lemma prepare_continuation_batches k : batches (fst (prepare_continuation k)) = batches k.
Proof. unfold prepare_continuation. cbv zeta. by destruct (has_pending_continuation _). Qed.

(** The log of batches grows by exactly what was handed over. *)
Lemma step_dispatched k :
  in_order k -> is_terminal_state (state k) = false ->
  batches (step model_client config k) = batches k ++ dispatched_by k.
Proof.
  intros Hk Ht. pose proof (order_state _ Hk) as Hok. unfold step, dispatched_by.
  destruct (handle model_client config (state k) (with_state k Idle)) as [st k'] eqn:H.
  change (batches (with_state k' st)) with (batches k').
  destruct (state k) as [|e|t|uses t|tr| | |] eqn:Es; try done; cbn [handle] in H; rewrite ?app_nil_r.
  - by apply on_idle_spec in H as (_ & ? & _).
  - by apply on_observing_spec in H as (_ & ? & _).
  - by apply on_querying_spec in H as (_ & ? & _).
  - destruct Hok as [Haw _]. destruct (flag_now k) eqn:Ef; rewrite ?app_nil_r.
    + apply on_executing_spec in H as (_ & _ & _ & Hi & _); [|exact Haw]. by apply Hi.
    + unfold on_executing in H. next H stop k1 E1. injection E1 as <- <-.
      change (flag_now (with_state k Idle)) with (flag_now k) in H. rewrite Ef in H.
      next H u1 k1 E1. apply run_batch_spec in E1 as (_ & Hb & _). by injection H as _ <-.
  - by apply on_compacting_spec in H as (_ & ? & _).
  - by injection H as _ <-.
Qed.

(** ** Who permitted it *)

(** Call [u], the [i]-th of batch [n], may run: nothing stops it, and the
    engine allows it or the user confirmed it. *)
Definition authorised (n i : nat) (u : ToolUse) : Prop :=
  let v := batch_view s n i in
  cancelled_at_start v = false /\
  exists tool, passed_guards rt v u tool /\
    (allowed (use_decision rt v tool (cwd config) u) = true \/
     confirmed rt v (use_decision rt v tool (cwd config) u)).

(** The user answered "always" to the question about call [u]. *)
Definition always_confirmed (n i : nat) (u : ToolUse) : Prop :=
  let v := batch_view s n i in
  reply v = AlwaysAllow /\
  exists tool, passed_guards rt v u tool /\
    confirmed rt v (use_decision rt v tool (cwd config) u).

Definition accounted (log : list (list ToolUse)) (e : effect) : Prop :=
  match e with
  | Executed called input_ =>
      exists n i uses u, log !! n = Some uses /\ uses !! i = Some u /\
        called = name u /\ input_ = input u /\ authorised n i u
  | Persisted identity =>
      exists n i uses u, log !! n = Some uses /\ uses !! i = Some u /\
        identity = permission_identity u /\ always_confirmed n i u
  | _ => True
  end.

Lemma accounted_grows log more e : accounted log e -> accounted (log ++ more) e.
Proof.
  destruct e; [done..| |]; intros (n & i & uses & u & Hn & H); exists n, i, uses, u;
    (split; [by apply lookup_app_l_Some|exact H]).
Qed.

Lemma batch_accounted k uses e :
  e ∈ batch_effects k uses -> accounted (batches k ++ [uses]) e.
Proof.
  intros He. destruct (dispatch_many_effects rt (cwd config) (batch_view s (length (batches k))) uses
    (tool_metadata (context k))) as [H _].
  rewrite Forall_forall in H. destruct (H e He) as (i & u & m & Hi & Hd).
  assert ((batches k ++ [uses]) !! length (batches k) = Some uses) as Hn by by apply list_lookup_middle.
  destruct e as [event p|q|identity|called input_]; [done..| |];
    (apply dispatch_permitted in Hd as (tool & Hg & Hp); [|done]);
    exists (length (batches k)), i, uses, u; (split; [done|]); (split; [done|]);
    inversion Hp; subst; try done.
  - split; [done|]. split; [done|]. by exists tool.
  - split; [done|]. split; [done|]. split; [done|]. by exists tool.
Qed.

Lemma step_accounted k e : e ∈ step_effects k -> accounted (batches k ++ dispatched_by k) e.
Proof.
  unfold step_effects. intros (uses & He & Hu)%list_elem_of_bind.
  assert (dispatched_by k = [uses]) as ->; [|by apply batch_accounted].
  unfold dispatched_by in *. destruct (state k); try by apply not_elem_of_nil in Hu.
  destruct (flag_now k); [by apply not_elem_of_nil in Hu|]. by apply list_elem_of_singleton in Hu as ->.
Qed.

Lemma step_executions k : executions (step_effects k) <= length (concat (dispatched_by k)).
Proof.
  unfold step_effects, dispatched_by. destruct (state k); cbn; try lia. destruct (flag_now k); cbn; [lia|].
  rewrite !app_nil_r. apply dispatch_many_effects.
Qed.
End Session.

(** ** Properties *)

(** C2: nothing runs that was not asked for and permitted.  Through a whole
    session of the kernel on the tool runtime, whatever the host, the user, the
    model, the hooks and concurrent tasks do: every executed tool is a call of
    a dispatched batch, run under its own name and input, with every guard
    passed and with the permission of the engine or of the user; every stored
    permission was confirmed with "always" for the very call that was judged;
    each call is executed at most once; and a batch is handed over only as the
    tool requests of the assistant message that ends the conversation. *)
Theorem agent_executes_only_authorised {J : Json} {F : Float32} {T : Target} {U : Unicode}
    {B : Base64} {P : Platform} {E : Environment} {FS : FileSystem}
    rt s model_client config k es :
  session rt s model_client config k es ->
  Forall (accounted rt s config (batches k)) es /\
  executions es <= length (concat (batches k)) /\
  (forall uses, uses ∈ dispatched_by k ->
     exists l a, conv k = l ++ [a] /\ role a = Assistant /\ tool_uses a = uses).
Proof.
  intros Hs. split; [|split].
  - induction Hs as [|k es Hs IH Ht|k es c Hs IH Hi|k es Hs IH Hi]; [constructor| |done|].
    + rewrite step_dispatched by (done || by eapply session_in_order). apply Forall_app. split.
      * eapply Forall_impl; [exact IH|]. intros e. apply accounted_grows.
      * apply Forall_forall. intros e. apply step_accounted.
    + by rewrite prepare_continuation_batches.
  - induction Hs as [|k es Hs IH Ht|k es c Hs IH Hi|k es Hs IH Hi]; [done| |done|].
    + rewrite step_dispatched by (done || by eapply session_in_order).
      rewrite executions_app, concat_app, length_app.
      pose proof (step_executions rt s config k). lia.
    + by rewrite prepare_continuation_batches.
  - intros uses Hu. apply session_in_order in Hs as [Hk _ _ _]. unfold dispatched_by in Hu.
    destruct (state k); try by apply not_elem_of_nil in Hu.
    destruct (flag_now k); [by apply not_elem_of_nil in Hu|]. apply list_elem_of_singleton in Hu as ->.
    destruct Hk as [(l & a & Hc & _ & Ha & Hu) _]. exists l, a. split; [done|]. by split; [apply Ha|].
Qed.

Section WitnessAgent.
#[local] Existing Instances small_json whole_seconds linux_target ascii_tables native
  empty_environment alice plain_base64.

(** A model that writes a file, and a user who says yes each time. *)
Definition writing_model : StreamingModel :=
  fun n _ => Ok [Item (Complete
    {| role := Assistant;
       content := if n =? 0
                  then [Messages.ToolUseBlock (id (demo_use "a.txt")) (name (demo_use "a.txt"))
                          (input (demo_use "a.txt"))]
                  else [Text (lit "done")] |}
    {| input_tokens := 0; output_tokens := 0 |} None)].

Definition yes_view : session_view :=
  {| batch_view _ _ := demo_view Allow; hook_run_id n := n; schema_view _ := (0, ∅);
     mode_view _ := Default |}.

Definition writing_step : Kernel -> Kernel :=
  @step small_json whole_seconds ascii_tables plain_base64 (dispatcher demo_runtime yes_view)
    writing_model demo_config.

Lemma agent_executes_only_authorised_witness :
  let k := writing_step (writing_step (writing_step demo_kernel)) in
  executions (step_effects demo_runtime yes_view demo_config k) = 1 /\
  Forall (accounted demo_runtime yes_view demo_config (batches (writing_step k)))
    (step_effects demo_runtime yes_view demo_config k).
Proof.
  cbv zeta. set (k := writing_step (writing_step (writing_step demo_kernel))).
  assert (session demo_runtime yes_view writing_model demo_config k []) as Hs.
  { do 3 (apply session_quiet; [|vm_compute; reflexivity|vm_compute; reflexivity]). apply session_new. }
  assert (is_terminal_state (state k) = false) as Ht by (vm_compute; reflexivity).
  split; [vm_compute; reflexivity|].
  exact (proj1 (agent_executes_only_authorised _ _ _ _ _ _ (session_step _ _ _ _ k [] Hs Ht))).
Defined.
End WitnessAgent.
