(* ===== verification/Snowflake.v ===== *)
(** * Snowflake identifiers ([server/src/utils/snowflake.rs])

    The lock-free generator as a step relation of threads over two shared
    atomic integers, one step per access to a shared integer or to the clock,
    under sequential consistency; the layout of an identifier on 64-bit words;
    and the registration of workers in the database table, one step per SQL
    statement. *)

From S2P Require Import Prelude.
From Stdlib Require Import Sorting.Sorted.

Open Scope Z_scope.

(** ** Layout *)

Definition CUSTOM_EPOCH : Z := 1704067200000.
Definition WORKER_ID_BITS : Z := 10.
Definition SEQUENCE_BITS : Z := 12.
Definition MAX_WORKER_ID : Z := Z.shiftl 1 WORKER_ID_BITS - 1.
Definition MAX_SEQUENCE : Z := Z.shiftl 1 SEQUENCE_BITS - 1.
Definition WORKER_ID_SHIFT : Z := SEQUENCE_BITS.
Definition TIMESTAMP_SHIFT : Z := SEQUENCE_BITS + WORKER_ID_BITS.

(** The subtraction wraps, as it does in the release profile. *)
Definition compose_id (timestamp worker_id sequence : Z) : Z :=
  let ts_part := u64_wrap (Z.shiftl (u64_wrap (u64_wrap timestamp - CUSTOM_EPOCH)) TIMESTAMP_SHIFT) in
  let wk_part := u64_wrap (Z.shiftl worker_id WORKER_ID_SHIFT) in
  i64_of_u64 (Z.lor (Z.lor ts_part wk_part) sequence).

(** [fetch_add] on an [AtomicI64] wraps. *)
Definition i64_wrapping_succ (z : Z) : Z := i64_of_u64 (z + 1).

(** ** The generator *)

(** The two shared integers of [SnowflakeGenerator]; its worker id never
    changes and enters where an identifier is composed. *)
Record generator := { sequence : Z; last_timestamp : Z }.

Definition generator_new : generator := {| sequence := 0; last_timestamp := 0 |}.

(** [SnowflakeGenerator::new]; [None] is its panic. *)
Definition new (worker_id : Z) : option generator :=
  if worker_id <=? MAX_WORKER_ID then Some generator_new else None.

(** Where a call of [generate] stands. *)
Inductive call :=
| Load
| ReadClock (last_ts : Z)
| WaitUntil (last_ts : Z)
| SameMs (current_ts : Z)
| WaitAfter (current_ts : Z)
| Swap (last_ts current_ts : Z)
| Reset (current_ts : Z)
| Claim (current_ts : Z)
| Returned (timestamp seq : Z).

(** One access; [now] is what the clock shows if it is read. *)
Definition step_call (now : Z) (g : generator) (c : call) : generator * call :=
  match c with
  | Load => (g, ReadClock (last_timestamp g))
  | ReadClock last_ts =>
      (g, if now <? last_ts then WaitUntil last_ts
          else if now =? last_ts then SameMs now else Swap last_ts now)
  | WaitUntil last_ts => (g, if now <? last_ts then c else Load)
  | SameMs current_ts =>
      ({| sequence := i64_wrapping_succ (sequence g); last_timestamp := last_timestamp g |},
       if u64_wrap (sequence g) <? MAX_SEQUENCE then Returned current_ts (u64_wrap (sequence g))
       else WaitAfter current_ts)
  | WaitAfter current_ts => (g, if now <=? current_ts then c else Load)
  | Swap last_ts current_ts =>
      if last_timestamp g =? last_ts
      then ({| sequence := sequence g; last_timestamp := current_ts |}, Reset current_ts)
      else (g, Load)
  | Reset current_ts => ({| sequence := 0; last_timestamp := last_timestamp g |}, Claim current_ts)
  | Claim current_ts =>
      ({| sequence := i64_wrapping_succ (sequence g); last_timestamp := last_timestamp g |},
       Returned current_ts (u64_wrap (sequence g)))
  | Returned _ _ => (g, c)
  end.

(** A call on its own: [None] when the readings of the clock end first. *)
Fixpoint generate (clock : list Z) (g : generator) (c : call) : option (Z * Z * generator * list Z) :=
  match c with
  | Returned timestamp seq => Some (timestamp, seq, g, clock)
  | _ =>
      match clock with
      | [] => None
      | now :: rest => let '(g', c') := step_call now g c in generate rest g' c'
      end
  end.

(** Calls one after the other, while the clock lasts; what they return, in
    order. *)
Fixpoint serial (calls : nat) (clock : list Z) (g : generator) : list (Z * Z) :=
  match calls with
  | O => []
  | S n =>
      match generate clock g Load with
      | None => []
      | Some (timestamp, seq, g', rest) => (timestamp, seq) :: serial n rest g'
      end
  end.

(** Overlapping calls: the schedule says which call moves and what the clock
    shows it. *)
Definition system : Type := generator * list call.

Definition step_system (s : system) (move : nat * Z) : system :=
  let '(g, calls) := s in
  match calls !! fst move with
  | None => s
  | Some c => let '(g', c') := step_call (snd move) g c in (g', <[fst move := c']> calls)
  end.

Definition run_schedule (s : system) (schedule : list (nat * Z)) : system :=
  fold_left step_system schedule s.

Definition returned (calls : list call) : list (Z * Z) :=
  omap (fun c => match c with Returned ts seq => Some (ts, seq) | _ => None end) calls.

(** ** Workers *)

Definition STALE_WORKER_SECS : Z := 30.

(** The table: worker id to the second of its last heartbeat. *)
Definition worker_table := gmap Z Z.

Inductive SnowflakeError := NoAvailableWorker | WorkerIdTaken | Db (message : str).

Definition clean_stale_workers (now : Z) (t : worker_table) : worker_table :=
  filter (fun row : Z * Z => now - STALE_WORKER_SECS <= snd row) t.

(** What a registration meets in the database: statements that fail, and
    what other servers do to the table before each of its insertions. *)
Record database := {
  delete_error : option str;
  select_error : option str;
  insert_error : Z -> option str;
  others : Z -> worker_table -> worker_table
}.

(** [INSERT] under the unique key. *)
Definition try_insert_worker (db : database) (now : Z) (t : worker_table) (wid : Z) :
    result unit SnowflakeError * worker_table :=
  match insert_error db wid with
  | Some message => (Err (Db message), t)
  | None =>
      match t !! wid with
      | Some _ => (Err WorkerIdTaken, t)
      | None => (Ok tt, <[wid := now]> t)
      end
  end.

Definition heartbeat (now : Z) (t : worker_table) (wid : Z) : worker_table :=
  match t !! wid with Some _ => <[wid := now]> t | None => t end.

Definition deregister_worker (t : worker_table) (wid : Z) : worker_table := delete wid t.

(** The search for a free id; [used] was read before. *)
Fixpoint claim_worker (db : database) (now : Z) (used wids : list Z) (t : worker_table) :
    result Z SnowflakeError * worker_table :=
  match wids with
  | [] => (Err NoAvailableWorker, t)
  | wid :: rest =>
      if bool_decide (wid ∈ used) then claim_worker db now used rest t
      else
        let t := others db wid t in
        match try_insert_worker db now t wid with
        | (Ok _, t) => (Ok wid, t)
        | (Err WorkerIdTaken, t) => claim_worker db now used rest t
        | (Err e, t) => (Err e, t)
        end
  end.

Definition all_worker_ids : list Z := seqZ 0 (MAX_WORKER_ID + 1).

Definition register_worker (db : database) (now : Z) (t : worker_table) :
    result Z SnowflakeError * worker_table :=
  match delete_error db with
  | Some message => (Err (Db message), t)
  | None =>
      let t := clean_stale_workers now t in
      match select_error db with
      | Some message => (Err (Db message), t)
      | None => claim_worker db now (fst <$> map_to_list t) all_worker_ids t
      end
  end.

(** [init]: the generator of the process ([global]), the worker's handle (its
    id, and whether it keeps a heartbeat).  [raced] is the generator that
    another task stored while this one was registering. *)
Record WorkerHandle := { handle_worker : Z; beats : bool }.

Definition init (db : database) (now : Z) (raced global : option (Z * generator)) (t : worker_table) :
    result WorkerHandle SnowflakeError * option (Z * generator) * worker_table :=
  match global with
  | Some _ => (Ok {| handle_worker := 0; beats := false |}, global, t)
  | None =>
      match register_worker db now t with
      | (Err e, t) => (Err e, raced, t)
      | (Ok wid, t) =>
          match raced with
          | Some _ => (Ok {| handle_worker := 0; beats := false |}, raced, deregister_worker t wid)
          | None =>
              (Ok {| handle_worker := wid; beats := true |}, Some (wid, generator_new), t)
          end
      end
  end.

(** A database that works and is used by nobody else. *)
Definition quiet : database :=
  {| delete_error := None; select_error := None; insert_error _ := None; others _ t := t |}.

(** ** The layout is injective *)

Definition timestamp_ok (t : Z) : Prop := CUSTOM_EPOCH <= t < CUSTOM_EPOCH + 2 ^ 41.
Definition worker_ok (w : Z) : Prop := 0 <= w <= MAX_WORKER_ID.
Definition seq_ok (s : Z) : Prop := 0 <= s <= MAX_SEQUENCE.

Lemma lor_shifted a b n : 0 <= a -> 0 <= n -> 0 <= b < 2 ^ n -> Z.lor (a * 2 ^ n) b = a * 2 ^ n + b.
Proof.
  intros Ha Hn Hb. rewrite <- Z.add_lor_land.
  enough (Z.land (a * 2 ^ n) b = 0) as -> by lia.
  apply Z.bits_inj'. intros i Hi. rewrite Z.land_spec, Z.bits_0.
  destruct (Z.lt_ge_cases i n).
  - rewrite Z.mul_pow2_bits_low by done. done.
  - rewrite <- (Z.mod_small b (2 ^ n)) by done. rewrite Z.mod_pow2_bits_high by lia.
    apply andb_false_r.
Qed.

(** The constants, as numbers. *)
Ltac layout_numbers :=
  unfold timestamp_ok, worker_ok, seq_ok, TIMESTAMP_SHIFT, WORKER_ID_SHIFT, MAX_SEQUENCE,
    MAX_WORKER_ID, SEQUENCE_BITS, WORKER_ID_BITS, CUSTOM_EPOCH in *;
  change (Z.shiftl 1 12) with 4096 in *; change (Z.shiftl 1 10) with 1024 in *;
  change (2 ^ 41) with 2199023255552 in *; change (2 ^ 64) with 18446744073709551616 in *;
  change (2 ^ 63) with 9223372036854775808 in *; change (2 ^ 22) with 4194304 in *;
  change (2 ^ (12 + 10)) with 4194304 in *; change (2 ^ 12) with 4096 in *;
  change (2 ^ 10) with 1024 in *.

Lemma compose_id_sum t w s :
  timestamp_ok t -> worker_ok w -> seq_ok s ->
  compose_id t w s = (t - CUSTOM_EPOCH) * 2 ^ 22 + w * 2 ^ 12 + s.
Proof.
  intros Ht Hw Hs. unfold compose_id, i64_of_u64, u64_wrap.
  rewrite !Z.shiftl_mul_pow2 by done.
  assert (((t mod 2 ^ 64 - CUSTOM_EPOCH) mod 2 ^ 64 * 2 ^ TIMESTAMP_SHIFT) mod 2 ^ 64
          = (t - CUSTOM_EPOCH) * 2 ^ 22) as ->.
  { layout_numbers. rewrite (Z.mod_small t) by lia. rewrite (Z.mod_small (t - _)) by lia.
    rewrite Z.mod_small by lia. lia. }
  assert ((w * 2 ^ WORKER_ID_SHIFT) mod 2 ^ 64 = w * 2 ^ 12) as ->.
  { layout_numbers. rewrite Z.mod_small by lia. lia. }
  assert (Z.lor ((t - CUSTOM_EPOCH) * 2 ^ 22) (w * 2 ^ 12)
          = ((t - CUSTOM_EPOCH) * 2 ^ 10 + w) * 2 ^ 12) as ->.
  { rewrite lor_shifted; layout_numbers; lia. }
  rewrite lor_shifted by (layout_numbers; lia). layout_numbers.
  rewrite Z.mod_small by lia. destruct (Z.ltb_spec
    (((t - 1704067200000) * 1024 + w) * 4096 + s) 9223372036854775808); lia.
Qed.

Lemma compose_id_fields t w s :
  timestamp_ok t -> worker_ok w -> seq_ok s ->
  let id := compose_id t w s in
  0 <= id < 2 ^ 63 /\ Z.shiftr id 22 = t - CUSTOM_EPOCH /\
  Z.land (Z.shiftr id 12) MAX_WORKER_ID = w /\ Z.land id MAX_SEQUENCE = s.
Proof.
  intros Ht Hw Hs. cbv zeta. rewrite compose_id_sum by done.
  change MAX_WORKER_ID with (Z.ones 10). change MAX_SEQUENCE with (Z.ones 12).
  rewrite !Z.land_ones, !Z.shiftr_div_pow2 by done. layout_numbers.
  set (d := t - 1704067200000) in *.
  assert (d * 4194304 + w * 4096 + s = s + (d * 1024 + w) * 4096) as E by lia.
  split; [lia|]. split; [|rewrite E; split].
  - symmetry. apply (Z.div_unique _ _ _ (w * 4096 + s)); lia.
  - rewrite Z.div_add, (Z.div_small s) by lia. rewrite Z.add_0_l, Z.add_comm, Z.mod_add by lia.
    apply Z.mod_small. lia.
  - rewrite Z.mod_add by lia. apply Z.mod_small. lia.
Qed.

(** ** One call at a time *)

(** [(t, s)] was issued later than [(t', s')]. *)
Definition later (a b : Z * Z) : Prop := fst a < fst b \/ fst a = fst b /\ snd a < snd b.

Section Serial.
Context (reading : Z -> Prop).

(** A call that alone moves on the generator: what it returns comes after
    everything issued up to [(floor_ts, floor_seq - 1)], and its timestamp was
    read from the clock. *)
Record fresh (floor_ts floor_seq : Z) (g : generator) : Prop := {
  fresh_seq : 0 <= sequence g;
  fresh_floor : floor_ts < last_timestamp g \/ floor_ts = last_timestamp g /\ floor_seq <= sequence g
}.

Definition call_ok (floor_ts floor_seq : Z) (g : generator) (c : call) : Prop :=
  match c with
  | Load | WaitUntil _ => fresh floor_ts floor_seq g
  | ReadClock l => l = last_timestamp g /\ fresh floor_ts floor_seq g
  | SameMs t => t = last_timestamp g /\ reading t /\ fresh floor_ts floor_seq g
  | WaitAfter t => fresh floor_ts floor_seq g
  | Swap l t => l = last_timestamp g /\ l < t /\ reading t /\ fresh floor_ts floor_seq g
  | Reset t => t = last_timestamp g /\ floor_ts < t /\ reading t /\ 0 <= sequence g
  | Claim t => t = last_timestamp g /\ floor_ts < t /\ reading t /\ sequence g = 0
  | Returned t s =>
      t = last_timestamp g /\ sequence g = s + 1 /\ reading t /\ 0 <= s < MAX_SEQUENCE /\
      (floor_ts < t \/ floor_ts = t /\ floor_seq <= s)
  end.

Lemma succ_small z : 0 <= z < 2 ^ 62 -> i64_wrapping_succ z = z + 1.
Proof.
  intros H. unfold i64_wrapping_succ, i64_of_u64, u64_wrap.
  change (2 ^ 62) with 4611686018427387904 in *. change (2 ^ 64) with 18446744073709551616.
  change (2 ^ 63) with 9223372036854775808. rewrite Z.mod_small by lia.
  destruct (Z.ltb_spec (z + 1) 9223372036854775808); lia.
Qed.

Lemma wrap_small z : 0 <= z < 2 ^ 62 -> u64_wrap z = z.
Proof.
  intros H. unfold u64_wrap. change (2 ^ 62) with 4611686018427387904 in *.
  change (2 ^ 64) with 18446744073709551616. apply Z.mod_small. lia.
Qed.

Lemma step_call_ok now ft fs g c :
  reading now -> 0 <= sequence g < 2 ^ 62 -> call_ok ft fs g c ->
  let '(g', c') := step_call now g c in call_ok ft fs g' c' /\ 0 <= sequence g' <= sequence g + 1.
Proof.
  intros Hn Hb. destruct c as [|l|l|t|t|l t|t|t|t s]; cbn [step_call call_ok].
  - intros H. cbn. split; [done|lia].
  - intros [-> Hf]. destruct (Z.ltb_spec now (last_timestamp g)); [cbn; split; [done|lia]|].
    destruct (Z.eqb_spec now (last_timestamp g)); cbn; (split; [|lia]);
      [done|]. repeat split; try apply Hf; try done; lia.
  - intros Hf. destruct (now <? l); cbn; (split; [done|lia]).
  - intros (-> & Hr & [H0 Hf]). rewrite succ_small, wrap_small by lia.
    destruct (Z.ltb_spec (sequence g) MAX_SEQUENCE); cbn [call_ok sequence last_timestamp];
      (split; [|lia]).
    + split; [done|]. split; [done|]. split; [done|]. split; [lia|]. done.
    + split; cbn; lia.
  - intros Hf. destruct (now <=? t); cbn; (split; [done|lia]).
  - intros (-> & Hlt & Hr & [H0 Hf]). rewrite Z.eqb_refl. cbn. split; [|lia].
    split; [done|]. split; [lia|]. split; [done|lia].
  - intros (-> & Hlt & Hr & _). cbn. split; [|lia]. done.
  - intros (-> & Hlt & Hr & H0). rewrite succ_small, wrap_small by lia. cbn. rewrite H0.
    split; [|lia]. split; [done|]. split; [lia|]. split; [done|]. split; [|by left].
    unfold MAX_SEQUENCE, SEQUENCE_BITS. change (Z.shiftl 1 12) with 4096. lia.
  - intros H. cbn. split; [done|lia].
Qed.

Lemma generate_ok ft fs clock g c t s g' rest :
  Forall reading clock -> 0 <= sequence g -> sequence g + Z.of_nat (length clock) < 2 ^ 62 ->
  call_ok ft fs g c -> generate clock g c = Some (t, s, g', rest) ->
  call_ok ft fs g' (Returned t s) /\ Forall reading rest /\
  0 <= sequence g' /\ sequence g' + Z.of_nat (length rest) < 2 ^ 62.
Proof.
  revert g c. induction clock as [|now clock IH]; intros g c Hr H0 Hb Hok E.
  { destruct c; cbn in E; try done. injection E as <- <- <- <-. done. }
  assert ((exists t s, c = Returned t s) \/ (forall t s, c <> Returned t s)) as [(t1 & s1 & ->)|Hc].
  { destruct c; (by right) || (left; by eauto). }
  { injection E as <- <- <- <-. done. }
  rewrite Forall_cons in Hr. destruct Hr as [Hn Hr]. rewrite length_cons in Hb.
  pose proof (step_call_ok now ft fs g c Hn) as Hs. destruct (step_call now g c) as [g1 c1] eqn:Es.
  assert (generate clock g1 c1 = Some (t, s, g', rest)) as E1.
  { destruct c; cbn [generate] in E; rewrite ?Es in E; try done. by destruct (Hc timestamp seq). }
  destruct Hs as [Hok1 Hb1]; [lia|done|]. apply (IH g1 c1); try done; lia.
Qed.

Lemma serial_ok n clock ft fs g :
  Forall reading clock -> 0 <= sequence g -> sequence g + Z.of_nat (length clock) < 2 ^ 62 ->
  fresh ft fs g ->
  Sorted.StronglySorted later (serial n clock g) /\
  Forall (fun p => (ft < fst p \/ ft = fst p /\ fs <= snd p) /\ reading (fst p) /\
                   0 <= snd p < MAX_SEQUENCE) (serial n clock g).
Proof.
  revert clock ft fs g. induction n as [|n IH]; intros clock ft fs g Hr H0 Hb Hf; cbn [serial].
  { split; constructor. }
  destruct (generate clock g Load) as [[[[t s] g'] rest]|] eqn:E; [|split; constructor].
  apply (generate_ok ft fs) in E as ((-> & Hs & Ht & Hb' & Hfl) & Hr' & H0' & Hb1); [|done..].
  destruct (IH rest (last_timestamp g') (s + 1) g') as [Hsort Hall]; [done|done|done| |].
  { split; [lia|]. right. split; [done|lia]. }
  split.
  - constructor; [done|]. eapply Forall_impl; [exact Hall|]. intros [t1 s1] [H1 _]. cbn in *.
    unfold later. cbn. lia.
  - constructor; [done|]. eapply Forall_impl; [exact Hall|]. intros [t1 s1] [H1 H2]. cbn in *.
    split; [|exact H2]. lia.
Qed.
End Serial.

(** ** Overlapping calls within one millisecond *)

Definition is_returned (c : call) : bool := match c with Returned _ _ => true | _ => false end.

Lemma returned_insert calls i c c' :
  calls !! i = Some c -> is_returned c = false ->
  returned (<[i := c']> calls) ≡ₚ returned [c'] ++ returned calls.
Proof.
  intros Hi Hc. rewrite <- (take_drop_middle calls i c Hi) at 2.
  rewrite insert_take_drop by (by eapply lookup_lt_Some).
  unfold returned. rewrite !omap_app. cbn [omap list_omap].
  assert (match c with Returned ts seq => Some (ts, seq) | _ => None end = None) as E by (by destruct c).
  cbn. rewrite E. destruct c'; try done. by rewrite <- Permutation_middle.
Qed.

Definition within (t n0 : Z) (g : generator) (c : call) : Prop :=
  match c with
  | Load => True
  | ReadClock t' | SameMs t' | WaitAfter t' => t' = t
  | Returned t' s => t' = t /\ n0 <= s < sequence g /\ s < MAX_SEQUENCE
  | WaitUntil _ | Swap _ _ | Reset _ | Claim _ => False
  end.

Lemma within_grows t n0 g g' c : sequence g <= sequence g' -> within t n0 g c -> within t n0 g' c.
Proof. intros Hg. destruct c; cbn; try done. lia. Qed.

Record same_ms (t n0 : Z) (s : system) : Prop := {
  same_last : last_timestamp (fst s) = t;
  same_seq : 0 <= n0 <= sequence (fst s);
  same_calls : Forall (within t n0 (fst s)) (snd s);
  same_distinct : NoDup (returned (snd s))
}.

Lemma returned_within t n0 g calls :
  Forall (within t n0 g) calls ->
  Forall (fun p => fst p = t /\ n0 <= snd p < sequence g /\ snd p < MAX_SEQUENCE) (returned calls).
Proof.
  induction 1 as [|c calls Hc _ IH]; [constructor|]. destruct c; cbn in *; try done.
  constructor; [done|exact IH].
Qed.

Lemma same_ms_step t n0 s move :
  same_ms t n0 s -> snd move = t -> sequence (fst s) < 2 ^ 62 ->
  same_ms t n0 (step_system s move) /\ sequence (fst (step_system s move)) <= sequence (fst s) + 1.
Proof.
  destruct s as [g calls], move as [i now]. intros [Hl Hs Hc Hd] Hnow Hb. cbn in *. subst now.
  destruct (calls !! i) as [c|] eqn:Ei; [|split; [done|cbn; lia]].
  pose proof (Forall_lookup_1 _ _ _ _ Hc Ei) as Hw.
  assert (forall g' c', last_timestamp g' = t -> sequence g <= sequence g' <= sequence g + 1 ->
    within t n0 g' c' -> is_returned c = false ->
    (forall p, p ∈ returned [c'] -> p ∉ returned calls) ->
    same_ms t n0 (g', <[i := c']> calls) /\ sequence g' <= sequence g + 1) as Hnew.
  { intros g' c' Hl' Hs' Hc' Hr Hf. split; [|lia]. split; cbn; [done|lia| |].
    - apply Forall_insert; [|done]. eapply Forall_impl; [exact Hc|]. intros x. apply within_grows. lia.
    - rewrite (returned_insert _ _ _ _ Ei Hr). apply NoDup_app. split; [|done].
      destruct c'; cbn; try constructor; [|constructor]. set_solver. }
  destruct c as [|l|l|t'|t'|l t'|t'|t'|t' s]; cbn in Hw; try done; cbn [step_call].
  - apply Hnew; cbn; try done; lia || set_solver.
  - subst l. rewrite Z.ltb_irrefl, Z.eqb_refl. apply Hnew; cbn; try done; lia || set_solver.
  - subst t'. rewrite succ_small, wrap_small by lia. destruct (Z.ltb_spec (sequence g) MAX_SEQUENCE).
    + apply Hnew; cbn; try done; [lia|lia|]. intros p ->%list_elem_of_singleton Hp.
      pose proof (returned_within _ _ _ _ Hc) as HF. rewrite Forall_forall in HF.
      specialize (HF _ Hp). cbn in HF. lia.
    + apply Hnew; cbn; try done; lia || set_solver.
  - subst t'. rewrite Z.leb_refl. apply Hnew; cbn; try done; lia || set_solver.
  - rewrite list_insert_id by done. split; [done|cbn; lia].
Qed.

Lemma same_ms_run t n0 schedule s :
  same_ms t n0 s -> Forall (fun move => snd move = t) schedule ->
  sequence (fst s) + Z.of_nat (length schedule) < 2 ^ 62 -> same_ms t n0 (run_schedule s schedule).
Proof.
  revert s. induction schedule as [|move schedule IH]; intros s Hs Hf Hb; [done|].
  rewrite Forall_cons in Hf. rewrite length_cons in Hb.
  destruct (same_ms_step t n0 s move) as [H1 H2]; [done|apply Hf|lia|].
  apply (IH (step_system s move)); [done|apply Hf|lia].
Qed.

(** ** Workers *)

Lemma claim_worker_sound db now used wids t t' wid :
  (forall w s, s ⊆ others db w s) ->
  claim_worker db now used wids t = (Ok wid, t') ->
  (wid ∈ wids) /\ (wid ∉ used) /\ t !! wid = None /\ t' !! wid = Some now /\ t ⊆ t'.
Proof.
  intros Ho. revert t. induction wids as [|w wids IH]; intros t; cbn [claim_worker]; [done|].
  case_bool_decide as Hw.
  { intros (? & ? & ? & ?)%IH. split; [by apply list_elem_of_further|done]. }
  unfold try_insert_worker. destruct (insert_error db w); [done|].
  destruct (others db w t !! w) eqn:Eo.
  - intros (? & ? & H1 & H2 & H3)%IH. split; [by apply list_elem_of_further|]. split; [done|].
    split; [by eapply lookup_weaken_None|]. split; [done|]. transitivity (others db w t); done.
  - intros [= <- <-]. split; [apply list_elem_of_here|]. split; [done|]. split; [by eapply lookup_weaken_None|].
    split; [apply lookup_insert_eq|]. transitivity (others db w t); [done|]. by apply insert_subseteq.
Qed.

Lemma claim_worker_alone now t wids :
  match claim_worker quiet now (fst <$> map_to_list t) wids t with
  | (Ok wid, t') =>
      t' = <[wid := now]> t /\ t !! wid = None /\
      exists before after, wids = before ++ wid :: after /\ Forall (fun w => is_Some (t !! w)) before
  | (Err e, t') => e = NoAvailableWorker /\ t' = t /\ Forall (fun w => is_Some (t !! w)) wids
  end.
Proof.
  assert (forall w, w ∈ (fst <$> map_to_list t) <-> is_Some (t !! w)) as Hin.
  { intros w. rewrite list_elem_of_fmap. split.
    - intros ([k v] & -> & H%elem_of_map_to_list). by exists v.
    - intros [v Hv]. exists (w, v). split; [done|]. by apply elem_of_map_to_list. }
  induction wids as [|w wids IH]; cbn [claim_worker]; [split; [done|]; split; [done|constructor]|].
  case_bool_decide as Hw.
  - apply Hin in Hw. destruct (claim_worker _ _ _ wids t) as [[wid|e] t'].
    + destruct IH as (? & ? & before & after & -> & Hb). split; [done|]. split; [done|].
      exists (w :: before), after. split; [done|]. by constructor.
    + destruct IH as (? & ? & ?). split; [done|]. split; [done|]. by constructor.
  - rewrite Hin in Hw. unfold try_insert_worker. cbn [quiet insert_error others]. destruct (t !! w) eqn:Ew; [by destruct Hw|].
    split; [done|]. split; [done|]. exists [], wids. split; [done|constructor].
Qed.

(** ** Properties *)

(** An identifier is a faithful pack of its three fields: for a
    timestamp within 41 bits of the epoch, a worker id up to 1023 and a
    sequence number up to 4095, the 64-bit composition is a non-negative [i64]
    from which the shifts and masks of the layout read the three fields back;
    so workers with distinct ids never issue the same identifier. *)
Theorem compose_id_roundtrip t w s :
  timestamp_ok t -> worker_ok w -> seq_ok s ->
  (0 <= compose_id t w s < 2 ^ 63 /\ Z.shiftr (compose_id t w s) TIMESTAMP_SHIFT = t - CUSTOM_EPOCH /\
   Z.land (Z.shiftr (compose_id t w s) WORKER_ID_SHIFT) MAX_WORKER_ID = w /\
   Z.land (compose_id t w s) MAX_SEQUENCE = s) /\
  forall t' w' s', timestamp_ok t' -> worker_ok w' -> seq_ok s' ->
    compose_id t' w' s' = compose_id t w s -> t' = t /\ w' = w /\ s' = s.
Proof.
  intros Ht Hw Hs. split; [by apply compose_id_fields|]. intros t' w' s' Ht' Hw' Hs' E.
  destruct (compose_id_fields t w s Ht Hw Hs) as (_ & H1 & H2 & H3).
  destruct (compose_id_fields t' w' s' Ht' Hw' Hs') as (_ & H1' & H2' & H3').
  rewrite E in H1', H2', H3'. split; [lia|]. split; congruence.
Qed.

Lemma compose_id_roundtrip_witness :
  Z.land (compose_id 1704067200005 7 9) MAX_SEQUENCE = 9.
Proof.
  apply (compose_id_roundtrip 1704067200005 7 9);
    unfold timestamp_ok, worker_ok, seq_ok, CUSTOM_EPOCH; (split; [by vm_compute | by vm_compute]).
Defined.

(** Calls that follow one another never repeat or go back: whatever the
    clock shows (standing still, jumping ahead, running backwards), the
    identifiers of one generator strictly increase and are non-negative, as
    long as the clock stays in the 41 bits of the layout.  A millisecond holds
    at most 4095 of them: 4095 itself is never used as a sequence number. *)
Theorem serial_ids_increase calls clock w g :
  0 <= w -> new w = Some g -> Forall timestamp_ok clock -> Z.of_nat (length clock) < 2 ^ 62 ->
  let issued := serial calls clock g in
  let ids := (fun p => compose_id (fst p) w (snd p)) <$> issued in
  Sorted.StronglySorted Z.lt ids /\ Forall (fun i => 0 <= i < 2 ^ 63) ids /\
  Forall (fun p => snd p < MAX_SEQUENCE) issued.
Proof.
  intros H0 Hg Hc Hl. cbv zeta. unfold new in Hg.
  destruct (Z.leb_spec w MAX_WORKER_ID) as [Hle|]; [injection Hg as <-|done].
  assert (worker_ok w) as Hw by (split; assumption). clear H0 Hle.
  destruct (serial_ok timestamp_ok calls clock (-1) 0 generator_new) as [Hs Ha];
    [done|done|cbn; lia|split; cbn; lia|].
  assert (forall p : Z * Z, timestamp_ok (fst p) /\ 0 <= snd p < MAX_SEQUENCE -> seq_ok (snd p)) as Hq
    by (unfold seq_ok; intros ? [_ ?]; lia).
  induction Hs as [|p l Hs IH Hp]; [repeat constructor|].
  apply Forall_cons in Ha as [[_ H1] Ha]. destruct (IH Ha) as (IH1 & IH2 & IH3). cbn [fmap list_fmap].
  rewrite Forall_forall in Ha, Hp.
  split; [|split; constructor; [|done| |done] ].
  - constructor; [done|]. apply Forall_fmap, Forall_forall. intros q Hin. cbn.
    destruct (Ha q Hin) as [_ H2]. specialize (Hp q Hin) as [Hlt|[Heq Hlt] ].
    + rewrite !compose_id_sum by (done || apply H1 || apply H2 || by apply Hq).
      destruct H1 as [_ H1], H2 as [_ H2]. layout_numbers. lia.
    + rewrite !compose_id_sum by (done || apply H1 || apply H2 || by apply Hq). rewrite Heq. lia.
  - apply compose_id_fields; [apply H1|done|by apply Hq].
  - apply H1.
Qed.

Lemma serial_ids_increase_witness :
  let clock := replicate 30 1704067200123 in
  length (serial 5 clock generator_new) = 5%nat /\
  Sorted.StronglySorted Z.lt
    ((fun p => compose_id (fst p) 3 (snd p)) <$> serial 5 clock generator_new).
Proof.
  cbv zeta. split; [reflexivity|].
  apply (serial_ids_increase 5 (replicate 30 1704067200123) 3 generator_new).
  - by vm_compute.
  - reflexivity.
  - apply Forall_replicate. unfold timestamp_ok, CUSTOM_EPOCH. split; [by vm_compute | by vm_compute].
  - by vm_compute.
Defined.

(** A call returns: in five accesses once the clock shows a new
    millisecond (with sequence number 0), in three within the current one
    while numbers are left (with the next number); when the clock went back it
    waits, without touching the generator, until the clock catches up. *)
Theorem generate_returns t g rest :
  (last_timestamp g < t ->
   generate (t :: t :: t :: t :: t :: rest) g Load
   = Some (t, 0, {| sequence := 1; last_timestamp := t |}, rest)) /\
  (t = last_timestamp g -> 0 <= sequence g < MAX_SEQUENCE ->
   generate (t :: t :: t :: rest) g Load
   = Some (t, sequence g, {| sequence := sequence g + 1; last_timestamp := t |}, rest)) /\
  (forall n, t < last_timestamp g ->
   generate (replicate (2 + n) t ++ last_timestamp g :: rest) g Load = generate rest g Load).
Proof.
  split; [|split].
  - intros Ht. cbn. destruct (Z.ltb_spec t (last_timestamp g)); [lia|].
    destruct (Z.eqb_spec t (last_timestamp g)); [lia|]. cbn. rewrite Z.eqb_refl.
    cbn. by destruct rest.
  - intros -> Hs. cbn. rewrite Z.ltb_irrefl, Z.eqb_refl. cbn.
    assert (sequence g < 4096) by (change 4096 with (MAX_SEQUENCE + 1); lia).
    rewrite succ_small, wrap_small by lia. rewrite (proj2 (Z.ltb_lt _ _)) by apply Hs.
    by destruct rest.
  - intros n Ht. cbn. destruct (Z.ltb_spec t (last_timestamp g)); [|lia].
    induction n as [|n IH]; cbn.
    + by rewrite Z.ltb_irrefl.
    + destruct (Z.ltb_spec t (last_timestamp g)); [done|lia].
Qed.

(** Within one millisecond overlapping calls are safe: however the
    accesses of any number of concurrent calls interleave while the clock
    shows the generator's current millisecond, what they return is pairwise
    distinct and never used before. *)
Theorem same_ms_calls_distinct (n : nat) g schedule :
  0 <= sequence g -> sequence g + Z.of_nat (length schedule) < 2 ^ 62 ->
  Forall (fun move => snd move = last_timestamp g) schedule ->
  let results := returned (snd (run_schedule (g, replicate n Load) schedule)) in
  NoDup results /\
  Forall (fun p => fst p = last_timestamp g /\ sequence g <= snd p < MAX_SEQUENCE) results.
Proof.
  intros H0 Hb Hf. cbv zeta.
  destruct (same_ms_run (last_timestamp g) (sequence g) schedule (g, replicate n Load)) as [_ _ Hc Hd];
    [|done|done|].
  - split; cbn; [done|lia|by apply Forall_replicate|]. induction n as [|n IH]; [constructor|exact IH].
  - split; [done|]. eapply Forall_impl; [by apply returned_within|]. cbn. intros p ?. lia.
Qed.

Lemma same_ms_calls_distinct_witness :
  let g := {| sequence := 4; last_timestamp := 9 |} in
  let schedule := [(0, 9); (1, 9); (1, 9); (0, 9); (0, 9); (1, 9)]%nat in
  let schedule := (fun p => (fst p, Z.of_nat (snd p))) <$> schedule in
  returned (snd (run_schedule (g, replicate 2 Load) schedule)) = [(9, 4); (9, 5)] /\
  NoDup (returned (snd (run_schedule (g, replicate 2 Load) schedule))).
Proof.
  cbv zeta. split; [reflexivity|].
  apply (same_ms_calls_distinct 2 {| sequence := 4; last_timestamp := 9 |});
    [by vm_compute | by vm_compute | repeat constructor].
Defined.

(** Across milliseconds overlapping calls can collide, against what the
    generator promises.  The winner of a new millisecond publishes the
    timestamp before it resets the sequence: a call in between takes a number
    that the reset gives out again.  And a call delayed between reading the
    clock and taking its number composes the old millisecond with a number of
    the new one, which the old millisecond may have used.  Both schedules
    below end with two calls holding the same pair. *)
Theorem overlapping_calls_can_collide :
  returned (snd (run_schedule (generator_new, replicate 2 Load)
    ((fun i => (i, 1)) <$> [0; 0; 0; 1; 1; 1; 0; 0]%nat))) = [(1, 0); (1, 0)] /\
  returned (snd (run_schedule ({| sequence := 1; last_timestamp := 1 |}, replicate 4 Load)
    (((fun i => (i, 1)) <$> [0; 0; 1; 1; 1]%nat) ++ ((fun i => (i, 2)) <$> [2; 2; 2; 2; 2; 0]%nat))))
    = [(1, 1); (1, 1); (2, 0)].
Proof. split; reflexivity. Qed.

(** Worker ids are exclusive while their rows live: whatever other
    servers insert or refresh meanwhile, a registration returns an id in
    range that no live row held when it started, and its row is in the table;
    a server that registers alone gets the lowest free id, and is refused
    exactly when all 1024 are taken; a task that finds the process already
    initialised after it registered takes its row out again. *)
Theorem register_worker_exclusive db now t :
  (forall wid t', (forall w s, s ⊆ others db w s) -> register_worker db now t = (Ok wid, t') ->
   worker_ok wid /\ clean_stale_workers now t !! wid = None /\ t' !! wid = Some now /\
   clean_stale_workers now t ⊆ t') /\
  match register_worker quiet now t with
  | (Ok wid, t') =>
      worker_ok wid /\ t' = <[wid := now]> (clean_stale_workers now t) /\
      clean_stale_workers now t !! wid = None /\
      forall w, 0 <= w < wid -> is_Some (clean_stale_workers now t !! w)
  | (Err e, _) =>
      e = NoAvailableWorker /\ forall w, worker_ok w -> is_Some (clean_stale_workers now t !! w)
  end /\
  (forall g h global t', init quiet now (Some g) None t = (Ok h, global, t') ->
   beats h = false /\ global = Some g /\ t' = clean_stale_workers now t).
Proof.
  assert (forall w, w ∈ all_worker_ids <-> worker_ok w) as Hall.
  { intros w. unfold all_worker_ids, worker_ok. rewrite elem_of_seqZ. lia. }
  unfold register_worker. split.
  - intros wid t' Ho. destruct (delete_error db); [done|]. destruct (select_error db); [done|].
    intros (H1 & _ & H2)%claim_worker_sound; [|done]. split; [by apply Hall|done].
  - unfold init, register_worker.
    pose proof (claim_worker_alone now (clean_stale_workers now t) all_worker_ids) as H.
    cbn [quiet delete_error select_error]. destruct (claim_worker _ _ _ _ _) as [[wid|e] t'].
    + destruct H as (-> & Hn & before & after & Hb & HF).
      assert (worker_ok wid) as Hw by (apply Hall; rewrite Hb; set_solver).
      split; [|intros g h global t' [= <- <- <-]; split; [done|]; split; [done|]; exact (delete_insert_id _ _ _ Hn)].
      split; [done|]. split; [done|]. split; [done|]. intros w Hlt. rewrite Forall_forall in HF.
      apply HF. assert (w ∈ all_worker_ids) as Hin by (apply Hall; unfold worker_ok in *; lia).
      unfold all_worker_ids in *. apply list_elem_of_lookup in Hin as [i Hi].
      assert (before !! i = Some w \/ (length before <= i)%nat) as [?|Hge].
      { rewrite Hb in Hi. apply lookup_app_Some in Hi as [?|[? _] ]; [by left|by right]. }
      { by eapply list_elem_of_lookup_2. }
      exfalso. assert (seqZ 0 (MAX_WORKER_ID + 1) !! length before = Some wid) as Hwid
        by (rewrite Hb; apply list_lookup_middle; done).
      apply lookup_seqZ in Hi as [-> _], Hwid as [-> _]. lia.
    + destruct H as (-> & _ & HF). split; [|done]. split; [done|]. intros w Hw. rewrite Forall_forall in HF.
      apply HF. by apply Hall.
Qed.

(** A server that misses its heartbeats for more than 30 seconds loses its
    row, is not told, and goes on with an id that the next server receives. *)
Lemma lapsed_worker_id_is_reused :
  let t := snd (register_worker quiet 0 ∅) in
  fst (register_worker quiet 0 ∅) = Ok 0 /\
  fst (register_worker quiet 31 t) = Ok 0 /\
  forall now, heartbeat now (clean_stale_workers 31 t) 0 = clean_stale_workers 31 t.
Proof. cbv zeta. split; [by vm_compute|]. split; [by vm_compute|]. intros now. reflexivity. Qed.
