(* ===== verification/DbRouter.v ===== *)
(** * The read-write router ([server/src/utils/db_router.rs])

    Routing of statements to the writer or to read replicas, the circuit
    breaker of each replica, the choice among healthy replicas, the retries of
    a read, and the recognition of statements that must go to the writer.

    A connection is a name ([target]); running a statement on it, the clock
    and the random numbers are parameters, numbered by how often they were
    used.  What the router does is logged in [attempts]. *)

From S2P Require Import Prelude.

(** ** Errors of the database layer, as far as the router looks at them *)

Inductive DbErr :=
| Conn (message : str)
| ConnectionAcquire (message : str)
| Query (sqlstate : option str) (message : str)
| OtherErr (message : str).

(** [Display]. *)
Definition db_err_to_string (e : DbErr) : str :=
  match e with Conn m | ConnectionAcquire m | Query _ m | OtherErr m => m end.

Definition pg_sqlstate (e : DbErr) : option str :=
  match e with Query code _ => code | _ => None end.

Definition connection_hints : list str :=
  [ lit "broken pipe"; lit "connection reset"; lit "io error"; lit "network"; lit "eof";
    lit "transport" ].

Definition is_connection_error (e : DbErr) : bool :=
  match e with
  | Conn _ | ConnectionAcquire _ => true
  | Query _ _ =>
      match pg_sqlstate e with
      | Some code =>
          existsb (str_eqb code) [lit "57P01"; lit "57P02"; lit "57P03"]
          || existsb (fun h => contains h (to_ascii_lowercase (db_err_to_string e))) connection_hints
      | None => existsb (fun h => contains h (to_ascii_lowercase (db_err_to_string e))) connection_hints
      end
  | OtherErr _ => false
  end.

Definition is_recovery_conflict (e : DbErr) : bool :=
  match pg_sqlstate e with Some code => str_eqb code (lit "40001") | None => false end.

(** What makes the router try elsewhere. *)
Definition retryable (e : DbErr) : bool := is_connection_error e || is_recovery_conflict e.

(** ** Recognising writes

    The code walks over bytes; every byte it looks for is ASCII, so it finds
    the same in the sequence of characters. *)

Definition is_locking_select (sql : str) : bool :=
  if is_empty sql then false
  else
    let up := to_ascii_uppercase sql in
    contains (lit "FOR UPDATE") up || contains (lit "FOR SHARE") up
    || contains (lit "FOR NO KEY UPDATE") up || contains (lit "FOR KEY SHARE") up
    || contains (lit "LOCK IN SHARE MODE") up.

Definition open_paren : char := 40%N.
Definition close_paren : char := 41%N.

Definition write_keywords : list str :=
  [ lit "INSERT "; lit "UPDATE "; lit "DELETE "; lit "REPLACE " ].

Definition starts_write (s : str) : bool := existsb (fun keyword => starts_with keyword s) write_keywords.

Fixpoint cte_scan (depth : nat) (s : str) : bool :=
  match s with
  | [] => false
  | c :: rest =>
      if (c =? open_paren)%N then cte_scan (S depth) rest
      else if (c =? close_paren)%N && (0 <? depth) then cte_scan (pred depth) rest
      else if (depth =? 0) && starts_write s then true
      else cte_scan depth rest
  end.

Definition cte_main_stmt_is_write (uppercase_sql : str) : bool :=
  let rest := drop (length (lit "WITH ")) uppercase_sql in
  let rest := default rest (strip_prefix (lit "RECURSIVE ") rest) in
  cte_scan 0 rest.

Definition is_write_statement (sql : str) : bool :=
  if is_empty sql then false
  else
    let up := to_ascii_uppercase (trim_start sql) in
    if starts_write up then true
    else if starts_with (lit "WITH ") up then cte_main_stmt_is_write up else false.

(** ** The router *)

Inductive ReadStrategy := RoundRobin | Random | Weighted.

Inductive target := Writer | Replica (index : nat).
#[export] Instance target_eq_dec : EqDecision target.
Proof. solve_decision. Defined.

Record AutoRouter := {
  weights : list N;
  strategy : ReadStrategy;
  circuit_break : Z;
  retry_attempts : nat;
  fallback_to_write : bool
}.

(** One replica per weight. *)
Definition replicas (r : AutoRouter) : nat := length (weights r).

Definition parse_strategy (lowered : str) : ReadStrategy :=
  if str_eqb lowered (lit "random") then Random
  else if str_eqb lowered (lit "weighted") then Weighted else RoundRobin.

(** The weights of the replicas that connected, by their position in the
    configuration. *)
Definition replica_weights (read_weights : list N) (connected : list nat) : list N :=
  (fun i => if is_empty read_weights then 1%N else N.max (default 1%N (read_weights !! i)) 1) <$> connected.

Definition read_weights_ok (read_weights : list N) (read_urls : nat) : bool :=
  is_empty read_weights || (length read_weights =? read_urls).

(** The shared state: [down_until] per replica and the counter; how often the
    clock and the random source were read; the statements run so far. *)
Record routing := {
  down_until : list (option Z);
  rr_counter : N;
  clock_reads : nat;
  rolls : nat;
  attempts : list target
}.

Definition with_down (s : routing) (l : list (option Z)) : routing :=
  {| down_until := l; rr_counter := rr_counter s; clock_reads := S (clock_reads s);
     rolls := rolls s; attempts := attempts s |}.
Definition with_counter (s : routing) (n : N) : routing :=
  {| down_until := down_until s; rr_counter := n; clock_reads := clock_reads s;
     rolls := rolls s; attempts := attempts s |}.
Definition rolled (s : routing) : routing :=
  {| down_until := down_until s; rr_counter := rr_counter s; clock_reads := clock_reads s;
     rolls := S (rolls s); attempts := attempts s |}.
Definition attempted (s : routing) (t : target) : routing :=
  {| down_until := down_until s; rr_counter := rr_counter s; clock_reads := clock_reads s;
     rolls := rolls s; attempts := attempts s ++ [t] |}.

(** The sources of time and randomness.  [gen_range(0..n)] is below [n]. *)
Class Sources := {
  now : nat -> Z;
  gen_range : nat -> N -> N;
  gen_range_below : forall i n, (0 < n)%N -> (gen_range i n < n)%N
}.

Section Router.
Context {W : Sources} (r : AutoRouter).

(** The breaker of a replica lets it through: never tripped, or expired. *)
Definition closed (t : Z) (slot : option Z) : bool :=
  match slot with Some until => (until <=? t)%Z | None => true end.

Definition recover (t : Z) (exclude : list nat) (i : nat) (slot : option Z) : option Z :=
  if bool_decide (i ∈ exclude) then slot else if closed t slot then None else slot.

Definition healthy_at (t : Z) (down : list (option Z)) (exclude : list nat) : list nat :=
  List.filter (fun i => negb (bool_decide (i ∈ exclude)) && closed t (default None (down !! i)))
    (seq 0 (replicas r)).

Fixpoint weighted_choice (fallback : nat) (l : list (nat * N)) (roll : N) : nat :=
  match l with
  | [] => fallback
  | (i, w) :: rest => if (roll <? w)%N then i else weighted_choice fallback rest (roll - w)
  end.

Definition usize_succ (n : N) : N := ((n + 1) mod 2 ^ 64)%N.

Definition round_robin (healthy : list nat) (s : routing) : nat * routing :=
  (nth (N.to_nat (rr_counter s mod N.of_nat (length healthy))) healthy 0,
   with_counter s (usize_succ (rr_counter s))).

Definition select_weighted_index (healthy : list nat) (ws : list N) (s : routing) : nat * routing :=
  let total := foldr N.add 0%N ws in
  if (total =? 0)%N then round_robin healthy s
  else (weighted_choice (hd 0 healthy) (zip healthy ws) (gen_range (rolls s) total), rolled s).

Definition choose (healthy : list nat) (s : routing) : nat * routing :=
  match strategy r with
  | RoundRobin => round_robin healthy s
  | Random =>
      (nth (N.to_nat (gen_range (rolls s) (N.of_nat (length healthy)))) healthy 0, rolled s)
  | Weighted =>
      select_weighted_index healthy ((fun i => default 0%N (weights r !! i)) <$> healthy) s
  end.

Definition pick_next_read (exclude : list nat) (s : routing) : option nat * routing :=
  if replicas r =? 0 then (None, s)
  else
    let t := now (clock_reads s) in
    let healthy := healthy_at t (down_until s) exclude in
    let s := with_down s (imap (recover t exclude) (down_until s)) in
    if is_empty healthy then (None, s)
    else let '(i, s) := choose healthy s in (Some i, s).

Definition mark_down (i : nat) (s : routing) : routing :=
  with_down s (<[i := Some (now (clock_reads s) + circuit_break r)%Z]> (down_until s)).

Section Reads.
Context {T : Type} (op : nat -> target -> result T DbErr).

(** The statement, on a connection. *)
Definition run_on (t : target) (s : routing) : result T DbErr * routing :=
  (op (length (attempts s)) t, attempted s t).

(** After a failed attempt on replica [i]: [None] when the error is final. *)
Definition after_error (i : nat) (e : DbErr) (s : routing) : option routing :=
  if is_connection_error e then Some (mark_down i s)
  else if is_recovery_conflict e then Some s else None.

Inductive phase_result :=
| Finished (v : result T DbErr)
| Exhausted (tried : list nat) (last_err : option DbErr).

(** Phase 1: every replica at most once. *)
Fixpoint phase_one (rounds : nat) (tried : list nat) (last_err : option DbErr) (s : routing) :
    phase_result * routing :=
  match rounds with
  | O => (Exhausted tried last_err, s)
  | S rounds =>
      match pick_next_read tried s with
      | (None, s) => (Exhausted tried last_err, s)
      | (Some i, s) =>
          match run_on (Replica i) s with
          | (Ok v, s) => (Finished (Ok v), s)
          | (Err e, s) =>
              match after_error i e s with
              | Some s => phase_one rounds (i :: tried) (Some e) s
              | None => (Finished (Err e), s)
              end
          end
      end
  end.

(** Phase 2: [retry] counts up, [remaining] is what is left of [retry_attempts]. *)
Fixpoint phase_two (remaining retry : nat) (tried : list nat) (last_err : option DbErr) (s : routing) :
    phase_result * routing :=
  match remaining with
  | O => (Exhausted tried last_err, s)
  | S remaining =>
      let i := (length tried + retry) mod replicas r in
      match run_on (Replica i) s with
      | (Ok v, s) => (Finished (Ok v), s)
      | (Err e, s) =>
          match after_error i e s with
          | Some s => phase_two remaining (retry + 1) tried (Some e) s
          | None => (Finished (Err e), s)
          end
      end
  end.

Definition exhausted_outcome (last_err : option DbErr) (s : routing) : result T DbErr * routing :=
  if fallback_to_write r then run_on Writer s
  else (Err (default (OtherErr (lit "all read attempts exhausted")) last_err), s).

Definition execute_read_retry (s : routing) : result T DbErr * routing :=
  if replicas r =? 0 then run_on Writer s
  else
    match phase_one (replicas r) [] None s with
    | (Finished v, s) => (v, s)
    | (Exhausted tried last_err, s) =>
        match last_err with
        | None => exhausted_outcome None s
        | Some _ =>
            match phase_two (retry_attempts r) 0 tried last_err s with
            | (Finished v, s) => (v, s)
            | (Exhausted _ last_err, s) => exhausted_outcome last_err s
            end
        end
    end.

(** [query_one] and [query_all]. *)
Definition query (sql : str) (s : routing) : result T DbErr * routing :=
  if is_write_statement sql || is_locking_select sql || (replicas r =? 0)
  then run_on Writer s else execute_read_retry s.

(** [execute] and [execute_unprepared]. *)
Definition execute (s : routing) : result T DbErr * routing := run_on Writer s.
End Reads.

(** ** Health checks *)

(** The replicas to probe, collected under the lock; then one ping each. *)
Definition probe_one (ping : nat -> bool) (s : routing) (i : nat) : routing :=
  if ping i
  then {| down_until := <[i := None]> (down_until s); rr_counter := rr_counter s;
          clock_reads := clock_reads s; rolls := rolls s; attempts := attempts s |}
  else mark_down i s.

Definition probe_reads (ping : nat -> bool) (s : routing) : routing :=
  let t := now (clock_reads s) in
  let to_probe := List.filter (fun i => match default None (down_until s !! i) with
                                        | Some until => (until <=? t)%Z
                                        | None => false
                                        end) (seq 0 (replicas r)) in
  fold_left (probe_one ping) to_probe (with_down s (down_until s)).
End Router.

(** ** Choosing a replica *)

Section Choice.
Context {W : Sources} (r : AutoRouter).
Implicit Types (s : routing) (t : Z) (i j : nat).

Definition slot_of s i : option Z := default None (down_until s !! i).

Lemma healthy_at_spec t down exclude i :
  i ∈ healthy_at r t down exclude <->
  i < replicas r /\ (i ∉ exclude) /\ closed t (default None (down !! i)) = true.
Proof.
  unfold healthy_at. rewrite list_elem_of_In, List.filter_In, in_seq, andb_true_iff, negb_true_iff,
    bool_decide_eq_false. split; intros; repeat split; try tauto; lia.
Qed.

Lemma round_robin_elem healthy s : healthy <> [] -> fst (round_robin healthy s) ∈ healthy.
Proof.
  intros Hh. apply list_elem_of_In, nth_In.
  assert (N.of_nat (length healthy) <> 0)%N as Hl by (destruct healthy; [done|simpl; lia]).
  pose proof (N.mod_lt (rr_counter s) _ Hl). lia.
Qed.

Lemma weighted_choice_elem fallback l roll :
  weighted_choice fallback l roll = fallback \/ weighted_choice fallback l roll ∈ (fst <$> l).
Proof.
  revert roll. induction l as [|[i w] l IH]; intros roll; cbn [weighted_choice]; [by left|].
  destruct (roll <? w)%N; [right; by left|]. destruct (IH (roll - w)%N) as [H|H]; [by left|].
  right. by right.
Qed.

Lemma choose_elem healthy s : healthy <> [] -> fst (choose r healthy s) ∈ healthy.
Proof.
  intros Hh. unfold choose. destruct (strategy r).
  - by apply round_robin_elem.
  - apply list_elem_of_In, nth_In.
    pose proof (gen_range_below (rolls s) (N.of_nat (length healthy))). destruct healthy; [done|].
    simpl in *. lia.
  - unfold select_weighted_index. destruct (_ =? 0)%N; [by apply round_robin_elem|]. cbn [fst].
    match goal with |- weighted_choice ?f ?l ?roll ∈ _ =>
      destruct (weighted_choice_elem f l roll) as [-> |H] end.
    + destruct healthy; [done|]. by left.
    + apply list_elem_of_fmap in H as ([i w] & -> & H). by apply elem_of_zip_l in H.
Qed.

Lemma choose_state healthy s :
  down_until (snd (choose r healthy s)) = down_until s /\
  attempts (snd (choose r healthy s)) = attempts s.
Proof.
  unfold choose, select_weighted_index. by destruct (strategy r); [|..|destruct (_ =? 0)%N].
Qed.

(** What a pick returns, and what it does to the breakers. *)
Lemma replica_pick_spec exclude s o s' :
  pick_next_read r exclude s = (o, s') ->
  attempts s' = attempts s /\ length (down_until s') = length (down_until s) /\
  (forall j, down_until s' !! j = down_until s !! j \/ down_until s' !! j = Some None) /\
  match o with
  | Some i => i < replicas r /\ (i ∉ exclude) /\ closed (now (clock_reads s)) (slot_of s i) = true
  | None => forall i, i < replicas r -> (i ∉ exclude) -> closed (now (clock_reads s)) (slot_of s i) = false
  end.
Proof.
  unfold pick_next_read. destruct (Nat.eqb_spec (replicas r) 0) as [Hn|Hn].
  { intros [= <- <-]. split; [done|]. split; [done|]. split; [by left|]. lia. }
  set (t := now (clock_reads s)). set (healthy := healthy_at r t (down_until s) exclude).
  set (s1 := with_down s _).
  assert (length (down_until s1) = length (down_until s)) as Hl by apply length_imap.
  assert (forall j, down_until s1 !! j = down_until s !! j \/ down_until s1 !! j = Some None) as Hd.
  { intros j. cbn. rewrite list_lookup_imap. destruct (down_until s !! j) as [slot|]; [|by left].
    cbn. unfold recover. destruct (bool_decide _); [by left|]. destruct (closed t slot); [by right|by left]. }
  destruct (is_empty healthy) eqn:Eh; bool_to_prop.
  - intros [= <- <-]. split; [done|]. split; [done|]. split; [exact Hd|]. intros i Hi Hex.
    destruct (closed t (slot_of s i)) eqn:Ec; [|done].
    assert (i ∈ healthy) as Hin by (by apply healthy_at_spec). rewrite Eh in Hin. set_solver.
  - pose proof (choose_elem healthy s1 Eh) as Hin. destruct (choose_state healthy s1) as [H1 H2].
    destruct (choose r healthy s1) as [i s2]. intros [= <- <-]. cbn in Hin, H1, H2.
    rewrite H1, H2. split; [done|]. split; [done|]. split; [exact Hd|].
    by apply healthy_at_spec in Hin.
Qed.
End Choice.

(** ** Retrying *)

Section Retry.
Context {W : Sources} (r : AutoRouter) {T : Type} (op : nat -> target -> result T DbErr).
Implicit Types (s : routing) (ts : list target).

(** Replica [j] failed with a connection error in one of the attempts [ts],
    numbered from [n]. *)
Definition lost_connection (n : nat) ts (j : nat) : Prop :=
  exists k e, ts !! k = Some (Replica j) /\ op (n + k) (Replica j) = Err e /\
    is_connection_error e = true.

(** From [s] to [s'], running [ts]: breakers only open for lost connections. *)
Record moves s ts s' : Prop := {
  moves_attempts : attempts s' = attempts s ++ ts;
  moves_down : forall j, down_until s' !! j = down_until s !! j \/ down_until s' !! j = Some None \/
                         lost_connection (length (attempts s)) ts j
}.

Lemma moves_refl s s' :
  attempts s' = attempts s ->
  (forall j, down_until s' !! j = down_until s !! j \/ down_until s' !! j = Some None) -> moves s [] s'.
Proof. intros Ha Hd. split; [by rewrite app_nil_r|]. intros j. destruct (Hd j); auto. Qed.

Lemma moves_trans s1 ts1 s2 ts2 s3 : moves s1 ts1 s2 -> moves s2 ts2 s3 -> moves s1 (ts1 ++ ts2) s3.
Proof.
  intros [Ha1 Hd1] [Ha2 Hd2]. split; [by rewrite Ha2, Ha1, app_assoc|]. intros j.
  assert (forall k, lost_connection (length (attempts s2)) ts2 k ->
    lost_connection (length (attempts s1)) (ts1 ++ ts2) k) as Hlater.
  { intros k (x & e & Hx & He & Hc). exists (length ts1 + x), e.
    rewrite lookup_app_r by lia. replace (length ts1 + x - length ts1) with x by lia.
    rewrite Ha1, length_app in He. by replace (length (attempts s1) + (length ts1 + x))
      with (length (attempts s1) + length ts1 + x) by lia. }
  destruct (Hd2 j) as [-> |[?|?] ]; [|by auto..].
  destruct (Hd1 j) as [-> |[?|(x & e & Hx & He & Hc)] ]; [by auto..|]. right; right.
  exists x, e. split; [by apply lookup_app_l_Some|done].
Qed.

Lemma moves_attempt s t : moves s [t] (attempted s t).
Proof. split; [done|]. auto. Qed.

(** A retryable failure on a replica. *)
Lemma moves_failure s i e s' :
  op (length (attempts s)) (Replica i) = Err e ->
  after_error r i e (attempted s (Replica i)) = Some s' -> moves s [Replica i] s' /\ retryable e = true.
Proof.
  unfold after_error, retryable. intros He. destruct (is_connection_error e) eqn:Ec.
  - intros [= <-]. split; [|done]. split; [done|]. intros j. cbn.
    destruct (decide (j = i)) as [-> |Hj].
    + right; right. exists 0, e. by rewrite Nat.add_0_r.
    + left. by rewrite list_lookup_insert_ne.
  - destruct (is_recovery_conflict e); [|done]. intros [= <-]. split; [|done]. apply moves_attempt.
Qed.

Lemma final_failure i e s : after_error r i e s = None -> retryable e = false.
Proof. unfold after_error, retryable. by destruct (is_connection_error e), (is_recovery_conflict e). Qed.

(** All of [ts], numbered from [n], failed in a way that makes the router try
    elsewhere. *)
Definition failing (n : nat) ts : Prop :=
  forall k t, ts !! k = Some t -> exists e, op (n + k) t = Err e /\ retryable e = true.

Lemma failing_nil n : failing n [].
Proof. done. Qed.

Lemma failing_cons n t ts e :
  op n t = Err e -> retryable e = true -> failing (S n) ts -> failing n (t :: ts).
Proof.
  intros He Hr Hf [|k] t'; cbn.
  - intros [= <-]. exists e. by rewrite Nat.add_0_r.
  - intros H. destruct (Hf k t' H) as (e' & H1 & H2). exists e'. by rewrite Nat.add_succ_r.
Qed.

Lemma failing_app n ts1 ts2 : failing n ts1 -> failing (n + length ts1) ts2 -> failing n (ts1 ++ ts2).
Proof.
  intros H1 H2 k t [H|[Hk H] ]%lookup_app_Some; [by apply H1|].
  destruct (H2 _ _ H) as (e & He & Hr). exists e. split; [|done].
  by replace (n + k) with (n + length ts1 + (k - length ts1)) by lia.
Qed.

(** The last attempt decides. *)
Definition decided (n : nat) ts (v : result T DbErr) : Prop :=
  exists before t, ts = before ++ [t] /\ failing n before /\ v = op (n + length before) t.

Lemma decided_cons n t ts v e :
  op n t = Err e -> retryable e = true -> decided (S n) ts v -> decided n (t :: ts) v.
Proof.
  intros He Hr (before & t' & -> & Hf & ->). exists (t :: before), t'. split; [done|].
  split; [by eapply failing_cons|]. cbn. by rewrite Nat.add_succ_r.
Qed.

Lemma decided_app n ts1 ts2 v : failing n ts1 -> decided (n + length ts1) ts2 v -> decided n (ts1 ++ ts2) v.
Proof.
  intros H1 (before & t & -> & H2 & ->). exists (ts1 ++ before), t. split; [by rewrite app_assoc|].
  split; [by apply failing_app|]. rewrite length_app. f_equal. lia.
Qed.

(** What a phase that ran out of attempts leaves behind. *)
Definition ran_out (n : nat) ts (before after : option DbErr) : Prop :=
  failing n ts /\
  match ts with [] => after = before | _ => exists e, after = Some e /\ decided n ts (Err e) end.

Lemma ran_out_cons n t ts e before after :
  op n t = Err e -> retryable e = true -> ran_out (S n) ts (Some e) after ->
  ran_out n (t :: ts) before after.
Proof.
  intros He Hr [Hf Hl]. split; [by eapply failing_cons|]. destruct ts as [|t' ts].
  - exists e. split; [done|]. exists [], t. by rewrite Nat.add_0_r.
  - destruct Hl as (e' & -> & Hd). exists e'. split; [done|]. by eapply decided_cons.
Qed.

Lemma decided_single n t v : op n t = v -> decided n [t] v.
Proof. intros <-. exists [], t. by rewrite Nat.add_0_r. Qed.

Lemma phase_one_spec rounds tried last_err s p s' :
  phase_one r op rounds tried last_err s = (p, s') ->
  exists js, moves s (Replica <$> js) s' /\ length js <= rounds /\ NoDup js /\
    Forall (fun i => i < replicas r /\ (i ∉ tried)) js /\
    match p with
    | Finished v => decided (length (attempts s)) (Replica <$> js) v
    | Exhausted tried' last =>
        tried' = reverse js ++ tried /\
        ran_out (length (attempts s)) (Replica <$> js) last_err last
    end.
Proof.
  revert tried last_err s. induction rounds as [|rounds IH]; intros tried last_err s; cbn [phase_one].
  { intros [= <- <-]. exists []. split; [by apply moves_refl; auto|]. split; [done|].
    split; [constructor|]. split; [constructor|]. by split. }
  destruct (pick_next_read r tried s) as [[i|] s1] eqn:Ep;
    apply replica_pick_spec in Ep as (Ha & _ & Hd & Hi).
  2: { intros [= <- <-]. exists []. split; [by apply moves_refl|]. split; [simpl; lia|].
       split; [constructor|]. split; [constructor|]. by split. }
  pose proof (moves_refl s s1 Ha Hd) as Hm1. unfold run_on. rewrite Ha.
  destruct (op (length (attempts s)) (Replica i)) as [v|e] eqn:Eo.
  { intros [= <- <-]. exists [i]. split; [by eapply (moves_trans _ []); [|apply moves_attempt]|].
    split; [simpl; lia|]. split; [apply NoDup_singleton|]. split; [constructor; [tauto|constructor]|].
    by apply decided_single. }
  destruct (after_error r i e (attempted s1 (Replica i))) as [s2|] eqn:Ee.
  - rewrite <- Ha in Eo. destruct (moves_failure s1 i e s2 Eo Ee) as [Hm2 Hr]. rewrite Ha in Eo.
    pose proof (moves_trans _ _ _ _ _ Hm1 Hm2) as Hm. cbn in Hm.
    assert (length (attempts s2) = S (length (attempts s))) as Hlen
      by (rewrite (moves_attempts _ _ _ Hm), length_app; simpl; lia).
    intros (js & Hm3 & Hle & Hnd & Hall & Hp)%IH. rewrite Hlen in Hp.
    exists (i :: js). rewrite fmap_cons.
    split; [by eapply (moves_trans _ [_])|]. split; [simpl; lia|].
    split; [constructor; [|done]; rewrite Forall_forall in Hall; intros Hin;
            destruct (Hall i Hin) as [_ Hx]; set_solver|].
    split; [constructor; [tauto|]; eapply Forall_impl; [exact Hall|]; set_solver|].
    destruct p as [v|tried' last]; [by eapply decided_cons|].
    destruct Hp as [-> Hg]. split; [by rewrite reverse_cons, <- app_assoc|].
    by eapply ran_out_cons.
  - intros [= <- <-]. exists [i]. split; [by eapply (moves_trans _ []); [|apply moves_attempt]|].
    split; [simpl; lia|]. split; [apply NoDup_singleton|]. split; [constructor; [tauto|constructor]|].
    by apply decided_single.
Qed.

Lemma phase_two_spec remaining retry tried last_err s p s' :
  0 < replicas r -> phase_two r op remaining retry tried last_err s = (p, s') ->
  exists ts, moves s ts s' /\ length ts <= remaining /\
    Forall (fun t => exists i, t = Replica i /\ i < replicas r) ts /\
    match p with
    | Finished v => decided (length (attempts s)) ts v
    | Exhausted tried' last => tried' = tried /\ ran_out (length (attempts s)) ts last_err last
    end.
Proof.
  intros Hn. revert retry last_err s.
  induction remaining as [|remaining IH]; intros retry last_err s; cbn [phase_two].
  { intros [= <- <-]. exists []. split; [by apply moves_refl; auto|]. split; [done|].
    split; [constructor|]. by split. }
  set (i := (length tried + retry) mod replicas r).
  assert (i < replicas r) as Hi by (apply Nat.mod_upper_bound; lia).
  unfold run_on. destruct (op (length (attempts s)) (Replica i)) as [v|e] eqn:Eo.
  { intros [= <- <-]. exists [Replica i]. split; [apply moves_attempt|]. split; [simpl; lia|].
    split; [constructor; [eauto|constructor]|]. by apply decided_single. }
  destruct (after_error r i e (attempted s (Replica i))) as [s2|] eqn:Ee.
  - destruct (moves_failure s i e s2 Eo Ee) as [Hm Hr].
    assert (length (attempts s2) = S (length (attempts s))) as Hlen
      by (rewrite (moves_attempts _ _ _ Hm), length_app; simpl; lia).
    intros (ts & Hm2 & Hle & Hall & Hp)%IH. rewrite Hlen in Hp. exists (Replica i :: ts).
    split; [by eapply (moves_trans _ [_])|]. split; [simpl; lia|]. split; [constructor; eauto|].
    destruct p as [v|tried' last]; [by eapply decided_cons|].
    destruct Hp as [-> Hg]. split; [done|]. by eapply ran_out_cons.
  - intros [= <- <-]. exists [Replica i]. split; [apply moves_attempt|]. split; [simpl; lia|].
    split; [constructor; [eauto|constructor]|]. by apply decided_single.
Qed.

(** Every attempt failed in a way that allows another: what giving up does. *)
Lemma exhausted_outcome_spec n ts last_err s v s' :
  length (attempts s) = n + length ts -> ran_out n ts None last_err ->
  exhausted_outcome r op last_err s = (v, s') ->
  exists third, moves s third s' /\ (third = [] \/ third = [Writer] /\ fallback_to_write r = true) /\
    (decided n (ts ++ third) v \/
     ts ++ third = [] /\ v = Err (OtherErr (lit "all read attempts exhausted")) /\
     fallback_to_write r = false).
Proof.
  intros Hl [Hf Hg]. unfold exhausted_outcome. destruct (fallback_to_write r).
  - intros [= <- <-]. exists [Writer]. split; [apply moves_attempt|]. split; [by right|]. left.
    apply decided_app; [done|]. apply decided_single. by rewrite Hl.
  - intros [= <- <-]. exists []. split; [by apply moves_refl; auto|]. split; [by left|].
    rewrite app_nil_r. destruct ts as [|t ts]; [right; by subst|].
    destruct Hg as (e & -> & Hd). by left.
Qed.

Lemma ran_out_app n ts1 ts2 before mid after :
  ran_out n ts1 before mid -> ran_out (n + length ts1) ts2 mid after ->
  ran_out n (ts1 ++ ts2) before after.
Proof.
  intros [H1 G1] [H2 G2]. split; [by apply failing_app|]. destruct ts2 as [|t ts2].
  - rewrite app_nil_r. destruct ts1; congruence || by subst.
  - destruct G2 as (e & -> & Hd). destruct ts1 as [|t1 ts1]; cbn [app].
    + exists e. split; [done|]. by rewrite Nat.add_0_r in Hd.
    + exists e. split; [done|]. by apply (decided_app _ (t1 :: ts1)).
Qed.

Lemma execute_read_retry_spec s v s' :
  0 < replicas r -> execute_read_retry r op s = (v, s') ->
  exists first second third,
    moves s ((Replica <$> first) ++ second ++ third) s' /\
    NoDup first /\ Forall (fun i => i < replicas r) first /\
    length second <= retry_attempts r /\ (first = [] -> second = []) /\
    Forall (fun t => exists i, t = Replica i /\ i < replicas r) second /\
    (third = [] \/ third = [Writer] /\ fallback_to_write r = true) /\
    (decided (length (attempts s)) ((Replica <$> first) ++ second ++ third) v \/
     first = [] /\ third = [] /\ v = Err (OtherErr (lit "all read attempts exhausted"))).
Proof.
  intros Hn. unfold execute_read_retry. destruct (Nat.eqb_spec (replicas r) 0); [lia|].
  destruct (phase_one r op (replicas r) [] None s) as [p s1] eqn:E1.
  apply phase_one_spec in E1 as (first & Hm1 & _ & Hnd & Hall & Hp).
  assert (Forall (fun i => i < replicas r) first) as Hall'
    by (eapply Forall_impl; [exact Hall|]; tauto).
  assert (length (attempts s1) = length (attempts s) + length (Replica <$> first)) as Hl1
    by (by rewrite (moves_attempts _ _ _ Hm1), length_app).
  destruct p as [v1|tried last].
  { intros [= <- <-]. exists first, [], []. rewrite !app_nil_r. do 3 (split; [done|]).
    split; [simpl; lia|]. split; [done|]. split; [constructor|]. split; [by left|]. by left. }
  destruct Hp as [-> Hg]. destruct last as [e|].
  - destruct (phase_two r op (retry_attempts r) 0 _ (Some e) s1) as [p s2] eqn:E2.
    apply phase_two_spec in E2 as (second & Hm2 & Hle & Hall2 & Hp); [|done].
    assert (first <> []) as Hne by (intros ->; by destruct Hg as [_ ?]).
    destruct p as [v2|tried2 last2].
    + intros [= <- <-]. exists first, second, []. rewrite app_nil_r.
      split; [by eapply moves_trans|]. do 4 (split; [done|]). split; [done|]. split; [by left|]. left.
      apply decided_app; [apply Hg|]. by rewrite <- Hl1.
    + destruct Hp as [_ Hg2]. intros Hx.
      apply (exhausted_outcome_spec (length (attempts s)) ((Replica <$> first) ++ second)) in Hx
        as (third & Hm3 & H3 & Hd).
      * exists first, second, third. split; [by eapply moves_trans; [|eapply moves_trans]|].
        do 4 (split; [done|]). split; [done|]. split; [done|]. rewrite <- app_assoc in Hd.
        destruct Hd as [Hd|(Hd & _)]; [by left|]. by destruct first.
      * rewrite (moves_attempts _ _ _ Hm2), length_app, Hl1, length_app. lia.
      * eapply ran_out_app; [exact Hg|]. by rewrite <- Hl1.
  - intros Hx. apply (exhausted_outcome_spec (length (attempts s)) (Replica <$> first)) in Hx
      as (third & Hm3 & H3 & Hd); [|done|done].
    exists first, [], third. split; [by eapply moves_trans|]. do 2 (split; [done|]).
    split; [simpl; lia|]. split; [done|]. split; [constructor|]. split; [done|].
    destruct Hd as [Hd|(Hd & -> & _)]; [by left|]. right. destruct first; [|done].
    by destruct third.
Qed.
End Retry.

(** ** Reading a statement with common table expressions *)

(** Nesting after reading a text; a closing parenthesis too many is ignored. *)
Fixpoint depth_after (depth : nat) (s : str) : nat :=
  match s with
  | [] => depth
  | c :: rest =>
      depth_after (if (c =? open_paren)%N then S depth
                   else if (c =? close_paren)%N then pred depth else depth) rest
  end.

Lemma starts_write_head s : starts_write s = true ->
  exists c rest, s = c :: rest /\ (c =? open_paren)%N = false /\ (c =? close_paren)%N = false.
Proof.
  unfold starts_write. rewrite existsb_elem. intros (k & Hk & (rest & ->)%starts_with_spec).
  apply list_elem_of_In in Hk. destruct Hk as [<- |[<- |[<- |[<- |[]] ] ] ]; cbn; eauto.
Qed.

Lemma cte_scan_spec depth s :
  cte_scan depth s = true <->
  exists a b, s = a ++ b /\ depth_after depth a = 0 /\ starts_write b = true.
Proof.
  revert depth. induction s as [|c rest IH]; intros depth.
  { cbn. split; [done|]. intros (a & b & E & _ & H).
    apply starts_write_head in H as (c & r & -> & _). by destruct a. }
  cbn [cte_scan].
  assert (forall d, (forall a, depth_after depth (c :: a) = depth_after d a) ->
    depth <> 0 \/ starts_write (c :: rest) = false ->
    (cte_scan d rest = true <->
     exists a b, c :: rest = a ++ b /\ depth_after depth a = 0 /\ starts_write b = true)) as Hskip.
  { intros d Hd Hno. rewrite IH. split.
    - intros (a & b & -> & Ha & Hb). exists (c :: a), b. by rewrite Hd.
    - intros (a & b & E & Ha & Hb). destruct a as [|c' a]; cbn in E.
      + subst b. cbn in Ha. by destruct Hno as [|Hno]; [|rewrite Hno in Hb].
      + injection E as <- ->. rewrite Hd in Ha. eauto. }
  assert (forall x, (c =? x)%N = true -> x = open_paren \/ x = close_paren ->
    starts_write (c :: rest) = false) as Hpar.
  { intros x Hx Hor. destruct (starts_write (c :: rest)) eqn:E; [|done].
    apply starts_write_head in E as (c' & r & [= <- <-] & H1 & H2). destruct Hor; subst; congruence. }
  destruct (c =? open_paren)%N eqn:Eo.
  { apply Hskip; [intros a; cbn; by rewrite Eo|]. right. by eapply Hpar; [exact Eo|left]. }
  destruct (c =? close_paren)%N eqn:Ec; cbn [andb].
  { assert (starts_write (c :: rest) = false) as Hn by (eapply Hpar; [exact Ec|by right]).
    destruct depth as [|depth]; cbn [Nat.ltb Nat.leb].
    - rewrite Hn, andb_false_r. apply Hskip; [intros a; cbn; by rewrite Eo, Ec|by right].
    - apply Hskip; [intros a; cbn; by rewrite Eo, Ec|by right]. }
  destruct (starts_write (c :: rest)) eqn:Ew.
  - destruct depth as [|depth]; cbn [Nat.eqb andb].
    + split; [|done]. intros _. by exists [], (c :: rest).
    + apply Hskip; [intros a; cbn; by rewrite Eo, Ec|by left].
  - rewrite andb_false_r. apply Hskip; [intros a; cbn; by rewrite Eo, Ec|by right].
Qed.

(** ** Weighted choice *)

Lemma weighted_choice_exact fallback l roll :
  (roll < foldr N.add 0 (snd <$> l))%N ->
  exists before i w after, l = before ++ (i, w) :: after /\
    weighted_choice fallback l roll = i /\
    (foldr N.add 0 (snd <$> before) <= roll < foldr N.add 0 (snd <$> before) + w)%N.
Proof.
  revert roll. induction l as [|[i w] l IH]; intros roll; cbn [fmap list_fmap foldr weighted_choice snd];
    [lia|]. intros Hr. destruct (N.ltb_spec roll w).
  - exists [], i, w, l. cbn. split; [done|]. split; [done|lia].
  - destruct (IH (roll - w)%N) as (before & j & v & after & -> & Hj & Hb); [lia|].
    exists ((i, w) :: before), j, v, after. cbn. split; [done|]. split; [exact Hj|lia].
Qed.

(** ** Properties *)

(** A read tries every way out and reports the truth: the attempts of a
    read are, in order, distinct replicas (each at most once), then at most
    [retry_attempts] retries on replicas, then at most one run on the writer,
    and that only when falling back is configured; every attempt before the
    last failed with a lost connection or a recovery conflict, and the result
    is that of the last attempt, a success as well as an error (with no
    attempt at all, the read fails as exhausted).  A breaker opens only for a
    replica that lost its connection in one of these attempts: a recovery
    conflict never takes a replica out. *)
Theorem read_retry_sound {W : Sources} {T} r (op : nat -> target -> result T DbErr) s v s' :
  0 < replicas r -> execute_read_retry r op s = (v, s') ->
  exists first second third,
    let tried := (Replica <$> first) ++ second ++ third in
    attempts s' = attempts s ++ tried /\
    NoDup first /\ Forall (fun i => i < replicas r) first /\
    length second <= retry_attempts r /\
    Forall (fun t => exists i, t = Replica i /\ i < replicas r) second /\
    (third = [] \/ third = [Writer] /\ fallback_to_write r = true) /\
    (decided op (length (attempts s)) tried v \/
     tried = [] /\ v = Err (OtherErr (lit "all read attempts exhausted"))) /\
    forall j, down_until s' !! j = down_until s !! j \/ down_until s' !! j = Some None \/
              lost_connection op (length (attempts s)) tried j.
Proof.
  intros Hn H. apply execute_read_retry_spec in H
    as (first & second & third & [Ha Hd] & H1 & H2 & H3 & H4 & H5 & H6 & H7); [|done].
  exists first, second, third. cbv zeta. do 6 (split; [done|]). split; [|done].
  destruct H7 as [?|(-> & -> & ->)]; [by left|]. right. by rewrite H4.
Qed.

Section Demo.

Definition fixed_sources : Sources.
Proof. refine {| now _ := 0%Z; gen_range _ _ := 0%N |}. by intros. Defined.
#[local] Existing Instance fixed_sources.

Definition three_replicas : AutoRouter :=
  {| weights := [1; 1; 1]%N; strategy := RoundRobin; circuit_break := 1000; retry_attempts := 2;
     fallback_to_write := true |}.

(** The breaker of the first replica is open for another five seconds. *)
Definition one_down : routing :=
  {| down_until := [Some 5000%Z; None; None]; rr_counter := 0; clock_reads := 0; rolls := 0;
     attempts := [] |}.

(** No replica answers. *)
Definition only_writer (_ : nat) (t : target) : result nat DbErr :=
  match t with Writer => Ok 7 | Replica _ => Err (Conn (lit "refused")) end.

Lemma read_retry_sound_witness :
  fst (execute_read_retry three_replicas only_writer one_down) = Ok 7 /\
  exists first second third,
    attempts (snd (execute_read_retry three_replicas only_writer one_down))
    = (Replica <$> first) ++ second ++ third /\ NoDup first.
Proof.
  split; [reflexivity|].
  destruct (read_retry_sound three_replicas only_writer one_down
    (fst (execute_read_retry three_replicas only_writer one_down))
    (snd (execute_read_retry three_replicas only_writer one_down)))
    as (first & second & third & H & Hn & _); [by vm_compute; lia | reflexivity |].
  exists first, second, third. split; [exact H|exact Hn].
Defined.

(** The retries after the first round ignore the breakers: a read whose
    two healthy replicas failed is sent to the third one although its breaker
    is open and it was not tried before, against the comment that an extra
    attempt takes a replica whose breaker is closed. *)
Theorem retries_ignore_breakers :
  attempts (snd (execute_read_retry three_replicas only_writer one_down))
    = [Replica 1; Replica 2; Replica 2; Replica 0; Writer] /\
  closed (now 0) (slot_of one_down 0) = false.
Proof. split; reflexivity. Qed.
End Demo.

(** A picked replica is eligible: it exists, was not excluded and its
    breaker is closed (or has expired, and is then cleared); nothing is picked
    only when every replica is excluded or has an open breaker. *)
Theorem pick_is_eligible {W : Sources} r exclude s :
  let '(o, s') := pick_next_read r exclude s in
  match o with
  | Some i => i < replicas r /\ (i ∉ exclude) /\ closed (now (clock_reads s)) (slot_of s i) = true
  | None => forall i, i < replicas r -> (i ∉ exclude) -> closed (now (clock_reads s)) (slot_of s i) = false
  end /\
  attempts s' = attempts s /\
  forall j, down_until s' !! j = down_until s !! j \/ down_until s' !! j = Some None.
Proof.
  destruct (pick_next_read r exclude s) as [o s'] eqn:E.
  apply replica_pick_spec in E as (H1 & _ & H2 & H3). by destruct o.
Qed.

(** Writes are recognised by their leading keyword: a statement is
    taken as a write exactly when, blanks and ASCII case aside, it starts with
    INSERT, UPDATE, DELETE or REPLACE, or it starts with WITH and one of these
    keywords occurs outside all parentheses; such a statement, and a locking
    SELECT, runs once, on the writer.  Parentheses are counted inside string
    literals too, so (against the comment, which expects false alarms only) a
    write behind an unbalanced literal is sent to a replica. *)
Theorem writes_recognised {W : Sources} {T} r (op : nat -> target -> result T DbErr) sql s :
  let up := to_ascii_uppercase (trim_start sql) in
  (is_write_statement sql = true <->
   sql <> [] /\
   (starts_write up = true \/
    exists prefix a b, up = prefix ++ a ++ b /\ depth_after 0 a = 0 /\ starts_write b = true /\
      (prefix = lit "WITH RECURSIVE " \/
       prefix = lit "WITH " /\ starts_with (lit "RECURSIVE ") (a ++ b) = false))) /\
  (is_write_statement sql || is_locking_select sql = true ->
   query r op sql s = (op (length (attempts s)) Writer, attempted s Writer)) /\
  is_write_statement (lit "WITH a AS (SELECT '(') UPDATE t SET x = 1 RETURNING x") = false.
Proof.
  cbv zeta. split; [|split; [|reflexivity] ].
  - unfold is_write_statement. destruct (is_empty sql) eqn:Ee; bool_to_prop.
    { split; [done|]. by intros [? _]. }
    set (up := to_ascii_uppercase (trim_start sql)). destruct (starts_write up) eqn:Ew; [split; auto|].
    destruct (starts_with (lit "WITH ") up) eqn:Es.
    + apply starts_with_spec in Es as [rest Er]. unfold cte_main_stmt_is_write. rewrite Er.
      rewrite drop_app_length. unfold strip_prefix.
      destruct (starts_with (lit "RECURSIVE ") rest) eqn:Ec.
      * apply starts_with_spec in Ec as [rest' ->]. rewrite drop_app_length. cbn [from_option id].
        rewrite cte_scan_spec. split.
        -- intros (a & b & -> & Ha & Hb). split; [done|]. right.
           exists (lit "WITH RECURSIVE "), a, b. split; [reflexivity|]. split; [done|]. split; [done|]. by left.
        -- intros (_ & [?|(p & a & b & E & Ha & Hb & [-> |[-> Hn] ])]); [done| |].
           ++ exists a, b. split; [|done].
              change (lit "WITH RECURSIVE ") with (lit "WITH " ++ lit "RECURSIVE ") in E.
              rewrite <- app_assoc in E. by apply app_inv_head in E; apply app_inv_head in E.
           ++ apply app_inv_head in E. by rewrite <- E, starts_with_app in Hn.
      * cbn [from_option id]. rewrite cte_scan_spec. split.
        -- intros (a & b & -> & Ha & Hb). split; [done|]. right.
           exists (lit "WITH "), a, b. split; [done|]. split; [done|]. split; [done|]. by right.
        -- intros (_ & [?|(p & a & b & E & Ha & Hb & [-> |[-> Hn] ])]); [done| |].
           ++ exfalso. change (lit "WITH RECURSIVE ") with (lit "WITH " ++ lit "RECURSIVE ") in E.
              rewrite <- app_assoc in E. apply app_inv_head in E. subst rest.
              by rewrite starts_with_app in Ec.
           ++ exists a, b. by apply app_inv_head in E.
    + split; [done|]. intros (_ & [?|(p & a & b & E & _ & _ & Hp)]); [done|].
      exfalso. destruct Hp as [-> |[-> _] ]; rewrite E in Es; [|by rewrite starts_with_app in Es].
      change (lit "WITH RECURSIVE ") with (lit "WITH " ++ lit "RECURSIVE ") in Es.
      by rewrite <- app_assoc, starts_with_app in Es.
  - intros H. unfold query. by rewrite H.
Qed.
