(* ===== verification/Redis.v ===== *)
(** * The Redis server, as the services rely on it

    Redis itself is not part of the repository.  What the services under
    [server/src/services/] and the rate limiter rely on is the interface
    [Redis]: the commands they send, with their documented behaviour as laws.
    A key holds text or a number, with or without an instant at which it
    expires; time is in seconds.  [map_redis] is one implementation, over a
    finite map, on which the witnesses of the development run. *)

From S2P Require Import Prelude.

Open Scope Z_scope.

(** The entry of a key, and when it expires. *)
Inductive entry := RText (s : str) | RNumber (n : Z).

Class Redis := {
  db : Type;
  (** What a key holds at a given time; nothing once it has expired. *)
  look : Z -> str -> db -> option (entry * option Z);
  set_nx_ex : Z -> str -> str -> Z -> db -> bool * db;
  setex : Z -> str -> Z -> str -> db -> db;
  del : str -> db -> db;
  (** [None]: the key holds something that is not a number. *)
  incrby : Z -> str -> Z -> db -> option (Z * db);
  expire : Z -> str -> Z -> db -> db;

  (** An entry lives until the instant it expires, and does not come back. *)
  look_before t k d v e : look t k d = Some (v, Some e) -> t < e;
  look_later t t' k d : t <= t' ->
    look t' k d = match look t k d with
                  | Some (v, Some e) => if t' <? e then Some (v, Some e) else None
                  | x => x
                  end;
  (** [SET key value NX EX seconds]. *)
  set_nx_ex_spec t k v s d : 0 < s ->
    match look t k d with
    | Some _ => set_nx_ex t k v s d = (false, d)
    | None => fst (set_nx_ex t k v s d) = true /\
              look t k (snd (set_nx_ex t k v s d)) = Some (RText v, Some (t + s))
    end;
  set_nx_ex_other t t' k v s d k' : k' <> k -> look t' k' (snd (set_nx_ex t k v s d)) = look t' k' d;
  (** [SETEX key seconds value]. *)
  setex_spec t k s v d : 0 < s -> look t k (setex t k s v d) = Some (RText v, Some (t + s));
  setex_other t t' k s v d k' : k' <> k -> look t' k' (setex t k s v d) = look t' k' d;
  del_spec t k d : look t k (del k d) = None;
  del_other t k d k' : k' <> k -> look t k' (del k d) = look t k' d;
  (** [INCRBY key n]: an absent key counts from zero, a time to live stays. *)
  incrby_spec t k n d :
    match look t k d with
    | Some (RText _, _) => incrby t k n d = None
    | Some (RNumber c, e) => exists d', incrby t k n d = Some (c + n, d') /\
                                        look t k d' = Some (RNumber (c + n), e)
    | None => exists d', incrby t k n d = Some (n, d') /\ look t k d' = Some (RNumber n, None)
    end;
  incrby_other t t' k n d c d' k' : k' <> k -> incrby t k n d = Some (c, d') -> look t' k' d' = look t' k' d;
  (** [EXPIRE key seconds]. *)
  expire_spec t k s d : 0 < s ->
    look t k (expire t k s d) = match look t k d with
                                | Some (v, _) => Some (v, Some (t + s))
                                | None => None
                                end;
  expire_other t t' k s d k' : k' <> k -> look t' k' (expire t k s d) = look t' k' d
}.

(** [GET]: the text of an entry; a counter reads as its digits. *)
Definition get_text {R : Redis} (t : Z) (key : str) (d : db) : option str :=
  match look t key d with
  | Some (RText s, _) => Some s
  | Some (RNumber n, _) => Some (show_Z n)
  | None => None
  end.

(** ** An implementation *)

Abbreviation cells := (gmap str (entry * option Z)) (only parsing).

Definition live (t : Z) (c : option (entry * option Z)) : option (entry * option Z) :=
  match c with
  | Some (v, Some e) => if t <? e then Some (v, Some e) else None
  | x => x
  end.

Definition map_look (t : Z) (k : str) (d : cells) : option (entry * option Z) := live t (d !! k).

Definition map_set_nx_ex (t : Z) (k v : str) (s : Z) (d : cells) : bool * cells :=
  match map_look t k d with
  | Some _ => (false, d)
  | None => (true, <[k := (RText v, Some (t + s))]> d)
  end.

Definition map_incrby (t : Z) (k : str) (n : Z) (d : cells) : option (Z * cells) :=
  match map_look t k d with
  | Some (RText _, _) => None
  | Some (RNumber c, e) => Some (c + n, <[k := (RNumber (c + n), e)]> d)
  | None => Some (n, <[k := (RNumber n, None)]> d)
  end.

Definition map_expire (t : Z) (k : str) (s : Z) (d : cells) : cells :=
  match map_look t k d with
  | Some (v, _) => <[k := (v, Some (t + s))]> d
  | None => d
  end.

Lemma live_before t c v e : live t c = Some (v, Some e) -> t < e.
Proof. destruct c as [[v' [e'|]]|]; cbn; try done. destruct (Z.ltb_spec t e'); [|done]. intros [= -> ->]. lia. Qed.

Lemma live_live t c : live t (live t c) = live t c.
Proof. destruct c as [[v [e|]]|]; cbn; try done. destruct (t <? e) eqn:E; cbn; by rewrite ?E. Qed.

Lemma live_fresh t v s : 0 < s -> live t (Some (v, Some (t + s))) = Some (v, Some (t + s)).
Proof. intros. cbn. destruct (Z.ltb_spec t (t + s)); [done|lia]. Qed.

Definition map_redis : Redis.
Proof.
  refine {|
    db := cells;
    look := map_look;
    set_nx_ex := map_set_nx_ex;
    setex t k s v d := <[k := (RText v, Some (t + s))]> d;
    del k d := delete k d;
    incrby := map_incrby;
    expire := map_expire
  |}; unfold map_set_nx_ex, map_incrby, map_expire; intros.
  - by eapply live_before.
  - unfold map_look. destruct (d !! k) as [[v [e|]]|]; cbn; try done.
    destruct (Z.ltb_spec t e); [done|]. destruct (Z.ltb_spec t' e); [lia|done].
  - destruct (map_look t k d) eqn:E; [done|]. split; [done|]. unfold map_look. cbn [snd].
    rewrite lookup_insert_eq. by apply live_fresh.
  - destruct (map_look t k d); [done|]. unfold map_look. cbn [snd]. by rewrite lookup_insert_ne.
  - unfold map_look. rewrite lookup_insert_eq. by apply live_fresh.
  - unfold map_look. by rewrite lookup_insert_ne.
  - unfold map_look. by rewrite lookup_delete_eq.
  - unfold map_look. by rewrite lookup_delete_ne.
  - destruct (map_look t k d) as [[[s|c] e]|] eqn:E; [done| |].
    + eexists. split; [done|]. unfold map_look. rewrite lookup_insert_eq.
      destruct e as [e|]; [|done]. cbn. apply live_before in E. destruct (Z.ltb_spec t e); [done|lia].
    + eexists. split; [done|]. unfold map_look. by rewrite lookup_insert_eq.
  - unfold map_look in *. destruct (live t (d !! k)) as [[[s|x] e]|]; simplify_eq; by rewrite lookup_insert_ne.
  - destruct (map_look t k d) as [[v e]|] eqn:E; [|done]. unfold map_look. rewrite lookup_insert_eq.
    by apply live_fresh.
  - unfold map_look in *. destruct (live t (d !! k)) as [[v e]|]; [|done]. by rewrite lookup_insert_ne.
Defined.
