(* ===== verification/Lock.v ===== *)
(** * Distributed locks ([server/src/services/lock.rs])

    Acquisition with [SET NX EX] and retries, the release script that checks
    the owner, the guard; and the protocol that any number of clients follow
    against one server, as a step relation. *)

From S2P Require Import Prelude Redis.

Open Scope Z_scope.

(** [LockFailed] is declared by the code and never raised. *)
Inductive LockError := RedisNotAvailable | RedisFailed (message : str) | LockFailed (message : str).

Section Lock.
Context {R : Redis}.

(** ** One command each *)

Definition set_lock (now : Z) (lock_key lock_value : str) (expiry_seconds : Z) (d : db) : bool * db :=
  set_nx_ex now lock_key lock_value expiry_seconds d.

(** [SAFE_RELEASE_SCRIPT], run atomically by the server: the number of keys it
    deleted. *)
Definition safe_release_script (now : Z) (lock_key lock_value : str) (d : db) : Z * db :=
  match look now lock_key d with
  | Some (RText v, _) => if str_eqb v lock_value then (1, del lock_key d) else (0, d)
  | _ => (0, d)
  end.

(** ** Acquisition *)

(** What a client meets at one attempt: the time, what others did to the
    server since its last command, and the failure of the command, if any. *)
Record moment := { at_ : Z; others : db -> db; failure : option str }.

Fixpoint try_acquire_with_retry (lock_key lock_value : str) (expiry_seconds : Z)
    (attempts : list moment) (d : db) : result bool LockError * db :=
  match attempts with
  | [] => (Ok false, d)
  | m :: rest =>
      let d := others m d in
      match failure m with
      | Some message => (Err (RedisFailed message), d)
      | None =>
          let '(set, d) := set_lock (at_ m) lock_key lock_value expiry_seconds d in
          if set then (Ok true, d)
          else try_acquire_with_retry lock_key lock_value expiry_seconds rest d
      end
  end.

(** [acquire_lock] ([client] is false without a configured server) and
    [acquire_lock_with_client] (always true); one moment per retry. *)
Definition acquire_lock (client : bool) (connect : option str) (uuid lock_key : str)
    (expiry_seconds : Z) (attempts : list moment) (d : db) :
    result (bool * str) LockError * db :=
  if negb client then (Err RedisNotAvailable, d)
  else
    match connect with
    | Some message => (Err (RedisFailed message), d)
    | None =>
        let '(r, d) := try_acquire_with_retry lock_key uuid expiry_seconds attempts d in
        (match r with Ok acquired => Ok (acquired, uuid) | Err e => Err e end, d)
    end.

Record LockGuard := { lock_key : str; lock_value : str }.

Inductive AcquireResult := Acquired (guard : LockGuard) | Contended.

(** [LockGuard::acquire] and [LockGuard::acquire_with_client]. *)
Definition acquire (client : bool) (connect : option str) (uuid key : str) (expiry_seconds : Z)
    (attempts : list moment) (d : db) : result (option AcquireResult) LockError * db :=
  if negb client then (Ok None, d)
  else
    match acquire_lock client connect uuid key expiry_seconds attempts d with
    | (Ok (true, value), d) => (Ok (Some (Acquired {| lock_key := key; lock_value := value |})), d)
    | (Ok (false, _), d) => (Ok (Some Contended), d)
    | (Err e, d) => (Err e, d)
    end.

(** [release_lock], [LockGuard::release] and the release when a guard is
    dropped. *)
Definition release_lock (client : bool) (failed : option str) (now : Z) (g : LockGuard) (d : db) :
    result unit LockError * db :=
  if negb client then (Err RedisNotAvailable, d)
  else
    match failed with
    | Some message => (Err (RedisFailed message), d)
    | None => let '(_, d) := safe_release_script now (lock_key g) (lock_value g) d in (Ok tt, d)
    end.

(** ** The protocol *)

(** The server, the time, the locks that clients believe to hold (value and
    the instant at which they expire), and the values drawn so far. *)
Record world := {
  server : db;
  time : Z;
  holders : list (str * Z);
  drawn : list str
}.

Context (key : str) (expiry : Z).

Inductive world_step : world -> world -> Prop :=
| tick w t : time w <= t ->
    world_step w {| server := server w; time := t; holders := holders w; drawn := drawn w |}
(** A client draws a fresh value and runs one attempt with it; the answer may
    get lost. *)
| attempt w value : value ∉ drawn w ->
    world_step w
      (let '(set, d) := set_lock (time w) key value expiry (server w) in
       {| server := d; time := time w;
          holders := if set then (value, time w + expiry) :: holders w else holders w;
          drawn := value :: drawn w |})
| attempt_unanswered w value : value ∉ drawn w ->
    world_step w {| server := snd (set_lock (time w) key value expiry (server w)); time := time w;
                    holders := holders w; drawn := value :: drawn w |}
(** A release, with any value: also of a lock that expired long ago. *)
| release w value :
    world_step w {| server := snd (safe_release_script (time w) key value (server w));
                    time := time w;
                    holders := List.filter (fun h => negb (str_eqb (fst h) value)) (holders w);
                    drawn := drawn w |}
(** Other keys of the server change. *)
| elsewhere w d : (forall t, look t key d = look t key (server w)) ->
    world_step w {| server := d; time := time w; holders := holders w; drawn := drawn w |}.

Inductive world_reachable : world -> Prop :=
| world_start d t : look t key d = None ->
    world_reachable {| server := d; time := t; holders := []; drawn := [] |}
| world_next w w' : world_reachable w -> world_step w w' -> world_reachable w'.

(** A lock that has not expired yet is what the server holds. *)
Record world_ok (w : world) : Prop := {
  ok_holders : forall v e, (v, e) ∈ holders w -> time w < e ->
    look (time w) key (server w) = Some (RText v, Some e);
  ok_drawn : forall v e, (v, e) ∈ holders w -> v ∈ drawn w;
  ok_server : forall v e, look (time w) key (server w) = Some (RText v, e) -> v ∈ drawn w
}.

Lemma world_step_ok w w' : 0 < expiry -> world_ok w -> world_step w w' -> world_ok w'.
Proof.
  intros He [H1 H2 H3] Hs.
  destruct Hs as [w t Ht|w value Hv|w value Hv|w value|w d Hd]; unfold set_lock in *.
  - split; cbn; [|done|].
    + intros v e Hin Hlt. rewrite (look_later (time w)), (H1 v e) by (done || lia).
      destruct (Z.ltb_spec t e); [done|lia].
    + intros v e. rewrite (look_later (time w)) by done.
      destruct (look (time w) key (server w)) as [[x [e'|]]|] eqn:E; [destruct (t <? e'); [|done]|..];
        intros; simplify_eq; by eapply H3.
  - pose proof (set_nx_ex_spec (time w) key value expiry (server w) He) as Hset.
    destruct (look (time w) key (server w)) as [x|] eqn:El.
    + rewrite Hset. split; cbn; rewrite ?El; [done|set_solver|]. intros v e E. right. by eapply H3.
    + destruct (set_nx_ex _ _ _ _ _) as [b d]. cbn in Hset. destruct Hset as [-> Hd]. split; cbn.
      * intros v e Hin Hlt. apply elem_of_cons in Hin as [ [= -> ->]|Hin]; [done|]. specialize (H1 v e Hin Hlt). congruence.
      * intros v e. set_solver.
      * rewrite Hd. intros v e [= <- _]. set_solver.
  - pose proof (set_nx_ex_spec (time w) key value expiry (server w) He) as Hset.
    destruct (look (time w) key (server w)) as [x|] eqn:El.
    + rewrite Hset. split; cbn; rewrite ?El; [done|set_solver|]. intros v e E. right. by eapply H3.
    + destruct (set_nx_ex _ _ _ _ _) as [b d]. cbn in Hset. destruct Hset as [_ Hd]. split; cbn.
      * intros v e Hin Hlt. specialize (H1 v e Hin Hlt). congruence.
      * set_solver.
      * rewrite Hd. intros v e [= <- _]. set_solver.
  - unfold safe_release_script.
    assert (forall v e, (v, e) ∈ List.filter (fun h => negb (str_eqb (fst h) value)) (holders w) ->
      (v, e) ∈ holders w /\ v <> value) as Hf.
    { intros v e. rewrite list_elem_of_In, List.filter_In, <- list_elem_of_In. cbn.
      intros [? Hn]. bool_to_prop. done. }
    destruct (look (time w) key (server w)) as [[[s|n] x]|] eqn:El;
      [destruct (str_eqb s value) eqn:Es; bool_to_prop| |]; cbn [snd].
    + subst s. split; cbn.
      * intros v e [Hin Hne]%Hf Hlt. specialize (H1 v e Hin Hlt). congruence.
      * intros v e [Hin _]%Hf. by eapply H2.
      * rewrite del_spec. done.
    + split; cbn; rewrite ?El; [|intros v e [Hin _]%Hf; by eapply H2|done].
      intros v e [Hin _]%Hf Hlt. by apply H1.
    + split; cbn; rewrite ?El; [|intros v e [Hin _]%Hf; by eapply H2|done].
      intros v e [Hin _]%Hf Hlt. by apply H1.
    + split; cbn; rewrite ?El; [|intros v e [Hin _]%Hf; by eapply H2|done].
      intros v e [Hin _]%Hf Hlt. by apply H1.
  - split; cbn; [|done|]; intros v e; rewrite Hd; eauto.
Qed.

Lemma world_reachable_ok w : 0 < expiry -> world_reachable w -> world_ok w.
Proof.
  intros He. induction 1 as [d t Hd|w w' _ IH Hs]; [|by eapply world_step_ok].
  split; cbn; [set_solver..|]. by rewrite Hd.
Qed.
End Lock.

(** ** Properties *)

(** C40: the lock excludes: among any number of clients that follow the
    protocol (fresh values, one server, replies that may get lost, releases at
    any time and with any value, crashed holders that never release), at most
    one holds an acquired lock that has not expired, and the server holds
    exactly its value until then; so no release by another client removes
    it. *)
Theorem lock_mutual_exclusion {R : Redis} key expiry w v e v' e' :
  0 < expiry -> world_reachable key expiry w ->
  (v, e) ∈ holders w -> (v', e') ∈ holders w -> time w < e -> time w < e' ->
  v = v' /\ e = e' /\ look (time w) key (server w) = Some (RText v, Some e) /\
  forall value, value <> v -> safe_release_script (time w) key value (server w) = (0, server w).
Proof.
  intros He Hw H1 H2 Ht Ht'. apply world_reachable_ok in Hw as [Ho _ _]; [|done].
  pose proof (Ho v e H1 Ht) as E. pose proof (Ho v' e' H2 Ht') as E'. rewrite E in E'.
  injection E' as -> ->. split; [done|]. split; [done|]. split; [done|].
  intros value Hv. unfold safe_release_script. rewrite E.
  destruct (str_eqb v' value) eqn:Es; bool_to_prop; [by subst|done].
Qed.

Section WitnessExclusion.
#[local] Existing Instance map_redis.

(** One client acquires, a second one is refused. *)
Definition world_at_rest : world := {| server := ∅; time := 0; holders := []; drawn := [] |}.
Definition world_locked (drawn : list str) : world :=
  {| server := <[lit "job" := (RText (lit "a"), Some 10)]> ∅; time := 0;
     holders := [(lit "a", 10)]; drawn := drawn |}.

Lemma lock_mutual_exclusion_witness :
  world_reachable (lit "job") 10 (world_locked [lit "b"; lit "a"]) /\
  forall value, value <> lit "a" ->
    safe_release_script 0 (lit "job") value (server (world_locked [lit "b"; lit "a"]))
    = (0, server (world_locked [lit "b"; lit "a"])).
Proof.
  assert (world_reachable (lit "job") 10 world_at_rest) as H0 by (apply world_start; reflexivity).
  assert (world_reachable (lit "job") 10 (world_locked [lit "a"])) as H1.
  { refine (world_next _ _ _ _ H0 (attempt (lit "job") 10 world_at_rest (lit "a") _)).
    apply not_elem_of_nil. }
  assert (world_reachable (lit "job") 10 (world_locked [lit "b"; lit "a"])) as H2.
  { refine (world_next _ _ _ _ H1 (attempt (lit "job") 10 (world_locked [lit "a"]) (lit "b") _)).
    intros [Hx|Hx]%elem_of_cons; [done|by apply not_elem_of_nil in Hx]. }
  split; [exact H2|].
  apply (lock_mutual_exclusion (lit "job") 10 (world_locked [lit "b"; lit "a"])
    (lit "a") 10 (lit "a") 10);
    [reflexivity | exact H2 | apply list_elem_of_here | apply list_elem_of_here
    | reflexivity | reflexivity].
Defined.
End WitnessExclusion.

(** Acquiring is honest: a client that is told "acquired" set the key at
    one of its attempts, the server holds its value for the whole expiry, and
    its release (then or until the expiry) frees the key; "not acquired" is
    only said when no command failed, and an error only when one did.
    Releasing a lock that another value has taken over changes nothing. *)
Theorem acquire_exact {R : Redis} uuid key expiry attempts (d : db) :
  0 < expiry ->
  match try_acquire_with_retry key uuid expiry attempts d with
  | (Ok true, d') => exists m, m ∈ attempts /\ failure m = None /\
      look (at_ m) key d' = Some (RText uuid, Some (at_ m + expiry)) /\
      forall t, at_ m <= t -> t < at_ m + expiry ->
        look t key (snd (release_lock true None t {| lock_key := key; lock_value := uuid |} d')) = None
  | (Ok false, d') => forall m, m ∈ attempts -> failure m = None
  | (Err e, _) => exists m message, m ∈ attempts /\ failure m = Some message /\ e = RedisFailed message
  end /\
  (forall t v e other, look t key d = Some (RText v, e) -> v <> other ->
   release_lock true None t {| lock_key := key; lock_value := other |} d = (Ok tt, d)).
Proof.
  intros He. split.
  - revert d. induction attempts as [|m rest IH]; intros d; cbn [try_acquire_with_retry].
    { intros m Hm. by apply not_elem_of_nil in Hm. }
    destruct (failure m) as [message|] eqn:Ef.
    { exists m, message. split; [apply list_elem_of_here|done]. }
    pose proof (set_nx_ex_spec (at_ m) key uuid expiry (others m d) He) as Hs.
    unfold set_lock. destruct (look (at_ m) key (others m d)) as [x|] eqn:El.
    + rewrite Hs. specialize (IH (others m d)).
      destruct (try_acquire_with_retry key uuid expiry rest (others m d)) as [[[|]|e] d'].
      * destruct IH as (m' & ? & ?). exists m'. split; [by apply list_elem_of_further|done].
      * intros m' [-> |Hm]%elem_of_cons; [done|by apply IH].
      * destruct IH as (m' & msg & ? & ?). exists m', msg. split; [by apply list_elem_of_further|done].
    + destruct (set_nx_ex (at_ m) key uuid expiry (others m d)) as [b d'].
      cbn in Hs. destruct Hs as [-> Hd]. exists m. split; [apply list_elem_of_here|].
      split; [done|]. split; [done|]. intros t Ht Hlt.
      unfold release_lock, safe_release_script. cbn [negb lock_key lock_value].
      rewrite (look_later (at_ m) t key d'), Hd by done. destruct (Z.ltb_spec t (at_ m + expiry)); [|lia].
      rewrite str_eqb_refl. apply del_spec.
  - intros t v e other E Hne. unfold release_lock, safe_release_script. cbn [negb lock_key lock_value].
    rewrite E. destruct (str_eqb v other) eqn:Es; bool_to_prop; done.
Qed.

Section WitnessAcquire.
#[local] Existing Instance map_redis.

(** The second attempt finds the key free. *)
Lemma acquire_exact_witness :
  let busy : db := <[lit "job" := (RText (lit "other"), Some 5)]> ∅ in
  let attempts := [{| at_ := 3; others d := d; failure := None |};
                   {| at_ := 6; others d := d; failure := None |}] in
  fst (try_acquire_with_retry (lit "job") (lit "mine") 10 attempts busy) = Ok true /\
  release_lock true None 3 {| lock_key := lit "job"; lock_value := lit "mine" |} busy = (Ok tt, busy).
Proof.
  cbv zeta. split; [reflexivity|].
  refine (proj2 (acquire_exact (lit "mine") (lit "job") 10 [] _ eq_refl) 3 (lit "other") (Some 5) _ _ _);
    [reflexivity | discriminate].
Defined.
End WitnessAcquire.
