(* ===== verification/Cache.v ===== *)
(** * The cache service ([server/src/services/cache.rs])

    Values with a time to live, negative markers, population on a miss with
    and without the stampede lock, and the counters that the circuit breaker
    uses.  A call takes what it meets at each of its commands from a list of
    [moment]s: the time, what others did to the server meanwhile, whether the
    pool gave a connection and whether the command failed. *)

From S2P Require Import Prelude Redis Lock.

Open Scope Z_scope.

(** [Pool] is declared by the code; a pool that fails is handled as an absent
    one. *)
Inductive CacheError :=
| Pool (message : str)
| RedisError (message : str)
| Serialization (message : str)
| Deserialization (message : str)
| NotAvailable
| FallbackFailed (message : str).

(** Values and their JSON text: reading back what was written gives the value
    (serde's contract). *)
Class Serde (T : Type) := {
  to_json : T -> result str str;
  from_json : str -> result T str;
  from_to_json v s : to_json v = Ok s -> from_json s = Ok v
}.

Section Cache.
Context {R : Redis}.

(** A command of the cache: [connected] is false when the pool is absent or
    exhausted. *)
Record command := { now : Z; meanwhile : db -> db; connected : bool; broken : option str }.

(** [conn]: without a connection the command is skipped. *)
Definition run_command {A} (c : command) (skipped : A) (d : db)
    (body : Z -> db -> result A CacheError * db) : result A CacheError * db :=
  let d := meanwhile c d in
  if negb (connected c) then (Ok skipped, d)
  else match broken c with
       | Some message => (Err (RedisError message), d)
       | None => body (now c) d
       end.

Definition null_key (key : str) : str := key ++ lit ":null".

Section Values.
Context {T : Type} {S : Serde T}.

Definition get (c : command) (key : str) (d : db) : result (option T) CacheError * db :=
  run_command c None d (fun t d =>
    match get_text t key d with
    | None => (Ok None, d)
    | Some raw => match from_json raw with
                  | Ok v => (Ok (Some v), d)
                  | Err e => (Err (Deserialization e), d)
                  end
    end).

Definition set (c : command) (key : str) (v : T) (ttl : Z) (d : db) : result unit CacheError * db :=
  match to_json v with
  | Ok json => run_command c tt d (fun t d => (Ok tt, setex t key ttl json d))
  | Err e => let d := meanwhile c d in (if connected c then Err (Serialization e) else Ok tt, d)
  end.
End Values.

Definition set_null (c : command) (key : str) (ttl : Z) (d : db) : result unit CacheError * db :=
  run_command c tt d (fun t d => (Ok tt, setex t (null_key key) ttl (lit "1") d)).

Definition invalidate (c : command) (key : str) (d : db) : result unit CacheError * db :=
  run_command c tt d (fun _ d => (Ok tt, del (null_key key) (del key d))).

Definition exists_ (c : command) (key : str) (d : db) : result bool CacheError * db :=
  run_command c false d (fun t d =>
    (Ok (match look t key d with Some _ => true | None => false end), d)).

(** The script of [increment_by]: the time to live is renewed each time. *)
Definition increment_by (c : command) (key : str) (delta ttl : Z) (d : db) : result Z CacheError * db :=
  run_command c delta d (fun t d =>
    match incrby t key delta d with
    | None => (Err (RedisError (lit "value is not an integer or out of range")), d)
    | Some (count, d) => (Ok count, expire t key ttl d)
    end).

Definition negative_cache_error : CacheError :=
  FallbackFailed (lit "Entity does not exist (negative cache)").

(** ** Population on a miss *)

Section Populate.
Context {T : Type} {S : Serde T}.

(** The commands of one call: the lookup, the marker, the store at the end;
    [pool] is [is_available]. *)
Record calls := { lookup_call : command; marker_call : command; store_call : command; pool : bool }.

(** What a call returns, whether it ran the fallback, how often it slept. *)
Record populated := { outcome : result T CacheError; computed : bool; slept : nat }.

Definition answered (slept : nat) (r : result T CacheError) : populated :=
  {| outcome := r; computed := false; slept := slept |}.

(** Compute and store; a failed store is ignored. *)
Definition recompute (c : command) (key : str) (ttl : Z) (f : result T str) (slept : nat) (d : db) :
    populated * db :=
  match f with
  | Err e =>
      ({| outcome := Err (FallbackFailed (lit "Fallback failed: " ++ e)); computed := true;
          slept := slept |}, d)
  | Ok v =>
      let '(_, d) := set c key v ttl d in ({| outcome := Ok v; computed := true; slept := slept |}, d)
  end.

(** The cache and the marker, in this order; [None]: go on. *)
Definition try_cache (c : calls) (key : str) (d : db) : option (result T CacheError) * db :=
  if negb (pool c) then (None, d)
  else
    match get (lookup_call c) key d with
    | (Err e, d) => (Some (Err e), d)
    | (Ok (Some v), d) => (Some (Ok v), d)
    | (Ok None, d) =>
        match exists_ (marker_call c) (null_key key) d with
        | (Err e, d) => (Some (Err e), d)
        | (Ok true, d) => (Some (Err negative_cache_error), d)
        | (Ok false, d) => (None, d)
        end
    end.

Definition get_or_insert (c : calls) (key : str) (ttl : Z) (f : result T str) (d : db) :
    populated * db :=
  match try_cache c key d with
  | (Some r, d) => (answered 0 r, d)
  | (None, d) => recompute (store_call c) key ttl f 0 d
  end.

(** Waiting for the winner: a pause and a lookup per retry. *)
Fixpoint poll (pool : bool) (key : str) (retries : list command) (slept : nat) (d : db) :
    option (result T CacheError) * nat * db :=
  match retries with
  | [] => (None, slept, d)
  | c :: rest =>
      let slept := (slept + 1)%nat in
      if negb pool then poll pool key rest slept d
      else
        match get c key d with
        | (Err e, d) => (Some (Err e), slept, d)
        | (Ok (Some v), d) => (Some (Ok v), slept, d)
        | (Ok None, d) => poll pool key rest slept d
        end
  end.

Definition lock_key_of (key : str) : str := lit "cache:lock:" ++ key.

(** The guard is kept until the value is stored; its release is the last step
    ([release_at], [None] when it fails).  [client], [connect], [uuid],
    [attempts]: the acquisition of [Lock]. *)
Definition get_or_insert_with_lock (c : calls) (again : command) (retries : list command)
    (client : bool) (connect : option str) (uuid : str) (attempts : list moment)
    (release_at : option Z) (key : str) (ttl lock_expiry_secs : Z) (f : result T str) (d : db) :
    populated * db :=
  match try_cache c key d with
  | (Some r, d) => (answered 0 r, d)
  | (None, d) =>
      let finish d :=
        match release_at with
        | Some t => snd (safe_release_script t (lock_key_of key) uuid d)
        | None => d
        end in
      match acquire client connect uuid (lock_key_of key) lock_expiry_secs attempts d with
      | (Ok (Some (Acquired _)), d) =>
          match (if pool c then get again key d else (Ok None, d)) with
          | (Err e, d) => (answered 0 (Err e), finish d)
          | (Ok (Some v), d) => (answered 0 (Ok v), finish d)
          | (Ok None, d) =>
              let '(r, d) := recompute (store_call c) key ttl f 0 d in (r, finish d)
          end
      | (Ok (Some Contended), d) | (Ok None, d) =>
          match poll (pool c) key retries 0 d with
          | (Some r, slept, d) => (answered slept r, d)
          | (None, slept, d) => recompute (store_call c) key ttl f slept d
          end
      | (Err _, d) => recompute (store_call c) key ttl f 0 d
      end
  end.
End Populate.
End Cache.

(** ** Properties *)

(** A command that goes through at time [t], with nobody else around. *)
Definition quiet_at {R : Redis} (t : Z) : command :=
  {| now := t; meanwhile d := d; connected := true; broken := None |}.

Definition quiet_calls {R : Redis} (t : Z) : calls :=
  {| lookup_call := quiet_at t; marker_call := quiet_at t; store_call := quiet_at t; pool := true |}.

(** The expiry of a stored value. *)
Lemma get_after_set {R : Redis} {T} {S : Serde T} t t' key (v : T) json ttl d :
  0 < ttl -> t <= t' -> to_json v = Ok json ->
  get (quiet_at t') key (setex t key ttl json d) =
  (Ok (if t' <? t + ttl then Some v else None), setex t key ttl json d).
Proof.
  intros Ht Hle Hj. unfold get, run_command, get_text. cbn [negb connected broken meanwhile quiet_at now].
  rewrite (look_later t), setex_spec by done. destruct (t' <? t + ttl); [|done].
  by rewrite (from_to_json _ _ Hj).
Qed.

(** Population on a miss is exact: a live cached value is returned
    without running the fallback and a negative marker refuses without running
    it, the server unchanged; otherwise the fallback runs, its failure is
    reported and stores nothing, and its value is returned and then cached:
    every lookup sees it until the time to live ends and none after.  Whatever
    fails while storing, the value is returned. *)
Theorem get_or_insert_exact {R : Redis} {T} {S : Serde T} t key ttl (f : result T str) d :
  0 < ttl ->
  (let '(p, d') := get_or_insert (quiet_calls t) key ttl f d in
  match get_text t key d, look t (null_key key) d, f with
  | Some raw, _, _ =>
      outcome p = match from_json raw with Ok v => Ok v | Err e => Err (Deserialization e) end /\
      computed p = false /\ d' = d
  | None, Some _, _ => outcome p = Err negative_cache_error /\ computed p = false /\ d' = d
  | None, None, Err e =>
      outcome p = Err (FallbackFailed (lit "Fallback failed: " ++ e)) /\ computed p = true /\ d' = d
  | None, None, Ok v =>
      outcome p = Ok v /\ computed p = true /\
      (is_ok (to_json v) = true -> forall t', t <= t' ->
        fst (get (quiet_at t') key d') = Ok (if t' <? t + ttl then Some v else None))
  end) /\
  (forall c v, f = Ok v -> outcome (fst (recompute c key ttl f 0 d)) = Ok v).
Proof.
  intros Ht. split.
  - unfold get_or_insert, try_cache, get, exists_, run_command.
    cbn [negb pool quiet_calls lookup_call marker_call store_call connected broken meanwhile quiet_at now].
    destruct (get_text t key d) as [raw|] eqn:Eg; [by destruct (from_json raw)|].
    destruct (look t (null_key key) d); [done|]. destruct f as [v|e]; [|done].
    cbn [recompute]. unfold set, run_command.
    destruct (to_json v) as [json|e] eqn:Ej; cbn; [|done]. split; [done|]. split; [done|].
    intros _ t' Hle. exact (f_equal fst (get_after_set t t' key v json ttl d Ht Hle Ej)).
  - intros c v ->. cbn. by destruct (set c key v ttl d).
Qed.

Section Witness.
#[local] Existing Instance map_redis.

(** Texts, written as they are. *)
Definition plain_serde : Serde str.
Proof. refine {| to_json v := Ok v; from_json s := Ok s |}. by intros v s [= ->]. Defined.
#[local] Existing Instance plain_serde.

Lemma get_or_insert_exact_witness :
  let '(p, d') := get_or_insert (quiet_calls 100) (lit "k") 30 (Ok (lit "v")) (∅ : db) in
  outcome p = Ok (lit "v") /\ fst (get (quiet_at 129) (lit "k") d') = Ok (Some (lit "v")) /\
  fst (get (quiet_at 130) (lit "k") d') = Ok None.
Proof.
  pose proof (get_or_insert_exact 100 (lit "k") 30 (Ok (lit "v")) (∅ : db) eq_refl) as H.
  destruct (get_or_insert (quiet_calls 100) (lit "k") 30 (Ok (lit "v")) (∅ : db)) as [p d'] eqn:E.
  destruct H as [(H1 & _ & H2) _]. split; [exact H1|]. split.
  - exact (H2 eq_refl 129 ltac:(discriminate)).
  - exact (H2 eq_refl 130 ltac:(discriminate)).
Defined.
End Witness.

(** Without a server the locked variant does not fall back to the plain
    one, as its comment says: it computes the same value, but only after
    sleeping through every retry, because a missing client is handled like a
    lock held by another request. *)
Theorem no_server_waits_in_vain {R : Redis} {T} {S : Serde T} c again retries uuid attempts
    release_at key ttl expiry (f : result T str) d :
  pool c = false ->
  let '(p, _) := get_or_insert_with_lock c again retries false None uuid attempts release_at key ttl
                   expiry f d in
  let '(q, _) := get_or_insert c key ttl f d in
  outcome p = outcome q /\ computed p = computed q /\ slept q = 0%nat /\ slept p = length retries.
Proof.
  intros Hp. unfold get_or_insert_with_lock, get_or_insert, try_cache. rewrite Hp. cbn [negb acquire].
  assert (forall n, poll false key retries n d = (None, (n + length retries)%nat, d)) as ->.
  { clear. revert d. induction retries as [|x retries IH]; intros d n; cbn.
    - by rewrite Nat.add_0_r.
    - rewrite IH. by rewrite <- Nat.add_assoc. }
  destruct f as [v|e]; cbn; [|done]. by destruct (set (store_call c) key v ttl d).
Qed.

Section WitnessWait.
#[local] Existing Instances map_redis plain_serde.

Lemma no_server_waits_in_vain_witness :
  let c := {| lookup_call := quiet_at 0; marker_call := quiet_at 0; store_call := quiet_at 0;
              pool := false |} in
  slept (fst (get_or_insert_with_lock c (quiet_at 0) (replicate 5 (quiet_at 0)) false None (lit "u") []
    None (lit "k") 30 10 (Ok (lit "v")) (∅ : db))) = 5%nat.
Proof.
  cbv zeta. pose proof (no_server_waits_in_vain
    {| lookup_call := quiet_at 0; marker_call := quiet_at 0; store_call := quiet_at 0; pool := false |}
    (quiet_at 0) (replicate 5 (quiet_at 0)) (lit "u") [] None (lit "k") 30 10 (Ok (lit "v")) (∅ : db)
    eq_refl) as H.
  exact (proj2 (proj2 (proj2 H))).
Defined.
End WitnessWait.
