(* ===== verification/Quota.v ===== *)
(** * Rate limits and circuit breakers
    ([crates/distributed-ratelimit/src/limiter.rs], [server/src/services/quota.rs])

    The fixed-window limiter, its refinement of a counter with an expiry, the
    checks before a request is proxied, and the breaker of each channel. *)

From S2P Require Import Prelude Redis Lock Cache.
From Stdlib Require Import Sorting.Sorted.

Open Scope Z_scope.

(** ** The limiter *)

Inductive RateLimitError := LimiterNotAvailable | LimiterRedis (message : str).

Section Limiter.
Context {R : Redis}.

(** [client]: a server is configured. *)
Record RedisRateLimiter := { client : bool; key_prefix : str }.

Definition build_key (l : RedisRateLimiter) (bare : str) : str :=
  if is_empty (key_prefix l) then bare else key_prefix l ++ lit ":" ++ bare.

(** The script of [check_n]. *)
Definition incrby_and_expire (t : Z) (key : str) (window n : Z) (d : db) : option (Z * db) :=
  match incrby t key n d with
  | None => None
  | Some (count, d) => Some (count, if count =? n then expire t key window d else d)
  end.

Definition check_n (l : RedisRateLimiter) (c : command) (key : str) (max_requests window_seconds n : Z)
    (d : db) : result bool RateLimitError * db :=
  let d := meanwhile c d in
  if negb (client l) then (Err LimiterNotAvailable, d)
  else
    match broken c with
    | Some message => (Err (LimiterRedis message), d)
    | None =>
        match incrby_and_expire (now c) (build_key l key) window_seconds n d with
        | None => (Err (LimiterRedis (lit "value is not an integer or out of range")), d)
        | Some (count, d) => (Ok (count <=? max_requests), d)
        end
    end.

(** [INCR] is [INCRBY] by one. *)
Definition check (l : RedisRateLimiter) (c : command) (key : str) (max_requests window_seconds : Z)
    (d : db) : result bool RateLimitError * db :=
  check_n l c key max_requests window_seconds 1 d.

(** ** Quotas *)

(** [Unavailable] is declared by the code and never raised. *)
Inductive QuotaError :=
| ChannelRpmExceeded | ChannelTpmExceeded | TenantRpmExceeded | CircuitBroken | Unavailable.

Record QuotaConfig := {
  channel_max_rpm : Z;
  channel_max_tpm : Z;
  tenant_max_rpm : Z;
  cb_failure_threshold : Z;
  cb_retry_after_secs : Z;
  fail_open : bool
}.

Record QuotaService := { limiter : option RedisRateLimiter; config : QuotaConfig }.

Definition failures_key (channel_id : str) : str := lit "cb:channel:" ++ channel_id ++ lit ":failures".
Definition tripped_key (channel_id : str) : str := lit "cb:channel:" ++ channel_id ++ lit ":tripped".

(** A limiter that fails is overruled by the configuration. *)
Definition limited (q : QuotaService) (ask : RedisRateLimiter -> result bool RateLimitError * db)
    (d : db) : bool * db :=
  match limiter q with
  | None => (true, d)
  | Some l => match ask l with
              | (Ok allowed, d) => (allowed, d)
              | (Err _, d) => (fail_open (config q), d)
              end
  end.

Definition check_channel_rpm (q : QuotaService) (c : command) (channel_id : str) (d : db) : bool * db :=
  limited q (fun l => check l c (lit "quota:channel:" ++ channel_id ++ lit ":rpm")
                        (channel_max_rpm (config q)) 60 d) d.

Definition div_ceil (a b : Z) : Z := (a + b - 1) / b.

Definition check_channel_tpm (q : QuotaService) (c : command) (channel_id : str)
    (estimated_tokens : Z) (d : db) : bool * db :=
  match limiter q with
  | None => (true, d)
  | Some _ =>
      if estimated_tokens =? 0 then (true, d)
      else limited q (fun l => check_n l c (lit "quota:channel:" ++ channel_id ++ lit ":tpm")
                                 (div_ceil (channel_max_tpm (config q)) 1000) 60
                                 (div_ceil estimated_tokens 1000) d) d
  end.

Definition check_tenant_rpm (q : QuotaService) (c : command) (tenant_id capability : str) (d : db) :
    bool * db :=
  limited q (fun l => check l c (lit "quota:tenant:" ++ tenant_id ++ lit ":" ++ capability ++ lit ":rpm")
                        (tenant_max_rpm (config q)) 60 d) d.

Definition is_circuit_broken (c : command) (channel_id : str) (d : db) : bool * db :=
  match exists_ c (tripped_key channel_id) d with
  | (Ok b, d) => (b, d)
  | (Err _, d) => (false, d)
  end.

(** The four checks, each with its own command. *)
Record check_calls := { breaker_call : command; rpm_call : command; tpm_call : command;
                        tenant_call : command }.

Definition check_all (q : QuotaService) (c : check_calls) (channel_id tenant_id capability : str)
    (estimated_tokens : Z) (d : db) : result unit QuotaError * db :=
  let '(tripped, d) := is_circuit_broken (breaker_call c) channel_id d in
  if (tripped : bool) then (Err CircuitBroken, d)
  else
    let '(ok, d) := check_channel_rpm q (rpm_call c) channel_id d in
    if negb ok then (Err ChannelRpmExceeded, d)
    else
      let '(ok, d) := check_channel_tpm q (tpm_call c) channel_id estimated_tokens d in
      if negb ok then (Err ChannelTpmExceeded, d)
      else
        let '(ok, d) := check_tenant_rpm q (tenant_call c) tenant_id capability d in
        if negb ok then (Err TenantRpmExceeded, d) else (Ok tt, d).

Definition record_success (c1 c2 : command) (channel_id : str) (d : db) : db :=
  let '(_, d) := invalidate c1 (failures_key channel_id) d in
  let '(_, d) := invalidate c2 (tripped_key channel_id) d in d.

Definition record_failure (q : QuotaService) (c1 c2 : command) (channel_id : str) (d : db) :
    bool * db :=
  let ttl := cb_retry_after_secs (config q) in
  let '(r, d) := increment_by c1 (failures_key channel_id) 1 ttl d in
  let new_count := match r with Ok n => n | Err _ => 1 end in
  if cb_failure_threshold (config q) <=? new_count
  then let '(_, d) := run_command c2 tt d
                        (fun t d => (Ok tt, setex t (tripped_key channel_id) ttl (lit "true") d)) in
       (true, d)
  else (false, d).

(** ** What the limiter promises *)

(** A window: what it has counted, and when it ends. *)
Definition window_check (max window : Z) (st : option (Z * Z)) (request : Z * Z) :
    bool * option (Z * Z) :=
  let '(t, n) := request in
  let '(count, ends) := match st with
                        | Some (count, ends) => if t <? ends then (count, ends) else (0, t + window)
                        | None => (0, t + window)
                        end in
  (count + n <=? max, Some (count + n, ends)).

Fixpoint window_checks (max window : Z) (st : option (Z * Z)) (requests : list (Z * Z)) : list bool :=
  match requests with
  | [] => []
  | r :: rest =>
      let '(ok, st) := window_check max window st r in ok :: window_checks max window st rest
  end.

(** The limiter, asked once per request (a time and a cost). *)
Fixpoint run_checks (l : RedisRateLimiter) (key : str) (max window : Z) (requests : list (Z * Z))
    (d : db) : list (result bool RateLimitError) :=
  match requests with
  | [] => []
  | (t, n) :: rest =>
      let '(r, d) := check_n l (quiet_at t) key max window n d in
      r :: run_checks l key max window rest d
  end.

(** The server holds the window, seen from time [t]. *)
Definition holds (t : Z) (key : str) (st : option (Z * Z)) (d : db) : Prop :=
  match st with
  | Some (count, ends) =>
      0 < count /\
      look t key d = if t <? ends then Some (RNumber count, Some ends) else None
  | None => look t key d = None
  end.

Lemma holds_later t t' key st d : t <= t' -> holds t key st d -> holds t' key st d.
Proof.
  intros Ht. destruct st as [[count ends]|]; cbn.
  - intros [Hc H]. split; [done|]. rewrite (look_later t), H by done.
    destruct (Z.ltb_spec t ends), (Z.ltb_spec t' ends); try done; lia.
  - intros H. by rewrite (look_later t), H.
Qed.

Lemma check_refines l key max window t n st d :
  client l = true -> 0 < window -> 0 < n -> holds t (build_key l key) st d ->
  let '(r, d') := check_n l (quiet_at t) key max window n d in
  let '(ok, st') := window_check max window st (t, n) in
  r = Ok ok /\ holds t (build_key l key) st' d'.
Proof.
  intros Hl Hw Hn Hh. unfold check_n, incrby_and_expire. rewrite Hl. cbn [negb broken now meanwhile quiet_at].
  pose proof (incrby_spec t (build_key l key) n d) as Hi. set (k := build_key l key) in *.
  assert (forall count ends, look t k d = Some (RNumber count, Some ends) -> 0 < count ->
    exists d', incrby t k n d = Some (count + n, d') /\ (count + n =? n) = false /\
      look t k d' = Some (RNumber (count + n), Some ends)) as Hold.
  { intros count ends E Hc. rewrite E in Hi. destruct Hi as (d' & H1 & H2). exists d'.
    split; [done|]. split; [apply Z.eqb_neq; lia|done]. }
  assert (look t k d = None -> exists d', incrby t k n d = Some (n, d') /\
    look t k (expire t k window d') = Some (RNumber n, Some (t + window))) as Hnew.
  { intros E. rewrite E in Hi. destruct Hi as (d' & H1 & H2). exists d'. split; [done|].
    by rewrite expire_spec, H2. }
  destruct st as [[count ends]|]; cbn in Hh |- *; [destruct Hh as [Hc Hh]; destruct (Z.ltb_spec t ends)|].
  - destruct (Hold count ends Hh Hc) as (d' & -> & -> & Hd). cbn. split; [done|]. split; [lia|].
    destruct (Z.ltb_spec t ends); [done|lia].
  - destruct (Hnew Hh) as (d' & -> & Hd). rewrite Z.eqb_refl. cbn. split; [done|]. split; [lia|].
    rewrite Hd. destruct (Z.ltb_spec t (t + window)); [done|lia].
  - destruct (Hnew Hh) as (d' & -> & Hd). rewrite Z.eqb_refl. cbn. split; [done|]. split; [lia|].
    rewrite Hd. destruct (Z.ltb_spec t (t + window)); [done|lia].
Qed.

Definition in_time_order (requests : list (Z * Z)) : Prop := StronglySorted (fun a b => fst a <= fst b) requests.

Lemma run_checks_refines l key max window requests st d t0 :
  client l = true -> 0 < window -> Forall (fun r => t0 <= fst r /\ 0 < snd r) requests ->
  in_time_order requests -> holds t0 (build_key l key) st d ->
  run_checks l key max window requests d = Ok <$> window_checks max window st requests.
Proof.
  intros Hl Hw. revert st d t0. induction requests as [|[t n] rest IH]; intros st d t0 Hr Ho Hh; [done|].
  apply Forall_cons in Hr as [[Ht Hn] Hr]. apply StronglySorted_inv in Ho as [Ho Hfirst]. cbn in Ht, Hn.
  cbn [run_checks window_checks].
  pose proof (check_refines l key max window t n st d Hl Hw Hn) as Hc.
  destruct (check_n l (quiet_at t) key max window n d) as [r d'].
  destruct (window_check max window st (t, n)) as [ok st'] eqn:Ew.
  destruct Hc as [-> Hd]; [by eapply holds_later|]. rewrite fmap_cons. f_equal. apply (IH st' d' t); [|done|done].
  rewrite Forall_forall in *. intros x Hx. split; [by apply Hfirst|]. by apply Hr.
Qed.
End Limiter.

(** ** Cost admitted in one window *)

Fixpoint admitted (requests : list (Z * Z)) (answers : list bool) : Z :=
  match requests, answers with
  | (_, n) :: requests, ok :: answers => (if (ok : bool) then n else 0) + admitted requests answers
  | _, _ => 0
  end.

Lemma admitted_in_window max window count ends requests :
  Forall (fun r => fst r < ends /\ 0 < snd r) requests ->
  count + admitted requests (window_checks max window (Some (count, ends)) requests) <= Z.max max count.
Proof.
  revert count. induction requests as [|[t n] rest IH]; intros count Hr; cbn; [lia|].
  apply Forall_cons in Hr as [[Ht Hn] Hr]. cbn in Ht, Hn.
  destruct (Z.ltb_spec t ends); [|lia]. cbn [window_checks]. specialize (IH (count + n) Hr).
  destruct (Z.leb_spec (count + n) max); [lia|].
  enough (admitted rest (window_checks max window (Some (count + n, ends)) rest) <= 0) by lia. lia.
Qed.

(** ** The keys of a breaker *)

Lemma keys_differ id x y : last x <> last y -> x <> [] -> y <> [] ->
  lit "cb:channel:" ++ id ++ x <> lit "cb:channel:" ++ id ++ y.
Proof.
  intros Hl Hx Hy E. apply app_inv_head, app_inv_head in E. by subst.
Qed.

Lemma tripped_not_failures id : tripped_key id <> failures_key id.
Proof. apply keys_differ; done. Qed.

Lemma null_not_tripped id id' : null_key (failures_key id) <> tripped_key id'.
Proof.
  unfold null_key, failures_key, tripped_key. rewrite !app_assoc. intros E.
  apply (f_equal last) in E. rewrite !last_app in E. cbn in E. discriminate.
Qed.

Lemma null_key_not_itself k : null_key k <> k.
Proof.
  unfold null_key. intros E. apply (f_equal length) in E. rewrite length_app in E. cbn in E. lia.
Qed.

(** ** The breaker *)

Section Breaker.
Context {R : Redis} (q : QuotaService) (id : str).

Abbreviation ttl := (cb_retry_after_secs (config q)) (only parsing).
Abbreviation threshold := (cb_failure_threshold (config q)) (only parsing).

(** Failures at the given times, with nobody else around: the answers. *)
Fixpoint fail_at (times : list Z) (d : db) : list bool * db :=
  match times with
  | [] => ([], d)
  | t :: rest =>
      let '(tripped, d) := record_failure q (quiet_at t) (quiet_at t) id d in
      let '(answers, d) := fail_at rest d in (tripped :: answers, d)
  end.

(** Each failure within the retry delay of the one before. *)
Fixpoint close_together (t : Z) (times : list Z) : Prop :=
  match times with
  | [] => True
  | t' :: rest => t <= t' < t + ttl /\ close_together t' rest
  end.

(** After [j] failures in a row, the last one at [t]. *)
Record after_failures (j t : Z) (d : db) : Prop := {
  counted : look t (failures_key id) d = Some (RNumber j, Some (t + ttl));
  flagged : look t (tripped_key id) d =
            if threshold <=? j then Some (RText (lit "true"), Some (t + ttl)) else None
}.

Lemma failure_counts t j d0 d b :
  0 < ttl ->
  look t (failures_key id) d0 = (if 0 <? j then Some (RNumber j, Some d) else None) -> 0 <= j ->
  ((threshold <=? j) = false -> look t (tripped_key id) d0 = None) ->
  b = (threshold <=? j + 1) ->
  exists d1, record_failure q (quiet_at t) (quiet_at t) id d0 = (b, d1) /\ after_failures (j + 1) t d1.
Proof.
  intros Ht Hf Hj Hn ->. unfold record_failure, increment_by, run_command.
  cbn [negb connected broken meanwhile now quiet_at].
  pose proof (incrby_spec t (failures_key id) 1 d0) as Hi. rewrite Hf in Hi.
  assert (exists d1 e, incrby t (failures_key id) 1 d0 = Some (j + 1, d1) /\
    look t (failures_key id) d1 = Some (RNumber (j + 1), e)) as (d1 & e & E & Hd1).
  { destruct (Z.ltb_spec 0 j).
    - destruct Hi as (d1 & H1 & H2). eauto.
    - replace j with 0 by lia. destruct Hi as (d1 & H1 & H2). eauto. }
  rewrite E. cbn [negb].
  assert (look t (failures_key id) (expire t (failures_key id) ttl d1)
          = Some (RNumber (j + 1), Some (t + ttl))) as Hc by (by rewrite expire_spec, Hd1).
  pose proof (tripped_not_failures id) as Hk.
  destruct (threshold <=? j + 1) eqn:Eth; eexists; (split; [reflexivity|]); split; rewrite ?Eth.
  - by rewrite setex_other by congruence.
  - by apply setex_spec.
  - done.
  - rewrite expire_other by done. erewrite incrby_other by done. apply Hn.
    apply Z.leb_gt. apply Z.leb_gt in Eth. lia.
Qed.

Lemma fail_at_spec times j t d :
  0 < ttl -> 0 < j -> after_failures j t d -> close_together t times ->
  let '(answers, d') := fail_at times d in
  answers = imap (fun i _ => threshold <=? j + 1 + Z.of_nat i) times /\
  after_failures (j + Z.of_nat (length times)) (default t (last times)) d'.
Proof.
  intros Ht. revert j t d. induction times as [|t' times IH]; intros j t d Hj Ha Hc; cbn [fail_at].
  { split; [done|]. cbn. by rewrite Z.add_0_r. }
  destruct Hc as [[Hle Hlt] Hc].
  destruct (failure_counts t' j d (t + ttl) (threshold <=? j + 1) Ht)
    as (d1 & E & Ha1); [..|done|].
  - rewrite (look_later t), (counted _ _ _ Ha) by done.
    destruct (Z.ltb_spec t' (t + ttl)); [|lia]. by destruct (Z.ltb_spec 0 j); [|lia].
  - lia.
  - intros Hth. rewrite (look_later t), (flagged _ _ _ Ha), Hth by done. done.
  - rewrite E. specialize (IH (j + 1) t' d1 ltac:(lia) Ha1 Hc).
    destruct (fail_at times d1) as [answers d2]. destruct IH as [-> IH]. split.
    + cbn [imap]. f_equal; [by rewrite Z.add_0_r|]. apply imap_ext. intros i x _. cbn. f_equal. lia.
    + rewrite last_cons. replace (j + Z.of_nat (length (t' :: times)))
        with (j + 1 + Z.of_nat (length times)) by (rewrite length_cons; lia).
      by destruct (last times).
Qed.
End Breaker.

(** ** Properties *)

(** The limiter is a fixed window: on a fresh key, a sequence of requests
    (times in order, positive costs) is answered exactly as a counter that
    starts with the first request and is forgotten when its window ends; so
    the cost admitted within one window never exceeds the maximum. *)
Theorem limiter_is_fixed_window {R : Redis} l key max window t0 requests (d : db) :
  client l = true -> 0 < window -> look t0 (build_key l key) d = None ->
  Forall (fun r => t0 <= fst r /\ 0 < snd r) requests -> in_time_order requests ->
  run_checks l key max window requests d = Ok <$> window_checks max window None requests /\
  (0 <= max -> Forall (fun r => fst r < t0 + window) requests ->
   head (fst <$> requests) = Some t0 ->
   admitted requests (window_checks max window None requests) <= max).
Proof.
  intros Hl Hw Hd Hr Ho. split; [by eapply run_checks_refines|].
  intros Hm Hin Hh. destruct requests as [|[t n] rest]; [done|]. cbn in Hh. injection Hh as ->.
  cbn [window_checks window_check admitted].
  apply Forall_cons in Hin as [_ Hin], Hr as [[_ Hn] Hr]. cbn in Hn.
  pose proof (admitted_in_window max window n (t0 + window) rest) as Ha. rewrite Z.add_0_l.
  assert (Forall (fun r => fst r < t0 + window /\ 0 < snd r) rest) as HF.
  { apply Forall_forall. intros r Hx. rewrite Forall_forall in Hin, Hr.
    split; [by apply Hin|by apply Hr]. }
  specialize (Ha HF). destruct (Z.leb_spec n max); lia.
Qed.

Section WitnessWindow.
#[local] Existing Instance map_redis.

Lemma limiter_is_fixed_window_witness :
  let l := {| client := true; key_prefix := lit "ratelimit" |} in
  run_checks l (lit "k") 2 60 [(0, 1); (10, 1); (20, 1); (60, 1)] ∅
    = [Ok true; Ok true; Ok false; Ok true].
Proof.
  cbv zeta.
  refine (eq_trans (proj1 (limiter_is_fixed_window {| client := true; key_prefix := lit "ratelimit" |}
    (lit "k") 2 60 0 [(0, 1); (10, 1); (20, 1); (60, 1)] ∅ eq_refl eq_refl eq_refl _ _)) eq_refl).
  - repeat constructor; discriminate.
  - repeat constructor; discriminate.
Defined.

(** A refused request still spends: the script counts the cost before
    comparing, and nothing gives it back, so with a budget of ten a refused
    request of five blocks a later one of two that would have fitted; the
    quota service says the opposite about its token checks. *)
Theorem refused_requests_spend_budget :
  run_checks {| client := true; key_prefix := [] |} (lit "k") 10 60 [(0, 8); (1, 5); (2, 2)] ∅
    = [Ok true; Ok false; Ok false] /\
  run_checks {| client := true; key_prefix := [] |} (lit "k") 10 60 [(0, 8); (2, 2)] ∅
    = [Ok true; Ok true].
Proof. split; vm_compute; reflexivity. Qed.
End WitnessWindow.

(** The breaker follows consecutive failures: with failures close
    together, the answer of each says whether the threshold is reached; from
    then on the channel is refused, before any budget is spent, until the
    retry delay after the last failure has passed, and then it is open again;
    a success closes it at once and starts the count anew. *)
Theorem breaker_follows_failures {R : Redis} q id tenant capability tokens t0 times (d : db) :
  0 < cb_retry_after_secs (config q) ->
  look t0 (failures_key id) d = None -> look t0 (tripped_key id) d = None ->
  close_together q t0 times ->
  let '(answers, d') := fail_at q id (t0 :: times) d in
  let last_failure := default t0 (last times) in
  let tripped := cb_failure_threshold (config q) <=? Z.of_nat (S (length times)) in
  answers = imap (fun i _ => cb_failure_threshold (config q) <=? 1 + Z.of_nat i) (t0 :: times) /\
  (forall t, last_failure <= t ->
   is_circuit_broken (quiet_at t) id d' =
     (tripped && (t <? last_failure + cb_retry_after_secs (config q)), d')) /\
  (forall t c, last_failure <= t < last_failure + cb_retry_after_secs (config q) -> tripped = true ->
   breaker_call c = quiet_at t ->
   check_all q c id tenant capability tokens d' = (Err CircuitBroken, d')) /\
  (forall t, last_failure <= t ->
   let d'' := record_success (quiet_at t) (quiet_at t) id d' in
   look t (failures_key id) d'' = None /\ look t (tripped_key id) d'' = None).
Proof.
  intros Ht Hf Hp Hc. cbn [fail_at].
  destruct (failure_counts q id t0 0 d 0 (cb_failure_threshold (config q) <=? 1) Ht)
    as (d1 & E & Ha1); [exact Hf|lia|by intros|reflexivity|]. rewrite E.
  pose proof (fail_at_spec q id times 1 t0 d1 Ht ltac:(lia) Ha1 Hc) as Hs.
  destruct (fail_at q id times d1) as [answers d']. destruct Hs as [-> [Hcount Hflag]].
  set (final := default t0 (last times)) in *.
  replace (1 + Z.of_nat (length times)) with (Z.of_nat (S (length times))) in * by lia.
  assert (forall t, final <= t -> is_circuit_broken (quiet_at t) id d' =
    ((cb_failure_threshold (config q) <=? Z.of_nat (S (length times)))
     && (t <? final + cb_retry_after_secs (config q)), d')) as Hbroken.
  { intros t Hle. unfold is_circuit_broken, exists_, run_command.
    cbn [negb connected broken meanwhile now quiet_at]. rewrite (look_later final), Hflag by done.
    destruct (cb_failure_threshold (config q) <=? Z.of_nat (S (length times))); [|done].
    by destruct (t <? final + cb_retry_after_secs (config q)). }
  split; [|split; [exact Hbroken|split] ].
  - cbn [imap]. f_equal. apply imap_ext. intros i x _. cbn. f_equal. lia.
  - intros t c Hle Htr Hcall. unfold check_all. rewrite Hcall, Hbroken, Htr by lia. cbn.
    destruct (Z.ltb_spec t (final + cb_retry_after_secs (config q))); [done|lia].
  - intros t Hle. unfold record_success, invalidate, run_command.
    cbn [negb connected broken meanwhile now quiet_at].
    pose proof (tripped_not_failures id). pose proof (null_not_tripped id id).
    pose proof (null_key_not_itself (failures_key id)). pose proof (null_key_not_itself (tripped_key id)).
    assert (failures_key id <> null_key (tripped_key id)) as Hn.
    { unfold null_key, failures_key, tripped_key. rewrite !app_assoc. intros Hx.
      apply (f_equal last) in Hx. rewrite !last_app in Hx. cbn in Hx. discriminate. }
    split; rewrite (del_other t (null_key (tripped_key id))) by congruence.
    + rewrite del_other, del_other by congruence. apply del_spec.
    + apply del_spec.
Qed.

Section WitnessBreaker.
#[local] Existing Instance map_redis.

Definition demo_quota : QuotaService :=
  {| limiter := None;
     config := {| channel_max_rpm := 60; channel_max_tpm := 100000; tenant_max_rpm := 600;
                  cb_failure_threshold := 3; cb_retry_after_secs := 60; fail_open := true |} |}.

Lemma breaker_follows_failures_witness :
  fst (fail_at demo_quota (lit "c") [0; 20; 40] ∅) = [false; false; true] /\
  fst (is_circuit_broken (quiet_at 99) (lit "c") (snd (fail_at demo_quota (lit "c") [0; 20; 40] ∅))) = true.
Proof.
  pose proof (breaker_follows_failures demo_quota (lit "c") (lit "t") (lit "chat") 0 0 [20; 40] ∅
    eq_refl eq_refl eq_refl ltac:(cbn; lia)) as H.
  destruct (fail_at demo_quota (lit "c") [0; 20; 40] ∅) as [answers d'].
  destruct H as (H1 & H2 & _). split; [exact H1|].
  exact (f_equal fst (H2 99 ltac:(discriminate))).
Defined.
End WitnessBreaker.
