(* ===== verification/Utf8.v ===== *)
(** * UTF-8 ([std::str::from_utf8], [str::as_bytes])

    Text is a list of code points ([Prelude.str]); what crosses a socket or a
    pipe is a list of bytes.  [encode] and [from_utf8] are the standard
    library's conversions; [from_utf8_spec] says that decoding is exactly the
    inverse of encoding on scalar values, so overlong forms, surrogates and
    cut characters are refused. *)

From S2P Require Import Prelude.

Abbreviation byte := N (only parsing).
Abbreviation bytes := (list N) (only parsing).

Definition is_scalar (c : char) : bool :=
  ((c <? 55296) || (57344 <=? c) && (c <=? 1114111))%N.

Definition encode_char (c : char) : bytes :=
  if (c <? 128)%N then [c]
  else if (c <? 2048)%N then [192 + c / 64; 128 + c mod 64]%N
  else if (c <? 65536)%N then [224 + c / 4096; 128 + c / 64 mod 64; 128 + c mod 64]%N
  else [240 + c / 262144; 128 + c / 4096 mod 64; 128 + c / 64 mod 64; 128 + c mod 64]%N.

(** [str::as_bytes]. *)
Definition encode (s : str) : bytes := s ≫= encode_char.

(** The payload of a continuation byte. *)
Definition low6 (b : byte) : N := (b mod 64)%N.

(** The scalar value that starts with the given bytes, without checks. *)
Definition raw_char (bs : bytes) : option char :=
  match bs with
  | [] => None
  | b0 :: rest =>
      if (b0 <? 128)%N then Some b0
      else if (b0 <? 192)%N then None
      else if (b0 <? 224)%N then
        match rest with
        | b1 :: _ => Some ((b0 - 192) * 64 + low6 b1)%N
        | _ => None
        end
      else if (b0 <? 240)%N then
        match rest with
        | b1 :: b2 :: _ => Some ((b0 - 224) * 4096 + low6 b1 * 64 + low6 b2)%N
        | _ => None
        end
      else
        match rest with
        | b1 :: b2 :: b3 :: _ =>
            Some ((b0 - 240) * 262144 + low6 b1 * 4096 + low6 b2 * 64 + low6 b3)%N
        | _ => None
        end
  end.

(** One character: a scalar value in its shortest form. *)
Definition decode_char (bs : bytes) : option (char * bytes) :=
  c ← raw_char bs;
  if is_scalar c && starts_with (encode_char c) bs
  then Some (c, drop (length (encode_char c)) bs) else None.

Fixpoint decode (fuel : nat) (bs : bytes) : option str :=
  match bs with
  | [] => Some []
  | _ :: _ =>
      match fuel with
      | O => None
      | S fuel => '(c, rest) ← decode_char bs; s ← decode fuel rest; Some (c :: s)
      end
  end.

(** [std::str::from_utf8] and [String::from_utf8]. *)
Definition from_utf8 (bs : bytes) : option str := decode (length bs) bs.

(** ** Decoding inverts encoding *)

Lemma encode_char_nonempty c : encode_char c <> [].
Proof. unfold encode_char. by repeat case_match. Qed.

Lemma encode_app s t : encode (s ++ t) = encode s ++ encode t.
Proof. unfold encode. apply bind_app. Qed.

Ltac euclid := zify; Z.to_euclidean_division_equations; lia.

Lemma low6_continuation x : low6 (128 + x mod 64) = (x mod 64)%N.
Proof. unfold low6. change 128%N with (2 * 64)%N. rewrite N.add_comm, N.Div0.mod_add. apply N.Div0.mod_mod. Qed.

Lemma raw_char_encode c rest : is_scalar c = true -> raw_char (encode_char c ++ rest) = Some c.
Proof.
  intros Hc. unfold is_scalar in Hc. unfold encode_char.
  destruct (N.ltb_spec c 128).
  { cbn. by rewrite (proj2 (N.ltb_lt c 128)). }
  assert (c <= 1114111)%N as Hmax.
  { apply orb_true_iff in Hc as [Hc|[? Hc]%andb_true_iff]; [apply N.ltb_lt in Hc|apply N.leb_le in Hc]; lia. }
  clear Hc. destruct (N.ltb_spec c 2048); [|destruct (N.ltb_spec c 65536)]; cbn [app raw_char].
  - assert (2 <= c / 64 < 32)%N by euclid.
    rewrite (proj2 (N.ltb_ge _ 128)), (proj2 (N.ltb_ge _ 192)), (proj2 (N.ltb_lt _ 224)) by lia.
    f_equal. rewrite !low6_continuation. euclid.
  - assert (0 <= c / 4096 < 16)%N by euclid.
    rewrite (proj2 (N.ltb_ge _ 128)), (proj2 (N.ltb_ge _ 192)), (proj2 (N.ltb_ge _ 224)),
      (proj2 (N.ltb_lt _ 240)) by lia.
    f_equal. rewrite !low6_continuation. change 4096%N with (64 * 64)%N. rewrite <- N.Div0.div_div.
    generalize (N.div_mod' (c / 64) 64), (N.div_mod' c 64). generalize (c / 64 / 64)%N. lia.
  - assert (0 <= c / 262144)%N by euclid.
    rewrite (proj2 (N.ltb_ge _ 128)), (proj2 (N.ltb_ge _ 192)), (proj2 (N.ltb_ge _ 224)),
      (proj2 (N.ltb_ge _ 240)) by lia.
    f_equal. rewrite !low6_continuation. change 262144%N with (64 * 64 * 64)%N.
    change 4096%N with (64 * 64)%N. rewrite <- !N.Div0.div_div.
    generalize (N.div_mod' (c / 64 / 64) 64), (N.div_mod' (c / 64) 64), (N.div_mod' c 64).
    generalize (c / 64 / 64 / 64)%N. lia.
Qed.

Lemma starts_with_drop (p s : list N) : starts_with p s = true -> s = p ++ drop (length p) s.
Proof.
  revert s; induction p as [|x p IH]; intros s H; [done|]. destruct s as [|y s]; [done|].
  cbn [starts_with] in H. bool_to_prop. subst. cbn. f_equal. by apply IH.
Qed.

Lemma decode_char_encode c rest : is_scalar c = true -> decode_char (encode_char c ++ rest) = Some (c, rest).
Proof.
  intros Hc. unfold decode_char. rewrite raw_char_encode by done. cbn [mbind option_bind].
  rewrite Hc, starts_with_app. cbn [andb]. by rewrite drop_app_length.
Qed.

Lemma decode_char_sound bs c rest :
  decode_char bs = Some (c, rest) -> bs = encode_char c ++ rest /\ is_scalar c = true.
Proof.
  unfold decode_char. destruct (raw_char bs) as [c'|]; [|done]. cbn [mbind option_bind].
  destruct (is_scalar c') eqn:Es; [|done]. destruct (starts_with _ _) eqn:Ep; [|done].
  intros [= -> <-]. split; [|done]. by apply starts_with_drop.
Qed.

Lemma decode_encode s fuel :
  Forall (fun c => is_scalar c = true) s -> length (encode s) <= fuel -> decode fuel (encode s) = Some s.
Proof.
  revert fuel; induction s as [|c s IH]; intros fuel Hs Hf; [by destruct fuel|].
  apply Forall_cons in Hs as [Hc Hs]. unfold encode in *. rewrite bind_cons in *. rewrite length_app in Hf.
  assert (0 < length (encode_char c)) as Hpos
    by (pose proof (encode_char_nonempty c); destruct (encode_char c); [done|cbn; lia]).
  destruct (encode_char c ++ (s ≫= encode_char)) as [|b bs] eqn:E; [destruct (encode_char c); cbn in *; [lia|done]|].
  destruct fuel as [|fuel]; [lia|]. cbn [decode]. rewrite <- E, decode_char_encode by done. cbn.
  by rewrite IH by (done || lia).
Qed.

Lemma decode_sound fuel bs s :
  decode fuel bs = Some s -> encode s = bs /\ Forall (fun c => is_scalar c = true) s.
Proof.
  revert bs s; induction fuel as [|fuel IH]; intros [|b bs] s; cbn [decode]; try done;
    try (intros [= <-]; done).
  destruct (decode_char (b :: bs)) as [[c rest]|] eqn:Ed; [|done]. cbn.
  destruct (decode fuel rest) as [t|] eqn:Et; [|done]. cbn. intros [= <-].
  apply decode_char_sound in Ed as [-> Hc]. apply IH in Et as [<- Ht].
  split; [done|]. by constructor.
Qed.

Lemma from_utf8_spec bs s :
  from_utf8 bs = Some s <-> encode s = bs /\ Forall (fun c => is_scalar c = true) s.
Proof.
  split; [apply decode_sound|]. intros [<- Hs]. by apply decode_encode.
Qed.

(** ** Bytes below 128 stand for themselves *)

Lemma encode_char_bytes c : Forall (fun b => b = c \/ 128 <= b)%N (encode_char c).
Proof.
  assert (forall k x, 128 <= k -> 128 <= k + x)%N as Hge
    by (intros k x Hk; etrans; [exact Hk|apply N.le_add_r]).
  unfold encode_char. repeat case_match; repeat apply Forall_cons_2; try apply Forall_nil_2;
    solve [by left | right; by apply Hge].
Qed.

Lemma encode_char_ascii c b : (b < 128)%N -> b ∈ encode_char c -> b = c.
Proof.
  intros Hb Hin. pose proof (encode_char_bytes c) as H. rewrite Forall_forall in H.
  destruct (H b Hin); lia.
Qed.

Lemma encode_ascii s b : (b < 128)%N -> b ∈ encode s -> b ∈ s.
Proof.
  intros Hb. unfold encode. intros (c & Hin & Hc)%list_elem_of_bind.
  by apply encode_char_ascii in Hin as ->.
Qed.

Lemma encode_is_ascii s : Forall is_ascii s -> encode s = s.
Proof.
  unfold is_ascii. induction 1 as [|c s Hc Hs IH]; [done|]. unfold encode in *. rewrite bind_cons, IH.
  unfold encode_char. by rewrite (proj2 (N.ltb_lt c 128)).
Qed.

Lemma length_encode s : N.of_nat (length (encode s)) = utf8_len s.
Proof.
  induction s as [|c s IH]; [done|]. unfold encode in *. rewrite bind_cons, length_app. cbn [utf8_len].
  rewrite Nat2N.inj_add, IH. f_equal. unfold encode_char, len_utf8. by repeat case_match.
Qed.
