(* ===== verification/Sse.v ===== *)
(** * Server-sent events
    ([server/src/services/gateway.rs], [server/src/handlers/responses.rs])

    Both ends of a stream cut a byte stream into event blocks and read their
    fields.  They look for the end of a block in two different ways; the
    interface [Framing] states what both promise, and the loop over a buffer
    is proved against it: how the network cuts the stream into chunks does not
    matter ([consume_app], [feed_concat]). *)

From S2P Require Import Prelude Utf8.

(** ** Lines and fields of an event block *)

Definition strip_one_space (s : str) : str :=
  match s with c :: rest => if (c =? space)%N then rest else s | [] => s end.

(** The first line [field: value]. *)
Definition sse_field_value (event_block field : str) : option str :=
  head (omap (fun line => rest ← strip_prefix field line; strip_one_space <$> strip_prefix (lit ":") rest)
             (lines event_block)).

(** The values of all [data:] lines, joined by newlines. *)
Definition data_values (event_block : str) : list str :=
  omap (fun line => strip_one_space <$> strip_prefix (lit "data:") line) (lines event_block).

Definition sse_data_payload (event_block : str) : option str :=
  match data_values event_block with [] => None | values => Some (join [newline] values) end.

(** The handler's reading of the same fields. *)
Definition upstream_event_data (event_str : str) : option str := trim <$> sse_data_payload event_str.

Definition upstream_event_type (event_str : str) : option str :=
  head (omap (fun line => trim <$> strip_prefix (lit "event:") line) (lines event_str)).

(** ** The end of a block *)

Definition lf_lf : bytes := [newline; newline].
Definition cr_cr : bytes := [carriage_return; carriage_return].
Definition crlf_crlf : bytes := [carriage_return; newline; carriage_return; newline].

(** The gateway: the first blank line of either style. *)
Definition gateway_sse_delimiter (buffer : bytes) : option (nat * nat) :=
  match find lf_lf buffer, find crlf_crlf buffer with
  | Some lf, Some crlf => if lf <=? crlf then Some (lf, 2) else Some (crlf, 4)
  | Some lf, None => Some (lf, 2)
  | None, Some crlf => Some (crlf, 4)
  | None, None => None
  end.

(** The handler: the first position where one of three styles starts. *)
Fixpoint handler_sse_delimiter (buffer : bytes) : option (nat * nat) :=
  match buffer with
  | [] => None
  | _ :: rest =>
      if starts_with crlf_crlf buffer then Some (0, 4)
      else if starts_with lf_lf buffer || starts_with cr_cr buffer then Some (0, 2)
      else '(position, len) ← handler_sse_delimiter rest; Some (S position, len)
  end.

(** What the buffer loop relies on: the block ends inside the buffer, and more
    bytes do not move its end. *)
Class Framing := {
  find_delimiter : bytes -> option (nat * nat);
  delimiter_inside b p l : find_delimiter b = Some (p, l) -> 0 < l /\ p + l <= length b;
  delimiter_stable b c p l : find_delimiter b = Some (p, l) -> find_delimiter (b ++ c) = Some (p, l)
}.

(** ** The loop over a buffer *)

Section Consume.
Context {F : Framing} {St R : Type}.

(** [process block position]: the block with its delimiter, and where the
    delimiter starts; [inr] leaves the loop. *)
Context (process : bytes -> nat -> St -> St + R).

Fixpoint consume_loop (fuel : nat) (buffer : bytes) (s : St) : (bytes * St) + R :=
  match find_delimiter buffer with
  | None => inl (buffer, s)
  | Some (position, len) =>
      match fuel with
      | O => inl (buffer, s)
      | S fuel =>
          match process (take (position + len) buffer) position s with
          | inl s => consume_loop fuel (drop (position + len) buffer) s
          | inr r => inr r
          end
      end
  end.

(** Every round removes at least one byte. *)
Definition consume (buffer : bytes) (s : St) : (bytes * St) + R := consume_loop (length buffer) buffer s.

(** Chunk by chunk; [limit] bounds the buffer, [overflow] is what happens then. *)
Fixpoint feed (limit : nat) (overflow : St -> R) (chunks : list bytes) (buffer : bytes) (s : St) :
    (bytes * St) + R :=
  match chunks with
  | [] => inl (buffer, s)
  | chunk :: rest =>
      if limit <? length buffer + length chunk then inr (overflow s)
      else
        match consume (buffer ++ chunk) s with
        | inl (buffer, s) => feed limit overflow rest buffer s
        | inr r => inr r
        end
  end.

Lemma consume_fuel fuel fuel' buffer s :
  length buffer <= fuel -> length buffer <= fuel' -> consume_loop fuel buffer s = consume_loop fuel' buffer s.
Proof.
  revert fuel' buffer s; induction fuel as [|fuel IH]; intros fuel' buffer s H1 H2.
  - destruct fuel'; cbn; [done|]. destruct (find_delimiter buffer) as [[p l]|] eqn:E; [|done].
    apply delimiter_inside in E. lia.
  - cbn [consume_loop]. destruct fuel' as [|fuel'].
    + cbn. destruct (find_delimiter buffer) as [[p l]|] eqn:E; [|done]. apply delimiter_inside in E. lia.
    + cbn [consume_loop]. destruct (find_delimiter buffer) as [[p l]|] eqn:E; [|done].
      apply delimiter_inside in E. destruct (process _ _ _); [|done].
      apply IH; rewrite length_drop; lia.
Qed.

Lemma consume_eq buffer s :
  consume buffer s =
  match find_delimiter buffer with
  | None => inl (buffer, s)
  | Some (position, len) =>
      match process (take (position + len) buffer) position s with
      | inl s => consume (drop (position + len) buffer) s
      | inr r => inr r
      end
  end.
Proof.
  unfold consume. destruct (length buffer) as [|n] eqn:En; cbn [consume_loop].
  - destruct (find_delimiter buffer) as [[p l]|] eqn:E; [|done]. apply delimiter_inside in E. lia.
  - destruct (find_delimiter buffer) as [[p l]|] eqn:E; [|done]. apply delimiter_inside in E.
    destruct (process _ _ _); [|done]. apply consume_fuel; rewrite length_drop; lia.
Qed.

(** What every block keeps, the loop keeps. *)
Lemma consume_invariant (P : St -> Prop) (Q : R -> Prop) buffer s :
  (forall block p s, P s -> match process block p s with inl s' => P s' | inr r => Q r end) ->
  P s -> match consume buffer s with inl (_, s') => P s' | inr r => Q r end.
Proof.
  intros Hp. remember (length buffer) as n eqn:Hn. revert buffer s Hn.
  induction (lt_wf n) as [n _ IH]; intros b s -> Hs. rewrite consume_eq.
  destruct (find_delimiter b) as [[p l]|] eqn:E; [|done]. apply delimiter_inside in E.
  pose proof (Hp (take (p + l) b) p s Hs) as H. destruct (process _ _ _); [|done].
  eapply IH; [|done|done]. rewrite length_drop. lia.
Qed.

(** Bytes that arrive later only continue the work. *)
Lemma consume_app b c s :
  consume (b ++ c) s =
  match consume b s with inl (b', s') => consume (b' ++ c) s' | inr r => inr r end.
Proof.
  remember (length b) as n eqn:Hn. revert b s Hn.
  induction (lt_wf n) as [n _ IH]; intros b s ->. rewrite (consume_eq b).
  destruct (find_delimiter b) as [[p l]|] eqn:E; [|done].
  pose proof (delimiter_inside _ _ _ E) as [Hl Hb].
  rewrite consume_eq, (delimiter_stable _ c _ _ E).
  rewrite take_app_le, drop_app_le by lia. destruct (process _ _ _) as [s'|r]; [|done].
  eapply IH; [|done]. rewrite length_drop. lia.
Qed.

Lemma consume_rest b s b' s' :
  consume b s = inl (b', s') -> length b' <= length b /\ find_delimiter b' = None.
Proof.
  remember (length b) as n eqn:En. revert b s En.
  induction (lt_wf n) as [n _ IH]; intros b s -> Ec. rewrite consume_eq in Ec.
  destruct (find_delimiter b) as [[p l]|] eqn:E; [|injection Ec as <- <-; split; [lia|done]].
  apply delimiter_inside in E. destruct (process _ _ _) as [s1|]; [|done].
  apply IH with (y := length (drop (p + l) b)) in Ec as [? ?]; [|rewrite length_drop; lia|done].
  rewrite length_drop in *. split; [lia|done].
Qed.

(** Without overflow, the cuts between chunks are invisible. *)
Lemma feed_concat limit overflow chunks buffer s :
  length buffer + length (concat chunks) <= limit ->
  find_delimiter buffer = None ->
  feed limit overflow chunks buffer s = consume (buffer ++ concat chunks) s.
Proof.
  revert buffer s; induction chunks as [|chunk chunks IH]; intros buffer s Hl Hn; cbn [feed concat] in *.
  - by rewrite app_nil_r, consume_eq, Hn.
  - rewrite length_app in Hl. destruct (Nat.ltb_spec limit (length buffer + length chunk)); [lia|].
    rewrite app_assoc, (consume_app (buffer ++ chunk)). destruct (consume (buffer ++ chunk) s) as [[b' s']|r] eqn:Ec; [|done].
    apply consume_rest in Ec as [Hb' Hn']. rewrite length_app in Hb'. apply IH; [lia|done].
Qed.
End Consume.

(** ** Both delimiters frame *)

Lemma starts_with_app_long p s t : length p <= length s -> starts_with p (s ++ t) = starts_with p s.
Proof.
  revert s; induction p as [|x p IH]; intros [|y s] H; cbn in *; [done | done | lia |].
  by rewrite IH by lia.
Qed.

Lemma starts_with_length p s : starts_with p s = true -> length p <= length s.
Proof. intros [t ->]%starts_with_spec. rewrite length_app. lia. Qed.

Lemma find_inside p s i : find p s = Some i -> i + length p <= length s.
Proof. intros (? & E%starts_with_length & _)%find_Some. rewrite length_drop in E. lia. Qed.

Lemma find_app p s t i : find p s = Some i -> find p (s ++ t) = Some i.
Proof.
  revert i; induction s as [|c s IH]; intros i; cbn [find app].
  - destruct (starts_with p []) eqn:E; [|done]. destruct p; [by destruct t|done].
  - destruct (starts_with p (c :: s)) eqn:E.
    + rewrite app_comm_cons, starts_with_app_long, E; [done|by apply starts_with_length].
    + destruct (find p s) as [j|] eqn:Ej; [|done]. cbn. intros [= <-].
      apply find_inside in Ej as Hi. rewrite (IH j) by done. cbn.
      rewrite app_comm_cons, starts_with_app_long, E; [done|cbn; lia].
Qed.

(** An occurrence that is new starts in the last bytes. *)
Lemma find_new p s t i :
  find p s = None -> find p (s ++ t) = Some i -> length s < i + length p.
Proof.
  intros Hn (? & E & _)%find_Some. destruct (decide (i + length p <= length s)); [|lia].
  rewrite drop_app_le, starts_with_app_long in E by (rewrite ?length_drop; lia).
  rewrite (find_None _ _ Hn) in E; [done|lia].
Qed.

Lemma gateway_delimiter_inside b p l :
  gateway_sse_delimiter b = Some (p, l) -> 0 < l /\ p + l <= length b.
Proof.
  unfold gateway_sse_delimiter. intros H.
  destruct (find lf_lf b) as [i|] eqn:Ei, (find crlf_crlf b) as [j|] eqn:Ej; try done;
    try apply find_inside in Ei; try apply find_inside in Ej; cbn in *;
    repeat case_match; simplify_eq; lia.
Qed.

Lemma lookup_starts p s i c : starts_with p s = true -> p !! i = Some c -> s !! i = Some c.
Proof. intros [t ->]%starts_with_spec H. by apply lookup_app_l_Some. Qed.

(** What [find] found, by position. *)
Lemma find_lookup p s i k c : find p s = Some i -> p !! k = Some c -> s !! (i + k) = Some c.
Proof.
  intros (_ & E & _)%find_Some Hk. rewrite <- lookup_drop. by eapply lookup_starts.
Qed.

Lemma gateway_delimiter_stable b c p l :
  gateway_sse_delimiter b = Some (p, l) -> gateway_sse_delimiter (b ++ c) = Some (p, l).
Proof.
  unfold gateway_sse_delimiter. intros H.
  destruct (find lf_lf b) as [i|] eqn:Ei, (find crlf_crlf b) as [j|] eqn:Ej; try done.
  - by rewrite (find_app _ _ _ _ Ei), (find_app _ _ _ _ Ej).
  - rewrite (find_app _ _ _ _ Ei). injection H as <- <-. apply find_inside in Ei as Hi.
    destruct (find crlf_crlf (b ++ c)) as [j|] eqn:Ej'; [|done].
    apply (find_new _ _ _ _ Ej) in Ej' as Hj. cbn in *.
    destruct (Nat.leb_spec i j) as [|Hlt]; [done|]. exfalso.
    pose proof (find_lookup _ _ _ 1 newline (find_app _ _ c _ Ei) eq_refl) as E1.
    pose proof (find_lookup _ _ _ 2 carriage_return Ej' eq_refl) as E2.
    replace (j + 2) with (i + 1) in E2 by lia. rewrite E1 in E2. done.
  - rewrite (find_app _ _ _ _ Ej). injection H as <- <-. apply find_inside in Ej as Hj.
    destruct (find lf_lf (b ++ c)) as [i|] eqn:Ei'; [|done].
    apply (find_new _ _ _ _ Ei) in Ei' as Hi. cbn in *.
    destruct (Nat.leb_spec i j) as [|]; [lia|done].
Qed.

#[export] Instance gateway_framing : Framing := {|
  find_delimiter := gateway_sse_delimiter;
  delimiter_inside := gateway_delimiter_inside;
  delimiter_stable := gateway_delimiter_stable
|}.

Lemma handler_delimiter_inside b p l :
  handler_sse_delimiter b = Some (p, l) -> 2 <= l /\ p + l <= length b.
Proof.
  revert p; induction b as [|x b IH]; intros p H; cbn [handler_sse_delimiter] in H; [done|].
  destruct (starts_with crlf_crlf (x :: b)) eqn:E1.
  { injection H as <- <-. apply starts_with_length in E1. cbn in *. lia. }
  destruct (starts_with lf_lf (x :: b) || starts_with cr_cr (x :: b)) eqn:E2.
  { injection H as <- <-.
    apply orb_true_iff in E2 as [E2%starts_with_length|E2%starts_with_length]; cbn in *; lia. }
  destruct (handler_sse_delimiter b) as [[q k]|] eqn:E; [|done]. injection H as <- <-.
  destruct (IH q eq_refl). cbn. lia.
Qed.

(** One more chunk does not turn a two-byte delimiter into a longer one. *)
Lemma crlf_not_later x y z c :
  starts_with lf_lf [y; z] || starts_with cr_cr [y; z] = true ->
  starts_with crlf_crlf ([x; y; z] ++ c) = false.
Proof.
  destruct (starts_with crlf_crlf ([x; y; z] ++ c)) eqn:E; [|done].
  pose proof (lookup_starts _ _ 1 newline E eq_refl) as [= ->].
  by pose proof (lookup_starts _ _ 2 carriage_return E eq_refl) as [= ->].
Qed.

Lemma handler_two y z p l :
  handler_sse_delimiter [y; z] = Some (p, l) -> starts_with lf_lf [y; z] || starts_with cr_cr [y; z] = true.
Proof.
  intros H. apply handler_delimiter_inside in H as Hi. cbn [length] in Hi.
  assert (p = 0) as -> by lia. cbn [handler_sse_delimiter] in H.
  destruct (starts_with crlf_crlf [y; z]) eqn:E; [by apply starts_with_length in E; cbn in E; lia|].
  destruct (starts_with lf_lf [y; z] || starts_with cr_cr [y; z]) eqn:E2; [done|].
  repeat (case_match; simplify_eq/=; try done).
Qed.

Lemma handler_delimiter_stable b c p l :
  handler_sse_delimiter b = Some (p, l) -> handler_sse_delimiter (b ++ c) = Some (p, l).
Proof.
  revert p; induction b as [|x b IH]; intros p H; cbn [handler_sse_delimiter app] in *; [done|].
  rewrite !app_comm_cons.
  destruct (starts_with crlf_crlf (x :: b)) eqn:E1.
  { rewrite starts_with_app_long by (by apply starts_with_length). by rewrite E1. }
  destruct (starts_with lf_lf (x :: b) || starts_with cr_cr (x :: b)) eqn:E2.
  - injection H as <- <-. destruct b as [|y b]; [by cbn in E2; rewrite !andb_false_r in E2|].
    assert (starts_with crlf_crlf ((x :: y :: b) ++ c) = false) as ->.
    { destruct (starts_with crlf_crlf ((x :: y :: b) ++ c)) eqn:E; [|done].
      pose proof (lookup_starts _ _ 0 carriage_return E eq_refl) as [= ->].
      by pose proof (lookup_starts _ _ 1 newline E eq_refl) as [= ->]. }
    rewrite !(starts_with_app_long _ (x :: y :: b)) by (cbn; lia). by rewrite E2.
  - destruct (handler_sse_delimiter b) as [[q k]|] eqn:E; [|done]. injection H as <- <-.
    apply handler_delimiter_inside in E as Hi.
    rewrite (starts_with_app_long lf_lf), (starts_with_app_long cr_cr), E2, (IH q) by (cbn; lia || done).
    assert (starts_with crlf_crlf ((x :: b) ++ c) = false) as ->; [|done].
    destruct b as [|y [|z [|w b]]]; cbn in Hi; try lia.
    + apply crlf_not_later. by eapply handler_two.
    + rewrite starts_with_app_long; [done|cbn; lia].
Qed.

Lemma handler_delimiter_positive b p l :
  handler_sse_delimiter b = Some (p, l) -> 0 < l /\ p + l <= length b.
Proof. intros H%handler_delimiter_inside. lia. Qed.

#[export] Instance handler_framing : Framing := {|
  find_delimiter := handler_sse_delimiter;
  delimiter_inside := handler_delimiter_positive;
  delimiter_stable := handler_delimiter_stable
|}.

(** ** Frames *)

Definition no_line_end (c : byte) : Prop := c <> newline /\ c <> carriage_return.

(** A frame with one data line, as both ends format it. *)
Definition data_frame (t : str) : str := lit "data: " ++ t ++ [newline; newline].

Lemma no_line_end_starts b c s d :
  no_line_end b -> d = newline \/ d = carriage_return -> starts_with (d :: c) (b :: s) = false.
Proof. intros [H1 H2] [-> | ->]; cbn; apply andb_false_iff; left; by apply N.eqb_neq. Qed.

(** The handler cuts exactly at the blank line. *)
Lemma handler_delimiter_frame b rest :
  Forall no_line_end b -> handler_sse_delimiter (b ++ lf_lf ++ rest) = Some (length b, 2).
Proof.
  induction 1 as [|x b Hx _ IH]; [done|]. cbn [app handler_sse_delimiter length].
  unfold crlf_crlf, lf_lf, cr_cr.
  rewrite !no_line_end_starts by auto. cbn [orb]. fold lf_lf. by rewrite IH.
Qed.

(** The handler sees the blocks of the gateway, unless a block holds the third
    style of blank line, which only the handler knows. *)
Lemma handler_sees_gateway_block b p l :
  gateway_sse_delimiter b = Some (p, l) ->
  (forall j, j < p -> starts_with cr_cr (drop j b) = false) ->
  handler_sse_delimiter b = Some (p, l).
Proof.
  revert p; induction b as [|x b IH]; intros p H Hc; [done|].
  cbn [handler_sse_delimiter]. unfold gateway_sse_delimiter in H. cbn [find] in H.
  destruct (starts_with crlf_crlf (x :: b)) eqn:E1; [|destruct (starts_with lf_lf (x :: b)) eqn:E2].
  - assert (starts_with lf_lf (x :: b) = false) as E2.
    { pose proof (lookup_starts _ _ 0 carriage_return E1 eq_refl) as [= ->]. done. }
    rewrite E2 in H. destruct (find lf_lf b); by injection H as <- <-.
  - destruct (find crlf_crlf b); by injection H as <- <-.
  - assert (exists q, p = S q /\ gateway_sse_delimiter b = Some (q, l)) as (q & -> & Hq).
    { unfold gateway_sse_delimiter.
      destruct (find lf_lf b), (find crlf_crlf b); cbn in H; simplify_eq; eauto.
      repeat case_match; simplify_eq; eauto. }
    pose proof (Hc 0 ltac:(lia)) as H0. rewrite drop_0 in H0. rewrite H0. cbn [orb].
    rewrite (IH q Hq); [done|]. intros j Hj. apply (Hc (S j)). lia.
Qed.

(** *** The fields of a frame *)

Lemma lines_go_one cur s :
  newline ∉ s -> lines_go cur s = if is_empty (reverse cur ++ s) then [] else [reverse cur ++ s].
Proof.
  revert cur; induction s as [|c s IH]; intros cur Hn; cbn [lines_go].
  - rewrite app_nil_r. destruct cur as [|c cur]; [done|].
    change (is_empty (c :: cur)) with false. rewrite reverse_cons. by destruct (reverse cur).
  - apply not_elem_of_cons in Hn as [Hc Hn]. destruct (N.eqb_spec c newline); [congruence|].
    rewrite IH by done. by rewrite reverse_cons, <- app_assoc.
Qed.

Lemma lines_one s : newline ∉ s -> s <> [] -> lines s = [s].
Proof.
  intros Hn Hs. unfold lines. rewrite lines_go_one by done. change (reverse [] ++ s) with s.
  by destruct s.
Qed.

Lemma strip_prefix_app p t : strip_prefix p (p ++ t) = Some t.
Proof. unfold strip_prefix. by rewrite starts_with_app, drop_app_length. Qed.

Lemma data_frame_payload t : newline ∉ t -> sse_data_payload (lit "data: " ++ t) = Some t.
Proof.
  intros Hn. unfold sse_data_payload, data_values. rewrite lines_one; [done|cbn; set_solver|done].
Qed.

Lemma data_frame_no_event t : newline ∉ t -> sse_field_value (lit "data: " ++ t) (lit "event") = None.
Proof. intros Hn. unfold sse_field_value. rewrite lines_one; [done|cbn; set_solver|done]. Qed.

Lemma data_frame_no_type t : newline ∉ t -> upstream_event_type (lit "data: " ++ t) = None.
Proof. intros Hn. unfold upstream_event_type. rewrite lines_one; [done|cbn; set_solver|done]. Qed.

(** *** Blocks of two lines *)

Lemma find_after (p : str) (a b : str) i :
  p <> [] -> (forall x, x ∈ a -> head p <> Some x) -> find p b = Some i -> find p (a ++ b) = Some (length a + i).
Proof.
  intros Hp. induction a as [|x a IH]; intros Ha Hb; cbn [app length find Nat.add]; [done|].
  destruct p as [|y p]; [done|]. cbn [starts_with].
  destruct (N.eqb_spec y x) as [->|_]; [by destruct (Ha x (list_elem_of_here _ _))|]. cbn [andb].
  rewrite IH; [done| |done]. intros z Hz. apply Ha. by apply list_elem_of_further.
Qed.

Lemma no_newline_head b : Forall no_line_end b -> forall x, x ∈ b -> head lf_lf <> Some x.
Proof. intros H x Hx [= <-]. rewrite Forall_forall in H. by destruct (H _ Hx). Qed.

Lemma find_lf_lf_two e d rest :
  Forall no_line_end e -> Forall no_line_end d -> d <> [] ->
  find lf_lf (e ++ newline :: d ++ lf_lf ++ rest) = Some (length e + S (length d)).
Proof.
  intros He Hd Hn. apply find_after; [done|by apply no_newline_head|].
  destruct d as [|x d]; [done|].
  change (find lf_lf (newline :: ?s)) with (if starts_with lf_lf (newline :: s) then Some 0 else S <$> find lf_lf s).
  cbn [app].
  assert (starts_with lf_lf (newline :: x :: d ++ lf_lf ++ rest) = false) as ->.
  { apply Forall_inv in Hd as [Hx _]. cbn. destruct (N.eqb_spec newline x); [congruence|]. by rewrite andb_false_r. }
  change (x :: d ++ lf_lf ++ rest) with ((x :: d) ++ lf_lf ++ rest).
  rewrite (find_after lf_lf (x :: d) (lf_lf ++ rest) 0); [|done|by apply no_newline_head|by destruct rest].
  by rewrite Nat.add_0_r.
Qed.

(** The gateway cuts a block of two lines at its blank line. *)
Lemma gateway_delimiter_two e d rest :
  Forall no_line_end e -> Forall no_line_end d -> d <> [] ->
  gateway_sse_delimiter (e ++ newline :: d ++ lf_lf ++ rest) = Some (length e + S (length d), 2).
Proof.
  intros He Hd Hn. unfold gateway_sse_delimiter. rewrite find_lf_lf_two by done.
  destruct (find crlf_crlf _) as [j|] eqn:Ej; [|done].
  destruct (Nat.leb_spec (length e + S (length d)) j) as [|Hlt]; [done|]. exfalso.
  pose proof (find_lookup _ _ _ 0 carriage_return Ej eq_refl) as E. rewrite Nat.add_0_r in E.
  rewrite cons_middle, !app_assoc in E. rewrite <- app_assoc in E.
  rewrite lookup_app_l in E by (rewrite !length_app; cbn; lia).
  apply list_elem_of_lookup_2 in E. rewrite Forall_forall in He, Hd.
  apply elem_of_app in E as [E|E]; [|by destruct (Hd _ E)].
  apply elem_of_app in E as [E|E]; [by destruct (He _ E)|]. by apply list_elem_of_singleton in E.
Qed.

Lemma strip_suffix_char_id c s : last s <> Some c -> strip_suffix_char c s = s.
Proof.
  intros H. unfold strip_suffix_char. destruct (reverse s) as [|x r] eqn:E; [done|].
  destruct (N.eqb_spec x c) as [->|]; [|done]. exfalso. apply H.
  apply (f_equal reverse) in E. rewrite reverse_involutive in E. by rewrite E, reverse_cons, last_snoc.
Qed.

Lemma lines_go_line cur e s :
  newline ∉ e -> lines_go cur (e ++ newline :: s) = strip_suffix_char carriage_return (reverse cur ++ e) :: lines_go [] s.
Proof.
  revert cur; induction e as [|c e IH]; intros cur Hn; cbn [app lines_go].
  - by rewrite N.eqb_refl, app_nil_r.
  - apply not_elem_of_cons in Hn as [Hc Hn]. destruct (N.eqb_spec c newline); [congruence|].
    rewrite IH by done. by rewrite reverse_cons, <- app_assoc.
Qed.

Lemma lines_two e d :
  newline ∉ e -> last e <> Some carriage_return -> newline ∉ d -> d <> [] -> lines (e ++ newline :: d) = [e; d].
Proof.
  intros H1 H2 H3 H4. unfold lines. rewrite lines_go_line by done. change (reverse [] ++ e) with e.
  rewrite strip_suffix_char_id by done. fold (lines d). by rewrite lines_one.
Qed.
