(* ===== verification/JsonValue.v ===== *)
(** * JSON values ([serde_json::Value], built without [preserve_order])

    The gateway reads and builds JSON by hand, so its files need the values
    themselves, not only an interface.  Numbers are the three cases of
    [serde_json::Number], with a double as its sign, mantissa and exponent
    ([SpecFloat]); an object keeps its keys in the order of the [BTreeMap].
    The text form is the interface [JsonText]. *)

From Stdlib Require Import SpecFloat.
From stdpp Require Import countable.
From S2P Require Import Prelude Utf8.

(** ** Numbers *)

Abbreviation f64 := spec_float (only parsing).

Inductive number :=
| PosInt (n : Z)      (* a [u64] *)
| NegInt (n : Z)      (* a negative [i64] *)
| Float (f : f64).    (* a finite double *)

#[export] Instance f64_eq_dec : EqDecision spec_float.
Proof. intros x y. unfold Decision. decide equality; apply Z.eq_dec || apply Pos.eq_dec || apply bool_dec. Defined.
#[export] Instance number_eq_dec : EqDecision number.
Proof. solve_decision. Defined.

(** [as f64] of an integer, and [as f32] of a double: rounding to nearest. *)
Definition f64_of_Z (z : Z) : f64 := binary_normalize 53 1024 z 0 false.

Definition f32_of_f64 (f : f64) : spec_float :=
  match f with
  | S754_finite s m e => binary_normalize 24 128 (if s then Zneg m else Zpos m) e s
  | other => other
  end.

Definition is_finite (f : f64) : bool :=
  match f with S754_zero _ | S754_finite _ _ _ => true | _ => false end.

(** [(lo..=hi).contains(&f)]. *)
Definition between (lo hi f : f64) : bool := SFleb lo f && SFleb f hi.

Definition f64_zero : f64 := S754_zero false.
Definition f64_one : f64 := f64_of_Z 1.

(** ** Values *)

#[local] Set Warnings "-register-all".

Inductive value :=
| VNull
| VBool (b : bool)
| VNumber (n : number)
| VString (s : str)
| VArray (items : list value)
| VObject (fields : list (str * value)).

Section Induction.
Context (P : value -> Prop).
Context (Hnull : P VNull) (Hbool : forall b, P (VBool b)) (Hnumber : forall n, P (VNumber n)).
Context (Hstring : forall s, P (VString s)).
Context (Harray : forall items, Forall P items -> P (VArray items)).
Context (Hobject : forall fields, Forall (fun kv => P (snd kv)) fields -> P (VObject fields)).

Fixpoint value_induction (v : value) : P v :=
  match v with
  | VNull => Hnull
  | VBool b => Hbool b
  | VNumber n => Hnumber n
  | VString s => Hstring s
  | VArray items =>
      Harray items ((fix go l : Forall P l :=
        match l with [] => Forall_nil_2 P | x :: l => Forall_cons_2 P x l (value_induction x) (go l) end) items)
  | VObject fields =>
      Hobject fields ((fix go l : Forall (fun kv => P (snd kv)) l :=
        match l with
        | [] => Forall_nil_2 _
        | kv :: l => Forall_cons_2 _ kv l (value_induction (snd kv)) (go l)
        end) fields)
  end.
End Induction.

(** Through the generic trees of stdpp: decidable equality and countability. *)
Abbreviation leaf := (bool + (number + str))%type (only parsing).

Fixpoint to_tree (v : value) : gen_tree leaf :=
  match v with
  | VNull => GenNode 0 []
  | VBool b => GenLeaf (inl b)
  | VNumber n => GenLeaf (inr (inl n))
  | VString s => GenLeaf (inr (inr s))
  | VArray items => GenNode 1 (to_tree <$> items)
  | VObject fields => GenNode 2 ((fun kv => GenNode 3 [GenLeaf (inr (inr (fst kv))); to_tree (snd kv)]) <$> fields)
  end.

Fixpoint of_tree (t : gen_tree leaf) : value :=
  match t with
  | GenLeaf (inl b) => VBool b
  | GenLeaf (inr (inl n)) => VNumber n
  | GenLeaf (inr (inr s)) => VString s
  | GenNode 0 _ => VNull
  | GenNode 1 items => VArray (of_tree <$> items)
  | GenNode _ fields =>
      VObject (omap (fun t =>
        match t with GenNode _ [GenLeaf (inr (inr k)); v] => Some (k, of_tree v) | _ => None end) fields)
  end.

Lemma of_to_tree v : of_tree (to_tree v) = v.
Proof.
  induction v as [| | | |items IH|fields IH] using value_induction; cbn [to_tree of_tree]; try done; f_equal.
  - induction IH as [|v l Hv _ IHl]; [done|]. cbn in *. by rewrite Hv, IHl.
  - induction IH as [|[k v] l Hv _ IHl]; [done|]. cbn in *. by rewrite Hv, IHl.
Qed.

#[export] Instance value_eq_dec : EqDecision value.
Proof.
  intros v w. destruct (decide (to_tree v = to_tree w)) as [E|E].
  - left. by rewrite <- (of_to_tree v), <- (of_to_tree w), E.
  - right. congruence.
Defined.

(** ** Reading *)

Definition is_null (v : value) : bool := match v with VNull => true | _ => false end.
Definition is_string (v : value) : bool := match v with VString _ => true | _ => false end.
Definition as_str (v : value) : option str := match v with VString s => Some s | _ => None end.
Definition as_bool (v : value) : option bool := match v with VBool b => Some b | _ => None end.
Definition as_array (v : value) : option (list value) := match v with VArray l => Some l | _ => None end.
Definition as_object (v : value) : option (list (str * value)) := match v with VObject l => Some l | _ => None end.
Definition as_u64 (v : value) : option Z := match v with VNumber (PosInt n) => Some n | _ => None end.
Definition as_f64 (v : value) : option f64 :=
  match v with
  | VNumber (PosInt n) | VNumber (NegInt n) => Some (f64_of_Z n)
  | VNumber (Float f) => Some f
  | _ => None
  end.

(** [serde_json::Map] is ordered by the bytes of the keys, which is the order
    of their code points. *)
Fixpoint str_ltb (a b : str) : bool :=
  match a, b with
  | _, [] => false
  | [], _ :: _ => true
  | x :: a, y :: b => (x <? y)%N || (x =? y)%N && str_ltb a b
  end.

(** The order of texts. *)
Definition key_le (a b : str) : Prop := str_ltb b a = false.
#[export] Instance key_le_dec a b : Decision (key_le a b).
Proof. unfold key_le. apply _. Defined.

Lemma str_ltb_asym a b : str_ltb a b = true -> str_ltb b a = false.
Proof.
  revert b. induction a as [|x a IH]; intros [|y b]; try done. cbn. rewrite orb_true_iff, andb_true_iff.
  intros [H%N.ltb_lt|[->%N.eqb_eq H]]; [|by rewrite N.ltb_irrefl, N.eqb_refl, (IH b H)].
  apply orb_false_iff. split; [apply N.ltb_ge; lia|]. apply andb_false_iff. left. apply N.eqb_neq. lia.
Qed.

#[export] Instance key_le_total : Total key_le.
Proof. intros a b. unfold key_le. destruct (str_ltb b a) eqn:E; [right; by apply str_ltb_asym|by left]. Qed.

Fixpoint map_get (key : str) (fields : list (str * value)) : option value :=
  match fields with
  | [] => None
  | (k, v) :: rest => if str_eqb k key then Some v else map_get key rest
  end.

Fixpoint map_insert (key : str) (x : value) (fields : list (str * value)) : list (str * value) :=
  match fields with
  | [] => [(key, x)]
  | (k, v) :: rest =>
      if str_eqb k key then (key, x) :: rest
      else if str_ltb key k then (key, x) :: (k, v) :: rest
      else (k, v) :: map_insert key x rest
  end.

Definition map_remove (key : str) (fields : list (str * value)) : list (str * value) :=
  List.filter (fun kv => negb (str_eqb (fst kv) key)) fields.

(** [Value::get] with a key, and the same with a literal of the source. *)
Definition get_key (key : str) (v : value) : option value := fields ← as_object v; map_get key fields.
Definition get (key : string) (v : value) : option value := get_key (lit key) v.
Definition get_str (key : string) (v : value) : option str := get key v ≫= as_str.
Definition get_u64 (key : string) (v : value) : option Z := get key v ≫= as_u64.
Definition get_array (key : string) (v : value) : option (list value) := get key v ≫= as_array.

(** ** Building *)

(** [json!({..})], and [v["key"] = x] on an object. *)
Definition vstr (s : string) : value := VString (lit s).
Definition vnat (n : Z) : value := VNumber (PosInt n).
Definition object_of (fields : list (string * value)) : list (str * value) :=
  fold_left (fun o kv => map_insert (lit (fst kv)) (snd kv) o) fields [].
Definition json (fields : list (string * value)) : value := VObject (object_of fields).
Definition set_field (key : string) (x v : value) : value :=
  match v with VObject fields => VObject (map_insert (lit key) x fields) | other => other end.

(** ** Laws of the map *)

Lemma map_get_insert key key' x fields :
  map_get key (map_insert key' x fields) = if str_eqb key' key then Some x else map_get key fields.
Proof.
  induction fields as [|[k v] fields IH]; cbn [map_insert map_get]; [done|].
  destruct (str_eqb k key') eqn:E1; [apply str_eqb_eq in E1 as ->|].
  - cbn [map_get]. by destruct (str_eqb key' key).
  - destruct (str_ltb key' k); cbn [map_get]; [done|]. rewrite IH.
    destruct (str_eqb k key) eqn:E2; [|done]. apply str_eqb_eq in E2 as ->.
    destruct (str_eqb key' key) eqn:E3; [|done]. apply str_eqb_eq in E3 as ->. by rewrite str_eqb_refl in E1.
Qed.

Lemma map_get_remove key key' fields :
  map_get key (map_remove key' fields) = if str_eqb key' key then None else map_get key fields.
Proof.
  unfold map_remove. induction fields as [|[k v] fields IH]; cbn [List.filter map_get fst]; [by case_match|].
  destruct (str_eqb k key') eqn:E1; cbn [negb map_get]; rewrite IH.
  - apply str_eqb_eq in E1 as ->. by destruct (str_eqb key' key).
  - destruct (str_eqb k key) eqn:E2; [|done]. apply str_eqb_eq in E2 as ->.
    destruct (str_eqb key' key) eqn:E3; [|done]. apply str_eqb_eq in E3 as ->. by rewrite str_eqb_refl in E1.
Qed.

Lemma lit_inj a b : lit a = lit b -> a = b.
Proof.
  unfold lit. revert b; induction a as [|x a IH]; intros [|y b] E; try done. cbn in E.
  injection E as E1 E2. f_equal; [|by apply IH].
  rewrite <- (Ascii.ascii_N_embedding x), <- (Ascii.ascii_N_embedding y). by f_equal.
Qed.

Lemma str_eqb_lit a b : str_eqb (lit a) (lit b) = String.eqb a b.
Proof.
  destruct (String.eqb_spec a b) as [->|Hn]; [apply str_eqb_refl|].
  apply bool_decide_eq_false. intros E%lit_inj. done.
Qed.

Lemma get_set_field key key' x fields :
  get key (set_field key' x (VObject fields)) = if String.eqb key' key then Some x else get key (VObject fields).
Proof. cbn. by rewrite map_get_insert, str_eqb_lit. Qed.

(** ** Well-formed values

    Numbers in their ranges, text of scalar values, keys in strict order. *)

Definition wf_number (n : number) : bool :=
  match n with
  | PosInt n => (0 <=? n) && (n <? 2 ^ 64)
  | NegInt n => (- 2 ^ 63 <=? n) && (n <? 0)
  | Float f => is_finite f && valid_binary 53 1024 f
  end%Z.

Definition key_below (key : str) (fields : list (str * value)) : bool :=
  match fields with [] => true | (k, _) :: _ => str_ltb key k end.

Fixpoint ordered_keys (fields : list (str * value)) : bool :=
  match fields with [] => true | (k, _) :: rest => key_below k rest && ordered_keys rest end.

Definition wf_str (s : str) : bool := forallb is_scalar s.

Fixpoint wf (v : value) : bool :=
  match v with
  | VNull | VBool _ => true
  | VNumber n => wf_number n
  | VString s => wf_str s
  | VArray items => forallb wf items
  | VObject fields => ordered_keys fields && forallb (fun kv => wf_str (fst kv) && wf (snd kv)) fields
  end.

Fixpoint float_free (v : value) : bool :=
  match v with
  | VNumber (Float _) => false
  | VArray items => forallb float_free items
  | VObject fields => forallb (fun kv => float_free (snd kv)) fields
  | _ => true
  end.

Fixpoint depth (v : value) : nat :=
  match v with
  | VArray items => S (foldr (fun v d => depth v `max` d) 0 items)
  | VObject fields => S (foldr (fun kv d => depth (snd kv) `max` d) 0 fields)
  | _ => 0
  end.

Definition wf_field (kv : str * value) : bool := wf_str (fst kv) && wf (snd kv).

Lemma wf_object fields : wf (VObject fields) = ordered_keys fields && forallb wf_field fields.
Proof. done. Qed.

Lemma str_ltb_total a b : a <> b -> str_ltb a b = false -> str_ltb b a = true.
Proof.
  revert b; induction a as [|x a IH]; intros [|y b] Hn E; cbn in *; try done.
  apply orb_false_iff in E as [E1 E2]. apply N.ltb_ge in E1.
  destruct (N.eqb_spec x y) as [->|Hxy]; cbn in E2.
  - rewrite N.eqb_refl. apply orb_true_iff. right. apply IH; congruence.
  - apply orb_true_iff. left. apply N.ltb_lt. lia.
Qed.

Lemma key_below_insert k key x fields :
  str_ltb k key = true -> key_below k fields = true -> key_below k (map_insert key x fields) = true.
Proof. intros H1 H2. destruct fields as [|[k' v] fields]; cbn; [done|]. by repeat case_match. Qed.

Lemma ordered_insert key x fields : ordered_keys fields = true -> ordered_keys (map_insert key x fields) = true.
Proof.
  induction fields as [|[k v] fields IH]; intros H; cbn [map_insert]; [done|].
  cbn [ordered_keys] in H. apply andb_true_iff in H as [H1 H2].
  destruct (str_eqb k key) eqn:E1; [apply str_eqb_eq in E1 as ->; cbn [ordered_keys]; by rewrite H1|].
  destruct (str_ltb key k) eqn:E2; cbn [ordered_keys]; [cbn [key_below]; by rewrite E2, H1|].
  rewrite IH by done. rewrite key_below_insert; [done| |done].
  apply str_ltb_total; [|done]. by bool_to_prop.
Qed.

Lemma forallb_insert (f : str * value -> bool) key x fields :
  f (key, x) = true -> forallb f fields = true -> forallb f (map_insert key x fields) = true.
Proof.
  intros Hx. induction fields as [|[k v] fields IH]; cbn [map_insert forallb]; [by rewrite Hx|].
  intros [H1 H2]%andb_true_iff. repeat case_match; cbn [forallb]; rewrite ?Hx, ?H1, ?H2; auto.
Qed.

Lemma forallb_get (f : str * value -> bool) key x fields :
  forallb f fields = true -> map_get key fields = Some x -> f (key, x) = true.
Proof.
  induction fields as [|[k v] fields IH]; cbn; [done|]. intros [H1 H2]%andb_true_iff.
  destruct (str_eqb k key) eqn:E; [intros [= <-]; by apply str_eqb_eq in E as ->|auto].
Qed.

Lemma is_scalar_ascii c : (c <? 128)%N = true -> is_scalar c = true.
Proof. unfold is_scalar. intros H%N.ltb_lt. apply orb_true_iff. left. apply N.ltb_lt. lia. Qed.

Lemma wf_insert key x fields :
  wf_str key = true -> wf x = true -> wf (VObject fields) = true -> wf (VObject (map_insert key x fields)) = true.
Proof.
  rewrite !wf_object. intros Hk Hx [H1 H2]%andb_true_iff.
  rewrite ordered_insert by done. apply forallb_insert; [|done]. unfold wf_field. cbn [fst snd]. by rewrite Hk, Hx.
Qed.

Lemma wf_get key v x : wf v = true -> get_key key v = Some x -> wf x = true.
Proof.
  destruct v as [| | | | |fields]; try done. rewrite wf_object. intros [_ H]%andb_true_iff.
  unfold get_key. cbn. intros Hg. pose proof (forallb_get wf_field _ _ _ H Hg) as [_ ?]%andb_true_iff. done.
Qed.

Lemma wf_set_field key x v : wf_str (lit key) = true -> wf x = true -> wf v = true -> wf (set_field key x v) = true.
Proof. destruct v; try done. apply wf_insert. Qed.

Lemma wf_json fields :
  forallb (fun kv => wf_str (lit (fst kv)) && wf (snd kv)) fields = true -> wf (json fields) = true.
Proof.
  unfold json, object_of. intros H. assert (wf (VObject []) = true) as H0 by done. revert H0 H.
  generalize (@nil (str * value)). induction fields as [|[k x] fields IH]; intros o Ho; cbn [forallb fold_left fst snd]; [done|].
  intros [[Hk Hx]%andb_true_iff H]%andb_true_iff. apply IH; [by apply wf_insert|done].
Qed.

Lemma wf_array items : (forall x, x ∈ items -> wf x = true) -> wf (VArray items) = true.
Proof.
  cbn. intros H. apply forallb_forall. intros x Hx. apply H. by apply list_elem_of_In.
Qed.

Lemma wf_array_elem items x : wf (VArray items) = true -> x ∈ items -> wf x = true.
Proof. cbn. rewrite forallb_forall. intros H Hx. apply H. by apply list_elem_of_In. Qed.

Lemma wf_get_array key v items x : wf v = true -> get_array key v = Some items -> x ∈ items -> wf x = true.
Proof.
  unfold get_array, get. intros Hv H. destruct (get_key (lit key) v) as [a|] eqn:E; [|done].
  cbn in H. destruct a; try done. injection H as ->. apply wf_get in E; [|done]. by apply wf_array_elem.
Qed.

Lemma wf_get_str key v s : wf v = true -> get_str key v = Some s -> wf_str s = true.
Proof.
  unfold get_str, get. intros Hv H. destruct (get_key (lit key) v) as [a|] eqn:E; [|done].
  cbn in H. destruct a; try done. injection H as ->. by apply wf_get in E.
Qed.

Lemma wf_u64 n : (0 <= n < 2 ^ 64)%Z -> wf (vnat n) = true.
Proof. intros H. cbn. apply andb_true_iff. lia. Qed.

#[export] Hint Resolve wf_get wf_get_str wf_insert : ains.

(** ** The text form *)

Class JsonText := {
  to_text : value -> str;                 (* [serde_json::to_string] *)
  of_text : str -> option value;          (* [serde_json::from_str] *)
  (* nesting of 127 levels is the parser's limit *)
  of_to_text v : wf v = true -> float_free v = true -> depth v < 128 -> of_text (to_text v) = Some v;
  to_text_printable v : Forall (fun c => 32 <= c)%N (to_text v);
  to_text_scalar v : wf v = true -> wf_str (to_text v) = true;
  to_text_object fields : exists s, to_text (VObject fields) = lit "{" ++ s ++ lit "}"
}.

Lemma text_no_line_end `{JsonText} v c : (c < 32)%N -> c ∉ to_text v.
Proof. intros Hc Hin. pose proof (to_text_printable v) as Hf. rewrite Forall_forall in Hf. apply Hf in Hin. lia. Qed.

Lemma trim_object_text `{JsonText} fields : trim (to_text (VObject fields)) = to_text (VObject fields).
Proof.
  destruct (to_text_object fields) as [s ->]. unfold trim, trim_end.
  change (trim_start (lit "{" ++ s ++ lit "}")) with (lit "{" ++ s ++ lit "}").
  rewrite !reverse_app. cbn [app]. change (reverse (lit "}")) with (lit "}"). cbn [lit].
  change (drop_while is_whitespace ((lit "}" ++ reverse s) ++ reverse (lit "{")))
    with ((lit "}" ++ reverse s) ++ reverse (lit "{")).
  by rewrite !reverse_app, !reverse_involutive.
Qed.

(** A small JSON for evaluating concrete inputs: the number of a value among
    all values, in binary. *)
Fixpoint bits_of (p : positive) : str :=
  match p with xH => [] | xO p => 48%N :: bits_of p | xI p => 49%N :: bits_of p end.

Fixpoint of_bits (s : str) : positive :=
  match s with
  | [] => xH
  | c :: s => if (c =? 48)%N then xO (of_bits s) else if (c =? 49)%N then xI (of_bits s) else of_bits s
  end.

Definition f64_code (f : f64) : (bool * bool * bool) * (positive * Z) :=
  match f with
  | S754_zero s => ((false, false, s), (1%positive, 0%Z))
  | S754_infinity s => ((false, true, s), (1%positive, 0%Z))
  | S754_nan => ((true, false, false), (1%positive, 0%Z))
  | S754_finite s m e => ((true, true, s), (m, e))
  end.
Definition f64_uncode (c : (bool * bool * bool) * (positive * Z)) : f64 :=
  match c with
  | ((false, false, s), _) => S754_zero s
  | ((false, true, s), _) => S754_infinity s
  | ((true, false, _), _) => S754_nan
  | ((true, true, s), (m, e)) => S754_finite s m e
  end.
#[export] Instance f64_countable : Countable spec_float.
Proof. apply (inj_countable' f64_code f64_uncode). by intros []. Defined.

Definition number_code (n : number) : Z + (Z + f64) :=
  match n with PosInt n => inl n | NegInt n => inr (inl n) | Float f => inr (inr f) end.
Definition number_uncode (c : Z + (Z + f64)) : number :=
  match c with inl n => PosInt n | inr (inl n) => NegInt n | inr (inr f) => Float f end.
#[export] Instance number_countable : Countable number.
Proof. apply (inj_countable' number_code number_uncode). by intros []. Defined.

#[export] Instance value_countable : Countable value.
Proof. apply (inj_countable' to_tree of_tree), of_to_tree. Defined.

Definition small_to_text (v : value) : str :=
  match v with VObject _ => lit "{" ++ bits_of (countable.encode v) ++ lit "}" | _ => bits_of (countable.encode v) end.
Definition small_of_text (s : str) : option value   := countable.decode (of_bits s).

Lemma bits_of_digits p : Forall (fun c => c = 48 \/ c = 49)%N (bits_of p).
Proof. induction p; cbn; auto. Qed.

Lemma of_bits_bits p s : of_bits s = xH -> of_bits (bits_of p ++ s) = p.
Proof.
  intros Hs. induction p as [p IH|p IH|]; [| |done].
  - change (of_bits (bits_of p~1 ++ s)) with (xI (of_bits (bits_of p ++ s))). by rewrite IH.
  - change (of_bits (bits_of p~0 ++ s)) with (xO (of_bits (bits_of p ++ s))). by rewrite IH.
Qed.

Lemma small_round_trip v : small_of_text (small_to_text v) = Some v.
Proof.
  unfold small_of_text, small_to_text.
  assert (forall s, of_bits s = xH -> countable.decode (of_bits (bits_of (countable.encode v) ++ s)) = Some v) as H.
  { intros s Hs. rewrite of_bits_bits by done. apply countable.decode_encode. }
  destruct v; try (rewrite <- (H []) by done; by rewrite app_nil_r). by apply H.
Qed.

Lemma small_characters v : Forall (fun c => 32 <= c < 128)%N (small_to_text v).
Proof.
  assert (Forall (fun c => 32 <= c < 128)%N (bits_of (countable.encode v))) as H.
  { eapply Forall_impl; [apply bits_of_digits|]. cbn. lia. }
  destruct v; try done. cbn [small_to_text]. repeat (apply Forall_app; split); try done;
    by repeat constructor.
Qed.

Definition small_json_text : JsonText.
Proof.
  refine {| to_text := small_to_text; of_text := small_of_text |}.
  - intros v _ _ _. apply small_round_trip.
  - intros v. eapply Forall_impl; [apply small_characters|]. cbn. lia.
  - intros v _. apply forallb_forall. intros c Hc%list_elem_of_In. apply is_scalar_ascii.
    pose proof (small_characters v) as H. rewrite Forall_forall in H. apply H in Hc. apply N.ltb_lt. lia.
  - intros fields. eexists. done.
Defined.
