(* ===== verification/Channels.v ===== *)
(** * Channels of the gateway
    ([server/src/repositories/channel.rs], the channel half of
    [server/src/services/gateway.rs])

    A channel is a provider account with its models, capabilities, weight and
    sealed key.  This file has the errors of the gateway, the administration of
    channels, the sealing of keys, and the choice of a channel for a request.
    URLs, the cipher, base64 and the JSON operators of the database are
    interfaces. *)

From S2P Require Import Prelude Utf8 Redis Lock Cache Quota JsonValue.

Open Scope Z_scope.

(** ** Data *)

Inductive ProtocolType := Openai | Anthropic.
Definition protocol_as_str (p : ProtocolType) : str :=
  match p with Openai => lit "openai" | Anthropic => lit "anthropic" end.

Inductive ModelCapability := Chat | Vision | Stt | Tts | WebSearch | Embedding.
#[export] Instance capability_eq_dec : EqDecision ModelCapability.
Proof. solve_decision. Defined.

Definition capability_as_str (c : ModelCapability) : str :=
  match c with
  | Chat => lit "chat" | Vision => lit "vision" | Stt => lit "stt" | Tts => lit "tts"
  | WebSearch => lit "websearch" | Embedding => lit "embedding"
  end.

(** A row of [ai_gateway_channels]; its identifier and times as text. *)
Record Model := {
  id : str;
  tenant_id : str;
  name : str;
  protocol_type : str;
  models : value;
  capabilities : value;
  api_key_encrypted : str;
  base_url : str;
  is_active : bool;
  weight : Z;
  created_at : Z;
  updated_at : Z
}.

Inductive GatewayError :=
| NoChannel
| NotFound
| InvalidInput (message : str)
| RateLimited (message : str)
| UpstreamClient (status : Z)
| Upstream (message : str)
| HasUsage (id : str) (usage_count : Z)
| Internal (message : str).

Definition is_channel_health_failure (e : GatewayError) : bool :=
  match e with Upstream _ => true | _ => false end.

(** [StatusCode::is_client_error] and [is_success] are ranges. *)
Definition upstream_status_error (status : Z) : GatewayError :=
  if (400 <=? status) && (status <? 500) && negb (status =? 429) then UpstreamClient status
  else Upstream (lit "HTTP " ++ show_N (Z.to_N status)).
Definition is_success (status : Z) : bool := (200 <=? status) && (status <? 300).

(** ** Interfaces *)

(** The [url] crate. *)
Class UrlLibrary := {
  Url : Type;
  url_parse : str -> option Url;
  url_scheme : Url -> str;
  url_has_host : Url -> bool;
  url_username : Url -> str;
  url_password : Url -> option str;
  url_path : Url -> str;
  set_fragment_none : Url -> Url;
  set_path : str -> Url -> Url;
  url_to_string : Url -> str
}.

(** AES-256-GCM under the key derived from the secret, and URL-safe base64. *)
Class Sealing := {
  seal : bytes -> bytes -> bytes;              (* nonce, plain text *)
  unseal : bytes -> bytes -> option bytes;     (* nonce, sealed text *)
  base64url_encode : bytes -> str;
  base64url_decode : str -> option bytes;
  unseal_seal nonce plain : unseal nonce (seal nonce plain) = Some plain;
  base64url_round_trip b : base64url_decode (base64url_encode b) = Some b;
  base64url_no_dot b : 46%N ∉ base64url_encode b
}.

(** The operator [?] on JSONB. *)
Class Jsonb := {
  jsonb_exists : value -> str -> bool;
  jsonb_exists_array items s : jsonb_exists (VArray items) s = bool_decide (VString s ∈ items)
}.

(** ** Validation *)

Definition openai_only (c : ModelCapability) : bool :=
  match c with Embedding | Stt | Tts => true | _ => false end.

Definition validate_protocol_capabilities (protocol_type : str) (capabilities : list ModelCapability) :
    result unit GatewayError :=
  if str_eqb protocol_type (lit "anthropic") && existsb openai_only capabilities
  then Err (InvalidInput (lit "Anthropic channels do not support embedding, STT, or TTS capabilities"))
  else Ok tt.

Section Validation.
Context {U : UrlLibrary}.

Definition plain_http_url (url : Url) : bool :=
  (str_eqb (url_scheme url) (lit "http") || str_eqb (url_scheme url) (lit "https"))
  && url_has_host url && is_empty (url_username url)
  && match url_password url with None => true | Some _ => false end.

Definition validate_base_url (base_url : str) : result unit GatewayError :=
  match url_parse base_url with
  | None => Err (InvalidInput (lit "base_url must be an http(s) URL"))
  | Some url =>
      if plain_http_url url then Ok tt
      else Err (InvalidInput (lit "base_url must be an http(s) URL without embedded credentials"))
  end.

Record CreateChannelInput := {
  c_name : str; c_protocol_type : ProtocolType; c_models : list str;
  c_capabilities : list ModelCapability; c_api_key : str; c_base_url : str;
  c_is_active : bool; c_weight : Z
}.

Definition validate (input : CreateChannelInput) : result unit GatewayError :=
  if is_empty (trim (c_name input)) || is_empty (c_api_key input) || is_empty (c_models input)
     || is_empty (c_capabilities input) || (c_weight input <? 1)
     || negb (is_ok (validate_base_url (c_base_url input)))
  then Err (InvalidInput (lit "name, api_key, models, capabilities, positive weight, and http(s) base_url are required"))
  else validate_protocol_capabilities (protocol_as_str (c_protocol_type input)) (c_capabilities input).
End Validation.

(** ** Keys at rest *)

Section Keys.
Context {K : Sealing}.

(** The nonce comes from the operating system. *)
Definition encrypt (nonce : bytes) (plaintext : str) : str :=
  base64url_encode nonce ++ lit "." ++ base64url_encode (seal nonce (encode plaintext)).

Definition decrypt (encoded : str) : result str GatewayError :=
  match split_once 46%N encoded with
  | None => Err (Internal (lit "invalid stored channel key"))
  | Some (nonce, ciphertext) =>
      match base64url_decode nonce with
      | None => Err (Internal (lit "decode key nonce"))
      | Some nonce =>
          match base64url_decode ciphertext with
          | None => Err (Internal (lit "decode channel key"))
          | Some ciphertext =>
              match unseal nonce ciphertext with
              | None => Err (Internal (lit "decrypt channel key"))
              | Some plain =>
                  match from_utf8 plain with
                  | Some key => Ok key
                  | None => Err (Internal (lit "stored key is not UTF-8"))
                  end
              end
          end
      end
  end.
End Keys.

(** ** Administration

    The tables the gateway writes to, and those whose rows refer to channels. *)

Record tables := { channels : gmap str Model; usage_of : str -> Z }.

Definition models_json (l : list str) : value := VArray (VString <$> l).
Definition capabilities_json (l : list ModelCapability) : value :=
  VArray (VString ∘ capability_as_str <$> l).

Record UpdateChannelInput := {
  u_name : option str; u_models : option (list str); u_capabilities : option (list ModelCapability);
  u_api_key : option str; u_base_url : option str; u_is_active : option bool; u_weight : option Z;
  u_tenant_id : option str
}.

Section Administration.
Context {U : UrlLibrary} {K : Sealing}.

(** The clock, the generated identifier and the nonce are arguments. *)
Definition create_channel (now : Z) (uuid : str) (nonce : bytes) (input : CreateChannelInput)
    (tenant : str) (t : tables) : result Model GatewayError * tables :=
  match validate input with
  | Err e => (Err e, t)
  | Ok _ =>
      let channel := {|
        id := uuid; tenant_id := tenant; name := c_name input;
        protocol_type := protocol_as_str (c_protocol_type input);
        models := models_json (c_models input);
        capabilities := capabilities_json (c_capabilities input);
        api_key_encrypted := encrypt nonce (c_api_key input);
        base_url := trim_end_matches slash (c_base_url input);
        is_active := c_is_active input; weight := c_weight input;
        created_at := now; updated_at := now |} in
      if decide (is_Some (channels t !! uuid)) then (Err (Internal (lit "create channel")), t)
      else (Ok channel, {| channels := <[uuid := channel]> (channels t); usage_of := usage_of t |})
  end.

(** One field of the update after the other; the first refusal wins. *)
Definition update_field {A} (v : option A) (check : A -> result Model GatewayError) (m : Model) :
    result Model GatewayError :=
  match v with None => Ok m | Some v => check v end.

Definition with_name v m := Build_Model (id m) (tenant_id m) v (protocol_type m) (models m) (capabilities m)
  (api_key_encrypted m) (base_url m) (is_active m) (weight m) (created_at m) (updated_at m).
Definition with_models v m := Build_Model (id m) (tenant_id m) (name m) (protocol_type m) v (capabilities m)
  (api_key_encrypted m) (base_url m) (is_active m) (weight m) (created_at m) (updated_at m).
Definition with_capabilities v m := Build_Model (id m) (tenant_id m) (name m) (protocol_type m) (models m) v
  (api_key_encrypted m) (base_url m) (is_active m) (weight m) (created_at m) (updated_at m).
Definition with_key v m := Build_Model (id m) (tenant_id m) (name m) (protocol_type m) (models m)
  (capabilities m) v (base_url m) (is_active m) (weight m) (created_at m) (updated_at m).
Definition with_base_url v m := Build_Model (id m) (tenant_id m) (name m) (protocol_type m) (models m)
  (capabilities m) (api_key_encrypted m) v (is_active m) (weight m) (created_at m) (updated_at m).
Definition with_active v m := Build_Model (id m) (tenant_id m) (name m) (protocol_type m) (models m)
  (capabilities m) (api_key_encrypted m) (base_url m) v (weight m) (created_at m) (updated_at m).
Definition with_weight v m := Build_Model (id m) (tenant_id m) (name m) (protocol_type m) (models m)
  (capabilities m) (api_key_encrypted m) (base_url m) (is_active m) v (created_at m) (updated_at m).
Definition with_tenant v m := Build_Model (id m) v (name m) (protocol_type m) (models m)
  (capabilities m) (api_key_encrypted m) (base_url m) (is_active m) (weight m) (created_at m) (updated_at m).
Definition with_updated_at v m := Build_Model (id m) (tenant_id m) (name m) (protocol_type m) (models m)
  (capabilities m) (api_key_encrypted m) (base_url m) (is_active m) (weight m) (created_at m) v.

Definition apply_update (now : Z) (nonce : bytes) (input : UpdateChannelInput) (found : Model) :
    result Model GatewayError :=
  and_then (update_field (u_name input) (fun v =>
    if is_empty (trim v) then Err (InvalidInput (lit "name is required")) else Ok (with_name v found)) found)
  (fun m => and_then (update_field (u_models input) (fun v => Ok (with_models (models_json v) m)) m)
  (fun m => and_then (update_field (u_capabilities input) (fun v =>
    if is_empty v then Err (InvalidInput (lit "at least one capability is required"))
    else and_then (validate_protocol_capabilities (protocol_type found) v)
           (fun _ => Ok (with_capabilities (capabilities_json v) m))) m)
  (fun m => and_then (update_field (u_api_key input) (fun v =>
    if is_empty v then Err (InvalidInput (lit "api_key is required")) else Ok (with_key (encrypt nonce v) m)) m)
  (fun m => and_then (update_field (u_base_url input) (fun v =>
    let v := trim_end_matches slash v in
    and_then (validate_base_url v) (fun _ => Ok (with_base_url v m))) m)
  (fun m => and_then (update_field (u_is_active input) (fun v => Ok (with_active v m)) m)
  (fun m => and_then (update_field (u_weight input) (fun v => Ok (with_weight v m)) m)
  (fun m => and_then (update_field (u_tenant_id input) (fun v => Ok (with_tenant v m)) m)
  (fun m => Ok (with_updated_at now m))))))))).

Definition update_channel (now : Z) (nonce : bytes) (channel_id : str) (input : UpdateChannelInput)
    (t : tables) : result Model GatewayError * tables :=
  if match u_weight input with Some v => v <? 1 | None => false end
  then (Err (InvalidInput (lit "weight must be at least 1")), t)
  else
    match channels t !! channel_id with
    | None => (Err NotFound, t)
    | Some found =>
        match apply_update now nonce input found with
        | Err e => (Err e, t)
        | Ok m => (Ok m, {| channels := <[channel_id := m]> (channels t); usage_of := usage_of t |})
        end
    end.

(** Refused while usage refers to the channel. *)
Definition delete_channel (channel_id : str) (t : tables) : result unit GatewayError * tables :=
  match channels t !! channel_id with
  | None => (Err NotFound, t)
  | Some _ =>
      let usage_count := usage_of t channel_id in
      if 0 <? usage_count then (Err (HasUsage channel_id usage_count), t)
      else (Ok tt, {| channels := delete channel_id (channels t); usage_of := usage_of t |})
  end.
End Administration.

(** ** Choosing a channel *)

Section Selection.
Context {B : Jsonb} {R : Redis}.

(** The rows the query selects. *)
Definition is_candidate (tenant : str) (required : list ModelCapability) (model : option str) (m : Model) : bool :=
  str_eqb (tenant_id m) tenant && is_active m
  && forallb (fun c => jsonb_exists (capabilities m) (capability_as_str c)) required
  && (negb (existsb openai_only required) || str_eqb (protocol_type m) (lit "openai"))
  && match model with
     | Some model => is_empty (trim model) || jsonb_exists (models m) model
     | None => true
     end.

(** One command to Redis per channel; without a quota service none. *)
Fixpoint retain_open (cs : list command) (l : list Model) (d : db) {struct l} : list Model * db :=
  match l, cs with
  | [], _ => ([], d)
  | m :: l, c :: cs =>
      let '(broken, d) := is_circuit_broken c (id m) d in
      let '(healthy, d) := retain_open cs l d in
      (if broken : bool then healthy else m :: healthy, d)
  | _ :: _, [] => (l, d)
  end.

Definition retain_healthy_channels (quota : option QuotaService) (cs : list command) (l : list Model) (d : db) :
    list Model * db :=
  match quota with None => (l, d) | Some _ => retain_open cs l d end.

(** [weight as u64] and its saturating sum. *)
Definition weight_u64 (m : Model) : Z := u64_wrap (weight m).
Definition saturating_add (a b : Z) : Z := Z.min (a + b) (2 ^ 64 - 1).
Definition total_weight (l : list Model) : Z := fold_left (fun total m => saturating_add total (weight_u64 m)) l 0.

Fixpoint pick_channel (pick : Z) (l : list Model) : option Model :=
  match l with
  | [] => None
  | m :: l => if pick <? weight_u64 m then Some m else pick_channel (pick - weight_u64 m) l
  end.

(** [draw total] is the generator's answer for the range [0..total]. *)
Definition weighted_select_with_rng (candidates : list Model) (draw : Z -> Z) : option Model :=
  let total := total_weight candidates in
  if total =? 0 then None
  else match pick_channel (draw total) candidates with
       | Some m => Some m
       | None => last candidates
       end.

(** [rows]: the table in the order in which the database answers. *)
Definition select_channel (quota : option QuotaService) (cs : list command) (draw : Z -> Z)
    (rows : list Model) (tenant : str) (required : list ModelCapability) (model : option str) (d : db) :
    result Model GatewayError * db :=
  let candidates := List.filter (is_candidate tenant required model) rows in
  if is_empty candidates then (Err NoChannel, d)
  else
    let '(healthy, d) := retain_healthy_channels quota cs candidates d in
    (match weighted_select_with_rng healthy draw with Some m => Ok m | None => Err NoChannel end, d).
End Selection.

(** ** Lemmas *)

Lemma pick_channel_share l1 m l2 pick :
  Forall (fun m => 0 <= weight m < 2 ^ 31) l1 -> 0 <= weight m < 2 ^ 31 ->
  foldr (fun m s => weight m + s) 0 l1 <= pick < foldr (fun m s => weight m + s) 0 l1 + weight m ->
  pick_channel pick (l1 ++ m :: l2) = Some m.
Proof.
  intros H. revert pick. induction H as [|x l1 Hx H IH]; intros pick Hm Hp; cbn [foldr app pick_channel] in *.
  - unfold weight_u64, u64_wrap. rewrite Z.mod_small by lia. destruct (Z.ltb_spec pick (weight m)); [done|lia].
  - assert (0 <= foldr (fun m s => weight m + s) 0 l1).
    { clear -H. induction H; cbn; lia. }
    unfold weight_u64, u64_wrap in *. rewrite Z.mod_small by lia.
    destruct (Z.ltb_spec pick (weight x)); [lia|]. apply IH; [done|lia].
Qed.

Lemma total_weight_sum_from a l :
  Forall (fun m => 0 <= weight m < 2 ^ 31) l -> 0 <= a ->
  a + 2 ^ 31 * Z.of_nat (length l) < 2 ^ 64 ->
  fold_left (fun total m => saturating_add total (weight_u64 m)) l a = a + foldr (fun m s => weight m + s) 0 l.
Proof.
  intros H. revert a. induction H as [|x l Hx H IH]; intros a Ha Hb; cbn [fold_left foldr length] in *; [lia|].
  unfold saturating_add, weight_u64, u64_wrap in *. rewrite (Z.mod_small (weight x)) by lia.
  rewrite IH; lia.
Qed.

Lemma weight_sum_positive l :
  Forall (fun m => 1 <= weight m < 2 ^ 31) l -> Z.of_nat (length l) <= foldr (fun m s => weight m + s) 0 l.
Proof. induction 1; cbn [foldr length]; lia. Qed.

Lemma weighted_select_share (l1 : list Model) m l2 draw :
  let l := l1 ++ m :: l2 in
  let before := foldr (fun m s => weight m + s) 0 l1 in
  Forall (fun m => 1 <= weight m < 2 ^ 31) l -> Z.of_nat (length l) < 2 ^ 32 ->
  before <= draw (foldr (fun m s => weight m + s) 0 l) < before + weight m ->
  weighted_select_with_rng l draw = Some m.
Proof.
  intros l before Hw Hn Hd. unfold weighted_select_with_rng.
  assert (Forall (fun m => 0 <= weight m < 2 ^ 31) l) as Hw' by (eapply Forall_impl; [exact Hw|]; cbn; lia).
  assert (total_weight l = foldr (fun m s => weight m + s) 0 l) as ->.
  { unfold total_weight. rewrite total_weight_sum_from; [lia|done|lia|lia]. }
  pose proof (weight_sum_positive l Hw) as Hp.
  assert (0 < Z.of_nat (length l)) by (unfold l; rewrite length_app; cbn; lia).
  destruct (Z.eqb_spec (foldr (fun m s => weight m + s) 0 l) 0); [lia|].
  unfold l in Hw'. apply Forall_app in Hw' as [H1 H2]. inversion H2; subst.
  unfold l at 2. by rewrite pick_channel_share.
Qed.

Lemma weighted_select_in l draw m : weighted_select_with_rng l draw = Some m -> m ∈ l.
Proof.
  assert (forall pick, pick_channel pick l = Some m -> m ∈ l) as Hp.
  { induction l as [|x l IH]; intros pick; cbn; [done|]. case_match; [intros [= <-]; by apply list_elem_of_here|].
    intros H'. apply list_elem_of_further. by eapply IH. }
  unfold weighted_select_with_rng. case_match; [done|].
  destruct (pick_channel _ l) eqn:E; [intros [= <-]; by eapply Hp|]. apply last_Some_elem_of.
Qed.

Lemma retain_open_in {R : Redis} cs l d m : m ∈ fst (retain_open cs l d) -> m ∈ l.
Proof.
  revert cs d; induction l as [|x l IH]; intros cs d H; cbn in *; [by apply not_elem_of_nil in H|].
  destruct cs as [|c cs]; [exact H|]. destruct (is_circuit_broken c (id x) d) as [broken d1].
  destruct (retain_open cs l d1) as [healthy d2] eqn:E. cbn in H.
  assert (m ∈ healthy -> m ∈ l) as Hh by (intros Hm; apply (IH cs d1); by rewrite E).
  destruct broken; [apply list_elem_of_further; auto|].
  apply elem_of_cons in H as [->|H]; [apply list_elem_of_here|apply list_elem_of_further; auto].
Qed.

(** A channel that is kept was not tripped when it was asked about. *)
Lemma retain_open_healthy {R : Redis} cs l d m :
  (length l <= length cs)%nat -> m ∈ fst (retain_open cs l d) ->
  exists c d', fst (is_circuit_broken c (id m) d') = false.
Proof.
  revert cs d; induction l as [|x l IH]; intros [|c cs] d Hl H; cbn in *; try lia;
    try by apply not_elem_of_nil in H.
  destruct (is_circuit_broken c (id x) d) as [broken d1] eqn:Eb.
  destruct (retain_open cs l d1) as [healthy d2] eqn:E. cbn in H.
  assert (m ∈ healthy -> exists c d', fst (is_circuit_broken c (id m) d') = false) as Hh.
  { intros Hm. apply (IH cs d1); [lia|by rewrite E]. }
  destruct broken; [auto|]. apply elem_of_cons in H as [->|H]; [|auto]. exists c, d. by rewrite Eb.
Qed.

(** A usable channel: what administration promises to requests. *)
Definition served_protocol (protocol : str) : bool :=
  str_eqb protocol (lit "openai") || str_eqb protocol (lit "anthropic").

Definition wf_channel (m : Model) : Prop :=
  1 <= weight m /\ served_protocol (protocol_type m) = true /\ trim (name m) <> [] /\
  exists caps, caps <> [] /\ capabilities m = capabilities_json caps /\
               validate_protocol_capabilities (protocol_type m) caps = Ok tt.

Definition wf_tables (t : tables) : Prop :=
  forall i m, channels t !! i = Some m -> wf_channel m.

Lemma served_protocol_as_str p : served_protocol (protocol_as_str p) = true.
Proof. by destruct p. Qed.

Lemma wf_create {U : UrlLibrary} {K : Sealing} now uuid nonce input tenant t r t' :
  create_channel now uuid nonce input tenant t = (r, t') -> wf_tables t -> wf_tables t'.
Proof.
  unfold create_channel, validate. intros H Ht.
  destruct (_ || _) eqn:E; [injection H as <- <-; done|].
  destruct (validate_protocol_capabilities _ _) as [[]|] eqn:Ev; [|injection H as <- <-; done].
  case_decide; injection H as <- <-; [done|]. intros i m Hm. cbn in Hm.
  apply lookup_insert_Some in Hm as [[-> <-]|[_ Hm]]; [|by eapply Ht].
  bool_to_prop. split; cbn; [lia|]. split; [apply served_protocol_as_str|]. split; [done|].
  eexists. split; [|done]. done.
Qed.

Lemma and_then_Ok {A B E} (r : result A E) (f : A -> result B E) b :
  and_then r f = Ok b <-> exists a, r = Ok a /\ f a = Ok b.
Proof. destruct r; cbn; naive_solver. Qed.

Lemma update_field_keeps {A B} (P : Model -> Prop) (v : option A) check m (f : Model -> result B GatewayError) r :
  and_then (update_field v check m) f = Ok r -> P m ->
  (forall x m1, v = Some x -> check x = Ok m1 -> P m1) ->
  exists m1, P m1 /\ f m1 = Ok r.
Proof. intros (m1 & H & Hf)%and_then_Ok Hm Hc. destruct v; cbn in H; [eauto|]. injection H as <-. eauto. Qed.

(** What one field may change, and still be a channel of the same protocol. *)
Definition same_kind (protocol : str) (m : Model) : Prop := wf_channel m /\ protocol_type m = protocol.

Lemma same_kind_ext p m m' :
  weight m' = weight m -> protocol_type m' = protocol_type m -> name m' = name m ->
  capabilities m' = capabilities m -> same_kind p m -> same_kind p m'.
Proof. unfold same_kind, wf_channel. by intros -> -> -> ->. Qed.

Lemma same_kind_name p m v : trim v <> [] -> same_kind p m -> same_kind p (with_name v m).
Proof. unfold same_kind, wf_channel. cbn. tauto. Qed.

Lemma same_kind_weight p m v : 1 <= v -> same_kind p m -> same_kind p (with_weight v m).
Proof. unfold same_kind, wf_channel. cbn. tauto. Qed.

Lemma same_kind_capabilities p m v :
  v <> [] -> validate_protocol_capabilities p v = Ok tt -> same_kind p m ->
  same_kind p (with_capabilities (capabilities_json v) m).
Proof. unfold same_kind, wf_channel. cbn. intros Hv Hp [(? & ? & ? & _) E]. rewrite E in *. eauto 10. Qed.

Lemma apply_update_wf {U : UrlLibrary} {K : Sealing} now nonce input found m :
  match u_weight input with Some v => v <? 1 | None => false end = false ->
  apply_update now nonce input found = Ok m -> wf_channel found -> wf_channel m.
Proof.
  intros Hw H Hf. assert (same_kind (protocol_type found) found) as HP by done. unfold apply_update in H.
  set (P := same_kind (protocol_type found)) in *.
  eapply (update_field_keeps P) in H as (m1 & P1 & H); [|done|intros x r Hx Hc].
  2: { case_match eqn:E; [done|]. injection Hc as <-. apply same_kind_name; [by bool_to_prop|done]. }
  eapply (update_field_keeps P) in H as (m2 & P2 & H); [|done|intros x r Hx [= <-]; by eapply same_kind_ext].
  eapply (update_field_keeps P) in H as (m3 & P3 & H); [|done|intros x r Hx Hc].
  2: { case_match eqn:E; [done|]. apply and_then_Ok in Hc as ([] & Hv & [= <-]).
       apply same_kind_capabilities; [by bool_to_prop|done|done]. }
  eapply (update_field_keeps P) in H as (m4 & P4 & H); [|done|intros x r Hx Hc].
  2: { case_match eqn:E; [done|]. injection Hc as <-. by eapply same_kind_ext. }
  eapply (update_field_keeps P) in H as (m5 & P5 & H); [|done|intros x r Hx Hc].
  2: { apply and_then_Ok in Hc as ([] & Hv & [= <-]). by eapply same_kind_ext. }
  eapply (update_field_keeps P) in H as (m6 & P6 & H); [|done|intros x r Hx [= <-]; by eapply same_kind_ext].
  eapply (update_field_keeps P) in H as (m7 & P7 & H); [|done|intros x r Hx [= <-]].
  2: { rewrite Hx in Hw. apply same_kind_weight; [lia|done]. }
  eapply (update_field_keeps P) in H as (m8 & P8 & H); [|done|intros x r Hx [= <-]; by eapply same_kind_ext].
  injection H as <-. eapply same_kind_ext in P8 as [? _]; done.
Qed.

Lemma wf_update {U : UrlLibrary} {K : Sealing} now nonce i input t r t' :
  update_channel now nonce i input t = (r, t') -> wf_tables t -> wf_tables t'.
Proof.
  unfold update_channel. intros H Ht. destruct (match u_weight input with Some _ => _ | None => _ end) eqn:Ew;
    [by injection H as <- <-|].
  destruct (channels t !! i) as [found|] eqn:Ei; [|by injection H as <- <-].
  destruct (apply_update now nonce input found) as [m|] eqn:Eu; injection H as <- <-; [|done].
  intros j x Hx. cbn in Hx. apply lookup_insert_Some in Hx as [[-> <-]|[_ Hx]]; [|by eapply Ht].
  eapply apply_update_wf; [done|done|by eapply Ht].
Qed.

Lemma wf_delete i t r t' : delete_channel i t = (r, t') -> wf_tables t -> wf_tables t'.
Proof.
  unfold delete_channel. intros H Ht. destruct (channels t !! i); [|by injection H as <- <-].
  case_match; injection H as <- <-; [done|]. intros j x Hx. cbn in Hx.
  apply lookup_delete_Some in Hx as [_ Hx]. by eapply Ht.
Qed.

(** Every draw falls into the interval of one channel. *)
Definition weights (l : list Model) : Z := foldr (fun m s => weight m + s) 0 l.

Lemma weights_app l1 l2 : weights (l1 ++ l2) = weights l1 + weights l2.
Proof. induction l1 as [|m l1 IH]; cbn; [done|]. change (foldr _ 0 ?l) with (weights l). lia. Qed.

Lemma interval_of_draw l draw :
  0 <= draw < weights l ->
  exists l1 m l2, l = l1 ++ m :: l2 /\ weights l1 <= draw < weights l1 + weight m.
Proof.
  revert draw; induction l as [|x l IH]; intros draw H; cbn in H; [lia|].
  change (foldr _ 0 l) with (weights l) in H.
  destruct (Z.ltb_spec draw (weight x)); [exists [], x, l; split; [done|cbn; lia]|].
  destruct (IH (draw - weight x)) as (l1 & m & l2 & -> & Hd); [lia|].
  exists (x :: l1), m, l2. split; [done|]. cbn. change (foldr _ 0 l1) with (weights l1). lia.
Qed.

Lemma weights_nonneg l : Forall (fun m => 1 <= weight m < 2 ^ 31) l -> 0 <= weights l.
Proof. intros H. pose proof (weight_sum_positive l H). unfold weights. lia. Qed.

Lemma split_lengths l k1 (x : Model) k2 l1 m l2 d :
  l = k1 ++ x :: k2 -> l = l1 ++ m :: l2 -> Forall (fun m => 1 <= weight m < 2 ^ 31) l ->
  weights k1 <= d < weights k1 + weight x -> weights l1 <= d < weights l1 + weight m ->
  (length k1 <= length l1)%nat.
Proof.
  intros Ek El Hw Hk Hl. destruct (decide (length k1 <= length l1)%nat) as [|Hlt]; [done|]. exfalso.
  assert (exists r, k1 = l1 ++ m :: r) as [r ->].
  { exists (drop (S (length l1)) k1).
    assert (take (length k1) l = k1) as <- by (subst l; apply take_app_length).
    rewrite El, (cons_middle m), (app_assoc l1). rewrite take_app_ge by (rewrite length_app; cbn; lia).
    rewrite drop_app_length' by (rewrite length_app; cbn; lia). by rewrite <- app_assoc. }
  rewrite Ek in Hw. apply Forall_app in Hw as [Hw _]. apply Forall_app in Hw as [_ Hw].
  inversion_clear Hw as [|? ? _ Hr]. apply weights_nonneg in Hr.
  rewrite weights_app in Hk. cbn in Hk. change (foldr _ 0 r) with (weights r) in Hk. lia.
Qed.

Lemma split_at_length {A} (l k1 l1 : list A) x k2 m l2 :
  l = k1 ++ x :: k2 -> l = l1 ++ m :: l2 -> length k1 = length l1 -> k1 = l1 /\ x = m.
Proof. intros -> E Hl. apply app_inj_1 in E as [-> E]; [|done]. by injection E. Qed.

#[export] Instance model_eq_dec : EqDecision Model.
Proof. solve_decision. Defined.

(** The draws out of [total] that choose [m]. *)
Definition draws_for (l : list Model) (m : Model) : list Z :=
  List.filter (fun draw => bool_decide (weighted_select_with_rng l (fun _ => draw) = Some m)) (seqZ 0 (weights l)).

Lemma filter_all {A} (f : A -> bool) l : (forall x, x ∈ l -> f x = true) -> List.filter f l = l.
Proof.
  induction l as [|x l IH]; intros H; cbn; [done|]. rewrite H by apply list_elem_of_here.
  f_equal. apply IH. intros y Hy. apply H. by apply list_elem_of_further.
Qed.

Lemma filter_none {A} (f : A -> bool) l : (forall x, x ∈ l -> f x = false) -> List.filter f l = [].
Proof.
  induction l as [|x l IH]; intros H; cbn; [done|]. rewrite H by apply list_elem_of_here.
  apply IH. intros y Hy. apply H. by apply list_elem_of_further.
Qed.

(** *** Small instances, for evaluating concrete inputs *)

Definition small_urls : UrlLibrary := {|
  Url := str * str;
  url_parse s :=
    rest ← strip_prefix (lit "https://") s;
    let host_end := default (length rest) (find [slash] rest) in
    Some (lit "https://" ++ take host_end rest, drop host_end rest);
  url_scheme _ := lit "https";
  url_has_host u := negb (str_eqb (fst u) (lit "https://"));
  url_username _ := [];
  url_password _ := None;
  url_path u := if is_empty (snd u) then [slash] else snd u;
  set_fragment_none u := u;
  set_path p u := (fst u, p);
  url_to_string u := fst u ++ snd u
|}.

Definition small_sealing : Sealing.
Proof.
  refine {| seal nonce plain := plain; unseal nonce sealed := Some sealed;
            base64url_encode b := (N.add 47) <$> b; base64url_decode s := Some ((fun c => c - 47)%N <$> s) |}.
  - done.
  - intros b. f_equal. induction b as [|x b IH]; cbn [fmap list_fmap]; [done|]. f_equal; [lia|done].
  - intros b (x & E & _)%list_elem_of_fmap. lia.
Defined.

Definition small_jsonb : Jsonb.
Proof.
  refine {| jsonb_exists v s := match v with VArray items => bool_decide (VString s ∈ items) | _ => false end |}.
  done.
Defined.

(** ** Theorems *)

(** The key of a channel survives storage: what [encrypt] wrote under
    any nonce, [decrypt] reads back, for every key that is Unicode text. *)
Theorem key_round_trip {K : Sealing} nonce plaintext :
  wf_str plaintext = true -> decrypt (encrypt nonce plaintext) = Ok plaintext.
Proof.
  intros Hp. unfold decrypt, encrypt. cbn [lit fmap list_fmap String.list_ascii_of_string app].
  rewrite split_once_app by apply base64url_no_dot.
  rewrite !base64url_round_trip, unseal_seal.
  assert (from_utf8 (encode plaintext) = Some plaintext) as ->; [|done].
  apply from_utf8_spec. split; [done|]. apply Forall_forall. intros c Hc.
  unfold wf_str in Hp. rewrite forallb_forall in Hp. apply Hp. by apply list_elem_of_In.
Qed.

Lemma key_round_trip_witness :
  wf_str (lit "sk-é") = true /\
  @decrypt small_sealing (@encrypt small_sealing [1; 2; 3]%N (lit "sk-é")) = Ok (lit "sk-é").
Proof. split; [reflexivity|]. apply (@key_round_trip small_sealing). reflexivity. Defined.


(** The weighted choice is exact.  Of the [total] equally likely draws of
    the generator, exactly [weight] choose a given channel, whatever the order
    of the candidates: its share of the requests is its weight. *)
Theorem weighted_select_is_proportional (l : list Model) (m : Model) :
  NoDup l -> m ∈ l ->
  Forall (fun m => 1 <= weight m < 2 ^ 31) l -> Z.of_nat (length l) < 2 ^ 32 ->
  Z.of_nat (length (draws_for l m)) = weight m.
Proof.
  intros Hd (l1 & l2 & ->)%list_elem_of_split Hw Hn. unfold draws_for.
  set (l := l1 ++ m :: l2) in *.
  assert (forall d, 0 <= d < weights l -> exists k1 x k2, l = k1 ++ x :: k2 /\
    weights k1 <= d < weights k1 + weight x /\ weighted_select_with_rng l (fun _ => d) = Some x) as Hall.
  { intros d Hdr. destruct (interval_of_draw l d Hdr) as (k1 & x & k2 & E & Hi).
    exists k1, x, k2. split; [done|]. split; [done|]. rewrite E in *. by apply weighted_select_share. }
  assert (0 <= weights l1 /\ 0 <= weights l2 /\ 1 <= weight m) as (H1 & H2 & Hm).
  { unfold l in Hw. apply Forall_app in Hw as [F1 F2]. inversion_clear F2 as [|? ? Fm F3].
    pose proof (weight_sum_positive l1 F1). pose proof (weight_sum_positive l2 F3). unfold weights. lia. }
  assert (weights l = weights l1 + (weight m + weights l2)) as E by (unfold l; by rewrite weights_app).
  assert (forall d, 0 <= d < weights l -> weighted_select_with_rng l (fun _ => d) = Some m <->
                    weights l1 <= d < weights l1 + weight m) as Hiff.
  { intros d Hdr. destruct (Hall d Hdr) as (k1 & x & k2 & Ek & Hi & ->). split.
    - intros [= ->].
      assert (length k1 = length l1) as Hlen.
      { apply (NoDup_lookup l _ _ m Hd); [rewrite Ek|unfold l]; by apply list_lookup_middle. }
      by destruct (split_at_length l k1 l1 m k2 m l2 Ek eq_refl Hlen) as [-> _].
    - intros Hi'. f_equal.
      pose proof (split_lengths l k1 x k2 l1 m l2 d Ek eq_refl Hw Hi Hi').
      pose proof (split_lengths l l1 m l2 k1 x k2 d eq_refl Ek Hw Hi' Hi).
      by destruct (split_at_length l k1 l1 x k2 m l2 Ek eq_refl ltac:(lia)). }
  rewrite E, seqZ_app, seqZ_app by lia. rewrite !List.filter_app.
  rewrite (filter_none _ (seqZ 0 (weights l1))), (filter_all _ (seqZ (0 + weights l1) _)), (filter_none _ (seqZ _ (weights l2))).
  - rewrite app_nil_r. cbn [app]. rewrite length_seqZ. lia.
  - intros d Hdr%elem_of_seqZ. apply bool_decide_eq_false. rewrite Hiff by lia. lia.
  - intros d Hdr%elem_of_seqZ. apply bool_decide_eq_true. rewrite Hiff by lia. lia.
  - intros d Hdr%elem_of_seqZ. apply bool_decide_eq_false. rewrite Hiff by lia. lia.
Qed.

Definition demo_channel (i protocol : string) (caps : list ModelCapability) (w : Z) : Model := {|
  id := lit i; tenant_id := lit "t1"; name := lit "demo"; protocol_type := lit protocol;
  models := models_json [lit "gpt"]; capabilities := capabilities_json caps;
  api_key_encrypted := @encrypt small_sealing [7]%N (lit "sk"); base_url := lit "https://host/v1";
  is_active := true; weight := w; created_at := 0; updated_at := 0 |}.

Lemma weighted_select_is_proportional_witness :
  Z.of_nat (length (draws_for [demo_channel "a" "openai" [Chat] 3; demo_channel "b" "openai" [Chat] 2]
                              (demo_channel "b" "openai" [Chat] 2))) = 2.
Proof.
  apply (weighted_select_is_proportional
    [demo_channel "a" "openai" [Chat] 3; demo_channel "b" "openai" [Chat] 2]
    (demo_channel "b" "openai" [Chat] 2)).
  - repeat constructor; rewrite ?list_elem_of_singleton; try by apply not_elem_of_nil.
    intros E. apply (f_equal weight) in E. discriminate E.
  - apply list_elem_of_further, list_elem_of_here.
  - repeat constructor; cbn; lia.
  - cbn. lia.
Defined.

(** One administrative request, by anyone, at any time. *)
Inductive administered {U : UrlLibrary} {K : Sealing} (t : tables) : tables -> Prop :=
| created now uuid nonce input tenant r t' :
    create_channel now uuid nonce input tenant t = (r, t') -> administered t t'
| updated now nonce i input r t' : update_channel now nonce i input t = (r, t') -> administered t t'
| deleted i r t' : delete_channel i t = (r, t') -> administered t t'
| metered usage : administered t {| channels := channels t; usage_of := usage |}.

(** Whatever requests create, update and delete channels, in any order,
    every stored channel stays usable: positive weight, a name, a supported
    protocol, at least one capability and none that the protocol lacks. *)
Theorem administration_keeps_channels {U : UrlLibrary} {K : Sealing} t t' :
  wf_tables t -> rtc administered t t' -> wf_tables t'.
Proof.
  intros Ht H. induction H as [|t t1 t' Hs _ IH]; [done|]. apply IH.
  destruct Hs; [by eapply wf_create|by eapply wf_update|by eapply wf_delete|done].
Qed.

Definition demo_input : CreateChannelInput := {|
  c_name := lit "demo"; c_protocol_type := Anthropic; c_models := [lit "claude"]; c_capabilities := [Chat; Vision];
  c_api_key := lit "sk"; c_base_url := lit "https://host/v1/"; c_is_active := true; c_weight := 2 |}.
Definition no_tables : tables := {| channels := ∅; usage_of := fun _ => 0 |}.
Definition demo_created := @create_channel small_urls small_sealing 5 (lit "a") [7]%N demo_input (lit "t1") no_tables.

Lemma administration_keeps_channels_witness :
  is_ok (fst demo_created) = true /\ wf_tables (snd demo_created).
Proof.
  split; [vm_compute; reflexivity|].
  apply (@administration_keeps_channels small_urls small_sealing no_tables); [by intros i m H|].
  apply rtc_once. eapply created. apply surjective_pairing.
Defined.

(** A request is only ever sent through a channel of its own tenant that
    is active, lists the model and every required capability, speaks the OpenAI
    protocol where the capability needs it, and whose breaker was not tripped
    when it was asked about. *)
Theorem select_channel_is_allowed {B : Jsonb} {R : Redis} q cs draw rows tenant required model d m d' :
  select_channel (Some q) cs draw rows tenant required model d = (Ok m, d') ->
  (length rows <= length cs)%nat ->
  m ∈ rows /\ tenant_id m = tenant /\ is_active m = true /\
  (forall c, c ∈ required -> jsonb_exists (capabilities m) (capability_as_str c) = true) /\
  ((exists c, c ∈ required /\ openai_only c = true) -> protocol_type m = lit "openai") /\
  (forall name, model = Some name -> trim name <> [] -> jsonb_exists (models m) name = true) /\
  exists c d0, fst (is_circuit_broken c (id m) d0) = false.
Proof.
  unfold select_channel. intros H Hn. destruct (is_empty _); [done|]. cbn [retain_healthy_channels] in H.
  set (candidates := List.filter (is_candidate tenant required model) rows) in *.
  destruct (retain_open cs candidates d) as [healthy d1] eqn:E.
  destruct (weighted_select_with_rng healthy draw) as [x|] eqn:Ew; [|done]. injection H as -> <-.
  apply weighted_select_in in Ew. assert (m ∈ fst (retain_open cs candidates d)) as Hm by by rewrite E.
  assert (length candidates <= length rows)%nat by apply List.filter_length_le.
  pose proof (retain_open_healthy cs candidates d m ltac:(lia) Hm) as Hb.
  apply retain_open_in, list_elem_of_In, filter_In in Hm as [Hin Hc]. unfold is_candidate in Hc.
  apply andb_true_iff in Hc as [[[[Ht Ha]%andb_true_iff Hcap]%andb_true_iff Ho]%andb_true_iff Hmod].
  split; [by apply list_elem_of_In|]. split; [by bool_to_prop|]. split; [done|]. split.
  { intros c Hcr. rewrite forallb_forall in Hcap. apply Hcap. by apply list_elem_of_In. }
  split.
  { intros (c & Hcr & Hoc). apply orb_true_iff in Ho as [Ho|Ho]; [|by bool_to_prop].
    assert (existsb openai_only required = true) as He by (apply existsb_elem; eauto). by rewrite He in Ho. }
  split; [|done]. intros nm -> Htr. apply orb_true_iff in Hmod as [He|]; [by bool_to_prop|done].
Qed.

Section WitnessSelect.
#[local] Existing Instance small_jsonb.
#[local] Existing Instance map_redis.
Let demo_limits : QuotaService := {| limiter := None;
  config := {| channel_max_rpm := 1; channel_max_tpm := 1; tenant_max_rpm := 1; cb_failure_threshold := 2;
               cb_retry_after_secs := 60; fail_open := true |} |}.
Let rows := [demo_channel "a" "anthropic" [Chat] 3; demo_channel "b" "openai" [Chat; Vision] 2].

Lemma select_channel_is_allowed_witness :
  let calls := [quiet_at 0; quiet_at 0] in
  fst (select_channel (Some demo_limits) calls (fun _ => 1) rows (lit "t1") [Vision] None ∅)
    = Ok (demo_channel "b" "openai" [Chat; Vision] 2) /\
  is_active (demo_channel "b" "openai" [Chat; Vision] 2) = true.
Proof.
  split; [vm_compute; reflexivity|].
  refine (proj1 (proj2 (proj2 (select_channel_is_allowed demo_limits [quiet_at 0; quiet_at 0] (fun _ => 1) rows (lit "t1")
    [Vision] None (∅ : @db map_redis) _ ∅ _ _)))); [|cbn; lia].
  vm_compute. reflexivity.
Defined.
End WitnessSelect.
