(* ===== verification/Responses.v ===== *)
(** * Protocol translation ([server/src/services/responses.rs])

    Requests arrive in the format of the Responses API and leave as Chat
    Completions or Anthropic Messages; answers travel back the same way.  JSON
    is built exactly as the code builds it; clocks, generated identifiers and
    base64 are arguments or interfaces. *)

From Stdlib Require Import SpecFloat.
From stdpp Require Import sorting.
From S2P Require Import Prelude Utf8 Sse Channels JsonValue.

Open Scope string_scope.
Open Scope list_scope.
Open Scope Z_scope.

Class Base64Text := {
  standard_decode : str -> option bytes;
  standard_encode : bytes -> str;
  urlsafe_decode : str -> option bytes;
  standard_round_trip b : standard_decode (standard_encode b) = Some b
}.

(** ** Requests *)

Inductive ContentPart :=
| InputText (text : str)
| InputImage (image_url : str) (detail : option str)
| InputAudio (data format : str)
| InputFile (file_data filename : str).

Inductive Content := Text (s : str) | Parts (parts : list ContentPart).

Record InputMessage := { im_role : str; im_content : Content }.
Inductive Input := InputPlain (s : str) | InputMessages (items : list InputMessage).

Inductive ToolConfig :=
| ToolWebSearch (query search_context_size : option str)
| ToolFileSearch (vector_store_ids : list str).

Record ResponsesRequest := {
  req_model : option str;
  req_input : Input;
  instructions : option str;
  developer_instructions : option str;
  max_output_tokens : option Z;
  temperature : option f64;
  stream : option bool;
  tools : option (list ToolConfig);
  store : option bool;
  previous_response_id : option str;
  metadata : option (gmap str str)
}.

Definition as_text (c : Content) : option str := match c with Text s => Some s | Parts _ => None end.

(** *** Responses to Chat Completions *)

Definition translate_content_part (part : ContentPart) : result value str :=
  match part with
  | InputText text => Ok (json [("type", vstr "text"); ("text", VString text)])
  | InputImage image_url detail =>
      let image := json [("url", VString image_url)] in
      Ok (json [("type", vstr "image_url");
                ("image_url", match detail with Some d => set_field "detail" (VString d) image | None => image end)])
  | InputAudio _ _ => Err (lit "Audio content must be pre-processed via STT before proxying")
  | InputFile _ _ => Err (lit "input_file is not supported by this AI response endpoint")
  end.

Fixpoint collect {A B E} (f : A -> result B E) (l : list A) : result (list B) E :=
  match l with
  | [] => Ok []
  | x :: l => and_then (f x) (fun y => and_then (collect f l) (fun ys => Ok (y :: ys)))
  end.

Definition translate_content (content : Content) : result value str :=
  match content with
  | Text text => Ok (VString text)
  | Parts parts => and_then (collect translate_content_part parts) (fun l => Ok (VArray l))
  end.

Definition query_parameters : value :=
  json [("type", vstr "object");
        ("properties", json [("query", json [("type", vstr "string"); ("description", vstr "The search query")])]);
        ("required", VArray [vstr "query"])].

Definition translate_tool (tool : ToolConfig) : value :=
  match tool with
  | ToolWebSearch _ _ =>
      json [("type", vstr "function");
            ("function", json [("name", vstr "web_search");
                               ("description", vstr "Search the web for current information");
                               ("parameters", query_parameters)])]
  | ToolFileSearch vector_store_ids =>
      json [("type", vstr "function");
            ("function", json [("name", vstr "file_search");
                               ("description", vstr "Search files in vector stores");
                               ("parameters", query_parameters);
                               ("vector_store_ids", VArray (VString <$> vector_store_ids))])]
  end.

Definition chat_message (role : str) (content : value) : value :=
  json [("role", VString role); ("content", content)].

Definition translate_message (item : InputMessage) : result value str :=
  and_then (translate_content (im_content item)) (fun content => Ok (chat_message (im_role item) content)).

Definition option_list {A} (o : option A) : list A := match o with Some a => [a] | None => [] end.

Definition input_messages (input : Input) : result (list value) str :=
  match input with
  | InputPlain text => Ok [chat_message (lit "user") (VString text)]
  | InputMessages items => collect translate_message items
  end.

(** [json!(temperature)]: what is not finite becomes null. *)
Definition json_f64 (f : f64) : value := if is_finite f then VNumber (Float f) else VNull.

Definition set_some {A} (key : string) (f : A -> value) (o : option A) (v : value) : value :=
  match o with Some a => set_field key (f a) v | None => v end.

Definition translate_request (req : ResponsesRequest) : result value str :=
  and_then (input_messages (req_input req)) (fun input =>
    let messages :=
      (chat_message (lit "system") ∘ VString <$> option_list (instructions req))
      ++ (chat_message (lit "developer") ∘ VString <$> option_list (developer_instructions req))
      ++ input in
    let upstream := json [("messages", VArray messages)] in
    let upstream := set_some "model" VString (req_model req) upstream in
    let upstream := set_some "max_tokens" vnat (max_output_tokens req) upstream in
    let upstream := set_some "temperature" json_f64 (temperature req) upstream in
    let upstream := if default false (stream req) then set_field "stream" (VBool true) upstream else upstream in
    Ok (set_some "tools" (fun l => VArray (translate_tool <$> l)) (l ← tools req; if is_empty l then None else Some l)
                 upstream)).

(** ** Capabilities of a request *)

Definition add_capability (c : ModelCapability) (l : list ModelCapability) : list ModelCapability :=
  if decide (c ∈ l) then l else l ++ [c].

Definition detect_part (l : list ModelCapability) (part : ContentPart) : list ModelCapability :=
  match part with
  | InputImage _ _ => add_capability Vision l
  | InputAudio _ _ => add_capability Stt l
  | InputText _ | InputFile _ _ => l
  end.

Definition detect_message (l : list ModelCapability) (item : InputMessage) : list ModelCapability :=
  match im_content item with Parts parts => fold_left detect_part parts l | Text _ => l end.

Definition detect_tool (l : list ModelCapability) (tool : ToolConfig) : list ModelCapability :=
  match tool with ToolWebSearch _ _ => add_capability WebSearch l | ToolFileSearch _ => l end.

Definition detect_capability (req : ResponsesRequest) : list ModelCapability :=
  let l := match req_input req with
           | InputMessages items => fold_left detect_message items [Chat]
           | InputPlain _ => [Chat]
           end in
  fold_left detect_tool (default [] (tools req)) l.

(** ** Embeddings *)

Definition f32_from_le_bytes (b0 b1 b2 b3 : byte) : spec_float :=
  let bits := (Z.of_N b0 + 256 * (Z.of_N b1 + 256 * (Z.of_N b2 + 256 * Z.of_N b3))) in
  let s := Z.testbit bits 31 in
  let e := Z.land (Z.shiftr bits 23) 255 in
  let m := Z.land bits (2 ^ 23 - 1) in
  if e =? 255 then (if m =? 0 then S754_infinity s else S754_nan)
  else if e =? 0 then (if m =? 0 then S754_zero s else S754_finite s (Z.to_pos m) (-149))
  else S754_finite s (Z.to_pos (m + 2 ^ 23)) (e - 150).

(** [f as f64] of a finite [f32] is exact. *)
Definition f64_of_f32 (f : spec_float) : f64 :=
  match f with
  | S754_finite s m e => binary_normalize 53 1024 (if s then Zneg m else Zpos m) e s
  | other => other
  end.

Fixpoint le_floats (b : bytes) : option (list spec_float) :=
  match b with
  | [] => Some []
  | b0 :: b1 :: b2 :: b3 :: rest =>
      let f := f32_from_le_bytes b0 b1 b2 b3 in
      if is_finite f then cons f <$> le_floats rest else None
  | _ => None
  end.

Section Embeddings.
Context {B : Base64Text}.

Definition decode_finite_f32_embedding (encoded : str) : option (list spec_float) :=
  b ← standard_decode encoded; if is_empty b then None else le_floats b.

Definition fits_f32 (v : value) : bool :=
  match as_f64 v with Some f => is_finite (f32_of_f64 f) | None => false end.

Definition finite_f32_embedding_array_dimension (values : list value) : option Z :=
  if negb (is_empty values) && forallb fits_f32 values then Some (Z.of_nat (length values)) else None.

Record EmbeddingBatchContract := { expected_count : Z; expected_dimensions : option Z }.

Definition read_embedding (embedding : value) : option Z * option (list spec_float) :=
  match embedding with
  | VArray values => (finite_f32_embedding_array_dimension values, None)
  | VString encoded =>
      let decoded := decode_finite_f32_embedding encoded in (Z.of_nat ∘ length <$> decoded, decoded)
  | _ => (None, None)
  end.

(** What the first loop keeps of one item: dimensions, index, decoded vector. *)
Definition read_item (contract : EmbeddingBatchContract) (expected : option Z) (pos : Z) (item : value) :
    option (Z * Z * option (list spec_float)) :=
  object ← as_object item;
  embedding ← map_get (lit "embedding") object;
  let '(dimensions, decoded) := read_embedding embedding in
  dimensions ← dimensions;
  if match expected_dimensions contract with Some e => negb (dimensions =? e) | None => false end then None
  else if match expected with Some e => negb (dimensions =? e) | None => false end then None
  else
    index ← match map_get (lit "index") object with None => Some pos | Some index => as_u64 index end;
    Some (dimensions, index, decoded).

Fixpoint read_items (contract : EmbeddingBatchContract) (expected : option Z) (pos : Z) (items : list value) :
    option (option Z * list (Z * option (list spec_float))) :=
  match items with
  | [] => Some (expected, [])
  | item :: items =>
      '(dimensions, index, decoded) ← read_item contract expected pos item;
      '(expected, rest) ← read_items contract (Some dimensions) (pos + 1) items;
      Some (expected, (index, decoded) :: rest)
  end.

(** [indices.sort_unstable()], then compared with [0..]. *)
Definition contiguous (indices : list Z) : bool :=
  bool_decide (merge_sort Z.le indices = seqZ 0 (Z.of_nat (length indices))).

Definition write_item (dimensions : Z) (item : value) (decoded : option (list spec_float)) : value :=
  let item := set_some "embedding" (fun l => VArray (VNumber ∘ Float ∘ f64_of_f32 <$> l)) decoded item in
  set_field "dimensions" (vnat dimensions) item.

Definition normalize_embedding_batch (items : list value) (contract : EmbeddingBatchContract) :
    bool * list value :=
  if (expected_count contract =? 0) || negb (Z.of_nat (length items) =? expected_count contract) then (false, items)
  else
    match read_items contract None 0 items with
    | None => (false, items)
    | Some (expected, read) =>
        if negb (contiguous (fst <$> read)) then (false, items)
        else (true, zip_with (write_item (default 0 expected)) items (snd <$> read))
    end.
End Embeddings.

(** ** Chat Completions to Responses *)

Definition first_choice (response : value) : option value := get_array "choices" response ≫= head.

Definition is_valid_chat_completions_response (response : value) : bool :=
  match first_choice response with
  | None => false
  | Some choice =>
      match get "message" choice with
      | Some (VObject _ as message) =>
          bool_decide (get_str "role" message = Some (lit "assistant"))
          && (match get_str "content" message with Some _ => true | None => false end
              || match get_str "refusal" message with Some refusal => negb (is_empty refusal) | None => false end
              || bool_decide (get_str "finish_reason" choice = Some (lit "content_filter")))
      | _ => false
      end
  end.

Definition default_msg : value := json [("role", vstr "assistant"); ("content", vstr "")].

Definition extract_choice_info (upstream : value) : str * option str * str * str :=
  let choice := default default_msg (first_choice upstream) in
  let message := default default_msg (get "message" choice) in
  (default [] (get_str "content" message),
   refusal ← get_str "refusal" message; (if is_empty refusal then None else Some refusal),
   default (lit "assistant") (get_str "role" message),
   default (lit "stop") (get_str "finish_reason" choice)).

Record UsageResponse := { input_tokens : Z; output_tokens : Z; total_tokens : Z }.

(** [as u32], and the addition of two [u32] in a release build. *)
Definition u32_wrap (z : Z) : Z := z mod 2 ^ 32.

Definition extract_usage (upstream : value) : option UsageResponse :=
  usage ← get "usage" upstream;
  let input := u32_wrap (default 0 (get_u64 "prompt_tokens" usage)) in
  let output := u32_wrap (default 0 (get_u64 "completion_tokens" usage)) in
  Some {| input_tokens := input; output_tokens := output;
          total_tokens := u32_wrap (default (u32_wrap (input + output)) (get_u64 "total_tokens" usage)) |}.

Inductive OutputContent := OutputText (text : str) | Refusal (refusal : str).
Record OutputItem := { out_id : str; out_status : str; out_content : list OutputContent; out_role : str }.

Record ResponsesResponse := {
  resp_id : str; resp_created_at : Z; resp_model : str; resp_capability : str; resp_status : str;
  resp_incomplete_details : option value; resp_output : list OutputItem;
  resp_usage : option UsageResponse; resp_error : option value
}.

Definition response_status_of (finish_reason : str) : str :=
  if str_eqb finish_reason (lit "length") || str_eqb finish_reason (lit "content_filter")
  then lit "incomplete" else lit "completed".

Definition incomplete_details_of (finish_reason : str) : option value :=
  if str_eqb finish_reason (lit "length") then Some (json [("reason", vstr "max_output_tokens")])
  else if str_eqb finish_reason (lit "content_filter") then Some (json [("reason", vstr "content_filter")])
  else None.

(** [now], [response_id] and [msg_id] are made by the clock and the generator. *)
Definition translate_response (now : Z) (response_id msg_id : str) (upstream : value) (model : str) :
    ResponsesResponse :=
  let '(output_text, refusal, output_role, finish_reason) := extract_choice_info upstream in
  let content_items :=
    if negb (is_empty output_text) then [OutputText output_text]
    else match refusal with Some refusal => [Refusal refusal] | None => [] end in
  let response_status := response_status_of finish_reason in
  {| resp_id := response_id; resp_created_at := now; resp_model := model; resp_capability := lit "chat";
     resp_status := response_status; resp_incomplete_details := incomplete_details_of finish_reason;
     resp_output := [{| out_id := msg_id;
                        out_status := if str_eqb response_status (lit "completed")
                                      then lit "completed" else lit "incomplete";
                        out_content := content_items; out_role := output_role |}];
     resp_usage := extract_usage upstream;
     resp_error := if str_eqb response_status (lit "failed")
                   then Some (json [("code", vstr "server_error");
                                    ("message", vstr "AI provider returned an invalid response")])
                   else None |}.

(** ** Streaming events *)

Definition text_event (type field : string) (text item_id : str) (sequence_number : Z) : value :=
  json [("type", vstr type); ("item_id", VString item_id); ("output_index", vnat 0);
        ("content_index", vnat 0); (field, VString text); ("sequence_number", vnat sequence_number)].

Definition output_text_delta := text_event "response.output_text.delta" "delta".
Definition refusal_delta := text_event "response.refusal.delta" "delta".
Definition refusal_done := text_event "response.refusal.done" "refusal".
Definition output_text_done := text_event "response.output_text.done" "text".

Definition error_event (code message : str) (sequence_number : Z) : value :=
  json [("type", vstr "error"); ("code", VString code); ("message", VString message); ("param", VNull);
        ("sequence_number", vnat sequence_number)].

Section Events.
Context {J : JsonText}.

Definition format_sse_event (event_type : str) (data : value) : str :=
  lit "event: " ++ event_type ++ [newline] ++ lit "data: " ++ to_text data ++ [newline; newline].

Definition choice_delta (chunk : value) : option value := first_choice chunk ≫= get "delta".

Definition nonempty (s : str) : option str := if is_empty s then None else Some s.

Definition extract_upstream_delta (chunk : value) : option str :=
  delta ← choice_delta chunk; content ← get_str "content" delta; nonempty content.

Definition extract_upstream_refusal (chunk : value) : option str :=
  delta ← choice_delta chunk; refusal ← get_str "refusal" delta; nonempty refusal.

Definition is_upstream_done (chunk : value) : bool := bool_decide (as_str chunk = Some (lit "[DONE]")).

(** What the chunks change: text, model, usage. *)
Record accumulators := {
  accumulated_text : str; model_name : option str; usage_input : Z; usage_output : Z
}.

Definition translate_streaming_chunk (chunk : value) (a : accumulators) (item_id : str) (sequence_number : Z) :
    option (str * str) * accumulators :=
  if is_upstream_done chunk then (None, a)
  else
    let model := match model_name a with
                 | Some m => Some m
                 | None => m ← get_str "model" chunk; nonempty m
                 end in
    let usage := default VNull (get "usage" chunk) in
    let input := default (usage_input a) (get_u64 "prompt_tokens" usage) in
    let output := default (usage_output a) (get_u64 "completion_tokens" usage) in
    match extract_upstream_delta chunk with
    | Some delta =>
        (Some (format_sse_event (lit "response.output_text.delta") (output_text_delta delta item_id sequence_number),
               delta),
         {| accumulated_text := accumulated_text a ++ delta; model_name := model;
            usage_input := input; usage_output := output |})
    | None => (None, {| accumulated_text := accumulated_text a; model_name := model;
                        usage_input := input; usage_output := output |})
    end.
End Events.

(** [u64] division and maximum. *)
Definition estimate_tokens_from_text (text : str) : Z := Z.max (Z.of_N (utf8_len text) / 4) 1.

(** ** Anthropic Messages *)

Definition parse_base64_data_uri (uri : str) : option (str * str) :=
  value ← strip_prefix (lit "data:") uri;
  '(metadata, data) ← split_once 44%N value;
  match split_on 59%N metadata with
  | [] => None
  | media_type :: parts =>
      let is_base64 := existsb (fun part => str_eqb (to_ascii_lowercase part) (lit "base64")) parts in
      if is_empty media_type || negb (starts_with (lit "image/") media_type) || negb is_base64 then None
      else Some (media_type, data)
  end.

Definition openai_image_part_to_anthropic (part : value) : option value :=
  if negb (bool_decide (get_str "type" part = Some (lit "image_url"))) then None
  else
    image_url ← get "image_url" part;
    url ← match get_str "url" image_url with Some url => Some url | None => as_str image_url end;
    source ← match parse_base64_data_uri url with
             | Some (media_type, data) =>
                 Some (json [("type", vstr "base64"); ("media_type", VString media_type); ("data", VString data)])
             | None =>
                 if starts_with (lit "https://") url || starts_with (lit "http://") url
                 then Some (json [("type", vstr "url"); ("url", VString url)]) else None
             end;
    Some (json [("type", vstr "image"); ("source", source)]).

Definition chat_content_to_anthropic (content : value) : value :=
  match content with
  | VArray parts => VArray ((fun part => default part (openai_image_part_to_anthropic part)) <$> parts)
  | content => content
  end.

Definition message_role (msg : value) : str := default (lit "user") (get_str "role" msg).
Definition message_content (msg : value) : value := default (VString []) (get "content" msg).
Definition is_system_role (role : str) : bool :=
  str_eqb role (lit "system") || str_eqb role (lit "developer").

Definition system_texts (content : value) : list str :=
  match content with
  | VString text => [text]
  | VArray parts => omap (get_str "text") parts
  | _ => []
  end.

Definition system_parts (msgs : list value) : list str :=
  msgs ≫= (fun msg => if is_system_role (message_role msg) then system_texts (message_content msg) else []).

Definition anthropic_messages (msgs : list value) : list value :=
  msgs ≫= (fun msg =>
    if is_system_role (message_role msg) then []
    else [chat_message (message_role msg) (chat_content_to_anthropic (message_content msg))]).

Definition stop_sequences (stop : value) (v : value) : value :=
  match stop with
  | VString s => set_field "stop_sequences" (VArray [VString s]) v
  | VArray arr => set_field "stop_sequences" (VArray arr) v
  | _ => v
  end.

Definition chat_completions_to_anthropic (body : value) : value :=
  let v := json [] in
  let v := set_some "model" (fun m => m) (get "model" body) v in
  let v := set_field "max_tokens" (default (vnat 4096) (get "max_tokens" body)) v in
  let v := if default false (get "stream" body ≫= as_bool) then set_field "stream" (VBool true) v else v in
  let v := match get "stop" body with Some stop => stop_sequences stop v | None => v end in
  let v := set_some "temperature" (fun t => t) (get "temperature" body) v in
  let v := set_some "top_p" (fun t => t) (get "top_p" body) v in
  let msgs := default [] (get_array "messages" body) in
  let parts := system_parts msgs in
  let v := if is_empty parts then v else set_field "system" (VString (join [newline] parts)) v in
  set_field "messages" (VArray (anthropic_messages msgs)) v.

Definition anthropic_text (response : value) : str :=
  concat (omap (get_str "text")
    (List.filter (fun item => bool_decide (get_str "type" item = Some (lit "text")))
      (default [] (get_array "content" response)))).

Definition finish_reason_of (stop_reason : option str) : string :=
  match stop_reason with
  | Some r =>
      if str_eqb r (lit "end_turn") || str_eqb r (lit "stop_sequence") then "stop"
      else if str_eqb r (lit "max_tokens") then "length"
      else if str_eqb r (lit "tool_use") then "tool_calls" else "unknown"
  | None => "unknown"
  end.

Definition anthropic_response_to_chat_completions (now : Z) (response : value) : value :=
  let usage := default VNull (get "usage" response) in
  let prompt_tokens := default 0 (get_u64 "input_tokens" usage) in
  let completion_tokens := default 0 (get_u64 "output_tokens" usage) in
  json [("id", default (vstr "unknown") (get "id" response));
        ("object", vstr "chat.completion");
        ("created", vnat now);
        ("model", VString (default (lit "unknown") (get_str "model" response)));
        ("choices", VArray [json [
           ("index", vnat 0);
           ("message", json [("role", VString (default (lit "assistant") (get_str "role" response)));
                             ("content", VString (anthropic_text response))]);
           ("finish_reason", vstr (finish_reason_of (get_str "stop_reason" response)))]]);
        ("usage", json [("prompt_tokens", vnat prompt_tokens); ("completion_tokens", vnat completion_tokens);
                        ("total_tokens", vnat (u64_wrap (prompt_tokens + completion_tokens)))])].

Definition extract_anthropic_streaming_delta (chunk : value) : option str :=
  event_type ← get_str "type" chunk;
  if str_eqb event_type (lit "content_block_delta") then
    delta ← get "delta" chunk; delta_type ← get_str "type" delta;
    if str_eqb delta_type (lit "text_delta") then get_str "text" delta else None
  else None.

Definition extract_anthropic_usage (chunk : value) : option (Z * Z) :=
  event_type ← get_str "type" chunk;
  if negb (str_eqb event_type (lit "message_delta")) then None
  else
    usage ← get "usage" chunk;
    Some (default 0 (get_u64 "input_tokens" usage), default 0 (get_u64 "output_tokens" usage)).

(** ** Lemmas *)

Lemma collect_Ok {A B E} (f : A -> result B E) l ys :
  collect f l = Ok ys <-> Forall2 (fun x y => f x = Ok y) l ys.
Proof.
  revert ys; induction l as [|x l IH]; intros ys; cbn [collect].
  - split; [intros [= <-]; constructor|inversion 1; done].
  - rewrite and_then_Ok. setoid_rewrite and_then_Ok. split.
    + intros (y & Hy & zs & Hz & [= <-]). constructor; [done|by apply IH].
    + inversion_clear 1. eexists. split; [done|]. eexists. split; [by apply IH|done].
Qed.

Lemma collect_is_ok {A B E} (f : A -> result B E) l : is_ok (collect f l) = forallb (fun x => is_ok (f x)) l.
Proof.
  induction l as [|x l IH]; cbn [collect forallb]; [done|].
  destruct (f x); cbn; [|done]. rewrite <- IH. by destruct (collect f l).
Qed.

(** *** Embeddings *)

Lemma read_items_length {B : Base64Text} c e pos items e' read :
  read_items c e pos items = Some (e', read) -> length read = length items.
Proof.
  revert e pos e' read; induction items as [|item items IH]; intros e pos e' read H; cbn in H.
  - by injection H as <- <-.
  - destruct (read_item c e pos item) as [[[d i] dec]|]; [|done]. cbn in H.
    destruct (read_items c (Some d) (pos + 1) items) as [[e1 r]|] eqn:E; [|done]. injection H as <- <-.
    cbn. f_equal. by eapply IH.
Qed.

(** A vector that the batch accepts: its numbers fit [f32] or were [f32]. *)
Definition good_number (v : value) : Prop :=
  fits_f32 v = true \/ exists f, is_finite f = true /\ v = VNumber (Float (f64_of_f32 f)).
Definition vector_of (dimensions : Z) (item : value) : Prop :=
  exists values, get_array "embedding" item = Some values /\ Z.of_nat (length values) = dimensions /\
                 values <> [] /\ Forall good_number values.
Definition item_index (pos : nat) (item : value) : option Z :=
  match get "index" item with None => Some (Z.of_nat pos) | Some index => as_u64 index end.

Lemma le_floats_spec b l :
  le_floats b = Some l -> length b = (4 * length l)%nat /\ Forall (fun f => is_finite f = true) l.
Proof.
  remember (length b) as n eqn:En. revert b l En. induction (lt_wf n) as [n _ IH]. intros b l -> H.
  destruct b as [|b0 [|b1 [|b2 [|b3 rest]]]]; try done; [by injection H as <-|].
  cbn [le_floats] in H. destruct (is_finite _) eqn:Ef; [|done].
  destruct (le_floats rest) as [l'|] eqn:E; [|done]. injection H as <-.
  destruct (IH (length rest)) with (b := rest) (l := l') as [Hl Hf]; [cbn; lia|done|done|].
  split; [cbn; lia|by constructor].
Qed.

Lemma read_item_inv {B : Base64Text} c e pos item d i dec :
  read_item c e pos item = Some (d, i, dec) ->
  exists o emb, item = VObject o /\ map_get (lit "embedding") o = Some emb /\
    read_embedding emb = (Some d, dec) /\
    match map_get (lit "index") o with None => Some pos | Some index => as_u64 index end = Some i /\
    (forall d', e = Some d' -> d' = d) /\ (forall d', expected_dimensions c = Some d' -> d' = d).
Proof.
  unfold read_item. intros H. destruct item as [| | | | |o]; try done. cbn [as_object mbind option_bind] in H.
  destruct (map_get (lit "embedding") o) as [emb|] eqn:E1; [|done]. cbn [mbind option_bind] in H.
  destruct (read_embedding emb) as [d1 dec1] eqn:E2. destruct d1 as [d1|]; [|done]. cbn [mbind option_bind] in H.
  exists o, emb.
  destruct (match expected_dimensions c with Some _ => _ | None => _ end) eqn:E3; [done|].
  destruct (match e with Some _ => _ | None => _ end) eqn:E4; [done|].
  destruct (match map_get (lit "index") o with Some _ => _ | None => _ end) as [i1|] eqn:E5; [|done].
  injection H as <- <- <-. repeat (split; [done|]).
  split; intros d' Hd'; rewrite Hd' in *; bool_to_prop; lia.
Qed.

Lemma write_item_vector {B : Base64Text} d dec o emb :
  map_get (lit "embedding") o = Some emb -> read_embedding emb = (Some d, dec) ->
  vector_of d (write_item d (VObject o) dec) /\ 0 < d /\
  get "dimensions" (write_item d (VObject o) dec) = Some (vnat d).
Proof.
  intros He Hr. destruct emb as [| | |s|values|]; cbn [read_embedding] in Hr; try done.
  - destruct (decode_finite_f32_embedding s) as [l|] eqn:Ed; [|done]. cbn in Hr. injection Hr as <- <-.
    unfold decode_finite_f32_embedding in Ed. destruct (standard_decode s) as [b|]; [|done]. cbn in Ed.
    destruct (is_empty b) eqn:Eb; [done|]. apply le_floats_spec in Ed as [Hl Hf]. bool_to_prop.
    assert (0 < length l)%nat by (destruct b; [done|cbn in Hl; lia]).
    cbn [write_item set_some set_field]. split; [|split; [lia|]].
    + exists (VNumber ∘ Float ∘ f64_of_f32 <$> l). split.
      { unfold get_array, get. cbn [get_key as_object mbind option_bind].
        by rewrite !map_get_insert, !str_eqb_lit. }
      split; [by rewrite length_fmap|]. split; [destruct l; [cbn in *; lia|done]|].
      apply Forall_fmap. eapply Forall_impl; [done|]. intros f Hfin. right. by exists f.
    + unfold get. cbn [get_key as_object mbind option_bind]. by rewrite map_get_insert, str_eqb_refl.
  - injection Hr as Hd <-. unfold finite_f32_embedding_array_dimension in Hd.
    destruct (negb (is_empty values) && forallb fits_f32 values) eqn:E; [|done]. injection Hd as <-.
    apply andb_true_iff in E as [E1 E2]. bool_to_prop. cbn [write_item set_some set_field].
    split; [|split; [destruct values; [done|cbn; lia]|]].
    + exists values. split.
      { unfold get_array, get. cbn [get_key as_object mbind option_bind].
        rewrite !map_get_insert, !str_eqb_lit. cbn [String.eqb Ascii.eqb Bool.eqb]. by rewrite He. }
      split; [done|]. split; [done|]. apply Forall_forall. intros v Hv. left.
      rewrite forallb_forall in E2. apply E2. by apply list_elem_of_In.
    + unfold get. cbn [get_key as_object mbind option_bind]. by rewrite map_get_insert, str_eqb_refl.
Qed.

Lemma read_items_spec {B : Base64Text} c e pos items e' read :
  read_items c e (Z.of_nat pos) items = Some (e', read) -> items <> [] ->
  exists d, e' = Some d /\ 0 < d /\ (forall d', e = Some d' -> d' = d) /\
    (forall d', expected_dimensions c = Some d' -> d' = d) /\
    Forall (fun item' => vector_of d item' /\ get "dimensions" item' = Some (vnat d))
      (zip_with (write_item d) items (snd <$> read)) /\
    imap (fun k item => item_index (pos + k) item) items = Some ∘ fst <$> read.
Proof.
  revert e pos e' read; induction items as [|item items IH]; intros e pos e' read H Hne0; [by destruct Hne0|]. clear Hne0.
  cbn [read_items] in H.
  destruct (read_item c e (Z.of_nat pos) item) as [[[d i] dec]|] eqn:Er; cbn in H; [|done].
  destruct (read_items c (Some d) (Z.of_nat pos + 1) items) as [[e1 r]|] eqn:E; cbn in H; [|done].
  injection H as <- <-. apply read_item_inv in Er as (o & emb & -> & He & Hr & Hi & Hd & Hc).
  destruct (write_item_vector d dec o emb He Hr) as (Hv & Hpos & Hdim).
  replace (Z.of_nat pos + 1) with (Z.of_nat (S pos)) in E by lia.
  assert (item_index (pos + 0) (VObject o) = Some i) as Hii by (rewrite Nat.add_0_r; exact Hi).
  destruct (decide (items = [])) as [->|Hne].
  - injection E as <- <-. exists d. repeat (split; [done|]). split; [by repeat constructor|].
    cbn. by rewrite Hii.
  - destruct (IH _ _ _ _ E Hne) as (d1 & -> & Hp1 & Hd1 & Hc1 & Hf & Hix).
    assert (d = d1) as <- by by apply Hd1.
    exists d. repeat (split; [done|]). split; [by constructor|].
    cbn [imap fmap list_fmap]. rewrite Hii. cbn. f_equal. rewrite <- Hix.
    apply imap_ext. intros k x _. cbn. f_equal. lia.
Qed.

Lemma contiguous_perm l : contiguous l = true -> l ≡ₚ seqZ 0 (Z.of_nat (length l)).
Proof. intros H%bool_decide_eq_true. rewrite <- H at 1. symmetry. apply merge_sort_Permutation. Qed.

(** *** Capabilities *)

Definition has_part (f : ContentPart -> bool) (req : ResponsesRequest) : bool :=
  match req_input req with
  | InputPlain _ => false
  | InputMessages items =>
      existsb (fun item => match im_content item with Parts parts => existsb f parts | Text _ => false end) items
  end.
Definition is_image (part : ContentPart) : bool := match part with InputImage _ _ => true | _ => false end.
Definition is_audio (part : ContentPart) : bool := match part with InputAudio _ _ => true | _ => false end.
Definition is_file (part : ContentPart) : bool := match part with InputFile _ _ => true | _ => false end.
Definition wants_web_search (req : ResponsesRequest) : bool :=
  existsb (fun tool => match tool with ToolWebSearch _ _ => true | _ => false end) (default [] (tools req)).

Lemma elem_of_add x c l : x ∈ add_capability c l <-> x = c \/ x ∈ l.
Proof. unfold add_capability. case_decide; set_solver. Qed.

(** A list of detected capabilities: each once, chat first. *)
Definition detected (l : list ModelCapability) : Prop := NoDup l /\ head l = Some Chat.

Lemma detected_add c l : detected l -> detected (add_capability c l).
Proof.
  intros [Hd Hh]. unfold add_capability. case_decide; [done|]. split; [|by destruct l].
  apply NoDup_app. split; [done|]. split; [set_solver|]. apply NoDup_singleton.
Qed.

Section Detect.
Context {A : Type} (step : list ModelCapability -> A -> list ModelCapability) (adds : ModelCapability -> A -> bool).
Context (step_detected : forall l a, detected l -> detected (step l a)).
Context (step_adds : forall x l a, x ∈ step l a <-> adds x a = true \/ x ∈ l).

Lemma fold_detected l items : detected l -> detected (fold_left step items l).
Proof using step_detected. revert l; induction items; cbn; auto. Qed.

Lemma fold_adds x items l : x ∈ fold_left step items l <-> existsb (adds x) items = true \/ x ∈ l.
Proof using step_adds.
  revert l; induction items as [|a items IH]; intros l; cbn; [naive_solver|].
  rewrite IH, step_adds, orb_true_iff. tauto.
Qed.
End Detect.

Definition part_adds (x : ModelCapability) (part : ContentPart) : bool :=
  match x with Vision => is_image part | Stt => is_audio part | _ => false end.
Definition message_adds (x : ModelCapability) (item : InputMessage) : bool :=
  match im_content item with Parts parts => existsb (part_adds x) parts | Text _ => false end.
Definition tool_adds (x : ModelCapability) (tool : ToolConfig) : bool :=
  match x, tool with WebSearch, ToolWebSearch _ _ => true | _, _ => false end.

Lemma detect_part_adds x l part : x ∈ detect_part l part <-> part_adds x part = true \/ x ∈ l.
Proof. destruct part; cbn; rewrite ?elem_of_add; destruct x; cbn; naive_solver. Qed.
Lemma detect_part_detected l part : detected l -> detected (detect_part l part).
Proof. destruct part; cbn; auto using detected_add. Qed.

Lemma detect_message_adds x l item : x ∈ detect_message l item <-> message_adds x item = true \/ x ∈ l.
Proof.
  unfold detect_message, message_adds. destruct (im_content item); [naive_solver|].
  apply fold_adds. intros. apply detect_part_adds.
Qed.
Lemma detect_message_detected l item : detected l -> detected (detect_message l item).
Proof. unfold detect_message. destruct (im_content item); [done|]. apply fold_detected, detect_part_detected. Qed.

Lemma detect_tool_adds x l tool : x ∈ detect_tool l tool <-> tool_adds x tool = true \/ x ∈ l.
Proof. destruct tool; cbn; rewrite ?elem_of_add; destruct x; cbn; naive_solver. Qed.
Lemma detect_tool_detected l tool : detected l -> detected (detect_tool l tool).
Proof. destruct tool; cbn; auto using detected_add. Qed.

Lemma existsb_ext {A} (f g : A -> bool) l : (forall x, f x = g x) -> existsb f l = existsb g l.
Proof. intros H. induction l as [|x l IH]; cbn; [done|]. by rewrite H, IH. Qed.

Lemma existsb_false {A} (l : list A) : existsb (fun _ => false) l = false.
Proof. by induction l. Qed.

Lemma detect_member x req :
  x ∈ detect_capability req <->
  existsb (tool_adds x) (default [] (tools req)) = true \/
  match req_input req with InputPlain _ => false | InputMessages items => existsb (message_adds x) items end = true \/
  x = Chat.
Proof.
  unfold detect_capability.
  rewrite (fold_adds detect_tool tool_adds) by apply detect_tool_adds.
  destruct (req_input req) as [s|items]; [rewrite list_elem_of_singleton; naive_solver|].
  rewrite (fold_adds detect_message message_adds) by apply detect_message_adds.
  by rewrite list_elem_of_singleton.
Qed.

Lemma detect_capability_detected req : detected (detect_capability req).
Proof.
  unfold detect_capability. apply fold_detected; [apply detect_tool_detected|].
  assert (detected [Chat]) by (split; [apply NoDup_singleton|done]).
  destruct (req_input req); [done|]. by apply fold_detected; [apply detect_message_detected|].
Qed.

(** *** Requests *)

Definition supported_part (part : ContentPart) : bool := negb (is_audio part || is_file part).
Definition supported_message (item : InputMessage) : bool :=
  match im_content item with Text _ => true | Parts parts => forallb supported_part parts end.
Definition supported (req : ResponsesRequest) : bool :=
  match req_input req with InputPlain _ => true | InputMessages items => forallb supported_message items end.

Lemma translate_part_ok part : is_ok (translate_content_part part) = supported_part part.
Proof. by destruct part. Qed.

Lemma forallb_ext' {A} (f g : A -> bool) l : (forall x, f x = g x) -> forallb f l = forallb g l.
Proof. intros H. induction l as [|x l IH]; cbn; [done|]. by rewrite H, IH. Qed.

Lemma translate_message_ok item : is_ok (translate_message item) = supported_message item.
Proof.
  unfold translate_message, translate_content, supported_message. destruct (im_content item) as [s|parts]; [done|].
  rewrite <- (forallb_ext' _ _ parts translate_part_ok), <- collect_is_ok.
  by destruct (collect translate_content_part parts).
Qed.

Lemma input_messages_ok req : is_ok (input_messages (req_input req)) = supported req.
Proof.
  unfold supported, input_messages. destruct (req_input req) as [s|items]; [done|].
  rewrite collect_is_ok. apply forallb_ext', translate_message_ok.
Qed.

Definition wf_part (part : ContentPart) : bool :=
  match part with
  | InputText text => wf_str text
  | InputImage url detail => wf_str url && match detail with Some d => wf_str d | None => true end
  | InputAudio _ _ | InputFile _ _ => true
  end.
Definition wf_option {A} (f : A -> bool) (o : option A) : bool := match o with Some a => f a | None => true end.
Definition wf_message (item : InputMessage) : bool :=
  wf_str (im_role item) && match im_content item with Text s => wf_str s | Parts parts => forallb wf_part parts end.
Definition wf_tool (tool : ToolConfig) : bool :=
  match tool with ToolFileSearch ids => forallb wf_str ids | ToolWebSearch _ _ => true end.

(** What deserialization gives: Unicode text, a [u32], a double. *)
Definition wf_request (req : ResponsesRequest) : bool :=
  match req_input req with InputPlain s => wf_str s | InputMessages items => forallb wf_message items end
  && wf_option wf_str (instructions req) && wf_option wf_str (developer_instructions req)
  && wf_option wf_str (req_model req)
  && wf_option (fun n => (0 <=? n) && (n <=? u32_max)) (max_output_tokens req)
  && wf_option (valid_binary 53 1024) (temperature req)
  && wf_option (forallb wf_tool) (tools req).

Ltac wf_fields := repeat first [apply wf_json; cbn [forallb fst snd]; repeat (apply andb_true_iff; split)
                               |apply wf_set_field|done].

Lemma wf_translate_part part v : wf_part part = true -> translate_content_part part = Ok v -> wf v = true.
Proof.
  destruct part as [text|url detail| |]; try done; cbn [translate_content_part wf_part]; intros Hp [= <-].
  - wf_fields.
  - apply andb_true_iff in Hp as [H1 H2]. destruct detail; wf_fields.
Qed.

Lemma wf_collect {A E} (f : A -> result value E) (p : A -> bool) l ys :
  (forall x y, p x = true -> f x = Ok y -> wf y = true) -> forallb p l = true ->
  collect f l = Ok ys -> forall y, y ∈ ys -> wf y = true.
Proof.
  intros Hf. revert ys. induction l as [|x l IH]; intros ys; cbn [forallb].
  - intros _ [= <-] y Hy. by apply not_elem_of_nil in Hy.
  - intros [Hx Hl]%andb_true_iff (y & Hy & (zs & Hz & [= <-])%and_then_Ok)%and_then_Ok z [->|Hin]%elem_of_cons.
    + by eapply Hf.
    + by eapply IH.
Qed.

Lemma wf_chat_message role content : wf_str role = true -> wf content = true -> wf (chat_message role content) = true.
Proof. intros. unfold chat_message. wf_fields. Qed.

Lemma wf_translate_message item v : wf_message item = true -> translate_message item = Ok v -> wf v = true.
Proof.
  unfold wf_message, translate_message. intros [Hr Hc]%andb_true_iff (c & Ht & [= <-])%and_then_Ok.
  apply wf_chat_message; [done|]. unfold translate_content in Ht. destruct (im_content item) as [s|parts].
  - by injection Ht as <-.
  - apply and_then_Ok in Ht as (l & Hl & [= <-]). apply wf_array.
    eapply wf_collect; [apply wf_translate_part|done|done].
Qed.

Lemma wf_query_parameters : wf query_parameters = true.
Proof. reflexivity. Qed.

Lemma wf_strings l : forallb wf_str l = true -> wf (VArray (VString <$> l)) = true.
Proof.
  intros H. apply wf_array. intros x (s & -> & Hs)%list_elem_of_fmap. cbn.
  rewrite forallb_forall in H. apply H. by apply list_elem_of_In.
Qed.

Lemma wf_translate_tool tool : wf_tool tool = true -> wf (translate_tool tool) = true.
Proof. destruct tool; cbn [wf_tool translate_tool]; intros H; wf_fields. by apply wf_strings. Qed.

Lemma wf_set_some {A} key (f : A -> value) (p : A -> bool) o v :
  wf_str (lit key) = true -> (forall a, p a = true -> wf (f a) = true) -> wf_option p o = true ->
  wf v = true -> wf (set_some key f o v) = true.
Proof. intros Hk Hf Ho Hv. destruct o; cbn in *; [apply wf_set_field; auto|done]. Qed.

Lemma wf_json_f64 f : valid_binary 53 1024 f = true -> wf (json_f64 f) = true.
Proof. unfold json_f64. intros H. destruct (is_finite f) eqn:E; [|done]. cbn. by rewrite E. Qed.

(** ** Theorems *)

(** *** The Chat Completions protocol

    What a provider reads in a request: the messages with their roles and
    contents, and the parameters by their names. *)

Definition protocol_fields : list str :=
  map lit ["messages"; "model"; "max_tokens"; "temperature"; "stream"; "tools"].

Definition read_optional_str (v : option value) : option (option str) :=
  match v with None => Some None | Some (VString s) => Some (Some s) | Some _ => None end.

Definition read_part (v : value) : option ContentPart :=
  kind ← get_str "type" v;
  if str_eqb kind (lit "text") then InputText <$> get_str "text" v
  else if str_eqb kind (lit "image_url") then
    image ← get "image_url" v; url ← get_str "url" image; detail ← read_optional_str (get "detail" image);
    Some (InputImage url detail)
  else None.

Definition read_content (v : value) : option Content :=
  match v with VString s => Some (Text s) | VArray l => Parts <$> mapM read_part l | _ => None end.

Definition read_message (v : value) : option InputMessage :=
  role ← get_str "role" v; content ← get "content" v ≫= read_content;
  Some {| im_role := role; im_content := content |}.

(** A function the model may call with one required string, the query. *)
Definition read_tool (v : value) : option (str * option (list str)) :=
  kind ← get_str "type" v; function ← get "function" v; name ← get_str "name" function;
  parameters ← get "parameters" function; shape ← get_str "type" parameters;
  required ← get_array "required" parameters;
  query ← (get "properties" parameters ≫= get "query") ≫= get_str "type";
  if str_eqb kind (lit "function") && str_eqb shape (lit "object") && str_eqb query (lit "string")
     && bool_decide (required = [vstr "query"])
  then Some (name, match get_array "vector_store_ids" function with Some l => Some (omap as_str l) | None => None end) else None.

(** What the request says, in these terms. *)
Definition said (role : string) (text : str) : InputMessage := {| im_role := lit role; im_content := Text text |}.
Definition messages_of (req : ResponsesRequest) : list InputMessage :=
  (said "system" <$> option_list (instructions req)) ++ (said "developer" <$> option_list (developer_instructions req)) ++
  match req_input req with InputPlain s => [said "user" s] | InputMessages items => items end.

Definition tool_meaning (tool : ToolConfig) : str * option (list str) :=
  match tool with
  | ToolWebSearch _ _ => (lit "web_search", None)
  | ToolFileSearch ids => (lit "file_search", Some ids)
  end.

Lemma read_translated_part part v : translate_content_part part = Ok v -> read_part v = Some part.
Proof. destruct part as [text|url [detail|]| |]; intros [= <-]; reflexivity. Qed.

Lemma read_translated_message item v : translate_message item = Ok v -> read_message v = Some item.
Proof.
  intros (c & Hc & [= <-])%and_then_Ok. destruct item as [role content]. cbn [im_role im_content] in *.
  assert (read_content c = Some content) as Hr.
  { destruct content as [s|parts]; [by injection Hc as <-|]. apply and_then_Ok in Hc as (l & Hl & [= <-]).
    apply collect_Ok in Hl. cbn. enough (mapM read_part l = Some parts) as -> by done. apply mapM_Some.
    revert Hl. clear. induction 1; constructor; [by apply read_translated_part|done]. }
  transitivity (content' ← read_content c; Some {| im_role := role; im_content := content' |}); [reflexivity|]. by rewrite Hr.
Qed.

Lemma read_said (role : string) o : mapM read_message (chat_message (lit role) ∘ VString <$> option_list o) = Some (said role <$> option_list o).
Proof. by destruct o. Qed.

Lemma read_messages req input :
  input_messages (req_input req) = Ok input ->
  mapM read_message ((chat_message (lit "system") ∘ VString <$> option_list (instructions req)) ++
    (chat_message (lit "developer") ∘ VString <$> option_list (developer_instructions req)) ++ input) = Some (messages_of req).
Proof.
  intros Hi. apply mapM_Some. unfold messages_of. apply Forall2_app; [apply mapM_Some, read_said|].
  apply Forall2_app; [apply mapM_Some, read_said|]. unfold input_messages in Hi.
  destruct (req_input req) as [s|items]; [injection Hi as <-; by constructor|].
  apply collect_Ok in Hi. clear -Hi. induction Hi; constructor; [by apply read_translated_message|done].
Qed.

Lemma read_tools l : mapM read_tool (translate_tool <$> l) = Some (tool_meaning <$> l).
Proof.
  apply mapM_Some. induction l as [|tool l IH]; constructor; [|done]. destruct tool as [q c|ids]; [reflexivity|].
  transitivity (Some (lit "file_search", Some (omap as_str (VString <$> ids)))); [reflexivity|]. cbn [tool_meaning]. do 3 f_equal.
  induction ids as [|x ids IHi]; [done|]. cbn. by rewrite IHi.
Qed.

Lemma translate_request_wf req v : wf_request req = true -> translate_request req = Ok v -> wf v = true.
Proof.
  unfold wf_request. rewrite !andb_true_iff. intros ((((((Hi & Hin) & Hd) & Hm) & Hn) & Ht) & Hto).
  unfold translate_request. intros (input & Hinput & [= <-])%and_then_Ok.
  assert (forall x, x ∈ input -> wf x = true) as Hwi.
  { unfold input_messages in Hinput. destruct (req_input req) as [s|items].
    - injection Hinput as <-. intros x Hx%list_elem_of_singleton. subst. by apply wf_chat_message.
    - eapply wf_collect; [apply wf_translate_message|done|done]. }
  assert (forall role o, wf_option wf_str o = true -> wf_str (lit role) = true ->
    forall x, x ∈ (chat_message (lit role) ∘ VString <$> option_list o) -> wf x = true) as Hone.
  { intros role o Ho Hr x (y & -> & Hy)%list_elem_of_fmap.
    destruct o as [s|]; cbn [option_list] in Hy; [|by apply not_elem_of_nil in Hy].
    apply list_elem_of_singleton in Hy as ->. by apply wf_chat_message. }
  apply wf_set_some with (p := forallb wf_tool); [done| | |].
  { intros l Hl. apply wf_array. intros x (y & -> & Hy)%list_elem_of_fmap. apply wf_translate_tool.
    rewrite forallb_forall in Hl. apply Hl. by apply list_elem_of_In. }
  { destruct (tools req) as [[|t l]|]; done. }
  match goal with |- context [if ?b then _ else _] => destruct b end; [apply wf_set_field; [done|done|]|];
    (apply wf_set_some with (p := valid_binary 53 1024); [done|apply wf_json_f64|done|]);
    (apply wf_set_some with (p := fun n => (0 <=? n) && (n <=? u32_max));
      [done|intros n Hn'; apply wf_u64; unfold u32_max in Hn'; lia|done|]);
    (apply wf_set_some with (p := wf_str); [done|done|done|]);
    apply wf_json; cbn [forallb fst snd]; rewrite andb_true_r; apply wf_array;
    (intros x [Hx|[Hx|Hx]%elem_of_app]%elem_of_app;
      [by apply (Hone "system" (instructions req))|by apply (Hone "developer" (developer_instructions req))|by apply Hwi]).
Qed.


(** C33: What leaves for the provider is a request of the Chat Completions protocol
    that says what the client said.  Every request that deserialization can
    produce, and that translates, gives well-formed JSON (numbers in range,
    Unicode text, objects with ordered keys) with no other fields than the
    protocol's.  Read by the protocol, its [messages] are the instructions under
    the role [system], the developer's under [developer], then the input with its
    roles, texts and images in order; [model], [max_tokens], [temperature] and
    [stream] carry the parameters that were given, and [tools] the functions for
    the tools, absent when there are none. *)
Theorem translate_request_typed req v :
  wf_request req = true -> translate_request req = Ok v ->
  wf v = true /\
  (exists fields, v = VObject fields /\ forallb (fun kv => existsb (str_eqb (fst kv)) protocol_fields) fields = true) /\
  (exists msgs, get_array "messages" v = Some msgs /\ mapM read_message msgs = Some (messages_of req)) /\
  get "model" v = VString <$> req_model req /\ get "max_tokens" v = vnat <$> max_output_tokens req /\
  get "temperature" v = json_f64 <$> temperature req /\
  get "stream" v = (if bool_decide (stream req = Some true) then Some (VBool true) else None) /\
  match get "tools" v with
  | None => default [] (tools req) = []
  | Some l => exists items, l = VArray items /\ items <> [] /\ mapM read_tool items = Some (tool_meaning <$> default [] (tools req))
  end.
Proof.
  intros Hwf Hv. split; [by eapply translate_request_wf|]. clear Hwf.
  unfold translate_request in Hv. apply and_then_Ok in Hv as (input & Hi & [= <-]). apply read_messages in Hi.
  set (msgs := _ ++ _) in *. clearbody msgs.
  destruct req as [model inp ins dev max temp strm tls sto prev meta].
  cbn [req_model req_input instructions developer_instructions max_output_tokens temperature stream tools] in *.
  assert (forall l : list ToolConfig, l <> [] -> exists items, VArray (translate_tool <$> l) = VArray items /\ items <> [] /\
            mapM read_tool items = Some (tool_meaning <$> l)) as Htools.
  { intros l Hl. eexists. split; [done|]. split; [by destruct l|apply read_tools]. }
  generalize dependent (messages_of {| req_model := model; req_input := inp; instructions := ins; developer_instructions := dev;
    max_output_tokens := max; temperature := temp; stream := strm; tools := tls; store := sto; previous_response_id := prev;
    metadata := meta |}). intros meaning Hi.
  assert (exists o, (l ← tls; if is_empty l then None else Some l) = o /\
    match o with None => default [] tls = [] | Some l => l <> [] /\ default [] tls = l end) as (o & -> & Ho).
  { eexists. split; [reflexivity|]. by destruct tls as [[|t l]|]. }
  destruct o as [l|], model, max, temp, strm as [[]|];
    (split; [eexists; split; [reflexivity|reflexivity]|]); (split; [exists msgs; split; [reflexivity|done]|]);
    split_and!; try reflexivity; try exact Ho; destruct Ho as [Hl ->]; by apply Htools.
Qed.

Definition demo_request : ResponsesRequest := {|
  req_model := Some (lit "gpt"); instructions := Some (lit "Be brief."); developer_instructions := None;
  req_input := InputMessages [
    {| im_role := lit "user"; im_content := Parts [InputText (lit "What is this?");
                                                   InputImage (lit "data:image/png;base64,AAAA") (Some (lit "low"))] |}];
  max_output_tokens := Some 100; temperature := Some f64_one; stream := Some true; tools := Some [];
  store := None; previous_response_id := None; metadata := None |}.

Definition demo_body : value := match translate_request demo_request with Ok v => v | Err _ => VNull end.

Lemma translate_request_typed_witness :
  wf_request demo_request = true /\ wf demo_body = true /\
  (exists msgs, get_array "messages" demo_body = Some msgs /\ mapM read_message msgs = Some (messages_of demo_request)) /\
  hd_error (messages_of demo_request) = Some (said "system" (lit "Be brief.")) /\
  get "max_tokens" demo_body = Some (vnat 100).
Proof.
  split; [vm_compute; reflexivity|].
  destruct (translate_request_typed demo_request demo_body) as (Hw & _ & Hm & _ & Hx & _);
    [vm_compute; reflexivity|vm_compute; reflexivity|].
  split; [exact Hw|]. split; [exact Hm|]. split; [reflexivity|exact Hx].
Defined.

(** What a reader of the conversation sees: roles, and plain texts. *)
Definition message_view (v : value) : option str * option str := (get_str "role" v, get_str "content" v).
Definition item_view (item : InputMessage) : option str * option str :=
  (Some (im_role item), as_text (im_content item)).
Definition conversation (req : ResponsesRequest) : list (option str * option str) :=
  map (fun s => (Some (lit "system"), Some s)) (option_list (instructions req)) ++
  map (fun s => (Some (lit "developer"), Some s)) (option_list (developer_instructions req)) ++
  match req_input req with
  | InputPlain s => [(Some (lit "user"), Some s)]
  | InputMessages items => map item_view items
  end.

Lemma view_chat_message role content : message_view (chat_message role content) = (Some role, as_str content).
Proof. reflexivity. Qed.

Lemma view_translated item v : translate_message item = Ok v -> message_view v = item_view item.
Proof.
  intros (c & Hc & [= <-])%and_then_Ok. rewrite view_chat_message. unfold item_view. f_equal.
  unfold translate_content in Hc. destruct (im_content item); [by injection Hc as <-|].
  by apply and_then_Ok in Hc as (l & _ & [= <-]).
Qed.

Lemma map_chat_messages role l :
  map message_view (chat_message role ∘ VString <$> l) = map (fun s => (Some role, Some s)) l.
Proof. induction l as [|s l IH]; [done|]. cbn [fmap list_fmap map]. by rewrite IH. Qed.

Lemma get_set_some_ne {A} key key' (f : A -> value) o v :
  String.eqb key' key = false -> get key (set_some key' f o v) = get key v.
Proof.
  intros H. destruct o as [a|]; [|done]. destruct v as [| | | | |fields]; try done.
  cbn [set_some]. by rewrite get_set_field, H.
Qed.

Lemma get_set_field_ne key key' x v : String.eqb key' key = false -> get key (set_field key' x v) = get key v.
Proof. intros H. destruct v as [| | | | |fields]; try done. by rewrite get_set_field, H. Qed.

(** A request is refused exactly when it carries an audio or a file
    part; otherwise the body for the provider holds the instructions, the
    developer's instructions and every message of the input, in this order,
    with their roles and texts. *)
Theorem translate_request_exact req :
  is_ok (translate_request req) = negb (has_part (fun part => is_audio part || is_file part) req) /\
  forall v, translate_request req = Ok v ->
    exists msgs, get_array "messages" v = Some msgs /\ map message_view msgs = conversation req.
Proof.
  split.
  - assert (supported req = negb (has_part (fun part => is_audio part || is_file part) req)) as <-.
    { unfold supported, has_part. destruct (req_input req) as [s|items]; [done|].
      induction items as [|item items IH]; cbn [forallb existsb]; [done|]. rewrite IH, negb_orb. f_equal.
      unfold supported_message. destruct (im_content item) as [s|parts]; [done|].
      induction parts as [|part parts IHp]; cbn [forallb existsb]; [done|]. by rewrite IHp, negb_orb. }
    rewrite <- input_messages_ok. unfold translate_request. by destruct (input_messages (req_input req)).
  - intros v (input & Hi & [= <-])%and_then_Ok. eexists. split.
    { unfold get_array. rewrite get_set_some_ne by done.
      match goal with |- context [if ?b then _ else _] => destruct b end; rewrite ?get_set_field_ne by done;
        rewrite !get_set_some_ne by done; reflexivity. }
    rewrite !map_app, !map_chat_messages. unfold conversation. do 2 f_equal.
    unfold input_messages in Hi. destruct (req_input req) as [s|items]; [by injection Hi as <-|].
    apply collect_Ok in Hi. induction Hi as [|item m items ms Hm _ IH]; [done|].
    cbn [map]. by rewrite IH, (view_translated _ _ Hm).
Qed.

Lemma translate_request_exact_witness :
  exists msgs, get_array "messages" demo_body = Some msgs /\ map message_view msgs = conversation demo_request.
Proof.
  refine (proj2 (translate_request_exact demo_request) demo_body _). vm_compute. reflexivity.
Defined.

(** An embedding batch is all or nothing.  A refused batch is untouched;
    an accepted one has the requested number of vectors, all of one dimension
    (the requested one if any), every number finite as [f32], and indices that
    are exactly 0, 1, .. in some order. *)
Theorem embedding_batch_is_exact {B : Base64Text} items c ok items' :
  normalize_embedding_batch items c = (ok, items') ->
  (ok = false -> items' = items) /\
  (ok = true ->
    Z.of_nat (length items') = expected_count c /\
    exists d, 0 < d /\ (forall e, expected_dimensions c = Some e -> e = d) /\
      Forall (fun item' => vector_of d item' /\ get "dimensions" item' = Some (vnat d)) items' /\
      exists indices, imap item_index items = Some <$> indices /\ indices ≡ₚ seqZ 0 (expected_count c)).
Proof.
  unfold normalize_embedding_batch. intros H.
  destruct (_ || _) eqn:E; [by injection H as <- <-|]. bool_to_prop.
  destruct (read_items c None 0 items) as [[e read]|] eqn:Er; [|by injection H as <- <-].
  destruct (negb (contiguous (fst <$> read))) eqn:Ec; injection H as <- <-; [done|].
  split; [done|]. intros _. apply negb_false_iff in Ec.
  assert (Z.of_nat (length items) = expected_count c /\ expected_count c <> 0) as [Hn Hn0] by lia.
  assert (items <> []) as Hne by (intros ->; by apply Hn0).
  pose proof (read_items_length _ _ _ _ _ _ Er) as Hl.
  destruct (read_items_spec c None 0 items e read Er Hne) as (d & -> & Hd & _ & Hc & Hf & Hi).
  cbn [default]. split; [rewrite length_zip_with, length_fmap; lia|].
  exists d. split; [done|]. split; [exact Hc|]. split; [done|].
  exists (fst <$> read). split.
  - rewrite <- list_fmap_compose. exact Hi.
  - apply contiguous_perm in Ec. rewrite length_fmap, Hl in Ec. rewrite Ec. f_equiv. lia.
Qed.

Section WitnessEmbedding.
#[local] Instance small_base64_text : Base64Text.
Proof. by refine {| standard_decode s := Some s; standard_encode b := b; urlsafe_decode s := Some s |}. Defined.
Let contract := {| expected_count := 2; expected_dimensions := Some 1 |}.
(* 1.0 as little-endian bytes, and the number 2; the indices are swapped. *)
Let batch := [json [("embedding", VString [0; 0; 128; 63]%N); ("index", vnat 1)];
              json [("embedding", VArray [vnat 2]); ("index", vnat 0)]].
Let normalized := snd (normalize_embedding_batch batch contract).

Lemma embedding_batch_is_exact_witness :
  fst (normalize_embedding_batch batch contract) = true /\ Z.of_nat (length normalized) = 2.
Proof.
  split; [vm_compute; reflexivity|].
  refine (proj1 (proj2 (embedding_batch_is_exact batch contract true normalized _) eq_refl)).
  vm_compute. reflexivity.
Defined.
End WitnessEmbedding.

(** The capabilities of a request are detected without duplicates, chat
    first; vision is asked for exactly with an image part, transcription exactly
    with an audio part, web search exactly with its tool; nothing else is. *)
Theorem detect_capability_exact req :
  NoDup (detect_capability req) /\ head (detect_capability req) = Some Chat /\
  (Vision ∈ detect_capability req <-> has_part is_image req = true) /\
  (Stt ∈ detect_capability req <-> has_part is_audio req = true) /\
  (WebSearch ∈ detect_capability req <-> wants_web_search req = true) /\
  (Tts ∉ detect_capability req) /\ (Embedding ∉ detect_capability req).
Proof.
  destruct (detect_capability_detected req) as [Hd Hh]. split; [done|]. split; [done|].
  assert (forall x, x <> WebSearch -> existsb (tool_adds x) (default [] (tools req)) = false) as Htool.
  { intros x Hx. rewrite (existsb_ext _ (fun _ => false)); [apply existsb_false|]. intros []; by destruct x. }
  assert (forall x, match req_input req with InputPlain _ => false | InputMessages items => existsb (message_adds x) items end
            = has_part (part_adds x) req) as Hpart by (intros x; unfold has_part, message_adds; by destruct (req_input req)).
  assert (forall x f, x <> WebSearch -> x <> Chat -> part_adds x = f ->
            x ∈ detect_capability req <-> has_part f req = true) as Hone.
  { intros x f H1 H2 <-. rewrite detect_member, Htool, Hpart by done. naive_solver. }
  assert (has_part (fun _ => false) req = false) as Hnone.
  { unfold has_part. destruct (req_input req); [done|].
    rewrite (existsb_ext _ (fun _ => false)); [apply existsb_false|]. intros item.
    destruct (im_content item); [done|apply existsb_false]. }
  split; [by apply Hone|]. split; [by apply Hone|]. split.
  - rewrite detect_member, Hpart.
    change (wants_web_search req) with (existsb (tool_adds WebSearch) (default [] (tools req))).
    change (part_adds WebSearch) with (fun _ : ContentPart => false). rewrite Hnone.
    naive_solver.
  - split; [rewrite (Hone Tts (fun _ => false)) by done|rewrite (Hone Embedding (fun _ => false)) by done];
      by rewrite Hnone.
Qed.

(** *** Answers *)

Lemma first_choice_anthropic now response :
  let chat := anthropic_response_to_chat_completions now response in
  exists choice message, first_choice chat = Some choice /\ get "message" choice = Some message /\
    get_str "role" message = Some (default (lit "assistant") (get_str "role" response)) /\
    get_str "content" message = Some (anthropic_text response) /\ get_str "refusal" message = None /\
    (exists fields, message = VObject fields) /\
    get_str "finish_reason" choice = Some (lit (finish_reason_of (get_str "stop_reason" response))).
Proof. do 2 eexists. repeat (split; [reflexivity|]). split; [by eexists|reflexivity]. Qed.

(** The text of an answer, as the client of the Responses API reads it. *)
Definition response_text (r : ResponsesResponse) : str :=
  concat (map (fun item => concat (map (fun c => match c with OutputText s => s | Refusal _ => [] end)
                                       (out_content item))) (resp_output r)).

(** An answer of an Anthropic channel survives both translations.  It
    passes the validity check exactly when its author is the assistant; then the
    client reads the text blocks, concatenated in order, with status
    [incomplete] exactly when the provider ran out of tokens, and no error. *)
Theorem anthropic_answer_survives now now' response_id msg_id response model :
  let chat := anthropic_response_to_chat_completions now response in
  let answer := translate_response now' response_id msg_id chat model in
  (is_valid_chat_completions_response chat = true <->
     get_str "role" response = None \/ get_str "role" response = Some (lit "assistant")) /\
  response_text answer = anthropic_text response /\
  resp_error answer = None /\
  (resp_status answer = lit "incomplete" <-> get_str "stop_reason" response = Some (lit "max_tokens")) /\
  (resp_status answer = lit "completed" <-> get_str "stop_reason" response <> Some (lit "max_tokens")).
Proof.
  intros chat answer.
  destruct (first_choice_anthropic now response) as (choice & message & E1 & E2 & E3 & E4 & E5 & [fields ->] & E6).
  fold chat in E1. split.
  { unfold is_valid_chat_completions_response. rewrite E1, E2, E3, E4. rewrite andb_true_r, bool_decide_eq_true.
    destruct (get_str "role" response); cbn; naive_solver. }
  unfold answer, translate_response, extract_choice_info. rewrite E1. cbn [from_option]. unfold Datatypes.id. rewrite E2.
  cbn [from_option]. rewrite E3, E4, E5, E6. cbn [from_option mbind option_bind].
  set (stop := get_str "stop_reason" response). split.
  { unfold response_text. cbn. destruct (anthropic_text response) eqn:E; cbn; [done|]. by rewrite !app_nil_r. }
  unfold finish_reason_of. cbn [resp_error resp_status].
  destruct stop as [r|]; [|split; [done|]; split; split; done].
  destruct (str_eqb r (lit "end_turn") || str_eqb r (lit "stop_sequence")) eqn:Es.
  { assert (r <> lit "max_tokens") by (intros ->; discriminate Es).
    split; [done|]. split; split; intros; first [done|congruence]. }
  destruct (str_eqb r (lit "max_tokens")) eqn:Em.
  { bool_to_prop. subst. split; [done|]. split; split; intros; first [done|congruence]. }
  assert (r <> lit "max_tokens") by by bool_to_prop.
  destruct (str_eqb r (lit "tool_use")); (split; [done|]); split; split; intros; first [done|congruence].
Qed.
