(* ===== verification/Dispatch.v ===== *)
(** * Where a request goes ([server/src/services/dispatch.rs])

    The upstream URL and the form of the request, by capability and protocol. *)

From S2P Require Import Prelude Utf8 Sse Channels JsonValue Responses.

Open Scope string_scope.
Open Scope list_scope.
Open Scope Z_scope.

Definition trim_start_matches (c : char) (s : str) : str := drop_while (N.eqb c) s.

Definition endpoints : list str :=
  [lit "/v1/chat/completions"; lit "/v1/messages"; lit "/v1/embeddings"; lit "/v1/audio/transcriptions";
   lit "/v1/audio/speech"].

(** The first endpoint that the path ends with is taken off. *)
Fixpoint strip_endpoint (known : list str) (base : str) : str :=
  match known with
  | [] => base
  | endpoint :: known => match strip_suffix endpoint base with
                         | Some root => root
                         | None => strip_endpoint known base
                         end
  end.

(** The path of the request. *)
Definition api_path (path suffix : str) : str :=
  let base := trim_end_matches slash path in
  let suffix := slash :: trim_start_matches slash suffix in
  let base := strip_endpoint endpoints base in
  let version := strip_prefix [slash] suffix ≫= (fun s => head (split_on slash s)) in
  match version with
  | Some version =>
      let version := slash :: version in
      match strip_prefix version suffix with
      | Some rest => if ends_with version base && starts_with [slash] rest then base ++ rest else base ++ suffix
      | None => base ++ suffix
      end
  | None => base ++ suffix
  end.

Section Dispatch.
Context {U : UrlLibrary} {B : Base64Text}.

(** [f64::to_string]. *)
Context (show_f64 : f64 -> str).

Definition join_api_path (base_url suffix : str) : result str GatewayError :=
  match url_parse base_url with
  | None => Err (InvalidInput (lit "base_url must be a valid http(s) URL"))
  | Some url =>
      if negb (plain_http_url url) then
        Err (InvalidInput (lit "base_url must be a valid http(s) URL without credentials"))
      else
        let url := set_fragment_none url in
        Ok (url_to_string (set_path (api_path (url_path url) suffix) url))
  end.

Inductive DispatchAction :=
| JsonPost (url : str) (body : value)
| TtsBinary (url : str) (body : value)
| SttMultipart (url : str) (audio_bytes : bytes) (filename model : str) (form_fields : list (str * str)).

(** The fields of the transcription form, in their order; a wrong type ends it. *)
Fixpoint form_texts (fields : list string) (body : value) : result (list (str * str)) GatewayError :=
  match fields with
  | [] => Ok []
  | field :: fields =>
      match get field body with
      | None => form_texts fields body
      | Some (VString s) => and_then (form_texts fields body) (fun rest => Ok ((lit field, s) :: rest))
      | Some _ => Err (InvalidInput (lit "STT " ++ lit field ++ lit " must be a string"))
      end
  end.

Definition form_temperature (body : value) : result (list (str * str)) GatewayError :=
  match get "temperature" body with
  | None => Ok []
  | Some v => match as_f64 v with
              | Some f => Ok [(lit "temperature", show_f64 f)]
              | None => Err (InvalidInput (lit "STT temperature must be a number"))
              end
  end.

Definition in_unit_interval (v : value) : bool :=
  match as_f64 v with Some f => between f64_zero f64_one f | None => false end.

Definition decode_audio (raw : str) : option bytes :=
  match urlsafe_decode raw with Some b => Some b | None => standard_decode raw end.

Definition dispatch_stt (base_url : str) (body : value) : result DispatchAction GatewayError :=
  match get_str "file" body with
  | None => Err (InvalidInput (lit "STT request must include a 'file' field with audio data"))
  | Some raw =>
      match decode_audio raw with
      | None => Err (InvalidInput (lit "STT file field must be valid base64-encoded audio data"))
      | Some audio =>
          and_then (form_texts ["language"; "prompt"; "response_format"] body) (fun texts =>
          and_then (form_temperature body) (fun number =>
          and_then (join_api_path base_url (lit "/v1/audio/transcriptions")) (fun url =>
            Ok (SttMultipart url audio (default (lit "audio.wav") (get_str "filename" body))
                  (default (lit "whisper-1") (get_str "model" body)) (texts ++ number)))))
      end
  end.

Definition dispatch_chat (protocol_type base_url : str) (body : value) : result DispatchAction GatewayError :=
  if str_eqb protocol_type (lit "openai") then
    and_then (join_api_path base_url (lit "/v1/chat/completions")) (fun url => Ok (JsonPost url body))
  else if str_eqb protocol_type (lit "anthropic") then
    if match get "temperature" body with Some t => negb (in_unit_interval t) | None => false end
    then Err (InvalidInput (lit "Anthropic temperature must be between 0 and 1"))
    else and_then (join_api_path base_url (lit "/v1/messages")) (fun url => Ok (JsonPost url body))
  else Err (InvalidInput (lit "Unsupported protocol type for Chat/Vision: " ++ protocol_type)).

Definition dispatch_proxy (capability : ModelCapability) (protocol_type base_url : str) (body : value) :
    result DispatchAction GatewayError :=
  let openai := str_eqb protocol_type (lit "openai") in
  match capability with
  | Chat | Vision | WebSearch => dispatch_chat protocol_type base_url body
  | Embedding =>
      if openai then and_then (join_api_path base_url (lit "/v1/embeddings")) (fun url => Ok (JsonPost url body))
      else Err (InvalidInput (lit "Embedding only supports OpenAI protocol (got: " ++ protocol_type ++ lit ")"))
  | Stt =>
      if openai then dispatch_stt base_url body
      else Err (InvalidInput (lit "STT only supports OpenAI protocol (got: " ++ protocol_type ++ lit ")"))
  | Tts =>
      if openai then and_then (join_api_path base_url (lit "/v1/audio/speech")) (fun url => Ok (TtsBinary url body))
      else Err (InvalidInput (lit "TTS only supports OpenAI protocol (got: " ++ protocol_type ++ lit ")"))
  end.
End Dispatch.

Definition extract_model (body : value) : option str := get_str "model" body.

(** ** Spellings of a base URL *)

Lemma ends_with_app (s p q : str) :
  (length p <= length q)%nat -> ends_with p (s ++ q) = ends_with p q.
Proof. intros H. unfold ends_with. rewrite reverse_app. apply starts_with_app_long. rewrite !length_reverse. lia. Qed.

(** A path that is neither an endpoint nor a version, without a final slash. *)
Definition plain_root (root : str) : Prop :=
  trim_end_matches slash root = root /\ ends_with (lit "/v1") root = false /\
  Forall (fun e => ends_with e root = false) endpoints.

Definition spellings (root : str) : list str := root :: (root ++ lit "/v1") :: map (fun e => root ++ e) endpoints.

Lemma trim_end_slashes s k : trim_end_matches slash (s ++ replicate k slash) = trim_end_matches slash s.
Proof.
  unfold trim_end_matches. rewrite reverse_app, reverse_replicate. f_equal.
  induction k as [|k IH]; [done|]. cbn. exact IH.
Qed.

Lemma trim_end_app (s p : str) : trim_end_matches slash p = p -> p <> [] -> trim_end_matches slash (s ++ p) = s ++ p.
Proof.
  unfold trim_end_matches. intros H Hp. rewrite reverse_app.
  assert (forall a b, drop_while (N.eqb slash) a <> [] -> drop_while (N.eqb slash) (a ++ b) = drop_while (N.eqb slash) a ++ b) as Hd.
  { intros a b. induction a as [|x a IH]; cbn; [done|]. destruct (slash =? x)%N; auto. }
  rewrite Hd.
  - by rewrite reverse_app, reverse_involutive, H.
  - intros E. rewrite E in H. by subst.
Qed.

Lemma strip_endpoint_none known base :
  Forall (fun e => ends_with e base = false) known -> strip_endpoint known base = base.
Proof. induction 1 as [|e known He _ IH]; cbn; [done|]. unfold strip_suffix. by rewrite He. Qed.

Lemma api_path_base path suffix :
  suffix ∈ endpoints ->
  let base := strip_endpoint endpoints (trim_end_matches slash path) in
  api_path path suffix =
  if ends_with (lit "/v1") base then base ++ drop 3 suffix else base ++ suffix.
Proof.
  intros Hs base. unfold api_path. fold base. clearbody base. unfold endpoints in Hs.
  rewrite !elem_of_cons, elem_of_nil in Hs.
  destruct Hs as [->|[->|[->|[->|[->|[]]]]]]; vm_compute (strip_prefix _ _); cbn [mbind option_bind];
    vm_compute (head _); vm_compute (strip_prefix _ _); cbn [starts_with andb];
    by rewrite andb_true_r.
Qed.

Lemma strip_suffix_other p e root :
  (forall r, starts_with (reverse p) (reverse e ++ r) = false) -> strip_suffix p (root ++ e) = None.
Proof. intros H. unfold strip_suffix, ends_with. by rewrite reverse_app, H. Qed.

Lemma stripped_endpoint root e : e ∈ endpoints -> strip_endpoint endpoints (root ++ e) = root.
Proof.
  unfold endpoints. rewrite !elem_of_cons, elem_of_nil.
  intros [->|[->|[->|[->|[->|[]]]]]]; cbn [strip_endpoint];
    repeat first [rewrite strip_suffix_app; reflexivity
                 |rewrite strip_suffix_other by (intros r; vm_compute; reflexivity)].
Qed.

Lemma ends_with_endpoint root e : e ∈ endpoints -> ends_with (lit "/v1") (root ++ e) = false.
Proof.
  unfold endpoints, ends_with. rewrite !elem_of_cons, elem_of_nil, reverse_app.
  generalize (reverse root). intros r [->|[->|[->|[->|[->|[]]]]]]; vm_compute; reflexivity.
Qed.

Lemma endpoint_shape e : e ∈ endpoints -> e = lit "/v1" ++ drop 3 e.
Proof. unfold endpoints. rewrite !elem_of_cons, elem_of_nil. by intros [->|[->|[->|[->|[->|[]]]]]]. Qed.

Lemma endpoint_trimmed e : e ∈ endpoints -> trim_end_matches slash e = e /\ e <> [].
Proof. unfold endpoints. rewrite !elem_of_cons, elem_of_nil. by intros [->|[->|[->|[->|[->|[]]]]]]. Qed.

(** ** Theorems *)

(** However an operator spells the base URL of a channel (the root, the
    root with the version, or any full endpoint copied from a provider's pages,
    with any number of final slashes), a request goes to the same path: the root
    followed by the endpoint of its capability. *)
Theorem base_url_spellings_agree root base slashes suffix :
  plain_root root -> base ∈ spellings root -> suffix ∈ endpoints ->
  api_path (base ++ replicate slashes slash) suffix = root ++ suffix.
Proof.
  intros (Ht & Hv & He) Hb Hs. rewrite api_path_base, trim_end_slashes by done.
  unfold spellings in Hb. apply elem_of_cons in Hb as [->|[->|(e & <- & Hin)%list_elem_of_In%in_map_iff]%elem_of_cons].
  - by rewrite Ht, strip_endpoint_none, Hv.
  - assert (Forall (fun e => ends_with e (root ++ lit "/v1") = false) endpoints) as Hno.
    { unfold ends_with. rewrite reverse_app. generalize (reverse root). intros r. repeat constructor. }
    rewrite trim_end_app by done. rewrite strip_endpoint_none by done.
    rewrite ends_with_app by done. cbn [ends_with]. rewrite <- app_assoc, <- endpoint_shape by done. done.
  - apply list_elem_of_In in Hin. destruct (endpoint_trimmed e Hin). 
    rewrite trim_end_app, stripped_endpoint by done. by rewrite Hv.
Qed.

Lemma base_url_spellings_agree_witness :
  plain_root (lit "/api") /\
  api_path (lit "/api/v1/messages//") (lit "/v1/embeddings") = lit "/api/v1/embeddings".
Proof.
  assert (plain_root (lit "/api")) as H by (repeat split; repeat constructor).
  split; [exact H|].
  refine (base_url_spellings_agree (lit "/api") (lit "/api/v1/messages") 2 (lit "/v1/embeddings") H _ _).
  - do 3 apply list_elem_of_further. apply list_elem_of_here.
  - do 2 apply list_elem_of_further. apply list_elem_of_here.
Defined.
