(* ===== verification/Metering.v ===== *)
(** * Token metering ([server/src/services/metering.rs])

    A row per billed request, its counters read from the provider's answer, and
    the filtered, paged and aggregated views of the table. *)

From S2P Require Import Prelude Utf8 Sse Channels JsonValue Responses.

Open Scope string_scope.
Open Scope list_scope.
Open Scope Z_scope.

(** A row of [token_usage]. *)
Record TokenUsage := {
  row_id : Z; row_user_id : Z; row_tenant_id : str; row_channel_id : str; row_model : str;
  prompt_tokens : Z; completion_tokens : Z; row_total_tokens : Z; request_type : str; row_created_at : Z
}.

(** [u64::saturating_add]. *)
Definition or_field (usage : value) (first second : string) : Z :=
  match get_u64 first usage with Some n => n | None => default 0 (get_u64 second usage) end.

(** Both spellings of the counters. *)
Definition extract_usage (response : value) : Z * Z * Z :=
  match get "usage" response with
  | None => (0, 0, 0)
  | Some usage =>
      let prompt := or_field usage "prompt_tokens" "input_tokens" in
      let completion := or_field usage "completion_tokens" "output_tokens" in
      (prompt, completion, default (saturating_add prompt completion) (get_u64 "total_tokens" usage))
  end.

(** [record_usage]: [insert] is the database's answer to the insertion, [None]
    when it failed; [new_id] comes from the generator. *)
Definition record_usage (now new_id : Z) (stored : bool) (user_id : Z) (tenant_id channel_id model request_type : str)
    (response : value) (rows : list TokenUsage) : option TokenUsage * list TokenUsage :=
  match get "usage" response with
  | None =>
      (Some {| row_id := 0; row_user_id := user_id; row_tenant_id := tenant_id; row_channel_id := channel_id;
               row_model := lit "unknown"; prompt_tokens := 0; completion_tokens := 0; row_total_tokens := 0;
               request_type := request_type; row_created_at := now |}, rows)
  | Some _ =>
      let '(prompt, completion, total) := extract_usage response in
      let model := if is_empty model then default (lit "unknown") (get_str "model" response) else model in
      let row := {| row_id := new_id; row_user_id := user_id; row_tenant_id := tenant_id;
                    row_channel_id := channel_id; row_model := model;
                    prompt_tokens := i64_of_u64 prompt; completion_tokens := i64_of_u64 completion;
                    row_total_tokens := i64_of_u64 total; request_type := request_type; row_created_at := now |} in
      if stored then (Some row, row :: rows) else (None, rows)
  end.

(** ** Queries *)

Record ListUsageParams := {
  page : Z; per_page : Z;
  p_tenant_id : option str; p_user_id : option Z; p_channel_id : option str;
  p_model : option str; p_request_type : option str; date_from : option Z; date_to : option Z
}.

Definition filled (o : option str) : option str := o ≫= nonempty.

Definition passes {A} (o : option A) (f : A -> bool) : bool := match o with Some a => f a | None => true end.

(** The filters of [list_usage]. *)
Definition selected (p : ListUsageParams) (r : TokenUsage) : bool :=
  passes (p_tenant_id p) (fun v => str_eqb (row_tenant_id r) v)
  && passes (p_user_id p) (fun v => row_user_id r =? v)
  && passes (p_channel_id p) (fun v => str_eqb (row_channel_id r) v)
  && match p_model p with Some v => is_empty v || str_eqb (row_model r) v | None => true end
  && match p_request_type p with Some v => is_empty v || str_eqb (request_type r) v | None => true end
  && passes (date_from p) (fun v => v <=? row_created_at r)
  && passes (date_to p) (fun v => row_created_at r <=? v).

Definition clamp (lo hi z : Z) : Z := Z.max lo (Z.min hi z).

Record PaginatedResponse := {
  items : list TokenUsage; total : Z; out_page : Z; out_per_page : Z; total_pages : Z
}.

(** [ordered]: the table, newest first, as the database answers. *)
Definition list_usage (ordered : list TokenUsage) (p : ListUsageParams) : PaginatedResponse :=
  let per := clamp 1 100 (per_page p) in
  let pg := clamp 1 1000000 (page p) in
  let rows := List.filter (selected p) ordered in
  let total := Z.of_nat (length rows) in
  {| items := take (Z.to_nat per) (drop (Z.to_nat ((pg - 1) * per)) rows);
     total := total; out_page := pg; out_per_page := per; total_pages := (total + per - 1) / per |}.

Definition get_user_usage (ordered : list TokenUsage) (user_id limit : Z) : list TokenUsage :=
  take (Z.to_nat limit) (List.filter (fun r => row_user_id r =? user_id) ordered).
Definition get_tenant_usage (ordered : list TokenUsage) (tenant_id : str) (limit : Z) : list TokenUsage :=
  take (Z.to_nat limit) (List.filter (fun r => str_eqb (row_tenant_id r) tenant_id) ordered).
Definition get_channel_usage (ordered : list TokenUsage) (channel_id : str) (limit : Z) : list TokenUsage :=
  take (Z.to_nat limit) (List.filter (fun r => str_eqb (row_channel_id r) channel_id) ordered).

(** *** The raw SQL of the statistics *)

Inductive sql_value := SqlText (s : str) | SqlInt (n : Z) | SqlUuid (s : str) | SqlTime (t : Z).

(** One condition: column, operator, value; the placeholder is its number. *)
Definition push (o : option (string * string * sql_value)) (acc : list str * list sql_value) :
    list str * list sql_value :=
  match o with
  | None => acc
  | Some (column, op, v) =>
      let '(conds, values) := acc in
      (conds ++ [lit column ++ [space] ++ lit op ++ [space] ++ lit "$" ++ show_nat (S (length values))],
       values ++ [v])
  end.

Definition condition {A} (column op : string) (f : A -> sql_value) (o : option A) : option (string * string * sql_value) :=
  (fun a => (column, op, f a)) <$> o.

Definition conditions (p : ListUsageParams) : list (option (string * string * sql_value)) :=
  [condition "tenant_id" "=" SqlText (p_tenant_id p);
   condition "user_id" "=" SqlInt (p_user_id p);
   condition "channel_id" "=" SqlUuid (p_channel_id p);
   condition "model" "=" SqlText (filled (p_model p));
   condition "request_type" "=" SqlText (filled (p_request_type p));
   condition "created_at" ">=" SqlTime (date_from p);
   condition "created_at" "<=" SqlTime (date_to p)].

Definition build_stats_where_clause (p : ListUsageParams) : str * list sql_value :=
  let '(conds, values) := fold_left (fun acc o => push o acc) (conditions p) ([], []) in
  (if is_empty conds then [] else lit "WHERE " ++ join (lit " AND ") conds, values).

(** ** What the clause means

    The columns and operators of the clause over a row, with the values bound to
    the placeholders. *)

Definition column_of (column : string) (r : TokenUsage) : option sql_value :=
  if String.eqb column "tenant_id" then Some (SqlText (row_tenant_id r))
  else if String.eqb column "user_id" then Some (SqlInt (row_user_id r))
  else if String.eqb column "channel_id" then Some (SqlUuid (row_channel_id r))
  else if String.eqb column "model" then Some (SqlText (row_model r))
  else if String.eqb column "request_type" then Some (SqlText (request_type r))
  else if String.eqb column "created_at" then Some (SqlTime (row_created_at r))
  else None.

#[export] Instance sql_value_eq_dec : EqDecision sql_value.
Proof. solve_decision. Defined.

Definition compare_sql (op : string) (a b : sql_value) : bool :=
  if String.eqb op "=" then bool_decide (a = b)
  else match a, b with
       | SqlTime x, SqlTime y => if String.eqb op ">=" then y <=? x else if String.eqb op "<=" then x <=? y else false
       | _, _ => false
       end.

Definition holds_on (r : TokenUsage) (column op : string) (v : sql_value) : bool :=
  match column_of column r with Some x => compare_sql op x v | None => false end.

(** The text of condition number [k]. *)
Definition condition_text (column op : string) (k : nat) : str :=
  lit column ++ [space] ++ lit op ++ [space] ++ lit "$" ++ show_nat k.

Lemma fold_push (l : list (option (string * string * sql_value))) conds values :
  length conds = length values ->
  fold_left (fun acc o => push o acc) l (conds, values) =
  (conds ++ imap (fun k '(c, op, _) => condition_text c op (S (length values + k))) (omap (fun o => o) l),
   values ++ map (fun '(_, _, v) => v) (omap (fun o => o) l)).
Proof.
  revert conds values; induction l as [|[[[c op] v]|] l IH]; intros conds values Hl; cbn [fold_left omap list_omap].
  - by rewrite !app_nil_r.
  - cbn [push]. rewrite IH by (rewrite !length_app; cbn; lia). cbn [imap map]. rewrite <- !app_assoc.
    cbn [app]. f_equal. f_equal. f_equal; [unfold condition_text; by rewrite Nat.add_0_r|].
    apply imap_ext. intros k [[c' op'] v'] _. cbn. f_equal. rewrite length_app. cbn. lia.
  - by apply IH.
Qed.

Lemma forallb_omap {A} (f : A -> bool) l :
  forallb f (omap (fun o => o) l) = forallb (fun o => match o with Some x => f x | None => true end) l.
Proof. induction l as [|[x|] l IH]; cbn; [done|by rewrite IH|done]. Qed.

(** ** Theorems *)

(** The statistics and the listing see the same rows.  The clause is the
    conjunction of its conditions, numbered from one in the order of the bound
    values, and a row satisfies all of them exactly when the listing selects it. *)
Theorem stats_agree_with_listing p :
  let conds := omap (fun o => o) (conditions p) in
  build_stats_where_clause p =
    (if is_empty conds then [] else
       lit "WHERE " ++ join (lit " AND ") (imap (fun k '(c, op, _) => condition_text c op (S k)) conds),
     map (fun '(_, _, v) => v) conds) /\
  forall r, forallb (fun '(c, op, v) => holds_on r c op v) conds = selected p r.
Proof.
  intros conds. split.
  - unfold build_stats_where_clause. rewrite fold_push by done. cbn [app length Nat.add]. fold conds.
    by destruct conds.
  - intros r. unfold conds, conditions, selected, passes, condition, filled.
    assert (forall a b : str, bool_decide (SqlText a = SqlText b) = str_eqb a b) as Ht.
    { intros a b. unfold str_eqb. apply bool_decide_ext. naive_solver. }
    assert (forall a b : str, bool_decide (SqlUuid a = SqlUuid b) = str_eqb a b) as Hu.
    { intros a b. unfold str_eqb. apply bool_decide_ext. naive_solver. }
    assert (forall a b : Z, bool_decide (SqlInt a = SqlInt b) = (a =? b)) as Hi.
    { intros a b. destruct (Z.eqb_spec a b); [apply bool_decide_eq_true|apply bool_decide_eq_false]; congruence. }
    rewrite forallb_omap. cbn [forallb]. rewrite !andb_true_r, !andb_assoc.
    repeat f_equal.
    + destruct (p_tenant_id p); [apply Ht|done].
    + destruct (p_user_id p); [apply Hi|done].
    + destruct (p_channel_id p); [apply Hu|done].
    + destruct (p_model p) as [m|]; [|done]. destruct m; [done|apply Ht].
    + destruct (p_request_type p) as [m|]; [|done]. destruct m; [done|apply Ht].
    + by destruct (date_from p).
    + by destruct (date_to p).
Qed.

Lemma chunks_take {A} (per n : nat) (l : list A) :
  concat ((fun k => take per (drop (k * per)%nat l)) <$> seq 0 n) = take (n * per)%nat l.
Proof.
  induction n as [|n IH]; [done|]. rewrite seq_S, fmap_app, concat_app, IH. cbn [fmap list_fmap concat Nat.add].
  rewrite app_nil_r. replace (S n * per)%nat with (n * per + per)%nat by lia.
  by rewrite <- take_take_drop.
Qed.

Definition with_page (k : Z) (p : ListUsageParams) : ListUsageParams :=
  {| page := k; per_page := per_page p; p_tenant_id := p_tenant_id p; p_user_id := p_user_id p;
     p_channel_id := p_channel_id p; p_model := p_model p; p_request_type := p_request_type p;
     date_from := date_from p; date_to := date_to p |}.

(** Paging loses and repeats nothing: the pages from the first to
    [total_pages], in order, are together exactly the rows that pass the filters
    (a page number is at most a million, and so is the page count). *)
Theorem pages_cover_rows ordered p :
  total_pages (list_usage ordered p) <= 1000000 ->
  concat ((fun k => items (list_usage ordered (with_page k p))) <$> seqZ 1 (total_pages (list_usage ordered p))) =
  List.filter (selected p) ordered.
Proof.
  intros Hn. cbn [list_usage total_pages] in *. set (rows := List.filter (selected p) ordered) in *.
  set (per := clamp 1 100 (per_page p)) in *.
  assert (1 <= per <= 100) as Hper by (unfold per, clamp; lia).
  set (n := (Z.of_nat (length rows) + per - 1) / per) in *.
  assert (0 <= n) by (apply Z.div_pos; lia).
  assert (Z.of_nat (length rows) <= n * per).
  { pose proof (Z.mul_succ_div_gt (Z.of_nat (length rows) + per - 1) per ltac:(lia)). fold n in H0. lia. }
  transitivity (concat ((fun k => take (Z.to_nat per) (drop (k * Z.to_nat per)%nat rows)) <$> seq 0 (Z.to_nat n))).
  - f_equal. unfold seqZ. rewrite <- list_fmap_compose. apply list_fmap_ext. intros i k [-> Hi]%lookup_seq. cbn.
    change (selected (with_page _ p)) with (selected p). fold rows. fold per.
    unfold clamp. f_equal. f_equal. rewrite Z.max_r, Z.min_r by lia.
    rewrite <- (Nat2Z.id (_ * Z.to_nat per)). f_equal. lia.
  - rewrite chunks_take. apply take_ge. lia.
Qed.

Definition demo_row (k : Z) : TokenUsage := {|
  row_id := k; row_user_id := 7; row_tenant_id := lit "t1"; row_channel_id := lit "a"; row_model := lit "gpt";
  prompt_tokens := k; completion_tokens := 1; row_total_tokens := k + 1; request_type := lit "chat";
  row_created_at := k |}.
Definition demo_params : ListUsageParams := {|
  page := 1; per_page := 2; p_tenant_id := Some (lit "t1"); p_user_id := None; p_channel_id := None;
  p_model := Some []; p_request_type := None; date_from := Some 2; date_to := None |}.

Lemma pages_cover_rows_witness :
  total_pages (list_usage (demo_row <$> [5; 4; 3; 2; 1]) demo_params) = 2 /\
  concat ((fun k => items (list_usage (demo_row <$> [5; 4; 3; 2; 1]) (with_page k demo_params))) <$>
            seqZ 1 (total_pages (list_usage (demo_row <$> [5; 4; 3; 2; 1]) demo_params))) =
  List.filter (selected demo_params) (demo_row <$> [5; 4; 3; 2; 1]).
Proof.
  split; [vm_compute; reflexivity|].
  apply (pages_cover_rows (demo_row <$> [5; 4; 3; 2; 1]) demo_params).
  assert (total_pages (list_usage (demo_row <$> [5; 4; 3; 2; 1]) demo_params) = 2) as -> by (vm_compute; reflexivity).
  lia.
Defined.

(** Metering trusts the provider's counters: a reported count of 2^63 or
    more is stored as a negative number of tokens. *)
Theorem metering_can_go_negative :
  exists response now, match record_usage now 1 true 7 (lit "t") (lit "a") (lit "m") (lit "chat") response [] with
                       | (Some row, [_]) => prompt_tokens row < 0
                       | _ => False
                       end.
Proof. exists (json [("usage", json [("prompt_tokens", vnat (2 ^ 63))])]), 0. reflexivity. Qed.
