(* ===== verification/Gateway.v ===== *)
(** * Proxying to providers ([server/src/services/gateway.rs])

    One request to a provider, whole or streamed: the body's completion and
    checks, the estimate for the quotas, the choice of a channel, the provider's
    answer and its validation, the breaker and the bill. *)

From S2P Require Import Prelude Utf8 Sse Redis Lock Cache Quota Channels JsonValue Responses Dispatch Metering.

Open Scope string_scope.
Open Scope list_scope.
Open Scope Z_scope.

(** ** Bodies *)

Definition body_not_object : GatewayError := InvalidInput (lit "AI request body must be an object").

Definition first_model (channel : Model) : option str :=
  items ← as_array (models channel); first ← head items; as_str first.

Definition ensure_request_model (body : value) (channel : Model) : result value GatewayError :=
  match get_str "model" body with
  | Some _ => Ok body
  | None =>
      match first_model channel with
      | None => Err (InvalidInput (lit "Selected channel has no usable model"))
      | Some model =>
          match body with
          | VObject _ => Ok (set_field "model" (VString model) body)
          | _ => Err body_not_object
          end
      end
  end.

Definition not_blank (v : value) : bool :=
  match as_str v with Some s => negb (is_empty (trim s)) | None => false end.

Definition expected_inputs (body : value) : option Z :=
  match get "input" body with
  | Some (VString s) => if is_empty (trim s) then None else Some 1
  | Some (VArray values) =>
      if negb (is_empty values) && forallb not_blank values then Some (Z.of_nat (length values)) else None
  | _ => None
  end.

Definition embedding_response_contract (body : value) : result EmbeddingBatchContract GatewayError :=
  match expected_inputs body with
  | None => Err (InvalidInput (lit "Embedding input must be a string or non-empty string array"))
  | Some count =>
      match get "dimensions" body with
      | None => Ok {| expected_count := count; expected_dimensions := None |}
      | Some v =>
          match as_u64 v with
          | Some d => if 0 <? d then Ok {| expected_count := count; expected_dimensions := Some d |}
                      else Err (InvalidInput (lit "Embedding dimensions must be a positive integer"))
          | None => Err (InvalidInput (lit "Embedding dimensions must be a positive integer"))
          end
      end
  end.

(** [entry(..).or_insert_with(..)], then the flag. *)
Definition enable_stream_usage (body : value) : result value GatewayError :=
  match body with
  | VObject _ =>
      match default (json []) (get "stream_options" body) with
      | VObject _ as options =>
          Ok (set_field "stream_options" (set_field "include_usage" (VBool true) options) body)
      | _ => Err (InvalidInput (lit "stream_options must be an object"))
      end
  | _ => Err body_not_object
  end.

(** ** The estimate of tokens *)

Definition is_binary_media_key (key : str) : bool :=
  existsb (fun k => str_eqb key (lit k)) ["file"; "file_data"; "data"; "b64_json"; "input_audio"].

Definition is_data_uri (s : str) : bool := starts_with (lit "data:") s && contains (lit ";base64,") s.

(** Lengths are far below [u64], as is their sum. *)
Fixpoint estimate_text_length (v : value) : Z :=
  match v with
  | VString s => if is_data_uri s then 0 else Z.of_N (utf8_len s)
  | VArray items => foldr (fun v n => estimate_text_length v + n) 0 items
  | VObject fields =>
      foldr (fun kv n => (if is_binary_media_key (fst kv) then 0 else estimate_text_length (snd kv)) + n) 0 fields
  | _ => 0
  end.

Definition estimate_tokens (body : value) : Z := Z.max (estimate_text_length body / 4) 1.

(** ** Usage of audio answers *)

Definition usage_object (prompt completion total : Z) : value :=
  json [("prompt_tokens", vnat prompt); ("completion_tokens", vnat completion); ("total_tokens", vnat total)].

Definition synthesized_usage_for_metering (capability : ModelCapability) (input_token_estimate : Z)
    (response : value) : option value :=
  match get "usage" response with
  | Some _ => None
  | None =>
      usage ← match capability with
              | Tts => Some (usage_object input_token_estimate 0 input_token_estimate)
              | Stt =>
                  let text_len := match get_str "text" response with Some s => Z.of_N (utf8_len s) | None => 0 end in
                  Some (usage_object 0 (text_len / 4) (text_len / 4))
              | _ => None
              end;
      match response with VObject _ => Some (set_field "usage" usage response) | _ => None end
  end.

(** ** Audio formats *)

Section Audio.
Context {N : Unicode}.

Definition audio_mime_from_filename (filename : str) : str :=
  let extension := to_lowercase (default [] (last (split_on 46%N filename))) in
  let one_of := existsb (fun e => str_eqb extension (lit e)) in
  if one_of ["mp3"; "mpeg"; "mpga"] then lit "audio/mpeg"
  else if one_of ["mp4"; "m4a"] then lit "audio/mp4"
  else if one_of ["flac"] then lit "audio/flac"
  else if one_of ["ogg"] then lit "audio/ogg"
  else if one_of ["webm"] then lit "audio/webm"
  else if one_of ["wav"] then lit "audio/wav"
  else lit "application/octet-stream".
End Audio.

Definition tts_format_content_type (requested_format : str) : result str GatewayError :=
  let format := to_ascii_lowercase requested_format in
  let eq_to f := str_eqb format (lit f) in
  if eq_to "mp3" then Ok (lit "audio/mpeg") else if eq_to "opus" then Ok (lit "audio/ogg")
  else if eq_to "aac" then Ok (lit "audio/aac") else if eq_to "flac" then Ok (lit "audio/flac")
  else if eq_to "wav" then Ok (lit "audio/wav") else if eq_to "pcm" then Ok (lit "audio/pcm")
  else Err (InvalidInput (lit "Unsupported TTS response_format: " ++ format)).

(** A header: absent, not text, or text. *)
Inductive header := Absent | Unreadable | Readable (s : str).

Definition tts_content_type (h : header) (inferred : str) : result str GatewayError :=
  match h with
  | Absent => Ok inferred
  | Unreadable => Err (Upstream (lit "Invalid TTS Content-Type header"))
  | Readable s =>
      let v := trim (default [] (head (split_on 59%N s))) in
      let eq_to f := str_eqb v (lit f) in
      if eq_to "audio/mpeg" then Ok (lit "audio/mpeg")
      else if eq_to "audio/ogg" || eq_to "audio/opus" then Ok (lit "audio/ogg")
      else if eq_to "audio/aac" then Ok (lit "audio/aac")
      else if eq_to "audio/flac" then Ok (lit "audio/flac")
      else if eq_to "audio/wav" || eq_to "audio/x-wav" then Ok (lit "audio/wav")
      else if eq_to "audio/pcm" || eq_to "audio/L16" then Ok (lit "audio/pcm")
      else if eq_to "application/octet-stream" || is_empty v then Ok inferred
      else Err (Upstream (lit "Unsupported TTS Content-Type: " ++ v))
  end.

(** ** Validation of answers *)

Section Proxy.
Context {U : UrlLibrary} {K : Sealing} {J : JsonText} {B : Base64Text} {D : Jsonb} {R : Redis}.
Context (show_f64 : f64 -> str).

Definition filled_text (key : string) (response : value) : bool :=
  match get_str key response with Some s => negb (is_empty s) | None => false end.

(** The response, normalized in place where it is a batch of embeddings. *)
Definition validate_provider_response (capability : ModelCapability) (response : value)
    (contract : option EmbeddingBatchContract) : result value GatewayError :=
  let invalid := Err (Upstream (lit "invalid AI provider response")) in
  match capability with
  | Chat | Vision | WebSearch => if is_valid_chat_completions_response response then Ok response else invalid
  | Embedding =>
      match get_array "data" response, contract with
      | Some items, Some contract =>
          let '(ok, items) := normalize_embedding_batch items contract in
          if ok : bool then Ok (set_field "data" (VArray items) response) else invalid
      | _, _ => invalid
      end
  | Stt => match get_str "text" response with Some _ => Ok response | None => invalid end
  | Tts => if filled_text "audio" response && filled_text "content_type" response then Ok response else invalid
  end.

(** ** One request to the provider *)

(** What is sent: the URL, the key, and a JSON body or a form. *)
Inductive payload :=
| JsonBody (body : value)
| AnthropicBody (body : value)
| FormBody (audio : bytes) (filename model : str) (fields : list (str * str)).
Record request := { to_url : str; api_key : str; sends : payload }.

(** What comes back: nothing, or a status, a content type and a body that may
    fail to arrive. *)
Inductive http_reply :=
| NoReply (message : str)
| Reply (status : Z) (content_type : header) (body : result bytes str).

Definition json_of_bytes (b : bytes) : option value := from_utf8 b ≫= of_text.

(** [text_of_bytes] decodes as [Response::text] does. *)
Context (text_of_bytes : bytes -> str).

(** [accept] reads a successful answer. *)
Definition on_success (reply : http_reply) (accept : header -> bytes -> result value GatewayError) :
    result value GatewayError :=
  match reply with
  | NoReply message => Err (Upstream message)
  | Reply status content_type body =>
      if negb (is_success status) then Err (upstream_status_error status)
      else match body with
           | Err message => Err (Upstream message)
           | Ok b => accept content_type b
           end
  end.

Definition parse_json_response (reply : http_reply) : result value GatewayError :=
  on_success reply (fun _ b =>
    match json_of_bytes b with Some v => Ok v | None => Err (Upstream (lit "error decoding response body")) end).

(** The provider: each request answered somehow. *)
Definition provider := request -> http_reply.

(** [HeaderValue::from_str] accepts. *)
Context (header_safe : str -> bool).

Definition send_json (p : provider) (url key : str) (body : value) : result value GatewayError * list request :=
  let r := {| to_url := url; api_key := key; sends := JsonBody body |} in
  (parse_json_response (p r), [r]).

Definition send_anthropic (now : Z) (p : provider) (url key : str) (body : value) :
    result value GatewayError * list request :=
  if negb (header_safe key) then (Err (Internal (lit "invalid anthropic API key header")), [])
  else
    let r := {| to_url := url; api_key := key; sends := AnthropicBody (chat_completions_to_anthropic body) |} in
    (and_then (parse_json_response (p r)) (fun v => Ok (anthropic_response_to_chat_completions now v)), [r]).

Definition plain_text_format (fields : list (str * str)) : bool :=
  let format := match List.find (fun kv => str_eqb (fst kv) (lit "response_format")) fields with
                | Some (_, v) => v
                | None => lit "json"
                end in
  existsb (fun f => str_eqb format (lit f)) ["text"; "srt"; "vtt"].

Definition send_stt (p : provider) (url key : str) (audio : bytes) (filename model : str)
    (fields : list (str * str)) : result value GatewayError * list request :=
  let r := {| to_url := url; api_key := key; sends := FormBody audio filename model fields |} in
  (if plain_text_format fields
   then match p r with
        | NoReply message => Err (Upstream message)
        | Reply status _ body =>
            match body with
            | Err message => Err (Upstream message)
            | Ok b => if is_success status then Ok (json [("text", VString (text_of_bytes b))])
                      else Err (upstream_status_error status)
            end
        end
   else parse_json_response (p r), [r]).

Definition send_tts (p : provider) (url key : str) (body : value) : result value GatewayError * list request :=
  match tts_format_content_type (default (lit "mp3") (get_str "response_format" body)) with
  | Err e => (Err e, [])
  | Ok fallback =>
      let r := {| to_url := url; api_key := key; sends := JsonBody body |} in
      (match p r with
       | NoReply message => Err (Upstream message)
       | Reply status content_type body =>
           if negb (is_success status) then Err (upstream_status_error status)
           else
             and_then (tts_content_type content_type fallback) (fun content_type =>
               match body with
               | Err message => Err (Upstream message)
               | Ok b => Ok (json [("audio", VString (standard_encode b)); ("content_type", VString content_type)])
               end)
       end, [r])
  end.

(** ** [proxy] *)

(** What the outside decides: the row order of the channel table, the draw, the
    commands to Redis, the clock, identifiers, and whether the bill is stored. *)
Record surroundings := {
  rows : list Model; breaker_commands : list command; draw : Z -> Z; checks : check_calls;
  record1 : command; record2 : command; clock : Z; usage_id : Z; usage_stored : bool
}.

Record Service := { quota : option QuotaService; metering : bool }.

(** Redis, the usage table, and every request that left. *)
Record world := { redis : db; usage : list TokenUsage; left : list request }.

Definition quota_message (e : QuotaError) : str :=
  match e with
  | ChannelRpmExceeded => lit "Channel rate limit exceeded (RPM)"
  | ChannelTpmExceeded => lit "Channel rate limit exceeded (TPM)"
  | TenantRpmExceeded => lit "Tenant rate limit exceeded"
  | CircuitBroken => lit "Channel circuit is broken (too many failures)"
  | Unavailable => lit "Rate limiter unavailable"
  end.

(** The checks before the request; [Unavailable] lets it pass. *)
Definition check_quota (s : Service) (o : surroundings) (channel tenant capability : str) (tokens : Z) (d : db) :
    result unit GatewayError * db :=
  match quota s with
  | None => (Ok tt, d)
  | Some q =>
      let '(r, d) := check_all q (checks o) channel tenant capability tokens d in
      (match r with
       | Ok _ => Ok tt
       | Err CircuitBroken => Err NoChannel
       | Err Unavailable => Ok tt
       | Err other => Err (RateLimited (quota_message other))
       end, d)
  end.

Definition record_outcome (s : Service) (o : surroundings) (channel : str) (r : result value GatewayError) (d : db) : db :=
  match quota s with
  | None => d
  | Some q =>
      match r with
      | Ok _ => record_success (record1 o) (record2 o) channel d
      | Err e => if is_channel_health_failure e then snd (record_failure q (record1 o) (record2 o) channel d) else d
      end
  end.

(** The name of the model goes into an answer that has none. *)
Definition insert_model (model : option str) (response : value) : value :=
  match get "model" response, model with
  | None, Some m => set_field "model" (VString m) response
  | _, _ => response
  end.

Definition bill (s : Service) (o : surroundings) (user tenant channel model : str) (capability : ModelCapability)
    (estimate : Z) (r : result value GatewayError) (rows : list TokenUsage) : list TokenUsage :=
  match r with
  | Err _ => rows
  | Ok response =>
      if metering s then
        let metered := default response (synthesized_usage_for_metering capability estimate response) in
        snd (record_usage (clock o) (usage_id o) (usage_stored o) (default 0 (parse_i64 user)) tenant channel model
               (capability_as_str capability) metered rows)
      else rows
  end.

(** After the answer: the model's name, validation, breaker, bill. *)
Definition conclude (s : Service) (o : surroundings) (user tenant : str) (capability : ModelCapability)
    (channel : Model) (model : option str) (contract : option EmbeddingBatchContract) (estimate : Z)
    (answer : result value GatewayError * list request) (w : world) : result value GatewayError * world :=
  let r := and_then (fst answer) (fun response =>
             validate_provider_response capability (insert_model model response) contract) in
  (r, {| redis := record_outcome s o (id channel) r (redis w);
         usage := bill s o user tenant (id channel) (default (lit "unknown") model) capability estimate r (usage w);
         left := left w ++ snd answer |}).

Definition with_redis (d : db) (w : world) : world := {| redis := d; usage := usage w; left := left w |}.

Definition proxy (s : Service) (p : provider) (o : surroundings) (tenant user : str) (capability : ModelCapability)
    (required : list ModelCapability) (body : value) (w : world) : result value GatewayError * world :=
  match (if decide (capability = Embedding) then and_then (embedding_response_contract body) (fun c => Ok (Some c))
         else Ok None) with
  | Err e => (Err e, w)
  | Ok contract =>
      let '(selected, d) := select_channel (quota s) (breaker_commands o) (draw o) (rows o) tenant required
                              (extract_model body) (redis w) in
      let w := with_redis d w in
      match selected with
      | Err e => (Err e, w)
      | Ok channel =>
          match ensure_request_model body channel with
          | Err e => (Err e, w)
          | Ok body =>
              let estimate := estimate_tokens body in
              let '(checked, d) := check_quota s o (id channel) tenant (capability_as_str capability) estimate (redis w) in
              let w := with_redis d w in
              match checked with
              | Err e => (Err e, w)
              | Ok _ =>
                  match and_then (decrypt (api_key_encrypted channel)) (fun key =>
                        and_then (dispatch_proxy show_f64 capability (protocol_type channel) (base_url channel) body)
                        (fun action => Ok (key, action))) with
                  | Err e => (Err e, w)
                  | Ok (key, JsonPost url body) =>
                      conclude s o user tenant capability channel (extract_model body) contract estimate
                        (if str_eqb (protocol_type channel) (lit "anthropic")
                         then send_anthropic (clock o) p url key body else send_json p url key body) w
                  | Ok (key, TtsBinary url body) =>
                      conclude s o user tenant capability channel (extract_model body) contract estimate
                        (send_tts p url key body) w
                  | Ok (key, SttMultipart url audio filename model fields) =>
                      conclude s o user tenant Stt channel (Some model) None 0
                        (send_stt p url key audio filename model fields) w
                  end
              end
          end
      end
  end.

(** ** Streams *)

Inductive StreamOutcome := Completed | Incomplete | Cancelled.
Inductive CircuitOutcome := Success | Failure.

Definition stream_circuit_outcome (r : result StreamOutcome GatewayError) : option CircuitOutcome :=
  match r with
  | Ok Completed => Some Success
  | Ok Incomplete => Some Failure
  | Ok Cancelled => None
  | Err e => if is_channel_health_failure e then Some Failure else None
  end.

(** What goes down the bounded channel to the handler: bytes or an error. *)
Definition item := result bytes str.

(** The receiver: it takes [open_for] items and is dropped then, if ever; an
    error only tries, and fails when the queue is full. *)
Record receiver := { open_for : option nat; room : nat -> bool }.

Definition accepts (rx : receiver) (sent : list item) : bool :=
  match open_for rx with None => true | Some n => (length sent <? n)%nat end.

Definition downstream_error : str := lit "AI provider stream failed".

Definition send_downstream_stream_error (rx : receiver) (sent : list item) : list item :=
  if accepts rx sent && room rx (length sent) then sent ++ [Err downstream_error] else sent.

(** What the provider's stream yields, or the receiver going away first. *)
Inductive arrival := Bytes (b : bytes) | ReadError (message : str) | ReceiverClosed.

(** How sending the request ended. *)
Inductive opening := Opened (status : Z) | OpenFailed (message : str) | ClosedWhileOpening.

Definition stream_end : Type := (result StreamOutcome GatewayError * list item)%type.

Definition fail_stream (rx : receiver) (sent : list item) (e : GatewayError) : stream_end :=
  (Err e, send_downstream_stream_error rx sent).

Definition max_sse_buffer : nat := Z.to_nat 1048576.

(** The loop over the body, with what it does to one block. *)
Fixpoint read_stream (process : bytes -> nat -> list item -> list item + stream_end) (rx : receiver)
    (arrivals : list arrival) (buffer : bytes) (sent : list item) : stream_end :=
  match arrivals with
  | [] => (Ok Incomplete, sent)
  | ReceiverClosed :: _ => (Ok Cancelled, sent)
  | ReadError message :: _ => fail_stream rx sent (Upstream message)
  | Bytes b :: arrivals =>
      if (max_sse_buffer <? length buffer + length b)%nat
      then fail_stream rx sent (Upstream (lit "stream buffer overflow"))
      else match consume (F := gateway_framing) process (buffer ++ b) sent with
           | inl (buffer, sent) => read_stream process rx arrivals buffer sent
           | inr r => r
           end
  end.

Definition open_stream (rx : receiver) (o : opening) (continue : stream_end) : stream_end :=
  match o with
  | ClosedWhileOpening => (Ok Cancelled, [])
  | OpenFailed message => fail_stream rx [] (Upstream message)
  | Opened status => if is_success status then continue else fail_stream rx [] (upstream_status_error status)
  end.

(** *** OpenAI *)

Inductive OpenAiSseEventKind := Forward | Done.

Definition done_marker : str := lit "[DONE]".

Definition is_error_payload (v : value) : bool :=
  match get "error" v with Some e => negb (is_null e) | None => false end
  || bool_decide (get_str "type" v = Some (lit "error"))
  || bool_decide (get_str "object" v = Some (lit "error")).

Definition inspect_openai_sse_event (event : bytes) : result OpenAiSseEventKind str :=
  match from_utf8 event with
  | None => Err (lit "SSE event is not valid UTF-8")
  | Some event =>
      let event_type := default (lit "message") (sse_field_value event (lit "event")) in
      if str_eqb event_type (lit "error") then Err (lit "OpenAI SSE error event")
      else
        match sse_data_payload event with
        | None => Ok Forward
        | Some data =>
            let data := trim data in
            if str_eqb data done_marker then Ok Done
            else if is_empty data || str_eqb event_type (lit "ping") || str_eqb event_type (lit "keepalive")
            then Ok Forward
            else match of_text data with
                 | None => Err (lit "OpenAI SSE event contains invalid JSON")
                 | Some payload => if is_error_payload payload then Err (lit "OpenAI SSE error payload") else Ok Forward
                 end
        end
  end.

Definition forward_validated_openai_sse_event (rx : receiver) (event : bytes) (event_data_len : nat)
    (sent : list item) : list item + stream_end :=
  match inspect_openai_sse_event (take event_data_len event) with
  | Err reason => inr (fail_stream rx sent (Upstream reason))
  | Ok kind =>
      if accepts rx sent then
        let sent := sent ++ [Ok event] in
        match kind with Done => inr (Ok Completed, sent) | Forward => inl sent end
      else inr (Ok Cancelled, sent)
  end.

Definition send_json_stream (rx : receiver) (o : opening) (arrivals : list arrival) : stream_end :=
  open_stream rx o (read_stream (forward_validated_openai_sse_event rx) rx arrivals [] []).

(** *** Anthropic *)

Inductive AnthropicSseEventKind := AForward | AError | MessageStop.

Definition anthropic_sse_event_type (event_block : str) : str :=
  default [] (sse_field_value event_block (lit "event")).

Definition is_known_anthropic_sse_event (event_type : str) : bool :=
  existsb (fun t => str_eqb event_type (lit t))
    ["message_start"; "content_block_start"; "content_block_delta"; "content_block_stop"; "message_delta";
     "message_stop"; "ping"; "error"].

Definition inspect_anthropic_sse_event (event_block : str) : result AnthropicSseEventKind str :=
  let event_type := anthropic_sse_event_type event_block in
  if negb (is_known_anthropic_sse_event event_type) then Ok AForward
  else
    match sse_data_payload event_block with
    | None => Err (lit "Anthropic SSE event is missing data")
    | Some data =>
        match of_text data with
        | None => Err (lit "Anthropic SSE event contains invalid JSON")
        | Some payload =>
            if str_eqb event_type (lit "error") || bool_decide (get_str "type" payload = Some (lit "error")) then Ok AError
            else if str_eqb event_type (lit "message_stop") then Ok MessageStop
            else Ok AForward
        end
    end.

Definition openai_usage_from_anthropic (usage : value) : option value :=
  let input := get_u64 "input_tokens" usage in
  let output := get_u64 "output_tokens" usage in
  match input, output with
  | None, None => None
  | _, _ =>
      Some (set_field "total_tokens" (vnat (u64_wrap (default 0 input + default 0 output)))
             (set_some "completion_tokens" vnat output (set_some "prompt_tokens" vnat input (json []))))
  end.

(** A chat chunk with one choice. *)
Definition chat_chunk (delta : value) (finish_reason : value) : value :=
  json [("choices", VArray [json [("index", vnat 0); ("delta", delta); ("finish_reason", finish_reason)]])].

Definition content_chunk (text : str) : value := chat_chunk (json [("content", VString text)]) VNull.

Definition start_chunk (data : value) : value :=
  let message := default VNull (get "message" data) in
  let chunk := set_field "model" (VString (default (lit "unknown") (get_str "model" message)))
                 (chat_chunk (json [("role", vstr "assistant"); ("content", vstr "")]) VNull) in
  set_some "usage" (fun u => u) (usage ← get "usage" message; openai_usage_from_anthropic usage) chunk.

Definition delta_chunk (data : value) : value :=
  let stop_reason := delta ← get "delta" data; get_str "stop_reason" delta in
  let finish := match stop_reason with
                | Some r =>
                    if str_eqb r (lit "end_turn") || str_eqb r (lit "stop_sequence") then vstr "stop"
                    else if str_eqb r (lit "max_tokens") then vstr "length" else VNull
                | None => VNull
                end in
  set_some "usage" (fun u => u) (usage ← get "usage" data; openai_usage_from_anthropic usage)
    (chat_chunk (json []) finish).

(** The initial text of a block, if it has any. *)
Definition block_start_text (data : value) : option str :=
  if negb (bool_decide (get_str "type" data = Some (lit "content_block_start"))) then None
  else
    block ← get "content_block" data;
    if negb (bool_decide (get_str "type" block = Some (lit "text"))) then None
    else text ← get_str "text" block; nonempty text.

(** The chunk that an event becomes. *)
Definition translated_chunk (event_type : str) (data : value) : option value :=
  if str_eqb event_type (lit "content_block_delta") then content_chunk <$> extract_anthropic_streaming_delta data
  else if str_eqb event_type (lit "message_start") then Some (start_chunk data)
  else if str_eqb event_type (lit "message_delta") then Some (delta_chunk data)
  else if str_eqb event_type (lit "content_block_start") then content_chunk <$> block_start_text data
  else None.

Definition translate_anthropic_sse_event (event_block : str) : option str :=
  data_str ← sse_data_payload event_block;
  if is_empty data_str then None
  else
    data ← of_text data_str;
    chunk ← translated_chunk (anthropic_sse_event_type event_block) data;
    Some (data_frame (to_text chunk)).

Definition forward_anthropic_sse_event (rx : receiver) (event : bytes) (pos : nat) (sent : list item) :
    list item + stream_end :=
  match from_utf8 (take pos event) with
  | None => inr (fail_stream rx sent (Upstream (lit "SSE event is not valid UTF-8")))
  | Some event_str =>
      match inspect_anthropic_sse_event event_str with
      | Err reason => inr (fail_stream rx sent (Upstream reason))
      | Ok AError => inr (fail_stream rx sent (Upstream (lit "Anthropic SSE error event")))
      | Ok MessageStop =>
          if accepts rx sent then inr (Ok Completed, sent ++ [Ok (encode (data_frame done_marker))])
          else inr (Ok Cancelled, sent)
      | Ok AForward =>
          match translate_anthropic_sse_event event_str with
          | None => inl sent
          | Some converted =>
              if accepts rx sent then inl (sent ++ [Ok (encode converted)]) else inr (Ok Cancelled, sent)
          end
      end
  end.

Definition send_anthropic_stream (rx : receiver) (key : str) (o : opening) (arrivals : list arrival) : stream_end :=
  if negb (header_safe key) then (Err (Internal (lit "invalid anthropic API key header")), [])
  else open_stream rx o (read_stream (forward_anthropic_sse_event rx) rx arrivals [] []).

(** *** [proxy_stream] *)

(** The task that feeds the handler, once the request may leave. *)
Record started := {
  s_channel_id : str; s_model : str; s_estimate : Z; s_request : request; s_openai : bool; s_key : str
}.

Definition proxy_stream (s : Service) (o : surroundings) (tenant : str) (capability : ModelCapability)
    (required : list ModelCapability) (body : value) (w : world) : result started GatewayError * world :=
  let '(selected, d) := select_channel (quota s) (breaker_commands o) (draw o) (rows o) tenant required
                          (extract_model body) (redis w) in
  let w := with_redis d w in
  match selected with
  | Err e => (Err e, w)
  | Ok channel =>
      let openai := str_eqb (protocol_type channel) (lit "openai") in
      match and_then (ensure_request_model body channel) (fun body =>
            and_then (if openai then enable_stream_usage body else Ok body) (fun body =>
            match extract_model body with
            | None => Err (InvalidInput (lit "AI request model is required"))
            | Some model => Ok (body, model)
            end)) with
      | Err e => (Err e, w)
      | Ok (body, model) =>
          let estimate := estimate_tokens body in
          let '(checked, d) := check_quota s o (id channel) tenant (capability_as_str capability) estimate (redis w) in
          let w := with_redis d w in
          match checked with
          | Err e => (Err e, w)
          | Ok _ =>
              (and_then (decrypt (api_key_encrypted channel)) (fun key =>
                 and_then (dispatch_proxy show_f64 capability (protocol_type channel) (base_url channel) body) (fun action =>
                   match action with
                   | JsonPost url body =>
                       let anthropic := str_eqb (protocol_type channel) (lit "anthropic") in
                       Ok {| s_channel_id := id channel; s_model := model; s_estimate := estimate;
                             s_request := {| to_url := url; api_key := key;
                                             sends := if anthropic then AnthropicBody (chat_completions_to_anthropic body)
                                                      else JsonBody body |};
                             s_openai := negb anthropic; s_key := key |}
                   | _ => Err (InvalidInput (lit "Streaming is not supported for STT or TTS capabilities"))
                   end)), w)
          end
      end
  end.

(** The spawned task: the stream, then the breaker. *)
Definition run_stream (s : Service) (o : surroundings) (st : started) (rx : receiver) (op : opening)
    (arrivals : list arrival) (d : db) : stream_end * db :=
  let r := if s_openai st then send_json_stream rx op arrivals
           else send_anthropic_stream rx (s_key st) op arrivals in
  (r, match quota s with
      | None => d
      | Some q => match stream_circuit_outcome (fst r) with
                  | Some Success => record_success (record1 o) (record2 o) (s_channel_id st) d
                  | Some Failure => snd (record_failure q (record1 o) (record2 o) (s_channel_id st) d)
                  | None => d
                  end
      end).

(** ** Lemmas *)

Lemma read_stream_invariant process rx (P : list item -> Prop) (Q : stream_end -> Prop) arrivals buffer sent :
  (forall block p sent, P sent -> match process block p sent with inl sent' => P sent' | inr r => Q r end) ->
  (forall sent, P sent -> Q (Ok Incomplete, sent) /\ Q (Ok Cancelled, sent) /\ forall e, Q (fail_stream rx sent (Upstream e))) ->
  P sent -> Q (read_stream process rx arrivals buffer sent).
Proof.
  intros Hp He. revert buffer sent. induction arrivals as [|a arrivals IH]; intros buffer sent Hs; cbn [read_stream].
  - by apply He.
  - destruct a as [b|m|]; [|by apply He|by apply He]. destruct (_ <? _)%nat; [by apply He|].
    pose proof (consume_invariant (F := gateway_framing) process P Q (buffer ++ b) sent Hp Hs) as H.
    destruct (consume process (buffer ++ b) sent) as [[buffer' sent']|r]; [by apply IH|done].
Qed.

(** Chunks of one body, then the rest. *)
Lemma read_stream_chunks process rx chunks rest buffer sent :
  (length buffer + length (concat chunks) <= max_sse_buffer)%nat ->
  find_delimiter (Framing := gateway_framing) buffer = None ->
  read_stream process rx (map Bytes chunks ++ rest) buffer sent =
  match consume (F := gateway_framing) process (buffer ++ concat chunks) sent with
  | inl (buffer, sent) => read_stream process rx rest buffer sent
  | inr r => r
  end.
Proof.
  revert buffer sent; induction chunks as [|b chunks IH]; intros buffer sent Hl Hn; cbn [map concat app read_stream] in *.
  - by rewrite app_nil_r, consume_eq, Hn.
  - rewrite length_app in Hl. destruct (Nat.ltb_spec max_sse_buffer (length buffer + length b)); [lia|].
    rewrite app_assoc, (consume_app process (buffer ++ b)).
    destruct (consume process (buffer ++ b) sent) as [[b' s']|r] eqn:Ec; [|done].
    apply consume_rest in Ec as [Hb' Hn']. rewrite length_app in Hb'. apply IH; [lia|done].
Qed.

(** What may be in the queue of the handler: blocks that were accepted, each
    allowed by [good]; at most one error, at the end. *)
Definition accepted (good : bytes -> Prop) (sent : list item) : Prop := Forall (fun i => exists b, i = Ok b /\ good b) sent.

Definition error_sent (i : item) : bool := negb (is_ok i).

Lemma accepted_snoc good sent b : accepted good sent -> good b -> accepted good (sent ++ [Ok b]).
Proof. intros H Hb. apply Forall_app. split; [done|]. constructor; [by exists b|done]. Qed.

Lemma fail_stream_sent rx sent e :
  snd (fail_stream rx sent e) = sent \/ snd (fail_stream rx sent e) = sent ++ [Err downstream_error].
Proof. unfold fail_stream, send_downstream_stream_error. cbn. destruct (_ && _); auto. Qed.

(** The blocks that passed, with the position at which each was cut. *)
Definition passed_as (log : list (bytes * nat)) : list (result OpenAiSseEventKind str) :=
  (fun '(b, p) => inspect_openai_sse_event (take p b)) <$> log.
Definition blocks (log : list (bytes * nat)) : list item := (fun '(b, _) => Ok b) <$> log.

Definition validated (r : result StreamOutcome GatewayError) (sent : list item) : Prop :=
  exists log n tail, sent = blocks log ++ tail /\
    passed_as log = replicate n (Ok Forward) ++ match r with Ok Completed => [Ok Done] | _ => [] end /\
    match r with Ok _ => tail = [] | Err _ => tail = [] \/ tail = [Err downstream_error] end.

Definition all_forward (sent : list item) : Prop :=
  exists log n, sent = blocks log /\ passed_as log = replicate n (Ok Forward).

Lemma all_forward_not_completed sent r :
  all_forward sent -> r <> Ok Completed -> is_ok r = true -> validated r sent.
Proof.
  intros (log & n & -> & Hk) Hr Ho. exists log, n, []. rewrite app_nil_r. split; [done|].
  destruct r as [[]|]; try done; by rewrite app_nil_r.
Qed.

Lemma all_forward_failed rx sent e :
  all_forward sent -> validated (Err e) (snd (fail_stream rx sent e)).
Proof.
  intros (log & n & -> & Hk). destruct (fail_stream_sent rx (blocks log) e) as [-> | ->].
  - exists log, n, []. rewrite !app_nil_r. auto.
  - exists log, n, [Err downstream_error]. rewrite app_nil_r. auto.
Qed.

Lemma forward_keeps rx block p sent :
  all_forward sent ->
  match forward_validated_openai_sse_event rx block p sent with
  | inl sent' => all_forward sent'
  | inr (r, sent') => validated r sent'
  end.
Proof.
  intros Hs. unfold forward_validated_openai_sse_event.
  destruct (inspect_openai_sse_event (take p block)) as [kind|reason] eqn:Ei;
    [|apply (all_forward_failed rx sent (Upstream reason) Hs)].
  destruct (accepts rx sent); [|by apply all_forward_not_completed].
  destruct Hs as (log & n & -> & Hk). destruct kind.
  - exists (log ++ [(block, p)]), (S n). unfold blocks, passed_as in *. rewrite !fmap_app. split; [done|].
    rewrite Hk, replicate_S_end. cbn [fmap list_fmap]. by rewrite Ei.
  - exists (log ++ [(block, p)]), n, []. unfold blocks, passed_as in *. rewrite !fmap_app, app_nil_r.
    split; [done|]. split; [|done]. rewrite Hk. cbn. by rewrite Ei.
Qed.

(** An OpenAI stream reaches the handler block by block, and every block
    was inspected first: valid Unicode, valid JSON, no error in band.  [DONE]
    comes last or not at all, and the stream counts as completed exactly when it
    came; a failure adds at most one generic error after the blocks. *)
Theorem openai_stream_is_validated rx o arrivals :
  validated (fst (send_json_stream rx o arrivals)) (snd (send_json_stream rx o arrivals)).
Proof.
  assert (all_forward []) as H0 by by exists [], 0%nat.
  unfold send_json_stream, open_stream. destruct o as [status|message|].
  - destruct (is_success status); [|by apply all_forward_failed].
    apply read_stream_invariant with (P := all_forward) (Q := fun e => validated (fst e) (snd e)); [| |done].
    + intros block p sent Hs. pose proof (forward_keeps rx block p sent Hs) as H.
      by destruct (forward_validated_openai_sse_event rx block p sent) as [?|[? ?]].
    + intros sent Hs. split; [by apply all_forward_not_completed|].
      split; [by apply all_forward_not_completed|]. intros e. by apply all_forward_failed.
  - by apply all_forward_failed.
  - by apply all_forward_not_completed.
Qed.

(** C30: How the network cuts a provider's stream into chunks does not matter,
    on either protocol: as long as the body fits the buffer, the same bytes give
    the same blocks to the handler and the same outcome, whatever follows. *)
Theorem chunks_do_not_matter rx key o chunks chunks' rest :
  concat chunks = concat chunks' -> (length (concat chunks) <= max_sse_buffer)%nat ->
  send_json_stream rx o (map Bytes chunks ++ rest) = send_json_stream rx o (map Bytes chunks' ++ rest) /\
  send_anthropic_stream rx key o (map Bytes chunks ++ rest) = send_anthropic_stream rx key o (map Bytes chunks' ++ rest).
Proof.
  intros He Hl. unfold send_json_stream, send_anthropic_stream.
  rewrite !(read_stream_chunks _ _ chunks), !(read_stream_chunks _ _ chunks'), He;
    try done; cbn [length]; rewrite <- ?He; exact Hl.
Qed.

(** *** One request, one bill *)

(** The outcome says that a request left. *)
Definition reached {A} (r : result A GatewayError) : bool :=
  match r with Ok _ | Err (Upstream _) | Err (UpstreamClient _) => true | Err _ => false end.

Definition accounted {A} (answer : result A GatewayError * list request) : Prop :=
  length (snd answer) = (if reached (fst answer) then 1 else 0)%nat.

Lemma reached_status status A : reached (Err (upstream_status_error status) : result A GatewayError) = true.
Proof. unfold upstream_status_error. by destruct (_ && _). Qed.

Lemma parse_json_reached reply : reached (parse_json_response reply) = true.
Proof.
  unfold parse_json_response, on_success. destruct reply as [m|status h body]; [done|].
  destruct (negb (is_success status)); [apply reached_status|]. destruct body as [b|m]; [|done].
  by destruct (json_of_bytes b).
Qed.

Lemma send_json_accounted p url key body : accounted (send_json p url key body).
Proof. unfold accounted, send_json. cbn [fst snd]. by rewrite parse_json_reached. Qed.

Lemma send_anthropic_accounted now p url key body : accounted (send_anthropic now p url key body).
Proof.
  unfold accounted, send_anthropic. destruct (negb (header_safe key)); [done|]. cbn [fst snd].
  set (reply := p _). pose proof (parse_json_reached reply) as H.
  destruct (parse_json_response reply) as [v|e]; [done|]. cbn in *. by rewrite H.
Qed.

Lemma send_stt_accounted p url key audio filename model fields :
  accounted (send_stt p url key audio filename model fields).
Proof.
  unfold accounted, send_stt. cbn [fst snd]. set (reply := p _).
  destruct (plain_text_format fields); [|by rewrite parse_json_reached].
  destruct reply as [m|status h [b|m]]; [done| |done]. destruct (is_success status); [done|].
  by rewrite reached_status.
Qed.

Lemma tts_content_type_reached h inferred e : tts_content_type h inferred = Err e -> exists m, e = Upstream m.
Proof.
  destruct h as [| |s]; cbn [tts_content_type]; [done|intros [= <-]; eauto|].
  cbv zeta. intros H. repeat (case_match; [done|]). injection H as <-. eauto.
Qed.

Lemma tts_format_not_reached f e : tts_format_content_type f = Err e -> exists m, e = InvalidInput m.
Proof.
  unfold tts_format_content_type. cbv zeta. intros H. repeat (destruct (_ : bool) in H; [done|]).
  injection H as <-. eauto.
Qed.

Lemma send_tts_accounted p url key body : accounted (send_tts p url key body).
Proof.
  unfold accounted, send_tts. destruct (tts_format_content_type _) as [fallback|e] eqn:E;
    [|apply tts_format_not_reached in E as [m ->]; done].
  cbn [fst snd]. set (reply := p _). destruct reply as [m|status h b]; [done|].
  destruct (negb (is_success status)); [by rewrite reached_status|].
  destruct (tts_content_type h fallback) as [c|e] eqn:Ec; cbn [and_then]; [by destruct b|].
  apply tts_content_type_reached in Ec as [m ->]. done.
Qed.

Lemma validate_reached capability response contract : reached (validate_provider_response capability response contract) = true.
Proof.
  unfold validate_provider_response. destruct capability; by repeat case_match.
Qed.

Lemma bill_rows s o user tenant channel model capability estimate r rows :
  exists new, bill s o user tenant channel model capability estimate r rows = new ++ rows /\
    (length new <= (if is_ok r && metering s then 1 else 0))%nat.
Proof.
  unfold bill. destruct r as [response|e]; [|by exists []]. destruct (metering s); [|by exists []].
  cbn [is_ok andb]. unfold record_usage. destruct (get "usage" _); [|exists []; cbn; split; [done|lia]].
  destruct (extract_usage _) as [[? ?] ?]. destruct (usage_stored o); [|exists []; cbn; split; [done|lia]].
  eexists [_]. split; [done|]. cbn. lia.
Qed.

(** What a request may leave behind. *)
Definition settled {A} (metered : bool) (r : result A GatewayError) (w w' : world) : Prop :=
  exists sent billed, left w' = left w ++ sent /\ usage w' = billed ++ usage w /\
    length sent = (if reached r then 1 else 0)%nat /\
    (length billed <= (if is_ok r && metered then 1 else 0))%nat.

Lemma conclude_settled s o user tenant capability channel model contract estimate answer w r w' :
  accounted answer ->
  conclude s o user tenant capability channel model contract estimate answer w = (r, w') ->
  settled (metering s) r w w'.
Proof.
  intros Ha [= <- <-].
  destruct (bill_rows s o user tenant (id channel) (default (lit "unknown") model) capability estimate
    (and_then (fst answer) (fun response => validate_provider_response capability (insert_model model response) contract))
    (usage w)) as (new & Hb & Hl).
  exists (snd answer), new. cbn [left usage]. split; [done|]. split; [done|]. split; [|done].
  unfold accounted in Ha. rewrite Ha. destruct (fst answer) as [v|e]; [|done]. cbn [and_then].
  by rewrite validate_reached.
Qed.

Lemma settled_refused {A} metered (e : GatewayError) (w w' : world) :
  left w' = left w -> usage w' = usage w -> reached (Err e : result A GatewayError) = false ->
  settled metered (Err e : result A GatewayError) w w'.
Proof. intros Hl Hu Hr. exists [], []. rewrite app_nil_r. cbn [app length is_ok andb]. rewrite Hr. auto. Qed.

Lemma select_refused {A} q cs dr rows tenant required model d e d' :
  select_channel q cs dr rows tenant required model d = (Err e, d') -> reached (Err e : result A GatewayError) = false.
Proof.
  unfold select_channel. destruct (is_empty _); [by intros [= <- _]|].
  destruct (retain_healthy_channels _ _ _ _) as [h d1]. destruct (weighted_select_with_rng h dr); [done|].
  by intros [= <- _].
Qed.

Lemma decrypt_refused encoded e : decrypt encoded = Err e -> exists m, e = Internal m.
Proof. unfold decrypt. intros H. repeat (case_match; simplify_eq; eauto). Qed.

Definition refuses_input {A} (r : result A GatewayError) : Prop := forall e, r = Err e -> exists m, e = InvalidInput m.

Lemma refuses_then {A C} (r : result A GatewayError) (f : A -> result C GatewayError) :
  refuses_input r -> (forall a, refuses_input (f a)) -> refuses_input (and_then r f).
Proof. intros Hr Hf e. destruct r; cbn; [apply Hf|]. intros [= ->]. by apply Hr. Qed.

Lemma refuses_Ok {A} (a : A) : refuses_input (Ok a).
Proof. done. Qed.
Lemma refuses_Err {A} m : refuses_input (Err (InvalidInput m) : result A GatewayError).
Proof. intros e [= <-]. eauto. Qed.

Lemma join_refuses base suffix : refuses_input (join_api_path base suffix).
Proof. unfold join_api_path. destruct (url_parse base); [|apply refuses_Err]. destruct (negb _); [apply refuses_Err|done]. Qed.

Ltac refuse :=
  repeat first [apply refuses_Err | apply refuses_Ok | apply join_refuses
               | apply refuses_then; [|intros ?] | case_match].

Lemma form_texts_refuses fields body : refuses_input (form_texts fields body).
Proof. induction fields as [|f fields IH]; cbn; [done|]. destruct (get f body) as [[]|]; refuse; done. Qed.

Lemma dispatch_refuses capability protocol base body : refuses_input (dispatch_proxy show_f64 capability protocol base body).
Proof.
  assert (refuses_input (dispatch_chat protocol base body)) as Hc by (unfold dispatch_chat; refuse).
  assert (refuses_input (dispatch_stt show_f64 base body)) as Hs.
  { unfold dispatch_stt. destruct (get_str "file" body); [|refuse]. destruct (decode_audio _); [|refuse].
    apply refuses_then; [apply form_texts_refuses|]. intros texts. unfold form_temperature. refuse. }
  unfold dispatch_proxy. destruct capability; try done; destruct (str_eqb _ _); refuse; done.
Qed.

Lemma ensure_refuses body channel : refuses_input (ensure_request_model body channel).
Proof. unfold ensure_request_model, body_not_object. refuse. Qed.

Lemma stream_usage_refuses body : refuses_input (enable_stream_usage body).
Proof. unfold enable_stream_usage, body_not_object. refuse. Qed.

Lemma contract_refuses body : refuses_input (embedding_response_contract body).
Proof. unfold embedding_response_contract. refuse. Qed.

Lemma refused_input {A C} (r : result A GatewayError) e :
  refuses_input r -> r = Err e -> reached (Err e : result C GatewayError) = false.
Proof. intros H E. by destruct (H e E) as [m ->]. Qed.

Lemma quota_refused {A} s o channel tenant capability tokens d e d' :
  check_quota s o channel tenant capability tokens d = (Err e, d') -> reached (Err e : result A GatewayError) = false.
Proof.
  unfold check_quota. destruct (quota s); [|done]. destruct (check_all _ _ _ _ _ _ _) as [[?|[]] ?]; by intros [= <- _].
Qed.

Lemma proxy_settled s p o tenant user capability required body w r w' :
  proxy s p o tenant user capability required body w = (r, w') -> settled (metering s) r w w'.
Proof.
  unfold proxy. intros H.
  destruct (if decide (capability = Embedding) then _ else _) as [contract|e] eqn:Ec.
  2: { injection H as <- <-. apply settled_refused; [done|done|]. case_decide; [|done].
       apply (refused_input (and_then (embedding_response_contract body) (fun c => Ok (Some c)))); [|done].
       apply refuses_then; [apply contract_refuses|]. intros. apply refuses_Ok. }
  destruct (select_channel _ _ _ _ _ _ _ _) as [[channel|e] d1] eqn:Es.
  2: { injection H as <- <-. apply settled_refused; [done|done|]. by eapply select_refused. }
  destruct (ensure_request_model body channel) as [body1|e] eqn:Eb.
  2: { injection H as <- <-. apply settled_refused; [done|done|]. eapply refused_input; [apply ensure_refuses|done]. }
  destruct (check_quota _ _ _ _ _ _ _) as [[[]|e] d2] eqn:Eq.
  2: { injection H as <- <-. apply settled_refused; [done|done|]. by eapply quota_refused. }
  destruct (and_then (decrypt _) _) as [[key action]|e] eqn:Ed.
  - assert (forall A (r0 : result A GatewayError), settled (metering s) r0 (with_redis d2 (with_redis d1 w)) w' ->
              settled (metering s) r0 w w') as Hw by (intros A r0 (sent & billed & Hx); by exists sent, billed).
    apply Hw. destruct action; (eapply conclude_settled; [|exact H]).
    + destruct (str_eqb _ _); [apply send_anthropic_accounted|apply send_json_accounted].
    + apply send_tts_accounted.
    + apply send_stt_accounted.
  - injection H as <- <-. apply settled_refused; [done|done|].
    destruct (decrypt _) as [key|e'] eqn:Ek; cbn [and_then] in Ed.
    + eapply refused_input; [|exact Ed]. apply refuses_then; [apply dispatch_refuses|]. intros. apply refuses_Ok.
    + injection Ed as <-. apply decrypt_refused in Ek as [m ->]. done.
Qed.

(** C17: One request is charged at most once, and refusing costs nothing.
    Whatever happens, a call of [proxy] sends at most one request to a provider:
    exactly one if it answers or reports an upstream failure, none if it reports
    anything else (no channel, rate limit, invalid input, internal error).  It
    writes at most one bill, and only for an answer. *)
Theorem proxy_charges_once s p o tenant user capability required body w r w' :
  proxy s p o tenant user capability required body w = (r, w') -> settled (metering s) r w w'.
Proof. apply proxy_settled. Qed.

(** *** Channels that administration stored can be dispatched *)

(** A channel that passed administration never fails a request for the
    wrong protocol: for the capabilities it was selected for, with a base URL
    that was accepted and a temperature in range, dispatch finds a URL and keeps
    the body. *)
Theorem stored_channels_dispatch channel capability body :
  wf_channel channel -> capability <> Stt ->
  jsonb_exists (capabilities channel) (capability_as_str capability) = true ->
  is_ok (validate_base_url (base_url channel)) = true ->
  (forall t, get "temperature" body = Some t -> in_unit_interval t = true) ->
  exists url, dispatch_proxy show_f64 capability (protocol_type channel) (base_url channel) body =
              Ok (if decide (capability = Tts) then TtsBinary url body else JsonPost url body).
Proof.
  intros (_ & Hp & _ & caps & _ & Hc & Hv) Hstt Hcap Hurl Ht.
  assert (capability ∈ caps) as Hin.
  { rewrite Hc in Hcap. unfold capabilities_json in Hcap. rewrite jsonb_exists_array in Hcap.
    apply bool_decide_eq_true, list_elem_of_fmap in Hcap as (c & E & Hin). injection E as E.
    assert (c = capability) as -> by (by destruct c, capability). done. }
  assert (openai_only capability = true -> str_eqb (protocol_type channel) (lit "openai") = true) as Ho.
  { intros Ho. unfold served_protocol in Hp. apply orb_true_iff in Hp as [|Ha]; [done|].
    unfold validate_protocol_capabilities in Hv. rewrite Ha in Hv.
    assert (existsb openai_only caps = true) as He by (apply existsb_elem; eauto). by rewrite He in Hv. }
  assert (forall suffix, exists url, join_api_path (base_url channel) suffix = Ok url) as Hj.
  { intros suffix. unfold join_api_path, validate_base_url in *. destruct (url_parse (base_url channel)); [|done].
    destruct (plain_http_url _); [eauto|done]. }
  unfold dispatch_proxy, dispatch_chat.
  destruct capability; try done; rewrite ?Ho by done;
    repeat match goal with |- context [join_api_path ?b ?s] => destruct (Hj s) as [? ->] end; cbn [and_then decide]; eauto.
  all: destruct (str_eqb (protocol_type channel) (lit "openai")) eqn:Eo; [eauto|].
  all: unfold served_protocol in Hp; rewrite Eo in Hp; cbn [orb] in Hp; rewrite Hp.
  all: assert (match get "temperature" body with Some t => negb (in_unit_interval t) | None => false end = false) as ->
    by (destruct (get "temperature" body) as [t|]; [by rewrite (Ht t)|done]); eauto.
Qed.
End Proxy.

(** ** The theorems at concrete inputs *)

Section Witnesses.
#[local] Existing Instance small_urls.
#[local] Existing Instance small_sealing.
#[local] Existing Instance small_json_text.
#[local] Existing Instance small_jsonb.
#[local] Existing Instance map_redis.
#[local] Instance demo_base64_text : Base64Text.
Proof. by refine {| standard_decode s := Some s; standard_encode b := b; urlsafe_decode s := Some s |}. Defined.

Let listening : receiver := {| open_for := None; room _ := true |}.
Let frame (v : value) : bytes := Utf8.encode (data_frame (to_text v)).

Lemma chunks_do_not_matter_witness :
  let body := frame (content_chunk (lit "Hi")) in
  send_json_stream listening (Opened 200) (map Bytes [take 9 body; drop 9 body] ++ [ReceiverClosed]) =
  send_json_stream listening (Opened 200) (map Bytes [body] ++ [ReceiverClosed]).
Proof.
  intros body.
  refine (proj1 (chunks_do_not_matter (fun _ => true) listening [] (Opened 200) [take 9 body; drop 9 body] [body]
                   [ReceiverClosed] _ _)).
  - cbn [concat app]. by rewrite !app_nil_r, take_drop.
  - cbn [concat]. rewrite app_nil_r, take_drop. apply Nat.leb_le. vm_compute. reflexivity.
Defined.

Lemma stored_channels_dispatch_witness :
  let channel := demo_channel "a" "anthropic" [Chat; Vision] 3 in
  wf_channel channel /\
  exists url, dispatch_proxy (fun _ => []) Vision (protocol_type channel) (base_url channel) (json []) =
              Ok (JsonPost url (json [])).
Proof.
  intros channel. assert (wf_channel channel) as Hw.
  { split; [cbn; lia|]. split; [reflexivity|]. split; [done|]. by exists [Chat; Vision]. }
  split; [exact Hw|].
  refine (stored_channels_dispatch (fun _ => []) channel Vision (json []) Hw _ _ _ _); [done|reflexivity|reflexivity|].
  intros t Ht. vm_compute in Ht. done.
Defined.

Let demo_answer : value :=
  json [("choices", VArray [json [("message", json [("role", vstr "assistant"); ("content", vstr "Hi")]);
                                  ("finish_reason", vstr "stop")]]);
        ("usage", usage_object 3 1 4)].
Let demo_provider : provider := fun _ => Reply 200 Absent (Ok (Utf8.encode (to_text demo_answer))).
Let demo_surroundings : surroundings := {|
  rows := [demo_channel "a" "openai" [Chat] 1]; breaker_commands := [quiet_at 0]; draw _ := 0;
  checks := {| breaker_call := quiet_at 0; rpm_call := quiet_at 0; tpm_call := quiet_at 0; tenant_call := quiet_at 0 |};
  record1 := quiet_at 0; record2 := quiet_at 0; clock := 0; usage_id := 9; usage_stored := true |}.
Let demo_service : Service := {| quota := None; metering := true |}.
Let demo_world : world := {| redis := (∅ : @db map_redis); usage := []; left := [] |}.
Let demo_run := proxy (fun _ => []) (fun b => b) (fun _ => true) demo_service demo_provider demo_surroundings
  (lit "t1") (lit "7") Chat [Chat] (json [("messages", VArray [])]) demo_world.

Lemma proxy_charges_once_witness :
  (is_ok (fst demo_run) = true /\ length (usage (snd demo_run)) = 1%nat) /\
  settled true (fst demo_run) demo_world (snd demo_run).
Proof.
  split; [vm_compute; by split|].
  exact (proxy_charges_once (fun _ => []) (fun b => b) (fun _ => true) demo_service demo_provider demo_surroundings
    (lit "t1") (lit "7") Chat [Chat] (json [("messages", VArray [])]) demo_world (fst demo_run) (snd demo_run)
    (surjective_pairing demo_run)).
Defined.
End Witnesses.
