(* ===== verification/Streaming.v ===== *)
(** * The streaming handler ([server/src/handlers/responses.rs])

    The task between the gateway and the client of a stream: it reads the
    provider's events from the gateway's queue, writes the events of the
    Responses API, and hands the usage over to the bill at its end. *)

From S2P Require Import Prelude Utf8 Sse Redis Lock Cache Quota Channels JsonValue Responses Dispatch Metering Gateway.

Open Scope string_scope.
Open Scope list_scope.
Open Scope Z_scope.

(** ** How a stream ends *)

Record StreamTerminationState := { saw_done : bool; finish_reason : option str }.

Definition incomplete_reason (t : StreamTerminationState) : option str :=
  if saw_done t && bool_decide (finish_reason t = Some (lit "length")) then Some (lit "max_output_tokens")
  else if saw_done t && bool_decide (finish_reason t = Some (lit "content_filter")) then Some (lit "content_filter")
  else None.

Definition is_incomplete (t : StreamTerminationState) : bool :=
  match incomplete_reason t with Some _ => true | None => false end.
Definition is_completed (t : StreamTerminationState) : bool := saw_done t && negb (is_incomplete t).

Definition response_status (t : StreamTerminationState) : string :=
  if is_completed t then "completed" else if is_incomplete t then "incomplete" else "failed".
Definition terminal_event_name (t : StreamTerminationState) : string :=
  if is_completed t then "response.completed" else if is_incomplete t then "response.incomplete" else "response.failed".

Section Handler.
Context {J : JsonText}.

(** The first choice that names a reason. *)
Definition chunk_finish_reason (chunk : value) : option str :=
  choices ← get_array "choices" chunk; head (omap (get_str "finish_reason") choices).

Definition observe (event_str : str) (t : StreamTerminationState) : StreamTerminationState :=
  match upstream_event_data event_str with
  | None => t
  | Some data =>
      if str_eqb data done_marker then {| saw_done := true; finish_reason := finish_reason t |}
      else
        match of_text data with
        | None => t
        | Some chunk => match chunk_finish_reason chunk with
                        | Some reason => {| saw_done := saw_done t; finish_reason := Some reason |}
                        | None => t
                        end
        end
  end.

(** ** The state of the task *)

(** Identifiers, clock and what [proxy_stream] returned. *)
Record stream_context := {
  response_id : str; msg_id : str; started_at : Z; selected_model : str; capability_name : str;
  input_token_estimate : Z
}.

(** [out]: what the client's queue has taken.  A sequence number counts events,
    far below [u64]. *)
Record stream_state := {
  sequence_number : Z; acc : accumulators; refusal_accumulator : str; termination : StreamTerminationState;
  consecutive_parse_errors : Z; out : list str
}.

Definition initial_state : stream_state := {|
  sequence_number := 0;
  acc := {| accumulated_text := []; model_name := None; usage_input := 0; usage_output := 0 |};
  refusal_accumulator := []; termination := {| saw_done := false; finish_reason := None |};
  consecutive_parse_errors := 0; out := [] |}.

Definition with_sequence n st := {| sequence_number := n; acc := acc st; refusal_accumulator := refusal_accumulator st;
  termination := termination st; consecutive_parse_errors := consecutive_parse_errors st; out := out st |}.
Definition with_acc a st := {| sequence_number := sequence_number st; acc := a;
  refusal_accumulator := refusal_accumulator st; termination := termination st;
  consecutive_parse_errors := consecutive_parse_errors st; out := out st |}.
Definition with_refusal r st := {| sequence_number := sequence_number st; acc := acc st; refusal_accumulator := r;
  termination := termination st; consecutive_parse_errors := consecutive_parse_errors st; out := out st |}.
Definition with_termination t st := {| sequence_number := sequence_number st; acc := acc st;
  refusal_accumulator := refusal_accumulator st; termination := t;
  consecutive_parse_errors := consecutive_parse_errors st; out := out st |}.
Definition with_errors n st := {| sequence_number := sequence_number st; acc := acc st;
  refusal_accumulator := refusal_accumulator st; termination := termination st;
  consecutive_parse_errors := n; out := out st |}.
Definition with_out o st := {| sequence_number := sequence_number st; acc := acc st;
  refusal_accumulator := refusal_accumulator st; termination := termination st;
  consecutive_parse_errors := consecutive_parse_errors st; out := o |}.

(** The client: takes [open_for] items; a send under a deadline may miss. *)
Definition open (rx : receiver) (st : stream_state) : bool :=
  match open_for rx with None => true | Some n => (length (out st) <? n)%nat end.

(** A send that waits: whether the client is still there. *)
Definition send (rx : receiver) (text : str) (st : stream_state) : bool * stream_state :=
  if open rx st then (true, with_out (out st ++ [text]) st) else (false, st).

(** An event that takes the next sequence number before it is sent. *)
Definition send_event (rx : receiver) (name : string) (event : Z -> value) (st : stream_state) : bool * stream_state :=
  let n := sequence_number st in
  send rx (format_sse_event (lit name) (event n)) (with_sequence (n + 1) st).

Definition stream_failed : string := "AI provider stream failed".

Definition send_stream_error (rx : receiver) (code : string) (st : stream_state) : stream_state :=
  let event := error_event (lit code) (lit stream_failed) (sequence_number st) in
  let st := with_sequence (sequence_number st + 1) st in
  if open rx st && room rx (length (out st)) then with_out (out st ++ [format_sse_event (lit "error") event]) st else st.

(** ** One event of the provider *)

Inductive EventResult := Continue | ClientDisconnected | ParseError | ProviderError | UpstreamDone.

Definition process_upstream_event (rx : receiver) (item_id event_str : str) (st : stream_state) :
    EventResult * stream_state :=
  if is_empty event_str then (Continue, st)
  else if bool_decide (upstream_event_type event_str = Some (lit "error")) then (ProviderError, st)
  else
    match upstream_event_data event_str with
    | None => (Continue, st)
    | Some data =>
        if str_eqb data done_marker then (UpstreamDone, st)
        else
          match of_text data with
          | None => (ParseError, st)
          | Some chunk =>
              if is_error_payload chunk then (ProviderError, st)
              else
                let '(result, a) := translate_streaming_chunk chunk (acc st) item_id (sequence_number st) in
                let st := with_acc a st in
                let '(alive, st) :=
                  match result with
                  | None => (true, st)
                  | Some (sse_str, _) => send rx sse_str (with_sequence (sequence_number st + 1) st)
                  end in
                if negb alive then (ClientDisconnected, st)
                else
                  match extract_upstream_refusal chunk with
                  | None => (Continue, st)
                  | Some refusal =>
                      let st := with_refusal (refusal_accumulator st ++ refusal) st in
                      let '(alive, st) := send_event rx "response.refusal.delta" (refusal_delta refusal item_id) st in
                      (if alive then Continue else ClientDisconnected, st)
                  end
          end
    end.

(** ** The loop *)

(** [Abandon] meters and returns; [Finish] goes on to the closing events. *)
Inductive stream_exit := Abandon (st : stream_state) | Finish (st : stream_state).

Definition max_consecutive_parse_errors : Z := 1.

Definition parse_failed (rx : receiver) (st : stream_state) : stream_state + stream_exit :=
  let st := with_errors (consecutive_parse_errors st + 1) st in
  if max_consecutive_parse_errors <=? consecutive_parse_errors st
  then inr (Abandon (send_stream_error rx "invalid_stream_data" st)) else inl st.

Definition handle_event (rx : receiver) (item_id : str) (event : bytes) (position : nat) (st : stream_state) :
    stream_state + stream_exit :=
  match from_utf8 (take position event) with
  | None => parse_failed rx st
  | Some event_str =>
      let st := with_termination (observe event_str (termination st)) st in
      match process_upstream_event rx item_id event_str st with
      | (Continue, st) => inl (with_errors 0 st)
      | (ParseError, st) => parse_failed rx st
      | (ProviderError, st) => inr (Abandon (send_stream_error rx "provider_stream_error" st))
      | (ClientDisconnected, st) => inr (Abandon st)
      | (UpstreamDone, st) => inr (Finish st)
      end
  end.

(** What the loop's [select] meets: an item of the gateway, the tick of the
    keepalive interval, or the client closing.  The list ends with the stream. *)
Inductive input := FromGateway (i : Gateway.item) | Tick | ClientClosed.

Definition keepalive : str := lit ": keepalive" ++ [newline; newline].

Fixpoint stream_loop (rx : receiver) (item_id : str) (inputs : list input) (buffer : bytes) (st : stream_state) :
    stream_exit :=
  match inputs with
  | [] => Finish st
  | ClientClosed :: _ => Abandon st
  | Tick :: inputs =>
      let '(alive, st) := send rx keepalive st in
      if alive : bool then stream_loop rx item_id inputs buffer st else Abandon st
  | FromGateway (Err _) :: _ => Abandon (send_stream_error rx "provider_stream_error" st)
  | FromGateway (Ok b) :: inputs =>
      if (max_sse_buffer <? length buffer + length b)%nat
      then Abandon (send_stream_error rx "stream_buffer_overflow" st)
      else match consume (F := handler_framing) (handle_event rx item_id) (buffer ++ b) st with
           | inl (buffer, st) => stream_loop rx item_id inputs buffer st
           | inr e => e
           end
  end.

(** ** Opening and closing events *)

Definition created_event (c : stream_context) (n : Z) : value :=
  json [("type", vstr "response.created");
        ("response", json [("id", VString (response_id c)); ("object", vstr "response");
                           ("created_at", vnat (started_at c)); ("model", VString (selected_model c));
                           ("capability", VString (capability_name c)); ("status", vstr "in_progress");
                           ("output", VArray []); ("usage", VNull); ("incomplete_details", VNull); ("error", VNull)]);
        ("sequence_number", vnat n)].

Definition item_added_event (c : stream_context) (n : Z) : value :=
  json [("type", vstr "response.output_item.added"); ("output_index", vnat 0);
        ("item", json [("id", VString (msg_id c)); ("type", vstr "message"); ("status", vstr "in_progress");
                       ("role", vstr "assistant"); ("content", VArray [])]);
        ("sequence_number", vnat n)].

Definition output_text_part (text : str) : value :=
  json [("type", vstr "output_text"); ("text", VString text); ("annotations", VArray [])].

Definition part_event (type : string) (c : stream_context) (part : value) (n : Z) : value :=
  json [("type", vstr type); ("item_id", VString (msg_id c)); ("output_index", vnat 0); ("content_index", vnat 0);
        ("part", part); ("sequence_number", vnat n)].

(** Three events in a row; the first that fails ends it. *)
Fixpoint send_all (rx : receiver) (events : list (string * (Z -> value))) (st : stream_state) : bool * stream_state :=
  match events with
  | [] => (true, st)
  | (name, event) :: events =>
      let '(alive, st) := send_event rx name event st in
      if alive : bool then send_all rx events st else (false, st)
  end.

Definition opening_events (c : stream_context) : list (string * (Z -> value)) :=
  [("response.created", created_event c); ("response.output_item.added", item_added_event c);
   ("response.content_part.added", part_event "response.content_part.added" c (output_text_part []))].

(** *** What is billed *)

Definition partial_stream_metering_payload (model capability : str) (usage_input usage_output input_estimate : Z)
    (accumulated_text : str) : value :=
  let usage_input := if usage_input =? 0 then input_estimate else usage_input in
  let usage_output := if (usage_output =? 0) && negb (is_empty accumulated_text)
                      then estimate_tokens_from_text accumulated_text else usage_output in
  json [("model", VString model); ("capability", VString capability); ("status", vstr "failed");
        ("usage", json [("input_tokens", vnat usage_input); ("output_tokens", vnat usage_output);
                        ("total_tokens", vnat (saturating_add usage_input usage_output))])].

Definition final_model (c : stream_context) (st : stream_state) : str := default (selected_model c) (model_name (acc st)).

Definition partial_payload (c : stream_context) (st : stream_state) : value :=
  partial_stream_metering_payload (final_model c st) (capability_name c) (usage_input (acc st)) (usage_output (acc st))
    (input_token_estimate c) (accumulated_text (acc st)).

Definition is_refusal (st : stream_state) : bool :=
  is_empty (accumulated_text (acc st)) && negb (is_empty (refusal_accumulator st)).

Definition final_output (st : stream_state) : Z :=
  let produced := Z.max (Z.of_N (utf8_len (accumulated_text (acc st)))) (Z.of_N (utf8_len (refusal_accumulator st))) in
  if (usage_output (acc st) =? 0) && (0 <? produced) then Z.max (produced / 4) 1 else usage_output (acc st).
Definition final_input (c : stream_context) (st : stream_state) : Z :=
  if usage_input (acc st) =? 0 then input_token_estimate c else usage_input (acc st).

Definition output_part (st : stream_state) : value :=
  if is_refusal st then json [("type", vstr "refusal"); ("refusal", VString (refusal_accumulator st))]
  else output_text_part (accumulated_text (acc st)).

Definition output_item (c : stream_context) (st : stream_state) : value :=
  json [("id", VString (msg_id c)); ("type", vstr "message");
        ("status", vstr (if String.eqb (response_status (termination st)) "completed" then "completed" else "incomplete"));
        ("role", vstr "assistant"); ("content", VArray [output_part st])].

Definition failed_stream_response_error : value :=
  json [("code", vstr "server_error"); ("message", vstr stream_failed)].

Definition response_payload (c : stream_context) (st : stream_state) : value :=
  let status := response_status (termination st) in
  json [("id", VString (response_id c)); ("object", vstr "response"); ("created_at", vnat (started_at c));
        ("model", VString (final_model c st)); ("capability", VString (capability_name c)); ("status", vstr status);
        ("output", VArray [output_item c st]);
        ("usage", json [("input_tokens", vnat (final_input c st)); ("output_tokens", vnat (final_output st));
                        ("total_tokens", vnat (u64_wrap (final_input c st + final_output st)))]);
        ("incomplete_details", match incomplete_reason (termination st) with
                               | Some reason => json [("reason", VString reason)]
                               | None => VNull
                               end);
        ("error", if String.eqb status "failed" then failed_stream_response_error else VNull)].

Definition done_event (c : stream_context) (st : stream_state) : string * (Z -> value) :=
  if is_refusal st
  then ("response.refusal.done", refusal_done (refusal_accumulator st) (msg_id c))
  else ("response.output_text.done", output_text_done (accumulated_text (acc st)) (msg_id c)).

Definition item_done_event (c : stream_context) (st : stream_state) (n : Z) : value :=
  json [("type", vstr "response.output_item.done"); ("output_index", vnat 0); ("item", output_item c st);
        ("sequence_number", vnat n)].

Definition terminal_event (c : stream_context) (st : stream_state) (n : Z) : value :=
  json [("type", vstr (terminal_event_name (termination st))); ("response", response_payload c st);
        ("sequence_number", vnat n)].

Definition closing_events (c : stream_context) (st : stream_state) : list (string * (Z -> value)) :=
  [done_event c st;
   ("response.content_part.done", part_event "response.content_part.done" c (output_part st));
   ("response.output_item.done", item_done_event c st);
   (terminal_event_name (termination st), terminal_event c st)].

(** ** The task *)

(** How the task left: what the client took, the model and payload it bills. *)
Record stream_result := { client : list str; bill_model : str; bill_payload : value }.

Definition abandon (c : stream_context) (st : stream_state) : stream_result :=
  {| client := out st; bill_model := final_model c st; bill_payload := partial_payload c st |}.

Definition finish (rx : receiver) (c : stream_context) (st : stream_state) : stream_result :=
  {| client := out (snd (send_all rx (closing_events c st) st));
     bill_model := final_model c st; bill_payload := response_payload c st |}.

Definition handle_streaming (rx : receiver) (c : stream_context) (inputs : list input) : stream_result :=
  match send_all rx (opening_events c) initial_state with
  | (false, st) => abandon c st
  | (true, st) =>
      match stream_loop rx (msg_id c) inputs [] st with
      | Abandon st => abandon c st
      | Finish st => finish rx c st
      end
  end.

(** [record_stream_usage]: best effort under a deadline. *)
Definition record_stream_usage (now new_id : Z) (stored : bool) (user tenant channel : str) (c : stream_context)
    (r : stream_result) (rows : list TokenUsage) : list TokenUsage :=
  snd (record_usage now new_id stored (default 0 (parse_i64 user)) tenant channel (bill_model r) (capability_name c)
         (bill_payload r) rows).

(** ** What the client sees

    The wire is a list of texts; the specification reads it as a log of events
    and keepalive comments. *)

Inductive entry := Event (name : string) (data : value) | Keepalive.

Definition render (e : entry) : str :=
  match e with Event name data => format_sse_event (lit name) data | Keepalive => keepalive end.

Definition number (e : entry) : option Z := match e with Event _ data => get_u64 "sequence_number" data | Keepalive => None end.
Definition numbers (log : list entry) : list Z := omap number log.

Definition terminal_names : list string := ["response.completed"; "response.incomplete"; "response.failed"; "error"].
Definition is_terminal (e : entry) : bool :=
  match e with Event name _ => existsb (String.eqb name) terminal_names | Keepalive => false end.

Definition delta_of (kind : string) (e : entry) : option str :=
  match e with Event name data => if String.eqb name kind then get_str "delta" data else None | Keepalive => None end.
Definition deltas (kind : string) (log : list entry) : str := concat (omap (delta_of kind) log).
Definition text_deltas := deltas "response.output_text.delta".
Definition refusal_deltas := deltas "response.refusal.delta".

Record describes (log : list entry) (st : stream_state) : Prop := {
  d_out : out st = render <$> log;
  d_numbers : numbers log = seqZ 0 (sequence_number st);
  d_counted : 0 <= sequence_number st;
  d_open : Forall (fun e => is_terminal e = false) log;
  d_text : text_deltas log = accumulated_text (acc st);
  d_refusal : refusal_deltas log = refusal_accumulator st
}.

(** A log the client may have when the stream is over: numbered from zero
    without gaps, a terminal event only at its end. *)
Definition well_formed_log (log : list entry) : Prop :=
  (exists n, numbers log = seqZ 0 n) /\
  forall before e after, log = before ++ e :: after -> is_terminal e = true -> after = [].

(** The content of the answer in a terminal event. *)
Definition answer_part (data : value) : option value :=
  response ← get "response" data; output ← get_array "output" response; item ← head output;
  content ← get_array "content" item; head content.

(** The answer is the concatenation of the deltas; a pure refusal is a refusal. *)
Definition told_part (log : list entry) : value :=
  if is_empty (text_deltas log) && negb (is_empty (refusal_deltas log))
  then json [("type", vstr "refusal"); ("refusal", VString (refusal_deltas log))]
  else output_text_part (text_deltas log).

Definition adds_up (log : list entry) : Prop :=
  forall name data, last log = Some (Event name data) -> is_terminal (Event name data) = true -> name <> "error" ->
    answer_part data = Some (told_part log).

Definition consistent (sent : list str) : Prop :=
  exists log, sent = render <$> log /\ well_formed_log log /\ adds_up log.

Lemma open_log_adds_up log : Forall (fun e => is_terminal e = false) log -> adds_up log.
Proof.
  intros Ho name data Hl Ht. apply last_Some in Hl as [l ->]. apply Forall_app in Ho as [_ Ho].
  inversion_clear Ho as [|? ? He _]. congruence.
Qed.

Lemma seqZ_snoc n : 0 <= n -> seqZ 0 (n + 1) = seqZ 0 n ++ [n].
Proof. intros H. by rewrite seqZ_app by lia. Qed.

Lemma numbers_snoc log e n : number e = Some n -> numbers (log ++ [e]) = numbers log ++ [n].
Proof. intros H. unfold numbers. rewrite omap_app. cbn. by rewrite H. Qed.

Lemma deltas_snoc kind log e : deltas kind (log ++ [e]) = deltas kind log ++ default [] (delta_of kind e).
Proof. unfold deltas. rewrite omap_app, concat_app. f_equal. cbn. destruct (delta_of kind e); cbn; by rewrite ?app_nil_r. Qed.

Lemma open_log_well_formed log n :
  numbers log = seqZ 0 n -> Forall (fun e => is_terminal e = false) log -> well_formed_log log.
Proof.
  intros Hn Ho. split; [by exists n|]. intros before e after -> Ht.
  apply Forall_app in Ho as [_ Ho]. inversion_clear Ho as [|? ? He _]. congruence.
Qed.

Lemma terminated_log_well_formed log e n :
  numbers (log ++ [e]) = seqZ 0 n -> Forall (fun e => is_terminal e = false) log -> well_formed_log (log ++ [e]).
Proof.
  intros Hn Ho. split; [by exists n|]. intros before x after E Ht.
  destruct after as [|y after _] using rev_ind; [done|]. exfalso.
  rewrite app_comm_cons, app_assoc in E. apply app_inj_tail in E as [-> _].
  apply Forall_app in Ho as [_ Ho]. inversion_clear Ho as [|? ? He _]. congruence.
Qed.

Lemma describes_consistent log st : describes log st -> consistent (out st).
Proof. intros [E Hn _ Ho _ _]. exists log. split; [done|].
  split; [by eapply open_log_well_formed|by apply open_log_adds_up].
Qed.

(** The event is numbered by the counter. *)
Definition carries_number (event : Z -> value) : Prop := forall n, get_u64 "sequence_number" (event n) = Some n.

(** Sending an event that is neither terminal nor a delta. *)
Lemma send_event_plain rx name event log st :
  describes log st -> carries_number event -> existsb (String.eqb name) terminal_names = false ->
  String.eqb name "response.output_text.delta" = false -> String.eqb name "response.refusal.delta" = false ->
  match send_event rx name event st with
  | (true, st') => describes (log ++ [Event name (event (sequence_number st))]) st' /\ acc st' = acc st /\
                   refusal_accumulator st' = refusal_accumulator st /\ termination st' = termination st
  | (false, st') => out st' = out st
  end.
Proof.
  intros [E Hn Hc Ho Ht Hr] Hnum Hterm H1 H2. unfold send_event, send.
  destruct (open rx _); cbn [out with_out with_sequence acc refusal_accumulator termination]; [|done].
  split; [|done]. split; cbn [out with_out with_sequence acc refusal_accumulator sequence_number].
  - by rewrite E, fmap_app.
  - rewrite (numbers_snoc log (Event name (event (sequence_number st))) _ (Hnum _)), Hn. by rewrite seqZ_snoc.
  - lia.
  - apply Forall_app. split; [done|]. by constructor.
  - unfold text_deltas in *. rewrite deltas_snoc. cbn [delta_of]. by rewrite H1, app_nil_r.
  - unfold refusal_deltas in *. rewrite deltas_snoc. cbn [delta_of]. by rewrite H2, app_nil_r.
Qed.

Lemma send_keepalive rx log st :
  describes log st ->
  match send rx keepalive st with
  | (true, st') => describes (log ++ [Keepalive]) st'
  | (false, st') => st' = st
  end.
Proof.
  intros [E Hn Hc Ho Ht Hr]. unfold send. destruct (open rx st); [|done].
  split; cbn [out with_out acc refusal_accumulator sequence_number].
  - by rewrite E, fmap_app.
  - unfold numbers in *. rewrite omap_app. cbn. by rewrite app_nil_r.
  - done.
  - apply Forall_app. split; [done|]. by constructor.
  - unfold text_deltas in *. by rewrite deltas_snoc, app_nil_r.
  - unfold refusal_deltas in *. by rewrite deltas_snoc, app_nil_r.
Qed.

Lemma error_consistent rx code log st : describes log st -> consistent (out (send_stream_error rx code st)).
Proof.
  intros D. pose proof (describes_consistent _ _ D) as Hc. destruct D as [E Hn Hp Ho _ _].
  unfold send_stream_error. destruct (_ && _); cbn [out with_out with_sequence]; [|done].
  exists (log ++ [Event "error" (error_event (lit code) (lit stream_failed) (sequence_number st))]).
  split; [by rewrite E, fmap_app|]. split.
  - eapply terminated_log_well_formed; [|done].
    rewrite (numbers_snoc _ _ (sequence_number st)) by reflexivity. by rewrite Hn, seqZ_snoc.
  - intros name data Hl _ Hne. rewrite last_snoc in Hl. by injection Hl as <- _.
Qed.

(** *** One event *)

Lemma translate_chunk_cases chunk a item_id n result a' :
  translate_streaming_chunk chunk a item_id n = (result, a') ->
  match result with
  | Some (text, delta) =>
      text = format_sse_event (lit "response.output_text.delta") (output_text_delta delta item_id n) /\
      accumulated_text a' = accumulated_text a ++ delta
  | None => accumulated_text a' = accumulated_text a
  end.
Proof.
  unfold translate_streaming_chunk. destruct (is_upstream_done chunk); [by intros [= <- <-]|].
  destruct (extract_upstream_delta chunk); by intros [= <- <-].
Qed.

(** A text delta on its way, as the code sends it. *)
Lemma send_text_delta rx log st a delta item_id :
  describes log st -> accumulated_text a = accumulated_text (acc st) ++ delta ->
  match send rx (format_sse_event (lit "response.output_text.delta") (output_text_delta delta item_id (sequence_number st)))
             (with_sequence (sequence_number st + 1) (with_acc a st)) with
  | (true, st') => (exists log', describes log' st') /\ acc st' = a /\ refusal_accumulator st' = refusal_accumulator st
  | (false, st') => out st' = out st
  end.
Proof.
  intros [E Hn Hc Ho Ht Hr] Ha. unfold send. destruct (open rx _); cbn [out with_out with_sequence with_acc acc]; [|done].
  split; [|done]. exists (log ++ [Event "response.output_text.delta" (output_text_delta delta item_id (sequence_number st))]).
  split; cbn [out with_out with_sequence with_acc acc refusal_accumulator sequence_number].
  - by rewrite E, fmap_app.
  - rewrite (numbers_snoc _ _ (sequence_number st)) by reflexivity. by rewrite Hn, seqZ_snoc.
  - lia.
  - apply Forall_app. split; [done|]. by constructor.
  - unfold text_deltas in *. rewrite deltas_snoc, Ht, Ha. f_equal.
  - unfold refusal_deltas in *. by rewrite deltas_snoc, app_nil_r.
Qed.

Lemma send_refusal_delta rx log st delta item_id :
  describes log st ->
  match send_event rx "response.refusal.delta" (refusal_delta delta item_id)
          (with_refusal (refusal_accumulator st ++ delta) st) with
  | (true, st') => exists log', describes log' st'
  | (false, st') => out st' = out st
  end.
Proof.
  intros [E Hn Hc Ho Ht Hr]. unfold send_event, send. cbn [sequence_number with_refusal].
  destruct (open rx _); cbn [out with_out with_sequence with_refusal]; [|done].
  exists (log ++ [Event "response.refusal.delta" (refusal_delta delta item_id (sequence_number st))]).
  split; cbn [out with_out with_sequence with_refusal acc refusal_accumulator sequence_number].
  - by rewrite E, fmap_app.
  - rewrite (numbers_snoc _ _ (sequence_number st)) by reflexivity. by rewrite Hn, seqZ_snoc.
  - lia.
  - apply Forall_app. split; [done|]. by constructor.
  - unfold text_deltas in *. by rewrite deltas_snoc, app_nil_r.
  - unfold refusal_deltas in *. rewrite deltas_snoc, Hr. f_equal.
Qed.

Definition described (st : stream_state) : Prop := exists log, describes log st.

Lemma described_same st st' :
  out st' = out st -> sequence_number st' = sequence_number st -> accumulated_text (acc st') = accumulated_text (acc st) ->
  refusal_accumulator st' = refusal_accumulator st -> described st -> described st'.
Proof. intros E1 E2 E3 E4 [log [H1 H2 H3 H4 H5 H6]]. exists log. split; by rewrite ?E1, ?E2, ?E3, ?E4. Qed.

Lemma described_consistent st : described st -> consistent (out st).
Proof. intros [log D]. by eapply describes_consistent. Qed.

Lemma process_keeps rx item_id event_str st r st' :
  process_upstream_event rx item_id event_str st = (r, st') -> described st ->
  match r with ClientDisconnected => consistent (out st') | _ => described st' end.
Proof.
  unfold process_upstream_event. intros H D.
  destruct (is_empty event_str); [by injection H as <- <-|].
  destruct (bool_decide _); [by injection H as <- <-|].
  destruct (upstream_event_data event_str) as [data|]; [|by injection H as <- <-].
  destruct (str_eqb data done_marker); [by injection H as <- <-|].
  destruct (of_text data) as [chunk|]; [|by injection H as <- <-].
  destruct (is_error_payload chunk); [by injection H as <- <-|].
  destruct (translate_streaming_chunk chunk (acc st) item_id (sequence_number st)) as [result a] eqn:Et.
  apply translate_chunk_cases in Et. pose proof (described_consistent _ D) as Hcons.
  (* the text delta *)
  assert (forall alive st1,
    match result with None => (true, with_acc a st)
    | Some (s, _) => send rx s (with_sequence (sequence_number (with_acc a st) + 1) (with_acc a st)) end = (alive, st1) ->
    if alive : bool then described st1 else consistent (out st1)) as Hd.
  { intros alive st1 Hst1. destruct result as [[text delta]|].
    - destruct Et as [-> Ha], D as [log D]. pose proof (send_text_delta rx log st a delta item_id D Ha) as Hs.
      cbn [sequence_number with_acc] in Hst1. rewrite Hst1 in Hs.
      destruct alive; [exact (proj1 Hs)|by rewrite Hs].
    - injection Hst1 as <- <-. by apply (described_same st). }
  destruct (match result with Some _ => _ | None => _ end) as [alive st1] eqn:E1.
  specialize (Hd alive st1 eq_refl). destruct alive; cbn [negb] in H; [|by injection H as <- <-].
  destruct (extract_upstream_refusal chunk) as [refusal|]; [|by injection H as <- <-].
  destruct Hd as [log D1]. pose proof (send_refusal_delta rx log st1 refusal item_id D1) as Hs.
  pose proof (describes_consistent _ _ D1) as Hc1.
  destruct (send_event rx "response.refusal.delta" _ _) as [alive st2].
  destruct alive; injection H as <- <-; [done|by rewrite Hs].
Qed.

Definition exit_ok (e : stream_exit) : Prop :=
  match e with Abandon st => consistent (out st) | Finish st => described st end.

Lemma error_exit_ok rx code st : described st -> exit_ok (Abandon (send_stream_error rx code st)).
Proof. intros [log D]. by eapply error_consistent. Qed.

Lemma parse_failed_ok rx st :
  described st -> match parse_failed rx st with inl st' => described st' | inr e => exit_ok e end.
Proof.
  intros D. unfold parse_failed. assert (described (with_errors (consecutive_parse_errors st + 1) st)) as D' by by apply (described_same st).
  destruct (_ <=? _); [|done]. by apply error_exit_ok.
Qed.

Lemma handle_event_ok rx item_id event p st :
  described st -> match handle_event rx item_id event p st with inl st' => described st' | inr e => exit_ok e end.
Proof.
  intros D. unfold handle_event. destruct (from_utf8 (take p event)) as [event_str|]; [|by apply parse_failed_ok].
  assert (described (with_termination (observe event_str (termination st)) st)) as D1 by by apply (described_same st).
  destruct (process_upstream_event rx item_id event_str _) as [r st'] eqn:E.
  pose proof (process_keeps _ _ _ _ _ _ E D1) as H.
  destruct r; [by apply (described_same st')|done|by apply parse_failed_ok|by apply error_exit_ok|done].
Qed.

Lemma stream_loop_ok rx item_id inputs buffer st : described st -> exit_ok (stream_loop rx item_id inputs buffer st).
Proof.
  revert buffer st; induction inputs as [|i inputs IH]; intros buffer st D; cbn [stream_loop]; [done|].
  destruct i as [[b|e]| |].
  - destruct (_ <? _)%nat; [by apply error_exit_ok|].
    pose proof (consume_invariant (F := handler_framing) (handle_event rx item_id) described exit_ok (buffer ++ b) st
                  (fun block p s => handle_event_ok rx item_id block p s) D) as H.
    destruct (consume _ _ st) as [[buffer' st']|e]; [by apply IH|done].
  - by apply error_exit_ok.
  - destruct D as [log D]. pose proof (send_keepalive rx log st D) as H.
    destruct (send rx keepalive st) as [[] st']; [apply IH; by eexists|subst; by eapply describes_consistent].
  - by apply described_consistent.
Qed.

(** *** The opening and the end *)

Definition plain_event (e : string * (Z -> value)) : Prop :=
  carries_number (snd e) /\ existsb (String.eqb (fst e)) terminal_names = false /\
  String.eqb (fst e) "response.output_text.delta" = false /\ String.eqb (fst e) "response.refusal.delta" = false.

(** The parts of the state that sending does not change. *)
Definition same_answer (st st' : stream_state) : Prop :=
  acc st' = acc st /\ refusal_accumulator st' = refusal_accumulator st /\ termination st' = termination st.

Lemma send_all_plain rx events st :
  Forall plain_event events -> described st ->
  match send_all rx events st with
  | (true, st') => described st' /\ same_answer st st'
  | (false, st') => consistent (out st')
  end.
Proof.
  intros H. revert st. induction H as [|[name event] events (H1 & H2 & H3 & H4) _ IH]; intros st D; cbn [send_all].
  - by split.
  - destruct D as [log D]. pose proof (send_event_plain rx name event log st D H1 H2 H3 H4) as Hs.
    destruct (send_event rx name event st) as [[] st1].
    + destruct Hs as (D1 & E1 & E2 & E3). specialize (IH st1 ltac:(by eexists)).
      destruct (send_all rx events st1) as [[] st2]; [|done]. destruct IH as (D2 & F1 & F2 & F3).
      split; [done|]. split; [congruence|]. split; congruence.
    + rewrite Hs. by eapply describes_consistent.
Qed.

Lemma send_all_app rx l1 l2 st :
  send_all rx (l1 ++ l2) st =
  let '(alive, st') := send_all rx l1 st in if alive : bool then send_all rx l2 st' else (false, st').
Proof.
  revert st; induction l1 as [|[name event] l1 IH]; intros st; cbn [app send_all]; [done|].
  destruct (send_event rx name event st) as [[] st1]; [apply IH|done].
Qed.

(** The log that ends with the terminal event. *)
Lemma terminal_log c log st st1 :
  describes log st1 -> same_answer st st1 ->
  let e := Event (terminal_event_name (termination st)) (terminal_event c st (sequence_number st1)) in
  well_formed_log (log ++ [e]) /\ text_deltas (log ++ [e]) = accumulated_text (acc st) /\
  refusal_deltas (log ++ [e]) = refusal_accumulator st /\
  answer_part (terminal_event c st (sequence_number st1)) = Some (told_part (log ++ [e])).
Proof.
  intros [F1 F2 F3 F4 F5 F6] (E1 & E2 & E3) e.
  assert (text_deltas (log ++ [e]) = accumulated_text (acc st)) as Htx.
  { unfold text_deltas in *. rewrite deltas_snoc, F5, E1. unfold e. cbn [delta_of].
    unfold terminal_event_name. destruct (is_completed (termination st)), (is_incomplete (termination st)); by rewrite app_nil_r. }
  assert (refusal_deltas (log ++ [e]) = refusal_accumulator st) as Hrf.
  { unfold refusal_deltas in *. rewrite deltas_snoc, F6, E2. unfold e. cbn [delta_of].
    unfold terminal_event_name. destruct (is_completed (termination st)), (is_incomplete (termination st)); by rewrite app_nil_r. }
  split; [|split; [done|split; [done|unfold told_part; rewrite Htx, Hrf; reflexivity]]].
  eapply terminated_log_well_formed; [|done]. rewrite (numbers_snoc _ _ (sequence_number st1)) by reflexivity.
  by rewrite F2, seqZ_snoc.
Qed.

Lemma closing_split c st :
  closing_events c st = take 3 (closing_events c st) ++ [(terminal_event_name (termination st), terminal_event c st)].
Proof. done. Qed.

Lemma closing_plain c st : Forall plain_event (take 3 (closing_events c st)).
Proof. cbn [take closing_events]. unfold done_event. destruct (is_refusal st); repeat constructor. Qed.

Lemma finish_consistent rx c st : described st -> consistent (client (finish rx c st)).
Proof.
  intros D. unfold finish. cbn [client]. rewrite closing_split, send_all_app.
  pose proof (send_all_plain rx _ st (closing_plain c st) D) as H.
  destruct (send_all rx (take 3 (closing_events c st)) st) as [[] st1]; [|exact H].
  destruct H as ([log D1] & Hs). cbn [send_all]. unfold send_event, send.
  destruct (open rx _); cbn [snd out with_out with_sequence]; [|by eapply describes_consistent].
  destruct (terminal_log c log st st1 D1 Hs) as (Hw & _ & _ & Ha).
  exists (log ++ [Event (terminal_event_name (termination st)) (terminal_event c st (sequence_number st1))]).
  split; [by rewrite (d_out _ _ D1), fmap_app|]. split; [exact Hw|].
  intros name data Hl Ht Hne. rewrite last_snoc in Hl. by injection Hl as <- <-.
Qed.

Lemma opening_plain c : Forall plain_event (opening_events c).
Proof. repeat constructor. Qed.

Lemma initial_described : described initial_state.
Proof. exists []. split; [done|done|cbn; lia|constructor|done|done]. Qed.

(** *** Frames of chunks, from the gateway to the text *)

(** A chunk that JSON can carry, and that is not an error. *)
Record carried (chunk : value) : Prop := {
  c_wf : wf chunk = true;
  c_float_free : float_free chunk = true;
  c_depth : (depth chunk < 128)%nat;
  c_object : exists fields, chunk = VObject fields;
  c_no_error : is_error_payload chunk = false
}.

Definition frame_text (chunk : value) : str := lit "data: " ++ to_text chunk.

Lemma object_text_head chunk : (exists fields, chunk = VObject fields) -> exists s, to_text chunk = 123%N :: s.
Proof. intros [fields ->]. destruct (to_text_object fields) as [s ->]. by eexists. Qed.

Lemma frame_data chunk : carried chunk -> upstream_event_data (frame_text chunk) = Some (to_text chunk).
Proof.
  intros [_ _ _ [fields ->] _]. unfold upstream_event_data, frame_text.
  rewrite data_frame_payload by by apply text_no_line_end. cbn. by rewrite trim_object_text.
Qed.

Lemma object_text_not_done chunk : (exists fields, chunk = VObject fields) -> str_eqb (to_text chunk) done_marker = false.
Proof. intros (s & E)%object_text_head. apply bool_decide_eq_false. rewrite E. discriminate. Qed.

Lemma wf_str_Forall s : wf_str s = true <-> Forall (fun c => is_scalar c = true) s.
Proof. unfold wf_str. rewrite forallb_forall, Forall_forall. by setoid_rewrite list_elem_of_In. Qed.

Lemma from_utf8_encode s : wf_str s = true -> from_utf8 (Utf8.encode s) = Some s.
Proof. intros H. apply from_utf8_spec. split; [done|by apply wf_str_Forall]. Qed.

Lemma wf_str_app s t : wf_str (s ++ t) = wf_str s && wf_str t.
Proof. unfold wf_str. apply forallb_app. Qed.

Lemma frame_text_wf chunk : carried chunk -> wf_str (frame_text chunk) = true.
Proof. intros [Hw _ _ _ _]. unfold frame_text. rewrite wf_str_app, to_text_scalar by done. done. Qed.

Lemma frame_bytes_no_line_end chunk : Forall no_line_end (Utf8.encode (frame_text chunk)).
Proof.
  assert (forall c, c ∈ lit "data: " -> no_line_end c) as Hd.
  { apply Forall_forall. repeat constructor; discriminate. }
  apply Forall_forall. intros b Hb. split; intros ->; (apply encode_ascii in Hb; [|done]);
    (apply elem_of_app in Hb as [Hb|Hb]; [by destruct (Hd _ Hb)|revert Hb; by apply text_no_line_end]).
Qed.

(** What a chunk does to the answer. *)
Definition next_termination (chunk : value) (t : StreamTerminationState) : StreamTerminationState :=
  match chunk_finish_reason chunk with
  | Some reason => {| saw_done := saw_done t; finish_reason := Some reason |}
  | None => t
  end.

Record advanced (chunk : value) (st st' : stream_state) : Prop := {
  a_text : accumulated_text (acc st') = accumulated_text (acc st) ++ default [] (extract_upstream_delta chunk);
  a_refusal : refusal_accumulator st' = refusal_accumulator st ++ default [] (extract_upstream_refusal chunk);
  a_termination : termination st' = next_termination chunk (termination st)
}.

Definition patient (rx : receiver) : Prop := open_for rx = None.

Lemma send_patient rx text st : patient rx -> send rx text st = (true, with_out (out st ++ [text]) st).
Proof. intros H. unfold send, open. by rewrite H. Qed.

Lemma translated_delta chunk a item_id n :
  is_upstream_done chunk = false ->
  fst (translate_streaming_chunk chunk a item_id n) =
    (fun d => (format_sse_event (lit "response.output_text.delta") (output_text_delta d item_id n), d))
      <$> extract_upstream_delta chunk /\
  accumulated_text (snd (translate_streaming_chunk chunk a item_id n)) =
    accumulated_text a ++ default [] (extract_upstream_delta chunk).
Proof.
  intros H. unfold translate_streaming_chunk. rewrite H. destruct (extract_upstream_delta chunk); cbn; [done|].
  by rewrite app_nil_r.
Qed.

Lemma handle_frame rx item_id chunk block st :
  carried chunk -> patient rx -> take (length (Utf8.encode (frame_text chunk))) block = Utf8.encode (frame_text chunk) ->
  exists st', handle_event rx item_id block (length (Utf8.encode (frame_text chunk))) st = inl st' /\ advanced chunk st st'.
Proof.
  intros Hc Hp Hb. pose proof (object_text_not_done chunk (c_object _ Hc)) as Hnd.
  assert (of_text (to_text chunk) = Some chunk) as Hot by (apply of_to_text; by destruct Hc).
  assert (upstream_event_type (frame_text chunk) = None) as Hty.
  { apply data_frame_no_type. by apply text_no_line_end. }
  unfold handle_event. rewrite Hb, from_utf8_encode by by apply frame_text_wf.
  assert (observe (frame_text chunk) (termination st) = next_termination chunk (termination st)) as Hobs.
  { unfold observe. rewrite frame_data, Hnd, Hot by done. done. }
  rewrite Hobs. unfold process_upstream_event.
  assert (is_empty (frame_text chunk) = false) as -> by done.
  rewrite Hty, frame_data, Hnd, Hot, (c_no_error _ Hc) by done.
  rewrite bool_decide_eq_false_2 by done.
  assert (is_upstream_done chunk = false) as Hud.
  { destruct (c_object _ Hc) as [fields ->]. done. }
  set (st1 := with_termination (next_termination chunk (termination st)) st).
  destruct (translated_delta chunk (acc st1) item_id (sequence_number st1) Hud) as [Hres Hacc].
  destruct (translate_streaming_chunk chunk (acc st1) item_id (sequence_number st1)) as [result a]. cbn [fst snd] in *.
  subst result. unfold send_event.
  destruct (extract_upstream_delta chunk) as [delta|] eqn:Ed; cbn [fmap option_fmap option_map];
    rewrite ?send_patient by done; cbn [negb];
    (destruct (extract_upstream_refusal chunk) as [refusal|] eqn:Er; rewrite ?send_patient by done;
     eexists; (split; [reflexivity|]); split; cbn; rewrite ?Ed, ?Er; cbn; rewrite ?app_nil_r; try done).
  all: rewrite Hacc; cbn; by rewrite ?app_nil_r.
Qed.

Definition frame_bytes (chunk : value) : bytes := Utf8.encode (data_frame (to_text chunk)).
Definition done_bytes : bytes := Utf8.encode (data_frame done_marker).

Lemma frame_bytes_eq chunk : frame_bytes chunk = Utf8.encode (frame_text chunk) ++ lf_lf.
Proof. unfold frame_bytes, data_frame, frame_text. by rewrite app_assoc, encode_app. Qed.

Definition texts_of (chunks : list value) : str := concat (omap extract_upstream_delta chunks).
Definition refusals_of (chunks : list value) : str := concat (omap extract_upstream_refusal chunks).
Definition termination_after (chunks : list value) (t : StreamTerminationState) : StreamTerminationState :=
  fold_left (fun t chunk => next_termination chunk t) chunks t.

Lemma consume_frames rx item_id chunks rest st :
  Forall carried chunks -> patient rx ->
  exists st',
    consume (F := handler_framing) (handle_event rx item_id) (concat (frame_bytes <$> chunks) ++ rest) st =
    consume (F := handler_framing) (handle_event rx item_id) rest st' /\
    accumulated_text (acc st') = accumulated_text (acc st) ++ texts_of chunks /\
    refusal_accumulator st' = refusal_accumulator st ++ refusals_of chunks /\
    termination st' = termination_after chunks (termination st).
Proof.
  intros H Hp. revert st. induction H as [|chunk chunks Hc _ IH]; intros st.
  - exists st. cbn. by rewrite !app_nil_r.
  - cbn [fmap list_fmap concat]. rewrite frame_bytes_eq, <- !app_assoc, consume_eq.
    cbn [find_delimiter handler_framing]. rewrite handler_delimiter_frame by apply frame_bytes_no_line_end.
    destruct (handle_frame rx item_id chunk (take (length (Utf8.encode (frame_text chunk)) + 2)
      (Utf8.encode (frame_text chunk) ++ lf_lf ++ concat (frame_bytes <$> chunks) ++ rest)) st Hc Hp) as (st1 & Hh & [A1 A2 A3]).
    { rewrite take_take, Nat.min_l by lia. apply take_app_length. }
    rewrite Hh. rewrite (app_assoc (Utf8.encode _)), drop_app_length' by (rewrite length_app; done).
    destruct (IH st1) as (st2 & -> & B1 & B2 & B3). exists st2. split; [done|].
    rewrite B1, B2, B3, A1, A2, A3. unfold texts_of, refusals_of, termination_after. cbn [omap list_omap fold_left].
    rewrite <- !app_assoc. split; [|split; [|done]].
    + by destruct (extract_upstream_delta chunk).
    + by destruct (extract_upstream_refusal chunk).
Qed.

Lemma consume_done rx item_id rest st :
  exists st', consume (F := handler_framing) (handle_event rx item_id) (done_bytes ++ rest) st = inr (Finish st') /\
    acc st' = acc st /\ refusal_accumulator st' = refusal_accumulator st /\
    termination st' = {| saw_done := true; finish_reason := finish_reason (termination st) |}.
Proof.
  assert (Forall no_line_end (lit "data: [DONE]")) as Hn by (repeat constructor; discriminate).
  change done_bytes with (lit "data: [DONE]" ++ lf_lf). rewrite <- app_assoc, consume_eq.
  cbn [find_delimiter handler_framing]. rewrite handler_delimiter_frame by exact Hn.
  unfold handle_event. rewrite take_take, Nat.min_l by lia. rewrite take_app_length.
  change (from_utf8 (lit "data: [DONE]")) with (Some (lit "data: [DONE]")).
  eexists. split; [reflexivity|]. done.
Qed.

Lemma stream_loop_chunks rx item_id pieces later buffer st :
  (length buffer + length (concat pieces) <= max_sse_buffer)%nat ->
  find_delimiter (Framing := handler_framing) buffer = None ->
  stream_loop rx item_id (map (FromGateway ∘ Ok) pieces ++ later) buffer st =
  match consume (F := handler_framing) (handle_event rx item_id) (buffer ++ concat pieces) st with
  | inl (buffer, st) => stream_loop rx item_id later buffer st
  | inr e => e
  end.
Proof.
  revert buffer st; induction pieces as [|b pieces IH]; intros buffer st Hl Hn; cbn [map concat app stream_loop compose] in *.
  - by rewrite app_nil_r, consume_eq, Hn.
  - rewrite length_app in Hl. destruct (Nat.ltb_spec max_sse_buffer (length buffer + length b)); [lia|].
    rewrite app_assoc, (consume_app _ (buffer ++ b)).
    destruct (consume _ (buffer ++ b) st) as [[b' s']|r] eqn:Ec; [|done].
    apply consume_rest in Ec as [Hb' Hn']. rewrite length_app in Hb'. apply IH; [lia|done].
Qed.

Lemma send_all_patient rx events st : patient rx -> fst (send_all rx events st) = true.
Proof.
  intros Hp. revert st; induction events as [|[name event] events IH]; intros st; cbn [send_all]; [done|].
  unfold send_event. rewrite send_patient by done. apply IH.
Qed.

Lemma finish_patient rx c st :
  patient rx -> described st ->
  exists log data, client (finish rx c st) = render <$> log /\ well_formed_log log /\
    last log = Some (Event (terminal_event_name (termination st)) data) /\
    answer_part data = Some (told_part log) /\
    text_deltas log = accumulated_text (acc st) /\ refusal_deltas log = refusal_accumulator st.
Proof.
  intros Hp D. unfold finish. cbn [client]. rewrite closing_split, send_all_app.
  pose proof (send_all_plain rx _ st (closing_plain c st) D) as H.
  pose proof (send_all_patient rx (take 3 (closing_events c st)) st Hp) as Ht.
  destruct (send_all rx (take 3 (closing_events c st)) st) as [alive st1]. cbn [fst] in Ht. subst alive.
  destruct H as ([log D1] & Hs). cbn [send_all]. unfold send_event. rewrite send_patient by done.
  destruct (terminal_log c log st st1 D1 Hs) as (Hw & H1 & H2 & Ha).
  exists (log ++ [Event (terminal_event_name (termination st)) (terminal_event c st (sequence_number st1))]),
    (terminal_event c st (sequence_number st1)).
  split; [cbn [snd out with_out with_sequence]; by rewrite (d_out _ _ D1), fmap_app|]. by rewrite last_snoc.
Qed.

(** ** Theorems *)

(** C9: Whatever the provider sends, whenever the client leaves, what the
    client received is a prefix of a proper event stream: sequence numbers run
    from zero without gaps, a terminal event (completed, incomplete, failed or
    error) comes last or not at all, and the answer in it is exactly the
    concatenation of the deltas sent before (a refusal if only refused). *)
Theorem stream_is_consistent rx c inputs : consistent (client (handle_streaming rx c inputs)).
Proof.
  unfold handle_streaming. pose proof (send_all_plain rx _ initial_state (opening_plain c) initial_described) as H.
  destruct (send_all rx (opening_events c) initial_state) as [[] st]; [|exact H].
  destruct H as [D _]. pose proof (stream_loop_ok rx (msg_id c) inputs [] st D) as He.
  destruct (stream_loop rx (msg_id c) inputs [] st) as [st'|st']; [exact He|by apply finish_consistent].
Qed.

(** What the provider's frames amount to. *)
Definition stream_end_of (chunks : list value) : StreamTerminationState :=
  {| saw_done := true;
     finish_reason := finish_reason (termination_after chunks {| saw_done := false; finish_reason := None |}) |}.

Lemma patient_opening rx c inputs :
  patient rx ->
  exists st0, described st0 /\ same_answer initial_state st0 /\
    handle_streaming rx c inputs =
    match stream_loop rx (msg_id c) inputs [] st0 with Abandon st => abandon c st | Finish st => finish rx c st end.
Proof.
  intros Hp. unfold handle_streaming.
  pose proof (send_all_plain rx _ initial_state (opening_plain c) initial_described) as H.
  pose proof (send_all_patient rx (opening_events c) initial_state Hp) as Ht.
  destruct (send_all rx (opening_events c) initial_state) as [alive st0]. cbn [fst] in Ht. subst alive.
  destruct H as (D & E). by exists st0.
Qed.

Lemma frames_finish rx c chunks pieces later :
  Forall carried chunks -> patient rx ->
  concat pieces = concat (frame_bytes <$> chunks) ++ done_bytes -> (length (concat pieces) <= max_sse_buffer)%nat ->
  exists st, handle_streaming rx c (map (FromGateway ∘ Ok) pieces ++ later) = finish rx c st /\ described st /\
    accumulated_text (acc st) = texts_of chunks /\ refusal_accumulator st = refusals_of chunks /\
    termination st = stream_end_of chunks.
Proof.
  intros Hc Hp He Hl.
  destruct (patient_opening rx c (map (FromGateway ∘ Ok) pieces ++ later) Hp) as (st0 & D & (E1 & E2 & E3) & ->).
  pose proof (stream_loop_ok rx (msg_id c) (map (FromGateway ∘ Ok) pieces ++ later) [] st0 D) as Hok.
  rewrite stream_loop_chunks in * by done. cbn [app] in *. rewrite He in *.
  destruct (consume_frames rx (msg_id c) chunks done_bytes st0 Hc Hp) as (st1 & Hs1 & B1 & B2 & B3).
  rewrite Hs1 in *. destruct (consume_done rx (msg_id c) [] st1) as (st2 & Hs2 & C1 & C2 & C3).
  rewrite app_nil_r in Hs2. rewrite Hs2 in *. exists st2. split; [done|]. split; [exact Hok|].
  rewrite C1, C2, C3, B1, B2, B3, E1, E2, E3. done.
Qed.

(** A complete stream is told completely.  If the gateway's frames carry
    the chunks of an answer and the final marker, cut anywhere, a client that
    stays reads all text deltas and then the event [response.completed], or
    [response.incomplete] when the last reason of the provider is length or
    content filter, whose answer is the concatenated text. *)
Theorem complete_streams_are_told rx c chunks pieces later :
  Forall carried chunks -> patient rx ->
  concat pieces = concat (frame_bytes <$> chunks) ++ done_bytes -> (length (concat pieces) <= max_sse_buffer)%nat ->
  exists log data,
    client (handle_streaming rx c (map (FromGateway ∘ Ok) pieces ++ later)) = render <$> log /\
    well_formed_log log /\
    last log = Some (Event (terminal_event_name (stream_end_of chunks)) data) /\
    answer_part data = Some (told_part log) /\
    text_deltas log = texts_of chunks /\ refusal_deltas log = refusals_of chunks.
Proof.
  intros Hc Hp He Hl. destruct (frames_finish rx c chunks pieces later Hc Hp He Hl) as (st & -> & D & H1 & H2 & H3).
  destruct (finish_patient rx c st Hp D) as (log & data & F1 & F2 & F3 & F4 & F5 & F6).
  exists log, data. rewrite <- H3, <- H1, <- H2. auto 10.
Qed.

End Handler.

(** *** At concrete inputs *)

Section Witnesses.
#[local] Existing Instance small_json_text.

Definition demo_context : stream_context := {|
  response_id := lit "resp_1"; msg_id := lit "msg_1"; started_at := 0; selected_model := lit "gpt";
  capability_name := lit "chat"; input_token_estimate := 5 |}.
Definition demo_client : receiver := {| open_for := None; room _ := true |}.
Definition demo_chunks : list value := [content_chunk (lit "Hel"); content_chunk (lit "lo")].

Lemma content_chunk_carried text : wf_str text = true -> carried (content_chunk text).
Proof.
  intros H. assert (depth (content_chunk text) = 4%nat) as Hd by reflexivity.
  split; [|done|rewrite Hd; lia|by eexists|done].
  unfold content_chunk, chat_chunk. wf_fields.
Qed.

Lemma complete_streams_are_told_witness :
  exists log data,
    client (handle_streaming demo_client demo_context
              (map (FromGateway ∘ Ok) [concat (frame_bytes <$> demo_chunks) ++ done_bytes] ++ [])) = render <$> log /\
    last log = Some (Event "response.completed" data) /\ answer_part data = Some (told_part log) /\
    text_deltas log = lit "Hello".
Proof.
  destruct (complete_streams_are_told demo_client demo_context demo_chunks
              [concat (frame_bytes <$> demo_chunks) ++ done_bytes] []) as (log & data & H1 & _ & H3 & H4 & H5 & _).
  - repeat constructor; by apply content_chunk_carried.
  - done.
  - cbn [concat]. apply app_nil_r.
  - apply Nat.leb_le. vm_compute. reflexivity.
  - exists log, data. split; [exact H1|]. split; [exact H3|]. split; [exact H4|]. exact H5.
Defined.
End Witnesses.
