(* ===== verification/Streams.v ===== *)
(** * A stream from end to end

    The provider's bytes through the gateway's task and the handler's task to
    the client: what the two promise each other, and one thing they do not. *)

From S2P Require Import Prelude Utf8 Sse Redis Lock Cache Quota Channels JsonValue Responses Dispatch Metering Gateway Streaming.

Open Scope string_scope.
Open Scope list_scope.
Open Scope Z_scope.

Section EndToEnd.
Context {J : JsonText}.
Context (header_safe : str -> bool).

(** ** The Anthropic protocol

    An event of a provider: its type, and its data as the provider wrote it and as
    JSON.  [proper] is what the protocol says of it. *)








(** ** Through the gateway *)



















(** ** The chunks *)
























(** A comment, two carriage returns, and the marker. *)
Definition hidden_done : bytes := lit ": ping" ++ cr_cr ++ done_bytes.

(** ** Theorems *)


(** Gateway and handler do not agree where a block ends.  A comment line
    that a provider closes with two carriage returns hides the marker behind it
    from the gateway, which reports an incomplete stream and a failure of the
    channel, while the handler cuts there, finds [DONE], and tells the client
    that the response is complete. *)
Theorem carriage_returns_hide_done rx client_rx c :
  patient rx -> patient client_rx ->
  exists log data,
    send_json_stream rx (Opened 200) [Bytes hidden_done] = (Ok Incomplete, [Ok hidden_done]) /\
    client (handle_streaming client_rx c [FromGateway (Ok hidden_done)]) = render <$> log /\
    last log = Some (Event "response.completed" data).
Proof.
  intros Hp Hp'. unfold send_json_stream, open_stream. change (is_success 200) with true. cbn [read_stream].
  assert ((max_sse_buffer <? length (@nil byte) + length hidden_done)%nat = false) as -> by (vm_compute; reflexivity).
  cbn [app]. rewrite consume_eq. change (find_delimiter hidden_done) with (Some (20, 2)%nat).
  unfold forward_validated_openai_sse_event at 1.
  change (inspect_openai_sse_event (take 20 (take (20 + 2) hidden_done))) with (Ok Forward : result OpenAiSseEventKind str).
  unfold accepts. rewrite Hp. rewrite consume_eq. change (find_delimiter (drop (20 + 2) hidden_done)) with (@None (nat * nat)).
  destruct (patient_opening client_rx c [FromGateway (Ok hidden_done)] Hp') as (st0 & D & (E1 & E2 & E3) & Hs).
  pose proof (stream_loop_ok client_rx (msg_id c) [FromGateway (Ok hidden_done)] [] st0 D) as Hok.
  change [FromGateway (Ok hidden_done)] with (map (FromGateway ∘ Ok) [hidden_done] ++ []) in *.
  rewrite stream_loop_chunks in * by (try done; apply Nat.leb_le; vm_compute; reflexivity).
  cbn [app concat] in Hs, Hok. rewrite !app_nil_r, consume_eq in Hs. rewrite !app_nil_r, consume_eq in Hok.
  change (find_delimiter (Framing := handler_framing) hidden_done) with (Some (6, 2)%nat) in Hs, Hok.
  assert (handle_event client_rx (msg_id c) (take (6 + 2) hidden_done) 6 st0 =
          inl (with_errors 0 (with_termination (termination st0) st0))) as Hh by reflexivity.
  cbv beta iota in Hs, Hok. rewrite Hh in Hs, Hok. cbv beta iota in Hs, Hok.
  change (drop (6 + 2) hidden_done) with (done_bytes ++ []) in Hs, Hok.
  destruct (consume_done client_rx (msg_id c) [] (with_errors 0 (with_termination (termination st0) st0)))
    as (st2 & Hs2 & C1 & C2 & C3).
  rewrite Hs2 in Hs, Hok. cbv beta iota in Hs, Hok.
  destruct (finish_patient client_rx c st2 Hp' Hok) as (log & data & F1 & F2 & F3 & _).
  exists log, data. split; [done|]. split; [rewrite <- F1, <- Hs; reflexivity|]. rewrite F3, C3. cbn [termination with_errors with_termination].
  by rewrite E3.
Qed.
End EndToEnd.

(** ** At concrete inputs *)

Section Witnesses.
#[local] Existing Instance small_json_text.







Lemma carriage_returns_hide_done_witness :
  exists log data,
    send_json_stream demo_client (Opened 200) [Bytes hidden_done] = (Ok Incomplete, [Ok hidden_done]) /\
    client (handle_streaming demo_client demo_context [FromGateway (Ok hidden_done)]) = render <$> log /\
    last log = Some (Event "response.completed" data).
Proof. exact (carriage_returns_hide_done demo_client demo_client demo_context eq_refl eq_refl). Defined.
End Witnesses.
