(* ===== verification/Sql.v ===== *)
(** * Statements and transactions

    How a service talks to the database: a computation is a sequence of SQL
    statements over the tables, each of which may fail, and between which the
    other clients of the same tables run.  The stream of [moment]s says for each
    statement what the clock reads, whether it fails and what the others did just
    before it; a transaction holds its row locks, so that nobody interferes with
    its body, and leaves no trace unless its commit succeeds.

    The second half is the way the components reason about it: the tables change
    by [step]s, an invariant [inv] of the steps holds whenever a statement runs,
    and [spec m Q] says that [m] itself only makes steps, whatever the others
    (who also only make steps) do in between. *)

From stdpp Require Import sorting.
From S2P Require Import Prelude.

Section Sql.
Context {S : Type}.

Record moment := { clock : Z; fault : bool; others : S -> S }.

(** An error type in which [anyhow] contexts are the internal errors. *)
Class Errors (E : Type) := internal : string -> E.

Definition M (E A : Type) : Type := (nat -> moment) -> nat -> S -> result A E * S * nat.

Definition ret {E A} (a : A) : M E A := fun _ n s => (Ok a, s, n).
Definition fail {E A} (e : E) : M E A := fun _ n s => (Err e, s, n).
Definition bind {E A B} (m : M E A) (k : A -> M E B) : M E B := fun w n s =>
  match m w n s with
  | (Ok a, s', n') => k a w n' s'
  | (Err e, s', n') => (Err e, s', n')
  end.
Definition lift {E A} (r : result A E) : M E A := fun _ n s => (r, s, n).
Definition guard_else {E} (b : bool) (e : E) : M E unit := if b then ret tt else fail e.
Definition some_or {E A} (o : option A) (e : E) : M E A :=
  match o with Some a => ret a | None => fail e end.

(** One statement: [f] sees the clock, the tables when the statement starts and
    the tables once its locks are granted; [None] when a constraint refuses. *)
Definition statement {E A} `{Errors E} (context : string) (f : Z -> S -> S -> option (A * S)) : M E A :=
  fun w n s =>
    let m := w n in
    let now := others m s in
    if fault m then (Err (internal context), now, Datatypes.S n)
    else match f (clock m) s now with
         | Some (a, s') => (Ok a, s', Datatypes.S n)
         | None => (Err (internal context), now, Datatypes.S n)
         end.

Definition query {E A} `{Errors E} (context : string) (f : S -> A) : M E A :=
  statement context (fun _ _ s => Some (f s, s)).
Definition execute {E A} `{Errors E} (context : string) (f : S -> option (A * S)) : M E A :=
  statement context (fun _ _ s => f s).

(** A command whose failure is ignored: [dflt] is its answer then. *)
Definition best_effort {E A} (dflt : A) (f : Z -> S -> A * S) : M E A := fun w n s =>
  let m := w n in
  let now := others m s in
  if fault m then (Ok dflt, now, Datatypes.S n) else let '(a, s') := f (clock m) now in (Ok a, s', Datatypes.S n).

(** [match m.await { Ok(a) => .., Err(_) => .. }]. *)
Definition caught {E E' A} (m : M E A) : M E' (option A) := fun w n s =>
  let '(r, s', n') := m w n s in (Ok (match r with Ok a => Some a | Err _ => None end), s', n').

(** [match m.await { Ok(a) => .., Err(e) => .. }]. *)
Definition tried {E E' A} (m : M E A) : M E' (result A E) := fun w n s =>
  let '(r, s', n') := m w n s in (Ok r, s', n').

(** [map_err]. *)
Definition mapped {E E' A} (f : E -> E') (m : M E A) : M E' A := fun w n s =>
  let '(r, s', n') := m w n s in (match r with Ok a => Ok a | Err e => Err (f e) end, s', n').

(** [return Ok(None)] from inside a transaction drops it, which rolls it back. *)
Definition or_none {E A} (m : M (option E) A) : M E (option A) := fun w n s =>
  match m w n s with
  | (Ok a, s', n') => (Ok (Some a), s', n')
  | (Err None, s', n') => (Ok None, s', n')
  | (Err (Some e), s', n') => (Err e, s', n')
  end.

#[export] Instance errors_option {E} `{Errors E} : Errors (option E) := fun context => Some (internal context).

(** The moments of a transaction: nobody touches what it has locked. *)
Definition locked (w : nat -> moment) : nat -> moment := fun n =>
  {| clock := clock (w n); fault := fault (w n); others := fun s => s |}.

Definition transaction {E A} `{Errors E} (start commit : string) (body : M E A) : M E A := fun w n s =>
  let s := others (w n) s in
  if fault (w n) then (Err (internal start), s, Datatypes.S n)
  else match body (locked w) (Datatypes.S n) s with
       | (Ok a, s', n') =>
           if fault (w n') then (Err (internal commit), s, Datatypes.S n') else (Ok a, s', Datatypes.S n')
       | (Err e, _, n') => (Err e, s, n')
       end.

Definition result_of {E A} (x : result A E * S * nat) : result A E := x.1.1.
Definition state_of {E A} (x : result A E * S * nat) : S := x.1.2.

(** Nothing fails and nobody interferes. *)
Definition quiet (t : Z) : nat -> moment := fun _ => {| clock := t; fault := false; others := fun s => s |}.

(** Statements may fail, but nobody interferes. *)
Definition alone (w : nat -> moment) : Prop := forall n s, others (w n) s = s.

Lemma alone_locked w : alone (locked w).
Proof using. done. Qed.
Lemma alone_quiet t : alone (quiet t).
Proof using. done. Qed.

(** What the parts of a successful computation did. *)
Lemma bind_ok {E A B} (m : M E A) (k : A -> M E B) w n s b s2 n2 :
  bind m k w n s = (Ok b, s2, n2) -> exists a s1 n1, m w n s = (Ok a, s1, n1) /\ k a w n1 s1 = (Ok b, s2, n2).
Proof using. unfold bind. destruct (m w n s) as [[[a|e] s1] n1]; [eauto|done]. Qed.
Lemma statement_ok {E A} `{Errors E} context (f : Z -> S -> S -> option (A * S)) w n s a s' n' :
  alone w -> statement context f w n s = (Ok a, s', n') -> f (clock (w n)) s s = Some (a, s').
Proof using.
  intros Hw. unfold statement. rewrite Hw. destruct (fault (w n)); [done|].
  destruct (f _ _ _) as [[? ?]|]; [|done]. by intros [= -> -> _].
Qed.
Lemma query_ok {E A} `{Errors E} context (f : S -> A) w n s a s' n' :
  alone w -> query context f w n s = (Ok a, s', n') -> a = f s /\ s' = s.
Proof using. intros Hw [= -> ->]%statement_ok; done. Qed.
Lemma execute_ok {E A} `{Errors E} context (f : S -> option (A * S)) w n s a s' n' :
  alone w -> execute context f w n s = (Ok a, s', n') -> f s = Some (a, s').
Proof using. by intros Hw ?%statement_ok. Qed.
Lemma ret_ok {E A} (x : A) w n s a s' n' : ret (E := E) x w n s = (Ok a, s', n') -> a = x /\ s' = s.
Proof using. by intros [= -> -> _]. Qed.
Lemma some_or_ok {E A} (o : option A) (e : E) w n s a s' n' :
  some_or o e w n s = (Ok a, s', n') -> o = Some a /\ s' = s.
Proof using. destruct o; [|done]. by intros [= -> -> _]. Qed.
Lemma guard_ok {E} (b : bool) (e : E) w n s a s' n' :
  guard_else b e w n s = (Ok a, s', n') -> b = true /\ s' = s.
Proof using. destruct b; [|done]. by intros [= _ -> _]. Qed.
Lemma lift_ok {E A} (r : result A E) w n s a s' n' : lift r w n s = (Ok a, s', n') -> r = Ok a /\ s' = s.
Proof using. by intros [= -> -> _]. Qed.

Lemma transaction_ok {E A} `{Errors E} start commit (body : M E A) w n s a s' n' :
  transaction start commit body w n s = (Ok a, s', n') ->
  exists n0 n1, body (locked w) n0 (others (w n) s) = (Ok a, s', n1).
Proof using.
  unfold transaction. destruct (fault (w n)); [done|]. destruct (body _ _ _) as [[[b|e] s1] n1] eqn:Eb; [|done].
  destruct (fault (w n1)); [done|]. intros [= -> -> _]. eauto.
Qed.

Lemma bind_cases {E A B} (m : M E A) (k : A -> M E B) w n s r s' n' :
  bind m k w n s = (r, s', n') ->
  (exists e, m w n s = (Err e, s', n') /\ r = Err e) \/
  (exists a s1 n1, m w n s = (Ok a, s1, n1) /\ k a w n1 s1 = (r, s', n')).
Proof using.
  unfold bind. destruct (m w n s) as [[[a|e] s1] n1]; [right; eauto|]. intros [= <- -> ->]. left; eauto.
Qed.

(** A computation that writes nothing. *)
Definition reads {E A} (w : nat -> moment) (m : M E A) : Prop := forall n s r s' n', m w n s = (r, s', n') -> s' = s.

Lemma reads_ret {E A} w (a : A) : reads w (ret (E := E) a).
Proof using. by intros n s r s' n' [= <- <- <-]. Qed.
Lemma reads_fail {E A} w (e : E) : reads w (fail (A := A) e).
Proof using. by intros n s r s' n' [= <- <- <-]. Qed.
Lemma reads_lift {E A} w (x : result A E) : reads w (lift x).
Proof using. by intros n s r s' n' [= <- <- <-]. Qed.
Lemma reads_guard {E} w b (e : E) : reads w (guard_else b e).
Proof using. destruct b; [apply reads_ret|apply reads_fail]. Qed.
Lemma reads_some {E A} w (o : option A) (e : E) : reads w (some_or o e).
Proof using. destruct o; [apply reads_ret|apply reads_fail]. Qed.
Lemma reads_query {E A} `{Errors E} w context (f : S -> A) : alone w -> reads w (query context f).
Proof using.
  intros Hw n s r s' n'. unfold query, statement. rewrite Hw. destruct (fault (w n)); by intros [= <- <- <-].
Qed.
Lemma reads_bind {E A B} w (m : M E A) (k : A -> M E B) : reads w m -> (forall a, reads w (k a)) -> reads w (bind m k).
Proof using.
  intros Hm Hk n s r s' n' [(e & Hr & _)|(a & s1 & n1 & Hr & Hr')]%bind_cases; [by eapply Hm|].
  apply Hm in Hr as ->. by eapply Hk.
Qed.
Lemma reads_caught {E E' A} w (m : M E A) : reads w m -> reads w (caught (E' := E') m).
Proof using.
  intros Hm n s r s' n'. unfold caught. destruct (m w n s) as [[x s1] n1] eqn:E1. intros [= _ <- _]. by eapply Hm.
Qed.
Lemma reads_mapped {E E' A} (f : E -> E') w (m : M E A) : reads w m -> reads w (mapped f m).
Proof using.
  intros Hm n s r s' n'. unfold mapped. destruct (m w n s) as [[x s1] n1] eqn:E1. intros [= _ <- _]. by eapply Hm.
Qed.

(** A computation that keeps a part of the tables. *)
Definition keeps {B E A} (f : S -> B) (w : nat -> moment) (m : M E A) : Prop :=
  forall n s r s' n', m w n s = (r, s', n') -> f s' = f s.

Lemma keeps_reads {B E A} (f : S -> B) w (m : M E A) : reads w m -> keeps f w m.
Proof using. intros Hm n s r s' n' Hr. by apply Hm in Hr as ->. Qed.
Lemma keeps_bind {B E A C} (f : S -> B) w (m : M E A) (k : A -> M E C) : keeps f w m -> (forall a, keeps f w (k a)) -> keeps f w (bind m k).
Proof using.
  intros Hm Hk n s r s' n' [(e & Hr & _)|(a & s1 & n1 & Hr & Hr')]%bind_cases; [by eapply Hm|].
  apply Hm in Hr. apply Hk in Hr'. congruence.
Qed.
Lemma keeps_best_effort {B E A} (f : S -> B) w (dflt : A) g :
  alone w -> (forall t s, f (g t s).2 = f s) -> keeps f w (best_effort (E := E) dflt g).
Proof using.
  intros Hw Hg n s r s' n'. unfold best_effort. rewrite Hw. destruct (fault (w n)); [by intros [= _ <- _]|].
  specialize (Hg (clock (w n)) s). destruct (g _ _) as [a s1]. intros [= _ <- _]. done.
Qed.

(** The errors of a computation. *)
Definition fails {E A} (P : E -> Prop) (m : M E A) : Prop := forall w n s e s' n', m w n s = (Err e, s', n') -> P e.

Lemma fails_ret {E A} (P : E -> Prop) (a : A) : fails P (ret a).
Proof using. done. Qed.
Lemma fails_fail {E A} (P : E -> Prop) (e : E) : P e -> fails P (fail (A := A) e).
Proof using. by intros He w n s e' s' n' [= <- _ _]. Qed.
Lemma fails_guard {E} (P : E -> Prop) b (e : E) : P e -> fails P (guard_else b e).
Proof using. intros He. destruct b; [apply fails_ret|by apply fails_fail]. Qed.
Lemma fails_some {E A} (P : E -> Prop) (o : option A) (e : E) : P e -> fails P (some_or o e).
Proof using. intros He. destruct o; [apply fails_ret|by apply fails_fail]. Qed.
Lemma fails_execute {E A} `{Errors E} (P : E -> Prop) context (f : S -> option (A * S)) :
  P (internal context) -> fails P (execute context f).
Proof using.
  intros Hc w n s e s' n'. unfold execute, statement. destruct (fault (w n)); [by intros [= <- _ _]|].
  destruct (f _) as [[? ?]|]; [done|by intros [= <- _ _]].
Qed.
Lemma fails_query {E A} `{Errors E} (P : E -> Prop) context (f : S -> A) : P (internal context) -> fails P (query context f).
Proof using.
  intros Hc w n s e s' n'. unfold query, statement. destruct (fault (w n)); [by intros [= <- _ _]|done].
Qed.
Lemma fails_bind {E A B} (P : E -> Prop) (m : M E A) (k : A -> M E B) : fails P m -> (forall a, fails P (k a)) -> fails P (bind m k).
Proof using. intros Hm Hk w n s e s' n' [(? & Hr & [= <-])|(a & s1 & n1 & _ & Hr)]%bind_cases; [by eapply Hm|by eapply Hk]. Qed.
Lemma fails_transaction {E A} `{Errors E} (P : E -> Prop) start commit (body : M E A) :
  P (internal start) -> P (internal commit) -> fails P body -> fails P (transaction start commit body).
Proof using.
  intros Hs Hc Hb w n s e s' n'. unfold transaction. destruct (fault (w n)); [by intros [= <- _ _]|].
  destruct (body _ _ _) as [[[a|e'] s1] n1] eqn:E1; [|intros [= <- _ _]; by eapply Hb].
  by destruct (fault (w n1)); [intros [= <- _ _]|].
Qed.

(** A statement that fails has done nothing. *)
Lemma execute_err {E A} `{Errors E} context (f : S -> option (A * S)) w n s e s' n' :
  alone w -> execute context f w n s = (Err e, s', n') -> s' = s.
Proof using.
  intros Hw. unfold execute, statement. rewrite Hw. destruct (fault (w n)); [by intros [= _ -> _]|].
  destruct (f s) as [[? ?]|]; [done|by intros [= _ -> _]].
Qed.
Lemma transaction_err {E A} `{Errors E} start commit (body : M E A) w n s e s' n' :
  alone w -> transaction start commit body w n s = (Err e, s', n') -> s' = s.
Proof using.
  intros Hw. unfold transaction. rewrite Hw. destruct (fault (w n)); [by intros [= _ -> _]|].
  destruct (body _ _ _) as [[[a|e'] s1] n1]; [|by intros [= _ -> _]]. by destruct (fault (w n1)); [intros [= _ -> _]|].
Qed.

(** ** Only steps *)

Context (step : S -> S -> Prop) (inv : S -> Prop).
Hypothesis inv_step : forall s s', inv s -> step s s' -> inv s'.

Definition calm (w : nat -> moment) : Prop := forall n s, rtc step s (others (w n) s).

Lemma calm_quiet t : calm (quiet t).
Proof using. by intros n s. Qed.

Definition spec {E A} (m : M E A) (Q : A -> Prop) : Prop := forall w n s,
  calm w -> inv s ->
  rtc step s (state_of (m w n s)) /\ forall a, result_of (m w n s) = Ok a -> Q a.

Lemma inv_steps s s' : inv s -> rtc step s s' -> inv s'.
Proof using inv_step. intros H Hs; induction Hs; eauto. Qed.

Lemma spec_ret {E A} (a : A) (Q : A -> Prop) : Q a -> spec (E := E) (ret a) Q.
Proof using. intros Ha w n s _ _. split; [done|]. by intros ? [= <-]. Qed.

Lemma spec_fail {E A} (e : E) (Q : A -> Prop) : spec (fail e) Q.
Proof using. intros w n s _ _. split; [done|]. by intros ? [=]. Qed.

Lemma spec_lift {E A} (r : result A E) (Q : A -> Prop) :
  (forall a, r = Ok a -> Q a) -> spec (lift r) Q.
Proof using. intros Hr w n s _ _. split; [done|]. apply Hr. Qed.

Lemma spec_guard {E} (b : bool) (e : E) (Q : unit -> Prop) : (b = true -> Q tt) -> spec (guard_else b e) Q.
Proof using. intros Hb. destruct b; [by apply spec_ret, Hb|apply spec_fail]. Qed.

Lemma spec_some {E A} (o : option A) (e : E) (Q : A -> Prop) :
  (forall a, o = Some a -> Q a) -> spec (some_or o e) Q.
Proof using. intros Ho. destruct o; [by apply spec_ret, Ho|apply spec_fail]. Qed.

Lemma spec_bind {E A B} (m : M E A) (k : A -> M E B) Q R :
  spec m Q -> (forall a, Q a -> spec (k a) R) -> spec (bind m k) R.
Proof using inv_step.
  intros Hm Hk w n s Hw Hs. unfold bind. destruct (Hm w n s Hw Hs) as [Hr Ha].
  destruct (m w n s) as [[[a|e] s'] n']; cbn in *; [|split; [done|by intros ? [=]]].
  destruct (Hk a (Ha a eq_refl) w n' s' Hw (inv_steps _ _ Hs Hr)) as [Hr' Hb]. split; [by etrans|done].
Qed.

Lemma spec_weaken {E A} (m : M E A) (Q R : A -> Prop) : spec m Q -> (forall a, Q a -> R a) -> spec m R.
Proof using. intros Hm HQ w n s Hw Hs. destruct (Hm w n s Hw Hs). split; [done|]. eauto. Qed.

Lemma spec_seq {E A B} (m : M E A) (k : A -> M E B) R : spec m (fun a => spec (k a) R) -> spec (bind m k) R.
Proof using inv_step. intros Hm. by eapply spec_bind. Qed.

Lemma spec_statement {E A} `{Errors E} context (f : Z -> S -> S -> option (A * S)) (Q : A -> Prop) :
  (forall t before now, inv before -> inv now -> rtc step before now ->
     forall a s', f t before now = Some (a, s') -> rtc step now s' /\ Q a) ->
  spec (statement context f) Q.
Proof using inv_step.
  intros Hf w n s Hw Hs. unfold statement. pose proof (Hw n s) as Ho.
  destruct (fault (w n)); cbn; [split; [done|by intros ? [=]]|].
  destruct (f _ s _) as [[a s']|] eqn:E'; cbn; [|split; [done|by intros ? [=]]].
  destruct (Hf _ _ _ Hs (inv_steps _ _ Hs Ho) Ho _ _ E') as [Hr HQ].
  split; [by etrans|]. by intros ? [= <-].
Qed.

Lemma spec_query {E A} `{Errors E} context (f : S -> A) (Q : A -> Prop) :
  (forall s, inv s -> Q (f s)) -> spec (query context f) Q.
Proof using inv_step.
  intros Hf. apply spec_statement. intros t before now _ Hn _ a s' [= <- <-]. split; [done|auto].
Qed.

Lemma spec_execute {E A} `{Errors E} context (f : S -> option (A * S)) (Q : A -> Prop) :
  (forall s a s', inv s -> f s = Some (a, s') -> step s s' /\ Q a) -> spec (execute context f) Q.
Proof using inv_step.
  intros Hf. apply spec_statement. intros t before now _ Hn _ a s' Hs.
  destruct (Hf now a s' Hn Hs). split; [by apply rtc_once|done].
Qed.

(** A committed transaction is one step, an aborted one is none. *)
Lemma spec_transaction {E A} `{Errors E} start commit (body : M E A) (Q : A -> Prop) :
  (forall w n s a, inv s -> result_of (body (locked w) n s) = Ok a ->
     step s (state_of (body (locked w) n s)) /\ Q a) ->
  spec (transaction start commit body) Q.
Proof using inv_step.
  intros Hb w n s Hw Hs. unfold transaction. pose proof (Hw n s) as Ho.
  destruct (fault (w n)); cbn; [split; [done|by intros ? [=]]|].
  specialize (Hb w (Datatypes.S n) (others (w n) s)).
  destruct (body _ _ _) as [[[a|e] s'] n']; cbn in *; [|split; [done|by intros ? [=]]].
  destruct (Hb a (inv_steps _ _ Hs Ho) eq_refl) as [Hst HQ].
  destruct (fault (w n')); cbn; [split; [done|by intros ? [=]]|].
  split; [by eapply rtc_r|]. by intros ? [= <-].
Qed.

(** What a successful computation did, with the others in between. *)
Lemma query_calm {E A} `{Errors E} context (f : S -> A) w n s a s' n' :
  query context f w n s = (Ok a, s', n') -> calm w -> rtc step s s' /\ a = f s'.
Proof using.
  intros Hq Hw. unfold query, statement in Hq. destruct (fault (w n)); [done|].
  injection Hq as <- <- _. split; [apply Hw|done].
Qed.

Lemma execute_calm {E A} `{Errors E} context (f : S -> option (A * S)) w n s a s' n' :
  execute context f w n s = (Ok a, s', n') -> calm w -> exists s1, rtc step s s1 /\ f s1 = Some (a, s').
Proof using.
  intros Hq Hw. unfold execute, statement in Hq. destruct (fault (w n)); [done|].
  destruct (f _) as [[b s1]|] eqn:Hf; [|done]. injection Hq as -> -> _. eexists; split; [apply Hw|done].
Qed.

Lemma transaction_calm {E A} `{Errors E} start commit (body : M E A) w n s a s' n' :
  transaction start commit body w n s = (Ok a, s', n') -> calm w ->
  exists s1 n1 n2, rtc step s s1 /\ body (locked w) n1 s1 = (Ok a, s', n2).
Proof using.
  intros Ht Hw. unfold transaction in Ht. destruct (fault (w n)); [done|].
  destruct (body _ _ _) as [[[b|e] s1] n1] eqn:Hb; [|done]. destruct (fault (w n1)); [done|]. injection Ht as -> -> _.
  exists (others (w n) s), (Datatypes.S n), n1. split; [apply Hw|done].
Qed.

Lemma best_effort_calm {E A} (dflt : A) (f : Z -> S -> A * S) w n s a s' n' :
  best_effort (E := E) dflt f w n s = (Ok a, s', n') -> calm w ->
  exists s1, rtc step s s1 /\ ((a = dflt /\ s' = s1) \/ f (clock (w n)) s1 = (a, s')).
Proof using.
  intros Hb Hw. unfold best_effort in Hb. exists (others (w n) s). split; [apply Hw|].
  destruct (fault (w n)); [injection Hb as <- <- _; by left|]. destruct (f _ _) as [b s1] eqn:Hf.
  injection Hb as <- <- _. by right.
Qed.

Lemma caught_calm {E E' A} (m : M E A) w n s (a : option A) s' n' :
  caught (E' := E') m w n s = (Ok a, s', n') ->
  exists r, m w n s = (r, s', n') /\ a = match r with Ok a => Some a | Err _ => None end.
Proof using. unfold caught. destruct (m w n s) as [[r s1] n1]. intros [= <- -> ->]. by exists r. Qed.

Lemma mapped_ok {E E' A} (f : E -> E') (m : M E A) w n s a s' n' :
  mapped f m w n s = (Ok a, s', n') -> m w n s = (Ok a, s', n').
Proof using. unfold mapped. destruct (m w n s) as [[[b|e] s1] n1]; [by intros [= -> -> ->]|done]. Qed.

Lemma spec_best_effort {E A} (dflt : A) (f : Z -> S -> A * S) (Q : A -> Prop) :
  Q dflt -> (forall t s, inv s -> ((f t s).2 = s \/ step s (f t s).2) /\ Q (f t s).1) -> spec (E := E) (best_effort dflt f) Q.
Proof using inv_step.
  intros Hd Hf w n s Hw Hs. unfold best_effort. pose proof (Hw n s) as Ho.
  destruct (fault (w n)); cbn; [split; [done|by intros ? [= <-]]|].
  destruct (Hf (clock (w n)) _ (inv_steps _ _ Hs Ho)) as [Hst HQ]. destruct (f _ _) as [b s1]. cbn in *.
  split; [|by intros ? [= <-]]. destruct Hst as [->|Hst]; [done|by eapply rtc_r].
Qed.

Lemma spec_caught {E E' A} (m : M E A) (Q : A -> Prop) (R : option A -> Prop) :
  spec m Q -> R None -> (forall a, Q a -> R (Some a)) -> spec (E := E') (caught m) R.
Proof using.
  intros Hm Hn HR w n s Hw Hs. destruct (Hm w n s Hw Hs) as [Hst HQ]. unfold caught, result_of, state_of in *.
  destruct (m w n s) as [[[b|e] s1] n1]; cbn in *; (split; [done|]); intros ? [= <-]; auto.
Qed.

Lemma spec_tried {E E' A} (m : M E A) (Q : A -> Prop) : spec m Q -> spec (E := E') (tried m) (fun _ => True).
Proof using.
  intros Hm w n s Hw Hs. destruct (Hm w n s Hw Hs) as [Hst _]. unfold tried, result_of, state_of in *.
  by destruct (m w n s) as [[r s1] n1].
Qed.

Lemma spec_or_none {E A} (m : M (option E) A) (Q : A -> Prop) (R : option A -> Prop) :
  spec m Q -> R None -> (forall a, Q a -> R (Some a)) -> spec (or_none m) R.
Proof using.
  intros Hm Hn HR w n s Hw Hs. destruct (Hm w n s Hw Hs) as [Hst HQ]. unfold or_none, result_of, state_of in *.
  destruct (m w n s) as [[[b|[e|]] s1] n1]; cbn in *; (split; [done|]); [intros ? [= <-]; auto|done|by intros ? [= <-]].
Qed.

Lemma or_none_Some {E A} (m : M (option E) A) w n s a s' n' :
  or_none m w n s = (Ok (Some a), s', n') -> m w n s = (Ok a, s', n').
Proof using. unfold or_none. destruct (m w n s) as [[[b|[e|]] s1] n1]; [|done|done]. by intros [= -> -> ->]. Qed.

Lemma spec_mapped {E E' A} (f : E -> E') (m : M E A) (Q : A -> Prop) : spec m Q -> spec (mapped f m) Q.
Proof using.
  intros Hm w n s Hw Hs. destruct (Hm w n s Hw Hs) as [Hst HQ]. unfold mapped, result_of, state_of in *.
  destruct (m w n s) as [[[b|e] s1] n1]; cbn in *; (split; [done|]); [intros ? [= <-]; by apply HQ|by intros ? [=]].
Qed.

(** An aborted transaction leaves the tables as the others left them. *)
Lemma transaction_aborts {E A} `{Errors E} start commit (body : M E A) w n s e :
  result_of (transaction start commit body w n s) = Err e ->
  state_of (transaction start commit body w n s) = others (w n) s.
Proof using.
  unfold transaction. destruct (fault (w n)); [done|].
  destruct (body _ _ _) as [[[a|e'] s'] n']; [|done]. by destruct (fault (w n')).
Qed.
End Sql.

Arguments moment : clear implicits.
Arguments M : clear implicits.

Create HintDb reads.
#[export] Hint Resolve reads_ret reads_fail reads_lift reads_guard reads_some reads_query reads_bind reads_caught reads_mapped : reads.

Create HintDb fails.
#[export] Hint Resolve fails_ret fails_fail fails_guard fails_some fails_execute fails_query fails_bind fails_transaction : fails.

(** The first part of [Hr : bind m k .. = ..] only reads: two goals, in which it
    fails and in which it succeeds with [Hm]. *)
Ltac unchanged Hm :=
  match type of Hm with
  | ?m ?w _ _ = (_, ?s2, _) =>
      let Hq := fresh in assert (reads w m) as Hq by auto 20 with reads; pose proof (Hq _ _ _ _ _ Hm); clear Hq; subst s2
  end.
Ltac pass Hr Hm :=
  apply bind_cases in Hr as [(? & Hm & ?)|(? & ? & ? & Hm & Hr)]; unchanged Hm.

Declare Scope sql_scope.
Delimit Scope sql_scope with sql.
Notation "x <- m ;; k" := (bind m (fun x => k))
  (at level 100, m at next level, right associativity) : sql_scope.
Notation "m ;;; k" := (bind m (fun _ => k)) (at level 100, right associativity) : sql_scope.

(** Take a successful computation apart, statement by statement. *)
Ltac solve_alone := solve [assumption | apply alone_locked | apply alone_quiet].
Ltac sql_ok :=
  repeat match goal with
  | H : bind _ _ _ _ _ = (Ok _, _, _) |- _ => apply bind_ok in H as (? & ? & ? & ? & ?)
  | H : query _ _ _ _ _ = (Ok _, _, _) |- _ => apply query_ok in H as [-> ->]; [|solve_alone]
  | H : execute _ _ _ _ _ = (Ok _, _, _) |- _ => apply execute_ok in H; [|solve_alone]
  | H : some_or _ _ _ _ _ = (Ok _, _, _) |- _ => apply some_or_ok in H as [? ->]
  | H : guard_else _ _ _ _ _ = (Ok _, _, _) |- _ => apply guard_ok in H as [? ->]
  | H : lift _ _ _ _ = (Ok _, _, _) |- _ => apply lift_ok in H as [? ->]
  | H : ret _ _ _ _ = (Ok _, _, _) |- _ => apply ret_ok in H as [-> ->]
  end.

(** The same while the others run: [Hw] says that they only make steps. *)
Ltac calm_ok Hw :=
  repeat match goal with
  | H : bind _ _ _ _ _ = (Ok _, _, _) |- _ => apply bind_ok in H as (? & ? & ? & ? & ?)
  | H : query _ _ _ _ _ = (Ok _, _, _) |- _ => apply query_calm with (2 := Hw) in H as [? ->]
  | H : execute _ _ _ _ _ = (Ok _, _, _) |- _ => apply execute_calm with (2 := Hw) in H as (? & ? & ?)
  | H : transaction _ _ _ _ _ _ = (Ok _, _, _) |- _ => apply transaction_calm with (2 := Hw) in H as (? & ? & ? & ? & ?)
  | H : some_or _ _ _ _ _ = (Ok _, _, _) |- _ => apply some_or_ok in H as [? ->]
  | H : guard_else _ _ _ _ _ = (Ok _, _, _) |- _ => apply guard_ok in H as [? ->]
  | H : lift _ _ _ _ = (Ok _, _, _) |- _ => apply lift_ok in H as [? ->]
  | H : mapped _ _ _ _ _ = (Ok _, _, _) |- _ => apply mapped_ok in H
  | H : ret _ _ _ _ = (Ok _, _, _) |- _ => first [apply ret_ok in H as [-> ->] | apply ret_ok in H as [_ ->]]
  end.

(** Runs a service in a quiet world. *)
Ltac at_rest :=
  unfold bind, query, execute, statement, best_effort, caught, tried, mapped, transaction, locked, guard_else, some_or, lift, ret, fail, quiet, result_of, state_of;
  cbn -[lit].

(** ** Paged answers *)

Record Page (A : Type) := { items : list A; total : Z; page : Z; per_page : Z; total_pages : Z }.
Arguments items {A}.
Arguments total {A}.
Arguments page {A}.
Arguments per_page {A}.
Arguments total_pages {A}.

Definition clamp (lo hi z : Z) : Z := Z.max lo (Z.min hi z).

Definition slice {A} (page per_page : Z) (rows : list A) : list A :=
  take (Z.to_nat per_page) (drop (Z.to_nat ((page - 1) * per_page)) rows).

(** [paginate], [num_items] and [fetch_page] over the rows of a select: two
    statements, so the count and the page may see different tables. *)
Definition paginated {S E A} `{Errors E} (count fetch : string) (rows : S -> list A) (page per_page : Z) :
    M S E (Page A) :=
  let page := clamp 1 1000000 page in
  let per_page := clamp 1 100 per_page in
  bind (query count (fun s => Z.of_nat (length (rows s)))) (fun total =>
  bind (query fetch (fun s => slice page per_page (rows s))) (fun items =>
  ret {| items := items; total := total; page := page; per_page := per_page;
         total_pages := (total + per_page - 1) / per_page |})).

(** [ORDER BY key DESC]. *)
Definition newest {A} (key : A -> Z) (rows : list A) : list A :=
  @merge_sort A (fun a b => (key b <= key a)%Z) (fun a b => decide (key b <= key a)%Z) rows.
Definition cheapest {A} (key : A -> Z) (rows : list A) : list A :=
  @merge_sort A (fun a b => (key a <= key b)%Z) (fun a b => decide (key a <= key b)%Z) rows.

Lemma slice_sound {A} page per_page (rows : list A) x : x ∈ slice page per_page rows -> x ∈ rows.
Proof.
  intros H. eapply elem_of_submseteq; [exact H|].
  etrans; [apply sublist_submseteq, sublist_take|apply sublist_submseteq, sublist_drop].
Qed.

Lemma spec_paginated {S} (step : S -> S -> Prop) inv {E A} `{Errors E} count fetch (rows : S -> list A) page per_page Q :
  (forall s s', inv s -> step s s' -> inv s') ->
  (forall a, Q a) -> spec step inv (E := E) (paginated count fetch rows page per_page) Q.
Proof.
  intros Hinv HQ. eapply (spec_bind _ _ Hinv _ _ (fun _ => True)); [by apply spec_query|]. intros total _.
  eapply (spec_bind _ _ Hinv _ _ (fun _ => True)); [by apply spec_query|]. intros its _. by apply spec_ret.
Qed.

Lemma newest_elem {A} (key : A -> Z) rows x : x ∈ newest key rows <-> x ∈ rows.
Proof. unfold newest. by rewrite merge_sort_Permutation. Qed.
Lemma cheapest_elem {A} (key : A -> Z) rows x : x ∈ cheapest key rows <-> x ∈ rows.
Proof. unfold cheapest. by rewrite merge_sort_Permutation. Qed.
