(* ===== verification/Billing.v ===== *)
(** * The billing tables ([server/src/repositories/{plan,user_plan,payment_order}.rs])

    The rows the plan, order and balance services share, the steps that change
    them, what always holds of them, and the account of every call: an
    instance's counter is what was granted less what was consumed plus what was
    refunded, whatever happens in between, until its owner is deleted and the
    foreign key takes it along. *)

From S2P Require Import Prelude Sql.

Open Scope string_scope.
Open Scope list_scope.
Open Scope Z_scope.

Record PlanModel := {
  p_id : Z; p_tenant_id : str; p_name : str; p_description : str; p_price : Z; p_total_calls : Z;
  p_validity_days : Z; p_purchase_limit : option Z; p_status : str; p_created_at : Z; p_updated_at : Z
}.

(** The columns of [users] that billing reads or writes. *)
Record UserModel := {
  u_id : Z; u_email : str; u_role : str; u_tenant_id : str; u_balance : Z; u_updated_at : Z
}.

(** [user_plan::Model]. *)
Record UserPlan := {
  i_id : Z; i_user_id : Z; i_plan_id : option Z; i_plan_name : str; i_total_calls : Z;
  i_remaining_calls : Z; i_expires_at : Z; i_source : str; i_created_at : Z
}.

(** [payment_order::Model]. *)
Record PaymentOrder := {
  o_id : Z; o_user_id : Z; o_tenant_id : str; o_user_email : str; o_plan_id : option Z; o_plan_name : str;
  o_amount : Z; o_status : str; o_payment_method : str; o_external_txn_id : option str;
  o_created_at : Z; o_paid_at : option Z
}.

#[export] Instance order_eq_dec : EqDecision PaymentOrder.
Proof. solve_decision. Defined.

Record tables := {
  plans : gmap Z PlanModel; users : gmap Z UserModel;
  user_plans : gmap Z UserPlan; orders : gmap Z PaymentOrder
}.

Definition set_plans (f : gmap Z PlanModel -> gmap Z PlanModel) (s : tables) : tables :=
  {| plans := f (plans s); users := users s; user_plans := user_plans s; orders := orders s |}.
Definition set_users (f : gmap Z UserModel -> gmap Z UserModel) (s : tables) : tables :=
  {| plans := plans s; users := f (users s); user_plans := user_plans s; orders := orders s |}.
Definition set_user_plans (f : gmap Z UserPlan -> gmap Z UserPlan) (s : tables) : tables :=
  {| plans := plans s; users := users s; user_plans := f (user_plans s); orders := orders s |}.
Definition set_orders (f : gmap Z PaymentOrder -> gmap Z PaymentOrder) (s : tables) : tables :=
  {| plans := plans s; users := users s; user_plans := user_plans s; orders := f (orders s) |}.

Definition with_balance (balance now : Z) (u : UserModel) : UserModel :=
  {| u_id := u_id u; u_email := u_email u; u_role := u_role u; u_tenant_id := u_tenant_id u;
     u_balance := balance; u_updated_at := now |}.
Definition with_remaining (n : Z) (i : UserPlan) : UserPlan :=
  {| i_id := i_id i; i_user_id := i_user_id i; i_plan_id := i_plan_id i; i_plan_name := i_plan_name i;
     i_total_calls := i_total_calls i; i_remaining_calls := n; i_expires_at := i_expires_at i;
     i_source := i_source i; i_created_at := i_created_at i |}.

Definition SOURCE_PURCHASE : str := lit "purchase".
Definition SOURCE_ADMIN_GRANT : str := lit "admin_grant".
Definition ORDER_STATUSES : list str := map lit ["paid"; "pending"; "refunded"; "cancelled"].
Definition PAYMENT_METHODS : list str := map lit ["balance"; "wechat"; "alipay"].

(** A day of the clock, which counts microseconds. *)
Definition days (n : Z) : Z := n * 86400000000.

(** [UserPlanResponse::from]: expiry is told before exhaustion. *)
Record UserPlanResponse := { instance : UserPlan; r_status : str }.
Definition UserPlanResponse_from (now : Z) (v : UserPlan) : UserPlanResponse :=
  {| instance := v;
     r_status := if i_expires_at v <=? now then lit "expired"
                 else if i_remaining_calls v <=? 0 then lit "exhausted" else lit "active" |}.

(** ** What always holds of a row *)

Definition MAX_VALIDITY_DAYS : Z := 36500.

Definition plan_ok (p : PlanModel) : Prop :=
  0 <= p_price p /\ 0 < p_total_calls p /\ 0 < p_validity_days p <= MAX_VALIDITY_DAYS /\
  (forall limit, p_purchase_limit p = Some limit -> 0 < limit) /\
  (p_status p = lit "active" \/ p_status p = lit "disabled") /\ trim (p_name p) <> [].

Definition instance_ok (i : UserPlan) : Prop :=
  0 <= i_remaining_calls i <= i_total_calls i /\ 0 < i_total_calls i /\
  i_created_at i < i_expires_at i <= i_created_at i + days MAX_VALIDITY_DAYS /\
  (i_source i = SOURCE_PURCHASE \/ i_source i = SOURCE_ADMIN_GRANT).

Definition order_ok (o : PaymentOrder) : Prop :=
  0 <= o_amount o /\ o_status o ∈ ORDER_STATUSES /\ o_payment_method o ∈ PAYMENT_METHODS.

Record tables_ok (s : tables) : Prop := {
  plans_ok : forall i p, plans s !! i = Some p -> p_id p = i /\ plan_ok p;
  balances_ok : forall i u, users s !! i = Some u -> u_id u = i /\ 0 <= u_balance u;
  instances_ok : forall i v, user_plans s !! i = Some v -> i_id v = i /\ instance_ok v;
  orders_ok : forall i o, orders s !! i = Some o -> o_id o = i /\ order_ok o
}.

(** ** The call counter

    The statements of [consume_call] and [refund_call] ([services/plan.rs]). *)

Definition values {A} (m : gmap Z A) : list A := (map_to_list m).*2.

(** [user_id = $1 AND remaining_calls > 0 AND expires_at > NOW()]. *)
Definition usable (user_id now : Z) (i : UserPlan) : bool :=
  (i_user_id i =? user_id) && (0 <? i_remaining_calls i) && (now <? i_expires_at i).

(** [ORDER BY expires_at ASC LIMIT 1]. *)
Definition earlier (best : option UserPlan) (i : UserPlan) : option UserPlan :=
  match best with
  | Some b => if i_expires_at i <? i_expires_at b then Some i else best
  | None => Some i
  end.
Definition earliest (rows : list UserPlan) : option UserPlan := fold_left earlier rows None.

Definition pick (user_id now : Z) (s : tables) : option UserPlan :=
  earliest (List.filter (usable user_id now) (values (user_plans s))).

(** The [UPDATE .. WHERE id = (SELECT .. FOR UPDATE) RETURNING id]: the row is
    picked in the statement's snapshot and its conditions are checked again once
    the row lock is granted. *)
Definition claim (user_id now : Z) (snapshot s : tables) : option (option Z * tables) :=
  Some match pick user_id now snapshot with
       | None => (None, s)
       | Some i =>
           match user_plans s !! i_id i with
           | Some v => if usable user_id now v
                       then (Some (i_id i), set_user_plans <[i_id i := with_remaining (i_remaining_calls v - 1) v]> s)
                       else (None, s)
           | None => (None, s)
           end
       end.

(** [UPDATE .. SET remaining_calls = remaining_calls + 1 WHERE id = $1 AND
    remaining_calls < total_calls]: [None] when no row was updated. *)
Definition refund_row (instance_id : Z) (s : tables) : option tables :=
  v ← user_plans s !! instance_id;
  if i_remaining_calls v <? i_total_calls v
  then Some (set_user_plans <[instance_id := with_remaining (i_remaining_calls v + 1) v]> s) else None.

Lemma claim_some user_id t snapshot s i s' : claim user_id t snapshot s = Some (Some i, s') ->
  exists v, user_plans s !! i = Some v /\ 0 < i_remaining_calls v /\
    s' = set_user_plans <[i := with_remaining (i_remaining_calls v - 1) v]> s.
Proof.
  unfold claim. destruct (pick _ _ _) as [j|]; [|done]. destruct (user_plans s !! i_id j) as [v|] eqn:E; [|done].
  destruct (usable _ _ _) eqn:Eu; [|done]. intros [= <- <-]. exists v.
  unfold usable in Eu. apply andb_true_iff in Eu as [[_ Hr]%andb_true_iff _]. apply Z.ltb_lt in Hr. done.
Qed.

Lemma claim_none user_id t snapshot s s' : claim user_id t snapshot s = Some (None, s') -> s' = s.
Proof. unfold claim. repeat case_match; congruence. Qed.

Lemma refund_row_some i s s' : refund_row i s = Some s' ->
  exists v, user_plans s !! i = Some v /\ i_remaining_calls v < i_total_calls v /\
    s' = set_user_plans <[i := with_remaining (i_remaining_calls v + 1) v]> s.
Proof.
  unfold refund_row. destruct (user_plans s !! i) as [v|]; [|done]. cbn.
  destruct (Z.ltb_spec (i_remaining_calls v) (i_total_calls v)); [|done]. intros [= <-]. by exists v.
Qed.

(** ** Steps *)

(** What a step means to the account of calls. *)
Inductive event := Granted (i : Z) | Consumed (i : Z) | Refunded (i : Z) | Recorded.
#[export] Instance event_eq_dec : EqDecision event.
Proof. solve_decision. Defined.

Inductive step : event -> tables -> tables -> Prop :=
| step_plan s i p : p_id p = i -> plan_ok p -> step Recorded s (set_plans <[i := p]> s)
| step_plan_deleted s i : step Recorded s (set_plans (delete i) s)
| step_balance s i u b now :
    users s !! i = Some u -> 0 <= b -> step Recorded s (set_users <[i := with_balance b now u]> s)
| step_order s i o : o_id o = i -> order_ok o -> step Recorded s (set_orders <[i := o]> s)
| step_order_deleted s i : step Recorded s (set_orders (delete i) s)
| step_granted s i v :
    user_plans s !! i = None -> i_id v = i -> instance_ok v -> i_remaining_calls v = i_total_calls v ->
    i_source v = SOURCE_ADMIN_GRANT -> step (Granted i) s (set_user_plans <[i := v]> s)
| step_purchased s k u now o v :
    users s !! k = Some u -> o_amount o <= u_balance u -> order_ok o -> o_user_id o = k ->
    user_plans s !! i_id v = None -> instance_ok v -> i_remaining_calls v = i_total_calls v ->
    i_source v = SOURCE_PURCHASE -> i_user_id v = k ->
    step (Granted (i_id v)) s
      (set_user_plans <[i_id v := v]> (set_orders <[o_id o := o]>
        (set_users <[k := with_balance (u_balance u - o_amount o) now u]> s)))
| step_consumed user_id t snapshot s i s' :
    claim user_id t snapshot s = Some (Some i, s') -> step (Consumed i) s s'
| step_refunded s i s' : refund_row i s = Some s' -> step (Refunded i) s s'.

Definition some_step (s s' : tables) : Prop := exists e, step e s s'.

Lemma lookup_after_insert {A} (P : Z -> A -> Prop) (m : gmap Z A) i a :
  P i a -> (forall j b, m !! j = Some b -> P j b) -> forall j b, <[i := a]> m !! j = Some b -> P j b.
Proof. intros Ha Hm j b [[<- <-]|[_ Hb]]%lookup_insert_Some; auto. Qed.

Lemma lookup_after_delete {A} (P : Z -> A -> Prop) (m : gmap Z A) i :
  (forall j b, m !! j = Some b -> P j b) -> forall j b, delete i m !! j = Some b -> P j b.
Proof. intros Hm j b [_ Hb]%lookup_delete_Some; auto. Qed.

Lemma with_remaining_ok n v : 0 <= n <= i_total_calls v -> instance_ok v -> instance_ok (with_remaining n v).
Proof. intros Hn (_ & Ht & Hd & Hs). exact (conj Hn (conj Ht (conj Hd Hs))). Qed.

Lemma step_ok s s' : tables_ok s -> some_step s s' -> tables_ok s'.
Proof.
  intros [Hp Hu Hi Ho] [e Hs].
  destruct Hs as [s i p E1 Hk|s i|s i u b now Hl Hb|s i o E1 Hk|s i|s i v Hn E1 Hk _ _
                 |s k u now o v Hl Hb Hk E1 Hn Hv _ _ _|uid t snap s i s' Hc|s i s' Hc];
    [..|apply claim_some in Hc as (v & Hl & Hr & ->)|apply refund_row_some in Hc as (v & Hl & Hr & ->)];
    split; cbn [plans users user_plans orders set_plans set_users set_user_plans set_orders]; try done;
    try (apply lookup_after_delete; assumption).
  - by apply (lookup_after_insert (fun i p => p_id p = i /\ plan_ok p)).
  - apply (lookup_after_insert (fun i u => u_id u = i /\ 0 <= u_balance u)); [|done]. destruct (Hu _ _ Hl). by split.
  - by apply (lookup_after_insert (fun i o => o_id o = i /\ order_ok o)).
  - by apply (lookup_after_insert (fun i v => i_id v = i /\ instance_ok v)).
  - apply (lookup_after_insert (fun i u => u_id u = i /\ 0 <= u_balance u)); [|done].
    destruct (Hu _ _ Hl). cbn. split; [done|lia].
  - by apply (lookup_after_insert (fun i v => i_id v = i /\ instance_ok v)).
  - by apply (lookup_after_insert (fun i o => o_id o = i /\ order_ok o)).
  - apply (lookup_after_insert (fun i v => i_id v = i /\ instance_ok v)); [|done].
    destruct (Hi _ _ Hl) as [? Hv]. split; [done|]. pose proof Hv as ((? & ?) & _).
    apply with_remaining_ok; [lia|done].
  - apply (lookup_after_insert (fun i v => i_id v = i /\ instance_ok v)); [|done].
    destruct (Hi _ _ Hl) as [? Hv]. split; [done|]. pose proof Hv as ((? & ?) & _).
    apply with_remaining_ok; [lia|done].
Qed.

(** ** Histories *)

Inductive run : list event -> tables -> tables -> Prop :=
| run_nil s : run [] s s
| run_cons e es s1 s2 s3 : step e s1 s2 -> run es s2 s3 -> run (e :: es) s1 s3.

Lemma run_app es1 es2 s1 s2 s3 : run es1 s1 s2 -> run es2 s2 s3 -> run (es1 ++ es2) s1 s3.
Proof. induction 1; cbn; [done|]. intros. econstructor; eauto. Qed.

Lemma run_steps s s' : rtc some_step s s' <-> exists es, run es s s'.
Proof.
  split.
  - induction 1 as [s|s1 s2 s3 [e He] _ [es IH]]; [by exists []; constructor|]. exists (e :: es). by econstructor.
  - intros [es Hr]. induction Hr as [|e es s1 s2 s3 Hs _ IH]; [done|]. eapply rtc_l; [by exists e|done].
Qed.

(** One step of an instance's counter. *)
Lemma step_counter e s s' i v :
  step e s s' -> user_plans s !! i = Some v ->
  user_plans s' !! i = Some (with_remaining (i_remaining_calls v
     - (if bool_decide (e = Consumed i) then 1 else 0) + (if bool_decide (e = Refunded i) then 1 else 0)) v).
Proof.
  assert (with_remaining (i_remaining_calls v - 0 + 0) v = v) as Hv0.
  { destruct v; unfold with_remaining; cbn. f_equal. lia. }
  intros Hs Hl.
  destruct Hs as [| | | | |s i' v' Hn|s k u now o v' _ _ _ _ Hn|uid t snap s i' s' Hc|s i' s' Hc];
    [..|apply claim_some in Hc as (v' & Hl' & _ & ->)|apply refund_row_some in Hc as (v' & Hl' & _ & ->)];
    cbn [user_plans set_plans set_users set_user_plans set_orders];
    repeat rewrite bool_decide_eq_false_2 by discriminate; rewrite ?Hv0; try done.
  - rewrite lookup_insert_ne by congruence. by rewrite Hl.
  - rewrite lookup_insert_ne by congruence. by rewrite Hl.
  - destruct (decide (i' = i)) as [->|Hi].
    + rewrite lookup_insert_eq, bool_decide_eq_true_2, (bool_decide_eq_false_2 (Consumed i = Refunded i)) by done.
      assert (v' = v) as -> by congruence. do 2 f_equal; lia.
    + rewrite lookup_insert_ne, !bool_decide_eq_false_2 by congruence. by rewrite Hv0.
  - destruct (decide (i' = i)) as [->|Hi].
    + rewrite lookup_insert_eq, bool_decide_eq_true_2 by done.
      assert (v' = v) as -> by congruence. do 2 f_equal; lia.
    + rewrite lookup_insert_ne, !bool_decide_eq_false_2 by congruence. by rewrite Hv0.
Qed.

Lemma with_remaining_twice n m v : with_remaining n (with_remaining m v) = with_remaining n v.
Proof. by destruct v. Qed.

Lemma run_ok es s s' : tables_ok s -> run es s s' -> tables_ok s'.
Proof. intros Hs Hr. eapply inv_steps; [apply step_ok|done|]. apply run_steps. eauto. Qed.

(** ** The accounts next door

    The user services write the same database: they add users, change their rows
    and delete them, and with a user the database deletes his instances
    ([user_plans.user_id .. ON DELETE CASCADE]). *)

Definition delete_user_row (k : Z) (s : tables) : tables :=
  set_user_plans (filter (fun row => i_user_id row.2 <> k)) (set_users (delete k) s).

Inductive happening := Billed (e : event) | Deleted (k : Z) | Edited.
#[export] Instance happening_eq_dec : EqDecision happening.
Proof. solve_decision. Defined.

Inductive happens : happening -> tables -> tables -> Prop :=
| happens_billed e s s' : step e s s' -> happens (Billed e) s s'
| happens_deleted s k : happens (Deleted k) s (delete_user_row k s)
| happens_registered s k u :
    users s !! k = None -> u_id u = k -> u_balance u = 0 -> happens Edited s (set_users <[k := u]> s)
| happens_edited s k u u' :
    users s !! k = Some u -> u_id u' = u_id u -> u_balance u' = u_balance u -> happens Edited s (set_users <[k := u']> s).

Inductive history : list happening -> tables -> tables -> Prop :=
| history_nil s : history [] s s
| history_cons h hs s1 s2 s3 : happens h s1 s2 -> history hs s2 s3 -> history (h :: hs) s1 s3.

Lemma history_split hs1 hs2 s s' : history (hs1 ++ hs2) s s' -> exists s1, history hs1 s s1 /\ history hs2 s1 s'.
Proof.
  revert s; induction hs1 as [|h hs1 IH]; intros s Hr; [by exists s; split; [constructor|]|].
  inversion Hr as [|? ? ? s2 ? Hh Ht]; subst. destruct (IH _ Ht) as (s1 & H1 & H2). exists s1. split; [by econstructor|done].
Qed.

Lemma delete_user_row_ok k s : tables_ok s -> tables_ok (delete_user_row k s).
Proof.
  intros [Hp Hu Hi Ho]. split; cbn [plans users user_plans orders delete_user_row set_users set_user_plans]; try done.
  - by apply lookup_after_delete.
  - intros i v [Hv _]%map_lookup_filter_Some. auto.
Qed.

Lemma happens_ok h s s' : tables_ok s -> happens h s s' -> tables_ok s'.
Proof.
  intros Hok Hh. destruct Hh as [e s1 s2 Hs|s1 k|s1 k u Hn Eu Eb|s1 k u u' Hu Eu Eb].
  - apply (step_ok s1); [done|]. by exists e.
  - by apply delete_user_row_ok.
  - destruct Hok as [Hp Hb Hi Ho]. split; cbn; try done.
    apply (lookup_after_insert (fun i u => u_id u = i /\ 0 <= u_balance u)); [split; [congruence|lia]|done].
  - destruct Hok as [Hp Hb Hi Ho]. split; cbn; try done.
    destruct (Hb _ _ Hu).
    apply (lookup_after_insert (fun i u => u_id u = i /\ 0 <= u_balance u)); [split; [congruence|lia]|done].
Qed.

Lemma history_ok hs s s' : tables_ok s -> history hs s s' -> tables_ok s'.
Proof. intros Hok Hr. induction Hr as [|? ? ? ? ? Hh _ IH]; [done|]. apply IH. by eapply happens_ok. Qed.

Definition count (h : happening) (hs : list happening) : Z := Z.of_nat (length (List.filter (fun x => bool_decide (x = h)) hs)).

Lemma count_cons h x hs : count h (x :: hs) = (if bool_decide (x = h) then 1 else 0) + count h hs.
Proof. unfold count. cbn [List.filter]. case_bool_decide; cbn [length]; lia. Qed.

Lemma same_instance v : with_remaining (i_remaining_calls v - 0 + 0) v = v.
Proof. destruct v; unfold with_remaining; cbn. f_equal. lia. Qed.

Lemma billed_eq (e e' : event) : bool_decide (Billed e = Billed e') = bool_decide (e = e').
Proof. apply bool_decide_ext. split; congruence. Qed.

Lemma happens_counter h s s' i v :
  happens h s s' -> h <> Deleted (i_user_id v) -> user_plans s !! i = Some v ->
  user_plans s' !! i = Some (with_remaining (i_remaining_calls v
     - (if bool_decide (h = Billed (Consumed i)) then 1 else 0)
     + (if bool_decide (h = Billed (Refunded i)) then 1 else 0)) v).
Proof.
  intros Hh Hd Hl. destruct Hh as [e s1 s2 Hs|s1 k|s1 k u|s1 k u u'].
  - rewrite !billed_eq. by apply (step_counter _ s1).
  - rewrite !bool_decide_eq_false_2, same_instance by done. cbn. apply map_lookup_filter_Some. split; [done|]. cbn. congruence.
  - by rewrite !bool_decide_eq_false_2, same_instance by done.
  - by rewrite !bool_decide_eq_false_2, same_instance by done.
Qed.

Lemma history_counter hs s s' i v :
  history hs s s' -> Deleted (i_user_id v) ∉ hs -> user_plans s !! i = Some v ->
  user_plans s' !! i =
    Some (with_remaining (i_remaining_calls v - count (Billed (Consumed i)) hs + count (Billed (Refunded i)) hs) v).
Proof.
  intros Hr. revert v. induction Hr as [s|h hs s1 s2 s3 Hh _ IH]; intros v Hd Hl.
  - rewrite Hl. unfold count; cbn [List.filter length Z.of_nat]. by rewrite same_instance.
  - apply not_elem_of_cons in Hd as [Hd Hd']. specialize (happens_counter _ _ _ _ _ Hh (not_eq_sym Hd) Hl) as Hl'.
    rewrite (IH (with_remaining _ v) Hd' Hl'), with_remaining_twice, !count_cons. cbn [with_remaining i_remaining_calls].
    do 2 f_equal. repeat case_bool_decide; lia.
Qed.

(** ** Theorems *)

(** C12: Every call is accounted for, in any interleaving of the statements of the
    billing and the user services.  As long as its owner is not deleted, an
    instance that is there stays there with the same terms, its counter is what
    it was less the calls consumed plus the calls refunded, and it never leaves
    [0..total], so no more than [total] calls (plus the refunds) are ever served
    from it.  When its owner is deleted it is gone, and the calls served from it
    until then are within the same bound. *)
Theorem calls_are_accounted hs s s' i v :
  tables_ok s -> history hs s s' -> user_plans s !! i = Some v ->
  (Deleted (i_user_id v) ∉ hs ->
   exists v', user_plans s' !! i = Some v' /\ v' = with_remaining (i_remaining_calls v') v /\
     i_remaining_calls v' = i_remaining_calls v - count (Billed (Consumed i)) hs + count (Billed (Refunded i)) hs /\
     0 <= i_remaining_calls v' <= i_total_calls v /\
     count (Billed (Consumed i)) hs <= i_total_calls v + count (Billed (Refunded i)) hs) /\
  (forall hs1 hs2, hs = hs1 ++ Deleted (i_user_id v) :: hs2 -> Deleted (i_user_id v) ∉ hs1 ->
   count (Billed (Consumed i)) hs1 <= i_total_calls v + count (Billed (Refunded i)) hs1 /\
   exists s1 s2, history hs1 s s1 /\ happens (Deleted (i_user_id v)) s1 s2 /\ history hs2 s2 s' /\
     is_Some (user_plans s1 !! i) /\ user_plans s2 !! i = None).
Proof.
  intros Hs Hr Hl.
  assert (forall hs1 s1, history hs1 s s1 -> Deleted (i_user_id v) ∉ hs1 ->
   exists v', user_plans s1 !! i = Some v' /\ v' = with_remaining (i_remaining_calls v') v /\
     i_remaining_calls v' = i_remaining_calls v - count (Billed (Consumed i)) hs1 + count (Billed (Refunded i)) hs1 /\
     0 <= i_remaining_calls v' <= i_total_calls v /\
     count (Billed (Consumed i)) hs1 <= i_total_calls v + count (Billed (Refunded i)) hs1) as Hrun.
  { intros hs1 s1 Hr1 Hd. pose proof (history_counter _ _ _ _ _ Hr1 Hd Hl) as Hl'. eexists. split; [exact Hl'|].
    destruct (instances_ok _ (history_ok _ _ _ Hs Hr1) _ _ Hl') as [_ ((? & ?) & _)].
    destruct (instances_ok _ Hs _ _ Hl) as [_ ((? & ?) & _)].
    cbn [with_remaining i_remaining_calls i_total_calls] in *. split_and!; try done. lia. }
  split; [by apply Hrun|]. intros hs1 hs2 -> Hd. apply history_split in Hr as (s1 & Hr1 & Hr2).
  destruct (Hrun _ _ Hr1 Hd) as (v' & Hv' & Ev & _ & _ & Hc). split; [done|].
  inversion Hr2 as [|? ? ? s2 ? Hh Ht]; subst. exists s1, s2. split_and!; [done|done|done|by eexists|].
  inversion Hh; subst. cbn. apply map_lookup_filter_None. right. intros w Hw Hk. rewrite Hv' in Hw. injection Hw as <-.
  apply Hk. cbn. by rewrite Ev.
Qed.

Definition demo_instance (id expires remaining : Z) : UserPlan := {|
  i_id := id; i_user_id := 7; i_plan_id := Some 1; i_plan_name := lit "basic"; i_total_calls := 3;
  i_remaining_calls := remaining; i_expires_at := expires; i_source := SOURCE_PURCHASE; i_created_at := 0 |}.
Definition demo_plan : PlanModel := {|
  p_id := 1; p_tenant_id := lit "t1"; p_name := lit "basic"; p_description := []; p_price := 40; p_total_calls := 3;
  p_validity_days := 30; p_purchase_limit := Some 2; p_status := lit "active"; p_created_at := 0; p_updated_at := 0 |}.
Definition demo_user : UserModel := {|
  u_id := 7; u_email := lit "a@b.c"; u_role := lit "user"; u_tenant_id := lit "t1"; u_balance := 100; u_updated_at := 0 |}.
Definition demo_tables : tables := {|
  plans := {[ 1 := demo_plan ]}; users := {[ 7 := demo_user ]};
  user_plans := {[ 10 := demo_instance 10 (days 5) 1; 11 := demo_instance 11 (days 3) 2; 12 := demo_instance 12 (days 1) 0 ]};
  orders := ∅ |}.

Lemma demo_tables_ok : tables_ok demo_tables.
Proof.
  split; intros i x H; cbn [demo_tables plans users user_plans orders] in H.
  - apply lookup_singleton_Some in H as [<- <-]. split; [done|]. unfold plan_ok, MAX_VALIDITY_DAYS; cbn.
    split_and!; try lia; [by intros ? [= <-]|by left|done].
  - apply lookup_singleton_Some in H as [<- <-]. split; [done|cbn; lia].
  - apply lookup_insert_Some in H as [[<- <-]|[_ H]].
    2: apply lookup_insert_Some in H as [[<- <-]|[_ H]].
    3: apply lookup_singleton_Some in H as [<- <-].
    all: split; [done|]; unfold instance_ok, MAX_VALIDITY_DAYS, days; cbn; split_and!; try lia; by left.
  - by rewrite lookup_empty in H.
Qed.

Definition demo_history : list happening :=
  [Billed (Consumed 11); Billed (Refunded 11); Billed (Consumed 11); Deleted 7; Edited].
Definition newcomer : UserModel := {|
  u_id := 8; u_email := lit "c@d.e"; u_role := lit "user"; u_tenant_id := lit "t1"; u_balance := 0; u_updated_at := 0 |}.

Lemma demo_runs : exists s1 s2, user_plans s1 !! 11 = Some (demo_instance 11 (days 3) 1) /\
  s2 = set_users <[8 := newcomer]> (delete_user_row 7 s1) /\ history demo_history demo_tables s2.
Proof.
  set (served := fun s => set_user_plans <[11 := demo_instance 11 (days 3) 1]> s).
  exists (served (set_user_plans <[11 := demo_instance 11 (days 3) 2]> (served demo_tables))). eexists. split; [done|]. split; [done|].
  eapply history_cons; [apply happens_billed, (step_consumed 7 (days 2) demo_tables); vm_compute; reflexivity|].
  eapply history_cons; [apply happens_billed, step_refunded; vm_compute; reflexivity|].
  eapply history_cons; [apply happens_billed, (step_consumed 7 (days 2) demo_tables); vm_compute; reflexivity|].
  eapply history_cons; [apply happens_deleted|]. eapply history_cons; [|apply history_nil].
  by apply happens_registered.
Qed.

Lemma calls_are_accounted_witness :
  exists s', history demo_history demo_tables s' /\
  count (Billed (Consumed 11)) (take 3 demo_history) = 2 /\
  (count (Billed (Consumed 11)) (take 3 demo_history) <= 3 + count (Billed (Refunded 11)) (take 3 demo_history) /\
   exists s1 s2, history (take 3 demo_history) demo_tables s1 /\ happens (Deleted 7) s1 s2 /\ history [Edited] s2 s' /\
     is_Some (user_plans s1 !! 11) /\ user_plans s2 !! 11 = None).
Proof.
  destruct demo_runs as (s1 & s2 & _ & _ & Hr). exists s2. split; [exact Hr|]. split; [reflexivity|].
  apply (calls_are_accounted demo_history demo_tables s2 11 (demo_instance 11 (days 3) 2) demo_tables_ok Hr);
    [reflexivity|reflexivity|]. cbn. rewrite !not_elem_of_cons. by split_and!; [..|apply not_elem_of_nil].
Defined.
