(* ===== verification/Plans.v ===== *)
(** * Plans and call quotas ([server/src/services/plan.rs])

    Plan templates under the tenant rules, grants and purchases of instances, and
    the per-call counter behind the AI endpoint.  Cache invalidation after a
    purchase is best effort and is not a state of the tables. *)

From S2P Require Import Prelude Sql Billing.

Open Scope string_scope.
Open Scope list_scope.
Open Scope Z_scope.
Open Scope sql_scope.

Inductive PlanError :=
| NotFound | UserNotFound | InvalidInput (message : str) | InsufficientBalance
| PurchaseLimitReached | NoActivePlan | Internal (context : string).

#[export] Instance plan_errors : Errors PlanError := Internal.

Record CreatePlanInput := {
  c_tenant_id : str; c_name : str; c_description : option str; c_price : Z; c_total_calls : Z;
  c_validity_days : Z; c_purchase_limit : option Z; c_status : option str
}.

Record UpdatePlanInput := {
  n_name : option str; n_description : option str; n_price : option Z; n_total_calls : option Z;
  n_validity_days : option Z; n_purchase_limit : option (option Z); n_status : option str
}.

Record PurchaseOutcome := { outcome_order : PaymentOrder; outcome_plan : UserPlanResponse; outcome_balance : Z }.
Record AvailablePlan := { available : PlanModel; purchases_used : Z }.

Definition in_scope (actor_role actor_tenant_id plan_tenant_id : str) : bool :=
  str_eqb actor_role (lit "system") || str_eqb actor_tenant_id plan_tenant_id.

Definition invalid {A} (message : string) : result A PlanError := Err (InvalidInput (lit message)).

Definition validate_plan_numbers (price total_calls validity_days : Z) : result unit PlanError :=
  if price <? 0 then invalid "price must be non-negative"
  else if total_calls <=? 0 then invalid "total_calls must be positive"
  else if (validity_days <=? 0) || (MAX_VALIDITY_DAYS <? validity_days)
  then Err (InvalidInput (lit "validity_days must be within 1..=" ++ show_N (Z.to_N MAX_VALIDITY_DAYS)))
  else Ok tt.

Definition validate_plan_status (status : str) : result unit PlanError :=
  if str_eqb status (lit "active") || str_eqb status (lit "disabled") then Ok tt
  else invalid "status must be active or disabled".

Definition validate_purchase_limit (purchase_limit : option Z) : result unit PlanError :=
  match purchase_limit with
  | Some limit => if limit <=? 0 then invalid "purchase_limit must be positive when provided" else Ok tt
  | None => Ok tt
  end.

Abbreviation M := (Sql.M tables PlanError).

Definition load_scoped_plan (id : Z) (actor_role actor_tenant_id : str) : M PlanModel :=
  found <- query "load plan" (fun s => plans s !! id) ;;
  plan <- some_or found NotFound ;;
  guard_else (in_scope actor_role actor_tenant_id (p_tenant_id plan)) NotFound ;;;
  ret plan.

Definition load_scoped_user (id : Z) (actor_role actor_tenant_id : str) : M UserModel :=
  found <- query "load user" (fun s => users s !! id) ;;
  user <- some_or found UserNotFound ;;
  guard_else (in_scope actor_role actor_tenant_id (u_tenant_id user)) UserNotFound ;;;
  ret user.

Definition list_paginated (actor_role actor_tenant_id : str) (tenant_filter : option str) (page per_page : Z) :
    M (Page PlanModel) :=
  let tenant :=
    if str_eqb actor_role (lit "system")
    then match tenant_filter with Some t => if is_empty t then None else Some t | None => None end
    else Some actor_tenant_id in
  paginated "count plans" "fetch plans page"
    (fun s => newest p_created_at
       (List.filter (fun p => match tenant with Some t => str_eqb (p_tenant_id p) t | None => true end) (values (plans s))))
    page per_page.

(** Instances of the plan that the user bought. *)
Definition purchase_count (user_id plan_id : Z) (s : tables) : Z :=
  Z.of_nat (length (List.filter (fun i =>
    (i_user_id i =? user_id) && bool_decide (i_plan_id i = Some plan_id) && str_eqb (i_source i) SOURCE_PURCHASE)
    (values (user_plans s)))).

(** The grouped count of the second query, looked up for each listed plan. *)
Definition list_available (tenant_id : str) (user_id : Z) : M (list AvailablePlan) :=
  items <- query "list available plans" (fun s => cheapest p_price
    (List.filter (fun p => str_eqb (p_tenant_id p) tenant_id && str_eqb (p_status p) (lit "active")) (values (plans s)))) ;;
  query "count purchases for available plans" (fun s =>
    map (fun p => {| available := p; purchases_used := purchase_count user_id (p_id p) s |}) items).

(** An insertion is refused when the key is taken. *)
Definition insert_plan (p : PlanModel) (s : tables) : option (PlanModel * tables) :=
  match plans s !! p_id p with Some _ => None | None => Some (p, set_plans <[p_id p := p]> s) end.

Definition create (now new_id : Z) (input : CreatePlanInput) : M PlanModel :=
  guard_else (negb (is_empty (trim (c_name input)))) (InvalidInput (lit "name is required")) ;;;
  lift (validate_plan_numbers (c_price input) (c_total_calls input) (c_validity_days input)) ;;;
  lift (validate_purchase_limit (c_purchase_limit input)) ;;;
  let status := default (lit "active") (c_status input) in
  lift (validate_plan_status status) ;;;
  execute "create plan" (insert_plan
    {| p_id := new_id; p_tenant_id := c_tenant_id input; p_name := trim (c_name input);
       p_description := default [] (c_description input); p_price := c_price input;
       p_total_calls := c_total_calls input; p_validity_days := c_validity_days input;
       p_purchase_limit := c_purchase_limit input; p_status := status; p_created_at := now; p_updated_at := now |}).

(** The columns an update sets, on the row as the statement finds it. *)
Definition set_columns (now : Z) (input : UpdatePlanInput) (p : PlanModel) : PlanModel :=
  {| p_id := p_id p; p_tenant_id := p_tenant_id p;
     p_name := match n_name input with Some v => trim v | None => p_name p end;
     p_description := default (p_description p) (n_description input);
     p_price := default (p_price p) (n_price input);
     p_total_calls := default (p_total_calls p) (n_total_calls input);
     p_validity_days := default (p_validity_days p) (n_validity_days input);
     p_purchase_limit := default (p_purchase_limit p) (n_purchase_limit input);
     p_status := default (p_status p) (n_status input);
     p_created_at := p_created_at p; p_updated_at := now |}.

Definition update (now id : Z) (input : UpdatePlanInput) (actor_role actor_tenant_id : str) : M PlanModel :=
  plan <- load_scoped_plan id actor_role actor_tenant_id ;;
  lift (validate_plan_numbers (default (p_price plan) (n_price input)) (default (p_total_calls plan) (n_total_calls input))
          (default (p_validity_days plan) (n_validity_days input))) ;;;
  lift (validate_purchase_limit (default (p_purchase_limit plan) (n_purchase_limit input))) ;;;
  lift (match n_status input with Some status => validate_plan_status status | None => Ok tt end) ;;;
  guard_else (match n_name input with Some name => negb (is_empty (trim name)) | None => true end)
    (InvalidInput (lit "name must not be empty")) ;;;
  execute "update plan" (fun s =>
    p ← plans s !! id; let p' := set_columns now input p in Some (p', set_plans <[id := p']> s)).

Definition delete (id : Z) (actor_role actor_tenant_id : str) : M unit :=
  load_scoped_plan id actor_role actor_tenant_id ;;;
  execute "delete plan" (fun s => Some (tt, set_plans (base.delete id) s)).

(** [insert_user_plan]. *)
Definition instance_of (now new_id : Z) (user : UserModel) (plan : PlanModel) (source : str) : UserPlan :=
  {| i_id := new_id; i_user_id := u_id user; i_plan_id := Some (p_id plan); i_plan_name := p_name plan;
     i_total_calls := p_total_calls plan; i_remaining_calls := p_total_calls plan;
     i_expires_at := now + days (p_validity_days plan); i_source := source; i_created_at := now |}.

Definition insert_user_plan (now new_id : Z) (user : UserModel) (plan : PlanModel) (source : str) : M UserPlan :=
  let row := instance_of now new_id user plan source in
  execute "insert user plan" (fun s =>
    match user_plans s !! i_id row with Some _ => None | None => Some (row, set_user_plans <[i_id row := row]> s) end).

Definition assign_to_user (now new_id target_user_id plan_id : Z) (actor_role actor_tenant_id : str) :
    M UserPlanResponse :=
  user <- load_scoped_user target_user_id actor_role actor_tenant_id ;;
  plan <- load_scoped_plan plan_id actor_role actor_tenant_id ;;
  guard_else (str_eqb (p_tenant_id plan) (u_tenant_id user))
    (InvalidInput (lit "Plan does not belong to the user's tenant")) ;;;
  row <- insert_user_plan now new_id user plan SOURCE_ADMIN_GRANT ;;
  ret (UserPlanResponse_from now row).

Definition list_plans_of (now user_id : Z) : M (list UserPlanResponse) :=
  query "list user plans" (fun s =>
    map (UserPlanResponse_from now)
      (newest i_created_at (List.filter (fun i => i_user_id i =? user_id) (values (user_plans s))))).

Definition list_user_plans (now target_user_id : Z) (actor_role actor_tenant_id : str) : M (list UserPlanResponse) :=
  load_scoped_user target_user_id actor_role actor_tenant_id ;;; list_plans_of now target_user_id.

Definition insert_order (o : PaymentOrder) (s : tables) : option (PaymentOrder * tables) :=
  match orders s !! o_id o with Some _ => None | None => Some (o, set_orders <[o_id o := o]> s) end.

Definition order_of_purchase (now new_id user_id : Z) (user : UserModel) (plan : PlanModel) : PaymentOrder :=
  {| o_id := new_id; o_user_id := user_id; o_tenant_id := u_tenant_id user; o_user_email := u_email user;
     o_plan_id := Some (p_id plan); o_plan_name := p_name plan; o_amount := p_price plan; o_status := lit "paid";
     o_payment_method := lit "balance"; o_external_txn_id := None; o_created_at := now; o_paid_at := Some now |}.

Definition purchase_body (now order_id instance_id user_id plan_id : Z) : M PurchaseOutcome :=
  found <- query "load buyer" (fun s => users s !! user_id) ;;
  user <- some_or found UserNotFound ;;
  found <- query "load plan" (fun s => plans s !! plan_id) ;;
  plan <- some_or found NotFound ;;
  guard_else (str_eqb (p_tenant_id plan) (u_tenant_id user) && str_eqb (p_status plan) (lit "active")) NotFound ;;;
  match p_purchase_limit plan with
  | Some purchase_limit =>
      n <- query "count prior plan purchases" (purchase_count user_id plan_id) ;;
      guard_else (n <? u64_wrap purchase_limit) PurchaseLimitReached
  | None => ret tt
  end ;;;
  guard_else (p_price plan <=? u_balance user) InsufficientBalance ;;;
  let new_balance := u_balance user - p_price plan in
  execute "deduct balance" (fun s =>
    u ← users s !! user_id; Some (tt, set_users <[user_id := with_balance new_balance now u]> s)) ;;;
  order <- execute "insert payment order" (insert_order (order_of_purchase now order_id user_id user plan)) ;;
  row <- insert_user_plan now instance_id user plan SOURCE_PURCHASE ;;
  ret {| outcome_order := order; outcome_plan := UserPlanResponse_from now row; outcome_balance := new_balance |}.

(** The cached profile of the buyer is dropped after the commit; a
    failure of that is only logged, and the cache is no part of these tables. *)
Definition purchase (now order_id instance_id user_id plan_id : Z) : M PurchaseOutcome :=
  transaction "Failed to start transaction" "commit purchase" (purchase_body now order_id instance_id user_id plan_id).

(** ** The call counter *)

Definition probe (user_id now : Z) (s : tables) : bool := existsb (usable user_id now) (values (user_plans s)).

Fixpoint attempts (k : nat) (user_id : Z) : M Z :=
  match k with
  | O => fail NoActivePlan
  | S k =>
      row <- statement "consume plan call" (claim user_id) ;;
      match row with
      | Some id => ret id
      | None =>
          eligible <- statement "recheck plan availability" (fun now _ s => Some (probe user_id now s, s)) ;;
          if eligible then attempts k user_id else fail NoActivePlan
      end
  end.

Definition MAX_ATTEMPTS : nat := 3.
Definition consume_call (user_id : Z) : M Z := attempts MAX_ATTEMPTS user_id.

Definition refund_call (instance_id : Z) : M unit :=
  execute "refund plan call" (fun s => Some (tt, default s (refund_row instance_id s))).

(** ** Only steps *)

Abbreviation steps := (spec some_step tables_ok).

Lemma validate_plan_numbers_ok price total n :
  validate_plan_numbers price total n = Ok tt <-> 0 <= price /\ 0 < total /\ 0 < n <= MAX_VALIDITY_DAYS.
Proof.
  unfold validate_plan_numbers, MAX_VALIDITY_DAYS.
  destruct (Z.ltb_spec price 0), (Z.leb_spec total 0), (Z.leb_spec n 0), (Z.ltb_spec 36500 n); cbn;
    (split; [intros [=]|intros; done || lia]); lia.
Qed.

Lemma validate_plan_status_ok status :
  validate_plan_status status = Ok tt <-> status = lit "active" \/ status = lit "disabled".
Proof.
  unfold validate_plan_status. rewrite <- !str_eqb_eq, <- orb_true_iff. by destruct (_ || _).
Qed.

Lemma validate_purchase_limit_ok limit :
  validate_purchase_limit limit = Ok tt -> forall n, limit = Some n -> 0 < n.
Proof. intros H n ->. cbn in H. by destruct (Z.leb_spec n 0). Qed.

Lemma load_scoped_plan_spec id role tenant :
  steps (load_scoped_plan id role tenant)
    (fun p => p_id p = id /\ plan_ok p /\ in_scope role tenant (p_tenant_id p) = true).
Proof.
  unfold load_scoped_plan. apply spec_seq; [apply step_ok|]. apply spec_query; [apply step_ok|]. intros s Hs.
  apply spec_seq; [apply step_ok|]. apply spec_some. intros p Hp.
  apply spec_seq; [apply step_ok|]. apply spec_guard. intros Hg. apply spec_ret.
  by destruct (plans_ok _ Hs _ _ Hp).
Qed.

Lemma load_scoped_user_spec id role tenant :
  steps (load_scoped_user id role tenant) (fun u => u_id u = id /\ in_scope role tenant (u_tenant_id u) = true).
Proof.
  unfold load_scoped_user. apply spec_seq; [apply step_ok|]. apply spec_query; [apply step_ok|]. intros s Hs.
  apply spec_seq; [apply step_ok|]. apply spec_some. intros u Hu.
  apply spec_seq; [apply step_ok|]. apply spec_guard. intros Hg. apply spec_ret.
  by destruct (balances_ok _ Hs _ _ Hu).
Qed.

Lemma create_spec now new_id input : steps (create now new_id input) (fun _ => True).
Proof.
  unfold create. apply spec_seq; [apply step_ok|]. apply spec_guard. intros Hn.
  apply spec_seq; [apply step_ok|]. apply spec_lift. intros [] Hv%validate_plan_numbers_ok.
  apply spec_seq; [apply step_ok|]. apply spec_lift. intros [] Hl. pose proof (validate_purchase_limit_ok _ Hl) as Hlimit.
  apply spec_seq; [apply step_ok|]. apply spec_lift. intros [] Hs%validate_plan_status_ok.
  apply spec_execute; [apply step_ok|]. intros s p s' _. unfold insert_plan. case_match; [done|].
  intros [= <- <-]. split; [|done]. exists Recorded. apply step_plan; [done|].
  bool_to_prop. unfold plan_ok; cbn [p_price p_total_calls p_validity_days p_purchase_limit p_status p_name].
  split_and!; try apply Hv; try done. by apply trim_trim_nonempty.
Qed.

Lemma update_spec now id input role tenant : steps (update now id input role tenant) (fun _ => True).
Proof.
  unfold update. eapply spec_bind; [apply step_ok|apply load_scoped_plan_spec|]. intros p (_ & _ & _).
  apply spec_seq; [apply step_ok|]. apply spec_lift. intros [] (Hp & Ht & Hd)%validate_plan_numbers_ok.
  apply spec_seq; [apply step_ok|]. apply spec_lift. intros [] Hl.
  pose proof (validate_purchase_limit_ok _ Hl) as Hlimit.
  apply spec_seq; [apply step_ok|]. apply spec_lift. intros [] Hs.
  apply spec_seq; [apply step_ok|]. apply spec_guard. intros Hn.
  apply spec_execute; [apply step_ok|]. intros s q s' Hok. destruct (plans s !! id) as [p'|] eqn:E; [|done].
  intros [= <- <-]. split; [|done]. exists Recorded.
  destruct (plans_ok _ Hok _ _ E) as (Hid & Hp' & Ht' & Hd' & Hl' & Hs' & Hn').
  apply step_plan; [done|].
  unfold plan_ok, set_columns; cbn [p_price p_total_calls p_validity_days p_purchase_limit p_status p_name].
  split_and!.
  - by destruct (n_price input).
  - by destruct (n_total_calls input).
  - destruct (n_validity_days input); [apply Hd|apply Hd'].
  - destruct (n_validity_days input); [apply Hd|apply Hd'].
  - by destruct (n_purchase_limit input).
  - destruct (n_status input); [|done]. by apply validate_plan_status_ok.
  - destruct (n_name input) as [name|]; [|done]. bool_to_prop. by apply trim_trim_nonempty.
Qed.

Lemma delete_spec id role tenant : steps (delete id role tenant) (fun _ => True).
Proof.
  unfold delete. eapply spec_bind; [apply step_ok|apply load_scoped_plan_spec|]. intros p _.
  apply spec_execute; [apply step_ok|]. intros s [] s' _ [= <-]. split; [|done]. exists Recorded. apply step_plan_deleted.
Qed.

Lemma instance_of_ok now new_id user plan source :
  plan_ok plan -> source = SOURCE_PURCHASE \/ source = SOURCE_ADMIN_GRANT ->
  instance_ok (instance_of now new_id user plan source).
Proof.
  intros (_ & Ht & [Hd1 Hd2] & _) Hs. unfold instance_ok, instance_of, days, MAX_VALIDITY_DAYS in *; cbn.
  split_and!; try lia. done.
Qed.

Lemma assign_to_user_spec now new_id user_id plan_id role tenant :
  steps (assign_to_user now new_id user_id plan_id role tenant) (fun _ => True).
Proof.
  unfold assign_to_user. eapply spec_bind; [apply step_ok|apply load_scoped_user_spec|]. intros u _.
  eapply spec_bind; [apply step_ok|apply load_scoped_plan_spec|]. intros p (_ & Hp & _).
  apply spec_seq; [apply step_ok|]. apply spec_guard. intros _.
  apply spec_seq; [apply step_ok|]. apply spec_execute; [apply step_ok|]. intros s row s' _. case_match; [done|].
  intros [= <- <-]. split; [|by apply spec_ret]. eexists. apply step_granted; [done|done| |done|done].
  apply instance_of_ok; [done|by right].
Qed.

Lemma attempts_spec k user_id : steps (attempts k user_id) (fun _ => True).
Proof.
  induction k as [|k IH]; cbn [attempts]; [apply spec_fail|].
  apply spec_seq; [apply step_ok|]. apply spec_statement; [apply step_ok|].
  intros t before now _ _ _ a s'. intros Hclaim.
  assert (steps (bind (statement "recheck plan availability" (fun now _ s => Some (probe user_id now s, s)))
            (fun eligible : bool => if eligible then attempts k user_id else fail NoActivePlan)) (fun _ => True)) as Hretry.
  { apply spec_seq; [apply step_ok|]. apply spec_statement; [apply step_ok|].
    intros t' b' n' _ _ _ e s'' [= <- <-]. split; [done|]. destruct (probe _ _ _); [done|apply spec_fail]. }
  destruct a as [id|].
  - split; [|by apply spec_ret]. apply rtc_once. eexists. by eapply step_consumed.
  - apply claim_none in Hclaim as ->. by split.
Qed.

Lemma refund_call_spec id : steps (refund_call id) (fun _ => True).
Proof.
  apply spec_statement; [apply step_ok|]. intros _ _ s _ Hs _ [] s' [= <-].
  split; [|done]. destruct (refund_row id s) as [s'|] eqn:E; [|done]. apply rtc_once. eexists. by apply step_refunded.
Qed.

(** ** Purchases *)

Lemma values_insert {A} (m : gmap Z A) i a : m !! i = None -> values (<[i := a]> m) ≡ₚ a :: values m.
Proof. intros H. unfold values. by rewrite map_to_list_insert. Qed.

Lemma purchase_count_insert user_id plan_id i v s :
  user_plans s !! i = None -> i_user_id v = user_id -> i_plan_id v = Some plan_id -> i_source v = SOURCE_PURCHASE ->
  purchase_count user_id plan_id (set_user_plans <[i := v]> s) = purchase_count user_id plan_id s + 1.
Proof.
  intros Hn Hu Hp Hs. unfold purchase_count. cbn [user_plans set_user_plans].
  assert (forall (f : UserPlan -> bool) l k, l ≡ₚ k -> length (List.filter f l) = length (List.filter f k)) as Hf.
  { intros f l k Hl. induction Hl; cbn; repeat case_match; cbn; congruence. }
  rewrite (Hf _ _ _ (values_insert _ _ _ Hn)). cbn [List.filter].
  rewrite Hu, Hp, Hs, Z.eqb_refl, bool_decide_eq_true_2, str_eqb_refl by done. cbn [andb length]. lia.
Qed.

(** What a committed purchase found and left. *)
Record bought (now order_id instance_id user_id plan_id : Z) (s : tables) (buyer : UserModel) (template : PlanModel)
    (out : PurchaseOutcome) (s' : tables) : Prop := {
  buyer_found : users s !! user_id = Some buyer;
  template_found : plans s !! plan_id = Some template;
  same_tenant : p_tenant_id template = u_tenant_id buyer;
  template_active : p_status template = lit "active";
  below_limit : forall limit, p_purchase_limit template = Some limit ->
    purchase_count user_id plan_id s < u64_wrap limit;
  affordable : p_price template <= u_balance buyer;
  fresh_order : orders s !! order_id = None;
  fresh_instance : user_plans s !! instance_id = None;
  order_is : outcome_order out = order_of_purchase now order_id user_id buyer template;
  instance_is : outcome_plan out = UserPlanResponse_from now (instance_of now instance_id buyer template SOURCE_PURCHASE);
  balance_is : outcome_balance out = u_balance buyer - p_price template;
  state_is : s' = set_user_plans <[instance_id := instance (outcome_plan out)]>
                    (set_orders <[order_id := outcome_order out]>
                      (set_users <[user_id := with_balance (outcome_balance out) now buyer]> s))
}.

Lemma purchase_body_ok now oid iid uid pid w n s out s' n' :
  alone w -> purchase_body now oid iid uid pid w n s = (Ok out, s', n') ->
  exists u p, bought now oid iid uid pid s u p out s'.
Proof.
  intros Hw H. unfold purchase_body, insert_user_plan in H. sql_ok.
  match goal with H : users s !! uid = Some ?a, H' : plans s !! pid = Some ?b |- _ =>
    rename H into Hu, H' into Hp; rename a into u, b into p end.
  rename select ((_ && _) = true) into Hg. apply andb_true_iff in Hg as [Ht%str_eqb_eq Ha%str_eqb_eq].
  rename select ((_ <=? _) = true) into Hb. apply Z.leb_le in Hb.
  match goal with H : match p_purchase_limit p with _ => _ end _ _ _ = (Ok _, ?s1, _) |- _ =>
    assert (s1 = s /\ forall limit, p_purchase_limit p = Some limit -> purchase_count uid pid s < u64_wrap limit)
      as [-> Hlimit] by (destruct (p_purchase_limit p); sql_ok; [|done]; split; [done|];
                         intros ? [= <-]; by apply Z.ltb_lt) end.
  match goal with H : users s !! uid ≫= _ = _ |- _ => rename H into Hd end. rewrite Hu in Hd. cbn in Hd. injection Hd as <- <-.
  rename select (insert_order _ _ = _) into Ho. unfold insert_order in Ho.
  destruct (orders _ !! _) eqn:Eo in Ho; [done|]. injection Ho as <- <-.
  match goal with H : match user_plans _ !! _ with _ => _ end = _ |- _ => rename H into Hi end.
  destruct (user_plans _ !! _) eqn:Ei in Hi; [done|]. injection Hi as <- <-.
  exists u, p. by split.
Qed.

(** C13: A purchase is all or nothing, whatever fails and whoever else is at
    work: refused or interrupted it leaves the tables as the others left them;
    committed, the buyer had an active plan of his own tenant, the price and an
    unused purchase, and exactly the price is deducted, one paid order of that
    amount and one full instance are inserted, and the purchase count grows by
    one and stays within the limit. *)
Theorem purchase_all_or_nothing now oid iid uid pid w n s :
  let s1 := others (w n) s in
  tables_ok s1 ->
  match purchase now oid iid uid pid w n s with
  | (Ok out, s2, _) =>
      exists u p, bought now oid iid uid pid s1 u p out s2 /\
        0 <= outcome_balance out /\ outcome_balance out + o_amount (outcome_order out) = u_balance u /\
        purchase_count uid pid s2 = purchase_count uid pid s1 + 1 /\
        (forall limit, p_purchase_limit p = Some limit -> limit < 2 ^ 31 -> purchase_count uid pid s2 <= limit)
  | (Err _, s2, _) => s2 = s1
  end.
Proof.
  intros s1 Hs. destruct (purchase now oid iid uid pid w n s) as [[[out|e] s2] n2] eqn:E.
  - unfold purchase in E. apply transaction_ok in E as (n0 & n1 & Hb). fold s1 in Hb.
    apply purchase_body_ok in Hb as (u & p & Hb); [|apply alone_locked]. exists u, p. split; [done|].
    destruct Hb as [Hu Hp Ht Ha Hl Hb Ho Hi Eo Ei Eb Es].
    destruct (balances_ok _ Hs _ _ Hu) as [Eu _]. destruct (plans_ok _ Hs _ _ Hp) as [Ep Hok].
    assert (purchase_count uid pid s2 = purchase_count uid pid s1 + 1) as Hc.
    { rewrite Es, Ei. rewrite purchase_count_insert; [done|done|exact Eu|cbn; by rewrite Ep|done]. }
    rewrite Eo, Eb. cbn [order_of_purchase o_amount]. split_and!; [lia|lia|done|].
    intros limit Hlim Hw. specialize (Hl _ Hlim). destruct Hok as (_ & _ & _ & Hpos & _).
    specialize (Hpos _ Hlim). unfold u64_wrap in Hl. rewrite Z.mod_small in Hl by lia. lia.
  - pose proof (transaction_aborts "Failed to start transaction" "commit purchase"
      (purchase_body now oid iid uid pid) w n s e) as Ha. unfold purchase in E. rewrite E in Ha. by apply Ha.
Qed.

Lemma purchase_all_or_nothing_witness :
  result_of (purchase 50 100 101 7 1 (quiet 50) 0%nat demo_tables) <> Err InsufficientBalance /\
  match purchase 50 100 101 7 1 (quiet 50) 0%nat demo_tables with
  | (Ok out, s2, _) =>
      exists u p, bought 50 100 101 7 1 demo_tables u p out s2 /\
        0 <= outcome_balance out /\ outcome_balance out + o_amount (outcome_order out) = u_balance u /\
        purchase_count 7 1 s2 = purchase_count 7 1 demo_tables + 1 /\
        (forall limit, p_purchase_limit p = Some limit -> limit < 2 ^ 31 -> purchase_count 7 1 s2 <= limit)
  | (Err _, s2, _) => s2 = demo_tables
  end.
Proof.
  split; [vm_compute; discriminate|].
  apply (purchase_all_or_nothing 50 100 101 7 1 (quiet 50) 0%nat demo_tables), demo_tables_ok.
Defined.

Lemma purchase_spec now oid iid uid pid : steps (purchase now oid iid uid pid) (fun _ => True).
Proof.
  apply spec_transaction; [apply step_ok|]. intros w n s out Hs Hr. split; [|done].
  destruct (purchase_body _ _ _ _ _ _ _ _) as [[[out'|e] s2] n2] eqn:E; [|done]. cbn in *.
  apply purchase_body_ok in E as (u & p & [Hu Hp Ht Ha Hl Hb Ho Hi Eo Ei Eb Es]); [|apply alone_locked].
  destruct (balances_ok _ Hs _ _ Hu) as [Eu _]. destruct (plans_ok _ Hs _ _ Hp) as [Ep Hok].
  rewrite Es, Ei, Eo, Eb. cbn [UserPlanResponse_from instance].
  eexists. apply (step_purchased s uid u now (order_of_purchase now oid uid u p)
                    (instance_of now iid u p SOURCE_PURCHASE)); try done.
  - unfold order_ok, order_of_purchase; cbn [o_amount o_status o_payment_method]. split_and!; [apply Hok| |].
    all: unfold ORDER_STATUSES, PAYMENT_METHODS; cbn [map]; apply list_elem_of_here.
  - apply instance_of_ok; [done|by left].
Qed.

(** ** The call counter *)

Lemma earlier_fold l b :
  match fold_left earlier l b with
  | Some i => (i ∈ l \/ b = Some i) /\ (forall j, j ∈ l \/ b = Some j -> i_expires_at i <= i_expires_at j)
  | None => l = [] /\ b = None
  end.
Proof.
  revert b; induction l as [|x l IH]; intros b; cbn [fold_left].
  - destruct b as [i|]; [|done]. split; [by right|]. intros j [[]%not_elem_of_nil|[= <-]]; lia.
  - specialize (IH (earlier b x)). destruct (fold_left _ _ _) as [i|].
    + destruct IH as [Hin Hmin]. unfold earlier in *. split.
      * destruct Hin as [?|Hb]; [left; by apply list_elem_of_further|].
        destruct b as [b|]; [destruct (_ <? _)|]; simplify_eq; auto using list_elem_of_here.
      * intros j Hj. destruct b as [b|].
        -- destruct (Z.ltb_spec (i_expires_at x) (i_expires_at b)).
           ++ specialize (Hmin x (or_intror eq_refl)) as Hx.
              destruct Hj as [[->|Hj]%elem_of_cons|[= ->]]; [done|apply Hmin; by left|lia].
           ++ specialize (Hmin b (or_intror eq_refl)) as Hx.
              destruct Hj as [[->|Hj]%elem_of_cons|[= ->]]; [lia|apply Hmin; by left|done].
        -- destruct Hj as [[->|Hj]%elem_of_cons|[=]]; apply Hmin; auto.
    + destruct IH as [-> Hb]. unfold earlier in Hb. destruct b; [by destruct (_ <? _)|done].
Qed.

Lemma values_elem {A} (m : gmap Z A) a : a ∈ values m <-> exists i, m !! i = Some a.
Proof.
  unfold values. rewrite list_elem_of_fmap. split.
  - intros ([i b] & -> & H%elem_of_map_to_list). eauto.
  - intros [i H]. exists (i, a). split; [done|]. by apply elem_of_map_to_list.
Qed.

Lemma pick_spec user_id t s :
  match pick user_id t s with
  | Some i => (exists k, user_plans s !! k = Some i) /\ usable user_id t i = true /\
      forall k j, user_plans s !! k = Some j -> usable user_id t j = true -> i_expires_at i <= i_expires_at j
  | None => forall k j, user_plans s !! k = Some j -> usable user_id t j = false
  end.
Proof.
  unfold pick, earliest. pose proof (earlier_fold (List.filter (usable user_id t) (values (user_plans s))) None) as H.
  assert (forall i, i ∈ List.filter (usable user_id t) (values (user_plans s)) <->
            (exists k, user_plans s !! k = Some i) /\ usable user_id t i = true) as Hf.
  { intros i. rewrite list_elem_of_In, filter_In, <- list_elem_of_In, values_elem. done. }
  destruct (fold_left _ _ _) as [i|].
  - destruct H as [[Hin|[=]] Hmin]. apply Hf in Hin as [? ?]. split_and!; [done|done|].
    intros k j Hj Hu. apply Hmin. left. apply Hf. eauto.
  - destruct H as [H _]. intros k j Hj. destruct (usable user_id t j) eqn:E; [|done].
    assert (j ∈ List.filter (usable user_id t) (values (user_plans s))) as Hin by (apply Hf; eauto).
    rewrite H in Hin. by apply not_elem_of_nil in Hin.
Qed.

Lemma probe_spec user_id t s :
  probe user_id t s = true <-> exists k j, user_plans s !! k = Some j /\ usable user_id t j = true.
Proof. unfold probe. rewrite existsb_elem. setoid_rewrite values_elem. naive_solver. Qed.

Lemma consume_call_quiet user_id t n s :
  tables_ok s ->
  consume_call user_id (quiet t) n s =
  match pick user_id t s with
  | Some v => (Ok (i_id v), set_user_plans <[i_id v := with_remaining (i_remaining_calls v - 1) v]> s, S n)
  | None => (Err NoActivePlan, s, S (S n))
  end.
Proof.
  intros Hs. unfold consume_call, MAX_ATTEMPTS; cbn [attempts]. unfold bind at 1, statement at 1.
  cbn [quiet clock fault others]. unfold claim. pose proof (pick_spec user_id t s) as Hp.
  destruct (pick user_id t s) as [i|].
  - destruct Hp as ([k Hk] & Hu & _). destruct (instances_ok _ Hs _ _ Hk) as [<- _]. by rewrite Hk, Hu.
  - unfold bind, statement. cbn [quiet clock fault others].
    destruct (probe user_id t s) eqn:Epr; [|done].
    apply probe_spec in Epr as (k & j & Hk & Hj). by rewrite (Hp k j Hk) in Hj.
Qed.

(** One call costs one call.  Undisturbed, a call is served exactly when the
    user has an unexpired instance with calls left; it is charged to one that
    expires first, its counter goes down by one, and nothing else changes. *)
Theorem consume_call_exact user_id t n s :
  tables_ok s ->
  match consume_call user_id (quiet t) n s with
  | (Ok i, s', _) => exists v, user_plans s !! i = Some v /\ usable user_id t v = true /\
      (forall k j, user_plans s !! k = Some j -> usable user_id t j = true -> i_expires_at v <= i_expires_at j) /\
      s' = set_user_plans <[i := with_remaining (i_remaining_calls v - 1) v]> s
  | (Err e, s', _) => e = NoActivePlan /\ s' = s /\
      forall k j, user_plans s !! k = Some j -> usable user_id t j = false
  end.
Proof.
  intros Hs. rewrite consume_call_quiet by done. pose proof (pick_spec user_id t s) as Hp.
  destruct (pick user_id t s) as [v|]; [|done]. destruct Hp as ([k Hk] & Hu & Hmin).
  destruct (instances_ok _ Hs _ _ Hk) as [-> _]. eauto 6.
Qed.

Lemma consume_call_exact_witness :
  result_of (consume_call 7 (quiet (days 2)) 0%nat demo_tables) = Ok 11 /\
  match consume_call 7 (quiet (days 2)) 0%nat demo_tables with
  | (Ok i, s', _) => exists v, user_plans demo_tables !! i = Some v /\ usable 7 (days 2) v = true /\
      (forall k j, user_plans demo_tables !! k = Some j -> usable 7 (days 2) j = true -> i_expires_at v <= i_expires_at j) /\
      s' = set_user_plans <[i := with_remaining (i_remaining_calls v - 1) v]> demo_tables
  | (Err e, s', _) => e = NoActivePlan /\ s' = demo_tables /\
      forall k j, user_plans demo_tables !! k = Some j -> usable 7 (days 2) j = false
  end.
Proof. split; [vm_compute; reflexivity|]. apply (consume_call_exact 7 (days 2) 0%nat demo_tables), demo_tables_ok. Defined.

Lemma refund_undoes user_id t t' n' s v :
  tables_ok s -> pick user_id t s = Some v ->
  refund_call (i_id v) (quiet t') n'
    (set_user_plans <[i_id v := with_remaining (i_remaining_calls v - 1) v]> s) = (Ok tt, s, S n').
Proof.
  intros Hs E. pose proof (pick_spec user_id t s) as Hp. rewrite E in Hp. destruct Hp as ([k Hv] & _).
  destruct (instances_ok _ Hs _ _ Hv) as [Ek ((? & ?) & _)]. rewrite Ek in *.
  unfold refund_call, refund_row, execute, statement. cbn [quiet clock fault others user_plans set_user_plans].
  rewrite lookup_insert_eq. cbn [mbind option_bind with_remaining i_remaining_calls i_total_calls].
  rewrite (proj2 (Z.ltb_lt _ _)) by lia. cbn [default]. do 2 f_equal. f_equal. destruct s as [ps us ins os]; cbn in *.
  unfold set_user_plans; cbn. f_equal. rewrite insert_insert_eq, with_remaining_twice.
  apply insert_id. rewrite Hv. f_equal. destruct v; unfold with_remaining; cbn. f_equal. lia.
Qed.

(** A refund undoes a consumption: the tables are as before the call. *)
Theorem refund_restores user_id t t' n n' s i s' n1 :
  tables_ok s -> consume_call user_id (quiet t) n s = (Ok i, s', n1) ->
  refund_call i (quiet t') n' s' = (Ok tt, s, S n').
Proof.
  intros Hs E. rewrite consume_call_quiet in E by done. destruct (pick user_id t s) as [v|] eqn:Ep; [|done].
  injection E as <- <- _. by eapply refund_undoes.
Qed.

Lemma refund_restores_witness :
  exists s' n1, consume_call 7 (quiet (days 2)) 0%nat demo_tables = (Ok 11, s', n1) /\
    refund_call 11 (quiet (days 9)) 0%nat s' = (Ok tt, demo_tables, 1%nat).
Proof.
  destruct (consume_call 7 (quiet (days 2)) 0%nat demo_tables) as [[r s'] n1] eqn:E.
  assert (r = Ok 11) as ->.
  { change r with (result_of (r, s', n1)). rewrite <- E. vm_compute. reflexivity. }
  exists s', n1. split; [done|]. apply (refund_restores 7 (days 2) (days 9) 0%nat 0%nat demo_tables 11 s' n1); [apply demo_tables_ok|done].
Defined.

(** ** Tenants *)

(** What the tenant [t] can see. *)
Definition own (t : str) (s : tables) : tables :=
  {| plans := filter (fun kv => p_tenant_id kv.2 = t) (plans s);
     users := filter (fun kv => u_tenant_id kv.2 = t) (users s);
     user_plans := user_plans s; orders := filter (fun kv => o_tenant_id kv.2 = t) (orders s) |}.

Lemma filter_lookup {A} (f : A -> str) t (m : gmap Z A) i :
  filter (fun kv => f kv.2 = t) m !! i = (a ← m !! i; if str_eqb t (f a) then Some a else None).
Proof.
  destruct (m !! i) as [a|] eqn:E; cbn.
  - destruct (str_eqb t (f a)) eqn:Et.
    + apply str_eqb_eq in Et as ->. by apply map_lookup_filter_Some.
    + apply map_lookup_filter_None. right. intros b Hb Hf. cbn in Hf. subst t. rewrite E in Hb. injection Hb as ->. by rewrite str_eqb_refl in Et.
  - by apply map_lookup_filter_None; left.
Qed.

Lemma in_scope_admin role t t' : role <> lit "system" -> in_scope role t t' = str_eqb t t'.
Proof.
  intros H. unfold in_scope.
  assert (str_eqb role (lit "system") = false) as -> by (by apply bool_decide_eq_false). done.
Qed.

Section Admin.
Context (role t : str) (w : nat -> moment tables).
Hypothesis not_system : role <> lit "system".
Hypothesis undisturbed : alone w.

Lemma load_scoped_plan_own id n s :
  load_scoped_plan id role t w n s =
  (if fault (w n) then Err (Internal "load plan")
   else match plans (own t s) !! id with Some p => Ok p | None => Err NotFound end, s, S n).
Proof using not_system undisturbed.
  unfold load_scoped_plan, query, bind, statement. rewrite !undisturbed. destruct (fault (w n)); [done|].
  cbn [own plans]. rewrite filter_lookup. destruct (plans s !! id) as [p|]; [|done]. cbn -[in_scope].
  rewrite in_scope_admin by done. unfold guard_else. by destruct (str_eqb _ _).
Qed.

Lemma load_scoped_user_own id n s :
  load_scoped_user id role t w n s =
  (if fault (w n) then Err (Internal "load user")
   else match users (own t s) !! id with Some u => Ok u | None => Err UserNotFound end, s, S n).
Proof using not_system undisturbed.
  unfold load_scoped_user, query, bind, statement. rewrite !undisturbed. destruct (fault (w n)); [done|].
  cbn [own users]. rewrite filter_lookup. destruct (users s !! id) as [p|]; [|done]. cbn -[in_scope].
  rewrite in_scope_admin by done. unfold guard_else. by destruct (str_eqb _ _).
Qed.

Lemma own_plan id s p : plans (own t s) !! id = Some p -> plans s !! id = Some p /\ p_tenant_id p = t.
Proof using. by intros [? ?]%map_lookup_filter_Some. Qed.

Lemma own_own s : own t (own t s) = own t s.
Proof using.
  unfold own; cbn. f_equal; apply map_filter_id; by intros i x [_ ?]%map_lookup_filter_Some.
Qed.
End Admin.

(** The operations an administrator reaches with an identifier of his choice. *)
Inductive request :=
| UpdatePlan (id : Z) (input : UpdatePlanInput) | DeletePlan (id : Z)
| Assign (user_id plan_id : Z) | ListUserPlans (user_id : Z).
Inductive response :=
| APlan (p : PlanModel) | Done | AnInstance (i : UserPlanResponse) | Instances (l : list UserPlanResponse).

Definition serve (now new_id : Z) (role t : str) (r : request) : M response :=
  match r with
  | UpdatePlan id input => p <- update now id input role t ;; ret (APlan p)
  | DeletePlan id => delete id role t ;;; ret Done
  | Assign user_id plan_id => i <- assign_to_user now new_id user_id plan_id role t ;; ret (AnInstance i)
  | ListUserPlans user_id => l <- list_user_plans now user_id role t ;; ret (Instances l)
  end.

(** Administrators stay in their tenant.  A non-system actor gets the same
    answer as if the rows of the other tenants did not exist, so he cannot tell a
    foreign row from a missing one; no plan of another tenant changes, and an
    instance he adds is for a user and a plan of his own tenant. *)
Theorem administrators_stay_home now new_id role t r w n s :
  role <> lit "system" -> alone w ->
  let after := serve now new_id role t r w n s in
  result_of after = result_of (serve now new_id role t r w n (own t s)) /\
  (forall i p, plans s !! i = Some p -> p_tenant_id p <> t -> plans (state_of after) !! i = Some p) /\
  users (state_of after) = users s /\ orders (state_of after) = orders s /\
  (user_plans (state_of after) = user_plans s \/
   exists u p, u_tenant_id u = t /\ p_tenant_id p = t /\
     user_plans (state_of after) = <[new_id := instance_of now new_id u p SOURCE_ADMIN_GRANT]> (user_plans s)).
Proof.
  intros Hrole Hw after. unfold after; clear after.
  destruct r as [id input|id|uid pid|uid]; cbn [serve].
  - unfold update, bind. rewrite !load_scoped_plan_own, own_own by done.
    destruct (fault (w n)); [by split_and!; [..|left]|].
    destruct (plans (own t s) !! id) as [p|] eqn:Ep; [|by split_and!; [..|left]].
    apply own_plan in Ep as Hp. destruct Hp as [Hp Ht].
    unfold lift, guard_else. destruct (validate_plan_numbers _ _ _); [|by split_and!; [..|left]].
    destruct (validate_purchase_limit _); [|by split_and!; [..|left]].
    destruct (match n_status input with Some _ => _ | None => _ end); [|by split_and!; [..|left]].
    destruct (match n_name input with Some _ => _ | None => _ end); [|by split_and!; [..|left]].
    unfold ret, execute, statement. rewrite !Hw. destruct (fault (w (S n))); [by split_and!; [..|left]|].
    rewrite Hp, Ep. cbn. split_and!; [done| |done|done|by left].
    intros i q Hi Hq. rewrite lookup_insert_ne; [done|]. intros <-. congruence.
  - unfold delete, bind. rewrite !load_scoped_plan_own, own_own by done.
    destruct (fault (w n)); [by split_and!; [..|left]|].
    destruct (plans (own t s) !! id) as [p|] eqn:Ep; [|by split_and!; [..|left]].
    apply own_plan in Ep as Hp. destruct Hp as [Hp Ht].
    unfold ret, execute, statement. rewrite !Hw. destruct (fault (w (S n))); [by split_and!; [..|left]|].
    cbn. split_and!; [done| |done|done|by left].
    intros i q Hi Hq. rewrite lookup_delete_ne; [done|]. intros <-. congruence.
  - unfold assign_to_user, bind. rewrite !load_scoped_user_own, own_own by done.
    destruct (fault (w n)); [by split_and!; [..|left]|].
    destruct (users (own t s) !! uid) as [u|] eqn:Eu; [|by split_and!; [..|left]].
    assert (u_tenant_id u = t) as Htu by (by apply map_lookup_filter_Some in Eu as [_ ?]).
    rewrite !load_scoped_plan_own, own_own by done.
    destruct (fault (w (S n))); [by split_and!; [..|left]|].
    destruct (plans (own t s) !! pid) as [p|] eqn:Ep; [|by split_and!; [..|left]].
    apply own_plan in Ep as Hp. destruct Hp as [Hp Ht].
    unfold guard_else. destruct (str_eqb _ _); [|by split_and!; [..|left]].
    unfold ret, insert_user_plan, execute, statement. rewrite !Hw. destruct (fault (w (S (S n)))); [by split_and!; [..|left]|].
    cbn [own user_plans instance_of i_id]. destruct (user_plans s !! new_id); [by split_and!; [..|left]|].
    cbn. split_and!; [done|done|done|done|]. right. by exists u, p.
  - unfold list_user_plans, list_plans_of, query, bind. rewrite !load_scoped_user_own, own_own by done.
    destruct (fault (w n)); [by split_and!; [..|left]|].
    destruct (users (own t s) !! uid) as [u|] eqn:Eu; [|by split_and!; [..|left]].
    unfold statement. rewrite !Hw. destruct (fault (w (S n))); [by split_and!; [..|left]|].
    cbn. by split_and!; [..|left].
Qed.

Lemma administrators_stay_home_witness :
  (lit "admin" <> lit "system" /\ alone (quiet (S := tables) 5)) /\
  let after := serve 5 20 (lit "admin") (lit "t2") (DeletePlan 1) (quiet 5) 0%nat demo_tables in
  result_of after = result_of (serve 5 20 (lit "admin") (lit "t2") (DeletePlan 1) (quiet 5) 0%nat (own (lit "t2") demo_tables)) /\
  (forall i p, plans demo_tables !! i = Some p -> p_tenant_id p <> lit "t2" -> plans (state_of after) !! i = Some p) /\
  users (state_of after) = users demo_tables /\ orders (state_of after) = orders demo_tables /\
  (user_plans (state_of after) = user_plans demo_tables \/
   exists u p, u_tenant_id u = lit "t2" /\ p_tenant_id p = lit "t2" /\
     user_plans (state_of after) = <[20 := instance_of 5 20 u p SOURCE_ADMIN_GRANT]> (user_plans demo_tables)).
Proof.
  split; [split; [vm_compute; discriminate|apply alone_quiet]|].
  apply (administrators_stay_home 5 20 (lit "admin") (lit "t2") (DeletePlan 1) (quiet 5) 0%nat demo_tables);
    [vm_compute; discriminate|apply alone_quiet].
Defined.
