(* ===== verification/Orders.v ===== *)
(** * Payment orders and balances ([server/src/services/payment_order.rs],
    [server/src/services/user.rs])

    The audit trail of payments, the two ways an administrator changes a balance,
    and the theorem that ties billing together: whatever the services do, in any
    interleaving and with any statement failing, the tables change by the steps of
    [Billing] only, so its invariant and its account of calls hold. *)

From S2P Require Import Prelude Sql Billing Plans.

Open Scope string_scope.
Open Scope list_scope.
Open Scope Z_scope.
Open Scope sql_scope.

Module Payment.
Inductive PaymentOrderError :=
  | NotFound | UserNotFound | PlanNotFound | InvalidInput (message : str) | Internal (context : string).
#[export] Instance order_errors : Errors PaymentOrderError := Internal.
Abbreviation M := (Sql.M tables PaymentOrderError).

Record ListOrdersParams := {
  l_page : Z; l_per_page : Z; l_tenant_id : option str; l_user_id : option Z; l_status : option str
}.
Record CreateOrderInput := {
  n_user_id : Z; n_plan_id : option Z; n_amount : Z; n_status : option str; n_payment_method : option str;
  n_external_txn_id : option str
}.
Record UpdateOrderInput := {
  w_status : option str; w_payment_method : option str; w_external_txn_id : option str
}.

Definition validate_order_status (status : str) : result unit PaymentOrderError :=
  if existsb (str_eqb status) ORDER_STATUSES then Ok tt
  else Err (InvalidInput (lit "status must be one of: " ++ join (lit ", ") ORDER_STATUSES)).
Definition validate_payment_method (method : str) : result unit PaymentOrderError :=
  if existsb (str_eqb method) PAYMENT_METHODS then Ok tt
  else Err (InvalidInput (lit "payment_method must be one of: " ++ join (lit ", ") PAYMENT_METHODS)).

Definition load_scoped (id : Z) (actor_role actor_tenant_id : str) : M PaymentOrder :=
  found <- query "load order" (fun s => orders s !! id) ;;
  order <- some_or found NotFound ;;
  guard_else (in_scope actor_role actor_tenant_id (o_tenant_id order)) NotFound ;;;
  ret order.

Definition filled (o : option str) : option str :=
  match o with Some v => if is_empty v then None else Some v | None => None end.
Definition passes {A} (o : option A) (f : A -> bool) : bool := match o with Some a => f a | None => true end.

Definition list_paginated (params : ListOrdersParams) (actor_role actor_tenant_id : str) : M (Page PaymentOrder) :=
  let tenant := if str_eqb actor_role (lit "system") then filled (l_tenant_id params) else Some actor_tenant_id in
  paginated "count orders" "fetch orders page"
    (fun s => newest o_created_at (List.filter (fun o =>
       passes tenant (str_eqb (o_tenant_id o)) && passes (l_user_id params) (Z.eqb (o_user_id o))
       && passes (filled (l_status params)) (str_eqb (o_status o))) (values (orders s))))
    (l_page params) (l_per_page params).

Definition list_of_user (user_id page per_page : Z) : M (Page PaymentOrder) :=
  paginated "count own orders" "fetch own orders page"
    (fun s => newest o_created_at (List.filter (fun o => o_user_id o =? user_id) (values (orders s)))) page per_page.

Definition get (id : Z) (actor_role actor_tenant_id : str) : M PaymentOrder :=
  load_scoped id actor_role actor_tenant_id.

(** The optional plan reference and the snapshot of its name. *)
Definition referenced_plan_name (plan_id : option Z) (actor_role actor_tenant_id : str) : M str :=
  match plan_id with
  | None => ret []
  | Some plan_id =>
      found <- query "load referenced plan" (fun s => plans s !! plan_id) ;;
      plan <- some_or found PlanNotFound ;;
      guard_else (in_scope actor_role actor_tenant_id (p_tenant_id plan)) PlanNotFound ;;;
      ret (p_name plan)
  end.

Definition create (now new_id : Z) (input : CreateOrderInput) (actor_role actor_tenant_id : str) : M PaymentOrder :=
  guard_else (0 <=? n_amount input) (InvalidInput (lit "amount must not be negative")) ;;;
  let status := default (lit "paid") (n_status input) in
  lift (validate_order_status status) ;;;
  let payment_method := default (lit "balance") (n_payment_method input) in
  lift (validate_payment_method payment_method) ;;;
  found <- query "load target user" (fun s => users s !! n_user_id input) ;;
  user <- some_or found UserNotFound ;;
  guard_else (in_scope actor_role actor_tenant_id (u_tenant_id user)) UserNotFound ;;;
  plan_name <- referenced_plan_name (n_plan_id input) actor_role actor_tenant_id ;;
  execute "create order" (insert_order
    {| o_id := new_id; o_user_id := u_id user; o_tenant_id := u_tenant_id user; o_user_email := u_email user;
       o_plan_id := n_plan_id input; o_plan_name := plan_name; o_amount := n_amount input; o_status := status;
       o_payment_method := payment_method; o_external_txn_id := n_external_txn_id input; o_created_at := now;
       o_paid_at := if str_eqb status (lit "paid") then Some now else None |}).

(** The columns an update sets; [had_paid_at] is what the load saw. *)
Definition set_columns (now : Z) (had_paid_at : bool) (input : UpdateOrderInput) (o : PaymentOrder) : PaymentOrder :=
  {| o_id := o_id o; o_user_id := o_user_id o; o_tenant_id := o_tenant_id o; o_user_email := o_user_email o;
     o_plan_id := o_plan_id o; o_plan_name := o_plan_name o; o_amount := o_amount o;
     o_status := default (o_status o) (w_status input);
     o_payment_method := default (o_payment_method o) (w_payment_method input);
     o_external_txn_id := match w_external_txn_id input with
                          | Some txn_id => if is_empty txn_id then None else Some txn_id
                          | None => o_external_txn_id o
                          end;
     o_created_at := o_created_at o;
     o_paid_at := match w_status input with
                  | Some status => if str_eqb status (lit "paid") && negb had_paid_at then Some now else o_paid_at o
                  | None => o_paid_at o
                  end |}.

Definition update (now id : Z) (input : UpdateOrderInput) (actor_role actor_tenant_id : str) : M PaymentOrder :=
  order <- load_scoped id actor_role actor_tenant_id ;;
  lift (match w_status input with Some status => validate_order_status status | None => Ok tt end) ;;;
  lift (match w_payment_method input with Some method => validate_payment_method method | None => Ok tt end) ;;;
  let had_paid_at := bool_decide (is_Some (o_paid_at order)) in
  execute "update order" (fun s =>
    o ← orders s !! id; let o' := set_columns now had_paid_at input o in Some (o', set_orders <[id := o']> s)).

Definition delete (id : Z) (actor_role actor_tenant_id : str) : M unit :=
  load_scoped id actor_role actor_tenant_id ;;;
  execute "delete order" (fun s => Some (tt, set_orders (base.delete id) s)).

(** ** Only steps *)

Abbreviation steps := (spec some_step tables_ok).

Lemma member_ok (l : list str) v : existsb (str_eqb v) l = true -> v ∈ l.
Proof. rewrite existsb_elem. by intros (x & Hx & <-%str_eqb_eq). Qed.
Lemma validate_order_status_ok status : validate_order_status status = Ok tt -> status ∈ ORDER_STATUSES.
Proof. unfold validate_order_status. destruct (existsb _ _) eqn:E; [|done]. intros _. by apply member_ok. Qed.
Lemma validate_payment_method_ok method : validate_payment_method method = Ok tt -> method ∈ PAYMENT_METHODS.
Proof. unfold validate_payment_method. destruct (existsb _ _) eqn:E; [|done]. intros _. by apply member_ok. Qed.

Lemma load_scoped_spec id role tenant :
  steps (load_scoped id role tenant) (fun o => in_scope role tenant (o_tenant_id o) = true).
Proof.
  unfold load_scoped. apply spec_seq; [apply step_ok|]. apply spec_query; [apply step_ok|]. intros s Hs.
  apply spec_seq; [apply step_ok|]. apply spec_some. intros o Ho.
  apply spec_seq; [apply step_ok|]. apply spec_guard. intros Hg. by apply spec_ret.
Qed.

Lemma referenced_plan_name_spec plan_id role tenant : steps (referenced_plan_name plan_id role tenant) (fun _ => True).
Proof.
  destruct plan_id as [id|]; cbn [referenced_plan_name]; [|by apply spec_ret].
  apply spec_seq; [apply step_ok|]. apply spec_query; [apply step_ok|]. intros s Hs.
  apply spec_seq; [apply step_ok|]. apply spec_some. intros p Hp.
  apply spec_seq; [apply step_ok|]. apply spec_guard. intros Hg. by apply spec_ret.
Qed.

Lemma order_create_spec now new_id input role tenant : steps (create now new_id input role tenant) (fun _ => True).
Proof.
  unfold create. apply spec_seq; [apply step_ok|]. apply spec_guard. intros Ha%Z.leb_le.
  apply spec_seq; [apply step_ok|]. apply spec_lift. intros [] Hs%validate_order_status_ok.
  apply spec_seq; [apply step_ok|]. apply spec_lift. intros [] Hm%validate_payment_method_ok.
  apply spec_seq; [apply step_ok|]. apply spec_query; [apply step_ok|]. intros s _.
  apply spec_seq; [apply step_ok|]. apply spec_some. intros u Hu.
  apply spec_seq; [apply step_ok|]. apply spec_guard. intros Hg.
  eapply spec_bind; [apply step_ok|apply referenced_plan_name_spec|]. intros name _.
  apply spec_execute; [apply step_ok|]. intros s1 o s2 _. unfold insert_order. case_match; [done|].
  intros [= <- <-]. split; [|done]. exists Recorded. by apply step_order.
Qed.

Lemma order_update_spec now id input role tenant : steps (update now id input role tenant) (fun _ => True).
Proof.
  unfold update. eapply spec_bind; [apply step_ok|apply load_scoped_spec|]. intros o0 _.
  apply spec_seq; [apply step_ok|]. apply spec_lift. intros [] Hs.
  apply spec_seq; [apply step_ok|]. apply spec_lift. intros [] Hm.
  apply spec_execute; [apply step_ok|]. intros s o s' Hok. destruct (orders s !! id) as [o1|] eqn:E; [|done].
  intros [= <- <-]. split; [|done]. exists Recorded. destruct (orders_ok _ Hok _ _ E) as (Hid & Ha & Hst & Hme).
  apply step_order; [done|]. unfold order_ok; cbn [set_columns o_amount o_status o_payment_method]. split_and!; [done| |].
  - destruct (w_status input); [|done]. by apply validate_order_status_ok.
  - destruct (w_payment_method input); [|done]. by apply validate_payment_method_ok.
Qed.

Lemma order_delete_spec id role tenant : steps (delete id role tenant) (fun _ => True).
Proof.
  unfold delete. eapply spec_bind; [apply step_ok|apply load_scoped_spec|]. intros o _.
  apply spec_execute; [apply step_ok|]. intros s [] s' _ [= <-]. split; [|done]. exists Recorded.
  apply step_order_deleted.
Qed.
End Payment.

Module Balance.
Inductive UserError := NotFound | NotAllowed (message : str) | InsufficientBalance | Internal (context : string).
#[export] Instance user_errors : Errors UserError := Internal.
Abbreviation M := (Sql.M tables UserError).

Definition check_balance_rbac (target : UserModel) (actor_role actor_tenant_id : str) : result unit UserError :=
  if str_eqb actor_role (lit "system") then Ok tt
  else if str_eqb (u_role target) (lit "system") then Err NotFound
  else if str_eqb actor_role (lit "admin") && negb (str_eqb (u_tenant_id target) actor_tenant_id) then Err NotFound
  else if str_eqb actor_role (lit "admin") && negb (str_eqb (u_role target) (lit "user")) then Err NotFound
  else if str_eqb actor_role (lit "user") then Err (NotAllowed (lit "Users cannot modify balance"))
  else if negb (str_eqb actor_role (lit "system")) && negb (str_eqb actor_role (lit "admin"))
  then Err (NotAllowed (lit "Role '" ++ actor_role ++ lit "' is not allowed to modify balance"))
  else Ok tt.

Definition set_balance_body (now target_id balance : Z) (actor_role actor_tenant_id : str) : M UserModel :=
  found <- query "Failed to query user" (fun s => users s !! target_id) ;;
  target <- some_or found NotFound ;;
  lift (check_balance_rbac target actor_role actor_tenant_id) ;;;
  guard_else (0 <=? balance) (NotAllowed (lit "Balance cannot be negative")) ;;;
  execute "Failed to set balance" (fun s =>
    u ← users s !! target_id; let u' := with_balance balance now u in Some (u', set_users <[target_id := u']> s)).
Definition set_balance (now target_id balance : Z) (actor_role actor_tenant_id : str) : M UserModel :=
  transaction "Failed to start transaction" "Failed to commit transaction"
    (set_balance_body now target_id balance actor_role actor_tenant_id).

(** [i64::checked_add]. *)
Definition checked_add (a b : Z) : option Z :=
  if (- 2 ^ 63 <=? a + b) && (a + b <? 2 ^ 63) then Some (a + b) else None.

Definition adjust_balance_body (now target_id amount : Z) (actor_role actor_tenant_id : str) : M UserModel :=
  found <- query "Failed to query user" (fun s => users s !! target_id) ;;
  target <- some_or found NotFound ;;
  lift (check_balance_rbac target actor_role actor_tenant_id) ;;;
  new_balance <- some_or (checked_add (u_balance target) amount) (NotAllowed (lit "Balance overflow")) ;;
  guard_else (0 <=? new_balance) InsufficientBalance ;;;
  execute "Failed to adjust balance" (fun s =>
    u ← users s !! target_id; let u' := with_balance new_balance now u in Some (u', set_users <[target_id := u']> s)).
Definition adjust_balance (now target_id amount : Z) (actor_role actor_tenant_id : str) : M UserModel :=
  transaction "Failed to start transaction" "Failed to commit transaction"
    (adjust_balance_body now target_id amount actor_role actor_tenant_id).

(** A committed change of a balance. *)
Lemma set_balance_body_ok now id b role t w n s u' s' n' :
  alone w -> set_balance_body now id b role t w n s = (Ok u', s', n') ->
  exists u, users s !! id = Some u /\ check_balance_rbac u role t = Ok tt /\ 0 <= b /\
    u' = with_balance b now u /\ s' = set_users <[id := u']> s.
Proof.
  intros Hw H. unfold set_balance_body in H. sql_ok.
  match goal with H : users s !! id = Some ?a, H' : users s !! id ≫= _ = _ |- _ =>
    rewrite H in H'; cbn in H'; injection H' as <- <-; exists a end.
  split_and!; try done; [by destruct (check_balance_rbac _ _ _) as [[]|]|by apply Z.leb_le].
Qed.

Lemma adjust_balance_body_ok now id amount role t w n s u' s' n' :
  alone w -> adjust_balance_body now id amount role t w n s = (Ok u', s', n') ->
  exists u, users s !! id = Some u /\ check_balance_rbac u role t = Ok tt /\ 0 <= u_balance u + amount < 2 ^ 63 /\
    u' = with_balance (u_balance u + amount) now u /\ s' = set_users <[id := u']> s.
Proof.
  intros Hw H. unfold adjust_balance_body in H. sql_ok.
  match goal with H : users s !! id = Some ?a, H' : users s !! id ≫= _ = _ |- _ =>
    rewrite H in H'; cbn in H'; injection H' as <- <-; exists a end.
  match goal with H : checked_add _ _ = Some ?b |- _ => unfold checked_add in H;
    destruct (_ && _) eqn:Ec in H; [|done]; injection H as <- end.
  apply andb_true_iff in Ec as [?%Z.leb_le ?%Z.ltb_lt]. rename select ((0 <=? _) = true) into Hb. apply Z.leb_le in Hb.
  split_and!; try done. by destruct (check_balance_rbac _ _ _) as [[]|].
Qed.

Lemma set_balance_spec now id b role t : spec some_step tables_ok (set_balance now id b role t) (fun _ => True).
Proof.
  apply spec_transaction; [apply step_ok|]. intros w n s u' _ Hr. split; [|done].
  destruct (set_balance_body _ _ _ _ _ _ _ _) as [[[u|e] s'] n'] eqn:E; [|done]. cbn in *.
  apply set_balance_body_ok in E as (v & Hv & _ & Hb & -> & ->); [|apply alone_locked].
  exists Recorded. by apply step_balance.
Qed.

Lemma adjust_balance_spec now id amount role t :
  spec some_step tables_ok (adjust_balance now id amount role t) (fun _ => True).
Proof.
  apply spec_transaction; [apply step_ok|]. intros w n s u' _ Hr. split; [|done].
  destruct (adjust_balance_body _ _ _ _ _ _ _ _) as [[[u|e] s'] n'] eqn:E; [|done]. cbn in *.
  apply adjust_balance_body_ok in E as (v & Hv & _ & Hb & -> & ->); [|apply alone_locked].
  exists Recorded. apply step_balance; [done|lia].
Qed.

Lemma rbac_allows u role t :
  check_balance_rbac u role t = Ok tt ->
  role = lit "system" \/ role = lit "admin" /\ u_tenant_id u = t /\ u_role u = lit "user".
Proof.
  unfold check_balance_rbac. intros H. repeat case_match; try done; bool_to_prop; auto.
  all: repeat match goal with
       | H : (_ && _) = false |- _ => apply andb_false_iff in H
       | H : _ = false \/ _ = false |- _ => destruct H
       end; bool_to_prop; auto; congruence.
Qed.
End Balance.

(** ** All of it *)

Inductive operation :=
| PlanCreate (now new_id : Z) (input : CreatePlanInput)
| PlanUpdate (now id : Z) (input : UpdatePlanInput) (role t : str)
| PlanDelete (id : Z) (role t : str)
| PlanAssign (now new_id user_id plan_id : Z) (role t : str)
| PlanPurchase (now order_id instance_id user_id plan_id : Z)
| CallConsume (user_id : Z)
| CallRefund (instance_id : Z)
| OrderCreate (now new_id : Z) (input : Payment.CreateOrderInput) (role t : str)
| OrderUpdate (now id : Z) (input : Payment.UpdateOrderInput) (role t : str)
| OrderDelete (id : Z) (role t : str)
| BalanceSet (now id balance : Z) (role t : str)
| BalanceAdjust (now id amount : Z) (role t : str).

(** The tables after the operation. *)
Definition perform (o : operation) (w : nat -> moment tables) (n : nat) (s : tables) : tables :=
  match o with
  | PlanCreate now new_id input => state_of (Plans.create now new_id input w n s)
  | PlanUpdate now id input role t => state_of (Plans.update now id input role t w n s)
  | PlanDelete id role t => state_of (Plans.delete id role t w n s)
  | PlanAssign now new_id user_id plan_id role t => state_of (assign_to_user now new_id user_id plan_id role t w n s)
  | PlanPurchase now order_id instance_id user_id plan_id =>
      state_of (purchase now order_id instance_id user_id plan_id w n s)
  | CallConsume user_id => state_of (consume_call user_id w n s)
  | CallRefund instance_id => state_of (refund_call instance_id w n s)
  | OrderCreate now new_id input role t => state_of (Payment.create now new_id input role t w n s)
  | OrderUpdate now id input role t => state_of (Payment.update now id input role t w n s)
  | OrderDelete id role t => state_of (Payment.delete id role t w n s)
  | BalanceSet now id balance role t => state_of (Balance.set_balance now id balance role t w n s)
  | BalanceAdjust now id amount role t => state_of (Balance.adjust_balance now id amount role t w n s)
  end.

(** C11: billing is made of its steps.  Whatever fails, and whatever the other
    services do between the statements as long as they do the same, every
    operation takes the tables along a history of the atomic steps, so prices,
    balances, counters, amounts and statuses stay in their ranges and every call
    is accounted for. *)
Theorem operations_are_steps o w n s :
  calm some_step w -> tables_ok s ->
  (exists es, run es s (perform o w n s)) /\ tables_ok (perform o w n s).
Proof.
  intros Hw Hs. assert (rtc some_step s (perform o w n s)) as Hr.
  { destruct o; cbn [perform].
    - by apply create_spec.
    - by apply update_spec.
    - by apply delete_spec.
    - by apply assign_to_user_spec.
    - by apply purchase_spec.
    - by apply attempts_spec.
    - by apply refund_call_spec.
    - by apply Payment.order_create_spec.
    - by apply Payment.order_update_spec.
    - by apply Payment.order_delete_spec.
    - by apply Balance.set_balance_spec.
    - by apply Balance.adjust_balance_spec. }
  split; [by apply run_steps|]. by eapply inv_steps; [apply step_ok| |].
Qed.

(** Somebody else consumes a call of user 7 before each statement; the third fails. *)
Definition busy : nat -> moment tables := fun n => {|
  clock := days 2; fault := bool_decide (n = 2%nat);
  others := fun s => match claim 7 (days 2) s s with Some (_, s') => s' | None => s end |}.

Lemma busy_calm : calm some_step busy.
Proof.
  intros n s. cbn [busy others]. destruct (claim 7 (days 2) s s) as [[[i|] s']|] eqn:E; [|by apply claim_none in E as ->|done].
  apply rtc_once. eexists. by eapply step_consumed.
Qed.

Lemma operations_are_steps_witness :
  (calm some_step busy /\ tables_ok demo_tables) /\
  (exists es, run es demo_tables (perform (CallConsume 7) busy 0%nat demo_tables)) /\
  tables_ok (perform (CallConsume 7) busy 0%nat demo_tables).
Proof.
  split; [split; [apply busy_calm|apply demo_tables_ok]|].
  apply (operations_are_steps (CallConsume 7) busy 0%nat demo_tables); [apply busy_calm|apply demo_tables_ok].
Defined.

(** ** Balances *)

(** Only a system actor, or an administrator for a regular user of his own
    tenant, changes a balance; the new balance is never negative and fits an
    [i64]; nobody else's row and no other table changes, and a refused or failed
    change changes nothing. *)
Theorem balance_changes_are_allowed now id amount role t w n s :
  let s1 := others (w n) s in
  let after := Balance.adjust_balance now id amount role t w n s in
  match result_of after with
  | Ok u' => exists u, users s1 !! id = Some u /\
      (role = lit "system" \/ role = lit "admin" /\ u_tenant_id u = t /\ u_role u = lit "user") /\
      u_balance u' = u_balance u + amount /\ 0 <= u_balance u' < 2 ^ 63 /\
      state_of after = set_users <[id := with_balance (u_balance u + amount) now u]> s1
  | Err _ => state_of after = s1
  end.
Proof.
  intros s1 after. destruct (result_of after) as [u'|e] eqn:E.
  - unfold after in *. destruct (Balance.adjust_balance now id amount role t w n s) as [[r s'] n'] eqn:Ea. cbn in *. subst r.
    unfold Balance.adjust_balance in Ea. apply transaction_ok in Ea as (n0 & n1 & Hb).
    apply Balance.adjust_balance_body_ok in Hb as (u & Hu & Hr & Hb & -> & ->); [|apply alone_locked].
    exists u. split_and!; [done|by apply Balance.rbac_allows|done|apply Hb|apply Hb|done].
  - by eapply transaction_aborts.
Qed.

(** ** The payment time *)

(** A paid order has a payment time. *)
Definition settled (s : tables) : Prop :=
  forall i o, orders s !! i = Some o -> o_status o = lit "paid" -> is_Some (o_paid_at o).

(** The payment time is an audit record: undisturbed, an update keeps the
    time once it is set whatever the status becomes, stamps it when the order
    first becomes paid, and so a paid order always has one. *)
Theorem paid_at_is_kept now id input role t w n s o' :
  alone w -> settled s ->
  let after := Payment.update now id input role t w n s in
  settled (state_of after) /\
  (result_of after = Ok o' -> exists o, orders s !! id = Some o /\ orders (state_of after) !! id = Some o' /\
     (o_paid_at o' = o_paid_at o \/ o_paid_at o = None /\ o_paid_at o' = Some now /\ o_status o' = lit "paid") /\
     (o_status o' = lit "paid" -> is_Some (o_paid_at o'))).
Proof.
  intros Hw Hset after.
  assert (forall o o', orders s !! id = Some o ->
    o' = Payment.set_columns now (bool_decide (is_Some (o_paid_at o))) input o ->
    (o_paid_at o' = o_paid_at o \/ o_paid_at o = None /\ o_paid_at o' = Some now /\ o_status o' = lit "paid") /\
    (o_status o' = lit "paid" -> is_Some (o_paid_at o'))) as Hcol.
  { intros o p Ho ->. specialize (Hset id o Ho). unfold Payment.set_columns; cbn [o_paid_at o_status].
    destruct (Payment.w_status input) as [st|]; cbn [from_option]; [|by auto].
    destruct (str_eqb st (lit "paid")) eqn:Est; cbn [andb].
    - apply str_eqb_eq in Est. destruct (o_paid_at o) as [t0|]; cbn [bool_decide decide_rel negb];
        (split; [|intros _; by eexists]); [by left|by right].
    - split; [by left|]. unfold Datatypes.id. intros ->. by rewrite str_eqb_refl in Est. }
  unfold after in *; clear after. unfold Payment.update, Payment.load_scoped, bind, query, statement.
  rewrite !Hw. destruct (fault (w n)); [done|].
  destruct (orders s !! id) as [o|] eqn:Eo; [|done]. cbn [some_or ret]. unfold guard_else, lift, ret.
  destruct (in_scope _ _ _); [|done].
  destruct (match Payment.w_status input with Some _ => _ | None => _ end); [|done].
  destruct (match Payment.w_payment_method input with Some _ => _ | None => _ end); [|done].
  unfold execute, statement. rewrite !Hw. destruct (fault (w (S n))); [done|]. rewrite Eo.
  cbn -[Payment.set_columns]. destruct (Hcol o _ eq_refl eq_refl) as [Hk Hp]. split.
  - intros i x Hx. cbn [state_of snd orders set_orders] in Hx.
    apply lookup_insert_Some in Hx as [[<- <-]|[_ Hx]]; [done|by eapply Hset].
  - intros [= <-]. exists o. cbn [orders set_orders]. by rewrite lookup_insert_eq.
Qed.

Definition demo_order : PaymentOrder := {|
  o_id := 9; o_user_id := 7; o_tenant_id := lit "t1"; o_user_email := lit "a@b.c"; o_plan_id := None; o_plan_name := [];
  o_amount := 40; o_status := lit "pending"; o_payment_method := lit "wechat"; o_external_txn_id := None;
  o_created_at := 1; o_paid_at := None |}.
Definition order_tables : tables := set_orders (fun _ => {[ 9 := demo_order ]}) demo_tables.
Definition pay : Payment.UpdateOrderInput :=
  {| Payment.w_status := Some (lit "paid"); Payment.w_payment_method := None; Payment.w_external_txn_id := None |}.

Lemma paid_at_is_kept_witness :
  let after := Payment.update 5 9 pay (lit "system") [] (quiet 5) 0%nat order_tables in
  settled (state_of after) /\
  exists o', result_of after = Ok o' /\
  exists o, orders order_tables !! 9 = Some o /\ orders (state_of after) !! 9 = Some o' /\
     (o_paid_at o' = o_paid_at o \/ o_paid_at o = None /\ o_paid_at o' = Some 5 /\ o_status o' = lit "paid") /\
     (o_status o' = lit "paid" -> is_Some (o_paid_at o')).
Proof.
  intros after. assert (settled order_tables) as Hs.
  { intros i o H Hp. cbn [orders order_tables set_orders] in H. apply lookup_singleton_Some in H as [<- <-]. vm_compute in Hp. discriminate. }
  destruct (paid_at_is_kept 5 9 pay (lit "system") [] (quiet 5) 0%nat order_tables
    (Payment.set_columns 5 false pay demo_order) (alone_quiet 5) Hs) as [H1 H2].
  split; [exact H1|]. eexists. split; [|apply H2]; vm_compute; reflexivity.
Defined.

(** The payment time can move after all: when two requests mark the same
    pending order as paid at once, both have seen no payment time, and the later
    write replaces the time the earlier one recorded and reported. *)
Theorem paid_at_race :
  exists w o1 o2 s1,
    calm some_step w /\
    Payment.update 5 9 pay (lit "system") [] (quiet 5) 0%nat order_tables = (Ok o1, s1, 2%nat) /\
    others (w 1%nat) order_tables = s1 /\
    result_of (Payment.update 6 9 pay (lit "system") [] w 0%nat order_tables) = Ok o2 /\
    o_paid_at o1 = Some 5 /\ o_paid_at o2 = Some 6.
Proof.
  set (first := fun s : tables =>
    match orders s !! 9 with
    | Some o => if bool_decide (o = demo_order)
                then set_orders <[9 := Payment.set_columns 5 false pay demo_order]> s else s
    | None => s
    end).
  exists (fun n => {| clock := 0; fault := false; others := if bool_decide (n = 1%nat) then first else fun s => s |}).
  exists (Payment.set_columns 5 false pay demo_order), (Payment.set_columns 6 false pay demo_order).
  exists (first order_tables). split_and!.
  - intros n s. cbn [others]. case_bool_decide; [|done]. unfold first.
    destruct (orders s !! 9) as [o|] eqn:E; [|done]. case_bool_decide; [|done].
    apply rtc_once. exists Recorded. apply step_order; [done|]. unfold order_ok; cbn. split_and!; [done| |];
      unfold ORDER_STATUSES, PAYMENT_METHODS; cbn [map]; auto using list_elem_of_here, list_elem_of_further.
  - vm_compute. reflexivity.
  - reflexivity.
  - vm_compute. reflexivity.
  - reflexivity.
  - reflexivity.
Qed.
