(* ===== verification/Http.v ===== *)
(** * Errors of the server ([crates/ains-runtime/src/error.rs], [server/src/utils/error.rs])

    The error a handler answers with, and the error type of the account services.
    The conversions from the services' errors are where the clients must not
    learn more than they should; [Sessions] compares them. *)

From S2P Require Import Prelude.

Open Scope string_scope.
Open Scope list_scope.
Open Scope Z_scope.

(** ** [HttpError] *)

Record HttpError := { status : Z; error_type : str; message : str }.

Definition http_error (status : Z) (error_type : string) (message : str) : HttpError :=
  {| status := status; error_type := lit error_type; message := message |}.
Definition bad_request_str (m : str) : HttpError := http_error 400 "bad_request" m.
Definition bad_request (m : string) : HttpError := bad_request_str (lit m).
Definition unauthorized (m : string) : HttpError := http_error 401 "unauthorized" (lit m).
Definition forbidden (m : string) : HttpError := http_error 403 "forbidden" (lit m).
Definition not_found (m : string) : HttpError := http_error 404 "not_found" (lit m).
Definition conflict (m : str) : HttpError := http_error 409 "conflict" m.
Definition too_many_requests (m : str) : HttpError := http_error 429 "rate_limited" m.
Definition http_internal (m : string) : HttpError := http_error 500 "internal_error" (lit m).
Definition service_unavailable (m : string) : HttpError := http_error 503 "service_unavailable" (lit m).
(** [StatusCode::from_u16] accepts 100..=999. *)
Definition with_status (code : Z) (error_type : string) (m : str) : HttpError :=
  http_error (if (100 <=? code) && (code <=? 999) then code else 400) error_type m.

(** The caller of an authenticated handler ([ains-runtime/src/auth.rs]). *)
Record AuthUser := {
  au_user_id : str; au_role : str; au_exp : Z; au_iat : Z; au_token_version : Z; au_remember : bool; au_tenant_id : str
}.

(** ** [ApiError] *)

Inductive ApiError :=
| ApiBadRequest (m : str) | ApiUnauthorized (m : str) | ApiForbidden (m : str) | ApiNotFound (m : str)
| ApiConflict (m : str) | ApiValidation (m : str) | ApiInsufficientBalance (m : str) | ApiInternal (m : str)
| ApiServiceUnavailable (m : str).

Definition http_of_api (e : ApiError) : HttpError :=
  match e with
  | ApiBadRequest m => http_error 400 "bad_request" m
  | ApiUnauthorized m => http_error 401 "unauthorized" m
  | ApiForbidden m => http_error 403 "forbidden" m
  | ApiNotFound m => http_error 404 "not_found" m
  | ApiConflict m => http_error 409 "conflict" m
  | ApiValidation m => http_error 400 "validation_error" m
  | ApiInsufficientBalance m => http_error 400 "insufficient_balance" m
  | ApiInternal _ => http_internal "An unexpected error occurred"
  | ApiServiceUnavailable m => http_error 503 "service_unavailable" m
  end.

(** What is internal stays inside. *)
Lemma internal_is_hidden m m' : http_of_api (ApiInternal m) = http_of_api (ApiInternal m').
Proof. reflexivity. Qed.
