(* ===== verification/WeChat.v ===== *)
(** * The WeChat login ([crates/wechat-api], [server/src/services/wechat.rs],
    [server/src/handlers/wechat.rs], the captcha in [server/src/handlers/auth.rs])

    A follower of the official account sends a keyword and is answered with a code;
    the code, whoever got it, opens the password login once.  The captcha service is
    written against the interface [CaptchaStore] in any monad of [Programs]; the
    crate has a store in memory, the server one over Redis.

    What the server sends to Redis is a program: a tree of commands in which every
    command may find no connection, fail before or after it was executed, or be
    answered.  [step] interleaves any number of requests.  XML, the cipher, base64,
    SHA-1, the HTTP transport, the random digits of codes and the letters of Unicode
    are parameters; ids of messages, media, locations and links are not kept. *)

From stdpp Require Import sorting.
From S2P Require Import Prelude Utf8 JsonValue Redis Http.

Open Scope string_scope.
Open Scope list_scope.
Open Scope Z_scope.

(** A literal of the source that is not ASCII. *)
Definition utf8_lit (s : string) : str := default [] (from_utf8 (lit s)).

Definition colon : char := 58%N.

(** ** Errors and configuration *)

Inductive WechatError :=
| ConfigIncomplete (m : str) | SignatureMismatch | XmlParse (m : str) | Decrypt (m : str) | CaptchaNotFound | CaptchaMismatch
| TooManyAttempts | CooldownActive | UserNotBound (openid : str) | ApiRequest (m : str) | ApiBusiness (errcode : Z) (errmsg : str)
| StoreError (m : str) | Internal (m : str).

Definition api_of_wechat (e : WechatError) : ApiError :=
  match e with
  | CaptchaNotFound | CaptchaMismatch | TooManyAttempts => ApiBadRequest (lit "Invalid or expired captcha code")
  | CooldownActive => ApiBadRequest (lit "Please wait before requesting a new code")
  | UserNotBound _ => ApiBadRequest (lit "WeChat account is not bound to any user")
  | ConfigIncomplete _ => ApiServiceUnavailable (lit "WeChat login is not fully configured")
  | SignatureMismatch | XmlParse _ | Decrypt _ => ApiBadRequest (lit "Invalid WeChat callback")
  | ApiRequest _ | StoreError _ | ApiBusiness _ _ | Internal _ => ApiInternal (lit "An unexpected error occurred")
  end.

Inductive MessageMode := Plain | Compatible | Safe.

Record WechatConfig := {
  account_id : str; app_id : str; app_secret : str; token : str; encoding_aes_key : option str; original_id : option str;
  message_mode : MessageMode
}.

Definition is_safe_mode (c : WechatConfig) : bool := match message_mode c with Safe => true | _ => false end.
Definition is_api_configured (c : WechatConfig) : bool := negb (is_empty (app_id c)) && negb (is_empty (app_secret c)).
Definition requires_safe_mode_feature (crypto_safe_mode : bool) (c : WechatConfig) : bool := is_safe_mode c && negb crypto_safe_mode.

Record LoginConfig := {
  captcha_ttl_secs : Z; resend_cooldown_secs : Z; max_failed_attempts : Z; captcha_len : nat; trigger_keywords : list str
}.

Definition default_login_config : LoginConfig :=
  {| captcha_ttl_secs := 300; resend_cooldown_secs := 60; max_failed_attempts := 5; captcha_len := 5;
     trigger_keywords := [utf8_lit "验证码"; utf8_lit "登录码"; lit "login"] |}.

(** ** Signatures and encrypted messages *)

Class Sha1 := { sha1_hex : str -> str }.

Section Crypto.
Context `{Sha1}.

Definition compute_signature (token timestamp nonce : str) : str := sha1_hex (concat (merge_sort key_le [token; timestamp; nonce])).

Definition eq_ignore_ascii_case (a b : str) : bool := str_eqb (to_ascii_lowercase a) (to_ascii_lowercase b).

Definition verify_signature (token timestamp nonce signature : str) : bool :=
  eq_ignore_ascii_case (compute_signature token timestamp nonce) signature.

(** [decode] of base64 and AES-256-CBC with PKCS#7, with the messages of their errors. *)
Context (base64_decode : str -> result (list N) str) (aes_cbc_decrypt : list N -> list N -> list N -> result (list N) str).

Definition pad_base64 (s : str) : str := s ++ replicate (N.to_nat ((4 - utf8_len s mod 4) mod 4)) 61%N.

Definition decode_aes_key (encoding_aes_key : str) : result (list N) WechatError :=
  match base64_decode (pad_base64 encoding_aes_key) with
  | Err e => Err (Decrypt (lit "Invalid EncodingAESKey base64: " ++ e))
  | Ok decoded =>
      if (length decoded =? 32)%nat then Ok decoded
      else Err (Decrypt (lit "EncodingAESKey decoded to " ++ show_nat (length decoded) ++ lit " bytes, expected 32"))
  end.

Definition u32_from_be_bytes (bytes : list N) : nat := N.to_nat (fold_left (fun acc b => acc * 256 + b)%N bytes 0%N).

(** Sixteen bytes of noise, the length, the message and the app id.  Where the text
    stops being UTF-8 is not told. *)
Definition payload_content (pt : list N) : result str WechatError :=
  if (length pt <? 20)%nat then Err (Decrypt (lit "Decrypted payload too short"))
  else
    let msg_len := u32_from_be_bytes (take 4 (drop 16 pt)) in
    if (length pt <? 20 + msg_len)%nat then Err (Decrypt (lit "Declared msg_len " ++ show_nat msg_len ++ lit " exceeds payload"))
    else match from_utf8 (take msg_len (drop 20 pt)) with
         | Some xml => Ok xml
         | None => Err (Decrypt (lit "Decrypted XML is not valid UTF-8"))
         end.

Definition decrypt_message (encoding_aes_key encrypted_b64 : str) : result str WechatError :=
  and_then (decode_aes_key encoding_aes_key) (fun key =>
  match base64_decode encrypted_b64 with
  | Err e => Err (Decrypt (lit "Invalid base64 ciphertext: " ++ e))
  | Ok ciphertext =>
      if negb (length ciphertext mod 16 =? 0)%nat || (length ciphertext =? 0)%nat
      then Err (Decrypt (lit "Ciphertext length " ++ show_nat (length ciphertext) ++ lit " is not a positive multiple of 16"))
      else match aes_cbc_decrypt key (take 16 key) ciphertext with
           | Err e => Err (Decrypt (lit "AES decrypt failed: " ++ e))
           | Ok pt => payload_content pt
           end
  end).
End Crypto.

(** ** Messages *)

Record WechatMessage := {
  to_user_name : str; from_user_name : str; create_time : Z; msg_type : str; content : option str; event : option str;
  event_key : option str
}.

Definition is_text (m : WechatMessage) : bool := str_eqb (msg_type m) (lit "text").
Definition is_event (m : WechatMessage) : bool := str_eqb (msg_type m) (lit "event").
Definition is_subscribe (m : WechatMessage) : bool := is_event m && bool_decide (event m = Some (lit "subscribe")).
Definition text_content (m : WechatMessage) : str := trim (default [] (content m)).

Definition cdata (tag : string) (text : str) : str :=
  lit "<" ++ lit tag ++ lit "><![CDATA[" ++ text ++ lit "]]></" ++ lit tag ++ lit ">".

Definition envelope (ts : Z) (to_user from_user : str) (msg_type : string) (rest : str) : str :=
  lit "<xml>" ++ cdata "ToUserName" to_user ++ cdata "FromUserName" from_user ++ lit "<CreateTime>" ++ show_Z ts ++ lit "</CreateTime>"
  ++ cdata "MsgType" (lit msg_type) ++ rest ++ lit "</xml>".

Definition build_text_reply (ts : Z) (to_user from_user text : str) : str := envelope ts to_user from_user "text" (cdata "Content" text).
Definition build_image_reply (ts : Z) (to_user from_user media_id : str) : str :=
  envelope ts to_user from_user "image" (lit "<Image>" ++ cdata "MediaId" media_id ++ lit "</Image>").
Definition build_news_reply (ts : Z) (to_user from_user title description pic_url url : str) : str :=
  envelope ts to_user from_user "news"
    (lit "<ArticleCount>1</ArticleCount><Articles><item>" ++ cdata "Title" title ++ cdata "Description" description ++ cdata "PicUrl" pic_url
     ++ cdata "Url" url ++ lit "</item></Articles>").
Definition build_ai_transfer_reply (ts : Z) (to_user from_user : str) : str := envelope ts to_user from_user "transfer_biz_ai_ivr" [].

(** ** Callbacks *)

Record CallbackQuery := { signature : str; timestamp : str; nonce : str; echostr : option str; q_openid : option str }.

Definition empty_query : CallbackQuery := {| signature := []; timestamp := []; nonce := []; echostr := None; q_openid := None |}.

Definition set_param (q : CallbackQuery) (kv : str * str) : CallbackQuery :=
  let '(k, v) := kv in
  if str_eqb k (lit "signature") then {| signature := v; timestamp := timestamp q; nonce := nonce q; echostr := echostr q; q_openid := q_openid q |}
  else if str_eqb k (lit "timestamp") then {| signature := signature q; timestamp := v; nonce := nonce q; echostr := echostr q; q_openid := q_openid q |}
  else if str_eqb k (lit "nonce") then {| signature := signature q; timestamp := timestamp q; nonce := v; echostr := echostr q; q_openid := q_openid q |}
  else if str_eqb k (lit "echostr") then {| signature := signature q; timestamp := timestamp q; nonce := nonce q; echostr := Some v; q_openid := q_openid q |}
  else if str_eqb k (lit "openid") then {| signature := signature q; timestamp := timestamp q; nonce := nonce q; echostr := echostr q; q_openid := Some v |}
  else q.

Definition from_params (params : list (str * str)) : CallbackQuery := fold_left set_param params empty_query.

(** What reads the XML, and what decrypts when the feature is enabled. *)
Class Xml := {
  xml_message : str -> result WechatMessage str;
  xml_encrypt : str -> result (option str) str;
  crypto_safe_mode : bool;
  decrypt : str -> str -> result str WechatError
}.

Section Callback.
Context `{Sha1} `{Xml}.

Definition signed (config : WechatConfig) (query : CallbackQuery) : bool :=
  verify_signature (token config) (timestamp query) (nonce query) (signature query).

Definition handle_verification (config : WechatConfig) (query : CallbackQuery) : result str WechatError :=
  if negb (signed config query) then Err SignatureMismatch
  else match echostr query with Some e => Ok e | None => Err (Internal (lit "missing echostr in verification request")) end.

Definition extract_encrypt_tag (xml : str) : result str WechatError :=
  match xml_encrypt xml with
  | Err e => Err (XmlParse (lit "encrypt envelope: " ++ e))
  | Ok None => Err (Decrypt (lit "missing <Encrypt> tag in safe-mode envelope"))
  | Ok (Some e) => Ok e
  end.

Definition plaintext (config : WechatConfig) (body : str) : result str WechatError :=
  if is_safe_mode config then
    if crypto_safe_mode then
      match encoding_aes_key config with
      | None => Err (ConfigIncomplete (lit "encoding_aes_key required for safe mode"))
      | Some aes_key => and_then (extract_encrypt_tag body) (decrypt aes_key)
      end
    else Err (ConfigIncomplete (lit "safe mode requested but crypto-safe-mode feature is not enabled"))
  else Ok body.

Definition parse_message (xml : str) : result WechatMessage WechatError :=
  match xml_message xml with Ok m => Ok m | Err e => Err (XmlParse e) end.

Definition parse_callback (config : WechatConfig) (query : CallbackQuery) (body : str) : result WechatMessage WechatError :=
  if negb (signed config query) then Err SignatureMismatch
  else and_then (plaintext config body) parse_message.
End Callback.

(** ** Computations over a store *)

Class Programs (P : Type -> Type) := {
  give : forall {A}, result A WechatError -> P A;
  chain : forall {A B}, P A -> (A -> P B) -> P B
}.

Declare Scope program_scope.
Delimit Scope program_scope with program.
Notation "x <- m ;; k" := (chain m (fun x => k)) 
  (at level 100, m at next level, right associativity) : program_scope.
Notation "m ;;; k" := (chain m (fun _ => k)) (at level 100, right associativity) : program_scope.
Open Scope program_scope.

Record CaptchaStore (P : Type -> Type) := {
  set_captcha : str -> str -> str -> Z -> P unit;
  set_captcha_nx : str -> str -> str -> Z -> P bool;
  consume_captcha : str -> P (option (str * str)%type);
  peek_captcha : str -> P (option (str * str)%type);
  incr_failed_attempts : str -> P Z;
  reset_failed_attempts : str -> P unit;
  delete_captcha : str -> P unit
}.
Arguments set_captcha {P}. Arguments set_captcha_nx {P}. Arguments consume_captcha {P}. Arguments peek_captcha {P}.
Arguments incr_failed_attempts {P}. Arguments reset_failed_attempts {P}. Arguments delete_captcha {P}.

(** ** The captcha service *)

Definition CHARSET : str := lit "ABCDEFGHJKMNPQRSTUVWXYZ23456789".

(** [draws] are the random indexes. *)
Definition generate_code (config : LoginConfig) (draws : nat -> nat) : str :=
  (fun i => nth (draws i) CHARSET 65%N) <$> seq 0 (captcha_len config).

Definition captcha_key (account_id openid : str) : str := lit "wechat:" ++ account_id ++ lit ":captcha:" ++ openid.
#[global] Arguments captcha_key : simpl never.

Section Service.
Context {P : Type -> Type} `{Programs P} (store : CaptchaStore P) (config : LoginConfig).

Definition generate (draws : nat -> nat) (account_id openid : str) : P str :=
  let key := captcha_key account_id openid in
  let code := generate_code config draws in
  fresh <- set_captcha_nx store key code openid (captcha_ttl_secs config) ;;
  if negb fresh then give (Err CooldownActive) else give (Ok code).

Definition verify_for_openid (account_id openid code : str) : P str :=
  let key := captcha_key account_id openid in
  peeked <- peek_captcha store key ;;
  match peeked with
  | None => give (Err CaptchaNotFound)
  | Some stored =>
      if negb (eq_ignore_ascii_case stored.1 code) then
        attempts <- incr_failed_attempts store key ;;
        if max_failed_attempts config <=? attempts then delete_captcha store key ;;; give (Err TooManyAttempts)
        else give (Err CaptchaMismatch)
      else
        consumed <- consume_captcha store key ;;
        match consumed with
        | None => give (Err CaptchaNotFound)
        | Some _ => reset_failed_attempts store key ;;; give (Ok openid)
        end
  end.
End Service.

(** [str::split] at the characters that satisfy a predicate. *)
Fixpoint split_where_go (f : char -> bool) (cur s : str) : list str :=
  match s with
  | [] => [reverse cur]
  | x :: s => if f x then reverse cur :: split_where_go f [] s else split_where_go f (x :: cur) s
  end.
Definition split_where (f : char -> bool) (s : str) : list str := split_where_go f [] s.

(** [char::is_alphanumeric] is a table of Unicode. *)
Definition matches_trigger (is_alphanumeric : char -> bool) (config : LoginConfig) (text : str) : bool :=
  let trimmed := trim text in
  negb (is_empty trimmed) &&
  existsb (fun kw =>
    eq_ignore_ascii_case kw trimmed ||
    (if forallb (fun c => c <? 128)%N kw
     then existsb (str_eqb (to_ascii_lowercase kw)) (split_where (fun c => negb (is_alphanumeric c)) (to_ascii_lowercase trimmed))
     else contains kw trimmed)) (trigger_keywords config).

(** *** Users bound to an openid, as the crate offers it *)

Record UserBindingStore (P : Type -> Type) (UserId : Type) := {
  find_user_by_openid : str -> P (option UserId);
  bind_openid : UserId -> str -> P unit;
  unbind_openid : UserId -> P unit
}.
Arguments find_user_by_openid {P UserId}. Arguments bind_openid {P UserId}. Arguments unbind_openid {P UserId}.

Definition verify_and_login {P : Type -> Type} {UserId : Type} `{Programs P} (store : CaptchaStore P) (config : LoginConfig)
    (bindings : UserBindingStore P UserId) (account_id openid code : str) : P (str * UserId)%type :=
  verified_openid <- verify_for_openid store config account_id openid code ;;
  found <- find_user_by_openid bindings verified_openid ;;
  match found with
  | None => give (Err (UserNotBound verified_openid))
  | Some user_id => give (Ok (verified_openid, user_id))
  end.

(** ** The stores in memory *)

(** One operation holds the lock of the codes from beginning to end; [now] is a
    reading of the clock, in seconds.  Instants do not overflow. *)
Record MemoryCaptchaStore := { captchas : gmap str (str * str * Z); attempts : gmap str Z }.

Definition Locked (A : Type) : Type := Z -> MemoryCaptchaStore -> result A WechatError * MemoryCaptchaStore.

#[export] Instance locked_programs : Programs Locked := {|
  give := fun A r _ s => (r, s);
  chain := fun A B m k now s => match m now s with (Ok a, s') => k a now s' | (Err e, s') => (Err e, s') end
|}.

Definition memory_captchas : CaptchaStore Locked := {|
  set_captcha key code openid ttl now s :=
    (Ok tt, {| captchas := <[key := (code, openid, now + ttl)]> (captchas s); attempts := <[key := 0]> (attempts s) |});
  set_captcha_nx key code openid ttl now s :=
    match captchas s !! key with
    | Some _ => (Ok false, s)
    | None => (Ok true, {| captchas := <[key := (code, openid, now + ttl)]> (captchas s); attempts := <[key := 0]> (attempts s) |})
    end;
  consume_captcha key now s :=
    match captchas s !! key with
    | Some (code, openid, expiry) =>
        if expiry <? now then (Ok None, {| captchas := delete key (captchas s); attempts := delete key (attempts s) |})
        else (Ok (Some (code, openid)), {| captchas := delete key (captchas s); attempts := attempts s |})
    | None => (Ok None, s)
    end;
  peek_captcha key now s :=
    (match captchas s !! key with
     | Some (code, openid, expiry) => if expiry <? now then Ok None else Ok (Some (code, openid))
     | None => Ok None
     end, s);
  incr_failed_attempts key now s :=
    let count := default 0 (attempts s !! key) + 1 in (Ok count, {| captchas := captchas s; attempts := <[key := count]> (attempts s) |});
  reset_failed_attempts key now s := (Ok tt, {| captchas := captchas s; attempts := <[key := 0]> (attempts s) |});
  delete_captcha key now s := (Ok tt, {| captchas := delete key (captchas s); attempts := delete key (attempts s) |})
|}.

Record MemoryUserBindingStore := { openid_to_user : gmap str str; user_to_openid : gmap str str }.

Definition find_bound (openid : str) (s : MemoryUserBindingStore) : option str := openid_to_user s !! openid.
Definition bind_user (user_id openid : str) (s : MemoryUserBindingStore) : MemoryUserBindingStore :=
  {| openid_to_user := <[openid := user_id]> (openid_to_user s); user_to_openid := <[user_id := openid]> (user_to_openid s) |}.
Definition unbind_user (user_id : str) (s : MemoryUserBindingStore) : MemoryUserBindingStore :=
  match user_to_openid s !! user_id with
  | Some openid => {| openid_to_user := delete openid (openid_to_user s); user_to_openid := delete user_id (user_to_openid s) |}
  | None => s
  end.

Definition Tokens : Type := gmap str (str * Z).
Definition get_access_token (now : Z) (app_id : str) (s : Tokens) : option str :=
  match s !! app_id with Some (token, expiry) => if now <? expiry then Some token else None | None => None end.
Definition set_access_token (now : Z) (app_id token : str) (ttl : Z) (s : Tokens) : Tokens := <[app_id := (token, now + ttl)]> s.

(** *** The client of the platform *)

Section Client.
Context {P : Type -> Type} `{Programs P} (config : WechatConfig).

(** The transport, and the cache of tokens. *)
Context (post_json : str -> value -> P value) (get_json : str -> P value)
  (get_token : str -> P (option str)) (set_token : str -> str -> Z -> P unit).

Definition TOKEN_API : str := lit "https://api.weixin.qq.com/cgi-bin/token".
Definition CUSTOM_MESSAGE_API : str := lit "https://api.weixin.qq.com/cgi-bin/message/custom/send".

Record TokenResponse := { r_access_token : option str; r_expires_in : option Z; r_errcode : option Z; r_errmsg : option str }.

(** What serde derives. *)
Context (token_response : value -> result TokenResponse str).

Definition token_ttl (expires_in : Z) : Z := Z.max (Z.max 0 (expires_in - 300)) 60.

Definition access_token : P str :=
  cached <- get_token (app_id config) ;;
  match cached with
  | Some token => give (Ok token)
  | None =>
      resp <- get_json (TOKEN_API ++ lit "?grant_type=client_credential&appid=" ++ app_id config ++ lit "&secret=" ++ app_secret config) ;;
      match token_response resp with
      | Err e => give (Err (ApiRequest (lit "token parse: " ++ e)))
      | Ok parsed =>
          let code := default 0 (r_errcode parsed) in
          if negb (code =? 0) then give (Err (ApiBusiness code (default [] (r_errmsg parsed))))
          else match r_access_token parsed with
               | None => give (Err (ApiRequest (lit "missing access_token in response")))
               | Some token => set_token (app_id config) token (token_ttl (default 7200 (r_expires_in parsed))) ;;; give (Ok token)
               end
      end
  end.

(** [as_i64] of the code. *)
Definition errcode_of (resp : value) : option Z :=
  match get_key (lit "errcode") resp with
  | Some (VNumber (PosInt n)) => if n <? 2 ^ 63 then Some n else None
  | Some (VNumber (NegInt n)) => Some n
  | _ => None
  end.

Definition check_api_error (resp : value) : result unit WechatError :=
  match errcode_of resp with
  | Some code => if code =? 0 then Ok tt else Err (ApiBusiness code (default [] (get_key (lit "errmsg") resp ≫= as_str)))
  | None => Ok tt
  end.

Definition send_text_message (openid text : str) : P unit :=
  token <- access_token ;;
  resp <- post_json (CUSTOM_MESSAGE_API ++ lit "?access_token=" ++ token)
            (json [("touser", VString openid); ("msgtype", VString (lit "text")); ("text", json [("content", VString text)])]) ;;
  give (check_api_error resp).

(** *** Handlers of messages *)

Inductive HandleOutcome := Reply (xml : str) | NoReply.
Definition MessageHandler : Type := WechatConfig -> WechatMessage -> P HandleOutcome.

Fixpoint handler_chain (handlers : list MessageHandler) (c : WechatConfig) (msg : WechatMessage) : P HandleOutcome :=
  match handlers with
  | [] => give (Ok NoReply)
  | h :: rest =>
      outcome <- h c msg ;;
      match outcome with Reply xml => give (Ok (Reply xml)) | NoReply => handler_chain rest c msg end
  end.

(** [match m.await]. *)
Context (attempt : forall A, P A -> P (result A WechatError)) (store : CaptchaStore P) (login : LoginConfig)
  (is_alphanumeric : char -> bool) (draws : nat -> nat) (ts : Z).

Definition captcha_trigger_handler : MessageHandler := fun c msg =>
  if negb (is_text msg) || negb (matches_trigger is_alphanumeric login (text_content msg)) then give (Ok NoReply)
  else
    let openid := from_user_name msg in
    let reply text := give (Ok (Reply (build_text_reply ts openid (to_user_name msg) text))) in
    generated <- attempt _ (generate store login draws (account_id c) openid) ;;
    match generated with
    | Ok code =>
        let text := utf8_lit "您的登录验证码为：" ++ code ++ utf8_lit "，有效期 5 分钟，请尽快使用。" in
        sent <- attempt _ (send_text_message openid text) ;;
        match sent with
        | Err _ => reply text
        | Ok _ => reply (utf8_lit "验证码已通过公众号消息发送给您，请注意查收。")
        end
    | Err CooldownActive => reply (utf8_lit "验证码已发送，请稍候再试。")
    | Err e => give (Err e)
    end.

Definition default_reply_handler (welcome fallback : str) : MessageHandler := fun _ msg =>
  let reply text := give (Ok (Reply (build_text_reply ts (from_user_name msg) (to_user_name msg) text))) in
  if is_subscribe msg then reply welcome
  else if is_text msg || is_event msg then reply fallback
  else give (Ok NoReply).
End Client.

(** ** Programs of Redis commands *)

Inductive command : Type -> Type :=
| Setex (key : str) (ttl : Z) (v : str) : command unit
| SetNxEx (key v : str) (ttl : Z) : command bool
| GetOpt (key : str) : command (option str)
| Del (key : str) : command unit
| Incr (key : str) : command Z
| Expire (key : str) (seconds : Z) : command unit
| EvalConsume (key : str) : command (option str).

(** No connection could be had; the command failed; its answer. *)
Inductive reply (B : Type) := NoConnection | Failed (m : str) | Answer (b : B).
Arguments NoConnection {B}. Arguments Failed {B}. Arguments Answer {B}.

Inductive prog (E A : Type) : Type :=
| Done (r : result A E)
| Do {B} (c : command B) (k : reply B -> prog E A).
Arguments Done {E A}. Arguments Do {E A B}.

Fixpoint pbind {E A B} (m : prog E A) (f : A -> prog E B) : prog E B :=
  match m with
  | Done (Ok a) => f a
  | Done (Err e) => Done (Err e)
  | Do c k => Do c (fun r => pbind (k r) f)
  end.

(** [match m.await]: what it ends with, error or not. *)
Fixpoint ptry {E E' A} (m : prog E A) : prog E' (result A E) :=
  match m with
  | Done r => Done (Ok r)
  | Do c k => Do c (fun r => ptry (k r))
  end.

Definition pmap_err {E E' A} (f : E -> E') (m : prog E A) : prog E' A :=
  pbind (ptry m) (fun r => Done (match r with Ok a => Ok a | Err e => Err (f e) end)).

#[export] Instance prog_programs : Programs (prog WechatError) := {| give := fun A r => Done r; chain := fun A B => pbind |}.
Abbreviation R := (prog WechatError).

(** A command, what it means without a connection, and what its failure is called. *)
Definition send {B} (what : string) (c : command B) (down : result B WechatError) : R B :=
  Do c (fun r =>
    match r with
    | NoConnection => Done down
    | Failed m => Done (Err (Internal (lit "Redis " ++ lit what ++ lit " failed: " ++ m)))
    | Answer b => Done (Ok b)
    end).

Definition unavailable {B} : result B WechatError := Err (Internal (lit "Redis not available")).

Section RedisStore.
Context (store_account : str).

Definition code_index_key (account_id code : str) : str := lit "wechat:" ++ account_id ++ lit ":code:" ++ code.
#[global] Arguments code_index_key : simpl never.
Definition attempts_key (key : str) : str := key ++ lit ":attempts".

Definition set_ex (key v : str) (ttl : Z) : R unit := send "SETEX" (Setex key ttl v) unavailable.
Definition set_nx_ex (key v : str) (ttl : Z) : R bool := send "SET NX+EX" (SetNxEx key v ttl) unavailable.
Definition get_opt (key : str) : R (option str) := send "GET" (GetOpt key) (Ok None).
Definition del_key (key : str) : R unit := send "DEL" (Del key) (Ok tt).

(** Both commands go over one connection. *)
Definition incr (key : str) : R Z :=
  v <- send "INCR" (Incr key) unavailable ;; send "EXPIRE" (Expire key 600) unavailable ;;; give (Ok v).

Definition captcha_value (code openid : str) : str := code ++ [colon] ++ openid.
Definition parse_value (stored : option str) : option (str * str) := stored ≫= split_once colon.

Definition store_fresh (key code openid : str) (ttl : Z) : R unit :=
  set_ex (code_index_key store_account code) openid ttl ;;; del_key (attempts_key key).

Definition redis_set_captcha (key code openid : str) (ttl : Z) : R unit :=
  set_ex key (captcha_value code openid) ttl ;;; store_fresh key code openid ttl.

(** That the index could not be stored is only logged. *)
Definition redis_set_captcha_nx (key code openid : str) (ttl : Z) : R bool :=
  fresh <- set_nx_ex key (captcha_value code openid) ttl ;;
  if negb fresh then give (Ok false)
  else ptry (set_ex (code_index_key store_account code) openid ttl) ;;; del_key (attempts_key key) ;;; give (Ok true).

Definition redis_consume_captcha (key : str) : R (option (str * str)) :=
  stored <- send "atomic consume" (EvalConsume key) (Ok None) ;; give (Ok (parse_value stored)).

Definition redis_peek_captcha (key : str) : R (option (str * str)) :=
  stored <- get_opt key ;; give (Ok (parse_value stored)).

Definition redis_delete_captcha (key : str) : R unit :=
  peeked <- redis_peek_captcha key ;;
  (match peeked with Some (code, _) => del_key (code_index_key store_account code) | None => give (Ok tt) end) ;;;
  del_key key ;;; del_key (attempts_key key).

Definition redis_captchas : CaptchaStore R := {|
  set_captcha := redis_set_captcha;
  set_captcha_nx := redis_set_captcha_nx;
  consume_captcha := redis_consume_captcha;
  peek_captcha := redis_peek_captcha;
  incr_failed_attempts key := incr (attempts_key key);
  reset_failed_attempts key := del_key (attempts_key key);
  delete_captcha := redis_delete_captcha
|}.
End RedisStore.

(** *** What the server does with a command *)

Definition drop_index (key value : str) {Rd : Redis} (d : db) : db :=
  match split_once colon value, find (lit ":captcha:") key with
  | Some (code, _), Some a => del (take a key ++ lit ":code:" ++ code) d
  | _, _ => d
  end.

(** The script of [consume_captcha]. *)
Definition consume_script {Rd : Redis} (t : Z) (key : str) (d : db) : option str * db :=
  match get_text t key d with
  | None => (None, d)
  | Some value => (Some value, drop_index key value (del (attempts_key key) (del key d)))
  end.

Definition u32_max : Z := 2 ^ 32 - 1.

(** [None]: refused, or an answer that is not of the expected type. *)
Definition exec {Rd : Redis} (t : Z) {B} (c : command B) (d : db) : option B * db :=
  match c in command B return option B * db with
  | Setex key ttl v => if 0 <? ttl then (Some tt, setex t key ttl v d) else (None, d)
  | SetNxEx key v ttl => if 0 <? ttl then let '(fresh, d') := Redis.set_nx_ex t key v ttl d in (Some fresh, d') else (None, d)
  | GetOpt key => (Some (get_text t key d), d)
  | Del key => (Some tt, del key d)
  | Incr key =>
      match incrby t key 1 d with
      | None => (None, d)
      | Some (n, d') => if (0 <=? n) && (n <=? u32_max) then (Some n, d') else (None, d')
      end
  | Expire key seconds => (Some tt, if 0 <? seconds then expire t key seconds d else del key d)
  | EvalConsume key => let '(value, d') := consume_script t key d in (Some value, d')
  end.

(** A program on its own: nothing is lost. *)
Fixpoint run {Rd : Redis} {E A} (t : Z) (p : prog E A) (d : db) : result A E * db :=
  match p with
  | Done r => (r, d)
  | Do c k => match exec t c d with
              | (Some b, d') => run t (k (Answer b)) d'
              | (None, d') => run t (k (Failed (lit "refused"))) d'
              end
  end.

(** ** The server *)

Record WechatAccountConfig := {
  enabled : bool; ac_account_id : str; ac_app_id : str; ac_app_secret : str; ac_token : str; ac_encoding_aes_key : option str;
  ac_original_id : option str; ac_message_mode : str; ac_login : LoginConfig; ac_subscribe_reply : str
}.

Record WechatComponents := { config : WechatConfig; captcha_service : LoginConfig; store_account : str; subscribe_reply : str }.

Section Server.
Context {U : Unicode} `{Sha1} `{Xml} (is_alphanumeric : char -> bool).

Definition message_mode_of (s : str) : MessageMode :=
  let m := to_lowercase s in if str_eqb m (lit "safe") then Safe else if str_eqb m (lit "compatible") then Compatible else Plain.

Definition init_wechat_components (c : WechatAccountConfig) : option WechatComponents :=
  if negb (enabled c) then None
  else if is_empty (ac_app_id c) || is_empty (ac_app_secret c) || is_empty (ac_token c) then None
  else
    let account := if is_empty (ac_account_id c) then lit "default" else ac_account_id c in
    Some {| config := {| account_id := account; app_id := ac_app_id c; app_secret := ac_app_secret c; token := ac_token c;
                         encoding_aes_key := ac_encoding_aes_key c; original_id := ac_original_id c;
                         message_mode := message_mode_of (ac_message_mode c) |};
            captcha_service := ac_login c; store_account := account; subscribe_reply := ac_subscribe_reply c |}.

Record Response := { body : str; content_type : str }.

Definition wechat_enabled (wechat : option WechatComponents) : bool := match wechat with Some _ => true | None => false end.

(** The query of a request, when it can be parsed; the errors of the framework are texts. *)
Definition wechat_callback_get (wechat : option WechatComponents) (raw_query : result (list (str * str)) str) : result Response HttpError :=
  match raw_query with
  | Err _ => Err (bad_request "Missing WeChat callback query parameters")
  | Ok params =>
      match wechat with
      | None => Err (not_found "WeChat components not initialized")
      | Some w =>
          match handle_verification (config w) (from_params params) with
          | Ok e => Ok {| body := e; content_type := lit "text/plain" |}
          | Err _ => Err (bad_request "Signature verification failed")
          end
      end
  end.

Definition should_send_captcha (w : WechatComponents) (msg : WechatMessage) : bool :=
  if is_text msg then matches_trigger is_alphanumeric (captcha_service w) (default [] (content msg))
  else is_event msg && bool_decide (event msg = Some (lit "CLICK")) && bool_decide (event_key msg = Some (lit "GET_AINS_CAPTCHA")).

Definition captcha_reply (w : WechatComponents) (generated : result str WechatError) : str :=
  match generated with
  | Ok code =>
      utf8_lit "你的验证码：" ++ code ++ utf8_lit "，有效期" ++ show_Z (captcha_ttl_secs (captcha_service w) / 60) ++
      utf8_lit "分钟。请在登录页输入该验证码完成登录。"
  | Err CooldownActive => utf8_lit "最近已发送过验证码，请查看聊天记录，或稍后再重新获取。"
  | Err _ => utf8_lit "系统繁忙，请稍后再试。"
  end.

(** One request of the platform, with the clock and the draws it meets. *)
Record CallbackRequest := {
  raw_query : result (list (str * str)) str; body_text : result str str; draws : nat -> nat; unix_time : Z
}.

Definition answer_message (w : WechatComponents) (request : CallbackRequest) (msg : WechatMessage) : prog str str :=
  let reply text := build_text_reply (unix_time request) (from_user_name msg) (to_user_name msg) text in
  if should_send_captcha w msg then
    pbind (ptry (generate (redis_captchas (store_account w)) (captcha_service w) (draws request) (account_id (config w)) (from_user_name msg)))
      (fun generated => Done (Ok (reply (captcha_reply w generated))))
  else if is_subscribe msg && negb (is_empty (subscribe_reply w)) then Done (Ok (reply (subscribe_reply w)))
  else if negb (is_event msg) || is_subscribe msg
  then Done (Ok (build_ai_transfer_reply (unix_time request) (from_user_name msg) (to_user_name msg)))
  else Done (Ok (lit "success")).

(** What was sent to us, if it is well formed and signed. *)
Definition received (w : WechatComponents) (request : CallbackRequest) : result WechatMessage WechatError :=
  match raw_query request, body_text request with
  | Ok params, Ok text => parse_callback (config w) (from_params params) text
  | _, _ => Err (Internal [])
  end.

(** The errors are only logged; their texts are left out. *)
Definition wechat_process_callback (wechat : option WechatComponents) (request : CallbackRequest) : prog str str :=
  match wechat with
  | None => Done (Err (lit "WeChat components not initialized"))
  | Some w =>
      match received w request with
      | Err _ => Done (Err (lit "Failed to parse WeChat message"))
      | Ok msg => answer_message w request msg
      end
  end.

Definition wechat_callback_post (wechat : option WechatComponents) (request : CallbackRequest) : prog HttpError Response :=
  pbind (ptry (wechat_process_callback wechat request)) (fun xml =>
    Done (Ok {| body := match xml with Ok x => x | Err _ => lit "success" end; content_type := lit "application/xml" |})).

Definition invalid_captcha : ApiError := ApiBadRequest (lit "Invalid or expired captcha code").

(** The captcha of a login: the follower it was sent to. *)
Definition login_captcha (w : WechatComponents) (captcha_code : str) : prog ApiError str :=
  if is_empty captcha_code then Done (Err invalid_captcha)
  else
    let account := account_id (config w) in
    pbind (pmap_err api_of_wechat (get_opt (code_index_key account captcha_code))) (fun found =>
      match found with
      | None => Done (Err invalid_captcha)
      | Some openid =>
          pmap_err (fun _ => invalid_captcha)
            (verify_for_openid (redis_captchas (store_account w)) (captcha_service w) account openid captcha_code)
      end).

(** The first lines of [login_inner]. *)
Definition login_gate (wechat : option WechatComponents) (captcha_code : option str) : prog ApiError unit :=
  match wechat with
  | None => Done (Ok tt)
  | Some w => pbind (login_captcha w (default [] captcha_code)) (fun _ => Done (Ok tt))
  end.
End Server.

(** ** Requests in any interleaving *)

Inductive happening := Stored (key : str) | Spent (key : str).

#[export] Instance happening_eq_dec : EqDecision happening.
Proof. solve_decision. Defined.

(** A captcha was stored, or taken away for good. *)
Definition happens {B} (c : command B) : B -> list happening :=
  match c in command B return B -> list happening with
  | SetNxEx key _ _ => fun fresh => if fresh : bool then [Stored key] else []
  | EvalConsume key => fun value => match parse_value value with Some _ => [Spent key] | None => [] end
  | _ => fun _ => []
  end.

Section System.
Context {Rd : Redis}.

(** The next command of a program: whoever loses a connection or an answer does not
    know whether the command was executed. *)
Inductive advance {E A} (t : Z) (d : db) : prog E A -> list happening -> prog E A -> db -> Prop :=
| no_connection {B} (c : command B) k : advance t d (Do c k) [] (k NoConnection) d
| not_executed {B} (c : command B) k m : advance t d (Do c k) [] (k (Failed m)) d
| refused {B} (c : command B) k d' m : exec t c d = (None, d') -> advance t d (Do c k) [] (k (Failed m)) d'
| answered {B} (c : command B) k b d' : exec t c d = (Some b, d') -> advance t d (Do c k) (happens c b) (k (Answer b)) d'
| answer_lost {B} (c : command B) k b d' m : exec t c d = (Some b, d') -> advance t d (Do c k) (happens c b) (k (Failed m)) d'.

Inductive Work :=
| Answering (request : CallbackRequest) (todo : prog HttpError Response)
| LoggingIn (todo : prog ApiError str).

(** A request and what it has brought about. *)
Record Thread := { work : Work; log : list happening }.

Record System := { now : Z; redis : db; threads : list Thread }.

Context {U : Unicode} `{Sha1} `{Xml} (is_alphanumeric : char -> bool) (w : WechatComponents).

Abbreviation key_of o := (captcha_key (account_id (config w)) o).

Inductive step : System -> System -> Prop :=
| message_arrives t d ts request :
    step {| now := t; redis := d; threads := ts |}
         {| now := t; redis := d; threads := ts ++ [{| work := Answering request (wechat_callback_post is_alphanumeric (Some w) request); log := [] |}] |}
| login_arrives t d ts code :
    step {| now := t; redis := d; threads := ts |}
         {| now := t; redis := d; threads := ts ++ [{| work := LoggingIn (login_captcha w code); log := [] |}] |}
| answering t d ts i request p l es p' d' :
    ts !! i = Some {| work := Answering request p; log := l |} -> advance t d p es p' d' ->
    step {| now := t; redis := d; threads := ts |}
         {| now := t; redis := d'; threads := <[i := {| work := Answering request p'; log := l ++ es |}]> ts |}
| logging_in t d ts i p l es p' d' :
    ts !! i = Some {| work := LoggingIn p; log := l |} -> advance t d p es p' d' ->
    step {| now := t; redis := d; threads := ts |}
         {| now := t; redis := d'; threads := <[i := {| work := LoggingIn p'; log := l ++ es |}]> ts |}
| time_passes t t' d ts : t <= t' -> step {| now := t; redis := d; threads := ts |} {| now := t'; redis := d; threads := ts |}
| elsewhere t d d' ts :
    (* what uses other keys of the server *)
    (forall t o, look t (key_of o) d' = look t (key_of o) d) ->
    step {| now := t; redis := d; threads := ts |} {| now := t; redis := d'; threads := ts |}.

(** No requests yet, and no captchas. *)
Definition initial (s : System) : Prop := threads s = [] /\ forall o, look (now s) (key_of o) (redis s) = None.

Definition reachable (s : System) : Prop := exists s0, initial s0 /\ rtc step s0 s.

Definition occurrences (h : happening) (th : Thread) : nat := length (filter (fun x => x = h) (log th)).

(** How often a captcha of a follower was stored, and how many logins it let pass. *)
Definition stored (o : str) (s : System) : nat := sum_list_with (occurrences (Stored (key_of o))) (threads s).
Definition let_in (o : str) (th : Thread) : bool :=
  match work th with LoggingIn (Done (Ok o')) => str_eqb o' o | _ => false end.
Definition passed (o : str) (s : System) : nat := length (filter (fun th => let_in o th = true) (threads s)).

(** *** Properties of programs *)

Inductive all_commands {E A} (ok : forall B, command B -> Prop) : prog E A -> Prop :=
| all_done r : all_commands ok (Done r)
| all_do {B} (c : command B) k : ok B c -> (forall r, all_commands ok (k r)) -> all_commands ok (Do c k).

(** It does not end with [a] unless its script found the captcha at [key]. *)
Inductive owes {E A} (key : str) (a : A) : prog E A -> Prop :=
| owes_done r : r <> Ok a -> owes key a (Done r)
| owes_do {B} (c : command B) k :
    (forall r, ~ (exists b, r = Answer b /\ Spent key ∈ happens c b) -> owes key a (k r)) -> owes key a (Do c k).
End System.

Section SystemProofs.
Context {Rd : Redis} {U : Unicode} `{Sha1} `{Xml} (is_alphanumeric : char -> bool) (w : WechatComponents).
Abbreviation key_of o := (captcha_key (account_id (config w)) o).

Lemma all_commands_bind {E A B} ok (m : prog E A) (f : A -> prog E B) :
  all_commands ok m -> (forall a, all_commands ok (f a)) -> all_commands ok (pbind m f).
Proof using. intros Hm Hf. induction Hm as [[a|e]|B' c k Hc Hk IH]; cbn; [apply Hf|constructor|]. by constructor. Qed.
Lemma all_commands_try {E E' A} ok (m : prog E A) : all_commands ok m -> all_commands ok (ptry (E' := E') m).
Proof using. induction 1; cbn; by constructor. Qed.
Lemma all_commands_weaken {E A} (ok ok' : forall B, command B -> Prop) (m : prog E A) :
  (forall B (c : command B), ok B c -> ok' B c) -> all_commands ok m -> all_commands ok' m.
Proof using. intros Hw. induction 1; constructor; auto. Qed.

(** What a callback may ask for: a captcha for [o] only, and index keys. *)
Definition for_follower (o : str) B (c : command B) : Prop :=
  match c with
  | SetNxEx key _ _ => key = key_of o
  | Setex key _ _ => exists code, key = code_index_key (store_account w) code
  | EvalConsume _ => False
  | _ => True
  end.

(** What a login may ask for: nothing that creates text. *)
Definition for_login B (c : command B) : Prop := match c with SetNxEx _ _ _ | Setex _ _ _ => False | _ => True end.

Lemma generate_commands login draws o : all_commands (for_follower o) (generate (redis_captchas (store_account w)) login draws (account_id (config w)) o).
Proof using.
  unfold generate. cbn. constructor; [done|]. intros [|m|[|]]; cbn; [constructor|constructor| |constructor].
  constructor; [by eexists|]. intros [|m|[]]; cbn; (constructor; [exact I|]; intros [|m'|[]]; cbn; constructor).
Qed.

Lemma callback_commands request :
  match received w request with
  | Ok msg => all_commands (for_follower (from_user_name msg)) (wechat_callback_post is_alphanumeric (Some w) request)
  | Err _ => exists r, wechat_callback_post is_alphanumeric (Some w) request = Done r
  end.
Proof using.
  unfold wechat_callback_post, wechat_process_callback. destruct (received w request) as [msg|e]; [|by eexists]. unfold answer_message.
  destruct (should_send_captcha _ w msg); [|repeat case_match; constructor].
  apply all_commands_bind; [|constructor]. apply all_commands_try, all_commands_bind; [|constructor]. apply all_commands_try, generate_commands.
Qed.

Lemma login_commands code : all_commands for_login (login_captcha w code).
Proof using.
  unfold login_captcha. destruct (is_empty code); [constructor|]. cbn. constructor; [exact I|]. intros [|m|[openid|]]; cbn; try constructor.
  - exact I.
  - intros [|m|found]; cbn; [constructor|constructor|]. destruct (parse_value found) as [found'|]; cbn; [|constructor].
    destruct (eq_ignore_ascii_case found'.1 code); cbn.
    + constructor; [exact I|]. intros [|m|value]; cbn; [constructor|constructor|]. destruct (parse_value value); cbn; [|constructor].
      constructor; [exact I|]. intros [|m|[]]; cbn; constructor.
    + constructor; [exact I|]. intros [|m|n]; cbn; [constructor|constructor|]. constructor; [exact I|]. intros [|m|[]]; cbn; [constructor|constructor|].
      destruct (max_failed_attempts _ <=? n); cbn; [|constructor].
      constructor; [exact I|]. intros [|m|value]; cbn; [| constructor|];
        (destruct (parse_value _) as [[c o]|] || idtac); cbn; repeat (constructor; [exact I|]; intros [|m|[]]; cbn); try constructor.
Qed.

Lemma login_owes code o : owes (key_of o) o (login_captcha w code).
Proof using.
  unfold login_captcha. destruct (is_empty code); [by constructor|]. cbn. constructor. intros [|m|[openid|]] _; cbn; try by constructor.
  constructor. intros [|m|found] _; cbn; try by constructor. destruct (parse_value found) as [found'|]; cbn; [|by constructor].
  destruct (eq_ignore_ascii_case found'.1 code); cbn.
  - constructor. intros [|m|value] Hn; cbn; try by constructor. destruct (parse_value value) as [pair|] eqn:Ev; cbn; [|by constructor].
    destruct (decide (openid = o)) as [->|Hne].
    + destruct Hn. exists value. split; [done|]. cbn. rewrite Ev. by left.
    + constructor. intros [|m|[]] _; cbn; constructor; congruence.
  - constructor. intros [|m|n] _; cbn; try by constructor. constructor. intros [|m|[]] _; cbn; try by constructor.
    destruct (max_failed_attempts _ <=? n); cbn; [|by constructor]. constructor.
    intros [|m|value] _; cbn; [| by constructor|]; try (destruct (parse_value value) as [[c o']|]; cbn);
      repeat (constructor; intros [|m|[]] _; cbn); by constructor.
Qed.

(** *** What a command does to the captchas *)

(** A captcha at a key: what [consume_captcha] would find. *)
Definition captcha_at (t : Z) (key : str) (d : db) : nat :=
  match look t key d with Some (RText v, _) => match parse_value (Some v) with Some _ => 1 | None => 0 end | _ => 0 end.

Lemma captcha_at_same t t' key d d' : look t' key d' = look t key d -> captcha_at t' key d' = captcha_at t key d.
Proof using. unfold captcha_at. by intros ->. Qed.

Lemma captcha_at_later t t' key d : t <= t' -> (captcha_at t' key d <= captcha_at t key d)%nat.
Proof using.
  intros Hle. unfold captcha_at. rewrite (look_later t t') by done. destruct (look t key d) as [[[v|n] [e|]]|]; try done;
    destruct (t' <? e); lia.
Qed.

Lemma captcha_at_del t key k d : (captcha_at t key (del k d) <= captcha_at t key d)%nat.
Proof using.
  destruct (decide (key = k)) as [->|Hn]; [unfold captcha_at; rewrite del_spec; lia|]. by rewrite (captcha_at_same t t key d) by by apply del_other.
Qed.

Lemma digits_no_colon s acc n : parse_digits acc s = Some n -> colon ∉ s.
Proof using.
  revert acc. induction s as [|c s IH]; intros acc Hs; [by apply not_elem_of_nil|]. cbn in Hs. destruct (digit_value c) as [d|] eqn:Ed; [|done].
  apply not_elem_of_cons. split; [by intros <-|by eapply IH].
Qed.

Lemma show_Z_no_colon n : colon ∉ show_Z n.
Proof using.
  unfold show_Z. destruct (n <? 0); [|by eapply digits_no_colon, parse_show_digits]. change (lit "-") with [45%N]. apply not_elem_of_app.
  split; [by rewrite list_elem_of_singleton|by eapply digits_no_colon, parse_show_digits].
Qed.

(** What the script answers with is a captcha just when there is one. *)
Lemma captcha_text t key d : captcha_at t key d = 
  match get_text t key d with Some v => match parse_value (Some v) with Some _ => 1 | None => 0 end | None => 0 end%nat.
Proof using.
  unfold captcha_at, get_text. destruct (look t key d) as [[[v|n] e]|]; [done| |done]. cbn. by rewrite split_once_none by apply show_Z_no_colon.
Qed.

Definition count (h : happening) (l : list happening) : nat := length (filter (fun x => x = h) l).

Lemma key_not_index o code : store_account w = account_id (config w) -> key_of o <> code_index_key (store_account w) code.
Proof using. intros ->. unfold captcha_key, code_index_key. intros [=E]. by apply app_inv_head in E. Qed.

(** No text is stored but under index keys and with the command that tells. *)
Definition tame B (c : command B) : Prop :=
  match c with Setex key _ _ => exists code, key = code_index_key (store_account w) code | _ => True end.

Lemma follower_tame o B c : for_follower o B c -> tame B c.
Proof using. by destruct c. Qed.
Lemma login_tame B c : for_login B c -> tame B c.
Proof using. by destruct c. Qed.

Lemma script_balance t key d value d' k :
  consume_script t key d = (value, d') -> (captcha_at t k d' + count (Spent k) (happens (EvalConsume key) value) <= captcha_at t k d)%nat.
Proof using.
  unfold consume_script. destruct (get_text t key d) as [v|] eqn:Ev; intros [= <- <-]; [|cbn; lia].
  set (d1 := del (attempts_key key) (del key d)). assert (captcha_at t k (drop_index key v d1) <= captcha_at t k d1)%nat as Hi.
  { unfold drop_index. destruct (split_once colon v) as [[code ?]|]; [|done]. destruct (find _ key); [|done]. apply captcha_at_del. }
  assert (captcha_at t k d1 <= captcha_at t k (del key d))%nat by apply captcha_at_del.
  pose proof (captcha_at_del t k key d) as Hd. cbn [happens]. destruct (parse_value (Some v)) as [pair|] eqn:Ep; [|cbn; lia].
  unfold count. rewrite filter_cons, filter_nil. case_decide as Hk; [|cbn; lia]. injection Hk as ->.
  assert (captcha_at t k (del k d) = 0%nat) as H0' by by unfold captcha_at; rewrite del_spec.
  rewrite (captcha_text t k d), Ev, Ep. cbn. lia.
Qed.

(** What a command leaves of the captchas of [o] and what it took away is what there
    was and what it stored. *)
Lemma exec_balance t {B} (c : command B) d ob d' o :
  store_account w = account_id (config w) -> tame B c -> exec t c d = (ob, d') ->
  let es := match ob with Some b => happens c b | None => [] end in
  (captcha_at t (key_of o) d' + count (Spent (key_of o)) es <= captcha_at t (key_of o) d + count (Stored (key_of o)) es)%nat.
Proof using.
  intros Hacc Ht. pose proof (fun code => key_not_index o code Hacc) as Hk. generalize dependent (key_of o). intros K Hk. destruct c as [key ttl v|key v ttl|key|key|key|key seconds|key]; cbn [exec].
  - assert (K <> key) as Hne by (destruct Ht as [code ->]; apply Hk). destruct (0 <? ttl); intros [= <- <-]; cbn; [|lia].
    rewrite (captcha_at_same t t K d) by by apply setex_other. lia.
  - destruct (Z.ltb_spec 0 ttl) as [Hp|Hp]; [|intros [= <- <-]; cbn; lia]. destruct (Redis.set_nx_ex t key v ttl d) as [fresh d1] eqn:E. intros [= <- <-].
    pose proof (set_nx_ex_spec t key v ttl d Hp) as Hs. pose proof (set_nx_ex_other t t key v ttl d K) as Ho. rewrite E in Hs, Ho. cbn [snd] in Ho.
    destruct (look t key d) as [x|] eqn:El; [injection Hs as -> ->; cbn; lia|]. destruct Hs as [Hf Hs]. cbn in Hf. subst fresh. cbn [happens].
    unfold count. rewrite !filter_cons, !filter_nil. destruct (decide (Stored key = Spent _)) as [?|_]; [done|].
    destruct (decide (K = key)) as [<-|Hne]; [|rewrite (captcha_at_same t t K d d1) by auto; case_decide; cbn; lia].
    rewrite decide_True by done. unfold captcha_at at 1. destruct (look t K d1) as [[[x|n] ?]|]; cbn; try lia. case_match; lia.
  - intros [= <- <-]. cbn. lia.
  - intros [= <- <-]. cbn. pose proof (captcha_at_del t K key d). lia.
  - pose proof (incrby_spec t key 1 d) as Hs. destruct (incrby t key 1 d) as [[n d1]|] eqn:E; [|intros [= <- <-]; cbn; lia].
    assert (captcha_at t K d1 <= captcha_at t K d)%nat as Hle.
    { destruct (decide (K = key)) as [<-|Hne]; [|by rewrite (captcha_at_same t t K d d1) by by eapply incrby_other].
      unfold captcha_at. destruct (look t K d) as [[[v|z] e]|]; [done| |]; destruct Hs as (d2 & [= <- <-] & ->); lia. }
    destruct ((0 <=? n) && (n <=? u32_max)); intros [= <- <-]; cbn; lia.
  - destruct (Z.ltb_spec 0 seconds) as [Hp|Hp]; intros [= <- <-]; cbn; [|pose proof (captcha_at_del t K key d); lia].
    destruct (decide (K = key)) as [<-|Hne]; [|rewrite (captcha_at_same t t K d) by (by apply expire_other); lia].
    unfold captcha_at. rewrite expire_spec by done. destruct (look t K d) as [[[v|n] e]|]; cbn; lia.
  - destruct (consume_script t key d) as [value d1] eqn:E. intros [= <- <-]. pose proof (script_balance t key d value d1 K E). lia.
Qed.

(** *** Programs on the way *)

Lemma all_do_inv {E A B} ok (c : command B) (k : reply B -> prog E A) : all_commands ok (Do c k) -> ok B c /\ forall r, all_commands ok (k r).
Proof using.
  intros Hp. change (match Do c k with Done _ => True | @Do _ _ B c k => ok B c /\ forall r, all_commands ok (k r) end). by destruct Hp.
Qed.

Lemma owes_do_inv {E A B} key (a : A) (c : command B) (k : reply B -> prog E A) : owes key a (Do c k) ->
  forall r, ~ (exists b, r = Answer b /\ Spent key ∈ happens c b) -> owes key a (k r).
Proof using.
  intros Hp. change (match Do c k with
    | Done _ => True
    | @Do _ _ B c k => forall r, ~ (exists b, r = Answer b /\ Spent key ∈ happens c b) -> owes key a (k r)
    end). by destruct Hp.
Qed.

Lemma advance_all {E A} ok t d (p : prog E A) es p' d' : advance t d p es p' d' -> all_commands ok p -> all_commands ok p'.
Proof using. by intros [] [_ Hk]%all_do_inv. Qed.

Lemma advance_owes {E A} key (a : A) t d (p : prog E A) es p' d' :
  advance t d p es p' d' -> Spent key ∉ es -> owes key a p -> owes key a p'.
Proof using.
  intros [B c k|B c k m|B c k d1 m Hx|B c k b d1 Hx|B c k b d1 m Hx] Hn Hp; eapply owes_do_inv in Hp; try exact Hp; intros (b' & [=] & ?). by subst.
Qed.

Lemma advance_happens {E A} ok t d (p : prog E A) es p' d' h :
  advance t d p es p' d' -> all_commands ok p -> h ∈ es -> exists B (c : command B) b, ok B c /\ h ∈ happens c b.
Proof using.
  intros [B c k|B c k m|B c k d1 m Hx|B c k b d1 Hx|B c k b d1 m Hx] [Hc _]%all_do_inv Hh; [by apply not_elem_of_nil in Hh..|eauto|eauto].
Qed.

Lemma advance_balance {E A} t d (p : prog E A) es p' d' o : store_account w = account_id (config w) ->
  advance t d p es p' d' -> all_commands tame p ->
  (captcha_at t (key_of o) d' + count (Spent (key_of o)) es <= captcha_at t (key_of o) d + count (Stored (key_of o)) es)%nat.
Proof using.
  intros Hacc [B c k|B c k m|B c k d1 m Hx|B c k b d1 Hx|B c k b d1 m Hx] [Hc _]%all_do_inv.
  - unfold count. rewrite !filter_nil. lia.
  - unfold count. rewrite !filter_nil. lia.
  - exact (exec_balance t c d None d1 o Hacc Hc Hx).
  - exact (exec_balance t c d (Some b) d1 o Hacc Hc Hx).
  - exact (exec_balance t c d (Some b) d1 o Hacc Hc Hx).
Qed.

(** *** The invariant *)

Definition thread_ok (th : Thread) : Prop :=
  match work th with
  | Answering request p =>
      match received w request with
      | Ok msg => all_commands (for_follower (from_user_name msg)) p /\ forall h, h ∈ log th -> h = Stored (key_of (from_user_name msg))
      | Err _ => (exists r, p = Done r) /\ log th = []
      end
  | LoggingIn p =>
      all_commands for_login p /\ (forall key, Stored key ∉ log th) /\ forall o, Spent (key_of o) ∉ log th -> owes (key_of o) o p
  end.

Record consistent (s : System) : Prop := {
  threads_ok : Forall thread_ok (threads s);
  balanced o : (captcha_at (now s) (key_of o) (redis s) + sum_list_with (occurrences (Spent (key_of o))) (threads s) <= stored w o s)%nat
}.

Lemma sum_insert {X} (f : X -> nat) l i x y : l !! i = Some x -> (sum_list_with f (<[i := y]> l) + f x = sum_list_with f l + f y)%nat.
Proof using. revert i. induction l as [|z l IH]; intros [|i] Hi; simpl in *; try done; [injection Hi as ->; lia|]. specialize (IH i Hi). lia. Qed.

(** One command of one thread. *)
Lemma consistent_advance s i th th' es d' :
  threads s !! i = Some th -> thread_ok th' -> log th' = log th ++ es ->
  (forall o, captcha_at (now s) (key_of o) d' + count (Spent (key_of o)) es <= captcha_at (now s) (key_of o) (redis s) + count (Stored (key_of o)) es)%nat ->
  consistent s -> consistent {| now := now s; redis := d'; threads := <[i := th']> (threads s) |}.
Proof using.
  intros Hi Hth Hlog Hb [Ht Hs]. split; cbn; [by apply Forall_insert|]. intros o. specialize (Hb o). specialize (Hs o). unfold stored in *. cbn.
  pose proof (sum_insert (occurrences (Spent (key_of o))) _ i th th' Hi) as E1.
  pose proof (sum_insert (occurrences (Stored (key_of o))) _ i th th' Hi) as E2.
  assert (forall h, occurrences h th' = occurrences h th + count h es)%nat as Ho by (intros h; unfold occurrences; by rewrite Hlog, filter_app, length_app).
  rewrite Ho in E1, E2. lia.
Qed.

Lemma consistent_arrives s th : thread_ok th -> log th = [] -> consistent s ->
  consistent {| now := now s; redis := redis s; threads := threads s ++ [th] |}.
Proof using.
  intros Hth Hl [Ht Hs]. split; cbn; [by apply Forall_app; split; [|by constructor]|]. intros o. specialize (Hs o). unfold stored in *. cbn.
  assert (forall h, occurrences h th = 0)%nat as Ho by (intros h; unfold occurrences; by rewrite Hl, filter_nil).
  rewrite !sum_list_with_app. cbn [sum_list_with]. rewrite !Ho. lia.
Qed.

Lemma step_consistent s s' : store_account w = account_id (config w) -> step is_alphanumeric w s s' -> consistent s -> consistent s'.
Proof using.
  intros Hacc [t d ts request|t d ts code|t d ts i request p l es p' d' Hi Ha|t d ts i p l es p' d' Hi Ha|t t' d ts Hle|t d d' ts He] Hc.
  - apply (consistent_arrives {| now := t; redis := d; threads := ts |}); [|done|done]. unfold thread_ok. cbn [work log].
    pose proof (callback_commands request) as Hp. destruct (received w request); [|done]. split; [done|]. by intros h ?%not_elem_of_nil.
  - apply (consistent_arrives {| now := t; redis := d; threads := ts |}); [|done|done]. unfold thread_ok. cbn [work log].
    split_and!; [apply login_commands|intros key; apply not_elem_of_nil|intros o _; apply login_owes].
  - pose proof (Forall_lookup_1 _ _ _ _ (threads_ok _ Hc) Hi) as Hth. unfold thread_ok in Hth. cbn [work log] in Hth.
    eapply (consistent_advance {| now := t; redis := d; threads := ts |}); [exact Hi| |reflexivity| |done]; unfold thread_ok; cbn [work log].
    + destruct (received w request) as [msg|e]; [|by destruct Hth as [[r ->] _]; inversion Ha]. destruct Hth as [Hp Hl].
      split; [by eapply advance_all|]. intros h [Hh|Hh]%elem_of_app; [by apply Hl|].
      destruct (advance_happens _ _ _ _ _ _ _ h Ha Hp Hh) as (B & c & b & Hok & Hin). destruct c; cbn in *; try done; try by apply not_elem_of_nil in Hin.
      subst key. destruct b; [by apply list_elem_of_singleton in Hin|by apply not_elem_of_nil in Hin].
    + intros o. destruct (received w request) as [msg|e]; [|by destruct Hth as [[r ->] _]; inversion Ha]. destruct Hth as [Hp Hl].
      eapply advance_balance; [done|exact Ha|]. eapply all_commands_weaken; [apply follower_tame|exact Hp].
  - pose proof (Forall_lookup_1 _ _ _ _ (threads_ok _ Hc) Hi) as (Hp & Hl & Ho). cbn [work log] in *.
    eapply (consistent_advance {| now := t; redis := d; threads := ts |}); [exact Hi| |reflexivity| |done].
    + unfold thread_ok. cbn [work log]. split_and!; [by eapply advance_all| |].
      * intros key [Hh|Hh]%elem_of_app; [by apply (Hl key)|]. destruct (advance_happens _ _ _ _ _ _ _ _ Ha Hp Hh) as (B & c & b & Hok & Hin).
        destruct c; cbn in *; try done; try by apply not_elem_of_nil in Hin. case_match; [by apply list_elem_of_singleton in Hin|by apply not_elem_of_nil in Hin].
      * intros o [Hn1 Hn2]%not_elem_of_app. eapply advance_owes; eauto.
    + intros o. eapply advance_balance; [done|exact Ha|]. eapply all_commands_weaken; [apply login_tame|exact Hp].
  - destruct Hc as [Ht Hs]. split; cbn in *; [done|]. intros o. specialize (Hs o). pose proof (captcha_at_later t t' (key_of o) d Hle). unfold stored in *. cbn in *. lia.
  - destruct Hc as [Ht Hs]. split; cbn in *; [done|]. intros o. specialize (Hs o). unfold stored in *. cbn in *. by rewrite (captcha_at_same t t (key_of o) d d') by done.
Qed.

Lemma reachable_consistent s : store_account w = account_id (config w) -> reachable is_alphanumeric w s -> consistent s.
Proof using.
  intros Hacc (s0 & [Ht Hd] & Hr). assert (consistent s0) as H0'.
  { split; rewrite ?Ht; [by constructor|]. intros o. unfold captcha_at, stored. rewrite Hd, Ht. done. }
  clear Ht Hd. induction Hr as [|s1 s2 s3 Hs _ IH]; [done|]. apply IH. by eapply step_consistent.
Qed.

Lemma passed_spent s o : consistent s -> (passed o s <= sum_list_with (occurrences (Spent (key_of o))) (threads s))%nat.
Proof using.
  intros [Hok _]. unfold passed. induction (threads s) as [|th ts IH]; [done|]. apply Forall_cons in Hok as [Hth Hok]. specialize (IH Hok).
  rewrite filter_cons. case_decide as Hl; cbn [length sum_list_with]; [|lia]. enough (1 <= occurrences (Spent (key_of o)) th)%nat by lia.
  unfold let_in in Hl. destruct (work th) as [|[[o'|]|]] eqn:Ew; try done. apply str_eqb_eq in Hl as ->.
  unfold thread_ok in Hth. rewrite Ew in Hth. destruct Hth as (_ & _ & Ho). destruct (decide (Spent (key_of o) ∈ log th)) as [Hin|Hn].
  - unfold occurrences. assert (Spent (key_of o) ∈ filter (fun x => x = Spent (key_of o)) (log th)) as Hin' by by apply list_elem_of_filter.
    destruct (filter _ (log th)); [by apply not_elem_of_nil in Hin'|cbn; lia].
  - specialize (Ho o Hn). inversion Ho as [r Hr|]. by destruct Hr.
Qed.

Lemma init_account c : init_wechat_components c = Some w -> store_account w = account_id (config w).
Proof using. unfold init_wechat_components. destruct (negb _); [done|]. destruct (_ || _); [done|]. by intros [= <-]. Qed.
End SystemProofs.

(** C25: However callbacks and logins interleave, lose connections and answers, and
    however time passes: no follower's captchas let more logins pass than were stored for him,
    and a captcha is only ever stored for who sent a signed message. *)
Theorem captchas_open_one_login_each {Rd : Redis} {U : Unicode} `{Sha1} `{Xml} is_alphanumeric c w s :
  init_wechat_components c = Some w -> reachable is_alphanumeric w s ->
  (forall o, passed o s <= stored w o s)%nat /\
  (forall th key, th ∈ threads s -> Stored key ∈ log th ->
     exists request todo params msg, work th = Answering request todo /\ raw_query request = Ok params /\
       signed (config w) (from_params params) = true /\ received w request = Ok msg /\
       key = captcha_key (account_id (config w)) (from_user_name msg)).
Proof.
  intros Hw Hr. pose proof (reachable_consistent _ _ _ (init_account _ _ Hw) Hr) as Hc. split.
  - intros o. pose proof (passed_spent w s o Hc). pose proof (balanced _ _ Hc o). lia.
  - intros th key Hth Hin. pose proof (proj1 (Forall_forall _ _) (threads_ok _ _ Hc) th Hth) as Hok. unfold thread_ok in Hok.
    destruct (work th) as [request todo|todo]; [|by destruct Hok as (_ & Hs & _); apply (Hs key) in Hin].
    destruct (received w request) as [msg|e] eqn:Em; [|by destruct Hok as [_ Hl]; rewrite Hl in Hin; apply not_elem_of_nil in Hin].
    destruct Hok as [_ Hl]. apply Hl in Hin as [= ->]. unfold received in Em. destruct (raw_query request) as [params|] eqn:Eq; [|done].
    exists request, todo, params, msg. split_and!; try done; [|by unfold received; rewrite Eq].
    destruct (body_text request); [|done]. unfold parse_callback in Em. by destruct (signed (config w) (from_params params)).
Qed.

(** *** A code that was issued opens one login *)

Section RoundTrip.
Context {Rd : Redis} {U : Unicode} `{Sha1} `{Xml} (is_alphanumeric : char -> bool) (w : WechatComponents).
Context (same_account : store_account w = account_id (config w)).
Abbreviation key_of o := (captcha_key (account_id (config w)) o).
Abbreviation index_of code := (code_index_key (account_id (config w)) code).

Lemma attempts_not_key k : attempts_key k <> k.
Proof using. unfold attempts_key. intros E. apply (f_equal length) in E. rewrite length_app in E. cbn in E. lia. Qed.
Lemma key_not_index' o code : key_of o <> index_of code.
Proof using. unfold captcha_key, code_index_key. intros [=E]. by apply app_inv_head in E. Qed.
Lemma attempts_not_index o code : attempts_key (key_of o) <> index_of code.
Proof using. unfold attempts_key, captcha_key, code_index_key. rewrite <- !app_assoc. intros [=E]. by apply app_inv_head in E. Qed.

Lemma code_no_colon login draws : colon ∉ generate_code login draws.
Proof using.
  unfold generate_code. intros (i & E & _)%list_elem_of_fmap. assert (colon ∉ 65%N :: CHARSET) as Hn by (apply (bool_decide_unpack _); vm_compute; exact I).
  apply Hn. rewrite E. destruct (nth_in_or_default (draws i) CHARSET 65%N) as [Hin| ->]; [|by left]. right. by apply list_elem_of_In.
Qed.

Lemma parse_captcha_value code o : colon ∉ code -> parse_value (Some (captcha_value code o)) = Some (code, o).
Proof using. intros Hc. cbn. by apply split_once_app. Qed.

(** The tables after a captcha was stored. *)
Definition issued_at (t ttl : Z) (o code : str) (d : db) : Prop :=
  look t (key_of o) d = Some (RText (captcha_value code o), Some (t + ttl)) /\ look t (index_of code) d = Some (RText o, Some (t + ttl)).

Lemma generate_stores login draws o t d : 0 < captcha_ttl_secs login -> look t (key_of o) d = None ->
  exists d', run t (generate (redis_captchas (store_account w)) login draws (account_id (config w)) o) d = (Ok (generate_code login draws), d') /\
    issued_at t (captcha_ttl_secs login) o (generate_code login draws) d'.
Proof using same_account.
  intros Hp Hn. set (ttl := captcha_ttl_secs login) in *. set (code := generate_code login draws).
  unfold generate. cbn. fold ttl code. apply Z.ltb_lt in Hp as Hb. rewrite Hb. pose proof (set_nx_ex_spec t (key_of o) (captcha_value code o) ttl d Hp) as Hs.
  rewrite Hn in Hs. destruct (Redis.set_nx_ex t (key_of o) (captcha_value code o) ttl d) as [fresh d1]. cbn in Hs. destruct Hs as [-> Hs]. cbn.
  rewrite Hb. cbn. eexists. split; [done|]. rewrite same_account. split.
  - rewrite del_other by (intros E; by eapply attempts_not_key). rewrite setex_other by apply key_not_index'. done.
  - rewrite del_other by (intros E; by eapply attempts_not_index). by apply setex_spec.
Qed.

Lemma del_look t k k' d x : look t k (del k' d) = Some x -> look t k d = Some x.
Proof using. destruct (decide (k = k')) as [->|Hn]; [by rewrite del_spec|by rewrite del_other]. Qed.

Lemma run_bind {E A B} t (m : prog E A) (f : A -> prog E B) d :
  run t (pbind m f) d = match run t m d with (Ok a, d') => run t (f a) d' | (Err e, d') => (Err e, d') end.
Proof using.
  revert d. induction m as [[a|e]|B' c k IH]; intros d; [done|done|]. cbn. destruct (exec t c d) as [[b|] d']; apply IH.
Qed.

Lemma run_try {E E' A} t (m : prog E A) d : run t (ptry (E' := E') m) d = (Ok (run t m d).1, (run t m d).2).
Proof using. revert d. induction m as [r|B' c k IH]; intros d; [done|]. cbn. destruct (exec t c d) as [[b|] d']; apply IH. Qed.

Lemma run_map_err {E E' A} t (f : E -> E') (m : prog E A) d :
  run t (pmap_err f m) d = (match (run t m d).1 with Ok a => Ok a | Err e => Err (f e) end, (run t m d).2).
Proof using. unfold pmap_err. rewrite run_bind, run_try. done. Qed.

Lemma run_get t k d : run t (get_opt k) d = (Ok (get_text t k d), d).
Proof using. done. Qed.

Lemma run_peek t store k d : run t (peek_captcha (redis_captchas store) k) d = (Ok (parse_value (get_text t k d)), d).
Proof using. done. Qed.

Lemma run_consume t store k d :
  run t (consume_captcha (redis_captchas store) k) d = (Ok (parse_value (consume_script t k d).1), (consume_script t k d).2).
Proof using. cbn. by destruct (consume_script t k d). Qed.

Lemma run_reset t store k d : run t (reset_failed_attempts (redis_captchas store) k) d = (Ok tt, del (attempts_key k) d).
Proof using. done. Qed.

Lemma text_of t k d v e : look t k d = Some (RText v, e) -> get_text t k d = Some v.
Proof using. unfold get_text. by intros ->. Qed.

(** A login with a code whose index entry and captcha are there. *)
Lemma run_login t code o d stored_code owner : code <> [] ->
  get_text t (index_of code) d = Some o -> parse_value (get_text t (key_of o) d) = Some (stored_code, owner) ->
  eq_ignore_ascii_case stored_code code = true ->
  run t (login_captcha w code) d = (Ok o, del (attempts_key (key_of o)) (consume_script t (key_of o) d).2).
Proof using.
  intros Hne Hi Hk He. unfold login_captcha. rewrite (proj2 (is_empty_false code)) by done. cbv zeta.
  rewrite run_bind, run_map_err, run_get, Hi. cbn [fst snd]. rewrite run_map_err.
  unfold verify_for_openid. cbv zeta. cbn [chain give prog_programs]. rewrite run_bind, run_peek, Hk. cbn [fst snd]. rewrite He. cbn [negb].
  rewrite run_bind, run_consume. assert (parse_value (consume_script t (key_of o) d).1 = Some (stored_code, owner)) as ->.
  { unfold consume_script. by destruct (get_text t (key_of o) d). }
  by rewrite run_bind, run_reset.
Qed.

Lemma login_passes t t' ttl o code d : colon ∉ code -> code <> [] -> t <= t' < t + ttl -> issued_at t ttl o code d ->
  exists d', run t' (login_captcha w code) d = (Ok o, d') /\ look t' (key_of o) d' = None /\
    forall x, look t' (index_of code) d' = Some x -> x = (RText o, Some (t + ttl)).
Proof using.
  intros Hc Hne Ht [Hk Hi].
  assert (forall k v, look t k d = Some (v, Some (t + ttl)) -> look t' k d = Some (v, Some (t + ttl))) as Hl.
  { intros k v E. rewrite (look_later t t') by lia. rewrite E. by rewrite (proj2 (Z.ltb_lt _ _)) by lia. }
  apply Hl in Hk, Hi. eexists. split.
  - apply (run_login t' code o d code o); [done|by eapply text_of| |by apply str_eqb_refl].
    erewrite text_of by exact Hk. by apply parse_captcha_value.
  - unfold consume_script. erewrite text_of by exact Hk. cbn [fst snd]. split.
    + destruct (look t' (key_of o) (del _ _)) as [x|] eqn:E; [|done]. apply del_look in E. unfold drop_index in E.
      assert (look t' (key_of o) (del (attempts_key (key_of o)) (del (key_of o) d)) = Some x) as E'.
      { destruct (split_once _ _) as [[? ?]|]; [|done]. destruct (find _ _); [|done]. by eapply del_look. }
      apply del_look in E'. by rewrite del_spec in E'.
    + intros x E. apply del_look in E. unfold drop_index in E.
      assert (look t' (index_of code) (del (attempts_key (key_of o)) (del (key_of o) d)) = Some x) as E'.
      { destruct (split_once _ _) as [[? ?]|]; [|done]. destruct (find _ _); [|done]. by eapply del_look. }
      apply del_look, del_look in E'. rewrite Hi in E'. by injection E'.
Qed.

(** It does so once. *)
Lemma login_refused t o code d : (forall x, look t (index_of code) d = Some x -> exists e, x = (RText o, e)) -> look t (key_of o) d = None ->
  (run t (login_captcha w code) d).1 = Err invalid_captcha.
Proof using.
  intros Hi Hk. unfold login_captcha. destruct (is_empty code); [done|]. cbv zeta. rewrite run_bind, run_map_err, run_get. cbn [fst snd].
  unfold get_text at 1. destruct (look t (index_of code) d) as [x|] eqn:E; [|done]. destruct (Hi x eq_refl) as [e ->]. cbn [fst snd].
  rewrite run_map_err. unfold verify_for_openid. cbv zeta. cbn [chain give prog_programs]. rewrite run_bind, run_peek.
  unfold get_text. by rewrite Hk.
Qed.
End RoundTrip.

(** The code that answers a keyword opens exactly one login while it lasts. *)
Theorem issued_code_logs_in_once {Rd : Redis} {U : Unicode} `{Sha1} `{Xml} is_alphanumeric c w request msg t t' d :
  init_wechat_components c = Some w -> received w request = Ok msg -> should_send_captcha is_alphanumeric w msg = true ->
  look t (captcha_key (account_id (config w)) (from_user_name msg)) d = None ->
  (0 < captcha_len (captcha_service w))%nat -> t <= t' < t + captcha_ttl_secs (captcha_service w) ->
  let code := generate_code (captcha_service w) (draws request) in
  let answered := run t (wechat_callback_post is_alphanumeric (Some w) request) d in
  let login := run t' (login_captcha w code) answered.2 in
  answered.1 = Ok {| body := build_text_reply (unix_time request) (from_user_name msg) (to_user_name msg) (captcha_reply w (Ok code));
                     content_type := lit "application/xml" |} /\
  login.1 = Ok (from_user_name msg) /\
  (run t' (login_captcha w code) login.2).1 = Err invalid_captcha.
Proof.
  intros Hw Hm Hs Hn Hlen Ht code answered login. pose proof (init_account w c Hw) as Hacc.
  destruct (generate_stores w Hacc (captcha_service w) (draws request) (from_user_name msg) t d ltac:(lia) Hn) as (d1 & Eg & Hi). fold code in Eg, Hi.
  assert (answered = (Ok {| body := build_text_reply (unix_time request) (from_user_name msg) (to_user_name msg) (captcha_reply w (Ok code));
                            content_type := lit "application/xml" |}, d1)) as Ea.
  { unfold answered, wechat_callback_post, wechat_process_callback. rewrite Hm. unfold answer_message. rewrite Hs. cbv zeta.
    by rewrite run_bind, run_try, run_bind, run_try, Eg. }
  assert (code <> []) as Hne by (unfold code, generate_code; by destruct (captcha_len (captcha_service w)); [lia|]).
  destruct (login_passes w t t' _ _ code d1 (code_no_colon _ _) Hne Ht Hi) as (d2 & El & Hk2 & Hi2).
  unfold login. rewrite Ea. cbn [fst snd]. rewrite El. cbn [fst snd]. split; [done|]. split; [done|].
  eapply login_refused; [|exact Hk2]. intros x Hx. rewrite (Hi2 x Hx). by eexists.
Qed.

(** ** Concrete runs *)

(** A request that nobody disturbs is served to its end. *)
Lemma login_is_served {Rd : Redis} {U : Unicode} `{Sha1} `{Xml} is_alphanumeric w t ts p l d :
  exists l', rtc (step is_alphanumeric w) {| now := t; redis := d; threads := ts ++ [{| work := LoggingIn p; log := l |}] |}
    {| now := t; redis := (run t p d).2; threads := ts ++ [{| work := LoggingIn (Done (run t p d).1); log := l' |}] |}.
Proof.
  revert l d. induction p as [r|B c k IH]; intros l d; [by exists l|]. cbn [run].
  assert ((ts ++ [{| work := LoggingIn (Do c k); log := l |}]) !! length ts = Some {| work := LoggingIn (Do c k); log := l |}) as Hi
    by by apply list_lookup_middle.
  destruct (exec t c d) as [[b|] d'] eqn:Ex;
    [destruct (IH (Answer b) (l ++ happens c b) d') as [l' Hl]|destruct (IH (Failed (lit "refused")) (l ++ []) d') as [l' Hl]];
    exists l'; (eapply rtc_l; [eapply logging_in; [exact Hi|by constructor]|]); rewrite insert_app_r_alt, Nat.sub_diag by lia; exact Hl.
Qed.

Lemma callback_is_served {Rd : Redis} {U : Unicode} `{Sha1} `{Xml} is_alphanumeric w t ts request p l d :
  exists l', rtc (step is_alphanumeric w) {| now := t; redis := d; threads := ts ++ [{| work := Answering request p; log := l |}] |}
    {| now := t; redis := (run t p d).2; threads := ts ++ [{| work := Answering request (Done (run t p d).1); log := l' |}] |}.
Proof.
  revert l d. induction p as [r|B c k IH]; intros l d; [by exists l|]. cbn [run].
  assert ((ts ++ [{| work := Answering request (Do c k); log := l |}]) !! length ts = Some {| work := Answering request (Do c k); log := l |}) as Hi
    by by apply list_lookup_middle.
  destruct (exec t c d) as [[b|] d'] eqn:Ex;
    [destruct (IH (Answer b) (l ++ happens c b) d') as [l' Hl]|destruct (IH (Failed (lit "refused")) (l ++ []) d') as [l' Hl]];
    exists l'; (eapply rtc_l; [eapply answering; [exact Hi|by constructor]|]); rewrite insert_app_r_alt, Nat.sub_diag by lia; exact Hl.
Qed.

Section Demo.

(** A digest that is no digest, and a reader for which every body is a click on the menu. *)
#[local] Instance plain_sha1 : Sha1 := {| sha1_hex s := s |}.
Definition click (follower : str) : WechatMessage :=
  {| to_user_name := lit "gh"; from_user_name := follower; create_time := 0; msg_type := lit "event"; content := None;
     event := Some (lit "CLICK"); event_key := Some (lit "GET_AINS_CAPTCHA") |}.
#[local] Instance clicks : Xml := {|
  xml_message text := Ok (click text); xml_encrypt _ := Ok None; crypto_safe_mode := false; decrypt _ _ := Err (Decrypt [])
|}.
#[local] Existing Instance map_redis.
#[local] Existing Instance ascii_tables.

Definition demo_account : WechatAccountConfig :=
  {| enabled := true; ac_account_id := lit "a"; ac_app_id := lit "wx"; ac_app_secret := lit "s"; ac_token := lit "tok";
     ac_encoding_aes_key := None; ac_original_id := None; ac_message_mode := lit "plain"; ac_login := default_login_config;
     ac_subscribe_reply := [] |}.
Definition demo : WechatComponents :=
  {| config := {| account_id := lit "a"; app_id := lit "wx"; app_secret := lit "s"; token := lit "tok"; encoding_aes_key := None;
                  original_id := None; message_mode := Plain |};
     captcha_service := default_login_config; store_account := lit "a"; subscribe_reply := [] |}.

(** The timestamp is 1, the nonce 2. *)
Definition demo_request (follower : string) (sign : string) (draw : nat) : CallbackRequest :=
  {| raw_query := Ok [(lit "nonce", lit "2"); (lit "signature", lit sign); (lit "timestamp", lit "1")]; body_text := Ok (lit follower);
     draws _ := draw; unix_time := 1 |}.

Lemma issued_code_logs_in_once_witness :
  let request := demo_request "o1" "12TOK" 7 in
  let answered := run 100 (wechat_callback_post (fun _ => true) (Some demo) request) (∅ : db) in
  let login := run 399 (login_captcha demo (lit "HHHHH")) answered.2 in
  login.1 = Ok (lit "o1") /\ (run 399 (login_captcha demo (lit "HHHHH")) login.2).1 = Err invalid_captcha.
Proof.
  intros request answered login.
  exact (proj2 (issued_code_logs_in_once (fun _ => true) demo_account demo request (click (lit "o1")) 100 399 (∅ : db)
    eq_refl eq_refl eq_refl eq_refl ltac:(cbn; lia) ltac:(cbn; lia))).
Defined.

(** One follower is sent a code and one login passes with it; a second is refused. *)
Lemma captchas_open_one_login_each_witness :
  exists s, reachable (fun _ => true) demo s /\ passed (lit "o1") s = 1%nat /\ (1 <= stored demo (lit "o1") s)%nat.
Proof.
  set (request := demo_request "o1" "12TOK" 7).
  set (callback := wechat_callback_post (fun _ => true) (Some demo) request).
  set (d1 := (run 100 callback (∅ : db)).2).
  set (login := login_captcha demo (lit "HHHHH")).
  set (d2 := (run 100 login d1).2).
  destruct (callback_is_served (fun _ => true) demo 100 [] request callback [] (∅ : db)) as [l1 S1].
  destruct (login_is_served (fun _ => true) demo 100 [{| work := Answering request (Done (run 100 callback (∅ : db)).1); log := l1 |}] login [] d1) as [l2 S2].
  destruct (login_is_served (fun _ => true) demo 100 ([{| work := Answering request (Done (run 100 callback (∅ : db)).1); log := l1 |}]
    ++ [{| work := LoggingIn (Done (run 100 login d1).1); log := l2 |}]) login [] d2) as [l3 S3].
  set (s := {| now := 100; redis := (run 100 login d2).2; threads := ([{| work := Answering request (Done (run 100 callback (∅ : db)).1); log := l1 |}]
    ++ [{| work := LoggingIn (Done (run 100 login d1).1); log := l2 |}]) ++ [{| work := LoggingIn (Done (run 100 login d2).1); log := l3 |}] |}).
  assert (reachable (fun _ => true) demo s) as Hr.
  { exists {| now := 100; redis := ∅; threads := [] |}. split; [split; [reflexivity|intros o; reflexivity]|].
    eapply rtc_l; [apply (message_arrives _ _ 100 ∅ [] request)|]. etransitivity; [exact S1|].
    eapply rtc_l; [apply (login_arrives _ _ 100 d1 _ (lit "HHHHH"))|]. etransitivity; [exact S2|].
    eapply rtc_l; [apply (login_arrives _ _ 100 d2 _ (lit "HHHHH"))|]. exact S3. }
  assert (passed (lit "o1") s = 1%nat) as Hp.
  { unfold passed, s. cbn [threads app]. assert ((run 100 login d1).1 = Ok (lit "o1")) as -> by (vm_compute; reflexivity).
    assert ((run 100 login d2).1 = Err invalid_captcha) as -> by (vm_compute; reflexivity). reflexivity. }
  exists s. split; [exact Hr|]. split; [exact Hp|]. rewrite <- Hp.
  exact (proj1 (captchas_open_one_login_each (fun _ => true) demo_account demo s eq_refl Hr) (lit "o1")).
Defined.

(** The code in lower case is refused: the index is looked up as it was typed, although
    the captcha is compared without regard to case. *)
Example lower_case_is_refused :
  let answered := run 100 (wechat_callback_post (fun _ => true) (Some demo) (demo_request "o1" "12TOK" 7)) (∅ : db) in
  (run 101 (login_captcha demo (lit "hhhhh")) answered.2).1 = Err invalid_captcha /\
  (run 101 (verify_for_openid (redis_captchas (lit "a")) default_login_config (lit "a") (lit "o1") (lit "hhhhh")) answered.2).1 = Ok (lit "o1").
Proof. vm_compute. split; reflexivity. Qed.

(** Guesses at login are not counted: no code but one that was issued has an entry in
    the index. *)
Example guesses_are_not_counted :
  let answered := run 100 (wechat_callback_post (fun _ => true) (Some demo) (demo_request "o1" "12TOK" 7)) (∅ : db) in
  (run 101 (login_captcha demo (lit "AAAAA")) answered.2) = (Err invalid_captcha, answered.2).
Proof. vm_compute. reflexivity. Qed.

(** In memory, a captcha that expired unused blocks the next ones for ever: it is not
    found, and still there. *)
Example expired_captcha_blocks :
  let s := {| captchas := {[lit "k" := (lit "C", lit "o", 10)]}; attempts := ∅ |} in
  (peek_captcha memory_captchas (lit "k") 11 s).1 = Ok None /\
  forall now, now > 10 -> (set_captcha_nx memory_captchas (lit "k") (lit "D") (lit "o") 300 now s).1 = Ok false.
Proof. split; [vm_compute; reflexivity|]. intros now _. vm_compute. reflexivity. Qed.

(** In memory, who is bound to another openid stays reachable by the first one, even
    when he is unbound. *)
Example first_binding_stays :
  find_bound (lit "o1") (unbind_user (lit "u") (bind_user (lit "u") (lit "o2") (bind_user (lit "u") (lit "o1")
    {| openid_to_user := ∅; user_to_openid := ∅ |}))) = Some (lit "u").
Proof. vm_compute. reflexivity. Qed.
End Demo.
