(* ===== verification/Kv.v ===== *)
(** * The key-value stores of the agent ([memory/kv.rs], [kv_native.rs],
    [in_memory.rs])

    A table maps keys to envelopes: an expiry and a JSON payload.  The native
    back end keeps them in a redb table, the other one in a hash map; both hide
    expired rows, only the native one removes them (the read that finds one
    expired and the removal, which checks again, are one command here: a write in
    between comes after it).  Every command takes one [moment] of the world of
    [Sql]: it may fail as a whole, and others may use the table before it.  The text between a payload and its bytes is idealised: what
    is stored is read back, and a row that cannot be read is [Damaged] or has no
    payload.  The messages of the back end's own errors are not modelled.

    [prefix_successor] is the upper bound that the browser back end uses for its
    key ranges, in the order of UTF-16 code units. *)

From stdpp Require Import sorting.
From S2P Require Import Prelude Utf8 JsonValue Messages Sql.

Open Scope string_scope.
Open Scope list_scope.
Open Scope Z_scope.
Open Scope sql_scope.

Definition i64_max : Z := 2 ^ 63 - 1.

(** [i64::saturating_add] of two non-negative numbers. *)
Definition saturating_add (a b : Z) : Z := Z.min i64_max (a + b).

Inductive Row :=
| Damaged
| Stored (expires_at_ms : option Z) (payload : option value).

Abbreviation Rows := (gmap str Row) (only parsing).

#[export] Instance memory_errors : Errors MemoryError := fun context => Storage (lit context).

Definition unreadable : MemoryError := Serialization (lit "unreadable row").

(** [Envelope::new] and [Envelope::is_expired]; [ttl] is in milliseconds. *)
Definition envelope (v : value) (ttl : option Z) (now : Z) : Row :=
  Stored ((fun d => saturating_add now (Z.min d i64_max)) <$> ttl) (Some v).

Definition is_expired (now : Z) (expires_at_ms : option Z) : bool :=
  match expires_at_ms with Some at_ms => at_ms <=? now | None => false end.

Definition row_expired (now : Z) (r : Row) : bool :=
  match r with Damaged => false | Stored e _ => is_expired now e end.

(** [Envelope::decode] and [Envelope::value] of a row that has not expired. *)
Definition row_value (r : Row) : result (option value) MemoryError :=
  match r with Stored _ (Some v) => Ok (Some v) | _ => Err unreadable end.

(** An [i64] in a JSON value. *)
Definition value_of_i64 (z : Z) : value := VNumber (if z <? 0 then NegInt z else PosInt z).
Definition i64_of_value (v : value) : option Z :=
  match v with VNumber (PosInt n) => if n <=? i64_max then Some n else None | VNumber (NegInt n) => Some n | _ => None end.

Lemma i64_round_trip t : t <= i64_max -> i64_of_value (value_of_i64 t) = Some t.
Proof.
  intros Ht. unfold value_of_i64, i64_of_value. destruct (t <? 0); [done|]. by rewrite (proj2 (Z.leb_le _ _) Ht).
Qed.

(** The keys with a prefix whose rows satisfy [keep], in no order yet. *)
Definition keys_where (keep : Row -> bool) (prefix : str) (m : Rows) : list str :=
  List.filter (starts_with prefix) (fst <$> map_to_list (filter (fun kr => keep kr.2 = true) m)).

(** [now_ms()] beside the next command. *)
Definition with_clock {S E A} (k : Z -> Sql.M S E A) : Sql.M S E A := fun w n s => k (clock (w n)) w n s.

Section Store.
Context {S : Type} (rows : S -> Rows) (set_rows : Rows -> S -> S).
Abbreviation M := (Sql.M S MemoryError).

(** One command: a failure of the back end, or [f] with the clock. *)
Definition command {A} (f : Z -> Rows -> result A MemoryError * Rows) : M A := fun w n s =>
  let m := w n in
  let now := others m s in
  if fault m then (Err (internal "storage"), now, Datatypes.S n)
  else let '(r, t) := f (clock m) (rows now) in (r, set_rows t now, Datatypes.S n).

(** *** redb *)

Definition kv_get (key : str) : M (option value) := command (fun now t =>
  match t !! key with
  | None => (Ok None, t)
  | Some r => if row_expired now r then (Ok None, delete key t) else (row_value r, t)
  end).

Definition kv_set (key : str) (v : value) (ttl : option Z) : M unit :=
  command (fun now t => (Ok tt, <[key := envelope v ttl now]> t)).

Definition kv_delete (key : str) : M unit := command (fun _ t => (Ok tt, delete key t)).

Definition listed (now : Z) (r : Row) : bool :=
  match r with Damaged => false | Stored e _ => negb (is_expired now e) end.

Definition kv_list_prefix (prefix : str) : M (list str) :=
  command (fun now t => (Ok (merge_sort key_le (keys_where (listed now) prefix t)), t)).

(** The keys that are still expired when the scan is over. *)
Definition still_expired (now : Z) (t : Rows) (key : str) : bool :=
  match t !! key with Some r => row_expired now r | None => false end.

(** The scan and the removal are two transactions with one reading of the
    clock. *)
Definition kv_sweep_expired : M nat :=
  found <- command (fun now t => (Ok (now, keys_where (row_expired now) [] t), t)) ;;
  if is_empty found.2 then ret 0%nat
  else command (fun _ t =>
         let gone := List.filter (still_expired found.1 t) found.2 in (Ok (length gone), foldr delete t gone)).

Definition kv_delete_prefix (prefix : str) : M nat :=
  command (fun _ t => let ks := keys_where (fun _ => true) prefix t in (Ok (length ks), foldr delete t ks)).

(** *** The hash map *)

(** The order in which it lists its keys is its own. *)
Context (arrange : list str -> list str).

Definition mem_get (key : str) : M (option value) := command (fun now t =>
  match t !! key with
  | None => (Ok None, t)
  | Some r => if row_expired now r then (Ok None, t) else (row_value r, t)
  end).

Definition mem_set (key : str) (v : value) (ttl : option Z) : M unit := kv_set key v ttl.
Definition mem_delete (key : str) : M unit := kv_delete key.
Definition mem_list_prefix (prefix : str) : M (list str) :=
  command (fun now t => (Ok (arrange (keys_where (fun r => negb (row_expired now r)) prefix t)), t)).

(** The defaults of the trait. *)
Definition mem_sweep_expired : M nat := ret 0%nat.

Fixpoint delete_each (keys : list str) (removed : nat) : M nat :=
  match keys with
  | [] => ret removed
  | key :: rest => mem_delete key ;;; delete_each rest (Datatypes.S removed)
  end.

Definition mem_delete_prefix (prefix : str) : M nat :=
  keys <- mem_list_prefix prefix ;; delete_each keys 0.

End Store.

(** ** The bound of a prefix in the order of UTF-16 *)

Definition utf16_units (c : N) : list N :=
  if (c <? 0x10000)%N then [c]
  else [(0xD800 + (c - 0x10000) / 0x400)%N; (0xDC00 + (c - 0x10000) mod 0x400)%N].

Definition utf16 (s : str) : list N := s ≫= utf16_units.

(** [prefix_successor] over the reversed characters. *)
Fixpoint successor_of (rev_chars : list N) : option str :=
  match rev_chars with
  | [] => None
  | cp :: rest =>
      if (cp =? 0xFFFF)%N then successor_of rest
      else
        let successor :=
          if (0x10000 <=? cp)%N then
            if (N.land (cp - 0x10000) 0x3FF <? 0x3FF)%N then (cp + 1)%N else 0xE000%N
          else if (cp =? 0xD7FF)%N then 0xE000%N
          else (cp + 1)%N in
        Some (reverse rest ++ [successor])
  end.

Definition prefix_successor (prefix : str) : option str := successor_of (reverse prefix).

(** ** The bound is one *)

Lemma str_ltb_app (p a b : list N) : str_ltb (p ++ a) (p ++ b) = str_ltb a b.
Proof. induction p as [|c p IH]; [done|]. cbn. by rewrite N.ltb_irrefl, N.eqb_refl, IH. Qed.

Lemma str_ltb_head (c d : N) a b : (c < d)%N -> str_ltb (c :: a) (d :: b) = true.
Proof. intros H%N.ltb_lt. cbn. by rewrite H. Qed.

Lemma utf16_app s t : utf16 (s ++ t) = utf16 s ++ utf16 t.
Proof. unfold utf16. by rewrite bind_app. Qed.

Lemma land_low (x : N) : N.land x 0x3FF = (x mod 0x400)%N.
Proof. change 0x3FF%N with (N.ones 10). by rewrite N.land_ones. Qed.

(** The character put in place of the last one is above it, whatever follows. *)
Lemma replacement_above cp t :
  is_scalar cp = true -> cp <> 0xFFFF%N ->
  str_ltb (utf16_units cp ++ t) (utf16_units
    (if (0x10000 <=? cp)%N then
       if (N.land (cp - 0x10000) 0x3FF <? 0x3FF)%N then (cp + 1)%N else 0xE000%N
     else if (cp =? 0xD7FF)%N then 0xE000%N else (cp + 1)%N)) = true.
Proof.
  intros Hs Hne. unfold is_scalar in Hs. rewrite orb_true_iff, andb_true_iff, N.ltb_lt, !N.leb_le in Hs. unfold utf16_units at 1.
  destruct (N.leb_spec 0x10000 cp) as [Hc|Hc].
  - rewrite (proj2 (N.ltb_ge _ _) Hc), land_low. set (x := (cp - 0x10000)%N) in *.
    assert (x < 0x100000)%N as Hx by lia.
    pose proof (N.div_mod x 0x400 ltac:(lia)) as Hd. pose proof (N.mod_lt x 0x400 ltac:(lia)) as Hm.
    destruct (N.ltb_spec (x mod 0x400) 0x3FF) as [Hl|Hl].
    + unfold utf16_units. rewrite (proj2 (N.ltb_ge (cp + 1) _)) by lia.
      replace (cp + 1 - 0x10000)%N with (x + 1)%N by lia.
      assert ((x + 1) / 0x400 = x / 0x400 /\ (x + 1) mod 0x400 = x mod 0x400 + 1)%N as [-> ->].
      { split; [symmetry; apply (N.div_unique _ _ _ (x mod 0x400 + 1)); lia|symmetry; apply (N.mod_unique _ _ (x / 0x400)); lia]. }
      cbn [app]. change (?a :: ?b :: ?c) with ([a] ++ b :: c). rewrite str_ltb_app. apply str_ltb_head. lia.
    + apply str_ltb_head. assert (x / 0x400 < 0x400)%N by (apply N.Div0.div_lt_upper_bound; lia). lia.
  - rewrite (proj2 (N.ltb_lt _ _) Hc). destruct (N.eqb_spec cp 0xD7FF) as [->|Hd]; [by apply str_ltb_head|].
    unfold utf16_units. rewrite (proj2 (N.ltb_lt (cp + 1) _)) by lia. apply str_ltb_head. lia.
Qed.

Lemma successor_above r t :
  wf_str r = true ->
  match successor_of r with
  | Some s => str_ltb (utf16 (reverse r ++ t)) (utf16 s) = true
  | None => Forall (fun c => c = 0xFFFF%N) r
  end.
Proof.
  revert t. induction r as [|cp rest IH]; intros t Hp; [by constructor|]. cbn [successor_of]. cbn in Hp.
  apply andb_true_iff in Hp as [Hc Hr]. rewrite reverse_cons, <- app_assoc.
  destruct (N.eqb_spec cp 0xFFFF) as [->|Hne].
  - specialize (IH ([0xFFFF%N] ++ t) Hr). destruct (successor_of rest); [done|]. by apply Forall_cons.
  - cbv zeta. rewrite !utf16_app, str_ltb_app. unfold utf16 at 1 3. rewrite !bind_singleton. by apply replacement_above.
Qed.

(** Every key with the prefix lies below the bound, in the order of UTF-16 units
    in which the browser sorts its keys; there is no bound exactly when the
    prefix consists of the last character of that order. *)
Theorem prefix_successor_bounds p k :
  wf_str p = true -> starts_with p k = true ->
  match prefix_successor p with
  | Some s => str_ltb (utf16 k) (utf16 s) = true
  | None => Forall (fun c => c = 0xFFFF%N) p
  end.
Proof.
  intros Hp (t & ->)%starts_with_spec. unfold prefix_successor.
  assert (wf_str (reverse p) = true) as Hr.
  { unfold wf_str in *. rewrite forallb_forall in *. intros c Hc. apply Hp.
    by apply list_elem_of_In, elem_of_reverse, list_elem_of_In. }
  pose proof (successor_above (reverse p) t Hr) as H. rewrite reverse_involutive in H.
  destruct (successor_of _); [done|]. by rewrite Forall_reverse in H.
Qed.

Lemma prefix_successor_bounds_witness :
  prefix_successor (lit "memories/") = Some (lit "memories0") /\
  str_ltb (utf16 (lit "memories/id")) (utf16 (lit "memories0")) = true.
Proof.
  split; [vm_compute; reflexivity|].
  exact (prefix_successor_bounds (lit "memories/") (lit "memories/id") ltac:(vm_compute; reflexivity) ltac:(vm_compute; reflexivity)).
Defined.

(** ** What the commands do *)

Lemma elem_keys_where (keep : Row -> bool) (p : str) (m : Rows) (k : str) :
  k ∈ keys_where keep p m <-> starts_with p k = true /\ exists r, m !! k = Some r /\ keep r = true.
Proof.
  unfold keys_where. rewrite list_elem_of_In, filter_In, <- list_elem_of_In, list_elem_of_fmap. split.
  - intros [([k' r] & -> & Hr%elem_of_map_to_list%map_lookup_filter_Some) Hp]. split; [done|]. by exists r.
  - intros [Hp (r & Hm & Hk)]. split; [|done]. exists (k, r). split; [done|].
    by apply elem_of_map_to_list, map_lookup_filter_Some.
Qed.

Lemma nodup_filter {A} (f : A -> bool) (l : list A) : NoDup l -> NoDup (List.filter f l).
Proof.
  induction 1 as [|x l Hx _ IH]; [constructor|]. cbn. destruct (f x); [|done]. constructor; [|done].
  intros Hin. apply Hx. by apply list_elem_of_In, filter_In in Hin as [Hin%list_elem_of_In _].
Qed.

Lemma nodup_keys_where (keep : Row -> bool) (p : str) (m : Rows) : NoDup (keys_where keep p m).
Proof. apply nodup_filter, NoDup_fst_map_to_list. Qed.

Lemma foldr_delete (m : Rows) (ks : list str) (k : str) : foldr delete m ks !! k = if bool_decide (k ∈ ks) then None else m !! k.
Proof.
  induction ks as [|x ks IH]; [done|]. cbn [foldr]. destruct (decide (x = k)) as [->|Hne].
  - rewrite lookup_delete_eq. by rewrite bool_decide_true by set_solver.
  - rewrite lookup_delete_ne, IH by done. rewrite (bool_decide_ext (k ∈ x :: ks) (k ∈ ks)); [done|set_solver].
Qed.

Lemma expired_later t t' e : t <= t' -> is_expired t e = true -> is_expired t' e = true.
Proof. destruct e as [a|]; [cbn|done]. rewrite !Z.leb_le. lia. Qed.

Section Commands.
Context {S : Type} (rows : S -> Rows) (set_rows : Rows -> S -> S).
Hypothesis rows_set : forall t s, rows (set_rows t s) = t.

Lemma command_cases {A} (f : Z -> Rows -> result A MemoryError * Rows) w n s r s' n' :
  command rows set_rows f w n s = (r, s', n') ->
  (r = Err (internal "storage") /\ s' = others (w n) s) \/
  (exists t, f (clock (w n)) (rows (others (w n) s)) = (r, t) /\ s' = set_rows t (others (w n) s)).
Proof using.
  unfold command. destruct (fault (w n)); [intros [= <- <- _]; by left|].
  destruct (f _ _) as [x t] eqn:E. intros [= <- <- _]. right. eauto.
Qed.

Lemma command_quiet {A} (f : Z -> Rows -> result A MemoryError * Rows) t n s :
  command rows set_rows f (quiet t) n s = let '(r, x) := f t (rows s) in (r, set_rows x s, Datatypes.S n).
Proof using. done. Qed.

(** Whatever the others do between the scan and the removal, the sweep only
    removes rows whose time had come when it read the clock. *)
Theorem sweep_keeps_fresh_rows w n s r s' n' :
  kv_sweep_expired rows set_rows w n s = (r, s', n') ->
  exists s1, (s1 = others (w n) s \/ exists s2, s1 = others (w (Datatypes.S n)) s2) /\
    forall k, rows s' !! k = rows s1 !! k \/
      exists x, rows s1 !! k = Some x /\ row_expired (clock (w n)) x = true /\ rows s' !! k = None.
Proof using rows_set.
  intros [(e & Hc & ->)|([now ks] & s1 & n1 & Hc & Hr)]%bind_cases.
  - exists (others (w n) s). split; [by left|]. intros k. left.
    apply command_cases in Hc as [[_ ->]|(t & [=] & _)]; done.
  - unfold command in Hc. destruct (fault (w n)); [done|]. injection Hc as Hnow Hks <- <-. cbn [fst snd] in Hr.
    destruct (is_empty ks).
    + injection Hr as <- <- _. exists (others (w n) s). split; [by left|]. intros k. left. by rewrite rows_set.
    + apply command_cases in Hr. exists (others (w (Datatypes.S n)) (set_rows (rows (others (w n) s)) (others (w n) s))).
      split; [right; by eexists|]. intros k. destruct Hr as [[_ ->]|(t & [= _ <-] & ->)]; [by left|].
      rewrite rows_set, foldr_delete. case_bool_decide as Hin; [|by left]. right.
      apply list_elem_of_In, filter_In in Hin as [_ He]. unfold still_expired in He.
      destruct (rows _ !! k) as [x|]; [|done]. exists x. by rewrite Hnow.
Qed.
End Commands.

Lemma sweep_keeps_fresh_rows_witness :
  let m : Rows := <[lit "a" := Stored (Some 5) (Some VNull)]> (<[lit "b" := Stored None (Some VNull)]> ∅) in
  exists s' n', kv_sweep_expired (fun t => t) (fun t _ => t) (quiet 5) 0%nat m = (Ok 1%nat, s', n') /\
    s' !! lit "b" = m !! lit "b".
Proof.
  intros m. eexists _, _. split; [vm_compute; reflexivity|].
  edestruct (sweep_keeps_fresh_rows (fun t : Rows => t) (fun t _ => t) (fun _ _ => eq_refl) (quiet 5) 0%nat m)
    as (s1 & [->|(s2 & ->)] & Hk); [vm_compute; reflexivity| |]; vm_compute; reflexivity.
Defined.

(** ** The two back ends agree *)

Inductive Command :=
| Get (key : str)
| Set_ (key : str) (v : value) (ttl : option Z)
| Delete (key : str)
| ListPrefix (prefix : str).

Inductive Answer :=
| Value (r : result (option value) MemoryError)
| Done (r : result unit MemoryError)
| Keys (r : result (list str) MemoryError).

Definition same_answer (a b : Answer) : Prop :=
  match a, b with
  | Value r, Value r' => r = r'
  | Done r, Done r' => r = r'
  | Keys (Ok l), Keys (Ok l') => l ≡ₚ l'
  | _, _ => False
  end.

Section Agreement.
Context (arrange : list str -> list str) (arrange_perm : forall l, arrange l ≡ₚ l).
Abbreviation rows := (fun t : Rows => t).
Abbreviation set_rows := (fun (t _ : Rows) => t).

(** A command that does not fail, at a time. *)
Definition answered {A} (wrap : result A MemoryError -> Answer) (m : Sql.M Rows MemoryError A) (t : Z) (s : Rows) : Answer * Rows :=
  let r := m (quiet t) 0%nat s in (wrap (result_of r), state_of r).

Definition redb_answer (c : Command) (t : Z) (s : Rows) : Answer * Rows :=
  match c with
  | Get k => answered Value (kv_get rows set_rows k) t s
  | Set_ k v ttl => answered Done (kv_set rows set_rows k v ttl) t s
  | Delete k => answered Done (kv_delete rows set_rows k) t s
  | ListPrefix p => answered Keys (kv_list_prefix rows set_rows p) t s
  end.

Definition mem_answer (c : Command) (t : Z) (s : Rows) : Answer * Rows :=
  match c with
  | Get k => answered Value (mem_get rows set_rows k) t s
  | Set_ k v ttl => answered Done (mem_set rows set_rows k v ttl) t s
  | Delete k => answered Done (mem_delete rows set_rows k) t s
  | ListPrefix p => answered Keys (mem_list_prefix rows set_rows arrange p) t s
  end.

Fixpoint answers (exec : Command -> Z -> Rows -> Answer * Rows) (cs : list (Z * Command)) (s : Rows) : list Answer :=
  match cs with
  | [] => []
  | (t, c) :: rest => let '(a, s') := exec c t s in a :: answers exec rest s'
  end.

Definition visible (t : Z) (m : Rows) (k : str) : option Row :=
  match m !! k with Some r => if row_expired t r then None else Some r | None => None end.

Definition intact (m : Rows) : Prop := forall k r, m !! k = Some r -> r <> Damaged.

(** From a time on they show the same rows. *)
Definition agree (t : Z) (m m' : Rows) : Prop :=
  (forall t' k, t <= t' -> visible t' m k = visible t' m' k) /\ intact m /\ intact m'.

Lemma visible_later t t' m k : t <= t' -> visible t m k = None -> visible t' m k = None.
Proof using.
  intros Ht. unfold visible. destruct (m !! k) as [r|]; [|done]. destruct (row_expired t r) eqn:E; [|done].
  intros _. destruct r as [|e p]; [done|]. cbn in *. by rewrite (expired_later _ _ _ Ht E).
Qed.

Lemma listed_visible t m p k :
  intact m -> k ∈ keys_where (listed t) p m <-> starts_with p k = true /\ is_Some (visible t m k).
Proof using.
  intros Hi. rewrite elem_keys_where. unfold visible, listed. split.
  - intros [Hp (r & Hr & Hl)]. split; [done|]. rewrite Hr. destruct r as [|e x]; [done|]. cbn. apply negb_true_iff in Hl as ->. done.
  - intros [Hp [r Hv]]. split; [done|]. destruct (m !! k) as [r'|] eqn:E; [|done]. exists r'. split; [done|].
    destruct r' as [|e x]; [by destruct (Hi _ _ E)|]. cbn in *. by destruct (is_expired t e).
Qed.

Lemma unexpired_visible t m p k :
  k ∈ keys_where (fun r => negb (row_expired t r)) p m <-> starts_with p k = true /\ is_Some (visible t m k).
Proof using.
  rewrite elem_keys_where. unfold visible. split.
  - intros [Hp (r & -> & Hl%negb_true_iff)]. by rewrite Hl.
  - intros [Hp [r Hv]]. split; [done|]. destruct (m !! k) as [r'|]; [|done]. exists r'. split; [done|].
    by destruct (row_expired t r').
Qed.

Lemma visible_insert t m k k' r : visible t (<[k := r]> m) k' =
  if bool_decide (k = k') then if row_expired t r then None else Some r else visible t m k'.
Proof using.
  unfold visible. case_bool_decide as E; [subst; by rewrite lookup_insert_eq|by rewrite lookup_insert_ne].
Qed.

Lemma visible_delete t m k k' : visible t (delete k m) k' = if bool_decide (k = k') then None else visible t m k'.
Proof using.
  unfold visible. case_bool_decide as E; [subst; by rewrite lookup_delete_eq|by rewrite lookup_delete_ne].
Qed.

Lemma agree_insert t m m' k r : r <> Damaged -> agree t m m' -> agree t (<[k := r]> m) (<[k := r]> m').
Proof using.
  intros Hr (Hv & Hi & Hi'). split; [|split].
  - intros t' k' Ht. rewrite !visible_insert. by rewrite Hv.
  - intros k' r' [[_ <-]|[_ Hk]]%lookup_insert_Some; [done|by eapply Hi].
  - intros k' r' [[_ <-]|[_ Hk]]%lookup_insert_Some; [done|by eapply Hi'].
Qed.

Lemma intact_delete k m : intact m -> intact (delete k m).
Proof using. intros Hi k' r [_ Hk]%lookup_delete_Some. by eapply Hi. Qed.

Lemma agree_delete t m m' k : agree t m m' -> agree t (delete k m) (delete k m').
Proof using.
  intros (Hv & Hi & Hi'). split; [|split; by apply intact_delete].
  intros t' k' Ht. rewrite !visible_delete. by rewrite Hv.
Qed.

Lemma agree_later t t' m m' : t <= t' -> agree t m m' -> agree t' m m'.
Proof using. intros Ht (Hv & Hi). split; [|done]. intros t2 k Ht2. apply Hv. lia. Qed.

(** One command keeps them in agreement and is answered alike. *)
Lemma answer_agrees c t m m' :
  agree t m m' ->
  same_answer (redb_answer c t m).1 (mem_answer c t m').1 /\ agree t (redb_answer c t m).2 (mem_answer c t m').2.
Proof using arrange_perm.
  intros Ha. destruct c as [k|k v ttl|k|p]; unfold redb_answer, mem_answer, answered, result_of, state_of.
  - unfold kv_get, mem_get, command, quiet; cbn. destruct Ha as (Hv & Hi & Hi'). pose proof (Hv t k ltac:(lia)) as Hk.
    unfold visible in Hk. destruct (m !! k) as [r|] eqn:E, (m' !! k) as [r'|] eqn:E'; cbn.
    + destruct (row_expired t r) eqn:X, (row_expired t r') eqn:X'; cbn; simplify_eq; (split; [done|]); split_and!; try done.
      * intros t' k' Ht. rewrite visible_delete. case_bool_decide; [subst k'|by apply Hv].
        symmetry. apply (visible_later t); [done|]. unfold visible. by rewrite E', X'.
      * by apply intact_delete.
    + destruct (row_expired t r) eqn:X; [|done]. cbn. split; [done|]. split_and!; [|by apply intact_delete|done].
      intros t' k' Ht. rewrite visible_delete. case_bool_decide; [subst k'|by apply Hv]. unfold visible. by rewrite E'.
    + destruct (row_expired t r') eqn:X'; [|done]. cbn. done.
    + done.
  - cbn. split; [done|]. by apply agree_insert.
  - cbn. split; [done|]. by apply agree_delete.
  - cbn. split; [|done]. rewrite merge_sort_Permutation, arrange_perm. destruct Ha as (Hv & Hi & Hi').
    apply NoDup_Permutation; [apply nodup_keys_where..|]. intros k.
    rewrite listed_visible, unexpired_visible by done. by rewrite Hv.
Qed.

(** Whatever is asked of them, the native store and the hash map give the same
    answers, as long as the clock does not go back: the same values, and the same
    keys in some order. *)
Theorem backends_agree cs :
  StronglySorted (fun a b => fst a <= fst b) cs ->
  Forall2 same_answer (answers redb_answer cs ∅) (answers mem_answer cs ∅).
Proof using arrange_perm.
  intros Hs. assert (forall t m m', agree t m m' -> Forall (fun tc => t <= fst tc) cs ->
    Forall2 same_answer (answers redb_answer cs m) (answers mem_answer cs m')) as H.
  { induction cs as [|[t c] cs IH]; intros t0 m m' Ha Ht; [constructor|].
    apply StronglySorted_inv in Hs as [Hs Hf]. apply Forall_cons in Ht as [Ht _]. cbn in Ht.
    destruct (answer_agrees c t m m' (agree_later _ _ _ _ Ht Ha)) as [Hx Hm].
    cbn [answers]. destruct (redb_answer c t m) as [a m1], (mem_answer c t m') as [b m1']. cbn in Hx, Hm.
    constructor; [done|]. by eapply IH. }
  destruct cs as [|[t c] cs]; [constructor|]. apply (H t).
  - split; [done|]. split; by intros k r; rewrite lookup_empty.
  - apply StronglySorted_inv in Hs as [_ Hf]. by constructor.
Qed.
End Agreement.

Lemma backends_agree_witness :
  let cs := [(1, Set_ (lit "a") VNull (Some 5)); (2, Set_ (lit "b") (VBool true) None); (3, ListPrefix []); (6, Get (lit "a")); (7, ListPrefix [])] in
  answers redb_answer cs ∅ = [Done (Ok tt); Done (Ok tt); Keys (Ok [lit "a"; lit "b"]); Value (Ok None); Keys (Ok [lit "b"])] /\
  Forall2 same_answer (answers redb_answer cs ∅) (answers (mem_answer reverse) cs ∅).
Proof.
  intros cs. split; [vm_compute; reflexivity|].
  apply (backends_agree reverse reverse_Permutation cs). repeat constructor; cbn; lia.
Defined.
