(* ===== verification/Runs.v ===== *)
(** * Reasoning about commands of which some fail

    [runs b m s Q]: when nobody interferes and at most [b] of its commands fail
    ([None]: any number), [m] from the state [s] ends as [Q] says.  [yields] is the
    form for an invariant of the state.  Rows are read without looking at the clock,
    since the agent writes rows that do not expire. *)

From stdpp Require Import sorting.
From S2P Require Import Prelude JsonValue Messages Sql Kv.

Open Scope string_scope.
Open Scope list_scope.
Open Scope Z_scope.
Open Scope sql_scope.

(** ** Rows that do not expire *)

(** The agent writes rows without an expiry. *)
Definition permanent (t : Rows) : Prop := forall k r, t !! k = Some r -> match r with Stored (Some _) _ => False | _ => True end.

Definition row_at (t : Rows) (key : str) : result (option value) MemoryError :=
  match t !! key with None => Ok None | Some r => row_value r end.

Definition stored (v : value) : Row := Stored None (Some v).

Lemma row_at_stored t key v : t !! key = Some (stored v) -> row_at t key = Ok (Some v).
Proof. unfold row_at. by intros ->. Qed.

Lemma permanent_insert t key v : permanent t -> permanent (<[key := stored v]> t).
Proof. intros Hp k r [[_ <-]|[_ Hk]]%lookup_insert_Some; [done|by eapply Hp]. Qed.

Lemma permanent_delete t key : permanent t -> permanent (delete key t).
Proof. intros Hp k r [_ Hk]%lookup_delete_Some. by eapply Hp. Qed.

#[export] Hint Resolve permanent_insert permanent_delete : ains.

(** A read of a table whose rows do not expire. *)
Lemma get_permanent {S : Type} (rows : S -> Rows) (set_rows : Rows -> S -> S) key w n s :
  (forall s, set_rows (rows s) s = s) -> alone w -> permanent (rows s) ->
  kv_get rows set_rows key w n s =
    (if fault (w n) then Err (internal "storage") else match rows s !! key with None => Ok None | Some r => row_value r end, s, Datatypes.S n).
Proof using.
  intros Hset Hw Hp. unfold kv_get, command. cbv zeta. rewrite !Hw. destruct (fault (w n)); [done|].
  destruct (rows s !! key) as [r|] eqn:E; cbn; [|by rewrite Hset]. specialize (Hp _ _ E).
  assert (row_expired (clock (w n)) r = false) as -> by by destruct r as [|[]]. by rewrite Hset.
Qed.


Lemma command_counts {S A : Type} (rows : S -> Rows) (set_rows : Rows -> S -> S) (f : Z -> Rows -> result A MemoryError * Rows) w n s r s' n' :
  command rows set_rows f w n s = (r, s', n') -> n' = Datatypes.S n.
Proof using. unfold command. destruct (fault (w n)); [by intros [= _ _ <-]|]. destruct (f _ _). by intros [= _ _ <-]. Qed.

(** ** Budgets of failures *)

Section Runs.
Context {S : Type}.
Abbreviation M := (Sql.M S MemoryError).
Abbreviation budget := (option nat) (only parsing).

Definition storage_failure : MemoryError := internal "storage".

(** From moment [n] on, at most as many commands fail. *)
Definition within (w : nat -> moment S) (n : nat) (b : budget) : Prop :=
  match b with
  | None => True
  | Some k => exists l : list nat, (length l <= k)%nat /\ forall m, (n <= m)%nat -> fault (w m) = true -> m ∈ l
  end.

Definition spend (b : budget) : budget := match b with Some (Datatypes.S k) => Some k | other => other end.

Lemma within_later w n n' b : (n <= n')%nat -> within w n b -> within w n' b.
Proof using. intros Hn. destruct b as [k|]; [|done]. intros (l & Hl & Hf). exists l. split; [done|]. intros m Hm. apply Hf. lia. Qed.

Lemma within_fault w n b : within w n b -> fault (w n) = true -> b <> Some 0%nat /\ within w (Datatypes.S n) (spend b).
Proof using.
  destruct b as [k|]; [|done]. intros (l & Hl & Hf) Hn. assert (n ∈ l) as Hin by by apply Hf.
  assert (length (filter (fun m => m <> n) l) < length l)%nat as Hlt.
  { apply list_elem_of_split in Hin as (l1 & l2 & ->). rewrite filter_app, filter_cons_False by (intros E; by apply E).
    rewrite !length_app. cbn. pose proof (length_filter (fun m => m <> n) l1). pose proof (length_filter (fun m => m <> n) l2). lia. }
  destruct k as [|k]; [lia|]. split; [done|]. exists (filter (fun m => m <> n) l). split; [lia|].
  intros m Hm Hfm. apply list_elem_of_filter. split; [lia|]. apply Hf; [lia|done].
Qed.

Definition runs {A} (b : budget) (m : M A) (s : S) (Q : budget -> result A MemoryError -> S -> Prop) : Prop :=
  forall w n r s' n', alone w -> within w n b -> m w n s = (r, s', n') -> exists b', within w n' b' /\ Q b' r s'.

Lemma runs_weaken {A} b (m : M A) s (Q R : budget -> result A MemoryError -> S -> Prop) :
  runs b m s Q -> (forall b' r s', Q b' r s' -> R b' r s') -> runs b m s R.
Proof using. intros Hm Hw w n r s' n' Ha Hb E. destruct (Hm w n r s' n' Ha Hb E) as (b' & ? & ?). eauto. Qed.

Lemma runs_ret {A} b (a : A) s Q : Q b (Ok a) s -> runs b (ret a) s Q.
Proof using. intros HQ w n r s' n' Ha Hb [= <- <- <-]. eauto. Qed.

Lemma runs_fail {A} b e s (Q : budget -> result A MemoryError -> S -> Prop) : Q b (Err e) s -> runs b (fail e) s Q.
Proof using. intros HQ w n r s' n' Ha Hb [= <- <- <-]. eauto. Qed.

Lemma runs_lift {A} b (x : result A MemoryError) s Q : Q b x s -> runs b (lift x) s Q.
Proof using. intros HQ w n r s' n' Ha Hb [= <- <- <-]. eauto. Qed.

Lemma runs_bind {A B} b (m : M A) (k : A -> M B) s (Q : budget -> result B MemoryError -> S -> Prop) :
  runs b m s (fun b' r s' => match r with Ok a => runs b' (k a) s' Q | Err e => Q b' (Err e) s' end) -> runs b (bind m k) s Q.
Proof using.
  intros Hm w n r s' n' Ha Hb. unfold bind. destruct (m w n s) as [[x s1] n1] eqn:E.
  destruct (Hm w n x s1 n1 Ha Hb E) as (b' & Hb' & HQ). destruct x as [a|e]; [by apply HQ|]. intros [= <- <- <-]. eauto.
Qed.

Lemma runs_tried {A} b (m : M A) s (Q : budget -> result (result A MemoryError) MemoryError -> S -> Prop) :
  runs b m s (fun b' r s' => Q b' (Ok r) s') -> runs b (tried m) s Q.
Proof using.
  intros Hm w n r s' n' Ha Hb. unfold tried. destruct (m w n s) as [[x s1] n1] eqn:E. intros [= <- <- <-]. by eapply Hm.
Qed.

Lemma runs_clock {A} b (k : Z -> M A) s Q : (forall now, runs b (k now) s Q) -> runs b (with_clock k) s Q.
Proof using. intros Hk w n. apply Hk. Qed.

(** A command: it works, or one failure of the budget is spent. *)
Lemma runs_command {A : Type} (rows : S -> Rows) (set_rows : Rows -> S -> S) (f : Z -> Rows -> result A MemoryError * Rows) (b : budget) (s : S) Q :
  (forall now, Q b (f now (rows s)).1 (set_rows (f now (rows s)).2 s)) ->
  (b <> Some 0%nat -> Q (spend b) (Err storage_failure) s) ->
  runs b (command rows set_rows f) s Q.
Proof using.
  intros Hok Hf w n r s' n' Ha Hb. unfold command. cbv zeta. rewrite !Ha. destruct (fault (w n)) eqn:E.
  - destruct (within_fault w n b Hb E) as [Hb0 Hb']. intros [= <- <- <-]. eauto.
  - specialize (Hok (clock (w n))). destruct (f (clock (w n)) (rows s)) as [x t]. cbn in Hok. intros [= <- <- <-].
    exists b. split; [|done]. by apply (within_later w n); [lia|].
Qed.

Lemma read_permanent now t key : permanent t ->
  match t !! key with None => (Ok None, t) | Some r => if row_expired now r then (Ok None, delete key t) else (row_value r, t) end
  = (row_at t key, t).
Proof using.
  intros Hp. unfold row_at. destruct (t !! key) as [r|] eqn:E; [|done]. specialize (Hp _ _ E). by destruct r as [|[]].
Qed.

(** Reading a table whose rows do not expire. *)
Lemma runs_get (rows : S -> Rows) (set_rows : Rows -> S -> S) b key s Q :
  (forall s, set_rows (rows s) s = s) -> permanent (rows s) ->
  Q b (row_at (rows s) key) s -> (b <> Some 0%nat -> Q (spend b) (Err storage_failure) s) -> runs b (kv_get rows set_rows key) s Q.
Proof using.
  intros Hset Hp Hok Hf. apply runs_command; [|done]. intros now. rewrite read_permanent by done. cbn. by rewrite Hset.
Qed.

Lemma runs_set (rows : S -> Rows) (set_rows : Rows -> S -> S) b key v s Q :
  Q b (Ok tt) (set_rows (<[key := stored v]> (rows s)) s) -> (b <> Some 0%nat -> Q (spend b) (Err storage_failure) s) ->
  runs b (kv_set rows set_rows key v None) s Q.
Proof using. intros Hok Hf. by apply runs_command. Qed.

Lemma runs_delete (rows : S -> Rows) (set_rows : Rows -> S -> S) b key s Q :
  Q b (Ok tt) (set_rows (delete key (rows s)) s) -> (b <> Some 0%nat -> Q (spend b) (Err storage_failure) s) ->
  runs b (kv_delete rows set_rows key) s Q.
Proof using. intros Hok Hf. by apply runs_command. Qed.

Lemma runs_list (rows : S -> Rows) (set_rows : Rows -> S -> S) b prefix s Q :
  (forall s, set_rows (rows s) s = s) ->
  (forall keys, NoDup keys -> (forall k, k ∈ keys -> starts_with prefix k = true /\ is_Some (rows s !! k)) -> Q b (Ok keys) s) ->
  (b <> Some 0%nat -> Q (spend b) (Err storage_failure) s) -> runs b (kv_list_prefix rows set_rows prefix) s Q.
Proof using.
  intros Hset Hok Hf. apply runs_command; [|done]. intros now. cbn. rewrite Hset. apply Hok.
  - rewrite merge_sort_Permutation. apply nodup_keys_where.
  - intros k. rewrite merge_sort_Permutation, elem_keys_where. intros (? & r & ? & _). split; [done|by eexists].
Qed.
End Runs.

Lemma row_at_error t key e : row_at t key = Err e -> exists m, e = Serialization m.
Proof using. unfold row_at, row_value. destruct (t !! key) as [[|x [v|]]|]; try done; intros [= <-]; by eexists. Qed.

(** ** Invariants of the state *)

Section Yields.
Context {S : Type} {inv : S -> Prop}.
Abbreviation M := (Sql.M S MemoryError).

(** [m] keeps the invariant, whatever fails, and answers as [Q] says. *)
Definition yields {A} (m : M A) (Q : A -> Prop) : Prop :=
  forall s, inv s -> runs None m s (fun _ r s' => inv s' /\ match r with Ok a => Q a | Err _ => True end).

Lemma yields_weaken {A} (m : M A) (Q R : A -> Prop) : yields m Q -> (forall a, Q a -> R a) -> yields m R.
Proof using. intros Hm HQ s Hs. eapply runs_weaken; [by apply Hm|]. intros _ [a|e] s' [? ?]; auto. Qed.

Lemma yields_ret {A} (a : A) (Q : A -> Prop) : Q a -> yields (ret a) Q.
Proof using. intros HQ s Hs. by apply runs_ret. Qed.

Lemma yields_fail {A} e (Q : A -> Prop) : yields (fail e) Q.
Proof using. intros s Hs. by apply runs_fail. Qed.

Lemma yields_lift {A} (x : result A MemoryError) (Q : A -> Prop) : (forall a, x = Ok a -> Q a) -> yields (lift x) Q.
Proof using. intros HQ s Hs. apply runs_lift. split; [done|]. destruct x; auto. Qed.

Lemma yields_some {A} (o : option A) e (Q : A -> Prop) : (forall a, o = Some a -> Q a) -> yields (some_or o e) Q.
Proof using. intros HQ. destruct o; [by apply yields_ret, HQ|apply yields_fail]. Qed.

Lemma yields_bind {A B} (m : M A) (k : A -> M B) (Q : A -> Prop) (R : B -> Prop) :
  yields m Q -> (forall a, Q a -> yields (k a) R) -> yields (bind m k) R.
Proof using.
  intros Hm Hk s Hs. apply runs_bind. eapply runs_weaken; [by apply Hm|]. intros b [a|e] s' [Hs' HQ]; [|done].
  intros w n r s'' n' Ha _. by apply (Hk a HQ s' Hs' w n).
Qed.

Lemma yields_tried {A} (m : M A) (Q : A -> Prop) : yields m Q -> yields (tried m) (fun r => match r with Ok a => Q a | Err _ => True end).
Proof using. intros Hm s Hs. by apply runs_tried, Hm. Qed.

Lemma yields_clock {A} (k : Z -> M A) (Q : A -> Prop) : (forall now, yields (k now) Q) -> yields (with_clock k) Q.
Proof using. intros Hk s Hs. apply runs_clock. intros now. by apply Hk. Qed.
End Yields.
Arguments yields {S} inv {A} m Q.
