(* ===== verification/Extract.v ===== *)
(** * Records of memory and what they are extracted from ([memory/extract.rs],
    [prompts/memory.rs], the record types of [memory/memdir.rs])

    The conversation as a transcript for the extraction model, the lenient reading
    of its answer, and the checkpoint of a session with its budget.  Reading JSON is
    the interface [JsonText]. *)

From Stdlib Require Import SpecFloat.
From S2P Require Import Prelude JsonValue Messages Kv.

Open Scope string_scope.
Open Scope list_scope.
Open Scope nat_scope.

(** ** Records *)

Module MemoryType.
Inductive t := User | Feedback | Project | Reference.
End MemoryType.

Module MemoryScope.
Inductive t := Private | Project | Team.
End MemoryScope.

#[export] Instance memory_type_eq_dec : EqDecision MemoryType.t.
Proof. solve_decision. Defined.
#[export] Instance memory_scope_eq_dec : EqDecision MemoryScope.t.
Proof. solve_decision. Defined.

Definition memory_type_str (t : MemoryType.t) : str :=
  match t with
  | MemoryType.User => lit "user"
  | MemoryType.Feedback => lit "feedback"
  | MemoryType.Project => lit "project"
  | MemoryType.Reference => lit "reference"
  end.

Definition scope_str (s : MemoryScope.t) : str :=
  match s with
  | MemoryScope.Private => lit "private"
  | MemoryScope.Project => lit "project"
  | MemoryScope.Team => lit "team"
  end.

Record NewMemoryEntry := {
  title : str; body : str; description : str; memory_type : MemoryType.t; scope : MemoryScope.t; importance : f64;
  source : str; ttl_days : Z; tags : list str
}.

Section Parsing.
Context `{Unicode}.

Definition is_one_of (s : str) (words : list string) : bool := existsb (fun x => str_eqb s (lit x)) words.

Definition parse_type_lenient (raw : str) : MemoryType.t :=
  let s := to_lowercase (trim raw) in
  if is_one_of s ["user"] then MemoryType.User
  else if is_one_of s ["feedback"] then MemoryType.Feedback
  else if is_one_of s ["reference"] then MemoryType.Reference
  else MemoryType.Project.

Definition parse_scope_lenient (raw : str) : MemoryScope.t :=
  let s := to_lowercase (trim raw) in
  if is_one_of s ["private"; "personal"; "user"] then MemoryScope.Private
  else if is_one_of s ["team"; "shared"] then MemoryScope.Team
  else MemoryScope.Project.

(** *** The answer of the model *)

(** [str::rfind] of a character. *)
Definition rfind_char (c : char) (s : str) : option nat := (fun i => length s - 1 - i) <$> find [c] (reverse s).

Definition find_map {A B} (f : A -> option B) (l : list A) : option B := head (omap f l).

Definition record_field (record : value) (keys : list string) : str :=
  trim (default [] (find_map (fun k => get_str k record) keys)).

Definition record_of_value (record : value) : option NewMemoryEntry :=
  let body := record_field record ["content"; "body"; "text"] in
  if is_empty body then None
  else
    let t := record_field record ["title"; "name"] in
    Some {| title := if is_empty t then take 60 body else t;
            body := body;
            description := record_field record ["description"];
            memory_type := parse_type_lenient (record_field record ["type"]);
            scope := parse_scope_lenient (record_field record ["scope"]);
            importance := default f64_one (get "importance" record ≫= as_f64);
            source := lit "memory_extract";
            ttl_days := default 0%Z (get "ttl_days" record ≫= i64_of_value);
            tags := omap as_str (default [] (get_array "tags" record)) |}.

(** From the first opening brace to the last closing one. *)
Definition braced (response : str) : option str :=
  start ← find (lit "{") response;
  stop ← rfind_char 125%N response;
  if (stop <? start)%nat then None else Some (take (S stop - start) (drop start response)).

Definition parse_memory_records `{JsonText} (response : str) : list NewMemoryEntry :=
  omap record_of_value (default [] (x ← braced response; v ← of_text x; get_array "memories" v)).
End Parsing.

(** ** Ages *)

Definition DAY : Z := (24 * 3600 * 1000)%Z.

(** The subtraction wraps in a release build. *)
Definition format_age (updated_ms now_ms : Z) : str :=
  let days := (Z.max (i64_of_u64 (now_ms - updated_ms)) 0 / DAY)%Z in
  if (days =? 0)%Z then lit "today" else show_Z days ++ lit "d".

(** ** Conversations *)

Section Conversation.
Context {J : Json}.

Definition TRANSCRIPT_MAX_MESSAGES : nat := 12.
Definition TRANSCRIPT_MESSAGE_CHAR_CAP : nat := 1200.

Definition role_name (r : Role) : str := match r with User => lit "user" | Assistant => lit "assistant" end.

(** The last [n] elements. *)
Definition last_n {A} (n : nat) (l : list A) : list A := drop (length l - n) l.

Definition transcript_line (m : ConversationMessage) : str :=
  let role := role_name (role m) in
  if negb (is_empty (trim (text m))) then role ++ lit ": " ++ trim (take TRANSCRIPT_MESSAGE_CHAR_CAP (text m))
  else
    let tool_names := name <$> tool_uses m in
    if negb (is_empty tool_names) then role ++ lit ": tool calls -> " ++ join (lit ", ") tool_names
    else role ++ lit ": [non-text content]".

Definition format_transcript (messages : list ConversationMessage) : str :=
  join [newline] (transcript_line <$> last_n TRANSCRIPT_MAX_MESSAGES messages).

(** *** Checkpoints *)

Record SessionCheckpoint := {
  current_state : str; next_step : option str; verified_work : list str; checkpoint_artifacts : list str
}.

Definition checkpoint_default : SessionCheckpoint :=
  {| current_state := []; next_step := None; verified_work := []; checkpoint_artifacts := [] |}.

Definition MAX_SESSION_MEMORY_CHARS : nat := N.to_nat 12000.
Definition MAX_RECENT_LINES : nat := 80.
Definition SESSION_TRUNCATION_MARKER : str :=
  [newline; newline] ++ lit "> Session memory was truncated to stay within budget." ++ [newline].

Definition bullet (item : str) : str := lit "- " ++ item ++ [newline].

Definition is_text (b : ContentBlock) : bool := match b with Text _ => true | _ => false end.

Definition recent_line (m : ConversationMessage) : option str :=
  let role := role_name (role m) in
  if negb (is_empty (trim (text m))) then Some (lit "- " ++ role ++ lit ": " ++ trim (take 220 (text m)))
  else
    let names := take 6 (name <$> tool_uses m) in
    if negb (is_empty names) then Some (lit "- " ++ role ++ lit ": tool calls -> " ++ join (lit ", ") names)
    else if existsb (fun b => negb (is_text b)) (content m) then Some (lit "- " ++ role ++ lit ": [non-text content]")
    else None.

Definition section (heading : string) : str := [newline] ++ lit heading ++ [newline].

Definition session_document (checkpoint : SessionCheckpoint) (messages : list ConversationMessage) : str :=
  lit "# Session Memory" ++ [newline; newline] ++ lit "## Current State" ++ [newline] ++
  trim (current_state checkpoint) ++ [newline] ++
  (match next_step checkpoint with
   | Some step => if is_empty (trim step) then [] else section "## Next Step" ++ trim step ++ [newline]
   | None => []
   end) ++
  (if is_empty (verified_work checkpoint) then []
   else section "## Verified Work" ++ concat ((fun i => bullet (trim i)) <$> verified_work checkpoint)) ++
  (if is_empty (checkpoint_artifacts checkpoint) then []
   else section "## Active Artifacts" ++ concat ((fun i => bullet (trim i)) <$> last_n 10 (checkpoint_artifacts checkpoint))) ++
  section "## Recent Conversation" ++
  concat ((fun l => l ++ [newline]) <$> last_n MAX_RECENT_LINES (omap recent_line messages)).

(** The marker is ASCII: its bytes are its characters. *)
Definition build_session_memory (checkpoint : SessionCheckpoint) (messages : list ConversationMessage) : str :=
  let doc := session_document checkpoint messages in
  if (MAX_SESSION_MEMORY_CHARS <? length doc)%nat
  then trim_end (take (MAX_SESSION_MEMORY_CHARS - N.to_nat (utf8_len SESSION_TRUNCATION_MARKER)) doc) ++ SESSION_TRUNCATION_MARKER
  else doc.
End Conversation.

(** ** The requests to the extraction model *)

(** A literal in which the quotation marks are written as apostrophes. *)
Definition quoted (s : string) : str := replace_char 39%N [dquote] (lit s).

Definition EXTRACTION_SYSTEM_PROMPT : str :=
  lit "You maintain Harness durable memory." ++ [newline] ++
  lit "Save only stable, future-useful facts that are not derivable from current files," ++ [newline] ++
  lit "git history, or documentation. Prefer updating existing memories conceptually" ++ [newline] ++
  lit "over duplicating them. Do not save secrets. If nothing is worth saving, return" ++ [newline] ++
  quoted "{'memories': []}." ++ [newline].

Definition extraction_request (schema : string) (manifest transcript : str) (max_records : Z) : str :=
  lit "Existing memory files:" ++ [newline] ++ manifest ++ [newline; newline] ++
  lit "Recent conversation:" ++ [newline] ++ transcript ++ [newline; newline] ++
  quoted schema ++ lit " with at most " ++ show_Z max_records ++ lit " records.".

Definition legacy_memory_extraction_request : str -> str -> Z -> str :=
  extraction_request "Return JSON only: {'memories': [{'title': str, 'content': str, 'description': str, 'type': 'user|feedback|project|reference', 'scope': 'private|project|team'}]}".

Definition durable_memory_extraction_request : str -> str -> Z -> str :=
  extraction_request "Return JSON only: {'memories': [{'title': str, 'content': str, 'description': str, 'type': 'user|feedback|project|reference', 'scope': 'private|project|team', 'importance': float, 'ttl_days': int, 'tags': [str]}]}".

(** ** Facts *)

Lemma trim_end_length s : length (trim_end s) <= length s.
Proof.
  unfold trim_end. rewrite length_reverse. etransitivity; [|by rewrite <- (length_reverse s)].
  destruct (drop_while_suffix is_whitespace (reverse s)) as (l & E & _). rewrite E at 2. rewrite length_app. lia.
Qed.

(** A checkpoint stays within its budget, whatever the conversation holds. *)
Lemma checkpoint_within_budget {J : Json} checkpoint messages :
  length (build_session_memory checkpoint messages) <= MAX_SESSION_MEMORY_CHARS.
Proof.
  unfold build_session_memory. cbv zeta. destruct (Nat.ltb_spec MAX_SESSION_MEMORY_CHARS (length (session_document checkpoint messages))); [|done].
  rewrite length_app. set (d := take _ _). pose proof (trim_end_length d) as Ht.
  assert (length d <= MAX_SESSION_MEMORY_CHARS - N.to_nat (utf8_len SESSION_TRUNCATION_MARKER)) as Hd by apply firstn_le_length.
  assert (N.to_nat (utf8_len SESSION_TRUNCATION_MARKER) = length SESSION_TRUNCATION_MARKER) as Em by (vm_compute; reflexivity).
  assert (length SESSION_TRUNCATION_MARKER <= 100) by (apply Nat.leb_le; vm_compute; reflexivity). unfold MAX_SESSION_MEMORY_CHARS in *. lia.
Qed.

(** What is read from the answer has a body. *)
Lemma record_has_body `{Unicode} v record : record_of_value v = Some record -> body record <> [] /\ source record = lit "memory_extract".
Proof.
  unfold record_of_value. cbv zeta. destruct (is_empty (record_field v _)) eqn:E; [done|]. intros [= <-]. cbn. split; [|done]. by apply is_empty_false.
Qed.

Example memory_records_are_read :
  let _ := ascii_tables in
  let _ := small_json_text in
  (fun r => (title r, memory_type r, scope r)) <$>
    omap record_of_value [json [("content", vstr " Use tabs. "); ("type", vstr "Feedback"); ("scope", vstr "SHARED")]; json [("title", vstr "No body")]]
  = [(lit "Use tabs.", MemoryType.Feedback, MemoryScope.Team)].
Proof. vm_compute. reflexivity. Qed.
