(* ===== verification/Calendar.v ===== *)
(** * Dates ([memory/memdir.rs], [tools/compute.rs])

    Milliseconds since 1970 as text in UTC and back, with the calendar computed by
    hand.  The dates are those of the proleptic Gregorian calendar
    ([next_day]); text and number convert into each other without loss, and the text
    of a later instant is greater as text. *)

From S2P Require Import Prelude JsonValue Kv.

Open Scope string_scope.
Open Scope list_scope.
Open Scope Z_scope.

(** ** The calendar *)

Definition days_in_month (year month : Z) : Z :=
  if (month =? 2) then
    if (year mod 400 =? 0) || (year mod 4 =? 0) && negb (year mod 100 =? 0) then 29 else 28
  else if existsb (Z.eqb month) [1; 3; 5; 7; 8; 10; 12] then 31
  else if existsb (Z.eqb month) [4; 6; 9; 11] then 30
  else 0.

(** Divisions that round towards zero are of numbers that are not negative. *)
Definition civil_from_days (z : Z) : Z * Z * Z :=
  let z := z + 719468 in
  let era := z / 146097 in
  let doe := z mod 146097 in
  let yoe := (doe - doe / 1460 + doe / 36524 - doe / 146096) / 365 in
  let y := yoe + era * 400 in
  let doy := doe - (365 * yoe + yoe / 4 - yoe / 100) in
  let mp := (5 * doy + 2) / 153 in
  let d := doy - (153 * mp + 2) / 5 + 1 in
  let m := if mp <? 10 then mp + 3 else mp - 9 in
  (if m <=? 2 then y + 1 else y, m, d).

Definition days_from_civil (y m d : Z) : Z :=
  let y := if m <=? 2 then y - 1 else y in
  let era := y / 400 in
  let yoe := y mod 400 in
  let mp := if 2 <? m then m - 3 else m + 9 in
  let doy := (153 * mp + 2) / 5 + d - 1 in
  let doe := yoe * 365 + yoe / 4 - yoe / 100 + doy in
  era * 146097 + doe - 719468.

(** ** Text *)

Definition format_iso_utc (ms : Z) : str :=
  let secs := ms / 1000 in
  let days := secs / 86400 in
  let sod := secs mod 86400 in
  let '(y, m, d) := civil_from_days days in
  decimal_padded 4 y ++ lit "-" ++ decimal_padded 2 m ++ lit "-" ++ decimal_padded 2 d ++ lit "T" ++
  decimal_padded 2 (sod / 3600) ++ lit ":" ++ decimal_padded 2 (sod mod 3600 / 60) ++ lit ":" ++ decimal_padded 2 (sod mod 60) ++ lit "Z".

(** Millisecond precision, for the tool. *)
Definition format_iso_utc_millis (ms : Z) : str :=
  let seconds := format_iso_utc ms in
  let fractional_ms := ms mod 1000 in
  if fractional_ms =? 0 then seconds
  else trim_end_matches 90%N seconds ++ lit "." ++ decimal_padded 3 fractional_ms ++ lit "Z".

Definition is_ascii_digit (c : char) : bool := ((48 <=? c) && (c <=? 57))%N.

Definition is_fixed_ascii_digits (text : str) (length : N) : bool := (utf8_len text =? length)%N && forallb is_ascii_digit text.

(** [checked_add], [checked_mul] on [i64]. *)
Definition checked (z : Z) : option Z := if (- 2 ^ 63 <=? z) && (z <? 2 ^ 63) then Some z else None.

Definition within (lo hi z : Z) : bool := (lo <=? z) && (z <=? hi).

Definition parse_u32 (s : str) : option Z := Z.of_N <$> parse_unsigned (2 ^ 32 - 1) s.

Definition parse_date (date : str) : option (Z * Z * Z) :=
  match split_on 45%N date with
  | [year_text; month_text; day_text] =>
      if negb (is_fixed_ascii_digits year_text 4) || negb (is_fixed_ascii_digits month_text 2) || negb (is_fixed_ascii_digits day_text 2)
      then None
      else
        y ← parse_i64 year_text; m ← parse_u32 month_text; d ← parse_u32 day_text;
        if negb (within 1 12 m) then None
        else if negb (within 1 (days_in_month y m) d) then None
        else Some (y, m, d)
  | _ => None
  end.

(** Hours, minutes, seconds, milliseconds. *)
Definition parse_time (time : str) : option (Z * Z * Z * Z) :=
  match split_on 58%N time with
  | [hour_text; minute_text; second_text] =>
      if negb (is_fixed_ascii_digits hour_text 2) || negb (is_fixed_ascii_digits minute_text 2) then None
      else
        h ← parse_i64 hour_text; mi ← parse_i64 minute_text;
        let '(whole_second_text, fraction_text) :=
          match split_once 46%N second_text with Some (whole, fraction) => (whole, Some fraction) | None => (second_text, None) end in
        if negb (is_fixed_ascii_digits whole_second_text 2)
           || match fraction_text with
              | Some fraction => is_empty fraction || (3 <? utf8_len fraction)%N || negb (forallb is_ascii_digit fraction)
              | None => false
              end
           || negb (within 0 23 h) || negb (within 0 59 mi)
        then None
        else
          s ← parse_i64 whole_second_text;
          if negb (within 0 59 s) then None
          else
            fractional_ms ← match fraction_text with
                            | Some fraction => n ← parse_i64 fraction; Some (n * 10 ^ (3 - Z.of_N (utf8_len fraction)))
                            | None => Some 0
                            end;
            Some (h, mi, s, fractional_ms)
  | _ => None
  end.

Definition parse_iso_utc (text : str) : option Z :=
  text ← strip_suffix (lit "Z") (trim text);
  '(date, time) ← split_once 84%N text;
  '(y, m, d) ← parse_date date;
  '(h, mi, s, fractional_ms) ← parse_time time;
  days ← checked (days_from_civil y m d * 86400);
  h ← checked (h * 3600); days ← checked (days + h);
  mi ← checked (mi * 60); days ← checked (days + mi);
  whole_seconds ← checked (days + s);
  whole_ms ← checked (whole_seconds * 1000); checked (whole_ms + fractional_ms).

(** ** The calendar is the Gregorian one *)

Definition valid_date (y m d : Z) : Prop := 1 <= m <= 12 /\ 1 <= d <= days_in_month y m.

(** The day after, by the rules. *)
Definition next_day (y m d : Z) : Z * Z * Z :=
  if d <? days_in_month y m then (y, m, d + 1) else if m <? 12 then (y, m + 1, 1) else (y + 1, 1, 1).

Ltac zdiv := Z.to_euclidean_division_equations; lia.

Definition leap (year : Z) : bool := (year mod 400 =? 0) || (year mod 4 =? 0) && negb (year mod 100 =? 0).

Lemma month_cases y m : 1 <= m <= 12 ->
  days_in_month y m = (if m =? 2 then if leap y then 29 else 28 else if (m =? 4) || (m =? 6) || (m =? 9) || (m =? 11) then 30 else 31).
Proof.
  intros Hm. assert (m = 1 \/ m = 2 \/ m = 3 \/ m = 4 \/ m = 5 \/ m = 6 \/ m = 7 \/ m = 8 \/ m = 9 \/ m = 10 \/ m = 11 \/ m = 12) as H by lia.
  by repeat destruct H as [->|H]; [..|subst].
Qed.

Lemma leap_iff y : leap y = true <-> y mod 400 = 0 \/ y mod 4 = 0 /\ y mod 100 <> 0.
Proof. unfold leap. rewrite orb_true_iff, andb_true_iff, negb_true_iff, !Z.eqb_eq, Z.eqb_neq. done. Qed.

Section Era.
Context (doe : Z) (Hdoe : 0 <= doe < 146097).

Definition year_of_era : Z := (doe - doe / 1460 + doe / 36524 - doe / 146096) / 365.
Definition day_of_year : Z := doe - (365 * year_of_era + year_of_era / 4 - year_of_era / 100).

Lemma year_of_era_range : 0 <= year_of_era <= 399.
Proof using Hdoe. unfold year_of_era. zdiv. Qed.

Lemma day_of_year_range : 0 <= day_of_year <= 365.
Proof using Hdoe. unfold day_of_year, year_of_era. zdiv. Qed.

(** The last day of a year that begins in March is the 29th of February. *)
Lemma last_day_leap : day_of_year = 365 -> (year_of_era + 1) mod 4 = 0 /\ ((year_of_era + 1) mod 100 <> 0 \/ year_of_era = 399).
Proof using Hdoe. pose proof year_of_era_range. unfold day_of_year, year_of_era in *. split; zdiv. Qed.
End Era.

Lemma civil_valid z : let '(y, m, d) := civil_from_days z in valid_date y m d /\ days_from_civil y m d = z.
Proof.
  unfold civil_from_days. set (z' := z + 719468). pose proof (Z.mod_pos_bound z' 146097 ltac:(lia)) as Hdoe.
  set (doe := z' mod 146097) in *. cbv zeta. fold (year_of_era doe). fold (day_of_year doe).
  pose proof (year_of_era_range doe Hdoe) as Hy. pose proof (day_of_year_range doe Hdoe) as Hd. pose proof (last_day_leap doe Hdoe) as Hl.
  assert (doe = day_of_year doe + (365 * year_of_era doe + year_of_era doe / 4 - year_of_era doe / 100)) as Hdoy by (unfold day_of_year; lia).
  set (yoe := year_of_era doe) in *. set (doy := day_of_year doe) in *. set (mp := (5 * doy + 2) / 153).
  assert (0 <= mp <= 11) as Hmp by (unfold mp; zdiv).
  set (m := if mp <? 10 then mp + 3 else mp - 9).
  set (y := yoe + z' / 146097 * 400). set (d := doy - (153 * mp + 2) / 5 + 1).
  assert (1 <= m <= 12 /\ (if 2 <? m then m - 3 else m + 9) = mp /\ (m <=? 2) = (10 <=? mp)) as (Hm & Hmp' & Hle).
  { unfold m. destruct (Z.ltb_spec mp 10), (Z.leb_spec 10 mp); try lia;
      (split; [lia|]); (split; [destruct (Z.ltb_spec 2 (mp + 3)), (Z.ltb_spec 2 (mp - 9)); lia|]);
      [apply Z.leb_gt|apply Z.leb_le]; lia. }
  set (yy := if m <=? 2 then y + 1 else y).
  assert ((if m <=? 2 then yy - 1 else yy) = y) as Hyy by (unfold yy; destruct (m <=? 2); lia).
  assert (y / 400 = z' / 146097 /\ y mod 400 = yoe) as [He Hyoe] by (unfold y; split; zdiv).
  split.
  - split; [done|]. rewrite month_cases by done.
    assert (mp = 11 -> doy = 365 -> leap yy = true) as Hleap.
    { intros Hx Hdoy365. apply leap_iff. specialize (Hl Hdoy365). unfold yy. rewrite Hle, Hx. change (10 <=? 11) with true. cbv iota. unfold y.
      destruct Hl as [H4 [H100|H399]]; [right|left]; [split|]; zdiv. }
    assert (d = doy - (153 * mp + 2) / 5 + 1) as Hdd by done. assert (mp = (5 * doy + 2) / 153) as Hmpd by done.
    assert (m = if mp <? 10 then mp + 3 else mp - 9) as Hmm by done. clearbody m d mp doy yoe.
    assert (mp = 0 \/ mp = 1 \/ mp = 2 \/ mp = 3 \/ mp = 4 \/ mp = 5 \/ mp = 6 \/ mp = 7 \/ mp = 8 \/ mp = 9 \/ mp = 10 \/ mp = 11) as Hc by lia.
    repeat destruct Hc as [E|Hc]; [..|rename Hc into E]; rewrite E in Hmm; vm_compute in Hmm; rewrite Hmm; cbn -[Z.div Z.mul leap];
      rewrite E in *; try zdiv.
    destruct (leap yy) eqn:El; [zdiv|]. assert (doy <> 365) by (intros Ex; specialize (Hleap eq_refl Ex); congruence). zdiv.
  - unfold days_from_civil. cbv zeta. rewrite Hyy, He, Hyoe, Hmp'. unfold d. unfold z' in *. zdiv.
Qed.

(** *** Years that begin in March *)

Definition march_year (y m : Z) : Z := if m <=? 2 then y - 1 else y.
Definition march_month (m : Z) : Z := if 2 <? m then m - 3 else m + 9.
Definition year_start (yy : Z) : Z := 365 * yy + yy / 4 - yy / 100 + yy / 400 - 719468.
Definition year_day (m d : Z) : Z := (153 * march_month m + 2) / 5 + d - 1.

Lemma days_parts y m d : days_from_civil y m d = year_start (march_year y m) + year_day m d.
Proof. unfold days_from_civil, year_start, year_day, march_month. cbv zeta. fold (march_year y m). zdiv. Qed.

Lemma year_length yy : year_start (yy + 1) - year_start yy = 365 + (if leap (yy + 1) then 1 else 0).
Proof.
  pose proof (leap_iff (yy + 1)) as Hl. unfold year_start. destruct (leap (yy + 1)).
  - destruct Hl as [[Hl|[H4 H100]] _]; [done|zdiv|]. destruct (decide ((yy + 1) mod 400 = 0)); zdiv.
  - assert ((yy + 1) mod 400 <> 0 /\ ((yy + 1) mod 4 <> 0 \/ (yy + 1) mod 100 = 0)) as [H400 [H4|H100]].
    { split; [intros E; by destruct Hl as [_ Hl]; specialize (Hl (or_introl E))|].
      destruct (decide ((yy + 1) mod 4 = 0)) as [E|]; [right|by left]. destruct (decide ((yy + 1) mod 100 = 0)) as [|Hn]; [done|].
      destruct Hl as [_ Hl]. specialize (Hl (or_intror (conj E Hn))). done. }
    + zdiv.
    + zdiv.
Qed.

Lemma year_starts_grow yy yy' : yy < yy' -> year_start yy < year_start (yy + 1) <= year_start yy'.
Proof. intros H. pose proof (year_length yy). unfold year_start in *. split; [destruct (leap (yy + 1)); lia|zdiv]. Qed.

Lemma months_grow m m' d d' y y' : valid_date y m d -> valid_date y' m' d' -> march_month m < march_month m' -> year_day m d < year_day m' d'.
Proof.
  intros [Hm Hd] [Hm' Hd'] Hlt. rewrite month_cases in Hd by done. unfold year_day.
  assert ((153 * march_month m + 2) / 5 + d - 1 < (153 * (march_month m + 1) + 2) / 5).
  { assert (m = 1 \/ m = 2 \/ m = 3 \/ m = 4 \/ m = 5 \/ m = 6 \/ m = 7 \/ m = 8 \/ m = 9 \/ m = 10 \/ m = 11 \/ m = 12) as Hc by lia.
    unfold march_month in *. repeat destruct Hc as [->|Hc]; [..|rename Hc into E; subst m]; cbn -[Z.div Z.mul leap] in *; try zdiv.
    destruct (leap y); zdiv. }
  zdiv.
Qed.

Lemma year_day_bound y m d : valid_date y m d -> 0 <= year_day m d < year_start (march_year y m + 1) - year_start (march_year y m).
Proof.
  intros [Hm Hd]. rewrite month_cases in Hd by done. rewrite year_length. unfold year_day, march_year, march_month.
  assert (m = 1 \/ m = 2 \/ m = 3 \/ m = 4 \/ m = 5 \/ m = 6 \/ m = 7 \/ m = 8 \/ m = 9 \/ m = 10 \/ m = 11 \/ m = 12) as Hc by lia.
  repeat destruct Hc as [->|Hc]; [..|rename Hc into E; subst m]; cbn -[Z.div Z.mul leap] in *; try (destruct (leap _); zdiv).
  replace (y - 1 + 1) with y by lia. destruct (leap y); zdiv.
Qed.

Definition earlier (a b : Z * Z * Z) : Prop :=
  let '(y, m, d) := a in let '(y', m', d') := b in y < y' \/ y = y' /\ (m < m' \/ m = m' /\ d < d').

(** Later dates are later days. *)
Lemma days_grow y m d y' m' d' :
  valid_date y m d -> valid_date y' m' d' -> earlier (y, m, d) (y', m', d') -> days_from_civil y m d < days_from_civil y' m' d'.
Proof.
  intros Hv Hv' He. rewrite !days_parts. pose proof (year_day_bound _ _ _ Hv) as Hb. pose proof (year_day_bound _ _ _ Hv') as Hb'.
  assert (march_year y m < march_year y' m' \/ march_year y m = march_year y' m' /\ (march_month m < march_month m' \/ m = m' /\ d < d')) as Hc.
  { destruct Hv as [Hm _], Hv' as [Hm' _]. unfold march_year, march_month. cbn in He.
    destruct (Z.leb_spec m 2), (Z.leb_spec m' 2), (Z.ltb_spec 2 m), (Z.ltb_spec 2 m'); lia. }
  destruct Hc as [Hlt|[-> [Hlt|[-> Hlt]]]].
  - pose proof (year_starts_grow _ _ Hlt). lia.
  - pose proof (months_grow _ _ _ _ _ _ Hv Hv' Hlt). lia.
  - unfold year_day. lia.
Qed.

Lemma dates_apart (a b : Z * Z * Z) : a = b \/ earlier a b \/ earlier b a.
Proof.
  destruct a as [[y m] d], b as [[y' m'] d']. cbn. destruct (decide (y = y' /\ m = m' /\ d = d')) as [(-> & -> & ->)|]; [by left|]. right. lia.
Qed.

(** Every day has one date, and every date is a day. *)
Lemma civil_of_days y m d : valid_date y m d -> civil_from_days (days_from_civil y m d) = (y, m, d).
Proof.
  intros Hv. pose proof (civil_valid (days_from_civil y m d)) as Hc. destruct (civil_from_days _) as [[y' m'] d']. destruct Hc as [Hv' E].
  destruct (dates_apart (y', m', d') (y, m, d)) as [|[He|He]]; [done|..]; apply days_grow in He; (done || lia).
Qed.

Lemma next_day_valid y m d : valid_date y m d -> let '(y', m', d') := next_day y m d in valid_date y' m' d' /\ days_from_civil y' m' d' = days_from_civil y m d + 1.
Proof.
  intros [Hm Hd]. unfold next_day. destruct (Z.ltb_spec d (days_in_month y m)) as [Hlt|Hge]; [|destruct (Z.ltb_spec m 12) as [H12|H12]].
  - split; [split; [done|lia]|]. rewrite !days_parts. unfold year_day. lia.
  - assert (d = days_in_month y m) as -> by lia. clear Hge Hd. split.
    { split; [lia|]. rewrite month_cases by lia. destruct (_ =? 2); [destruct (leap y); lia|]. destruct (_ || _); lia. }
    rewrite month_cases by lia. rewrite !days_parts. unfold year_day, march_year, march_month.
    assert (m = 1 \/ m = 2 \/ m = 3 \/ m = 4 \/ m = 5 \/ m = 6 \/ m = 7 \/ m = 8 \/ m = 9 \/ m = 10 \/ m = 11) as Hc by lia.
    remember (m + 1) as next eqn:En.
    repeat destruct Hc as [->|Hc]; [..|rename Hc into E; subst m]; vm_compute in En; subst next; cbn -[Z.div Z.mul leap year_start]; try zdiv.
    pose proof (year_length (y - 1)) as Hy. replace (y - 1 + 1) with y in Hy by lia. destruct (leap y); zdiv.
  - assert (m = 12) as -> by lia. change (days_in_month y 12) with 31 in *. assert (d = 31) as -> by lia. split; [split; [lia|done || cbn; lia]|].
    rewrite !days_parts. unfold year_day, march_year, march_month. cbn -[Z.div Z.mul year_start]. replace (y + 1 - 1) with y by lia. zdiv.
Qed.

(** ** Numbers as digits *)

Definition digits (s : str) : Prop := forallb is_ascii_digit s = true.

Lemma digits_app s t : digits (s ++ t) <-> digits s /\ digits t.
Proof. unfold digits. rewrite forallb_app, andb_true_iff. done. Qed.

Lemma digit_value_digit c : is_ascii_digit c = true -> digit_value c = Some (c - 48)%N.
Proof. unfold is_ascii_digit, digit_value. by intros ->. Qed.

Lemma digits_not_in c s : digits s -> is_ascii_digit c = false -> c ∉ s.
Proof.
  intros Hs Hc Hin. unfold digits in Hs. rewrite forallb_forall in Hs. apply list_elem_of_In in Hin. apply Hs in Hin. congruence.
Qed.

Lemma pretty_digits x s k : (x < 10 ^ N.of_nat k)%N -> digits (lit s) ->
  digits (lit (pretty_N_go x s)) /\ (length (lit (pretty_N_go x s)) <= k + length (lit s))%nat.
Proof.
  revert x s. induction k as [|k IH]; intros x s Hx Hs.
  - assert (x = 0)%N as -> by (cbn in Hx; lia). rewrite pretty_N_go_0. done.
  - destruct (decide (x = 0)%N) as [->|Hn]; [rewrite pretty_N_go_0; split; [done|lia]|]. rewrite pretty_N_go_step by lia.
    rewrite Nat2N.inj_succ, N.pow_succ_r' in Hx. edestruct (IH (x / 10)%N (String (pretty_N_char (x mod 10)) s)) as [H1 H2].
    + apply N.Div0.div_lt_upper_bound. lia.
    + unfold digits. change (lit (String ?c ?s)) with (Ascii.N_of_ascii c :: lit s). cbn [forallb]. apply andb_true_iff. split; [|done].
      pose proof (N.mod_upper_bound x 10 ltac:(lia)) as Hd. apply digit_char in Hd. unfold digit_value in Hd. unfold is_ascii_digit. by destruct (_ && _)%N.
    + split; [done|]. change (lit (String ?c ?s)) with (Ascii.N_of_ascii c :: lit s) in H2. cbn [length] in H2. lia.
Qed.

Lemma show_N_digits n k : (n < 10 ^ N.of_nat k)%N -> (0 < k)%nat -> digits (show_N n) /\ (length (show_N n) <= k)%nat.
Proof.
  intros Hn Hk. unfold show_N, pretty, pretty_N. destruct (decide (n = 0)%N); [by split|].
  destruct (pretty_digits n "" k Hn eq_refl) as [H1 H2]. change (length (lit "")) with 0%nat in H2. split; [done|lia].
Qed.

Lemma parse_zeros k s : parse_digits 0 (replicate k 48%N ++ s) = parse_digits 0 s.
Proof. by induction k. Qed.

(** A field of fixed width. *)
Lemma padded_field w z : 0 <= z < 10 ^ Z.of_nat w -> (0 < w)%nat ->
  let s := decimal_padded w z in digits s /\ length s = w /\ parse_digits 0 s = Some (Z.to_N z).
Proof.
  intros Hz Hw. unfold decimal_padded. rewrite (proj2 (Z.ltb_ge z 0)) by lia. cbv zeta.
  destruct (show_N_digits (Z.to_N z) w) as [Hd Hl]; [|done|].
  { apply N2Z.inj_lt. rewrite Z2N.id, N2Z.inj_pow, nat_N_Z by lia. lia. }
  split; [|split].
  - apply digits_app. split; [|done]. by induction (w - _)%nat.
  - rewrite length_app, length_replicate. lia.
  - by rewrite parse_zeros, parse_show_digits.
Qed.

Lemma digits_utf8_len s : digits s -> utf8_len s = N.of_nat (length s).
Proof.
  induction s as [|c s IH]; [done|]. unfold digits. cbn [forallb]. intros [Hc Hs]%andb_true_iff. cbn [utf8_len length]. rewrite IH by done.
  unfold is_ascii_digit in Hc. apply andb_true_iff in Hc as [_ Hc%N.leb_le]. unfold len_utf8. rewrite (proj2 (N.ltb_lt c 128)) by lia. lia.
Qed.

(** Digits are read as a number, without a sign. *)
Lemma digits_head s : digits s -> s <> [] -> exists c rest, s = c :: rest /\ c <> 43%N /\ c <> 45%N.
Proof.
  intros Hs Hn. destruct s as [|c s]; [done|]. exists c, s. split; [done|]. unfold digits in Hs. cbn [forallb] in Hs.
  apply andb_true_iff in Hs as [Hc _]. by split; intros ->.
Qed.

Lemma parse_unsigned_digits limit s n :
  digits s -> s <> [] -> parse_digits 0 s = Some n -> (n <= limit)%N -> parse_unsigned limit s = Some n.
Proof.
  intros Hs Hn Hp Hl. destruct (digits_head s Hs Hn) as (c & rest & -> & H43 & _). unfold parse_unsigned.
  assert (match c :: rest with 43%N :: (_ :: _) as r => tl (c :: rest) | _ => c :: rest end = c :: rest) as ->.
  { destruct c as [|p]; [done|]. repeat (destruct p as [p|p|]; try done). }
  cbv zeta. cbn [is_empty]. rewrite Hp. cbn. by rewrite (proj2 (N.leb_le _ _) Hl).
Qed.

Lemma parse_i64_digits s n : digits s -> s <> [] -> parse_digits 0 s = Some n -> (n <= 2 ^ 63 - 1)%N -> parse_i64 s = Some (Z.of_N n).
Proof.
  intros Hs Hn Hp Hl. destruct (digits_head s Hs Hn) as (c & rest & E & _ & H45).
  transitivity (Z.of_N <$> parse_unsigned (2 ^ 63 - 1) s).
  { rewrite E. unfold parse_i64. destruct c as [|p]; [done|]. repeat (destruct p as [p|p|]; try done). }
  by rewrite (parse_unsigned_digits _ s n).
Qed.

Record field (w : nat) (z : Z) (s : str) : Prop := {
  field_fixed n : n = N.of_nat w -> is_fixed_ascii_digits s n = true;
  field_i64 : parse_i64 s = Some z;
  field_u32 : parse_u32 s = Some z;
  field_free c : is_ascii_digit c = false -> c ∉ s
}.

Lemma padded_is_field w z : 0 <= z < 10 ^ Z.of_nat w -> (0 < w <= 9)%nat -> field w z (decimal_padded w z).
Proof.
  intros Hz Hw. destruct (padded_field w z Hz ltac:(lia)) as (Hd & Hl & Hp). set (s := decimal_padded w z) in *.
  assert (s <> []) as Hn by (intros E; rewrite E in Hl; cbn in Hl; lia).
  assert (10 ^ Z.of_nat w <= 10 ^ 9) as Hb by (apply Z.pow_le_mono_r; lia).
  assert (Z.of_N (Z.to_N z) = z) as Hid by (apply Z2N.id; lia).
  split.
  - intros n ->. unfold is_fixed_ascii_digits. rewrite digits_utf8_len, Hl, N.eqb_refl by done. done.
  - rewrite (parse_i64_digits s (Z.to_N z)), Hid by (done || lia). done.
  - unfold parse_u32. rewrite (parse_unsigned_digits _ s (Z.to_N z)) by (done || lia). cbn. by rewrite Hid.
  - intros c Hc. by apply digits_not_in.
Qed.

(** ** Text and instant *)

Lemma trim_id s c d : head s = Some c -> last s = Some d -> is_whitespace c = false -> is_whitespace d = false -> trim s = s.
Proof.
  intros Hh Hl Hc Hd. destruct s as [|x s]; [done|]. injection Hh as ->. unfold trim, trim_start. cbn [drop_while]. rewrite Hc.
  unfold trim_end. destruct (reverse (c :: s)) as [|y r] eqn:E; [apply (f_equal reverse) in E; by rewrite reverse_involutive in E|].
  assert (y = d) as ->.
  { apply (f_equal head) in E. rewrite head_reverse, Hl in E. by injection E. }
  cbn [drop_while]. rewrite Hd, <- E. by rewrite reverse_involutive.
Qed.

Lemma checked_ok z : - 2 ^ 63 <= z < 2 ^ 63 -> checked z = Some z.
Proof. intros Hz. unfold checked. by rewrite (proj2 (Z.leb_le _ _)), (proj2 (Z.ltb_lt _ _)) by lia. Qed.

Lemma within_true lo hi z : within lo hi z = true <-> lo <= z <= hi.
Proof. unfold within. rewrite andb_true_iff, !Z.leb_le. done. Qed.

(** What the two formats may put behind the seconds. *)
Definition fraction (f : Z) (text : str) : Prop := f = 0 /\ text = [] \/ 0 <= f < 1000 /\ text = lit "." ++ decimal_padded 3 f.

Section Fields.
Context (y m d h mi s f : Z) (fraction_text : str).
Context (Hy : 0 <= y <= 9999) (Hdate : valid_date y m d) (Hh : 0 <= h < 24) (Hmi : 0 <= mi < 60) (Hs : 0 <= s < 60)
  (Hf : fraction f fraction_text).

Definition date_text : str := decimal_padded 4 y ++ lit "-" ++ decimal_padded 2 m ++ lit "-" ++ decimal_padded 2 d.
Definition time_text : str := decimal_padded 2 h ++ lit ":" ++ decimal_padded 2 mi ++ lit ":" ++ decimal_padded 2 s ++ fraction_text.

Lemma day_range : 1 <= d <= 31.
Proof using Hdate. destruct Hdate as [Hm Hd]. rewrite month_cases in Hd by done. destruct (m =? 2); [destruct (leap y); lia|]. destruct (_ || _); lia. Qed.

Lemma date_fields : field 4 y (decimal_padded 4 y) /\ field 2 m (decimal_padded 2 m) /\ field 2 d (decimal_padded 2 d).
Proof using Hy Hdate. pose proof day_range. destruct Hdate. split_and!; apply padded_is_field; lia. Qed.

Lemma time_fields : field 2 h (decimal_padded 2 h) /\ field 2 mi (decimal_padded 2 mi) /\ field 2 s (decimal_padded 2 s).
Proof using Hh Hmi Hs. split_and!; apply padded_is_field; lia. Qed.

Lemma parse_date_text : parse_date date_text = Some (y, m, d).
Proof using Hy Hdate.
  destruct date_fields as (Fy & Fm & Fd). pose proof day_range. destruct Hdate as [Hm Hd]. unfold parse_date, date_text.
  change (lit "-") with [45%N]. cbn [app]. rewrite split_on_app by by apply Fy. rewrite split_on_app by by apply Fm.
  rewrite split_on_end by by apply Fd.
  rewrite (field_fixed _ _ _ Fy 4%N eq_refl), (field_fixed _ _ _ Fm 2%N eq_refl), (field_fixed _ _ _ Fd 2%N eq_refl). cbn [negb orb].
  rewrite (field_i64 _ _ _ Fy), (field_u32 _ _ _ Fm), (field_u32 _ _ _ Fd). cbn [mbind option_bind].
  rewrite (proj2 (within_true 1 12 m)), (proj2 (within_true 1 (days_in_month y m) d)) by lia. done.
Qed.

Lemma fraction_free c : is_ascii_digit c = false -> c <> 46%N -> c ∉ fraction_text.
Proof using Hf.
  intros Hc Hn. destruct Hf as [[_ ->]|[Hr ->]]; [by intros ?%elem_of_nil|]. change (lit "." ++ ?t) with (46%N :: t).
  apply not_elem_of_cons. split; [done|]. apply (padded_is_field 3); [done|lia|done].
Qed.

Lemma parse_time_text : parse_time time_text = Some (h, mi, s, f).
Proof using Hh Hmi Hs Hf.
  destruct time_fields as (Fh & Fm & Fs). unfold parse_time, time_text.
  change (lit ":") with [58%N]. cbn [app]. rewrite split_on_app by by apply Fh. rewrite split_on_app by by apply Fm.
  rewrite split_on_end by (intros [Hin|Hin]%elem_of_app; [by apply Fs in Hin|by apply fraction_free in Hin]).
  rewrite (field_fixed _ _ _ Fh 2%N eq_refl), (field_fixed _ _ _ Fm 2%N eq_refl). cbn [negb orb].
  rewrite (field_i64 _ _ _ Fh), (field_i64 _ _ _ Fm). cbn [mbind option_bind].
  destruct Hf as [[-> ->]|[Hr ->]].
  - rewrite app_nil_r, split_once_none by by apply Fs. rewrite (field_fixed _ _ _ Fs 2%N eq_refl).
    rewrite (proj2 (within_true 0 23 h)), (proj2 (within_true 0 59 mi)) by lia. cbn [negb orb].
    rewrite (field_i64 _ _ _ Fs). cbn [mbind option_bind]. by rewrite (proj2 (within_true 0 59 s)) by lia.
  - change (lit ".") with [46%N]. cbn [app]. rewrite split_once_app by by apply Fs. rewrite (field_fixed _ _ _ Fs 2%N eq_refl).
    destruct (padded_field 3 f ltac:(lia) ltac:(lia)) as (Hd & Hl & _). pose proof (padded_is_field 3 f ltac:(lia) ltac:(lia)) as Ff.
    rewrite (digits_utf8_len _ Hd), Hl. unfold digits in Hd. rewrite Hd.
    assert (is_empty (decimal_padded 3 f) = false) as -> by (apply is_empty_false; intros E; by rewrite E in Hl).
    rewrite (proj2 (within_true 0 23 h)), (proj2 (within_true 0 59 mi)) by lia. cbn [negb orb]. change (3 <? N.of_nat 3)%N with false. cbv iota.
    rewrite (field_i64 _ _ _ Fs). cbn [mbind option_bind]. rewrite (proj2 (within_true 0 59 s)) by lia. cbn [negb].
    rewrite (field_i64 _ _ _ Ff). cbn [mbind option_bind]. change (10 ^ (3 - Z.of_N (N.of_nat 3))) with 1. by rewrite Z.mul_1_r.
Qed.

Lemma days_range : days_from_civil 0 1 1 <= days_from_civil y m d <= days_from_civil 9999 12 31.
Proof using Hy Hdate.
  assert (valid_date 0 1 1 /\ valid_date 9999 12 31) as [H0 H9] by (split; split; vm_compute; split; discriminate). pose proof day_range.
  split.
  - destruct (dates_apart (0, 1, 1) (y, m, d)) as [[= <- <- <-]|[He|He]]; [done|apply days_grow in He; (done || lia)|].
    destruct Hdate as [Hm Hd]. cbn in He. lia.
  - destruct (dates_apart (9999, 12, 31) (y, m, d)) as [[= <- <- <-]|[He|He]]; [done| |apply days_grow in He; (done || lia)].
    destruct Hdate as [Hm Hd]. cbn in He. lia.
Qed.

Lemma parse_text : parse_iso_utc (date_text ++ lit "T" ++ time_text ++ lit "Z") = Some ((days_from_civil y m d * 86400 + h * 3600 + mi * 60 + s) * 1000 + f).
Proof using Hy Hdate Hh Hmi Hs Hf.
  unfold parse_iso_utc. destruct date_fields as (Fy & Fm & Fd). destruct time_fields as (Fh & Fmi & Fs).
  assert (0 <= f < 1000) as Hfr by (destruct Hf as [[-> _]|[? _]]; lia).
  rewrite (trim_id _ (default 48%N (head (decimal_padded 4 y))) 90%N).
  2:{ destruct (padded_field 4 y ltac:(lia) ltac:(lia)) as (_ & Hl & _). unfold date_text. by destruct (decimal_padded 4 y). }
  2:{ rewrite !app_assoc. apply last_snoc. }
  2:{ destruct (padded_field 4 y ltac:(lia) ltac:(lia)) as (Hd & Hl & _). destruct (decimal_padded 4 y) as [|c l]; [done|]. cbn.
      unfold digits in Hd. cbn [forallb] in Hd. apply andb_true_iff in Hd as [Hc _]. unfold is_ascii_digit in Hc.
      apply andb_true_iff in Hc as [H1%N.leb_le H2%N.leb_le]. unfold is_whitespace.
      rewrite !orb_false_iff, !andb_false_iff, !N.leb_gt, !N.eqb_neq. lia. }
  2:{ done. }
  rewrite !app_assoc, strip_suffix_app. cbn [mbind option_bind]. rewrite <- !app_assoc. change (lit "T") with [84%N]. cbn [app].
  rewrite split_once_app.
  2:{ unfold date_text. change (lit "-") with [45%N]. cbn [app]. rewrite elem_of_app, elem_of_cons, elem_of_app, elem_of_cons.
      intros [Hx|[Hx|[Hx|[Hx|Hx]]]]; [by apply Fy in Hx|done|by apply Fm in Hx|done|by apply Fd in Hx]. }
  cbn [mbind option_bind]. rewrite parse_date_text. cbn [mbind option_bind]. rewrite parse_time_text. cbn [mbind option_bind].
  pose proof days_range as Hdays. change (days_from_civil 0 1 1) with (-719528) in Hdays. change (days_from_civil 9999 12 31) with 2932896 in Hdays.
  repeat (rewrite checked_ok by lia; cbn [mbind option_bind]). done.
Qed.
End Fields.

(** The range of the tool: the years 0 to 9999. *)
Definition ISO_UTC_MIN_EPOCH_MS : Z := -62167219200000.
Definition ISO_UTC_MAX_EPOCH_MS : Z := 253402300799999.

Lemma format_parts ms : ISO_UTC_MIN_EPOCH_MS <= ms <= ISO_UTC_MAX_EPOCH_MS ->
  exists y m d h mi s, 0 <= y <= 9999 /\ valid_date y m d /\ 0 <= h < 24 /\ 0 <= mi < 60 /\ 0 <= s < 60 /\
    format_iso_utc ms = date_text y m d ++ lit "T" ++ time_text h mi s [] ++ lit "Z" /\
    ms / 1000 = days_from_civil y m d * 86400 + h * 3600 + mi * 60 + s.
Proof.
  intros Hms. unfold ISO_UTC_MIN_EPOCH_MS, ISO_UTC_MAX_EPOCH_MS in Hms. unfold format_iso_utc. cbv zeta.
  set (secs := ms / 1000). set (sod := secs mod 86400). pose proof (civil_valid (secs / 86400)) as Hc.
  destruct (civil_from_days (secs / 86400)) as [[y m] d]. destruct Hc as [Hv Hd].
  exists y, m, d, (sod / 3600), (sod mod 3600 / 60), (sod mod 60).
  assert (0 <= sod < 86400) as Hsod by (apply Z.mod_pos_bound; lia).
  split; [|split; [done|split; [zdiv|split; [zdiv|split; [zdiv|split]]]]].
  - assert (-719528 <= secs / 86400 <= 2932896) as Hr by (unfold secs; zdiv).
    assert (valid_date 0 1 1 /\ valid_date 10000 1 1) as [H0 H9] by (split; split; vm_compute; split; discriminate).
    pose proof (days_grow y m d 0 1 1 Hv H0) as G0. pose proof (days_grow 10000 1 1 y m d H9 Hv) as G10.
    change (days_from_civil 0 1 1) with (-719528) in G0. change (days_from_civil 10000 1 1) with 2932897 in G10.
    destruct (decide (y < 0)); [specialize (G0 (or_introl l)); lia|].
    destruct (decide (10000 < y)); [specialize (G10 (or_introl l)); lia|].
    destruct (decide (y = 10000)) as [->|]; [|lia]. destruct Hv as [Hm Hdd].
    destruct (decide (m = 1 /\ d = 1)) as [[-> ->]|]; [change (days_from_civil 10000 1 1) with 2932897 in Hd; lia|]. cbn [earlier] in G10. lia.
  - unfold date_text, time_text. by rewrite app_nil_r, <- !app_assoc.
  - rewrite Hd. unfold sod. zdiv.
Qed.

Lemma trim_zulu s : last s <> Some 90%N -> trim_end_matches 90%N (s ++ lit "Z") = s.
Proof.
  intros Hs. unfold trim_end_matches. change (lit "Z") with [90%N]. rewrite reverse_snoc. cbn [drop_while]. rewrite N.eqb_refl.
  rewrite <- head_reverse in Hs. destruct (reverse s) as [|c r] eqn:E; cbn [drop_while].
  - apply (f_equal reverse) in E. rewrite reverse_involutive in E. by subst.
  - destruct (N.eqb_spec 90 c) as [<-|]; [done|]. rewrite <- E. apply reverse_involutive.
Qed.

(** C37: An instant of the years 0 to 9999 is read back from its text: to the millisecond
    from the text of the tool, to the second from that of the memory. *)
Theorem timestamps_round_trip ms :
  ISO_UTC_MIN_EPOCH_MS <= ms <= ISO_UTC_MAX_EPOCH_MS ->
  parse_iso_utc (format_iso_utc_millis ms) = Some ms /\ parse_iso_utc (format_iso_utc ms) = Some (ms / 1000 * 1000).
Proof.
  intros Hms. destruct (format_parts ms Hms) as (y & m & d & h & mi & s & Hy & Hv & Hh & Hmi & Hs & Ef & Esec).
  assert (parse_iso_utc (format_iso_utc ms) = Some (ms / 1000 * 1000)) as Hparse.
  { rewrite Ef, (parse_text y m d h mi s 0 []) by (done || by left). f_equal. lia. }
  split; [|done]. unfold format_iso_utc_millis. cbv zeta. destruct (Z.eqb_spec (ms mod 1000) 0) as [E0|E0]; [rewrite Hparse; f_equal; zdiv|].
  rewrite Ef, !app_assoc, trim_zulu, <- !app_assoc.
  - assert (time_text h mi s [] ++ lit "." ++ decimal_padded 3 (ms mod 1000) ++ lit "Z" = time_text h mi s (lit "." ++ decimal_padded 3 (ms mod 1000)) ++ lit "Z") as ->.
    { unfold time_text. by rewrite app_nil_r, <- !app_assoc. }
    rewrite (parse_text y m d h mi s (ms mod 1000)) by first [done | right; split; [apply Z.mod_pos_bound; lia|done]]. f_equal. rewrite <- Esec. zdiv.
  - destruct (padded_field 2 s ltac:(lia) ltac:(lia)) as (Hd & Hl & _). unfold time_text. rewrite app_nil_r, !app_assoc, last_app.
    destruct (last (decimal_padded 2 s)) as [c|] eqn:El; [|by apply last_None in El; rewrite El in Hl].
    intros [= ->]. apply last_Some_elem_of in El. by apply (digits_not_in 90%N _ Hd).
Qed.

Lemma timestamps_round_trip_witness :
  format_iso_utc_millis 951827696007 = lit "2000-02-29T12:34:56.007Z" /\ parse_iso_utc (format_iso_utc_millis 951827696007) = Some 951827696007.
Proof.
  split; [vm_compute; reflexivity|]. apply (timestamps_round_trip 951827696007). unfold ISO_UTC_MIN_EPOCH_MS, ISO_UTC_MAX_EPOCH_MS. lia.
Defined.

(** *** The order of text is the order of time *)

Lemma ltb_app a b x y : length a = length b -> str_ltb (a ++ x) (b ++ y) = str_ltb a b || str_eqb a b && str_ltb x y.
Proof.
  revert b. induction a as [|c a IH]; intros [|c' b] Hl; cbn in Hl; try lia; [done|]. cbn [app str_ltb]. rewrite IH by lia.
  assert (str_eqb (c :: a) (c' :: b) = (c =? c')%N && str_eqb a b) as ->.
  { unfold str_eqb. destruct (N.eqb_spec c c') as [->|Hn]; cbn [andb].
    - apply bool_decide_ext. split; [by intros [= ->]|by intros ->].
    - apply bool_decide_eq_false. congruence. }
  destruct (c <? c')%N, (c =? c')%N, (str_ltb a b), (str_eqb a b); done.
Qed.

(** What is read of more digits grows with what was read before. *)
Lemma parse_digits_grow a b acc acc' n n' : digits a -> digits b -> length a = length b ->
  parse_digits acc a = Some n -> parse_digits acc' b = Some n' -> (acc < acc' -> n < n')%N.
Proof.
  revert b acc acc'. induction a as [|c a IH]; intros [|c' b] acc acc' Ha Hb Hl; cbn in Hl; try lia; [by intros [= ->] [= ->]|].
  unfold digits in Ha, Hb. cbn [forallb] in Ha, Hb. apply andb_true_iff in Ha as [Hc Ha], Hb as [Hc' Hb]. cbn [parse_digits].
  rewrite (digit_value_digit c), (digit_value_digit c') by done. cbn [mbind option_bind]. intros Hn Hn' Hlt.
  unfold is_ascii_digit in Hc, Hc'. apply andb_true_iff in Hc as [H1%N.leb_le H2%N.leb_le], Hc' as [H3%N.leb_le H4%N.leb_le].
  eapply (IH b); [done|done|lia|exact Hn|exact Hn'|lia].
Qed.

Lemma ltb_digits a b acc n n' : digits a -> digits b -> length a = length b ->
  parse_digits acc a = Some n -> parse_digits acc b = Some n' -> str_ltb a b = (n <? n')%N.
Proof.
  revert b acc. induction a as [|c a IH]; intros [|c' b] acc Ha Hb Hl; cbn in Hl; try lia.
  { intros [= ->] [= ->]. cbn. by rewrite N.ltb_irrefl. }
  unfold digits in Ha, Hb. cbn [forallb] in Ha, Hb. apply andb_true_iff in Ha as [Hc Ha], Hb as [Hc' Hb]. cbn [parse_digits].
  rewrite (digit_value_digit c), (digit_value_digit c') by done. cbn [mbind option_bind]. intros Hn Hn'.
  unfold is_ascii_digit in Hc, Hc'. apply andb_true_iff in Hc as [H1%N.leb_le H2%N.leb_le], Hc' as [H3%N.leb_le H4%N.leb_le]. cbn [str_ltb].
  destruct (N.ltb_spec c c') as [Hcc|Hcc]; cbn [orb].
  - symmetry. apply N.ltb_lt. eapply (parse_digits_grow a b); [done|done|lia|exact Hn|exact Hn'|lia].
  - destruct (N.eqb_spec c c') as [->|Hne]; cbn [andb]; [eapply IH; [done|done|lia|exact Hn|exact Hn']|]. symmetry. apply N.ltb_ge, N.lt_le_incl.
    eapply (parse_digits_grow b a); [done|done|lia|exact Hn'|exact Hn|lia].
Qed.

Lemma ltb_padded w a b x y : 0 <= a < 10 ^ Z.of_nat w -> 0 <= b < 10 ^ Z.of_nat w -> (0 < w)%nat ->
  str_ltb (decimal_padded w a ++ x) (decimal_padded w b ++ y) = (a <? b) || (a =? b) && str_ltb x y.
Proof.
  intros Ha Hb Hw. destruct (padded_field w a Ha Hw) as (Da & La & Pa). destruct (padded_field w b Hb Hw) as (Db & Lb & Pb).
  rewrite ltb_app by congruence. rewrite (ltb_digits _ _ 0 (Z.to_N a) (Z.to_N b)) by (done || congruence).
  assert ((Z.to_N a <? Z.to_N b)%N = (a <? b)) as ->.
  { destruct (Z.ltb_spec a b); [apply N.ltb_lt|apply N.ltb_ge]; lia. }
  f_equal. f_equal. unfold str_eqb. destruct (Z.eqb_spec a b) as [->|Hn]; [by apply bool_decide_true|]. apply bool_decide_false.
  intros E. rewrite E in Pa. rewrite Pa in Pb. injection Pb as Pb. apply Hn. lia.
Qed.

(** Of two instants the later one has the greater text, as long as the second
    differs: sorting by text sorts by time. *)
Theorem text_order_is_time_order a b :
  ISO_UTC_MIN_EPOCH_MS <= a <= ISO_UTC_MAX_EPOCH_MS -> ISO_UTC_MIN_EPOCH_MS <= b <= ISO_UTC_MAX_EPOCH_MS ->
  str_ltb (format_iso_utc a) (format_iso_utc b) = (a / 1000 <? b / 1000).
Proof.
  intros Ha Hb. destruct (format_parts a Ha) as (y & m & d & h & mi & s & Hy & Hv & Hh & Hmi & Hs & -> & ->).
  destruct (format_parts b Hb) as (y' & m' & d' & h' & mi' & s' & Hy' & Hv' & Hh' & Hmi' & Hs' & -> & ->).
  pose proof (day_range _ _ _ Hv) as Hd. pose proof (day_range _ _ _ Hv') as Hd'.
  unfold date_text, time_text. rewrite !app_nil_r, <- !app_assoc.
  destruct Hv as [Hm Hdd], Hv' as [Hm' Hdd'].
  repeat (rewrite ltb_padded by (cbn; lia); rewrite ?str_ltb_app).
  assert (str_ltb (lit "Z") (lit "Z") = false) as -> by done. rewrite andb_false_r, orb_false_r.
  pose proof (days_grow y m d y' m' d' (conj Hm Hdd) (conj Hm' Hdd')) as G. pose proof (days_grow y' m' d' y m d (conj Hm' Hdd') (conj Hm Hdd)) as G'.
  apply eq_true_iff_eq. rewrite !orb_true_iff, !andb_true_iff, !Z.ltb_lt, !Z.eqb_eq.
  destruct (dates_apart (y, m, d) (y', m', d')) as [[= -> -> ->]|[He|He]]; [clear G G'|specialize (G He); clear G'|specialize (G' He); clear G];
    cbn [earlier] in *; lia.
Qed.

Lemma text_order_is_time_order_witness :
  str_ltb (format_iso_utc (-1000)) (format_iso_utc 0) = true /\ -1000 / 1000 < 0 / 1000.
Proof.
  split; [|reflexivity]. rewrite (text_order_is_time_order (-1000) 0); [reflexivity|..]; unfold ISO_UTC_MIN_EPOCH_MS, ISO_UTC_MAX_EPOCH_MS; lia.
Defined.
