(* ===== verification/SessionStore.v ===== *)
(** * The session store ([context/session.rs])

    One current snapshot per project, and a barrier for sessions that were cleared:
    clearing first writes a tombstone, and every save and load looks at it, so that
    another tab or terminal cannot bring a cleared session back.

    Operations are computations over the rows of the key value store, with others
    at work between any two commands.  [respects] is what all users of the store owe
    to each other, and the operations here are shown to keep it. *)

From S2P Require Import Prelude Utf8 JsonValue Messages Compact Sql Kv.

Open Scope string_scope.
Open Scope list_scope.
Open Scope Z_scope.
Open Scope sql_scope.

(** ** Keys *)

Section Keys.
Context `{Digest}.

(** [Path::file_name] on a path with forward slashes: the last component, unless it
    is the parent directory. *)
Definition file_name (path : str) : option str :=
  match last (List.filter (fun c => negb (is_empty c || str_eqb c (lit "."))) (split_on slash path)) with
  | Some c => if str_eqb c (lit "..") then None else Some c
  | None => None
  end.

Definition SESSION_ID_HEX_LEN : nat := 12.

Definition project_slug (cwd : str) : str :=
  default (lit "root") (file_name cwd) ++ lit "-" ++ take SESSION_ID_HEX_LEN (sha256_hex cwd).

Definition cleared_session_key (owner_key project_key session_id : str) : str :=
  lit "memory/cleared_sessions/" ++ owner_key ++ lit "/" ++ project_key ++ lit "/" ++ session_id.

Definition legacy_entry_prefix (slug : str) : str := lit "session/" ++ slug ++ lit "/entry/".
Definition current_key (slug : str) : str := lit "session/" ++ slug ++ lit "/latest".
Definition checkpoint_key (owner_key project_key session_id : str) : str :=
  lit "memory/checkpoints/" ++ owner_key ++ lit "/" ++ project_key ++ lit "/" ++ session_id ++ lit ".md".
Definition status_prefix (owner_key project_key session_id : str) : str :=
  lit "memory/status/" ++ owner_key ++ lit "/" ++ project_key ++ lit "/" ++ session_id ++ lit "/".

(** [owner_key_for_id] of the memory service; the digest is of bytes, of which none
    but the zero byte is not text. *)
Definition owner_key_for_id (owner_id : str) : str := sha256_hex (lit "ains-memory-owner-v1" ++ [0%N] ++ owner_id).

(** The store: its partition, if any. *)
Definition new_scoped (owner_scope : str) : option str := if is_empty (trim owner_scope) then None else Some owner_scope.

Definition scoped_slug (owner_scope : option str) (cwd : str) : str :=
  match owner_scope with Some owner => lit "owner/" ++ owner ++ lit "/" ++ project_slug cwd | None => project_slug cwd end.

Definition memory_owner_key (owner_scope : option str) : str := default (owner_key_for_id (lit "local")) owner_scope.

Definition operation_lock_name (owner_scope : option str) (cwd : str) : str :=
  lit "ains-current-session-v1/" ++ memory_owner_key owner_scope ++ lit "/" ++ project_slug cwd.

Definition tombstone (owner_scope : option str) (cwd session_id : str) : str :=
  cleared_session_key (memory_owner_key owner_scope) (project_slug cwd) session_id.
End Keys.

(** Twelve digits of the digest of the clock, the process-wide counter, the
    directory and the entropy, which is zero when there is none. *)
Definition le_bytes (width : nat) (z : Z) : list N := (fun i => Z.to_N (z / 256 ^ Z.of_nat i mod 256)) <$> seq 0 width.

Definition session_id_from_components (sha256_bytes_hex : list N -> str) (now_ms counter : Z) (cwd : str) (entropy : list N) : str :=
  take SESSION_ID_HEX_LEN (sha256_bytes_hex (le_bytes 8 now_ms ++ le_bytes 8 counter ++ encode cwd ++ entropy)).

Definition generate_session_id (sha256_bytes_hex : list N -> str) (counter : Z) (entropy : option (list N)) (now_ms : Z) (cwd : str) : str :=
  session_id_from_components sha256_bytes_hex now_ms counter cwd (default (replicate 12 0%N) entropy).

(** ** Snapshots *)

Section Snapshots.
Context {J : Json}.

Definition PERSISTED_EXTRA_KEYS : list str :=
  [lit "permission_mode"; lit "task_focus_state"; lit "async_agent_state"; lit "async_agent_tasks"; lit "compact_checkpoints"; lit "compact_last"].

Record SessionSnapshot := {
  session_id : str; cwd : str; model : option str; system_prompt : option str;
  messages : list ConversationMessage; usage : UsageSnapshot; tool_metadata : ToolMetadata
}.

Record SessionSaveInput := {
  in_session_id : option str; in_cwd : str; in_model : option str; in_system_prompt : option str;
  in_messages : list ConversationMessage; in_usage : UsageSnapshot; in_tool_metadata : ToolMetadata
}.

Definition with_extra (e : gmap str Messages.Value) (m : ToolMetadata) : ToolMetadata :=
  {| read_files := read_files m; invoked_skills := invoked_skills m; user_goal := user_goal m; work_log := work_log m;
     active_artifacts := active_artifacts m; extra := e |}.

Definition persistable_tool_metadata (m : ToolMetadata) : ToolMetadata :=
  with_extra (filter (fun kv => existsb (str_eqb kv.1) PERSISTED_EXTRA_KEYS = true) (extra m)) m.

Definition with_messages (l : list ConversationMessage) (s : SessionSnapshot) : SessionSnapshot :=
  {| session_id := session_id s; cwd := cwd s; model := model s; system_prompt := system_prompt s; messages := l;
     usage := usage s; tool_metadata := tool_metadata s |}.

(** What serde derives for the snapshot. *)
Class SnapshotCodec := {
  snapshot_to_value : SessionSnapshot -> value;
  snapshot_of_value : value -> option SessionSnapshot
}.
End Snapshots.

Definition filter_blank (o : option str) : option str := match o with Some i => if is_empty (trim i) then None else Some i | None => None end.

(** ** The store *)

Section Store.
Context {J : Json} `{Digest} `{!SnapshotCodec}.
Context (owner_scope : option str).
Abbreviation M := (Sql.M Rows AgentError).

Definition kv_op {A} (m : Sql.M Rows MemoryError A) : M A := mapped MemoryErr m.
Definition get_key (key : str) : M (option value) := kv_op (kv_get (fun t => t) (fun t _ => t) key).
Definition set_key (key : str) (v : value) : M unit := kv_op (kv_set (fun t => t) (fun t _ => t) key v None).
Definition delete_key (key : str) : M unit := kv_op (kv_delete (fun t => t) (fun t _ => t) key).
Definition delete_keys (prefix : str) : M nat := kv_op (kv_delete_prefix (fun t => t) (fun t _ => t) prefix).

Definition session_was_cleared (cwd session_id : str) : M bool :=
  found <- get_key (tombstone owner_scope cwd session_id) ;; ret (match found with Some _ => true | None => false end).

Definition cleared_error : AgentError := MemoryErr (Storage (lit "refusing snapshot write for a cleared session")).

Definition reject_cleared_session (cwd session_id : str) : M unit :=
  cleared <- session_was_cleared cwd session_id ;; if cleared then fail cleared_error else ret tt.

Definition load_key (key : str) : M (option SessionSnapshot) :=
  found <- get_key key ;;
  match found with
  | None => ret None
  | Some v =>
      snapshot <- some_or (snapshot_of_value v) (ModelErr (lit "session snapshot decode failed")) ;;
      ret (Some (with_messages (sanitize_conversation_messages (messages snapshot)) snapshot))
  end.

Definition attempt {A} (m : M A) : M unit := caught (E' := AgentError) m ;;; ret tt.

(** The barrier came down while the snapshot was written. *)
Definition reject_and_cleanup_cleared_snapshot (cwd slug id : str) : M unit :=
  cleared <- session_was_cleared cwd id ;;
  if negb cleared then ret tt
  else
    current <- tried (load_key (current_key slug)) ;;
    (match current with
     | Ok (Some snapshot) => if str_eqb (session_id snapshot) id then attempt (delete_key (current_key slug)) else ret tt
     | _ => ret tt
     end) ;;;
    fail cleared_error.

(** [fresh] is the id that would be generated. *)
Definition save (fresh : Z -> str -> str) (input : SessionSaveInput) : M str :=
  with_clock (fun now =>
    let id := default (fresh now (in_cwd input)) (filter_blank (in_session_id input)) in
    reject_cleared_session (in_cwd input) id ;;;
    let slug := scoped_slug owner_scope (in_cwd input) in
    let snapshot :=
      {| session_id := id; cwd := in_cwd input; model := in_model input; system_prompt := in_system_prompt input;
         messages := sanitize_conversation_messages (in_messages input); usage := in_usage input;
         tool_metadata := persistable_tool_metadata (in_tool_metadata input) |} in
    delete_keys (legacy_entry_prefix slug) ;;;
    set_key (current_key slug) (snapshot_to_value snapshot) ;;;
    reject_and_cleanup_cleared_snapshot (in_cwd input) slug id ;;;
    ret id).

Definition load_current (cwd : str) : M (option SessionSnapshot) :=
  snapshot <- load_key (current_key (scoped_slug owner_scope cwd)) ;;
  match snapshot with
  | Some found => cleared <- session_was_cleared cwd (session_id found) ;; ret (if cleared then None else snapshot)
  | None => ret None
  end.

(** A failure of the clean-up is noted and the rest goes on. *)
Definition noting {A} (what : string) (m : M A) : M (list str) :=
  r <- tried m ;; ret (match r with Ok _ => [] | Err e => [lit what ++ lit ": " ++ agent_error_to_string e] end).

Definition clear_snapshot (slug id : str) : M (list str) :=
  current <- tried (load_key (current_key slug)) ;;
  match current with
  | Ok (Some snapshot) => if str_eqb (session_id snapshot) id then noting "current" (delete_key (current_key slug)) else ret []
  | Ok None => ret []
  | Err e => ret [lit "read current: " ++ agent_error_to_string e]
  end.

(** The failures of the clean-up. *)
Definition clean_up (cwd id : str) : M (list str) :=
  let slug := scoped_slug owner_scope cwd in
  let owner_key := memory_owner_key owner_scope in
  current <- clear_snapshot slug id ;;
  legacy <- noting "legacy entries" (delete_keys (legacy_entry_prefix slug)) ;;
  checkpoint <- noting "checkpoint" (delete_key (checkpoint_key owner_key (project_slug cwd) id)) ;;
  status <- noting "status" (delete_keys (status_prefix owner_key (project_slug cwd) id)) ;;
  ret (current ++ legacy ++ checkpoint ++ status).

Definition clear_current (cwd id : str) : M (list str) :=
  cleared <- session_was_cleared cwd id ;;
  (if negb cleared then set_key (tombstone owner_scope cwd id) (VBool true) else ret tt) ;;;
  clean_up cwd id.
End Store.

(** ** What users of the table owe to each other *)

Definition is_tombstone (key : str) : Prop := starts_with (lit "memory/cleared_sessions/") key = true.

(** Tombstones do not expire. *)
Definition lasting (t : Rows) : Prop := forall key r, is_tombstone key -> t !! key = Some r -> exists v, r = Stored None (Some v).

(** Nobody removes one. *)
Definition respects (f : Rows -> Rows) : Prop := forall t, lasting t ->
  lasting (f t) /\ forall key, is_tombstone key -> is_Some (t !! key) -> is_Some (f t !! key).

Definition civil (w : nat -> moment Rows) : Prop := forall n, respects (others (w n)).

Section Barrier.
Context {J : Json} `{Digest} `{!SnapshotCodec} (owner_scope : option str).
Abbreviation M := (Sql.M Rows AgentError).

(** A computation under which barriers stay. *)
Definition keeps_barriers {A : Type} (m : M A) : Prop := forall w n, civil w -> respects (fun t => state_of (m w n t)).

Lemma tombstone_is cwd id : is_tombstone (tombstone owner_scope cwd id).
Proof using. apply starts_with_spec. by eexists. Qed.

Lemma respects_compose f g : respects f -> respects g -> respects (fun t => g (f t)).
Proof using. intros Hf Hg t Ht. destruct (Hf t Ht) as [Hl Hk]. destruct (Hg _ Hl) as [Hl' Hk']. split; [done|]. eauto. Qed.

Lemma barriers_bind {A B : Type} (m : M A) (k : A -> M B) : keeps_barriers m -> (forall a, keeps_barriers (k a)) -> keeps_barriers (bind m k).
Proof using.
  intros Hm Hk w n Hw t Ht. destruct (Hm w n Hw t Ht) as [Hl Hp]. unfold bind, state_of in *.
  destruct (m w n t) as [[[a|e] s1] n1]; [|done]. destruct (Hk a w n1 Hw s1 Hl) as [Hl' Hp']. split; [done|]. eauto.
Qed.

Lemma barriers_ret {A : Type} (a : A) : keeps_barriers (ret a).
Proof using. by intros w n Hw t Ht. Qed.
Lemma barriers_fail {A : Type} e : keeps_barriers (fail (A := A) e).
Proof using. by intros w n Hw t Ht. Qed.
Lemma barriers_some {A : Type} (o : option A) e : keeps_barriers (some_or o e).
Proof using. by intros w n Hw t Ht; destruct o. Qed.
Lemma barriers_tried {A : Type} (m : M A) : keeps_barriers m -> keeps_barriers (tried m).
Proof using.
  intros Hm w n Hw t Ht. specialize (Hm w n Hw t Ht). unfold tried, state_of in *. by destruct (m w n t) as [[r s1] n1].
Qed.
Lemma barriers_attempt {A : Type} (m : M A) : keeps_barriers m -> keeps_barriers (attempt m).
Proof using.
  intros Hm. apply barriers_bind; [|intros; apply barriers_ret].
  intros w n Hw t Ht. specialize (Hm w n Hw t Ht). unfold caught, state_of in *. by destruct (m w n t) as [[r s1] n1].
Qed.
Lemma barriers_clock {A : Type} (k : Z -> M A) : (forall now, keeps_barriers (k now)) -> keeps_barriers (with_clock k).
Proof using. intros Hk w n. apply (Hk (clock (w n)) w n). Qed.

Lemma barriers_command {A : Type} (f : Z -> Rows -> result A MemoryError * Rows) :
  (forall now, respects (fun t => (f now t).2)) -> keeps_barriers (kv_op (command (fun t => t) (fun t _ => t) f)).
Proof using.
  intros Hf w n Hw t Ht. destruct (Hw n t Ht) as [Hl Hp]. unfold kv_op, mapped, command, state_of. destruct (fault (w n)); [done|].
  destruct (Hf (clock (w n)) _ Hl) as [Hl' Hp']. cbn beta in *. destruct (f (clock (w n)) (others (w n) t)) as [r t']. cbn in *. eauto.
Qed.

(** A command that takes rows away, but no tombstones. *)
Lemma respects_shrink f : (forall t, f t ⊆ t) -> (forall t key, lasting t -> is_tombstone key -> is_Some (t !! key) -> is_Some (f t !! key)) -> respects f.
Proof using.
  intros Hf Hk t Ht. split; [|intros key Hkey Hs; by apply Hk]. intros key r Hkey Hr. eapply Ht; [done|]. by eapply lookup_weaken.
Qed.

Lemma barriers_get key : keeps_barriers (get_key key).
Proof using.
  apply barriers_command. intros now. apply respects_shrink.
  - intros t. destruct (t !! key) as [r|]; [|done]. destruct (row_expired now r); [apply delete_subseteq|done].
  - intros t k Ht Hk Hs. destruct (t !! key) as [r|] eqn:E; [|done]. destruct (row_expired now r) eqn:Ee; [|done]. cbn.
    rewrite lookup_delete_ne; [done|]. intros ->. destruct (Ht _ _ Hk E) as [v ->]. done.
Qed.
Lemma barriers_set key v : keeps_barriers (set_key key v).
Proof using.
  apply barriers_command. intros now t Ht. cbn. split.
  - intros k r Hk [[<- <-]|[_ Hr]]%lookup_insert_Some; [by exists v|by eapply Ht].
  - intros k Hk Hs. destruct (decide (key = k)) as [->|Hn]; [rewrite lookup_insert_eq; by eexists|by rewrite lookup_insert_ne].
Qed.
Lemma barriers_delete key : ~ is_tombstone key -> keeps_barriers (delete_key key).
Proof using.
  intros Hn. apply barriers_command. intros now. apply respects_shrink; [intros t; apply delete_subseteq|].
  intros t k _ Hk Hs. cbn. rewrite lookup_delete_ne; [done|]. by intros ->.
Qed.
Lemma barriers_delete_prefix prefix : (forall k, starts_with prefix k = true -> ~ is_tombstone k) -> keeps_barriers (delete_keys prefix).
Proof using.
  intros Hn. apply barriers_command. intros now. apply respects_shrink.
  - intros t. cbn. apply map_subseteq_spec. intros k r. rewrite foldr_delete. by case_bool_decide.
  - intros t k _ Hk Hs. cbn. rewrite foldr_delete, bool_decide_false; [done|]. intros Hin%elem_keys_where. destruct Hin as [Hp _]. by apply (Hn k).
Qed.

Lemma session_key_free rest : forall k, starts_with (lit "session/" ++ rest) k = true -> ~ is_tombstone k.
Proof using. intros k [a ->]%starts_with_spec Ht. done. Qed.
Lemma status_key_free rest : forall k, starts_with (lit "memory/status/" ++ rest) k = true -> ~ is_tombstone k.
Proof using. intros k [a ->]%starts_with_spec Ht. done. Qed.
Lemma checkpoint_free rest : ~ is_tombstone (lit "memory/checkpoints/" ++ rest).
Proof using. done. Qed.
Lemma current_free slug : ~ is_tombstone (current_key slug).
Proof using. done. Qed.

Create HintDb barriers.
#[local] Hint Resolve barriers_bind barriers_ret barriers_fail barriers_some barriers_tried barriers_attempt barriers_clock
  barriers_get barriers_set barriers_delete barriers_delete_prefix session_key_free status_key_free checkpoint_free current_free : barriers.

Lemma barriers_cleared cwd id : keeps_barriers (session_was_cleared owner_scope cwd id).
Proof using. unfold session_was_cleared. auto with barriers. Qed.

Lemma barriers_load_key key : keeps_barriers (load_key key).
Proof using. apply barriers_bind; [auto with barriers|]. intros [v|]; auto with barriers. Qed.

Lemma barriers_cleanup cwd slug id : keeps_barriers (reject_and_cleanup_cleared_snapshot owner_scope cwd slug id).
Proof using.
  apply barriers_bind; [apply barriers_cleared|]. intros [|]; cbn [negb]; [|auto with barriers].
  apply barriers_bind; [apply barriers_tried, barriers_load_key|]. intros current. apply barriers_bind; [|auto with barriers].
  destruct current as [[snapshot|]|]; [|auto with barriers..]. destruct (str_eqb _ _); auto with barriers.
Qed.

Lemma barriers_save fresh input : keeps_barriers (save owner_scope fresh input).
Proof using.
  apply barriers_clock. intros now. cbv zeta. apply barriers_bind.
  { apply barriers_bind; [apply barriers_cleared|]. intros [|]; auto with barriers. }
  intros _. apply barriers_bind; [apply barriers_delete_prefix, session_key_free|]. intros _. apply barriers_bind; [auto with barriers|].
  intros _. apply barriers_bind; [apply barriers_cleanup|auto with barriers].
Qed.

Lemma barriers_load cwd : keeps_barriers (load_current owner_scope cwd).
Proof using.
  apply barriers_bind; [apply barriers_load_key|]. intros [snapshot|]; [|auto with barriers].
  apply barriers_bind; [apply barriers_cleared|auto with barriers].
Qed.

Lemma barriers_noting {A : Type} (what : string) (m : M A) : keeps_barriers m -> keeps_barriers (noting what m).
Proof using. unfold noting. auto with barriers. Qed.

Lemma barriers_cleanup_all cwd id : keeps_barriers (clean_up owner_scope cwd id).
Proof using.
  apply barriers_bind.
  { apply barriers_bind; [apply barriers_tried, barriers_load_key|]. intros [[snapshot|]|]; [|auto with barriers..].
    destruct (str_eqb _ _); [apply barriers_noting|]; auto with barriers. }
  intros current. apply barriers_bind; [apply barriers_noting, barriers_delete_prefix, session_key_free|]. intros legacy.
  apply barriers_bind; [apply barriers_noting, barriers_delete, checkpoint_free|]. intros checkpoint.
  apply barriers_bind; [apply barriers_noting, barriers_delete_prefix, status_key_free|auto with barriers].
Qed.

Lemma barriers_clear cwd id : keeps_barriers (clear_current owner_scope cwd id).
Proof using.
  apply barriers_bind; [apply barriers_cleared|]. intros cleared. apply barriers_bind; [destruct (negb cleared); auto with barriers|]. intros _.
  apply barriers_cleanup_all.
Qed.

(** *** Looking at the barrier *)

Abbreviation barred t cwd id := (is_Some (t !! tombstone owner_scope cwd id)).

Lemma cleared_spec cwd id w n t c t' n' : civil w -> lasting t ->
  session_was_cleared owner_scope cwd id w n t = (Ok c, t', n') -> lasting t' /\ (c = true <-> barred t' cwd id).
Proof using.
  intros Hw Ht. destruct (Hw n t Ht) as [Hl _]. unfold session_was_cleared, bind, get_key, kv_op, mapped, kv_get, command.
  destruct (fault (w n)); [done|]. cbn beta zeta.
  pose proof (tombstone_is cwd id) as Hkey. generalize dependent (tombstone owner_scope cwd id). intros key Hkey.
  destruct (others (w n) t !! key) as [r|] eqn:E.
  - destruct (Hl key r Hkey E) as [v ->]. cbn. intros [= <- <- _]. split; [done|]. rewrite E. split; [by eexists|done].
  - cbn. intros [= <- <- _]. split; [done|]. rewrite E. by split; [|intros [? ?]].
Qed.

(** A barrier that stands is seen. *)
Lemma barred_is_seen cwd id w n t c t' n' : civil w -> lasting t -> barred t cwd id ->
  session_was_cleared owner_scope cwd id w n t = (Ok c, t', n') -> c = true.
Proof using.
  intros Hw Ht Hb E. eapply cleared_spec; [done|done|exact E|].
  destruct (barriers_cleared cwd id w n Hw t Ht) as [_ Hp]. cbn beta in Hp. unfold state_of in Hp. rewrite E in Hp. by apply Hp; [apply tombstone_is|].
Qed.

(** What was barred before a computation is barred after it. *)
Lemma still_barred {A : Type} (m : M A) cwd id w n t r t' n' : keeps_barriers m -> civil w -> lasting t -> m w n t = (r, t', n') ->
  lasting t' /\ (barred t cwd id -> barred t' cwd id).
Proof using.
  intros Hm Hw Ht E. destruct (Hm w n Hw t Ht) as [Hl Hp]. unfold state_of in *. rewrite E in *. split; [done|]. intros Hb. by apply Hp; [apply tombstone_is|].
Qed.
End Barrier.

(** *** What the operations answer *)

Section Answers.
Context {J : Json} `{Digest} `{!SnapshotCodec} (owner_scope : option str).
Abbreviation M := (Sql.M Rows AgentError).
Abbreviation barred t cwd id := (is_Some (t !! tombstone owner_scope cwd id)).

Lemma load_answer cwd w n t snapshot t' n' : civil w -> lasting t ->
  load_current owner_scope cwd w n t = (Ok (Some snapshot), t', n') -> ~ barred t' cwd (session_id snapshot).
Proof using.
  intros Hw Ht (found & t1 & n1 & E1 & E2)%bind_ok. destruct found as [found|]; [|by apply ret_ok in E2 as [? _]].
  apply bind_ok in E2 as (cleared & t2 & n2 & E2 & [E3 ->]%ret_ok). destruct cleared; [done|]. injection E3 as ->.
  destruct (still_barred owner_scope _ cwd (session_id found) w n t _ _ _ (barriers_load_key _) Hw Ht E1) as [Ht1 _].
  destruct (cleared_spec owner_scope cwd (session_id found) w n1 t1 _ _ _ Hw Ht1 E2) as [_ Hc]. intros Hb. by apply Hc in Hb.
Qed.

Lemma save_answer fresh input w n t id t' n' : civil w -> lasting t ->
  save owner_scope fresh input w n t = (Ok id, t', n') -> ~ barred t' (in_cwd input) id.
Proof using.
  intros Hw Ht. unfold save, with_clock. cbv zeta. set (i := default _ _). intros ([] & t1 & n1 & E1 & E)%bind_ok.
  apply bind_ok in E as (removed & t2 & n2 & E2 & E). apply bind_ok in E as ([] & t3 & n3 & E3 & E). apply bind_ok in E as ([] & t4 & n4 & E4 & [-> ->]%ret_ok).
  assert (keeps_barriers (reject_cleared_session owner_scope (in_cwd input) i)) as Hk1.
  { apply barriers_bind; [apply barriers_cleared|]. intros [|]; [apply barriers_fail|apply barriers_ret]. }
  destruct (still_barred owner_scope _ (in_cwd input) i w n t _ _ _ Hk1 Hw Ht E1) as [Ht1 _].
  destruct (still_barred owner_scope _ (in_cwd input) i w n1 t1 _ _ _ (barriers_delete_prefix _ (session_key_free _)) Hw Ht1 E2) as [Ht2 _].
  destruct (still_barred owner_scope _ (in_cwd input) i w n2 t2 _ _ _ (barriers_set _ _) Hw Ht2 E3) as [Ht3 _].
  apply bind_ok in E4 as (cleared & t5 & n5 & E5 & E6). destruct cleared; cbn [negb] in E6.
  - apply bind_ok in E6 as (current & t6 & n6 & E7 & E6). by apply bind_ok in E6 as ([] & t7 & n7 & E8 & E6).
  - apply ret_ok in E6 as [_ ->]. destruct (cleared_spec owner_scope _ _ _ _ _ _ _ _ Hw Ht3 E5) as [_ Hc]. intros Hb. by apply Hc in Hb.
Qed.

Lemma clear_answer cwd id w n t failures t' n' : civil w -> lasting t ->
  clear_current owner_scope cwd id w n t = (Ok failures, t', n') -> barred t' cwd id.
Proof using.
  intros Hw Ht (cleared & t1 & n1 & E1 & E)%bind_ok. destruct (cleared_spec owner_scope _ _ _ _ _ _ _ _ Hw Ht E1) as [Ht1 Hc].
  apply bind_ok in E as ([] & t2 & n2 & E2 & E3).
  assert (lasting t2 /\ barred t2 cwd id) as [Ht2 Hb].
  { destruct cleared; cbn [negb] in E2.
    - apply ret_ok in E2 as [_ ->]. split; [done|by apply Hc].
    - destruct (still_barred owner_scope _ cwd id w n1 t1 _ _ _ (barriers_set _ _) Hw Ht1 E2) as [Ht2 _]. split; [done|].
      revert E2. unfold set_key, kv_op, mapped, kv_set, command. destruct (fault (w n1)); [done|]. intros [= <- _].
      rewrite lookup_insert_eq. by eexists. }
  eapply (still_barred owner_scope _ cwd id w n2 t2) in E3; [by apply E3| |done|done]. apply barriers_cleanup_all.
Qed.
End Answers.

(** *** Many stores at once *)

Section Serving.
Context {J : Json} `{Digest} `{!SnapshotCodec}.

(** A call of a store of some partition. *)
Inductive Call :=
| Save (owner_scope : option str) (fresh : Z -> str -> str) (input : SessionSaveInput)
| Load (owner_scope : option str) (cwd : str)
| Clear (owner_scope : option str) (cwd id : str).

Abbreviation M := (Sql.M Rows AgentError).
Abbreviation barred t scope cwd id := (is_Some (t !! tombstone scope cwd id)).

(** What came of it is its caller's. *)
Definition serve (c : Call) : M unit :=
  match c with
  | Save scope fresh input => attempt (save scope fresh input)
  | Load scope cwd => attempt (load_current scope cwd)
  | Clear scope cwd id => attempt (clear_current scope cwd id)
  end.

Fixpoint serve_all (calls : list Call) : M unit :=
  match calls with [] => ret tt | c :: rest => serve c ;;; serve_all rest end.

Lemma barriers_serve_all calls : keeps_barriers (serve_all calls).
Proof using.
  induction calls as [|c calls IH]; [apply barriers_ret|]. apply barriers_bind; [|done].
  destruct c; apply barriers_attempt; [apply barriers_save|apply barriers_load|apply barriers_clear].
Qed.

(** C24: A session is cleared for good: once clearing it has succeeded, whatever the
    stores of all partitions are asked next and whatever well-behaved processes do
    between any two commands, even when commands fail, no load returns the session
    and no save of it reports success.  The stores are themselves well behaved, so any
    number of them may be at work at once. *)
Theorem cleared_sessions_stay_cleared (scope : option str) (cwd id : str) (failures : list str) (calls : list Call) (w : nat -> moment Rows)
    (n : nat) (t t1 : Rows) (n1 : nat) (r : result unit AgentError) (t2 : Rows) (n2 : nat) :
  civil w -> lasting t ->
  clear_current scope cwd id w n t = (Ok failures, t1, n1) ->
  serve_all calls w n1 t1 = (r, t2, n2) ->
  (forall snapshot, result_of (load_current scope cwd w n2 t2) = Ok (Some snapshot) -> session_id snapshot <> id) /\
  (forall fresh input, in_cwd input = cwd -> result_of (save scope fresh input w n2 t2) <> Ok id) /\
  (forall all v m, civil v -> respects (fun s => state_of (serve_all all v m s))).
Proof.
  intros Hw Ht E1 E2. destruct (still_barred scope _ cwd id w n t _ _ _ (barriers_clear scope cwd id) Hw Ht E1) as [Ht1 _].
  pose proof (clear_answer _ _ _ _ _ _ _ _ _ Hw Ht E1) as Hb1.
  destruct (still_barred scope _ cwd id w n1 t1 _ _ _ (barriers_serve_all calls) Hw Ht1 E2) as [Ht2 Hb2]. specialize (Hb2 Hb1).
  split_and!; [| |intros all v m Hv; by apply barriers_serve_all].
  - intros snapshot E3 <-. unfold result_of in E3. destruct (load_current scope cwd w n2 t2) as [[o t3] n3] eqn:E. cbn in E3. subst o.
    apply (load_answer _ _ _ _ _ _ _ _ Hw Ht2 E). by eapply still_barred; [apply barriers_load|exact Hw|exact Ht2|exact E|].
  - intros fresh input <- E3. unfold result_of in E3. destruct (save scope fresh input w n2 t2) as [[o t3] n3] eqn:E. cbn in E3. subst o.
    apply (save_answer _ _ _ _ _ _ _ _ _ Hw Ht2 E). by eapply still_barred; [apply barriers_save|exact Hw|exact Ht2|exact E|].
Qed.

(** *** A session that was saved is loaded again *)

Definition undisturbed (w : nat -> moment Rows) : Prop := forall n, fault (w n) = false /\ forall t, others (w n) t = t.

Lemma command_undisturbed {A : Type} (f : Z -> Rows -> result A MemoryError * Rows) w n t : undisturbed w ->
  kv_op (command (fun t => t) (fun t _ => t) f) w n t
  = (match (f (clock (w n)) t).1 with Ok a => Ok a | Err e => Err (MemoryErr e) end, (f (clock (w n)) t).2, S n).
Proof using. intros Hw. destruct (Hw n) as [Hf Ho]. unfold kv_op, mapped, command. rewrite Hf, Ho. by destruct (f _ t). Qed.

Lemma not_cleared_undisturbed scope cwd id w n t : undisturbed w -> t !! tombstone scope cwd id = None ->
  session_was_cleared scope cwd id w n t = (Ok false, t, S n).
Proof using.
  intros Hw Ht. unfold session_was_cleared, get_key, kv_get, bind. rewrite command_undisturbed by done. cbn beta. by rewrite Ht.
Qed.

(** What is stored for an input. *)
Definition stored_as (id : str) (input : SessionSaveInput) : SessionSnapshot :=
  {| session_id := id; cwd := in_cwd input; model := in_model input; system_prompt := in_system_prompt input;
     messages := sanitize_conversation_messages (in_messages input); usage := in_usage input;
     tool_metadata := persistable_tool_metadata (in_tool_metadata input) |}.

(** What is saved while nobody interferes is loaded again, whole: the messages
    well paired, the metadata without what is not to be kept. *)
Lemma saved_session_loads_back scope fresh input w n t w' m :
  undisturbed w -> undisturbed w' ->
  let id := default (fresh (clock (w n)) (in_cwd input)) (filter_blank (in_session_id input)) in
  t !! tombstone scope (in_cwd input) id = None ->
  snapshot_of_value (snapshot_to_value (stored_as id input)) = Some (stored_as id input) ->
  let out := save scope fresh input w n t in
  result_of out = Ok id /\ result_of (load_current scope (in_cwd input) w' m (state_of out)) = Ok (Some (stored_as id input)).
Proof using.
  intros Hw Hw' id Ht Hc. set (key := current_key (scoped_slug scope (in_cwd input))).
  set (cleared := foldr delete t (keys_where (fun _ => true) (legacy_entry_prefix (scoped_slug scope (in_cwd input))) t)).
  set (t' := <[key := envelope (snapshot_to_value (stored_as id input)) None (clock (w (S (S n))))]> cleared).
  assert (t' !! tombstone scope (in_cwd input) id = None) as Ht'.
  { unfold t'. rewrite lookup_insert_ne by done. unfold cleared. rewrite foldr_delete. by case_bool_decide. }
  assert (save scope fresh input w n t = (Ok id, t', S (S (S (S n))))) as ->.
  { unfold save, with_clock. cbv zeta. fold id. fold (stored_as id input). unfold reject_cleared_session, bind at 1 2.
    rewrite not_cleared_undisturbed by done. cbn beta iota. unfold ret at 1, bind at 1, delete_keys, kv_delete_prefix.
    rewrite command_undisturbed by done. cbn beta iota zeta. cbn [fst snd]. fold cleared.
    unfold bind at 1, set_key, kv_set. rewrite command_undisturbed by done. cbn beta iota. cbn [fst snd]. fold key t'.
    unfold bind at 1, reject_and_cleanup_cleared_snapshot, bind at 1. by rewrite not_cleared_undisturbed. }
  split; [done|]. unfold load_current, load_key, get_key, kv_get, state_of, result_of. cbn [fst snd]. fold key.
  assert (t' !! key = Some (Stored None (Some (snapshot_to_value (stored_as id input))))) as Hk by apply lookup_insert_eq.
  unfold bind at 1 2. rewrite command_undisturbed by done. cbn beta. rewrite Hk. cbn [row_expired is_expired row_value fst snd]. rewrite Hc.
  assert (with_messages (sanitize_conversation_messages (messages (stored_as id input))) (stored_as id input) = stored_as id input) as Hm.
  { unfold with_messages. cbn. by rewrite sanitize_id by apply sanitize_well_paired. }
  unfold some_or, bind at 1, ret at 1 2. rewrite Hm. cbn beta iota. unfold bind. by rewrite not_cleared_undisturbed.
Qed.
End Serving.

(** A session is saved, cleared, and another terminal that still has it open saves it
    again, which is refused. *)
Lemma cleared_sessions_stay_cleared_witness :
  let J := small_json in let D := {| sha256_hex s := s |} : Digest in
  let blank id cwd := {| session_id := id; cwd := cwd; model := None; system_prompt := None; messages := [];
                         usage := Build_UsageSnapshot 0 0; tool_metadata := metadata_default |} in
  let codec := {| snapshot_to_value s := VArray [VString (session_id s); VString (cwd s)];
                  snapshot_of_value v := match v with VArray [VString i; VString c] => Some (blank i c) | _ => None end |} : SnapshotCodec in
  let work := lit "work" in
  let input := {| in_session_id := Some (lit "a"); in_cwd := work; in_model := None; in_system_prompt := None;
                  in_messages := [from_user_text (lit "hi")]; in_usage := Build_UsageSnapshot 0 0; in_tool_metadata := metadata_default |} in
  let fresh := fun (_ : Z) (_ : str) => lit "b" in
  let saved := save None fresh input (quiet 5) 0%nat ∅ in
  let before := load_current None work (quiet 5) 0%nat (state_of saved) in
  let cleared := clear_current None work (lit "a") (quiet 5) 0%nat (state_of saved) in
  let served := serve_all [Save None fresh input; Load None work] (quiet 5) cleared.2 cleared.1.2 in
  (session_id <$> match before.1.1 with Ok o => o | Err _ => None end) = Some (lit "a") /\ cleared.1.1 = Ok [] /\
  (forall snapshot, result_of (load_current None work (quiet 5) served.2 served.1.2) = Ok (Some snapshot) -> session_id snapshot <> lit "a") /\
  result_of (save None fresh input (quiet 5) served.2 served.1.2) <> Ok (lit "a").
Proof.
  intros J D blank codec work input fresh saved before cleared served.
  assert (civil (quiet 5)) as Hw by (intros n t Ht; split; [exact Ht|intros key Hk Hs; exact Hs]).
  assert (lasting (state_of saved)) as Hl.
  { apply (barriers_save None fresh input (quiet 5) 0%nat Hw ∅). intros key r Hk Hr. rewrite lookup_empty in Hr. discriminate. }
  assert (cleared.1.1 = Ok []) as Hok by (vm_compute; reflexivity).
  assert (forall A B C (x : A * B * C), x = (x.1.1, x.1.2, x.2)) as Hx by (intros A B C [[? ?] ?]; reflexivity).
  assert (cleared = (Ok [], cleared.1.2, cleared.2)) as E1 by (etransitivity; [apply Hx|rewrite Hok; reflexivity]).
  destruct (cleared_sessions_stay_cleared None work (lit "a") [] [Save None fresh input; Load None work] (quiet 5) 0%nat
    (state_of saved) cleared.1.2 cleared.2 served.1.1 served.1.2 served.2 Hw Hl E1 (Hx _ _ _ served)) as (Hload & Hsave & _).
  split; [vm_compute; reflexivity|]. split; [exact Hok|]. split; [exact Hload|]. apply Hsave. reflexivity.
Defined.
