(* ===== verification/Swarm.v ===== *)
(** * Sub-agents ([swarm/mod.rs])

    What a sub-agent may use ([AgentDefinition], [AgentRegistry]), the mailbox
    through which lead and sub-agents talk ([KvMailbox]) and the executor that
    hands tasks to them ([InProcessExecutor]).

    The mailbox lives in a [Kv] table; its operations are computations over the
    table, the process-wide message counter and the numbers that posters have
    drawn and not used yet ([taken], which is no field of the code but their local
    variables).  The mutex [maintenance], which keeps [mark_read],
    [clear_recipient] and [prune_read] of one instance apart, is not modelled:
    nothing here rests on it.  The executor is a step relation over its set of
    running agents. *)

From Stdlib Require Import Sorting.Sorted.
From stdpp Require Import sorting.
From S2P Require Import Prelude Utf8 JsonValue Messages Sql Kv.

Open Scope string_scope.
Open Scope list_scope.
Open Scope Z_scope.
Open Scope sql_scope.

(** ** Definitions of sub-agents *)

Record AgentDefinition := {
  name : str; description : str; system_prompt : option str; tools : list str; disallowed_tools : list str;
  model : option str; initial_prompt : option str
}.

Definition new_definition (name description : str) : AgentDefinition :=
  {| name := name; description := description; system_prompt := None; tools := []; disallowed_tools := [];
     model := None; initial_prompt := None |}.

Definition names_tool (tool t : str) : bool := str_eqb t (lit "*") || str_eqb t tool.

Definition allows_tool (d : AgentDefinition) (tool : str) : bool :=
  if existsb (names_tool tool) (disallowed_tools d) then false else existsb (names_tool tool) (tools d).

Definition needs_escalation (d : AgentDefinition) (tool : str) : bool := negb (allows_tool d tool).

Record AgentRegistry := { defs : gmap str AgentDefinition; order : list str }.

Definition new_registry : AgentRegistry := {| defs := ∅; order := [] |}.

Definition register (d : AgentDefinition) (r : AgentRegistry) : AgentRegistry :=
  {| defs := <[name d := d]> (defs r);
     order := match defs r !! name d with Some _ => order r | None => order r ++ [name d] end |}.

Definition get_definition (r : AgentRegistry) (n : str) : option AgentDefinition := defs r !! n.
Definition list_definitions (r : AgentRegistry) : list AgentDefinition := omap (get_definition r) (order r).
Definition registry_len (r : AgentRegistry) : nat := length (order r).

(** ** Keys of the mailbox *)

Definition MAILBOX_MAX_BODY_BYTES : N := 65536.

Definition inbox_prefix (scope agent : str) : str := lit "swarm/mbox/" ++ scope ++ lit "/" ++ agent ++ lit "/".

Definition path_segment (s : str) : bool :=
  negb (is_empty s || existsb (N.eqb slash) s || str_eqb s (lit ".") || str_eqb s (lit "..")).

Definition validate_agent_name (agent field : str) : result unit MemoryError :=
  if path_segment agent then Ok tt
  else Err (Storage (lit "mailbox " ++ field ++ lit " must be non-empty, contain no '/', and not be '.' or '..'")).

Definition validate_message_id (message_id : str) : result unit MemoryError :=
  if path_segment message_id then Ok tt
  else Err (Storage (lit "mailbox message id must be non-empty, contain no '/', and not be '.' or '..'")).

Definition mailbox_suffix (sequence : N) (random : list N) : str :=
  hex_padded 16 sequence ++ lit "-" ++ hex_encode random.

(** [u32::to_le_bytes] of the low half. *)
Definition low_bytes (sequence : N) : list N :=
  (fun i => (sequence / 256 ^ i) mod 256)%N <$> [0; 1; 2; 3]%N.

(** [rng]: four random bytes, unless the source of randomness fails. *)
Definition suffix_of (sequence : N) (rng : option (list N)) : str :=
  mailbox_suffix sequence (default (low_bytes sequence) rng).

Definition message_id (created_at : Z) (sequence : N) (rng : option (list N)) : str :=
  decimal_padded 13 created_at ++ lit "-" ++ suffix_of sequence rng.

Definition message_key (scope recipient id : str) : str := inbox_prefix scope recipient ++ id.

(** [new_mailbox_scope] with the four draws. *)
Definition new_mailbox_scope (now : Z) (draws : list (N * option (list N))) : str :=
  lit "session-" ++ show_Z now ++ lit "-" ++ mjoin ((fun d => suffix_of d.1 d.2) <$> draws).

(** ** Messages *)

Record MailboxMessage := { id : str; sender : str; recipient : str; body : str; created_at : Z; is_read : bool }.

#[export] Instance message_eq_dec : EqDecision MailboxMessage.
Proof. solve_decision. Defined.

Definition message_value (m : MailboxMessage) : value :=
  json [("id", VString (id m)); ("sender", VString (sender m)); ("recipient", VString (recipient m));
        ("body", VString (body m)); ("created_at", value_of_i64 (created_at m)); ("read", VBool (is_read m))].

(** What serde derives: an object by its fields, or an array in their order. *)
Definition read_field (v : option value) : option bool :=
  match v with None => Some false | Some v => as_bool v end.

Definition message_of_value (v : value) : option MailboxMessage :=
  match v with
  | VObject _ =>
      i ← get_str "id" v; s ← get_str "sender" v; r ← get_str "recipient" v; b ← get_str "body" v;
      t ← get "created_at" v ≫= i64_of_value; x ← read_field (get "read" v);
      Some {| id := i; sender := s; recipient := r; body := b; created_at := t; is_read := x |}
  | VArray (VString i :: VString s :: VString r :: VString b :: t :: rest) =>
      t ← i64_of_value t;
      x ← match rest with [] => Some false | [x] => as_bool x | _ => None end;
      Some {| id := i; sender := s; recipient := r; body := b; created_at := t; is_read := x |}
  | _ => None
  end.

Definition marked_read (m : MailboxMessage) : MailboxMessage :=
  {| id := id m; sender := sender m; recipient := recipient m; body := body m; created_at := created_at m; is_read := true |}.

(** [created_at], then [id]. *)
Definition message_le (a b : MailboxMessage) : Prop :=
  created_at a < created_at b \/ created_at a = created_at b /\ str_ltb (id b) (id a) = false.
#[export] Instance message_le_dec a b : Decision (message_le a b).
Proof. unfold message_le. apply _. Defined.

#[export] Instance message_le_total : Total message_le.
Proof.
  intros a b. unfold message_le. destruct (Z.lt_total (created_at a) (created_at b)) as [?|[Ht|?]]; [by left; left| |by right; left].
  destruct (str_ltb (id b) (id a)) eqn:E; [right; right|left; right]; (split; [done|]); [by apply str_ltb_asym|done].
Qed.

(** ** The mailbox *)

Record Mail := { rows : Rows; counter : N; taken : gset N }.

Definition set_rows (t : Rows) (s : Mail) : Mail := {| rows := t; counter := counter s; taken := taken s |}.

Abbreviation M := (Sql.M Mail MemoryError).
Definition get_row := kv_get rows set_rows.
Definition set_row := kv_set rows set_rows.
Definition delete_row := kv_delete rows set_rows.
Definition list_rows := kv_list_prefix rows set_rows.
Definition delete_rows := kv_delete_prefix rows set_rows.

(** [COUNTER.fetch_add(1, Relaxed)]. *)
Definition fetch_add : M N := fun w n s =>
  let now := others (w n) s in
  (Ok (counter now),
   {| rows := rows now; counter := counter now + 1; taken := {[counter now]} ∪ taken now |}, Datatypes.S n).

(** A drawn number is used with the command that stores the message. *)
Definition store_message (q : N) (key : str) (v : value) : M unit := fun w n s =>
  let '(r, s', n') := set_row key v None w n s in
  (r, {| rows := rows s'; counter := counter s'; taken := taken s' ∖ {[q]} |}, n').

Definition post (scope : str) (now : Z) (rng : option (list N)) (sender recipient body : str) : M MailboxMessage :=
  lift (validate_agent_name sender (lit "sender")) ;;;
  lift (validate_agent_name recipient (lit "recipient")) ;;;
  guard_else (utf8_len body <=? MAILBOX_MAX_BODY_BYTES)%N
    (Storage (lit "mailbox message body exceeds " ++ show_N MAILBOX_MAX_BODY_BYTES ++ lit " bytes")) ;;;
  sequence <- fetch_add ;;
  let i := message_id now sequence rng in
  let message := {| id := i; sender := sender; recipient := recipient; body := body; created_at := now; is_read := false |} in
  store_message sequence (message_key scope recipient i) (message_value message) ;;;
  ret message.

Fixpoint collect (keys : list str) : M (list MailboxMessage) :=
  match keys with
  | [] => ret []
  | key :: rest =>
      found <- get_row key ;;
      messages <- collect rest ;;
      ret (match found ≫= message_of_value with Some m => m :: messages | None => messages end)
  end.

Definition inbox (scope recipient : str) : M (list MailboxMessage) :=
  lift (validate_agent_name recipient (lit "recipient")) ;;;
  keys <- list_rows (inbox_prefix scope recipient) ;;
  messages <- collect keys ;;
  ret (merge_sort message_le messages).

Definition unread (scope recipient : str) : M (list MailboxMessage) :=
  messages <- inbox scope recipient ;;
  ret (List.filter (fun m => negb (is_read m)) messages).

Definition mark_read (scope recipient i : str) : M unit :=
  lift (validate_agent_name recipient (lit "recipient")) ;;;
  lift (validate_message_id i) ;;;
  found <- get_row (message_key scope recipient i) ;;
  v <- some_or found (EntryNotFound i) ;;
  message <- some_or (message_of_value v) unreadable ;;
  set_row (message_key scope recipient i) (message_value (marked_read message)) None.

Definition clear_recipient (scope recipient : str) : M nat :=
  lift (validate_agent_name recipient (lit "recipient")) ;;;
  delete_rows (inbox_prefix scope recipient).

Definition prunable (v : value) : bool := match message_of_value v with Some m => is_read m | None => false end.

Fixpoint prune_keys (keys : list str) (removed : nat) : M nat :=
  match keys with
  | [] => ret removed
  | key :: rest =>
      found <- get_row key ;;
      if match found with Some v => prunable v | None => false end
      then delete_row key ;;; prune_keys rest (Datatypes.S removed)
      else prune_keys rest removed
  end.

Definition prune_read (scope recipient : str) : M nat :=
  lift (validate_agent_name recipient (lit "recipient")) ;;;
  keys <- list_rows (inbox_prefix scope recipient) ;;
  prune_keys keys 0.

(** ** Runs of the mailbox

    What needs no lock: drawing a number and storing the message made with it. *)

Definition rng_ok (rng : option (list N)) : Prop := forall b, rng = Some b -> length b = 4%nat.

(** A key that was made with a number. *)
Definition key_of (q : N) (k : str) : Prop :=
  exists scope recipient now rng, rng_ok rng /\ k = message_key scope recipient (message_id now q rng).

Inductive free_step : Mail -> Mail -> Prop :=
| step_take s :
    (counter s + 1 < 2 ^ 64)%N ->
    free_step s {| rows := rows s; counter := counter s + 1; taken := {[counter s]} ∪ taken s |}
| step_store s q k v :
    q ∈ taken s -> key_of q k ->
    free_step s {| rows := <[k := Stored None v]> (rows s); counter := counter s; taken := taken s ∖ {[q]} |}
| step_lost s q : free_step s {| rows := rows s; counter := counter s; taken := taken s ∖ {[q]} |}.

Definition mail_ok (s : Mail) : Prop :=
  (counter s < 2 ^ 64)%N /\ (forall q, q ∈ taken s -> (q < counter s)%N) /\
  forall k r, rows s !! k = Some r ->
    (exists v, r = Stored None v) /\ exists q, key_of q k /\ (q < counter s)%N /\ (q ∉ taken s).

(** ** Keys are apart *)

Lemma segment_inj a b x y :
  path_segment a = true -> path_segment b = true -> a ++ slash :: x = b ++ slash :: y -> a = b /\ x = y.
Proof.
  intros Ha Hb. assert ((slash ∉ a) /\ (slash ∉ b)) as [Na Nb].
  { split; intros Hin; [rename Ha into H|rename Hb into H]; unfold path_segment in H; apply negb_true_iff in H;
      rewrite !orb_false_iff in H; destruct H as [[[_ H] _] _];
      (eapply eq_true_false_abs; [|exact H]); apply existsb_exists; exists slash;
      (split; [by apply list_elem_of_In|apply N.eqb_refl]). }
  clear Ha Hb. revert b Nb. induction a as [|c a IH]; intros [|d b] Nb E; cbn in E.
  - by injection E as ->.
  - injection E as <- _. exfalso. apply Nb. by left.
  - injection E as -> _. exfalso. apply Na. by left.
  - injection E as -> E. destruct (IH ltac:(set_solver) b ltac:(set_solver) E) as [-> ->]. done.
Qed.

(** An inbox is a part of the table of its own. *)
Lemma inboxes_disjoint scope agent scope' agent' k :
  path_segment scope = true -> path_segment agent = true -> path_segment scope' = true -> path_segment agent' = true ->
  starts_with (inbox_prefix scope agent) k = true -> starts_with (inbox_prefix scope' agent') k = true ->
  scope = scope' /\ agent = agent'.
Proof.
  intros Hs Ha Hs' Ha' (x & ->)%starts_with_spec (y & E)%starts_with_spec. unfold inbox_prefix in E.
  rewrite <- !app_assoc in E. apply app_inv_head in E. cbn [app lit] in E.
  apply segment_inj in E as [-> E]; [|done..]. by apply segment_inj in E as [-> _].
Qed.

Lemma suffix_length q rng : rng_ok rng -> length (suffix_of q rng) = 25%nat.
Proof.
  intros Hr. unfold suffix_of, mailbox_suffix, hex_encode. rewrite !length_app, hex_padded_length.
  destruct rng as [b|]; [|done]. cbn [default]. specialize (Hr b eq_refl).
  destruct b as [|? [|? [|? [|? [|? ?]]]]]; done.
Qed.

Lemma suffix_inj q q' rng rng' :
  rng_ok rng -> rng_ok rng' -> (q < 2 ^ 64)%N -> (q' < 2 ^ 64)%N -> suffix_of q rng = suffix_of q' rng' -> q = q'.
Proof.
  intros _ _ Hq Hq'. unfold suffix_of, mailbox_suffix. intros [E _]%app_inj_1; [|by rewrite !hex_padded_length].
  by apply hex_padded_inj in E.
Qed.

Lemma key_of_inj q q' k : key_of q k -> key_of q' k -> (q < 2 ^ 64)%N -> (q' < 2 ^ 64)%N -> q = q'.
Proof.
  intros (sc & re & t & rng & Hr & ->) (sc' & re' & t' & rng' & Hr' & E) Hq Hq'.
  unfold message_key, message_id in E. rewrite !app_assoc in E.
  apply app_inj_2 in E as [_ E]; [|by rewrite !suffix_length]. by apply suffix_inj in E.
Qed.

(** ** Rows and numbers *)

Lemma free_ok s s' : mail_ok s -> free_step s s' -> mail_ok s'.
Proof.
  intros Hok Hs. revert Hok. destruct Hs as [s Hlt|s q k v Hq Hk'|s q]; intros (Hc & Ht & Hk); cbn.
  - split; [done|]. split; [cbn; set_unfold; intros q [->|Hq%Ht]; lia|]. cbn. intros k r Hr.
    destruct (Hk _ _ Hr) as (Hv & q & H1 & H2 & H3). split; [done|]. exists q. split_and!; [done|lia|].
    set_unfold. intros [->|]; [lia|done].
  - split; [done|]. split; [cbn; set_solver|]. cbn. intros k' r' [[<- <-]|[_ Hr]]%lookup_insert_Some.
    + split; [by eexists|]. exists q. split_and!; [done|by apply Ht|set_solver].
    + destruct (Hk _ _ Hr) as (Hv & q' & ? & ? & ?). split; [done|]. exists q'. set_solver.
  - split; [done|]. split; [cbn; set_solver|]. cbn. intros k r Hr.
    destruct (Hk _ _ Hr) as (Hv & q' & ? & ? & ?). split; [done|]. exists q'. set_solver.
Qed.

(** A mailbox to evaluate on: two messages for the lead, one of them read. *)
Definition sent_by (who : string) (q : N) (now : Z) (seen : bool) : MailboxMessage :=
  {| id := message_id now q (Some [0; 0; 0; 7]%N); sender := lit who; recipient := lit "lead"; body := lit "done";
     created_at := now; is_read := seen |}.
Definition demo_key (m : MailboxMessage) : str := message_key (lit "s1") (recipient m) (id m).
Definition first := sent_by "tester" 0 1700000000000 true.
Definition second := sent_by "writer" 1 1700000000001 false.
Definition demo_mail : Mail :=
  {| rows := <[demo_key first := Stored None (Some (message_value first))]>
             (<[demo_key second := Stored None (Some (message_value second))]> ∅);
     counter := 2; taken := ∅ |}.

Lemma demo_mail_ok : mail_ok demo_mail.
Proof.
  split; [done|]. split; [by intros q Hq%not_elem_of_empty|].
  intros k r Hk. unfold demo_mail, rows in Hk.
  apply lookup_insert_Some in Hk as [[<- <-]|[_ [[<- <-]|[_ Hr]]%lookup_insert_Some]]; [..|by rewrite lookup_empty in Hr];
    (split; [by eexists|]); [exists 0%N|exists 1%N]; (split; [|by vm_compute]);
    eexists _, _, _, _; (split; [|reflexivity]); by intros b [= <-].
Qed.

(** A deleted message can come back: [mark_read] reads the row and writes it back,
    and the row is removed between the two commands.  The mutex of one mailbox
    keeps its own operations apart, not those of a second instance. *)
Example unlocked_mark_revives :
  let w := fun n => {| clock := 0; fault := false;
                       others := if (n =? 1)%nat then set_rows ∅ else fun s => s |} in
  rows (state_of (mark_read (lit "s1") (lit "lead") (id second) w 0%nat demo_mail)) !! demo_key second
  = Some (Stored None (Some (message_value (marked_read second)))).
Proof. vm_compute. reflexivity. Qed.

(** One row that cannot be read closes the whole inbox. *)
Example damaged_row_closes_inbox :
  let s := set_rows (<[message_key (lit "s1") (lit "lead") (lit "x") := Stored None None]> (rows demo_mail)) demo_mail in
  result_of (inbox (lit "s1") (lit "lead") (quiet 0) 0%nat demo_mail) = Ok [first; second] /\
  result_of (inbox (lit "s1") (lit "lead") (quiet 0) 0%nat s) = Err unreadable /\
  result_of (prune_read (lit "s1") (lit "lead") (quiet 0) 0%nat s) = Err unreadable.
Proof. vm_compute. done. Qed.

(** ** Delivery *)

Lemma message_round_trip m : created_at m <= i64_max -> message_of_value (message_value m) = Some m.
Proof.
  intros Ht. transitivity (t ← i64_of_value (value_of_i64 (created_at m));
    Some {| id := id m; sender := sender m; recipient := recipient m; body := body m; created_at := t; is_read := is_read m |});
    [reflexivity|]. rewrite i64_round_trip by done. by destruct m.
Qed.

(** A post draws a number and stores one message with it, whatever the others
    do with theirs, as long as the counter does not wrap. *)
Lemma post_is_free scope now rng from to text w n s :
  calm free_step w -> rng_ok rng -> (counter (others (w n) s) + 1 < 2 ^ 64)%N ->
  (forall t, counter (others (w n) s) ∈ taken t -> counter (others (w n) s) ∈ taken (others (w (Datatypes.S n)) t)) ->
  rtc free_step s (state_of (post scope now rng from to text w n s)).
Proof.
  intros Hw Hrng Hlow Hmine. unfold post, bind, lift, guard_else, state_of.
  destruct (validate_agent_name from _); [|done]. destruct (validate_agent_name to _); [|done].
  destruct (_ <=? _)%N; [|done]. unfold ret at 1, fetch_add.
  pose proof (step_take _ Hlow) as Htake. pose proof (Hw n s : rtc free_step s (others (w n) s)) as H1.
  set (q := counter (others (w n) s)) in *. set (s2 := Build_Mail _ _ _) in *.
  assert (q ∈ taken (others (w (Datatypes.S n)) s2)) as Hq by (apply Hmine; cbn; set_solver).
  pose proof (Hw (Datatypes.S n) s2 : rtc free_step s2 _) as H2.
  assert (rtc free_step s (others (w (Datatypes.S n)) s2)) as H3 by (etrans; [eapply rtc_r; [exact H1|exact Htake]|exact H2]).
  unfold store_message, set_row, kv_set, command. destruct (fault (w (Datatypes.S n))).
  { eapply rtc_r; [exact H3|]. apply step_lost. }
  eapply rtc_r; [exact H3|].
  apply (step_store (others (w (Datatypes.S n)) s2) q); [exact Hq|]. eexists _, _, _, _. split; [exact Hrng|reflexivity].
Qed.

(** *** In a mailbox that can be read and that nobody else uses *)

Definition payload (t : Rows) (k : str) : option value := match t !! k with Some (Stored _ v) => v | _ => None end.

Definition readable (s : Mail) : Prop := forall k r, rows s !! k = Some r -> exists v, r = Stored None (Some v).

Definition messages_in (scope recipient : str) (s : Mail) : list MailboxMessage :=
  omap (fun k => payload (rows s) k ≫= message_of_value) (keys_where (listed 0) (inbox_prefix scope recipient) (rows s)).

Lemma listed_readable s t p : readable s -> keys_where (listed t) p (rows s) = keys_where (listed 0) p (rows s).
Proof.
  intros Hr. unfold keys_where. f_equal. f_equal. f_equal. apply map_filter_ext. intros k r Hk.
  destruct (Hr _ _ Hk) as [v ->]. done.
Qed.

Lemma set_rows_same s : set_rows (rows s) s = s.
Proof. by destruct s. Qed.

Lemma collect_quiet t ks n s :
  readable s -> (forall k, k ∈ ks -> is_Some (rows s !! k)) ->
  exists n', collect ks (quiet t) n s = (Ok (omap (fun k => payload (rows s) k ≫= message_of_value) ks), s, n').
Proof.
  intros Hr. revert n. induction ks as [|k ks IH]; intros n Hk; [by eexists|].
  destruct (Hk k ltac:(by left)) as [r Hkr]. destruct (Hr _ _ Hkr) as [v ->].
  destruct (IH (Datatypes.S n) ltac:(set_solver)) as [n' E]. cbn [collect]. unfold bind at 1, get_row, kv_get.
  rewrite command_quiet, Hkr. cbn [row_expired is_expired row_value]. rewrite set_rows_same.
  unfold bind. rewrite E. cbn [omap list_omap]. replace (payload (rows s) k) with (Some v) by (unfold payload; by rewrite Hkr).
  cbn [mbind option_bind]. destruct (message_of_value v); by eexists.
Qed.

Lemma inbox_quiet scope recipient t n s :
  readable s -> path_segment recipient = true ->
  exists l n', inbox scope recipient (quiet t) n s = (Ok l, s, n') /\
    l ≡ₚ messages_in scope recipient s /\ Sorted message_le l.
Proof.
  intros Hr Hp. unfold inbox, bind at 1, lift, validate_agent_name. rewrite Hp.
  unfold bind at 1, list_rows, kv_list_prefix. rewrite command_quiet, set_rows_same. rewrite (listed_readable s t) by done.
  set (ks := merge_sort key_le _). destruct (collect_quiet t ks (Datatypes.S n) s Hr) as [n' E].
  { intros k Hk. unfold ks in Hk. rewrite merge_sort_Permutation in Hk. apply elem_keys_where in Hk as [_ (r & Hkr & _)]. by eexists. }
  unfold bind. rewrite E. eexists _, _. split; [done|]. split.
  - rewrite merge_sort_Permutation. unfold messages_in, ks. by rewrite merge_sort_Permutation.
  - by apply Sorted_merge_sort, message_le_total.
Qed.

Lemma keys_where_insert (keep : Row -> bool) (p : str) (t : Rows) (k : str) r :
  t !! k = None -> keep r = true ->
  keys_where keep p (<[k := r]> t) ≡ₚ if starts_with p k then k :: keys_where keep p t else keys_where keep p t.
Proof.
  intros Hk Hr. assert (k ∉ keys_where keep p t) as Hn by (intros [_ (x & Hx & _)]%elem_keys_where; congruence).
  apply NoDup_Permutation; [apply nodup_keys_where|destruct (starts_with p k); [constructor|]; auto using nodup_keys_where|].
  intros k'. rewrite elem_keys_where. setoid_rewrite lookup_insert_Some.
  destruct (starts_with p k) eqn:Ep; rewrite ?elem_of_cons, elem_keys_where; split.
  - intros [Hp (x & [[<- <-]|[_ Hx]] & Hx')]; [by left|right; eauto].
  - intros [->|[Hp (x & Hx & Hx')]]; [split; eauto|]. split; [done|]. exists x. split; [|done]. right. split; [|done]. congruence.
  - intros [Hp (x & [[<- <-]|[_ Hx]] & Hx')]; [congruence|eauto].
  - intros [Hp (x & Hx & Hx')]. split; [done|]. exists x. split; [|done]. right. split; [|done]. congruence.
Qed.

Lemma omap_cons {A B} (f : A -> option B) x l : omap f (x :: l) = match f x with Some y => y :: omap f l | None => omap f l end.
Proof. done. Qed.

Lemma messages_in_insert scope recipient s s' k v :
  rows s !! k = None -> rows s' = <[k := Stored None (Some v)]> (rows s) ->
  messages_in scope recipient s' ≡ₚ
  if starts_with (inbox_prefix scope recipient) k
  then match message_of_value v with Some m => m :: messages_in scope recipient s | None => messages_in scope recipient s end
  else messages_in scope recipient s.
Proof.
  intros Hk Hs'. unfold messages_in. rewrite Hs', keys_where_insert by done.
  assert (omap (fun k' => payload (<[k := Stored None (Some v)]> (rows s)) k' ≫= message_of_value)
            (keys_where (listed 0) (inbox_prefix scope recipient) (rows s)) =
          omap (fun k' => payload (rows s) k' ≫= message_of_value)
            (keys_where (listed 0) (inbox_prefix scope recipient) (rows s))) as E.
  { apply list_omap_ext, Forall_Forall2_diag, Forall_forall. intros k' (_ & x & Hx & _)%elem_keys_where.
    unfold payload. rewrite lookup_insert_ne; [done|congruence]. }
  destruct (starts_with _ k); [|by rewrite E]. rewrite omap_cons, E.
  unfold payload at 1. rewrite lookup_insert_eq. cbn [mbind option_bind]. by destruct (message_of_value v).
Qed.

(** C27: What is posted arrives: when nothing fails and nobody interferes, the inbox of
    the recipient holds the messages it held and the new one, unread; all other
    inboxes are as they were. *)
Theorem posts_arrive scope now rng from to text t n s m s1 n1 :
  mail_ok s -> readable s -> rng_ok rng -> path_segment scope = true -> now <= i64_max ->
  post scope now rng from to text (quiet t) n s = (Ok m, s1, n1) ->
  sender m = from /\ recipient m = to /\ body m = text /\ is_read m = false /\ readable s1 /\
  messages_in scope to s1 ≡ₚ m :: messages_in scope to s /\
  (forall scope' to', path_segment scope' = true -> path_segment to' = true ->
     (scope', to') <> (scope, to) -> messages_in scope' to' s1 ≡ₚ messages_in scope' to' s) /\
  forall t' n', exists l n2, inbox scope to (quiet t') n' s1 = (Ok l, s1, n2) /\
    l ≡ₚ m :: messages_in scope to s /\ Sorted message_le l.
Proof.
  intros Hok Hread Hrng Hscope Hnow Hr. unfold post, validate_agent_name, bind, lift, guard_else in Hr.
  destruct (path_segment from); [|done]. destruct (path_segment to) eqn:Hto; [|done].
  destruct (_ <=? _)%N; [|done]. injection Hr as Hm Hs1 _.
  set (k := message_key scope to (message_id now (counter s) rng)) in *.
  assert (rows s !! k = None) as Hk.
  { destruct (rows s !! k) as [r|] eqn:E; [|done]. destruct Hok as (Hc & _ & Hrow). destruct (Hrow _ _ E) as (_ & q & Hq & Hlt & _).
    enough (q = counter s) by lia. apply (key_of_inj _ _ k); [done| |lia|done]. by eexists _, _, _, _. }
  assert (rows s1 = <[k := Stored None (Some (message_value m))]> (rows s)) as Hrows by (subst s1 m; done).
  assert (readable s1) as Hread1.
  { intros k' r Hk'. rewrite Hrows in Hk'. apply lookup_insert_Some in Hk' as [[_ <-]|[_ Hk']]; [by eexists|by eapply Hread]. }
  assert (message_of_value (message_value m) = Some m) as Hcodec by (apply message_round_trip; by subst m).
  assert (starts_with (inbox_prefix scope to) k = true) as Hprefix by apply starts_with_app.
  assert (messages_in scope to s1 ≡ₚ m :: messages_in scope to s) as Hin.
  { rewrite (messages_in_insert scope to s s1 k) by done. by rewrite Hprefix, Hcodec. }
  subst m. split_and!; [done..| |].
  - intros scope' to' Hs' Ht' Hne. rewrite (messages_in_insert scope' to' s s1 k) by done.
    destruct (starts_with (inbox_prefix scope' to') k) eqn:E; [|done]. exfalso. apply Hne.
    destruct (inboxes_disjoint scope' to' scope to k) as [-> ->]; done.
  - intros t' n'. destruct (inbox_quiet scope to t' n' s1 Hread1 Hto) as (l & n2 & Hl & Hp & Hsorted).
    exists l, n2. split; [done|]. split; [by rewrite Hp|done].
Qed.

Lemma posts_arrive_witness :
  let r := post (lit "s1") 1700000000002 None (lit "editor") (lit "lead") (lit "ready") (quiet 0) 0%nat demo_mail in
  exists m s1, result_of r = Ok m /\ s1 = state_of r /\
    messages_in (lit "s1") (lit "lead") s1 ≡ₚ m :: messages_in (lit "s1") (lit "lead") demo_mail.
Proof.
  intros r. eexists _, _. split; [vm_compute; reflexivity|]. split; [reflexivity|].
  eapply (posts_arrive (lit "s1") 1700000000002 None (lit "editor") (lit "lead") (lit "ready") 0 0%nat demo_mail);
    [apply demo_mail_ok| |by intros b|reflexivity|vm_compute; discriminate|vm_compute; reflexivity].
  intros k x Hk. unfold demo_mail, rows in Hk.
  apply lookup_insert_Some in Hk as [[_ <-]|[_ [[_ <-]|[_ Hk]]%lookup_insert_Some]]; [by eexists..|by rewrite lookup_empty in Hk].
Defined.

(** ** The executor *)

Record TeammateTask := { agent : str; prompt : str }.
Record TeammateResult := { r_agent : str; output : str; success : bool }.

Record Executor := { registry : AgentRegistry; running : gset str }.

Definition set_running (f : gset str -> gset str) (e : Executor) : Executor :=
  {| registry := registry e; running := f (running e) |}.

(** [dispatch] up to the call of the runner, and from its answer on. *)
Definition enlist (t : TeammateTask) (e : Executor) : result AgentDefinition MemoryError * Executor :=
  match get_definition (registry e) (agent t) with
  | None => (Err (EntryNotFound (agent t)), e)
  | Some d =>
      if bool_decide (agent t ∈ running e)
      then (Err (Storage (lit "sub-agent '" ++ agent t ++ lit "' is already running; concurrent dispatch refused")), e)
      else (Ok d, set_running (fun r => {[agent t]} ∪ r) e)
  end.

Definition settle (t : TeammateTask) (answer : result str str) (e : Executor) : TeammateResult * Executor :=
  (match answer with
   | Ok output => {| r_agent := agent t; output := output; success := true |}
   | Err reason => {| r_agent := agent t; output := reason; success := false |}
   end, set_running (fun r => r ∖ {[agent t]}) e).

(** Any number of dispatches at once: [runs] are those whose runner is at work.
    The host can also drop the future of a dispatch. *)
Inductive dispatching : Executor * gmap nat TeammateTask -> Executor * gmap nat TeammateTask -> Prop :=
| dispatch_admitted e runs j t d e' :
    runs !! j = None -> enlist t e = (Ok d, e') -> dispatching (e, runs) (e', <[j := t]> runs)
| dispatch_refused e runs t x : enlist t e = (Err x, e) -> dispatching (e, runs) (e, runs)
| dispatch_settled e runs j t answer :
    runs !! j = Some t -> dispatching (e, runs) ((settle t answer e).2, delete j runs)
| dispatch_dropped e runs j : dispatching (e, runs) (e, delete j runs).

Definition exclusive (w : Executor * gmap nat TeammateTask) : Prop :=
  (forall j t, w.2 !! j = Some t -> agent t ∈ running w.1 /\ is_Some (get_definition (registry w.1) (agent t))) /\
  forall i j t u, w.2 !! i = Some t -> w.2 !! j = Some u -> agent t = agent u -> i = j.

Lemma exclusive_step w w' : exclusive w -> dispatching w w' -> exclusive w'.
Proof.
  intros Hx Hs. revert Hx. destruct Hs as [e runs j t d e' Hj Ha|e runs t x Ha|e runs j t a Hj|e runs j]; intros [H1 H2]; cbn in *.
  - unfold enlist in Ha. destruct (get_definition _ _) eqn:Ed; [|done]. case_bool_decide as Hin; [done|]. injection Ha as -> <-.
    split; cbn.
    + intros i u [[_ <-]|[_ Hu]]%lookup_insert_Some; [split; [set_solver|by eexists]|]. destruct (H1 _ _ Hu). set_solver.
    + intros i k u v [[<- <-]|[_ Hu]]%lookup_insert_Some [[<- <-]|[_ Hv]]%lookup_insert_Some He; [done| | |by eapply H2].
      * destruct (H1 _ _ Hv) as [Hr _]. congruence.
      * destruct (H1 _ _ Hu) as [Hr _]. congruence.
  - done.
  - split; cbn.
    + intros i u [Hi Hu]%lookup_delete_Some. destruct (H1 _ _ Hu) as [Hr Hd]. split; [|done].
      apply elem_of_difference. split; [done|]. rewrite elem_of_singleton. intros He. by destruct (Hi (H2 _ _ _ _ Hj Hu (eq_sym He))).
    + intros i k u v [_ Hu]%lookup_delete_Some [_ Hv]%lookup_delete_Some. by eapply H2.
  - split; cbn.
    + intros i u [_ Hu]%lookup_delete_Some. by eapply H1.
    + intros i k u v [_ Hu]%lookup_delete_Some [_ Hv]%lookup_delete_Some. by eapply H2.
Qed.

(** C28: However dispatches interleave, succeed, fail or are dropped, no agent runs
    twice at a time. *)
Theorem one_run_per_agent reg w i j t u :
  rtc dispatching ({| registry := reg; running := ∅ |}, ∅) w ->
  w.2 !! i = Some t -> w.2 !! j = Some u -> agent t = agent u -> i = j.
Proof.
  intros Hr. enough (exclusive w) as [_ H] by eauto.
  assert (exclusive ({| registry := reg; running := ∅ |}, ∅)) as H0 by (split; cbn; intros ? ?; by rewrite lookup_empty).
  revert H0. induction Hr as [|x y z Hs _ IH]; [done|]. intros H0. by eapply IH, exclusive_step.
Qed.

Definition builder : AgentDefinition := new_definition (lit "builder") (lit "builds").
Definition build_task : TeammateTask := {| agent := lit "builder"; prompt := lit "go" |}.
Definition with_builder : Executor := {| registry := register builder new_registry; running := ∅ |}.

(** A dispatch that is dropped leaves its agent in the set: nobody runs, and
    every later task of the agent is refused. *)
Example dropped_dispatch_blocks_agent :
  let busy := (enlist build_task with_builder).2 in
  rtc dispatching (with_builder, ∅) (busy, ∅) /\
  (enlist build_task busy).1 = Err (Storage (lit "sub-agent 'builder' is already running; concurrent dispatch refused")).
Proof.
  split; [|vm_compute; reflexivity].
  eapply rtc_l; [eapply (dispatch_admitted _ _ 0%nat build_task builder); [by rewrite lookup_empty|vm_compute; reflexivity]|].
  eapply rtc_l; [apply (dispatch_dropped _ _ 0%nat)|]. rewrite delete_insert_id by by rewrite lookup_empty. done.
Qed.

Lemma one_run_per_agent_witness :
  let w := ((enlist build_task with_builder).2, <[0%nat := build_task]> (∅ : gmap nat TeammateTask)) in
  rtc dispatching (with_builder, ∅) w /\
  forall i j t u, w.2 !! i = Some t -> w.2 !! j = Some u -> agent t = agent u -> i = j.
Proof.
  intros w. assert (rtc dispatching (with_builder, ∅) w) as H.
  { apply rtc_once. by eapply (dispatch_admitted _ _ 0%nat build_task builder); [rewrite lookup_empty|vm_compute; reflexivity]. }
  split; [exact H|]. intros i j t u. exact (one_run_per_agent _ w i j t u H).
Defined.

(** ** Least privilege *)

(** A tool is granted exactly when the definition names it or all tools, and
    forbids neither; a new definition grants nothing. *)
Theorem allows_tool_exact d tool :
  allows_tool d tool = true <->
  (tool ∈ tools d \/ lit "*" ∈ tools d) /\ (tool ∉ disallowed_tools d) /\ (lit "*" ∉ disallowed_tools d).
Proof.
  assert (forall l, existsb (names_tool tool) l = true <-> tool ∈ l \/ lit "*" ∈ l) as H.
  { intros l. rewrite existsb_elem. unfold names_tool. split.
    - intros (t & Hin & [->%str_eqb_eq| ->%str_eqb_eq]%orb_true_iff); auto.
    - intros [Hin|Hin]; eexists; (split; [exact Hin|]); rewrite str_eqb_refl; by rewrite ?orb_true_r. }
  unfold allows_tool. destruct (existsb (names_tool tool) (disallowed_tools d)) eqn:E.
  - apply H in E. split; [done|]. tauto.
  - assert (~ (tool ∈ disallowed_tools d \/ lit "*" ∈ disallowed_tools d)) by (intros Hx; apply H in Hx; congruence).
    rewrite H. tauto.
Qed.

Definition registry_ok (r : AgentRegistry) : Prop :=
  NoDup (order r) /\ (forall n, n ∈ order r <-> is_Some (defs r !! n)) /\ forall n d, defs r !! n = Some d -> name d = n.

Lemma register_keeps_ok d r : registry_ok r -> registry_ok (register d r).
Proof.
  intros (H1 & H2 & H3). unfold register, registry_ok. cbn. split_and!.
  - destruct (defs r !! name d) eqn:E; [done|]. apply NoDup_app. split_and!; [done| |apply NoDup_singleton].
    intros x Hx ->%list_elem_of_singleton. apply H2 in Hx as [? ?]. congruence.
  - intros n. destruct (decide (name d = n)) as [<-|Hne].
    + rewrite lookup_insert_eq. split; [by eexists|]. intros _. destruct (defs r !! name d) eqn:E; [apply H2; by eexists|set_solver].
    + rewrite lookup_insert_ne, <- H2 by done. destruct (defs r !! name d); set_solver.
  - intros n x [[<- <-]|[_ Hx]]%lookup_insert_Some; eauto.
Qed.

Lemma list_names r : registry_ok r -> name <$> list_definitions r = order r.
Proof.
  intros (_ & H2 & H3). unfold list_definitions, get_definition.
  assert (forall n, n ∈ order r -> is_Some (defs r !! n)) as H by (intros n; apply H2).
  clear H2. induction (order r) as [|n l IH]; [done|]. cbn. destruct (H n ltac:(by left)) as [d Hd]. rewrite Hd. cbn.
  rewrite (H3 _ _ Hd). f_equal. apply IH. set_solver.
Qed.

Lemma register_all_ok ds : registry_ok (foldl (fun r d => register d r) new_registry ds).
Proof.
  induction ds as [|d ds IH] using rev_ind; [|rewrite foldl_app; by apply register_keeps_ok]. split_and!; cbn.
  - constructor.
  - intros n. rewrite lookup_empty. split; [by intros ?%not_elem_of_nil|by intros [? ?]].
  - intros n d. by rewrite lookup_empty.
Qed.

(** The registry keeps one definition per name, the latest, in the order in
    which the names were first registered. *)
Theorem registry_refines_map ds :
  let r := foldl (fun r d => register d r) new_registry ds in
  registry_ok r /\ (forall n, get_definition r n = last (List.filter (fun d => str_eqb (name d) n) ds)) /\
  length (list_definitions r) = registry_len r /\ name <$> list_definitions r = order r.
Proof.
  intros r. pose proof (register_all_ok ds) as Hok. fold r in Hok. split; [done|]. split; [|rewrite (list_names _ Hok); split; [|done]].
  - subst r. clear Hok. intros n. induction ds as [|d ds IH] using rev_ind; [done|].
    rewrite foldl_app, List.filter_app. cbn. unfold get_definition, register. cbn. destruct (str_eqb (name d) n) eqn:E.
    + apply str_eqb_eq in E as <-. by rewrite lookup_insert_eq, last_snoc.
    + rewrite app_nil_r, lookup_insert_ne; [apply IH|]. intros He. rewrite He, str_eqb_refl in E. done.
  - transitivity (length (name <$> list_definitions r)); [by rewrite length_fmap|by rewrite (list_names _ Hok)].
Qed.
