(* ===== verification/Vectors.v ===== *)
(** * Vectors of the memory ([memory/vector.rs])

    Namespaces with their keys, the arithmetic on embeddings and the form in which
    they are stored.  A component is a single-precision number, kept as its sign,
    mantissa and exponent; the operations are those of IEEE 754 with rounding to
    nearest.  The sum of no squares is taken to be minus zero, as in current
    versions of the standard library; it only matters for empty vectors. *)

From Stdlib Require Import SpecFloat.
From stdpp Require Import countable.
From S2P Require Import Prelude Utf8 JsonValue Messages.

Open Scope string_scope.
Open Scope list_scope.
Open Scope Z_scope.

Abbreviation f32 := spec_float (only parsing).

(** ** Namespaces *)

Inductive MemoryNamespace := Personal | Document | Code | EnterpriseKnowledge | Temporary.

#[export] Instance namespace_eq_dec : EqDecision MemoryNamespace.
Proof. solve_decision. Defined.

Definition ALL : list MemoryNamespace := [Personal; Document; Code; EnterpriseKnowledge; Temporary].

#[export] Program Instance namespace_countable : Countable MemoryNamespace :=
  {| countable.encode ns := match ns with Personal => 1 | Document => 2 | Code => 3 | EnterpriseKnowledge => 4 | Temporary => 5 end%positive;
     countable.decode p := nth_error ALL (pred (Pos.to_nat p)) |}.
Next Obligation. by intros []. Qed.

Definition namespace_str (ns : MemoryNamespace) : str :=
  match ns with
  | Personal => lit "personal"
  | Document => lit "document"
  | Code => lit "code"
  | EnterpriseKnowledge => lit "enterprise_knowledge"
  | Temporary => lit "temporary"
  end.

Definition storage_key (ns : MemoryNamespace) (id : str) : str := namespace_str ns ++ lit "/" ++ id.
Definition storage_prefix (ns : MemoryNamespace) : str := namespace_str ns ++ lit "/".

Inductive Metric := Cosine | Euclidean.

#[export] Instance metric_eq_dec : EqDecision Metric.
Proof. solve_decision. Defined.

Record VectorIndexConfig := { dimension : Z; distance_metric : Metric; graph_m : Z; graph_ef : Z }.

Definition default_for (ns : MemoryNamespace) : VectorIndexConfig :=
  let '(dimension, m, ef) :=
    match ns with
    | Personal => (1536, 16, 50)
    | Document => (1536, 32, 100)
    | Code => (768, 24, 80)
    | EnterpriseKnowledge => (1536, 32, 100)
    | Temporary => (1536, 16, 50)
    end in
  {| dimension := dimension; distance_metric := Cosine; graph_m := m; graph_ef := ef |}.

Definition VECTOR_MAX_ENTRIES : Z := 100000.
Definition VECTOR_MAX_ENTRIES_WEB : Z := 10000.
Definition vector_max_entries `{Platform} : Z := if wasm then VECTOR_MAX_ENTRIES_WEB else VECTOR_MAX_ENTRIES.

(** ** Arithmetic *)

Definition add32 : f32 -> f32 -> f32 := SFadd 24 128.
Definition sub32 : f32 -> f32 -> f32 := SFsub 24 128.
Definition mul32 : f32 -> f32 -> f32 := SFmul 24 128.
Definition div32 : f32 -> f32 -> f32 := SFdiv 24 128.
Definition sqrt32 : f32 -> f32 := SFsqrt 24 128.
Definition mul64 : f64 -> f64 -> f64 := SFmul 53 1024.
Definition div64 : f64 -> f64 -> f64 := SFdiv 53 1024.
Definition sqrt64 : f64 -> f64 := SFsqrt 53 1024.

(** [f64::powf], which the platform's mathematical library computes. *)
Class Power := { powf : f64 -> f64 -> f64 }.

Definition f32_of_Z (z : Z) : f32 := binary_normalize 24 128 z 0 false.
Definition f32_zero : f32 := S754_zero false.

(** [f32::clamp] and [f32::max]. *)
Definition clamp32 (lo hi x : f32) : f32 := if SFltb x lo then lo else if SFltb hi x then hi else x.
Definition max32 (x y : f32) : f32 :=
  match x with S754_nan => y | _ => if SFltb x y then y else x end.

Definition cosine_similarity (a b : list f32) : f32 :=
  let '(dot, na, nb) :=
    fold_left (fun '(dot, na, nb) '(x, y) => (add32 dot (mul32 x y), add32 na (mul32 x x), add32 nb (mul32 y y)))
      (combine a b) (f32_zero, f32_zero, f32_zero) in
  if SFeqb na f32_zero || SFeqb nb f32_zero then f32_zero
  else div32 dot (mul32 (sqrt32 na) (sqrt32 nb)).

Definition similarity_score (metric : Metric) (a b : list f32) : f32 :=
  match metric with
  | Cosine => cosine_similarity a b
  | Euclidean =>
      SFopp (sqrt32 (fold_left (fun sum '(x, y) => add32 sum (mul32 (sub32 x y) (sub32 x y)))
        (combine a b) (S754_zero true)))
  end.

(** ** Quantisation *)

Record QuantizedVector := { scale : f32; data : list Z }.

Definition dim (q : QuantizedVector) : nat := length (data q).

(** [f32::round] of a finite number, as the integer it is: halves away from zero. *)
Definition round_magnitude (m e : Z) : Z :=
  if 0 <=? e then m * 2 ^ e else (2 * m + 2 ^ (- e)) / (2 * 2 ^ (- e)).

(** [(x.round().clamp(-127.0, 127.0)) as i8]. *)
Definition round_to_i8 (x : f32) : Z :=
  match x with
  | S754_nan => 0
  | S754_zero _ => 0
  | S754_infinity s => if s then -127 else 127
  | S754_finite s m e => let r := Z.min 127 (round_magnitude (Zpos m) e) in if s then - r else r
  end.

Definition max_abs (v : list f32) : f32 :=
  fold_left (fun m x => if is_finite x && SFltb m (SFabs x) then SFabs x else m) v f32_zero.

Definition scale_of (v : list f32) : f32 :=
  if SFltb f32_zero (max_abs v) then
    let scale := div32 (max_abs v) (f32_of_Z 127) in
    if SFeqb scale f32_zero then f32_of_Z 1 else scale
  else f32_of_Z 1.

Definition quantize_i8 (v : list f32) : QuantizedVector :=
  let scale := scale_of v in
  {| scale := scale; data := (fun x => if negb (is_finite x) then 0 else round_to_i8 (div32 x scale)) <$> v |}.

Definition dequantize_i8 (q : QuantizedVector) : list f32 := (fun d => mul32 (f32_of_Z d) (scale q)) <$> data q.

(** The three sums in [i64]. *)
Definition i8_sums (a b : list Z) : Z * Z * Z :=
  fold_left (fun '(dot, na, nb) '(x, y) => (dot + x * y, na + x * x, nb + y * y)) (combine a b) (0, 0, 0).

Definition cosine_similarity_i8 (a b : list Z) : f32 :=
  let '(dot, na, nb) := i8_sums a b in
  if (na =? 0) || (nb =? 0) then f32_zero
  else clamp32 (f32_of_Z (-1)) (f32_of_Z 1)
         (f32_of_f64 (div64 (f64_of_Z dot) (mul64 (sqrt64 (f64_of_Z na)) (sqrt64 (f64_of_Z nb))))).

Definition quantized_score (metric : Metric) (query entry : QuantizedVector) : f32 :=
  match metric with
  | Cosine => cosine_similarity_i8 (data query) (data entry)
  | Euclidean => similarity_score metric (dequantize_i8 query) (dequantize_i8 entry)
  end.

(** ** The stored form *)

(** [f64::from]. *)
Definition f64_of_f32 (f : f32) : f64 :=
  match f with
  | S754_finite s m e => binary_normalize 53 1024 (if s then Zneg m else Zpos m) e s
  | other => other
  end.

(** [Number::from_f64]. *)
Definition number_of_f64 (f : f64) : value := if is_finite f then VNumber (Float f) else VNull.

Definition vector_to_value (v : list f32) : value := VArray ((fun x => number_of_f64 (f64_of_f32 x)) <$> v).

Definition component_of_value (v : value) : result f32 MemoryError :=
  match as_f64 v with
  | None => Err (Serialization (lit "embedding element not a number"))
  | Some f =>
      if is_finite (f32_of_f64 f) then Ok (f32_of_f64 f)
      else Err (Serialization (lit "embedding element is outside the finite f32 range"))
  end.

Fixpoint components_of_values (l : list value) : result (list f32) MemoryError :=
  match l with
  | [] => Ok []
  | v :: l =>
      match component_of_value v with
      | Err e => Err e
      | Ok x => match components_of_values l with Ok xs => Ok (x :: xs) | Err e => Err e end
      end
  end.

Definition vector_from_value (v : value) : result (list f32) MemoryError :=
  match as_array v with
  | None => Err (Serialization (lit "embedding is not an array"))
  | Some l => components_of_values l
  end.

(** A finite single-precision number. *)
Definition f32_ok (f : f32) : bool := is_finite f && valid_binary 24 128 f.

(** ** Keys *)

(** A key belongs to one namespace. *)
Lemma namespace_of_key ns ns' k :
  starts_with (storage_prefix ns) k = true -> starts_with (storage_prefix ns') k = true -> ns = ns'.
Proof.
  intros (x & ->)%starts_with_spec (y & E)%starts_with_spec. destruct ns, ns'; done || (cbn in E; discriminate).
Qed.

Lemma storage_key_prefix ns id : storage_key ns id = storage_prefix ns ++ id.
Proof. unfold storage_key, storage_prefix. by rewrite <- app_assoc. Qed.

Lemma storage_key_starts ns id : starts_with (storage_prefix ns) (storage_key ns id) = true.
Proof. apply starts_with_spec. exists id. apply storage_key_prefix. Qed.

Lemma storage_key_inj ns ns' id id' : storage_key ns id = storage_key ns' id' -> ns = ns' /\ id = id'.
Proof.
  intros E. assert (ns = ns') as <-.
  { apply (namespace_of_key _ _ (storage_key ns id)); [apply storage_key_starts|]. rewrite E. apply storage_key_starts. }
  split; [done|]. rewrite !storage_key_prefix in E. by apply app_inv_head in E.
Qed.

Lemma strip_storage_prefix ns id : strip_prefix (storage_prefix ns) (storage_key ns id) = Some id.
Proof. unfold strip_prefix. by rewrite storage_key_starts, storage_key_prefix, drop_app_length. Qed.

(** ** What is stored is read back *)

Lemma iter_pos_iter {A} (f : A -> A) n x : SpecFloat.iter_pos f n x = Pos.iter f x n.
Proof.
  revert x. induction n as [n IH|n IH|]; intros x; cbn; [|by rewrite !IH|done].
  rewrite !IH. by rewrite <- !Pos.iter_swap.
Qed.

Lemma shift_left_right m d :
  SpecFloat.iter_pos shr_1 d {| shr_m := Zpos (Pos.iter xO m d); shr_r := false; shr_s := false |}
  = {| shr_m := Zpos m; shr_r := false; shr_s := false |}.
Proof.
  rewrite iter_pos_iter. induction d as [|d IH] using Pos.peano_ind; [done|].
  by rewrite !Pos.iter_succ, <- Pos.iter_swap.
Qed.

Lemma digits_shift m d : Zpos (digits2_pos (Pos.iter xO m d)) = Zpos (digits2_pos m) + Zpos d.
Proof. induction d as [|d IH] using Pos.peano_ind; [cbn; lia|]. rewrite Pos.iter_succ. cbn. lia. Qed.

(** A mantissa with its canonical exponent is not rounded. *)
Lemma round_exact prec emax s m e :
  fexp prec emax (Zpos (digits2_pos m) + e) = e -> e <= emax - prec ->
  binary_round_aux prec emax s (Zpos m) e loc_Exact = S754_finite s m e.
Proof.
  intros Hf He. unfold binary_round_aux, shr_fexp. cbn [Zdigits2]. rewrite Hf, Z.sub_diag. cbn.
  rewrite Hf, Z.sub_diag. cbn. by rewrite (proj2 (Z.leb_le _ _) He).
Qed.

(** Twenty-four digits are padded to fifty-three, *)
Lemma widen_canonical s m e :
  bounded 24 128 m e = true -> let d := 53 - Zpos (digits2_pos m) in
  29 <= d /\ binary_round 53 1024 s m e = S754_finite s (Pos.iter xO m (Z.to_pos d)) (e - d).
Proof.
  intros [Hc%Z.eqb_eq He%Z.leb_le]%andb_true_iff. pose proof (Pos2Z.is_pos (digits2_pos m)) as Hd0.
  unfold fexp, emin in Hc. cbv zeta. set (d := Zpos (digits2_pos m)) in *. split; [lia|].
  unfold binary_round, shl_align. fold d.
  assert (fexp 53 1024 (d + e) - e = Zneg (Z.to_pos (53 - d))) as ->.
  { unfold fexp, emin. rewrite <- Pos2Z.opp_pos, Z2Pos.id by lia. lia. }
  replace (fexp 53 1024 (d + e)) with (e - (53 - d)) by (unfold fexp, emin; lia).
  apply round_exact; [|lia]. rewrite digits_shift, Z2Pos.id by lia. unfold fexp, emin. fold d. lia.
Qed.

(** and the padding is cut off again. *)
Lemma narrow_padded s m e d :
  bounded 24 128 m e = true -> d = 53 - Zpos (digits2_pos m) -> 29 <= d ->
  binary_round 24 128 s (Pos.iter xO m (Z.to_pos d)) (e - d) = S754_finite s m e.
Proof.
  intros [Hc%Z.eqb_eq He%Z.leb_le]%andb_true_iff Hd Hd29. unfold fexp, emin in Hc. unfold binary_round, shl_align.
  assert (forall x, x = Zpos (digits2_pos m) + e -> fexp 24 128 x = e) as Hf by (intros x ->; unfold fexp, emin; lia).
  rewrite digits_shift, Z2Pos.id by lia. rewrite Hf by lia.
  replace (e - (e - d)) with (Zpos (Z.to_pos d)) by (rewrite Z2Pos.id; lia).
  unfold binary_round_aux, shr_fexp. cbn [Zdigits2]. rewrite digits_shift, Z2Pos.id by lia. rewrite Hf by lia.
  replace (e - (e - d)) with (Zpos (Z.to_pos d)) by (rewrite Z2Pos.id; lia).
  unfold shr at 1. cbn [shr_record_of_loc]. rewrite shift_left_right. cbn [shr_m loc_of_shr_record round_nearest_even Zdigits2].
  rewrite Z2Pos.id by lia. rewrite Hf by lia. replace (e - (e - d + d)) with 0 by lia.
  cbn [shr shr_record_of_loc shr_m]. replace (e - d + d) with e by lia. by rewrite (proj2 (Z.leb_le _ _) He).
Qed.

Lemma widen_narrow f : f32_ok f = true -> is_finite (f64_of_f32 f) = true /\ f32_of_f64 (f64_of_f32 f) = f.
Proof.
  destruct f as [s|s| |s m e]; try done. unfold f32_ok. cbn [is_finite valid_binary]. rewrite andb_true_l. intros Hb.
  destruct (widen_canonical s m e Hb) as [Hd Hw].
  assert (f64_of_f32 (S754_finite s m e) =
    S754_finite s (Pos.iter xO m (Z.to_pos (53 - Zpos (digits2_pos m)))) (e - (53 - Zpos (digits2_pos m)))) as -> by (by destruct s).
  split; [done|]. pose proof (narrow_padded s m e _ Hb eq_refl Hd) as H. by destruct s.
Qed.

Lemma component_round_trip x : f32_ok x = true -> component_of_value (number_of_f64 (f64_of_f32 x)) = Ok x.
Proof.
  intros Hx. destruct (widen_narrow x Hx) as [Hf Hn]. unfold number_of_f64, component_of_value. rewrite Hf. cbn [as_f64].
  rewrite Hn. apply andb_true_iff in Hx as [-> _]. done.
Qed.

(** An embedding of finite components is read back from the table as it was
    written there, bit for bit. *)
Theorem embeddings_round_trip v : Forall (fun x => f32_ok x = true) v -> vector_from_value (vector_to_value v) = Ok v.
Proof.
  unfold vector_from_value, vector_to_value. cbn [as_array]. induction 1 as [|x v Hx _ IH]; [done|].
  cbn [fmap list_fmap components_of_values]. rewrite component_round_trip by done.
  change (list_fmap _ _ ?f ?l) with (f <$> l). by rewrite IH.
Qed.

Lemma embeddings_round_trip_witness :
  let v := [f32_of_Z 1; SFopp (div32 (f32_of_Z 1) (f32_of_Z 3)); S754_finite false 1 (-149)] in
  Forall (fun x => f32_ok x = true) v /\ vector_from_value (vector_to_value v) = Ok v.
Proof.
  intros v. assert (Forall (fun x => f32_ok x = true) v) as H by (repeat constructor).
  split; [done|]. by apply embeddings_round_trip.
Defined.

Lemma components_finite l v : components_of_values l = Ok v -> Forall (fun x => is_finite x = true) v.
Proof.
  revert v. induction l as [|x l IH]; intros v; [by intros [= <-]|]. cbn [components_of_values]. unfold component_of_value.
  destruct (as_f64 x) as [f|]; [|done]. destruct (is_finite (f32_of_f64 f)) eqn:E; [|done].
  destruct (components_of_values l) as [xs|]; [|done]. intros [= <-]. constructor; [done|by apply IH].
Qed.

(** Whatever is in the table, what is read from it is finite. *)
Lemma vector_from_value_finite x v : vector_from_value x = Ok v -> Forall (fun x => is_finite x = true) v.
Proof. unfold vector_from_value. destruct (as_array x); [apply components_finite|done]. Qed.

(** ** The quantised form *)

Definition i8_ok (d : Z) : Prop := -127 <= d <= 127.

Lemma round_magnitude_nonneg m e : 0 <= m -> 0 <= round_magnitude m e.
Proof.
  intros Hm. unfold round_magnitude. destruct (Z.leb_spec 0 e).
  - pose proof (Z.pow_nonneg 2 e ltac:(lia)). by apply Z.mul_nonneg_nonneg.
  - pose proof (Z.pow_pos_nonneg 2 (- e) ltac:(lia) ltac:(lia)). apply Z.div_le_lower_bound; lia.
Qed.

Lemma round_to_i8_ok x : i8_ok (round_to_i8 x).
Proof.
  unfold i8_ok, round_to_i8. destruct x as [s|[]| |s m e]; try lia. cbv zeta.
  pose proof (round_magnitude_nonneg (Zpos m) e ltac:(lia)). destruct s; lia.
Qed.

(** Every component is within the grid, whatever the vector holds. *)
Lemma quantize_in_grid v : length (data (quantize_i8 v)) = length v /\ Forall i8_ok (data (quantize_i8 v)).
Proof.
  cbn. split; [by rewrite length_fmap|]. apply Forall_fmap, Forall_true. intros x. cbn.
  destruct (is_finite x); [apply round_to_i8_ok|split; done].
Qed.

Abbreviation sums_from := (fold_left (fun '(dot, na, nb) '(x, y) => (dot + x * y, na + x * x, nb + y * y))) (only parsing).

Lemma sums_step l d p r :
  sums_from l (d, p, r) = let '(d', p', r') := sums_from l (0, 0, 0) in (d + d', p + p', r + r').
Proof.
  assert (forall l d p r k a b, sums_from l (d + k, p + a, r + b) =
    let '(d', p', r') := sums_from l (k, a, b) in (d + d', p + p', r + r')) as H.
  { clear. induction l as [|[x y] l IH]; intros; [done|]. cbn [fold_left]. rewrite <- !Z.add_assoc. apply IH. }
  specialize (H l d p r 0 0 0). by rewrite !Z.add_0_r in H.
Qed.

Lemma i8_sums_cons x y a b :
  i8_sums (x :: a) (y :: b) = let '(d, p, r) := i8_sums a b in (x * y + d, x * x + p, y * y + r).
Proof. unfold i8_sums. cbn [combine fold_left]. by rewrite sums_step. Qed.

(** One step of the inequality of Cauchy and Schwarz: the mixed term is at most the
    mean of two squares. *)
Lemma cauchy_step x y d p r :
  0 <= p -> 0 <= r -> d * d <= p * r -> (x * y + d) * (x * y + d) <= (x * x + p) * (y * y + r).
Proof.
  intros Hp Hr Hd. set (u := x * x * r). set (v := y * y * p). set (z := x * y * d).
  assert (0 <= u /\ 0 <= v) as [Hu Hv] by (unfold u, v; nia).
  assert (z * z <= u * v) as Hz.
  { replace (z * z) with ((x * y) * (x * y) * (d * d)) by (unfold z; ring).
    replace (u * v) with ((x * y) * (x * y) * (p * r)) by (unfold u, v; ring).
    apply Z.mul_le_mono_nonneg_l; [nia|done]. }
  assert (2 * z <= u + v) as Hm.
  { apply Z.nlt_ge. intros Hlt. pose proof (Z.square_nonneg (u - v)) as Hs.
    assert ((u + v) * (u + v) < (2 * z) * (2 * z)) as H by (apply Z.mul_lt_mono_nonneg; lia).
    replace ((u + v) * (u + v)) with ((u - v) * (u - v) + 4 * (u * v)) in H by ring.
    replace (2 * z * (2 * z)) with (4 * (z * z)) in H by ring. lia. }
  replace ((x * y + d) * (x * y + d)) with (x * y * (x * y) + 2 * z + d * d) by (unfold z; ring).
  replace ((x * x + p) * (y * y + r)) with (x * y * (x * y) + (u + v) + p * r) by (unfold u, v; ring). lia.
Qed.

(** The sums that the loop has after any number of steps are those of a prefix, so
    these bounds hold for every intermediate value: no [i64] overflows for any
    dimension in [u32], and the cosine of the exact sums is at most one. *)
Theorem quantized_sums_in_range a b :
  Forall i8_ok a -> Forall i8_ok b -> length a = length b ->
  let '(dot, na, nb) := i8_sums a b in
  let n := Z.of_nat (length a) in
  (0 <= na <= 16129 * n /\ 0 <= nb <= 16129 * n /\ dot * dot <= na * nb /\ Z.abs dot <= 16129 * n)
  /\ (n < 2 ^ 32 -> Z.abs dot < 2 ^ 63 /\ na < 2 ^ 63 /\ nb < 2 ^ 63)
  /\ (na = 0 <-> Forall (eq 0) a).
Proof.
  intros Ha. revert b. induction Ha as [|x a Hx Ha IH]; intros [|y b] Hb Hl; try done.
  apply Forall_cons in Hb as [Hy Hb]. cbn in Hl. specialize (IH b Hb ltac:(lia)). rewrite i8_sums_cons.
  destruct (i8_sums a b) as [[d p] r]. cbn zeta in *. destruct IH as ((Hp & Hr & Hcs & Hd) & _ & Hz). cbn [length].
  rewrite Nat2Z.inj_succ. set (n := Z.of_nat (length a)) in *. unfold i8_ok in *.
  assert (0 <= x * x <= 16129 /\ 0 <= y * y <= 16129 /\ -16129 <= x * y <= 16129) as (Hxx & Hyy & Hxy) by nia.
  split_and!; try lia; [apply cauchy_step; lia|].
  rewrite Forall_cons, <- Hz. split; [|intros [<- ->]; lia]. intros E. assert (x * x = 0) by lia. split; nia.
Qed.

Lemma quantized_sums_in_range_witness :
  let a := data (quantize_i8 [f32_of_Z 3; f32_of_Z (-4)]) in let b := data (quantize_i8 [f32_of_Z 1; f32_of_Z 1]) in
  a = [95; -127] /\ i8_sums a b = (-4064, 25154, 32258) /\ (Forall (eq 0) a -> False).
Proof.
  intros a b. pose proof (quantized_sums_in_range a b (proj2 (quantize_in_grid _)) (proj2 (quantize_in_grid _)) eq_refl) as H.
  split; [vm_compute; reflexivity|]. split; [vm_compute; reflexivity|].
  assert (i8_sums a b = (-4064, 25154, 32258)) as E by (vm_compute; reflexivity). rewrite E in H.
  destruct H as (_ & _ & Hz). intros F%Hz. discriminate.
Defined.

Lemma mul64_comm x y : mul64 x y = mul64 y x.
Proof.
  destruct x as [[]|[]| |[] mx ex], y as [[]|[]| |[] my ey]; try done; cbn; by rewrite (Pos.mul_comm mx), (Z.add_comm ex).
Qed.

(** The score does not depend on which of the two vectors is the query. *)
Lemma cosine_i8_sym a b : length a = length b -> cosine_similarity_i8 a b = cosine_similarity_i8 b a.
Proof.
  intros Hl. unfold cosine_similarity_i8.
  assert (i8_sums b a = let '(d, p, r) := i8_sums a b in (d, r, p)) as ->.
  { revert b Hl. induction a as [|x a IH]; intros [|y b] Hl; try done. cbn in Hl. rewrite !i8_sums_cons, IH by lia.
    destruct (i8_sums a b) as [[d p] r]. by rewrite Z.mul_comm. }
  destruct (i8_sums a b) as [[d p] r]. by rewrite orb_comm, mul64_comm.
Qed.
