(* ===== verification/Compute.v ===== *)
(** * The compute tools ([tools/compute.rs])

    The calculator: characters to tokens, tokens to postfix order with a stack of
    operators, postfix order to a number.  The grammar [renders] gives the meaning
    the calculator is meant to have, and [calculator_is_correct] shows that every
    text of the grammar has the value of its tree.  The text, date and JSON tools
    with their limits; parsing JSON and rendering Markdown are the work of
    libraries. *)

From Stdlib Require Import SpecFloat.
From S2P Require Import Prelude JsonValue Messages Kv Calendar Vectors.

Open Scope string_scope.
Open Scope list_scope.
Open Scope Z_scope.

(** ** Limits and input *)

Definition COMPUTE_INPUT_MAX_BYTES : N := 1024 * 1024.
Definition COMPUTE_OUTPUT_MAX_BYTES : N := 8 * 1024 * 1024.

(** [ToolResult::ok] and [ToolResult::err]. *)
Inductive ToolReply := Answer (output : str) | Refusal (output : str).

(** The [?] operator. *)
Notation "'let*' x ':=' m 'in' k" := (and_then m (fun x => k)) (at level 10, x name, m at level 200, k at level 200).

Definition validate_compute_input (key value : str) : result unit ToolError :=
  if (COMPUTE_INPUT_MAX_BYTES <? utf8_len value)%N
  then Err (InvalidInput (lit "string field '" ++ key ++ lit "' exceeds the " ++ show_N COMPUTE_INPUT_MAX_BYTES ++ lit " byte compute input limit"))
  else Ok tt.

Definition require_str (input : value) (key : string) : result str ToolError :=
  match get_str key input with
  | None => Err (InvalidInput (lit "missing required string field: " ++ lit key))
  | Some v => let* checked := validate_compute_input (lit key) v in Ok v
  end.

Definition optional_str (input : value) (key : string) (absent : str) : result str ToolError :=
  let v := default absent (get_str key input) in
  let* checked := validate_compute_input (lit key) v in Ok v.

Definition bounded_compute_output (output : str) : ToolReply :=
  if (COMPUTE_OUTPUT_MAX_BYTES <? utf8_len output)%N
  then Refusal (lit "compute result would exceed the " ++ show_N COMPUTE_OUTPUT_MAX_BYTES ++ lit " byte output limit")
  else Answer output.

(** ** Floating point *)

Definition add64 : f64 -> f64 -> f64 := SFadd 53 1024.
Definition sub64 : f64 -> f64 -> f64 := SFsub 53 1024.

(** [%] on doubles: the remainder of the truncated quotient, which is exact. *)
Definition rem64 (x y : f64) : f64 :=
  match x, y with
  | S754_nan, _ | _, S754_nan | S754_infinity _, _ | _, S754_zero _ => S754_nan
  | _, S754_infinity _ | S754_zero _, _ => x
  | S754_finite s mx ex, S754_finite _ my ey =>
      let e := Z.min ex ey in
      let r := (Zpos mx * 2 ^ (ex - e)) mod (Zpos my * 2 ^ (ey - e)) in
      binary_normalize 53 1024 (if s then - r else r) e s
  end.

(** [str::parse::<f64>] on digits and dots: at least one digit and at most one
    dot, rounded to the nearest double. *)
Definition parse_f64 (literal : str) : option f64 :=
  let '(whole, fraction) := default (literal, []) (split_once 46%N literal) in
  if is_empty whole && is_empty fraction then None
  else
    n ← parse_digits 0 (whole ++ fraction);
    Some (match n with
          | N0 => f64_zero
          | Npos p => SFdiv 53 1024 (S754_finite false p 0) (S754_finite false (Z.to_pos (10 ^ Z.of_nat (length fraction))) 0)
          end).

(** ** The calculator *)

Inductive CalcToken :=
| Number (v : f64)
| Op (op : char)
| LeftParen
| RightParen.

(** The characters ['+'], ['-'], ['*'], ['/'], ['%'], ['^'] and ['~']. *)
Definition plus : char := 43%N.
Definition minus : char := 45%N.
Definition times : char := 42%N.
Definition over : char := 47%N.
Definition percent : char := 37%N.
Definition caret : char := 94%N.
Definition tilde : char := 126%N.

Definition is_operator (c : char) : bool := existsb (N.eqb c) [plus; minus; times; over; percent; caret].
Definition is_blank (c : char) : bool := existsb (N.eqb c) [32; 9; 10; 13]%N.
Definition is_number_char (c : char) : bool := is_ascii_digit c || (c =? 46)%N.

Fixpoint take_while {A} (f : A -> bool) (l : list A) : list A :=
  match l with [] => [] | x :: l' => if f x then x :: take_while f l' else [] end.

(** Whether a minus sign after these tokens is a prefix. *)
Definition unary (c : char) (tokens : list CalcToken) : bool :=
  (c =? minus)%N && negb (match last tokens with Some (Number _) | Some RightParen => true | _ => false end).

Fixpoint tokenize_loop (fuel : nat) (chars : str) (tokens : list CalcToken) : result (list CalcToken) str :=
  match fuel, chars with
  | _, [] => Ok tokens
  | O, _ => Err (lit "out of fuel")
  | S fuel, c :: rest =>
      if is_blank c then tokenize_loop fuel rest tokens
      else if is_number_char c then
        let literal := take_while is_number_char chars in
        match parse_f64 literal with
        | None => Err (lit "bad number literal '" ++ literal ++ lit "'")
        | Some v => tokenize_loop fuel (drop_while is_number_char chars) (tokens ++ [Number v])
        end
      else if is_operator c then tokenize_loop fuel rest (tokens ++ [Op (if unary c tokens then tilde else c)])
      else if (c =? 40)%N then tokenize_loop fuel rest (tokens ++ [LeftParen])
      else if (c =? 41)%N then tokenize_loop fuel rest (tokens ++ [RightParen])
      else Err (lit "unexpected character '" ++ [c] ++ lit "'")
  end.

Definition tokenize (expression : str) : result (list CalcToken) str := tokenize_loop (length expression) expression [].

Definition precedence (op : char) : nat :=
  if existsb (N.eqb op) [plus; minus] then 1
  else if existsb (N.eqb op) [times; over; percent] then 2
  else if (op =? caret)%N then 3
  else if (op =? tilde)%N then 4
  else 0.

Definition should_pop (top op : char) : bool :=
  (precedence op <? precedence top)%nat || (precedence top =? precedence op)%nat && negb (op =? caret)%N && negb (op =? tilde)%N.

(** The top of the stack [ops] is its head. *)
Fixpoint pop_while (op : char) (output ops : list CalcToken) : list CalcToken * list CalcToken :=
  match ops with
  | Op top :: rest => if should_pop top op then pop_while op (output ++ [Op top]) rest else (output, ops)
  | _ => (output, ops)
  end.

Fixpoint close_paren (output ops : list CalcToken) : result (list CalcToken * list CalcToken) str :=
  match ops with
  | LeftParen :: rest => Ok (output, rest)
  | op :: rest => close_paren (output ++ [op]) rest
  | [] => Err (lit "unbalanced parentheses")
  end.

Definition shunt (token : CalcToken) (output ops : list CalcToken) : result (list CalcToken * list CalcToken) str :=
  match token with
  | Number _ => Ok (output ++ [token], ops)
  | Op op => let '(output, ops) := pop_while op output ops in Ok (output, token :: ops)
  | LeftParen => Ok (output, token :: ops)
  | RightParen => close_paren output ops
  end.

Fixpoint shunt_all (tokens output ops : list CalcToken) : result (list CalcToken * list CalcToken) str :=
  match tokens with
  | [] => Ok (output, ops)
  | token :: rest => let* next := shunt token output ops in shunt_all rest next.1 next.2
  end.

Fixpoint drain (output ops : list CalcToken) : result (list CalcToken) str :=
  match ops with
  | [] => Ok output
  | LeftParen :: _ => Err (lit "unbalanced parentheses")
  | op :: rest => drain (output ++ [op]) rest
  end.

Definition malformed {A} : result A str := Err (lit "malformed expression").

Section Calculator.
Context `{Power}.

Definition apply_binary (op : char) (lhs rhs : f64) : result f64 str :=
  if (op =? plus)%N then Ok (add64 lhs rhs)
  else if (op =? minus)%N then Ok (sub64 lhs rhs)
  else if (op =? times)%N then Ok (mul64 lhs rhs)
  else if (op =? over)%N then if SFeqb rhs f64_zero then Err (lit "division by zero") else Ok (div64 lhs rhs)
  else if (op =? percent)%N then if SFeqb rhs f64_zero then Err (lit "division by zero") else Ok (rem64 lhs rhs)
  else Ok (powf lhs rhs).

(** The top of [stack] is its head. *)
Definition eval_token (token : CalcToken) (stack : list f64) : result (list f64) str :=
  match token with
  | Number v => Ok (v :: stack)
  | Op op =>
      if (op =? tilde)%N
      then match stack with operand :: rest => Ok (SFopp operand :: rest) | [] => malformed end
      else match stack with
           | rhs :: lhs :: rest => let* v := apply_binary op lhs rhs in Ok (v :: rest)
           | _ => malformed
           end
  | _ => malformed
  end.

Fixpoint eval_postfix (tokens : list CalcToken) (stack : list f64) : result (list f64) str :=
  match tokens with
  | [] => Ok stack
  | token :: rest => let* stack := eval_token token stack in eval_postfix rest stack
  end.

Definition finish_value (stack : list f64) : result f64 str :=
  match stack with
  | [v] => if is_finite v then Ok v else Err (lit "result is not finite")
  | _ => malformed
  end.

Definition eval_expression (expression : str) : result f64 str :=
  let* tokens := tokenize expression in
  if is_empty tokens then Err (lit "empty expression")
  else
    let* shunted := shunt_all tokens [] [] in
    let* output := drain shunted.1 shunted.2 in
    let* stack := eval_postfix output [] in
    finish_value stack.

(** [fract() == 0.0 && abs() < 1e15]: an integer is shown as one. *)
Context (show_f64 : f64 -> str).

Definition integer_of (v : f64) : option Z :=
  match v with
  | S754_zero _ => Some 0
  | S754_finite s m e =>
      let magnitude := if 0 <=? e then Zpos m * 2 ^ e else Zpos m / 2 ^ (- e) in
      if (if 0 <=? e then true else Zpos m mod 2 ^ (- e) =? 0) && (magnitude <? 10 ^ 15)
      then Some (if s then - magnitude else magnitude) else None
  | _ => None
  end.

Definition format_number (v : f64) : str := match integer_of v with Some n => show_Z n | None => show_f64 v end.

Definition calculator (input : value) : result ToolReply ToolError :=
  let* expression := require_str input "expression" in
  match eval_expression expression with
  | Ok v => Ok (Answer (format_number v))
  | Err reason => Ok (Refusal (lit "invalid expression '" ++ expression ++ lit "': " ++ reason))
  end.
End Calculator.

(** ** The grammar

    Trees, and the token lists that stand for them: level 1 for sums, 2 for
    products, 3 for powers, which associate to the right, 4 for the prefix minus,
    which binds tightest, 5 for numbers and parentheses. *)

Inductive Expr :=
| Num (v : f64)
| Neg (e : Expr)
| Bin (op : char) (l r : Expr).

(** The operators that associate to the left. *)
Definition left_operator (p : nat) (op : char) : Prop :=
  p = 1%nat /\ (op = plus \/ op = minus) \/ p = 2%nat /\ (op = times \/ op = over \/ op = percent).

Inductive renders : nat -> list CalcToken -> Expr -> Prop :=
| renders_number v : renders 5 [Number v] (Num v)
| renders_paren ts e : renders 1 ts e -> renders 5 (LeftParen :: ts ++ [RightParen]) e
| renders_neg ts e : renders 4 ts e -> renders 4 (Op tilde :: ts) (Neg e)
| renders_power ts1 ts2 l r : renders 4 ts1 l -> renders 3 ts2 r -> renders 3 (ts1 ++ Op caret :: ts2) (Bin caret l r)
| renders_left p op ts1 ts2 l r :
    left_operator p op -> renders p ts1 l -> renders (S p) ts2 r -> renders p (ts1 ++ Op op :: ts2) (Bin op l r)
| renders_tighter p ts e : renders (S p) ts e -> renders p ts e.

Fixpoint postfix (e : Expr) : list CalcToken :=
  match e with
  | Num v => [Number v]
  | Neg e => postfix e ++ [Op tilde]
  | Bin op l r => postfix l ++ postfix r ++ [Op op]
  end.

(** What an operator stands for; a division by zero has no value. *)
Definition operations `{Power} : list (char * (f64 -> f64 -> f64)) :=
  [(plus, add64); (minus, sub64); (times, mul64); (over, div64); (percent, rem64); (caret, powf)].

Definition operation `{Power} (op : char) (a b : f64) : result f64 str :=
  match List.find (fun entry => N.eqb (fst entry) op) operations with
  | Some (_, f) => if existsb (N.eqb op) [over; percent] && SFeqb b f64_zero then Err (lit "division by zero") else Ok (f a b)
  | None => malformed
  end.

(** The meaning of a tree: both sides, from the left, then the operation. *)
Fixpoint eval_tree `{Power} (e : Expr) : result f64 str :=
  match e with
  | Num v => Ok v
  | Neg e => let* v := eval_tree e in Ok (SFopp v)
  | Bin op l r => let* a := eval_tree l in let* b := eval_tree r in operation op a b
  end.

(** *** The stack of operators *)

Lemma left_operator_precedence p op : left_operator p op -> precedence op = p /\ (1 <= p <= 2)%nat.
Proof. by intros [[-> [->| ->]]|[-> [->|[->| ->]]]]; (split; [reflexivity|lia]). Qed.

Lemma precedence_cases op :
  (precedence op = 0 \/ precedence op = 1 \/ precedence op = 2 \/ precedence op = 3 /\ op = caret \/ precedence op = 4 /\ op = tilde)%nat.
Proof.
  unfold precedence. destruct (existsb _ [plus; minus]); [by right; left|]. destruct (existsb _ [times; over; percent]); [by right; right; left|].
  destruct (N.eqb_spec op caret); [by do 3 right; left|]. destruct (N.eqb_spec op tilde); [by do 4 right|by left].
Qed.

Lemma low_operators op : (1 <= precedence op <= 2)%nat -> (op =? caret)%N = false /\ (op =? tilde)%N = false.
Proof.
  intros Hp. split; apply N.eqb_neq; intros ->; revert Hp; vm_compute; lia.
Qed.

(** No operator of the level takes the top of the stack. *)
Definition stable (p : nat) (ops : list CalcToken) : Prop :=
  match ops with Op top :: _ => forall op, (p <= precedence op)%nat -> should_pop top op = false | _ => True end.

Definition of_level (p : nat) (t : CalcToken) : Prop := exists op, t = Op op /\ (p <= precedence op)%nat.

Lemma stable_tighter p ops : stable p ops -> stable (S p) ops.
Proof. destruct ops as [|[]]; try done. intros H q Hq. apply H. lia. Qed.

Lemma stable_pop op output ops : stable (precedence op) ops -> pop_while op output ops = (output, ops).
Proof. destruct ops as [|[]]; try done. intros H. cbn [pop_while]. by rewrite H. Qed.

Lemma pop_level op k output ops :
  Forall (fun t => exists top, t = Op top /\ should_pop top op = true) k -> stable (precedence op) ops ->
  pop_while op output (k ++ ops) = (output ++ k, ops).
Proof.
  intros Hk Hs. revert output. induction Hk as [|t k (top & -> & Ht) _ IH]; intros output; cbn [app].
  - by rewrite app_nil_r, stable_pop.
  - cbn [pop_while]. rewrite Ht, IH. by rewrite <- app_assoc.
Qed.

Lemma close_level p k output ops : Forall (of_level p) k -> close_paren output (k ++ LeftParen :: ops) = Ok (output ++ k, ops).
Proof.
  intros Hk. revert output. induction Hk as [|t k (top & -> & _) _ IH]; intros output; cbn [app close_paren]; [by rewrite app_nil_r|].
  rewrite IH. by rewrite <- app_assoc.
Qed.

Lemma drain_level p k output : Forall (of_level p) k -> drain output k = Ok (output ++ k).
Proof.
  intros Hk. revert output. induction Hk as [|t k (top & -> & _) _ IH]; intros output; cbn [drain]; [by rewrite app_nil_r|].
  rewrite IH. by rewrite <- app_assoc.
Qed.

Lemma shunt_all_app a b output ops : shunt_all (a ++ b) output ops = let* r := shunt_all a output ops in shunt_all b r.1 r.2.
Proof.
  revert output ops. induction a as [|t a IH]; intros output ops; [done|]. cbn [app shunt_all]. destruct (shunt t output ops) as [[o k]|e]; [|done].
  cbn [and_then]. apply IH.
Qed.

Lemma should_pop_above top op : (precedence op < precedence top)%nat -> should_pop top op = true.
Proof. intros H. unfold should_pop. by rewrite (proj2 (Nat.ltb_lt _ _) H). Qed.

Lemma should_pop_left top op : (precedence op <= precedence top)%nat -> (1 <= precedence op <= 2)%nat -> should_pop top op = true.
Proof.
  intros H Hp. unfold should_pop. destruct (low_operators op Hp) as [-> ->]. destruct (Nat.ltb_spec (precedence op) (precedence top)); [done|].
  rewrite (proj2 (Nat.eqb_eq (precedence top) _)) by lia. done.
Qed.

Lemma should_pop_below top op : (precedence top < precedence op)%nat -> should_pop top op = false.
Proof.
  intros H. unfold should_pop. destruct (Nat.ltb_spec (precedence op) (precedence top)); [lia|].
  destruct (Nat.eqb_spec (precedence top) (precedence op)); [lia|done].
Qed.

(** The two operators that wait: a power for a power to its right, a prefix minus
    for another one. *)
Lemma should_pop_right op top : op = caret \/ op = tilde -> (precedence top <= precedence op)%nat -> should_pop top op = false.
Proof.
  intros Hop H. unfold should_pop. destruct (Nat.ltb_spec (precedence op) (precedence top)); [lia|].
  destruct Hop as [->| ->]; cbn; by rewrite andb_false_r.
Qed.

Lemma stable_after op ops : op = caret \/ op = tilde -> stable (precedence op) (Op op :: ops).
Proof.
  intros Hop q Hq. destruct (decide (precedence op = precedence q)) as [E|]; [|by apply should_pop_below; lia].
  assert (q = op) as ->; [|by apply should_pop_right].
  destruct Hop as [->| ->]; destruct (precedence_cases q) as [E'|[E'|[E'|[[E' ->]|[E' ->]]]]]; try done; rewrite E' in E; discriminate.
Qed.

(** Whatever is on the stack, the tokens of a tree push its postfix form, of which
    only operators of its level may still wait on the stack. *)
Lemma shunt_renders p ts e : renders p ts e -> forall output ops, stable p ops ->
  exists o k, shunt_all ts output ops = Ok (output ++ o, k ++ ops) /\ o ++ k = postfix e /\ Forall (of_level p) k.
Proof.
  induction 1 as [v|ts e _ IH|ts e _ IH|ts1 ts2 l r _ IH1 _ IH2|p op ts1 ts2 l r Hleft _ IH1 _ IH2|p ts e _ IH]; intros output ops Hs.
  - by exists [Number v], [].
  - destruct (IH output (LeftParen :: ops) I) as (o & k & E & Ho & Hk). exists (o ++ k), []. split; [|by rewrite app_nil_r].
    cbn [shunt_all shunt and_then fst snd]. rewrite shunt_all_app, E. cbn [and_then fst snd shunt_all shunt].
    rewrite (close_level 1) by done. cbn [and_then fst snd]. by rewrite <- app_assoc.
  - destruct (IH output (Op tilde :: ops) (stable_after tilde ops (or_intror eq_refl))) as (o & k & E & Ho & Hk).
    exists o, (k ++ [Op tilde]). split; [|split; [by rewrite app_assoc, Ho|]].
    + cbn [shunt_all shunt]. rewrite stable_pop by done. cbn [and_then fst snd]. rewrite E. by rewrite <- app_assoc.
    + apply Forall_app. split; [done|]. constructor; [|done]. by exists tilde.
  - destruct (IH1 output ops (stable_tighter _ _ Hs)) as (o1 & k1 & E1 & Ho1 & Hk1).
    destruct (IH2 (output ++ o1 ++ k1) (Op caret :: ops) (stable_after caret ops (or_introl eq_refl))) as (o2 & k2 & E2 & Ho2 & Hk2).
    exists ((o1 ++ k1) ++ o2), (k2 ++ [Op caret]). split; [|split].
    + rewrite shunt_all_app, E1. cbn [and_then fst snd shunt_all shunt]. rewrite pop_level; [|clear -Hk1|done].
      * cbn [and_then fst snd]. rewrite <- (app_assoc output o1 k1), E2. by rewrite <- !app_assoc.
      * eapply Forall_impl; [exact Hk1|]. intros t (top & -> & Ht). exists top. split; [done|]. apply should_pop_above. change (precedence caret) with 3%nat. lia.
    + rewrite Ho1. cbn [postfix]. rewrite <- app_assoc, (app_assoc o2), Ho2. done.
    + apply Forall_app. split; [done|]. constructor; [|done]. by exists caret.
  - destruct (left_operator_precedence _ _ Hleft) as [Hop Hp]. destruct (IH1 output ops Hs) as (o1 & k1 & E1 & Ho1 & Hk1).
    destruct (IH2 (output ++ o1 ++ k1) (Op op :: ops)) as (o2 & k2 & E2 & Ho2 & Hk2).
    { intros q Hq. apply should_pop_below. lia. }
    exists ((o1 ++ k1) ++ o2), (k2 ++ [Op op]). split; [|split].
    + rewrite shunt_all_app, E1. cbn [and_then fst snd shunt_all shunt]. rewrite pop_level; [| |by rewrite Hop].
      * cbn [and_then fst snd]. rewrite <- (app_assoc output o1 k1), E2. by rewrite <- !app_assoc.
      * eapply Forall_impl; [exact Hk1|]. intros t (top & -> & Ht). exists top. split; [done|]. apply should_pop_left; lia.
    + rewrite Ho1. cbn [postfix]. rewrite <- app_assoc, (app_assoc o2), Ho2. done.
    + apply Forall_app. split; [|constructor; [|done]; exists op; split; [done|lia]].
      eapply Forall_impl; [exact Hk2|]. intros t (top & -> & Ht). exists top. split; [done|lia].
  - destruct (IH output ops (stable_tighter _ _ Hs)) as (o & k & E & Ho & Hk). exists o, k. split; [done|split; [done|]].
    eapply Forall_impl; [exact Hk|]. intros t (top & -> & Ht). exists top. split; [done|lia].
Qed.

(** *** Postfix order *)

Fixpoint binary (e : Expr) : Prop :=
  match e with Num _ => True | Neg e => binary e | Bin op l r => op ∈ [plus; minus; times; over; percent; caret] /\ binary l /\ binary r end.

Lemma renders_binary p ts e : renders p ts e -> binary e.
Proof.
  induction 1 as [v|ts e _ IH|ts e _ IH|ts1 ts2 l r _ IH1 _ IH2|p op ts1 ts2 l r Hop _ IH1 _ IH2|p ts e _ IH]; cbn [binary]; auto.
  - split; [|done]. rewrite !elem_of_cons. tauto.
  - split; [|done]. rewrite !elem_of_cons. destruct Hop as [[_ Hop]|[_ Hop]]; tauto.
Qed.

Lemma apply_binary_operation `{Power} op a b : op ∈ [plus; minus; times; over; percent; caret] -> apply_binary op a b = operation op a b.
Proof. rewrite !elem_of_cons. intros [->|[->|[->|[->|[->|[->|[]%not_elem_of_nil]]]]]]; reflexivity. Qed.

Lemma eval_postfix_tree `{Power} e rest stack : binary e ->
  eval_postfix (postfix e ++ rest) stack = let* v := eval_tree e in eval_postfix rest (v :: stack).
Proof.
  revert rest stack. induction e as [v|e IH|op l IHl r IHr]; intros rest stack He; cbn [postfix eval_tree].
  - done.
  - rewrite <- app_assoc, IH by done. destruct (eval_tree e); [|done]. done.
  - destruct He as (Hop & Hl & Hr). rewrite <- !app_assoc, IHl by done. destruct (eval_tree l) as [a|]; [|done]. cbn [and_then].
    rewrite IHr by done. destruct (eval_tree r) as [b|]; [|done]. cbn [and_then app eval_postfix eval_token].
    assert (op <> tilde) as Hn by (rewrite !elem_of_cons in Hop; intros ->; by destruct Hop as [|[|[|[|[|[|[]%not_elem_of_nil]]]]]]).
    rewrite (proj2 (N.eqb_neq _ _) Hn), apply_binary_operation by done. by destruct (operation op a b).
Qed.

(** *** From text to tokens *)

Definition token_char (op : char) : char := if (op =? tilde)%N then minus else op.

(** A text of the tokens: blanks anywhere but in a number. *)
Inductive spells : list CalcToken -> str -> Prop :=
| spells_end : spells [] []
| spells_blank c ts s : is_blank c = true -> spells ts s -> spells ts (c :: s)
| spells_number literal v ts s :
    literal <> [] -> forallb is_number_char literal = true -> parse_f64 literal = Some v ->
    (forall c, head s = Some c -> is_number_char c = false) -> spells ts s -> spells (Number v :: ts) (literal ++ s)
| spells_op op ts s : is_operator (token_char op) = true -> spells ts s -> spells (Op op :: ts) (token_char op :: s)
| spells_left ts s : spells ts s -> spells (LeftParen :: ts) (40%N :: s)
| spells_right ts s : spells ts s -> spells (RightParen :: ts) (41%N :: s).

Definition ends_operand (tokens : list CalcToken) : bool :=
  match last tokens with Some (Number _) | Some RightParen => true | _ => false end.

(** Every minus sign is a prefix exactly where no operand ends. *)
Fixpoint placed (before ts : list CalcToken) : Prop :=
  match ts with
  | [] => True
  | t :: ts => match t with Op op => unary (token_char op) before = (op =? tilde)%N | _ => True end /\ placed (before ++ [t]) ts
  end.

Lemma placed_app before a b : placed before (a ++ b) <-> placed before a /\ placed (before ++ a) b.
Proof.
  revert before. induction a as [|t a IH]; intros before; cbn [app placed]; [rewrite app_nil_r; tauto|].
  rewrite IH, <- app_assoc. tauto.
Qed.

Lemma placed_binary op before : op <> tilde -> ends_operand before = true -> unary (token_char op) before = (op =? tilde)%N.
Proof.
  intros Hop He. rewrite (proj2 (N.eqb_neq _ _) Hop). unfold unary. fold (ends_operand before). by rewrite He, andb_false_r.
Qed.

Lemma renders_placed p ts e : renders p ts e -> forall before, ends_operand before = false ->
  placed before ts /\ ends_operand (before ++ ts) = true.
Proof.
  assert (forall before t, ends_operand (before ++ [t]) = match t with Number _ | RightParen => true | _ => false end) as Hlast.
  { intros before t. unfold ends_operand. by rewrite last_snoc. }
  induction 1 as [v|ts e _ IH|ts e _ IH|ts1 ts2 l r _ IH1 _ IH2|p op ts1 ts2 l r Hleft _ IH1 _ IH2|p ts e _ IH]; intros before Hb.
  - split; [done|by rewrite Hlast].
  - destruct (IH (before ++ [LeftParen])) as [Hp _]; [by rewrite Hlast|]. split.
    + cbn [placed]. split; [done|]. apply placed_app. split; [done|]. done.
    + change (LeftParen :: ts ++ [RightParen]) with ([LeftParen] ++ (ts ++ [RightParen])). by rewrite !app_assoc, Hlast.
  - destruct (IH (before ++ [Op tilde])) as [Hp He]; [by rewrite Hlast|]. split.
    + cbn [placed]. split; [|done]. unfold unary. fold (ends_operand before). by rewrite Hb.
    + change (Op tilde :: ts) with ([Op tilde] ++ ts). by rewrite app_assoc.
  - destruct (IH1 before Hb) as [Hp1 He1]. destruct (IH2 ((before ++ ts1) ++ [Op caret])) as [Hp2 He2]; [by rewrite Hlast|]. split.
    + apply placed_app. split; [done|]. cbn [placed]. split; [|done]. by apply placed_binary.
    + change (Op caret :: ts2) with ([Op caret] ++ ts2). by rewrite !app_assoc.
  - destruct (IH1 before Hb) as [Hp1 He1]. destruct (IH2 ((before ++ ts1) ++ [Op op])) as [Hp2 He2]; [by rewrite Hlast|]. split.
    + apply placed_app. split; [done|]. cbn [placed]. split; [|done]. apply placed_binary; [|done]. intros ->. by destruct Hleft as [[_ [|]]|[_ [|[|]]]].
    + change (Op op :: ts2) with ([Op op] ++ ts2). by rewrite !app_assoc.
  - by apply IH.
Qed.

Lemma renders_nonempty p ts e : renders p ts e -> ts <> [].
Proof. induction 1; try done. - by destruct ts1. - by destruct ts1. Qed.

Lemma span_literal (f : char -> bool) literal s : forallb f literal = true -> (forall c, head s = Some c -> f c = false) ->
  take_while f (literal ++ s) = literal /\ drop_while f (literal ++ s) = s.
Proof.
  intros Hl Hs. induction literal as [|c l IH]; cbn [app take_while drop_while].
  - destruct s as [|c s]; [done|]. cbn [take_while drop_while]. by rewrite (Hs c eq_refl).
  - cbn [forallb] in Hl. apply andb_true_iff in Hl as [-> Hl]. by destruct (IH Hl) as [-> ->].
Qed.

Lemma blank_kind c : is_blank c = true -> is_number_char c = false /\ is_operator c = false.
Proof.
  unfold is_blank. cbn [existsb]. rewrite !orb_true_iff, !N.eqb_eq. intros [->|[->|[->|[->|]]]]; done.
Qed.

Lemma number_kind c : is_number_char c = true -> is_blank c = false.
Proof. intros H. destruct (is_blank c) eqn:E; [|done]. apply blank_kind in E as [E _]. congruence. Qed.

Lemma operator_kind c : is_operator c = true -> is_blank c = false /\ is_number_char c = false.
Proof.
  intros H. split; [destruct (is_blank c) eqn:E; [apply blank_kind in E as [_ E]; congruence|done]|].
  unfold is_operator in H. cbn [existsb] in H. rewrite !orb_true_iff, !N.eqb_eq in H. by destruct H as [->|[->|[->|[->|[->|[->|]]]]]].
Qed.

Lemma tokenize_spelled ts s : spells ts s -> forall fuel before, (length s <= fuel)%nat -> placed before ts ->
  tokenize_loop fuel s before = Ok (before ++ ts).
Proof.
  induction 1 as [|c ts s Hc _ IH|literal v ts s Hn Hl Hv Hs _ IH|op ts s Hop _ IH|ts s _ IH|ts s _ IH]; intros fuel before Hf Hp.
  - rewrite app_nil_r. by destruct fuel.
  - destruct fuel as [|fuel]; cbn in Hf; [lia|]. cbn [tokenize_loop]. rewrite Hc. apply IH; [lia|done].
  - destruct literal as [|c literal]; [done|]. destruct fuel as [|fuel]; [cbn in Hf; lia|]. rewrite <- app_comm_cons in *. cbn [length] in Hf.
    cbn [tokenize_loop]. pose proof Hl as Hl'. cbn [forallb] in Hl'. apply andb_true_iff in Hl' as [Hc _]. rewrite (number_kind c Hc), Hc.
    change (c :: literal ++ s) with ((c :: literal) ++ s). destruct (span_literal is_number_char (c :: literal) s Hl Hs) as [-> ->].
    rewrite Hv, IH; [by rewrite <- app_assoc|rewrite length_app in Hf; lia|apply Hp].
  - destruct fuel as [|fuel]; cbn in Hf; [lia|]. cbn [tokenize_loop]. destruct (operator_kind _ Hop) as [-> ->]. rewrite Hop.
    destruct Hp as [Hu Hp]. rewrite Hu. assert ((if (op =? tilde)%N then tilde else token_char op) = op) as ->.
    { unfold token_char. by destruct (N.eqb_spec op tilde). }
    rewrite IH; [by rewrite <- app_assoc|lia|done].
  - destruct fuel as [|fuel]; cbn in Hf; [lia|]. cbn [tokenize_loop]. change (is_blank 40) with false. change (is_number_char 40) with false.
    change (is_operator 40) with false. change (40 =? 40)%N with true. cbv iota. rewrite IH; [by rewrite <- app_assoc|lia|apply Hp].
  - destruct fuel as [|fuel]; cbn in Hf; [lia|]. cbn [tokenize_loop]. change (is_blank 41) with false. change (is_number_char 41) with false.
    change (is_operator 41) with false. change (41 =? 40)%N with false. change (41 =? 41)%N with true. cbv iota. rewrite IH; [by rewrite <- app_assoc|lia|apply Hp].
Qed.

(** C36: A text of the grammar is evaluated as its tree: the operators bind as the
    levels say, whatever blanks and parentheses are used, and the first division by
    zero from the left is reported. *)
Theorem calculator_is_correct `{Power} ts e expression :
  renders 1 ts e -> spells ts expression ->
  eval_expression expression = (let* v := eval_tree e in if is_finite v then Ok v else Err (lit "result is not finite")).
Proof.
  intros Hr Hs. unfold eval_expression, tokenize. destruct (renders_placed _ _ _ Hr [] eq_refl) as [Hp _].
  rewrite (tokenize_spelled ts expression Hs) by done. cbn [and_then app].
  rewrite (proj2 (is_empty_false ts) (renders_nonempty _ _ _ Hr)).
  destruct (shunt_renders _ _ _ Hr [] [] I) as (o & k & -> & Ho & Hk). cbn [and_then fst snd app]. rewrite app_nil_r, (drain_level 1) by done.
  cbn [and_then]. rewrite Ho, <- (app_nil_r (postfix e)), eval_postfix_tree by by eapply renders_binary.
  destruct (eval_tree e); [|done]. done.
Qed.

(** [-2 ^ 2 - 6 / (1 + 2)] is [(-2) ^ 2 - 2]. *)
Lemma calculator_is_correct_witness :
  let P := {| powf x y := mul64 x x |} : Power in
  let n z := Number (f64_of_Z z) in
  let e := Bin minus (Bin caret (Neg (Num (f64_of_Z 2))) (Num (f64_of_Z 2))) (Bin over (Num (f64_of_Z 6)) (Bin plus (Num (f64_of_Z 1)) (Num (f64_of_Z 2)))) in
  let ts := [Op tilde; n 2; Op caret; n 2; Op minus; n 6; Op over; LeftParen; n 1; Op plus; n 2; RightParen] in
  renders 1 ts e /\ eval_expression (lit "-2^2 - 6/(1+2)") = Ok (f64_of_Z 2).
Proof.
  intros P n e ts. assert (renders 1 ts e) as Hr.
  { apply (renders_left 1 minus [Op tilde; n 2; Op caret; n 2] [n 6; Op over; LeftParen; n 1; Op plus; n 2; RightParen]); [by left; auto| |].
    - do 2 apply renders_tighter. apply (renders_power [Op tilde; n 2] [n 2]); [apply renders_neg, renders_tighter, renders_number|].
      do 2 apply renders_tighter. apply renders_number.
    - apply (renders_left 2 over [n 6] [LeftParen; n 1; Op plus; n 2; RightParen]); [by right; auto|do 3 apply renders_tighter; apply renders_number|].
      do 2 apply renders_tighter. apply (renders_paren [n 1; Op plus; n 2]).
      apply (renders_left 1 plus [n 1] [n 2]); [by left; auto|do 4 apply renders_tighter; apply renders_number|do 3 apply renders_tighter; apply renders_number]. }
  split; [exact Hr|]. rewrite (calculator_is_correct ts e (lit "-2^2 - 6/(1+2)") Hr); [vm_compute; reflexivity|].
  assert (forall z l s t, parse_f64 [l] = Some (f64_of_Z z) -> is_number_char l = true -> (forall c, head s = Some c -> is_number_char c = false) ->
    spells t s -> spells (n z :: t) (l :: s)) as Hnum.
  { intros z l s t Hv Hl Hs Ht. apply (spells_number [l]); [done|cbn; by rewrite Hl|exact Hv|exact Hs|exact Ht]. }
  apply (spells_op tilde); [reflexivity|]. apply Hnum; [vm_compute; reflexivity|reflexivity|by intros c [= <-]|].
  apply (spells_op caret); [reflexivity|]. apply Hnum; [vm_compute; reflexivity|reflexivity|by intros c [= <-]|].
  apply spells_blank; [reflexivity|]. apply (spells_op minus); [reflexivity|]. apply spells_blank; [reflexivity|].
  apply Hnum; [vm_compute; reflexivity|reflexivity|by intros c [= <-]|].
  apply (spells_op over); [reflexivity|]. apply spells_left. apply Hnum; [vm_compute; reflexivity|reflexivity|by intros c [= <-]|].
  apply (spells_op plus); [reflexivity|]. apply Hnum; [vm_compute; reflexivity|reflexivity|by intros c [= <-]|].
  apply spells_right, spells_end.
Defined.

(** What is not of the grammar is not always refused: operators are taken in
    postfix order too. *)
Example postfix_is_accepted (P : Power) : eval_expression (lit "1 2 +") = Ok (f64_of_Z 3) /\ eval_expression (lit "()1") = Ok (f64_of_Z 1).
Proof. split; vm_compute; reflexivity. Qed.


(** ** The other tools *)

Definition unknown_action {A} (action : str) : result A ToolError := Err (InvalidInput (lit "unknown action: " ++ action)).

(** *** Text *)

(** [str::matches] counted: occurrences that do not overlap, from the left, as
    [str::replace] replaces them. *)
Fixpoint count_matches (p : str) (skip : nat) (s : str) : N :=
  match s with
  | [] => 0
  | c :: s' =>
      match skip with
      | S k => count_matches p k s'
      | O => if starts_with p s then 1 + count_matches p (pred (length p)) s' else count_matches p 0 s'
      end
  end%N.

Definition checked_usize (n : N) : option N := if (n <=? usize_max)%N then Some n else None.

Definition size_overflow : ToolError := InvalidInput (lit "text replacement size overflow").

Definition replacement_output_bytes (text from to : str) : result N ToolError :=
  let replacements := count_matches from 0 text in
  match checked_usize (replacements * utf8_len from)%N, checked_usize (replacements * utf8_len to)%N with
  | Some removed, Some added =>
      if (utf8_len text <? removed)%N then Err size_overflow
      else match checked_usize (utf8_len text - removed + added)%N with Some size => Ok size | None => Err size_overflow end
  | _, _ => Err size_overflow
  end.

Definition text_tool `{Unicode} (to_uppercase : str -> str) (input : value) : result ToolReply ToolError :=
  let* action := require_str input "action" in
  let* text := require_str input "text" in
  if str_eqb action (lit "upper") then Ok (bounded_compute_output (to_uppercase text))
  else if str_eqb action (lit "lower") then Ok (bounded_compute_output (to_lowercase text))
  else if str_eqb action (lit "trim") then Ok (bounded_compute_output (trim text))
  else if str_eqb action (lit "replace") then
    let* from := require_str input "from" in
    let* to := optional_str input "to" [] in
    if is_empty from then Err (InvalidInput (lit "'from' must not be empty"))
    else
      let* output_bytes := replacement_output_bytes text from to in
      if (COMPUTE_OUTPUT_MAX_BYTES <? output_bytes)%N
      then Ok (Refusal (lit "text replacement would exceed the " ++ show_N COMPUTE_OUTPUT_MAX_BYTES ++ lit " byte output limit"))
      else Ok (bounded_compute_output (replace from to text))
  else if str_eqb action (lit "count") then
    Ok (bounded_compute_output
          (lit "chars: " ++ show_nat (length text) ++ [newline] ++ lit "words: " ++ show_nat (length (split_whitespace text)) ++ [newline] ++
           lit "lines: " ++ show_nat (if is_empty text then 0 else length (lines text))))
  else unknown_action action.

(** *** Dates *)

Definition parsed (iso : str) : result Z ToolError :=
  match parse_iso_utc iso with Some ms => Ok ms | None => Err (InvalidInput (lit "invalid ISO-8601 UTC timestamp: " ++ iso)) end.

Definition DAY_MS : Z := 24 * 60 * 60 * 1000.

Definition date_tool (now : Z) (input : value) : result ToolReply ToolError :=
  let* action := require_str input "action" in
  if str_eqb action (lit "now") then Ok (bounded_compute_output (format_iso_utc now ++ lit " (epoch_ms: " ++ show_Z now ++ lit ")"))
  else if str_eqb action (lit "from_epoch_ms") then
    match get "epoch_ms" input ≫= i64_of_value with
    | None => Err (InvalidInput (lit "missing required integer field: epoch_ms"))
    | Some ms =>
        if negb (within ISO_UTC_MIN_EPOCH_MS ISO_UTC_MAX_EPOCH_MS ms)
        then Err (InvalidInput (lit "epoch_ms is outside the supported four-digit-year ISO-8601 range"))
        else Ok (bounded_compute_output (format_iso_utc_millis ms))
    end
  else if str_eqb action (lit "to_epoch_ms") then
    let* iso := require_str input "iso" in
    let* ms := parsed iso in
    Ok (bounded_compute_output (show_Z ms))
  else if str_eqb action (lit "diff_days") then
    let* from := require_str input "from_iso" in
    let* to := require_str input "to_iso" in
    let* from_ms := parsed from in
    let* to_ms := parsed to in
    match checked (to_ms - from_ms) with
    | None => Err (InvalidInput (lit "date difference is outside the supported range"))
    | Some difference => Ok (bounded_compute_output (show_Z (difference / DAY_MS)))
    end
  else unknown_action action.

(** *** JSON and Markdown, around their libraries *)

(** The writer that refuses what would exceed the limit. *)
Fixpoint write_all (written : str) (chunks : list str) : option str :=
  match chunks with
  | [] => Some written
  | chunk :: rest =>
      if (COMPUTE_OUTPUT_MAX_BYTES <? utf8_len written + utf8_len chunk)%N then None else write_all (written ++ chunk) rest
  end.

Section Json.
(** [serde_json]: the parser with its message, the pieces that the two printers
    write, [Value::pointer]. *)
Context (parse_json : str -> result value str) (print_json : bool -> value -> list str) (pointer_of : value -> str -> option value).

Definition serialize_json_output (v : value) (pretty : bool) : result str ToolError :=
  match write_all [] (print_json pretty v) with
  | Some text => Ok text
  | None => Err (InvalidInput (lit "JSON result would exceed the " ++ show_N COMPUTE_OUTPUT_MAX_BYTES ++ lit " byte output limit: compute output limit exceeded"))
  end.

Definition json_tool (input : value) : result ToolReply ToolError :=
  let* action := require_str input "action" in
  let* text := require_str input "json" in
  match parse_json text with
  | Err error => Ok (if str_eqb action (lit "validate") then Answer (lit "invalid: " ++ error) else Refusal (lit "invalid JSON: " ++ error))
  | Ok v =>
      let* pointer := optional_str input "pointer" [] in
      if str_eqb action (lit "validate") then Ok (bounded_compute_output (lit "valid"))
      else if str_eqb action (lit "format") then let* text := serialize_json_output v true in Ok (bounded_compute_output text)
      else if str_eqb action (lit "minify") then let* text := serialize_json_output v false in Ok (bounded_compute_output text)
      else if str_eqb action (lit "get") then
        match pointer_of v pointer with
        | Some found => let* text := serialize_json_output found true in Ok (bounded_compute_output text)
        | None => Ok (Refusal (lit "pointer not found: " ++ pointer))
        end
      else if str_eqb action (lit "keys") then
        match pointer_of v pointer with
        | None => Err (InvalidInput (lit "pointer not found: " ++ pointer))
        | Some (VObject fields) => Ok (bounded_compute_output (join [newline] (fst <$> fields)))
        | Some (VArray items) => Ok (bounded_compute_output (lit "(array of " ++ show_nat (length items) ++ lit " items)"))
        | Some other => Ok (bounded_compute_output (lit "(scalar: " ++ mjoin (print_json false other) ++ lit ")"))
        end
      else unknown_action action
  end.
End Json.

(** The events of [pulldown_cmark] that the tool looks at. *)
Inductive MarkdownEvent :=
| StartHeading (level : nat)
| EndHeading
| TextOrCode (text : str)
| Break
| EndBlock
| OtherEvent.

Fixpoint heading_lines (events : list MarkdownEvent) (current : option (nat * str)) : list str :=
  match events with
  | [] => []
  | StartHeading level :: rest => heading_lines rest (Some (level, []))
  | TextOrCode text :: rest => heading_lines rest ((fun '(level, buffer) => (level, buffer ++ text)) <$> current)
  | EndHeading :: rest =>
      match current with
      | Some (depth, title) => (mjoin (replicate (depth - 1) (lit "  ")) ++ lit "- " ++ trim title) :: heading_lines rest None
      | None => heading_lines rest None
      end
  | _ :: rest => heading_lines rest current
  end.

Definition plain_text (events : list MarkdownEvent) : str :=
  events ≫= fun event =>
    match event with TextOrCode chunk => chunk | Break | EndBlock | EndHeading => [newline] | _ => [] end.

Section Markdown.
Context (parse_markdown : str -> list MarkdownEvent) (print_html : str -> list str).

Definition render_markdown_html (markdown : str) : result str ToolError :=
  match write_all [] (print_html markdown) with
  | Some html => Ok (trim_end html)
  | None => Err (InvalidInput (lit "HTML result would exceed the " ++ show_N COMPUTE_OUTPUT_MAX_BYTES ++ lit " byte output limit"))
  end.

Definition markdown_tool (input : value) : result ToolReply ToolError :=
  let* action := require_str input "action" in
  let* markdown := require_str input "markdown" in
  if str_eqb action (lit "to_html") then let* html := render_markdown_html markdown in Ok (bounded_compute_output html)
  else if str_eqb action (lit "headings") then
    let found := heading_lines (parse_markdown markdown) None in
    Ok (bounded_compute_output (if is_empty found then lit "(no headings)" else join [newline] found))
  else if str_eqb action (lit "to_text") then Ok (bounded_compute_output (trim (plain_text (parse_markdown markdown))))
  else unknown_action action.
End Markdown.

(** ** Sizes *)

Lemma len_utf8_bounds c : (1 <= len_utf8 c <= 4)%N.
Proof. unfold len_utf8. repeat destruct (_ <? _)%N; lia. Qed.

Lemma utf8_len_drop n s : (utf8_len (drop n s) <= utf8_len s)%N.
Proof. rewrite <- (take_drop n s) at 2. rewrite utf8_len_app. lia. Qed.

Lemma replace_size p by_ skip s : p <> [] -> (skip <= length s)%nat ->
  (utf8_len (replace_go p by_ skip s) + utf8_len (take skip s) + count_matches p skip s * utf8_len p
   = utf8_len s + count_matches p skip s * utf8_len by_)%N.
Proof.
  intros Hp. revert skip. induction s as [|c s IH]; intros skip Hs; [cbn in Hs; assert (skip = 0%nat) as -> by lia; done|].
  destruct skip as [|k]; cbn [replace_go count_matches take].
  - destruct (starts_with p (c :: s)) eqn:E.
    + apply starts_with_spec in E as [t E]. destruct p as [|c' p]; [done|]. injection E as <- E. cbn [length pred].
      rewrite utf8_len_app. specialize (IH (length p) ltac:(rewrite E, length_app; lia)). rewrite E, take_app_length in IH. rewrite <- E in IH.
      cbn [utf8_len] in *. lia.
    + specialize (IH 0%nat ltac:(lia)). rewrite take_0 in IH. cbn [utf8_len] in *. lia.
  - cbn in Hs. specialize (IH k ltac:(lia)). cbn [utf8_len]. lia.
Qed.

(** The size that is compared with the limit is the size of the result: the limit
    refuses exactly the replacements that exceed it, before they are made. *)
Theorem replacement_size_is_exact text from to :
  from <> [] -> (utf8_len text <= COMPUTE_INPUT_MAX_BYTES)%N -> (utf8_len to <= COMPUTE_INPUT_MAX_BYTES)%N ->
  replacement_output_bytes text from to = Ok (utf8_len (replace from to text)).
Proof.
  intros Hf Ht Hto. pose proof (replace_size from to 0 text Hf ltac:(lia)) as Hsize. rewrite take_0 in Hsize. cbn [utf8_len] in Hsize.
  fold (replace from to text) in Hsize. set (n := count_matches from 0 text) in *.
  assert (1 <= utf8_len from)%N as Hone.
  { destruct from as [|c f]; [done|]. cbn [utf8_len]. pose proof (len_utf8_bounds c). lia. }
  assert (forall q skip s, q <> [] -> (skip <= length s)%nat -> (utf8_len (take skip s) + count_matches q skip s * utf8_len q <= utf8_len s)%N) as Hremoved.
  { intros q skip s Hq Hs. pose proof (replace_size q [] skip s Hq Hs) as E. cbn [utf8_len] in E. lia. }
  specialize (Hremoved from 0%nat text Hf ltac:(lia)). rewrite take_0 in Hremoved. cbn [utf8_len] in Hremoved. fold n in Hremoved.
  unfold COMPUTE_INPUT_MAX_BYTES in *. unfold replacement_output_bytes. fold n. cbv zeta.
  assert (n <= 1048576)%N by nia. assert (n * utf8_len to <= 1048576 * 1048576)%N by nia.
  unfold checked_usize, usize_max. rewrite !(proj2 (N.leb_le _ (2 ^ 64 - 1))) by lia. rewrite (proj2 (N.ltb_ge _ _)) by lia.
  f_equal. lia.
Qed.

Lemma replacement_size_is_exact_witness :
  replacement_output_bytes (lit "aaaba") (lit "aa") (lit "xyz") = Ok 6%N /\ replace (lit "aa") (lit "xyz") (lit "aaaba") = lit "xyzaba".
Proof.
  split; [|vm_compute; reflexivity]. rewrite (replacement_size_is_exact (lit "aaaba") (lit "aa") (lit "xyz")); [vm_compute; reflexivity|discriminate|..];
    vm_compute; discriminate.
Defined.

(** What is written within the limit is written as it is. *)
Lemma write_all_spec written chunks : (utf8_len written <= COMPUTE_OUTPUT_MAX_BYTES)%N ->
  write_all written chunks = (if (COMPUTE_OUTPUT_MAX_BYTES <? utf8_len (written ++ mjoin chunks))%N then None else Some (written ++ mjoin chunks)).
Proof.
  revert written. induction chunks as [|c chunks IH]; intros written Hw; cbn [write_all].
  - change (mjoin (M := list) []) with (@nil N). rewrite app_nil_r. by rewrite (proj2 (N.ltb_ge _ _)).
  - change (mjoin (c :: chunks)) with (c ++ mjoin chunks). rewrite app_assoc, <- utf8_len_app.
    destruct (N.ltb_spec COMPUTE_OUTPUT_MAX_BYTES (utf8_len (written ++ c))).
    + rewrite (proj2 (N.ltb_lt _ _)); [done|]. rewrite utf8_len_app. lia.
    + by rewrite IH.
Qed.
