(* ===== verification/VectorIndex.v ===== *)
(** * Vector indexes ([memory/vector_web.rs], [memory/vector_native.rs])

    The two indexes behind the trait [VectorIndex]: the linear table of the browser
    and the bookkeeping around the graph of [hnsw_rs], which cannot delete.  Both
    are functions from index to index; loading reads the table of embeddings, so it
    is a computation over [Stores], the tables of the memory and the slots of the
    index manager.

    Indexing and [expect] of the linear table panic out of range: its operations
    return [None] then, and [linear_never_panics] shows that they do not.  The
    graph is the interface [Hnsw]; [brute_force] shows that its laws can hold.

    [linear_insert_spec] and [linear_remove_spec], [hnsw_insert_spec] and
    [hnsw_remove_spec] say what the operations do to the nodes of an index. *)

From Stdlib Require Import SpecFloat.
From stdpp Require Import sorting.
From S2P Require Import Prelude Utf8 JsonValue Messages Sql Kv Vectors.

Open Scope string_scope.
Open Scope list_scope.
Open Scope Z_scope.
Open Scope sql_scope.

(** ** The stores and the trait *)

Inductive IndexSlot (I : Type) := Pending (config : VectorIndexConfig) | Loaded (config : VectorIndexConfig) (index : I).
Arguments Pending {I} config.
Arguments Loaded {I} config index.

Record Stores (I : Type) := {
  memories : Rows; embeddings : Rows; hnsw_cache : Rows; indexes : gmap MemoryNamespace (IndexSlot I)
}.
Arguments memories {I} s.
Arguments embeddings {I} s.
Arguments hnsw_cache {I} s.
Arguments indexes {I} s.

Abbreviation hit := (str * f32)%type (only parsing).

Section Stores.
Context {I : Type}.
Abbreviation M := (Sql.M (Stores I) MemoryError).

Definition set_memories (t : Rows) (s : Stores I) : Stores I :=
  {| memories := t; embeddings := embeddings s; hnsw_cache := hnsw_cache s; indexes := indexes s |}.
Definition set_embeddings (t : Rows) (s : Stores I) : Stores I :=
  {| memories := memories s; embeddings := t; hnsw_cache := hnsw_cache s; indexes := indexes s |}.
Definition set_hnsw_cache (t : Rows) (s : Stores I) : Stores I :=
  {| memories := memories s; embeddings := embeddings s; hnsw_cache := t; indexes := indexes s |}.
Definition set_slot (ns : MemoryNamespace) (slot : IndexSlot I) (s : Stores I) : Stores I :=
  {| memories := memories s; embeddings := embeddings s; hnsw_cache := hnsw_cache s; indexes := <[ns := slot]> (indexes s) |}.

Definition get_embedding : str -> M (option value) := kv_get embeddings set_embeddings.
Definition list_embeddings : str -> M (list str) := kv_list_prefix embeddings set_embeddings.

(** The loop over the rows of a namespace: what cannot be read is skipped. *)
Fixpoint load_rows (insert : str -> list f32 -> I -> result unit MemoryError * I) (prefix : str) (keys : list str) (index : I) : M I :=
  match keys with
  | [] => ret index
  | key :: rest =>
      match strip_prefix prefix key with
      | None => load_rows insert prefix rest index
      | Some node_id =>
          found <- tried (get_embedding key) ;;
          match found with
          | Ok (Some v) =>
              match vector_from_value v with
              | Ok vector => load_rows insert prefix rest (insert node_id vector index).2
              | Err _ => load_rows insert prefix rest index
              end
          | Ok None | Err (Serialization _) | Err (Encryption _) => load_rows insert prefix rest index
          | Err e => fail e
          end
      end
  end.
End Stores.

Class VectorIndex (I : Type) := {
  index_add : str -> list f32 -> I -> result unit MemoryError * I;
  take_rebuild_required : I -> bool * I;
  is_physically_saturated : I -> bool;
  contains_node : str -> I -> bool;
  index_search : list f32 -> nat -> I -> result (list hit) MemoryError;
  index_remove : str -> I -> result unit MemoryError * I;
  index_save : I -> Sql.M (Stores I) MemoryError unit;
  index_load : MemoryNamespace -> VectorIndexConfig -> Sql.M (Stores I) MemoryError I
}.

Definition dimension_mismatch (expected : Z) (got : nat) : MemoryError :=
  Storage (lit "dimension mismatch: expected " ++ show_Z expected ++ lit ", got " ++ show_nat got).

Definition capacity_exceeded (max : Z) : MemoryError :=
  Storage (lit "vector index capacity exceeded (" ++ show_Z max ++ lit ")").

(** ** The order of scores

    [f32::total_cmp] through the bits of the two numbers; a NaN is taken to be
    positive. *)

Definition magnitude_bits (f : f32) : Z :=
  match f with
  | S754_zero _ => 0
  | S754_finite _ m e => (e + 149) * 2 ^ 23 + Zpos m
  | S754_infinity _ => 255 * 2 ^ 23
  | S754_nan => 255 * 2 ^ 23 + 2 ^ 22
  end.

Definition sign_bit (f : f32) : bool :=
  match f with S754_zero s | S754_infinity s => s | S754_finite s _ _ => s | S754_nan => false end.

Definition total_key (f : f32) : Z := if sign_bit f then -1 - magnitude_bits f else magnitude_bits f.

(** Better scores first, then by id. *)
Definition hit_le (a b : hit) : Prop :=
  total_key (snd b) < total_key (snd a) \/ total_key (snd b) = total_key (snd a) /\ key_le (fst a) (fst b).
#[export] Instance hit_le_dec a b : Decision (hit_le a b).
Proof. unfold hit_le. apply _. Defined.

(** ** The linear index *)

Inductive StoredVector := Quantized (q : QuantizedVector) | Raw (v : list f32).

Record LinearVectorIndex := {
  linear_config : VectorIndexConfig; entries : list (str * StoredVector); lookup : gmap str nat
}.

Definition linear_new (config : VectorIndexConfig) : LinearVectorIndex :=
  {| linear_config := config; entries := []; lookup := ∅ |}.

Definition linear_len (i : LinearVectorIndex) : nat := size (lookup i).

Definition stored_form (metric : Metric) (vector : list f32) : StoredVector :=
  match metric with Cosine => Quantized (quantize_i8 vector) | Euclidean => Raw vector end.

Definition linear_insert_internal (node_id : str) (vector : list f32) (i : LinearVectorIndex)
    : option (result unit MemoryError * LinearVectorIndex) :=
  let c := linear_config i in
  if negb (Z.of_nat (length vector) =? dimension c) then Some (Err (dimension_mismatch (dimension c) (length vector)), i)
  else
    let stored := stored_form (distance_metric c) vector in
    match lookup i !! node_id with
    | Some idx =>
        e ← entries i !! idx;
        Some (Ok tt, {| linear_config := c; entries := <[idx := (fst e, stored)]> (entries i); lookup := lookup i |})
    | None =>
        if VECTOR_MAX_ENTRIES_WEB <=? Z.of_nat (linear_len i) then Some (Err (capacity_exceeded VECTOR_MAX_ENTRIES_WEB), i)
        else Some (Ok tt, {| linear_config := c; entries := entries i ++ [(node_id, stored)];
                             lookup := <[node_id := length (entries i)]> (lookup i) |})
    end.

(** The score of an entry; [None] where the query was not quantised for it. *)
Definition entry_score (metric : Metric) (query : list f32) (quantized_query : option QuantizedVector)
    (stored : StoredVector) : option f32 :=
  match stored with
  | Quantized q => qq ← quantized_query; Some (cosine_similarity_i8 (data qq) (data q))
  | Raw v => Some (similarity_score metric query v)
  end.

Definition quantized_query (metric : Metric) (query : list f32) : option QuantizedVector :=
  match metric with Cosine => Some (quantize_i8 query) | Euclidean => None end.

Definition score_lookup (query : list f32) (i : LinearVectorIndex) (p : str * nat) : option hit :=
  e ← entries i !! snd p;
  score ← entry_score (distance_metric (linear_config i)) query
            (quantized_query (distance_metric (linear_config i)) query) (snd e);
  Some (fst p, score).

Definition linear_search (query : list f32) (top_k : nat) (i : LinearVectorIndex) : option (result (list hit) MemoryError) :=
  if (top_k =? 0)%nat || (linear_len i =? 0)%nat then Some (Ok [])
  else if negb (Z.of_nat (length query) =? dimension (linear_config i))
  then Some (Err (dimension_mismatch (dimension (linear_config i)) (length query)))
  else
    scored ← mapM (score_lookup query i) (map_to_list (lookup i));
    Some (Ok (take top_k (merge_sort hit_le scored))).

(** [Vec::swap_remove]. *)
Definition swap_remove {A} (idx : nat) (l : list A) : option (list A) :=
  if (idx <? length l)%nat then x ← last l; Some (take (pred (length l)) (<[idx := x]> l)) else None.

Definition linear_remove (node_id : str) (i : LinearVectorIndex) : option (result unit MemoryError * LinearVectorIndex) :=
  match lookup i !! node_id with
  | None => Some (Err (EntryNotFound node_id), i)
  | Some idx =>
      rest ← swap_remove idx (entries i);
      let l := delete node_id (lookup i) in
      Some (Ok tt, {| linear_config := linear_config i; entries := rest;
                      lookup := match rest !! idx with Some (moved, _) => <[moved := idx]> l | None => l end |})
  end.

(** The methods of the trait.  Where the code would panic, the default is taken. *)
Definition linear_add (node_id : str) (vector : list f32) (i : LinearVectorIndex) : result unit MemoryError * LinearVectorIndex :=
  default (Ok tt, i) (linear_insert_internal node_id vector i).

Definition linear_load (ns : MemoryNamespace) (config : VectorIndexConfig)
    : Sql.M (Stores LinearVectorIndex) MemoryError LinearVectorIndex :=
  keys <- list_embeddings (storage_prefix ns) ;;
  load_rows linear_add (storage_prefix ns) keys (linear_new config).

#[export] Instance linear_index : VectorIndex LinearVectorIndex := {|
  index_add := linear_add;
  take_rebuild_required i := (false, i);
  is_physically_saturated _ := false;
  contains_node _ _ := false;
  index_search query top_k i := default (Ok []) (linear_search query top_k i);
  index_remove node_id i := default (Ok tt, i) (linear_remove node_id i);
  index_save _ := ret tt;
  index_load := linear_load
|}.

(** ** The graph of [hnsw_rs]

    Points are inserted with an id and never deleted; [view] is what has been
    inserted, in order, with the distance in use.  A search returns inserted
    points, each once, with their distances; it may miss some. *)
Class Hnsw := {
  graph : Type -> Type;
  graph_new {T} (m max_elements max_layer ef_construction : Z) (dist : list T -> list T -> f32) : graph T;
  graph_insert {T} (v : list T) (id : nat) (g : graph T) : graph T;
  graph_find {T} (q : list T) (knn ef : nat) (g : graph T) : list (nat * f32);
  dist_l2 : list f32 -> list f32 -> f32;
  view {T} (g : graph T) : (list T -> list T -> f32) * list (nat * list T);
  view_new {T} m n l e (dist : list T -> list T -> f32) : view (graph_new m n l e dist) = (dist, []);
  view_insert {T} (v : list T) id g : view (graph_insert v id g) = ((view g).1, (view g).2 ++ [(id, v)]);
  find_inserted {T} (q : list T) knn ef g id d :
    (id, d) ∈ graph_find q knn ef g -> exists v, (id, v) ∈ (view g).2 /\ d = (view g).1 q v;
  find_once {T} (q : list T) knn ef g : NoDup (fst <$> (view g).2) -> NoDup (fst <$> graph_find q knn ef g)
}.

(** A search that misses nothing it has been asked for. *)
Definition finds_all `{Hnsw} : Prop := forall T (q : list T) knn ef (g : graph T),
  (knn <= ef)%nat -> length (graph_find q knn ef g) = (knn `min` length (view g).2)%nat.

Record Points (T : Type) := { point_dist : list T -> list T -> f32; points : list (nat * list T) }.
Arguments point_dist {T} p.
Arguments points {T} p.

Definition nearer (a b : nat * f32) : Prop := total_key (snd a) <= total_key (snd b).

#[export] Instance nearer_dec a b : Decision (nearer a b).
Proof. unfold nearer. apply _. Defined.

Definition nearest {T} (q : list T) (knn : nat) (g : Points T) : list (nat * f32) :=
  take knn (merge_sort nearer ((fun p => (fst p, point_dist g q (snd p))) <$> points g)).

Lemma nearest_sound {T} (q : list T) knn g id d :
  (id, d) ∈ nearest q knn g -> exists v, (id, v) ∈ points g /\ d = point_dist g q v.
Proof.
  unfold nearest. intros Hin. assert ((id, d) ∈ merge_sort nearer ((fun p => (fst p, point_dist g q (snd p))) <$> points g)) as H.
  { revert Hin. apply subseteq_take. }
  rewrite merge_sort_Permutation, list_elem_of_fmap in H. destruct H as ([i v] & E & Hv). cbn in E. simplify_eq. by exists v.
Qed.

Lemma nearest_once {T} (q : list T) knn g : NoDup (fst <$> points g) -> NoDup (fst <$> nearest q knn g).
Proof.
  intros Hn. unfold nearest. rewrite fmap_take. eapply sublist_NoDup; [|apply sublist_take]. rewrite merge_sort_Permutation, <- list_fmap_compose. done.
Qed.

(** A search that looks at every point. *)
#[program] Definition brute_force (l2 : list f32 -> list f32 -> f32) : Hnsw := {|
  graph := Points;
  graph_new _ _ _ _ _ dist := {| point_dist := dist; points := [] |};
  graph_insert _ v id g := {| point_dist := point_dist g; points := points g ++ [(id, v)] |};
  graph_find _ q knn ef g := nearest q knn g;
  dist_l2 := l2;
  view _ g := (point_dist g, points g);
  find_inserted _ q knn ef := nearest_sound q knn;
  find_once _ q knn ef := nearest_once q knn
|}.
Solve All Obligations with done.

(** ** The HNSW index *)

Definition MAX_LAYER : Z := 1.
Definition HNSW_CACHE_VERSION : str := lit "ains-hnsw-cache-v1".
Definition metric_name (m : Metric) : str := match m with Cosine => lit "cosine" | Euclidean => lit "euclidean" end.
Definition cache_key (ns : MemoryNamespace) : str := lit "hnsw/" ++ namespace_str ns.

(** [DistCosineI8::eval]. *)
Definition dist_cosine_i8 (a b : list Z) : f32 := max32 (sub32 (f32_of_Z 1) (cosine_similarity_i8 a b)) f32_zero.

Section Native.
Context `{Hnsw}.

Inductive HnswBackend := CosineGraph (g : graph Z) | L2Graph (g : graph f32).

Definition backend_new (c : VectorIndexConfig) : HnswBackend :=
  let m := Z.max 4 (Z.min 256 (graph_m c)) in
  let ef_c := Z.max (graph_ef c) 16 in
  match distance_metric c with
  | Cosine => CosineGraph (graph_new m VECTOR_MAX_ENTRIES MAX_LAYER ef_c dist_cosine_i8)
  | Euclidean => L2Graph (graph_new m VECTOR_MAX_ENTRIES MAX_LAYER ef_c dist_l2)
  end.

Definition backend_insert (vector : list f32) (internal_id : nat) (b : HnswBackend) : HnswBackend :=
  match b with
  | CosineGraph g => CosineGraph (graph_insert (data (quantize_i8 vector)) internal_id g)
  | L2Graph g => L2Graph (graph_insert vector internal_id g)
  end.

Definition backend_search (query : list f32) (knn ef : nat) (b : HnswBackend) : list (nat * f32) :=
  match b with
  | CosineGraph g => graph_find (data (quantize_i8 query)) knn ef g
  | L2Graph g => graph_find query knn ef g
  end.

Definition backend_score (b : HnswBackend) (distance : f32) : f32 :=
  match b with CosineGraph _ => sub32 (f32_of_Z 1) distance | L2Graph _ => SFopp distance end.

Record HnswVectorIndex := {
  hnsw_namespace : MemoryNamespace; hnsw_config : VectorIndexConfig; backend : HnswBackend;
  ids : list str; slots : gmap str nat; tombstones : gset nat; max_entries : Z; max_slots : Z;
  rebuild_required : bool
}.

Definition hnsw_new (ns : MemoryNamespace) (c : VectorIndexConfig) : HnswVectorIndex :=
  {| hnsw_namespace := ns; hnsw_config := c; backend := backend_new c; ids := []; slots := ∅; tombstones := ∅;
     max_entries := VECTOR_MAX_ENTRIES; max_slots := VECTOR_MAX_ENTRIES; rebuild_required := false |}.

Definition with_max_slots (n : Z) (i : HnswVectorIndex) : HnswVectorIndex :=
  {| hnsw_namespace := hnsw_namespace i; hnsw_config := hnsw_config i; backend := backend i; ids := ids i;
     slots := slots i; tombstones := tombstones i; max_entries := max_entries i; max_slots := Z.max n 1;
     rebuild_required := rebuild_required i |}.

Definition set_rebuild_required (b : bool) (i : HnswVectorIndex) : HnswVectorIndex :=
  {| hnsw_namespace := hnsw_namespace i; hnsw_config := hnsw_config i; backend := backend i; ids := ids i;
     slots := slots i; tombstones := tombstones i; max_entries := max_entries i; max_slots := max_slots i;
     rebuild_required := b |}.

Definition hnsw_len (i : HnswVectorIndex) : nat := (length (ids i) - size (tombstones i))%nat.

Definition hnsw_saturated (i : HnswVectorIndex) : bool :=
  bool_decide (tombstones i = ∅) && (max_slots i <=? Z.of_nat (length (ids i))).

Definition slots_exhausted (max : Z) : MemoryError :=
  Storage (lit "vector index internal slots exhausted (" ++ show_Z max
           ++ lit "); rebuild required to reclaim tombstoned slots").

Definition hnsw_insert_internal (node_id : str) (vector : list f32) (i : HnswVectorIndex) : result unit MemoryError * HnswVectorIndex :=
  let c := hnsw_config i in
  if negb (Z.of_nat (length vector) =? dimension c) then (Err (dimension_mismatch (dimension c) (length vector)), i)
  else if negb (bool_decide (is_Some (slots i !! node_id))) && (max_entries i <=? Z.of_nat (hnsw_len i))
  then (Err (capacity_exceeded (max_entries i)), i)
  else if max_slots i <=? Z.of_nat (length (ids i))
  then (Err (slots_exhausted (max_slots i)), set_rebuild_required true i)
  else
    let internal_id := length (ids i) in
    (Ok tt,
     {| hnsw_namespace := hnsw_namespace i; hnsw_config := c; backend := backend_insert vector internal_id (backend i);
        ids := ids i ++ [node_id]; slots := <[node_id := internal_id]> (slots i);
        tombstones := match slots i !! node_id with Some old => {[old]} ∪ tombstones i | None => tombstones i end;
        max_entries := max_entries i; max_slots := max_slots i; rebuild_required := rebuild_required i |}).

(** The loop over the neighbours: the rest of the room and the ids seen. *)
Fixpoint live_hits (i : HnswVectorIndex) (room : nat) (seen : gset str) (found : list (nat * f32)) : list hit :=
  match found with
  | [] => []
  | (internal_id, distance) :: rest =>
      if bool_decide (internal_id ∈ tombstones i) then live_hits i room seen rest
      else match ids i !! internal_id with
           | None => live_hits i room seen rest
           | Some node_id =>
               if bool_decide (node_id ∈ seen) then live_hits i room seen rest
               else (node_id, backend_score (backend i) distance) ::
                    match room with
                    | O | 1%nat => []
                    | Datatypes.S room => live_hits i room ({[node_id]} ∪ seen) rest
                    end
           end
  end.

Definition hnsw_search (query : list f32) (top_k : nat) (i : HnswVectorIndex) : result (list hit) MemoryError :=
  if (top_k =? 0)%nat || (hnsw_len i =? 0)%nat then Ok []
  else if negb (Z.of_nat (length query) =? dimension (hnsw_config i))
  then Err (dimension_mismatch (dimension (hnsw_config i)) (length query))
  else
    let requested := (top_k `min` hnsw_len i)%nat in
    let knn := ((requested + size (tombstones i)) `min` length (ids i))%nat in
    let ef := (Z.to_nat (graph_ef (hnsw_config i)) `max` knn)%nat in
    Ok (live_hits i requested ∅ (backend_search query knn ef (backend i))).

Definition hnsw_remove (node_id : str) (i : HnswVectorIndex) : result unit MemoryError * HnswVectorIndex :=
  match slots i !! node_id with
  | None => (Err (EntryNotFound node_id), i)
  | Some internal_id =>
      (Ok tt,
       {| hnsw_namespace := hnsw_namespace i; hnsw_config := hnsw_config i; backend := backend i; ids := ids i;
          slots := delete node_id (slots i); tombstones := {[internal_id]} ∪ tombstones i;
          max_entries := max_entries i; max_slots := max_slots i; rebuild_required := rebuild_required i |})
  end.

(** [HnswCacheMeta] *)
Definition cache_meta (c : VectorIndexConfig) (now : Z) : value :=
  json [("version", VString HNSW_CACHE_VERSION); ("dimension", vnat (dimension c));
        ("metric", VString (metric_name (distance_metric c))); ("created_at", value_of_i64 now)].

Definition u32_of_value (v : value) : option Z := n ← as_u64 v; if n <=? u32_max then Some n else None.

(** serde reads the record from an object by its fields or from an array in their
    order. *)
Definition cache_valid (c : VectorIndexConfig) (raw : value) : bool :=
  match
    match raw with
    | VObject _ =>
        v ← get_str "version" raw; d ← get "dimension" raw ≫= u32_of_value; m ← get_str "metric" raw;
        _ ← get "created_at" raw ≫= i64_of_value; Some (v, d, m)
    | VArray [VString v; d; VString m; t] => d ← u32_of_value d; _ ← i64_of_value t; Some (v, d, m)
    | _ => None
    end
  with
  | Some (v, d, m) => str_eqb v HNSW_CACHE_VERSION && (d =? dimension c) && str_eqb m (metric_name (distance_metric c))
  | None => false
  end.

Abbreviation M := (Sql.M (Stores HnswVectorIndex) MemoryError).

Definition hnsw_save (i : HnswVectorIndex) : M unit :=
  with_clock (fun now => kv_set hnsw_cache set_hnsw_cache (cache_key (hnsw_namespace i)) (cache_meta (hnsw_config i) now) None).

Definition hnsw_load_impl (ns : MemoryNamespace) (c : VectorIndexConfig) (max_slots : Z) : M HnswVectorIndex :=
  raw <- kv_get hnsw_cache set_hnsw_cache (cache_key ns) ;;
  let valid := match raw with Some raw => cache_valid c raw | None => false end in
  keys <- list_embeddings (storage_prefix ns) ;;
  index <- load_rows hnsw_insert_internal (storage_prefix ns) keys (with_max_slots max_slots (hnsw_new ns c)) ;;
  (if valid then ret tt else hnsw_save index) ;;;
  ret (set_rebuild_required false index).

Definition hnsw_load (ns : MemoryNamespace) (c : VectorIndexConfig) : M HnswVectorIndex :=
  hnsw_load_impl ns c VECTOR_MAX_ENTRIES.

#[export] Instance hnsw_index : VectorIndex HnswVectorIndex := {|
  index_add := hnsw_insert_internal;
  take_rebuild_required i := (rebuild_required i, set_rebuild_required false i);
  is_physically_saturated := hnsw_saturated;
  contains_node node_id i := bool_decide (is_Some (slots i !! node_id));
  index_search := hnsw_search;
  index_remove := hnsw_remove;
  index_save := hnsw_save;
  index_load := hnsw_load
|}.
End Native.

(** ** The order of hits is one *)

Lemma str_ltb_trans a b c : str_ltb a b = true -> str_ltb b c = true -> str_ltb a c = true.
Proof.
  revert b c. induction a as [|x a IH]; intros [|y b] [|z c]; try done. cbn. rewrite !orb_true_iff, !andb_true_iff.
  rewrite !N.ltb_lt, !N.eqb_eq. intros [H1|[-> H1]] [H2|[<- H2]]; try (left; lia); right; eauto.
Qed.

Lemma key_le_antisym a b : key_le a b -> key_le b a -> a = b.
Proof.
  unfold key_le. intros H1 H2. destruct (decide (a = b)) as [|Hn]; [done|].
  by rewrite (str_ltb_total _ _ Hn H2) in H1.
Qed.

#[export] Instance key_le_trans : Transitive key_le.
Proof.
  intros a b c H1 H2. destruct (decide (a = b)) as [->|Hn]; [done|]. destruct (decide (b = c)) as [->|Hn']; [done|].
  apply str_ltb_asym. eapply str_ltb_trans; eapply str_ltb_total; done.
Qed.

#[export] Instance hit_le_total : Total hit_le.
Proof.
  intros a b. unfold hit_le. destruct (Z.lt_total (total_key (snd a)) (total_key (snd b))) as [?|[E|?]]; [by right; left| |by left; left].
  destruct (key_le_total (fst a) (fst b)) as [?|?]; [left|right]; by right.
Qed.

#[export] Instance hit_le_trans : Transitive hit_le.
Proof.
  intros a b c [H1|[E1 H1]] [H2|[E2 H2]]; unfold hit_le; [left; lia..|]. right. split; [congruence|]. by transitivity (fst b).
Qed.

(** Hits with ids of their own have one sorted order. *)
Lemma sorted_hits_unique (l l' : list hit) : NoDup (fst <$> l) -> l ≡ₚ l' -> merge_sort hit_le l = merge_sort hit_le l'.
Proof.
  intros Hn Hp. apply (StronglySorted_unique_strong hit_le).
  - intros [x a] [y b] Hx Hy H1 H2. rewrite !merge_sort_Permutation in Hx, Hy. rewrite <- Hp in Hy.
    assert (x = y) as <-.
    { destruct H1 as [H1|[E1 H1]], H2 as [H2|[E2 H2]]; cbn in *; try lia. by apply key_le_antisym. }
    apply list_elem_of_lookup in Hx as [i Hi], Hy as [j Hj].
    assert (i = j) as <- by (eapply (NoDup_lookup _ _ _ x Hn); rewrite list_lookup_fmap; [by rewrite Hi|by rewrite Hj]). congruence.
  - apply (StronglySorted_merge_sort hit_le).
  - apply (StronglySorted_merge_sort hit_le).
  - by rewrite !merge_sort_Permutation.
Qed.

(** ** The linear index is a map *)

Definition fits (metric : Metric) (stored : StoredVector) : Prop :=
  match metric, stored with Cosine, Quantized _ | Euclidean, Raw _ => True | _, _ => False end.

(** Each id is found at its position. *)
Definition linear_ok (i : LinearVectorIndex) : Prop :=
  (forall id idx, lookup i !! id = Some idx <-> exists stored, entries i !! idx = Some (id, stored)) /\
  Forall (fun e => fits (distance_metric (linear_config i)) (snd e)) (entries i).

Definition contents (i : LinearVectorIndex) : gmap str StoredVector := list_to_map (entries i).

Lemma linear_nodup i : linear_ok i -> NoDup (fst <$> entries i).
Proof.
  intros [Hl _]. apply NoDup_alt. intros x y id Hx Hy. rewrite list_lookup_fmap in Hx, Hy.
  destruct (entries i !! x) as [[a s]|] eqn:Ex; [|done]. destruct (entries i !! y) as [[b s']|] eqn:Ey; [|done]. cbn in *. simplify_eq.
  assert (lookup i !! id = Some x) by (apply Hl; by eexists). assert (lookup i !! id = Some y) by (apply Hl; by eexists). congruence.
Qed.

Lemma entry_position i a b x s s' : linear_ok i -> entries i !! a = Some (x, s) -> entries i !! b = Some (x, s') -> a = b.
Proof.
  intros Hok Ha Hb. eapply (NoDup_lookup _ _ _ x (linear_nodup _ Hok)); by rewrite list_lookup_fmap, ?Ha, ?Hb.
Qed.

Lemma contents_lookup i id stored : linear_ok i ->
  contents i !! id = Some stored <-> exists idx, entries i !! idx = Some (id, stored).
Proof.
  intros Hok. unfold contents. rewrite <- elem_of_list_to_map by by apply linear_nodup. apply list_elem_of_lookup.
Qed.

Lemma contents_of_lookup i id : linear_ok i -> is_Some (contents i !! id) <-> is_Some (lookup i !! id).
Proof.
  intros Hok. split.
  - intros [stored [idx Hi]%contents_lookup]; [|done]. exists idx. apply (proj1 Hok). by eexists.
  - intros [idx [stored Hi]%(proj1 Hok)]. exists stored. apply contents_lookup; [done|]. by eexists.
Qed.

Lemma linear_len_contents i : linear_ok i -> linear_len i = size (contents i).
Proof.
  intros Hok. unfold linear_len. rewrite <- !size_dom. f_equal. apply set_eq. intros id. rewrite !elem_of_dom.
  symmetry. by apply contents_of_lookup.
Qed.

Lemma linear_new_ok c : linear_ok (linear_new c) /\ contents (linear_new c) = ∅.
Proof. split; [|done]. split; [|constructor]. cbn. intros id idx. rewrite lookup_empty. split; [done|by intros [? ?]]. Qed.

Lemma stored_form_fits metric v : fits metric (stored_form metric v).
Proof. by destruct metric. Qed.

Lemma contents_eq i m : linear_ok i ->
  (forall id s, (exists idx, entries i !! idx = Some (id, s)) <-> m !! id = Some s) -> contents i = m.
Proof. intros Hok Hm. apply map_eq. intros x. apply option_eq. intros s. by rewrite contents_lookup, Hm. Qed.

Lemma update_entry i id idx stored : linear_ok i -> lookup i !! id = Some idx -> fits (distance_metric (linear_config i)) stored ->
  let i' := {| linear_config := linear_config i; entries := <[idx := (id, stored)]> (entries i); lookup := lookup i |} in
  linear_ok i' /\ contents i' = <[id := stored]> (contents i).
Proof.
  intros Hok E Hfit i'. pose proof Hok as [Hl Hf]. pose proof E as [old Hs]%Hl. pose proof (lookup_lt_Some _ _ _ Hs) as Hlt.
  assert (forall j x s, <[idx := (id, stored)]> (entries i) !! j = Some (x, s) <->
    j = idx /\ x = id /\ s = stored \/ j <> idx /\ entries i !! j = Some (x, s)) as Hins.
  { intros j x s. destruct (decide (idx = j)) as [<-|Hn]; [rewrite list_lookup_insert_eq by done|rewrite list_lookup_insert_ne by done]; naive_solver. }
  assert (linear_ok i') as Hok'.
  { split; [|by apply Forall_insert]. cbn. intros x j. rewrite Hl. setoid_rewrite Hins.
    destruct (decide (j = idx)) as [->|Hn]; [rewrite Hs|]; naive_solver. }
  split; [done|]. apply contents_eq; [done|]. cbn. intros x s. setoid_rewrite Hins. destruct (decide (id = x)) as [<-|Hn].
  - rewrite lookup_insert_eq. split; [|intros [= <-]; exists idx; by left].
    intros [j [(-> & _ & ->)|[Hj Hx]]]; [done|]. assert (lookup i !! id = Some j) by (apply Hl; by eexists). congruence.
  - rewrite lookup_insert_ne, contents_lookup by done. split; [intros [j [?|[_ ?]]]; [naive_solver|by exists j]|].
    intros [j Hj]. exists j. right. split; [|done]. intros ->. congruence.
Qed.

Lemma append_entry i id stored : linear_ok i -> lookup i !! id = None -> fits (distance_metric (linear_config i)) stored ->
  let i' := {| linear_config := linear_config i; entries := entries i ++ [(id, stored)]; lookup := <[id := length (entries i)]> (lookup i) |} in
  linear_ok i' /\ contents i' = <[id := stored]> (contents i).
Proof.
  intros Hok E Hfit i'. pose proof Hok as [Hl Hf].
  assert (forall j x s, (entries i ++ [(id, stored)]) !! j = Some (x, s) <->
    entries i !! j = Some (x, s) \/ j = length (entries i) /\ x = id /\ s = stored) as Hins.
  { intros j x s. rewrite lookup_snoc_Some. split; [intros [[_ ?]|[? ?]]; [by left|right; naive_solver]|].
    intros [Hj|(-> & -> & ->)]; [left; split; [by eapply lookup_lt_Some|done]|by right]. }
  assert (forall j s, entries i !! j = Some (id, s) -> False) as Hnone.
  { intros j s Hj. assert (lookup i !! id = Some j) by (apply Hl; by eexists). congruence. }
  assert (linear_ok i') as Hok'.
  { split; [|apply Forall_app_2; [done|by constructor]]. cbn. intros x j. setoid_rewrite Hins.
    destruct (decide (id = x)) as [<-|Hn]; [rewrite lookup_insert_eq|rewrite lookup_insert_ne, Hl by done]; naive_solver. }
  split; [done|]. apply contents_eq; [done|]. cbn. intros x s. setoid_rewrite Hins. destruct (decide (id = x)) as [<-|Hn].
  - rewrite lookup_insert_eq. naive_solver.
  - rewrite lookup_insert_ne, contents_lookup by done. naive_solver.
Qed.

(** Writing refines the insertion into a map. *)
Lemma linear_insert_spec id v i : linear_ok i ->
  exists r i', linear_insert_internal id v i = Some (r, i') /\ linear_ok i' /\ linear_config i' = linear_config i /\
    match r with
    | Ok _ => Z.of_nat (length v) = dimension (linear_config i) /\
              contents i' = <[id := stored_form (distance_metric (linear_config i)) v]> (contents i)
    | Err _ => i' = i /\ (Z.of_nat (length v) = dimension (linear_config i) ->
                 contents i !! id = None /\ VECTOR_MAX_ENTRIES_WEB <= Z.of_nat (size (contents i)))
    end.
Proof.
  intros Hok. pose proof Hok as [Hl Hf]. unfold linear_insert_internal.
  destruct (Z.eqb_spec (Z.of_nat (length v)) (dimension (linear_config i))) as [Hd|Hd]; cbn [negb]; [|by eexists (Err _), i].
  destruct (lookup i !! id) as [idx|] eqn:E.
  - pose proof E as [old Hs]%Hl. rewrite Hs. destruct (update_entry i id idx _ Hok E (stored_form_fits _ v)).
    by eexists (Ok tt), _.
  - destruct (Z.leb_spec VECTOR_MAX_ENTRIES_WEB (Z.of_nat (linear_len i))) as [Hm|Hm].
    + eexists (Err _), i. split_and!; try done. intros _. rewrite <- linear_len_contents by done. split; [|done].
      apply eq_None_not_Some. rewrite contents_of_lookup by done. rewrite E. by intros [? ?].
    + destruct (append_entry i id _ Hok E (stored_form_fits _ v)). by eexists (Ok tt), _.
Qed.

Lemma swap_remove_spec {A} idx (l : list A) : (idx < length l)%nat ->
  exists rest, swap_remove idx l = Some rest /\
    forall j, rest !! j = if (j =? pred (length l))%nat then None else if (j =? idx)%nat then last l else l !! j.
Proof.
  intros Hlt. unfold swap_remove. rewrite (proj2 (Nat.ltb_lt _ _) Hlt).
  destruct (last l) as [x|] eqn:El; [|by apply last_None in El as ->; cbn in Hlt; lia].
  eexists. split; [done|]. intros j. destruct (Nat.eqb_spec j (pred (length l))) as [->|Hj].
  - apply lookup_take_ge. lia.
  - destruct (decide (j < pred (length l))%nat) as [Hjl|Hjl].
    + rewrite lookup_take_lt by done. destruct (Nat.eqb_spec j idx) as [->|]; [by rewrite list_lookup_insert_eq|by rewrite list_lookup_insert_ne].
    + rewrite lookup_take_ge by lia. destruct (Nat.eqb_spec j idx); [lia|]. symmetry. apply lookup_ge_None. lia.
Qed.

Lemma swapped_out i idx id stored rest : linear_ok i -> entries i !! idx = Some (id, stored) ->
  swap_remove idx (entries i) = Some rest ->
  let n := pred (length (entries i)) in
  (forall j x s, rest !! j = Some (x, s) <->
    j <> n /\ j <> idx /\ entries i !! j = Some (x, s) \/ j = idx /\ idx <> n /\ entries i !! n = Some (x, s)) /\
  (forall x s, (exists j, rest !! j = Some (x, s)) <-> id <> x /\ exists j, entries i !! j = Some (x, s)).
Proof.
  intros Hok Hs Hr n. pose proof (lookup_lt_Some _ _ _ Hs) as Hlt. destruct (swap_remove_spec idx (entries i) Hlt) as (r & Hr' & Hrest).
  assert (r = rest) as -> by congruence.
  assert (forall j x s, rest !! j = Some (x, s) <->
    j <> n /\ j <> idx /\ entries i !! j = Some (x, s) \/ j = idx /\ idx <> n /\ entries i !! n = Some (x, s)) as P.
  { intros j x s. rewrite Hrest, last_lookup. fold n. destruct (Nat.eqb_spec j n) as [->|Hn]; [naive_solver|].
    destruct (Nat.eqb_spec j idx) as [->|Hi]; naive_solver. }
  split; [done|]. intros x s. setoid_rewrite P. split.
  - intros [j [(Hn & Hi & Hj)|(-> & Hn & Hj)]]; (split; [|by eexists]); intros ->; [apply Hi|apply Hn];
      (eapply entry_position; [done|..]; done).
  - intros [Hx [j Hj]]. destruct (decide (j = idx)) as [->|Hi]; [congruence|].
    destruct (decide (j = n)) as [->|Hn]; [exists idx; right; naive_solver|exists j; by left].
Qed.

(** Removing refines the deletion from a map: the entry that [swap_remove] moves
    is found at its new place. *)
Lemma linear_remove_spec id i : linear_ok i ->
  exists r i', linear_remove id i = Some (r, i') /\ linear_ok i' /\ linear_config i' = linear_config i /\
    match r with
    | Ok _ => is_Some (contents i !! id) /\ contents i' = delete id (contents i)
    | Err e => i' = i /\ e = EntryNotFound id /\ contents i !! id = None
    end.
Proof.
  intros Hok. pose proof Hok as [Hl Hf]. unfold linear_remove. pose proof (contents_of_lookup i id Hok) as Hc.
  destruct (lookup i !! id) as [idx|] eqn:E.
  2:{ eexists (Err _), i. split_and!; try done. apply eq_None_not_Some. rewrite Hc. by intros [? ?]. }
  pose proof E as [old Hs]%Hl. pose proof (lookup_lt_Some _ _ _ Hs) as Hlt.
  destruct (swap_remove_spec idx (entries i) Hlt) as (rest & Hr & _). rewrite Hr. cbn [mbind option_bind].
  destruct (swapped_out i idx id old rest Hok Hs Hr) as [P Q]. set (n := pred (length (entries i))) in *.
  assert (forall a b x s s', entries i !! a = Some (x, s) -> entries i !! b = Some (x, s') -> a = b) as U by (intros *; by apply entry_position).
  set (i' := Build_LinearVectorIndex _ _ _). exists (Ok tt), i'. split; [done|].
  assert (linear_ok i') as Hok'.
  { split.
    - cbn. intros x j. setoid_rewrite P. destruct (decide (idx = n)) as [Hn|Hn].
      + assert (rest !! idx = None) as -> by (destruct (rest !! idx) as [[? ?]|] eqn:Er; [apply P in Er; naive_solver|done]).
        rewrite lookup_delete_Some, Hl. naive_solver.
      + assert (is_Some (entries i !! n)) as [[moved sm] Hm] by (apply lookup_lt_is_Some; lia).
        assert (rest !! idx = Some (moved, sm)) as -> by (apply P; naive_solver).
        destruct (decide (moved = x)) as [->|Hx]; [rewrite lookup_insert_eq|rewrite lookup_insert_ne, lookup_delete_Some, Hl by done]; naive_solver.
    - apply Forall_lookup. intros j [x s] Hj. cbn in Hj. rewrite Forall_lookup in Hf. apply P in Hj as [(_ & _ & Hj)|(_ & _ & Hj)]; by apply Hf in Hj. }
  split_and!; try done; [by apply Hc|]. apply contents_eq; [done|]. cbn. intros x s.
  rewrite Q, lookup_delete_Some, contents_lookup by done. done.
Qed.

(** *** Search *)

Definition score_of (c : VectorIndexConfig) (query : list f32) (stored : StoredVector) : f32 :=
  match stored with
  | Quantized q => cosine_similarity_i8 (data (quantize_i8 query)) (data q)
  | Raw v => similarity_score (distance_metric c) query v
  end.

Definition scored (c : VectorIndexConfig) (query : list f32) (m : gmap str StoredVector) : list hit :=
  (fun e => (fst e, score_of c query (snd e))) <$> map_to_list m.

(** The answer over a map: all entries, scored, the best first. *)
Definition exact_search (c : VectorIndexConfig) (query : list f32) (top_k : nat) (m : gmap str StoredVector) : result (list hit) MemoryError :=
  if (top_k =? 0)%nat || (size m =? 0)%nat then Ok []
  else if negb (Z.of_nat (length query) =? dimension c) then Err (dimension_mismatch (dimension c) (length query))
  else Ok (take top_k (merge_sort hit_le (scored c query m))).

Lemma entry_score_fits c query stored : fits (distance_metric c) stored ->
  entry_score (distance_metric c) query (quantized_query (distance_metric c) query) stored = Some (score_of c query stored).
Proof. unfold score_of. by destruct (distance_metric c), stored. Qed.

Lemma mapM_some {A B} (f : A -> option B) (g : A -> B) l : Forall (fun x => f x = Some (g x)) l -> mapM f l = Some (g <$> l).
Proof. intros H. apply mapM_Some_2. induction H; constructor; done. Qed.

Lemma scored_nodup c query m : NoDup (fst <$> scored c query m).
Proof. unfold scored. rewrite <- list_fmap_compose. apply NoDup_fst_map_to_list. Qed.

(** The scan through the hash map is the search over the contents: the order of
    the hash map does not show. *)
Lemma linear_search_spec query k i : linear_ok i ->
  linear_search query k i = Some (exact_search (linear_config i) query k (contents i)).
Proof.
  intros Hok. pose proof Hok as [Hl Hf]. unfold linear_search, exact_search. rewrite linear_len_contents by done.
  destruct ((k =? 0)%nat || _); [done|]. destruct (negb _); [done|].
  set (g := fun p : str * nat => (fst p, score_of (linear_config i) query (default (Raw []) (snd <$> entries i !! snd p)))).
  rewrite (mapM_some _ g).
  - cbn [mbind option_bind]. do 3 f_equal. apply sorted_hits_unique.
    + rewrite <- list_fmap_compose. apply NoDup_fst_map_to_list.
    + apply NoDup_Permutation.
      * apply (NoDup_fmap_1 fst). rewrite <- list_fmap_compose. apply NoDup_fst_map_to_list.
      * apply (NoDup_fmap_1 fst), scored_nodup.
      * intros [x s]. unfold scored, g. rewrite !list_elem_of_fmap. split.
        -- intros ([id idx] & [= -> ->] & Hin%elem_of_map_to_list). pose proof Hin as [st Hst]%Hl. exists (id, st). cbn. rewrite Hst.
           split; [done|]. apply elem_of_map_to_list, contents_lookup; [done|by eexists].
        -- intros ([id st] & [= -> ->] & Hin%elem_of_map_to_list%contents_lookup); [|done]. destruct Hin as [idx Hst].
           exists (id, idx). cbn. rewrite Hst. split; [done|]. apply elem_of_map_to_list, Hl. by eexists.
  - apply Forall_forall. intros [id idx] Hin%elem_of_map_to_list. pose proof Hin as [st Hst]%Hl. unfold score_lookup, g. cbn [fst snd].
    rewrite Hst. cbn [mbind option_bind fst snd]. rewrite entry_score_fits; [done|].
    rewrite Forall_lookup in Hf. apply (Hf idx (id, st) Hst).
Qed.

Lemma linear_add_ok id v i : linear_ok i -> linear_ok (linear_add id v i).2.
Proof. intros Hok. unfold linear_add. by destruct (linear_insert_spec id v i Hok) as (r & i' & -> & H & _). Qed.

(** Nothing that the index does panics. *)
Lemma linear_never_panics i id v query k : linear_ok i ->
  is_Some (linear_insert_internal id v i) /\ is_Some (linear_remove id i) /\ is_Some (linear_search query k i).
Proof.
  intros Hok. destruct (linear_insert_spec id v i Hok) as (r & i1 & -> & _). destruct (linear_remove_spec id i Hok) as (r2 & i2 & -> & _).
  rewrite (linear_search_spec query k i Hok). done.
Qed.

Lemma take_best (l : list hit) k : StronglySorted hit_le l ->
  Sorted hit_le (take k l) /\ forall a b, a ∈ take k l -> b ∈ drop k l -> hit_le a b.
Proof.
  intros Hs. rewrite <- (take_drop k l) in Hs. split.
  - apply StronglySorted_Sorted. by eapply StronglySorted_app_1_l.
  - intros a b Ha Hb. by eapply StronglySorted_app_1_elem_of.
Qed.

(** The search of the linear index is exact: of all its entries it returns the
    best, as many as were asked for, in their order and with their scores. *)
Theorem linear_search_is_exact i query k :
  linear_ok i -> Z.of_nat (length query) = dimension (linear_config i) ->
  exists hits, linear_search query k i = Some (Ok hits) /\
    length hits = (k `min` size (contents i))%nat /\ NoDup (fst <$> hits) /\ Sorted hit_le hits /\
    (forall id s, (id, s) ∈ hits -> exists stored, contents i !! id = Some stored /\ s = score_of (linear_config i) query stored) /\
    (forall id stored, contents i !! id = Some stored ->
       let h := (id, score_of (linear_config i) query stored) in h ∈ hits \/ forall a, a ∈ hits -> hit_le a h).
Proof.
  intros Hok Hd. rewrite linear_search_spec by done. unfold exact_search. set (c := linear_config i) in *. set (m := contents i) in *.
  rewrite Hd, Z.eqb_refl. cbn [negb]. set (l := merge_sort hit_le (scored c query m)).
  assert (l ≡ₚ scored c query m) as Hp by apply merge_sort_Permutation.
  assert (length l = size m) as Hlen by (rewrite Hp; unfold scored; by rewrite length_fmap, length_map_to_list).
  assert ((if (k =? 0)%nat || (size m =? 0)%nat then Ok [] else Ok (take k l)) = Ok (E := MemoryError) (take k l)) as ->.
  { destruct (Nat.eqb_spec k 0) as [->|]; [by rewrite take_0|]. destruct (Nat.eqb_spec (size m) 0) as [E|]; [|done].
    rewrite E in Hlen. apply nil_length_inv in Hlen. rewrite Hlen. by destruct k. }
  exists (take k l). destruct (take_best l k (StronglySorted_merge_sort hit_le _)) as [Hsort Hbest].
  split_and!; try done.
  - by rewrite length_take, Hlen.
  - rewrite fmap_take. eapply sublist_NoDup; [|apply sublist_take]. rewrite Hp. apply scored_nodup.
  - intros id s Hin. assert ((id, s) ∈ l) as Hin' by by eapply subseteq_take.
    rewrite Hp in Hin'. unfold scored in Hin'. apply list_elem_of_fmap in Hin' as ([x st] & [= -> ->] & Hx%elem_of_map_to_list). by exists st.
  - intros id st Hst. assert ((id, score_of c query st) ∈ l) as Hin.
    { rewrite Hp. unfold scored. apply list_elem_of_fmap. exists (id, st). split; [done|]. by apply elem_of_map_to_list. }
    rewrite <- (take_drop k l) in Hin. apply elem_of_app in Hin as [?|Hin]; [by left|right]. intros a Ha. by apply Hbest.
Qed.

Lemma linear_search_is_exact_witness :
  let c := {| dimension := 2; distance_metric := Cosine; graph_m := 16; graph_ef := 50 |} in
  let v x y := [f32_of_Z x; f32_of_Z y] in
  let i := (linear_add (lit "b") (v 0 1) (linear_add (lit "a") (v 1 0) (linear_new c)).2).2 in
  linear_search (v 2 1) 1 i = Some (Ok [(lit "a", score_of c (v 2 1) (Quantized (quantize_i8 (v 1 0))))]) /\
  exists hits, linear_search (v 2 1) 1 i = Some (Ok hits) /\ length hits = 1%nat.
Proof.
  intros c v i. split; [vm_compute; reflexivity|].
  assert (linear_ok i) as Hok.
  { apply linear_add_ok, linear_add_ok, linear_new_ok. }
  destruct (linear_search_is_exact i (v 2 1) 1 Hok ltac:(vm_compute; reflexivity)) as (hits & H1 & H2 & _).
  exists hits. split; [done|]. rewrite H2. vm_compute. reflexivity.
Defined.

(** ** The slots of the HNSW index *)

Section NativeProofs.
Context `{Hnsw}.

Definition inserted_ids (b : HnswBackend) : list nat :=
  match b with CosineGraph g => fst <$> (view g).2 | L2Graph g => fst <$> (view g).2 end.

(** A node's slot is the one that carries its name and is not dead. *)
Definition hnsw_ok (i : HnswVectorIndex) : Prop :=
  (forall n s, slots i !! n = Some s <-> ids i !! s = Some n /\ (s ∉ tombstones i)) /\
  (forall t, t ∈ tombstones i -> (t < length (ids i))%nat) /\
  inserted_ids (backend i) = seq 0 (length (ids i)).

Lemma backend_new_ids c : inserted_ids (backend_new c) = [].
Proof using. unfold backend_new. destruct (distance_metric c); cbn; by rewrite view_new. Qed.

Lemma backend_insert_ids v id b : inserted_ids (backend_insert v id b) = inserted_ids b ++ [id].
Proof using. destruct b as [g|g]; cbn; by rewrite view_insert; cbn; rewrite fmap_app. Qed.

Lemma hnsw_new_ok ns c : hnsw_ok (hnsw_new ns c).
Proof using.
  split_and!; cbn; [|set_solver|apply backend_new_ids]. intros n s. rewrite lookup_empty, lookup_nil. naive_solver.
Qed.

(** The live slots, one per node. *)
Lemma hnsw_len_slots i : hnsw_ok i -> hnsw_len i = size (slots i).
Proof using.
  intros (Hs & Ht & _). unfold hnsw_len. set (all := list_to_set (seq 0 (length (ids i))) : gset nat).
  assert (size all = length (ids i)) as Ha by (unfold all; rewrite size_list_to_set by apply NoDup_seq; apply length_seq).
  assert (tombstones i ⊆ all) as Hsub by (intros t Hin%Ht; unfold all; rewrite elem_of_list_to_set, elem_of_seq; lia).
  rewrite <- Ha, <- size_difference by done.
  assert (NoDup (snd <$> map_to_list (slots i))) as Hn.
  { apply NoDup_fmap_2_strong; [|apply NoDup_map_to_list].
    intros [n s] [n' s'] Hx%elem_of_map_to_list Hy%elem_of_map_to_list E. cbn in E. subst s'.
    apply Hs in Hx as [Hx _], Hy as [Hy _]. congruence. }
  rewrite <- length_map_to_list, <- (length_fmap snd), <- (size_list_to_set (C := gset nat)) by done. f_equal. apply set_eq. intros s.
  rewrite elem_of_difference, elem_of_list_to_set, list_elem_of_fmap. unfold all. rewrite elem_of_list_to_set, elem_of_seq. split.
  - intros [[_ Hlt] Hnt]. destruct (lookup_lt_is_Some_2 (ids i) s) as [n Hn']; [lia|].
    exists (n, s). split; [done|]. apply elem_of_map_to_list, Hs. done.
  - intros ([n s'] & -> & Hin%elem_of_map_to_list). apply Hs in Hin as [Hi Hnt]. apply lookup_lt_Some in Hi. cbn. split; [lia|done].
Qed.

(** What writing does to the nodes, and when it is refused. *)
Lemma hnsw_insert_spec id v i : hnsw_ok i ->
  let '(r, i') := hnsw_insert_internal id v i in
  hnsw_ok i' /\ hnsw_config i' = hnsw_config i /\ max_slots i' = max_slots i /\
  match r with
  | Ok _ => Z.of_nat (length v) = dimension (hnsw_config i) /\ slots i' = <[id := length (ids i)]> (slots i) /\ ids i' = ids i ++ [id]
  | Err _ => slots i' = slots i /\ ids i' = ids i
  end.
Proof using.
  intros Hok. pose proof Hok as (Hs & Ht & Hb). unfold hnsw_insert_internal.
  destruct (Z.eqb_spec (Z.of_nat (length v)) (dimension (hnsw_config i))) as [Hd|]; cbn [negb]; [|done].
  destruct (negb (bool_decide (is_Some (slots i !! id))) && _); [done|]. destruct (max_slots i <=? _); [done|].
  split_and!; try done; cbn.
  - split_and!; cbn.
    + intros n s. rewrite lookup_snoc_Some.
      assert (forall t, t ∈ match slots i !! id with Some old => {[old]} ∪ tombstones i | None => tombstones i end <->
        slots i !! id = Some t \/ t ∈ tombstones i) as Hdead by (intros t; destruct (slots i !! id); set_solver).
      rewrite Hdead. assert (~ (length (ids i) ∈ tombstones i)) as Hfresh by (intros Hin%Ht; lia).
      assert (slots i !! id = Some (length (ids i)) -> False) as Hnew by (intros [Hin%lookup_lt_Some _]%Hs; lia).
      destruct (decide (id = n)) as [<-|Hn].
      * rewrite lookup_insert_eq. split; [intros [= <-]; naive_solver|]. intros [[[_ Hx]|[-> _]] Hnd]; [|done].
        exfalso. apply Hnd. left. apply Hs. naive_solver.
      * rewrite lookup_insert_ne, Hs by done. split.
        -- intros [Hx Hnt]. split; [left; split; [by eapply lookup_lt_Some|done]|]. intros [Hx'%Hs|?]; [|done]. naive_solver.
        -- intros [[[_ Hx]|[_ Hx]] Hnd]; naive_solver.
    + intros t. rewrite length_app. cbn. destruct (slots i !! id) as [old|] eqn:E; [|intros Hin%Ht; lia].
      rewrite elem_of_union, elem_of_singleton. intros [->|Hin%Ht]; [|lia]. apply Hs in E as [E%lookup_lt_Some _]. lia.
    + by rewrite backend_insert_ids, Hb, length_app, seq_app.
Qed.

Lemma hnsw_remove_spec id i : hnsw_ok i ->
  let '(r, i') := hnsw_remove id i in
  hnsw_ok i' /\ hnsw_config i' = hnsw_config i /\ max_slots i' = max_slots i /\
  match r with
  | Ok _ => is_Some (slots i !! id) /\ slots i' = delete id (slots i)
  | Err e => i' = i /\ e = EntryNotFound id /\ slots i !! id = None
  end.
Proof using.
  intros Hok. pose proof Hok as (Hs & Ht & Hb). unfold hnsw_remove. destruct (slots i !! id) as [old|] eqn:E; [|done].
  pose proof E as [Hold Hlive]%Hs. split_and!; try done. split_and!; cbn; [| |done].
  - intros n s. rewrite lookup_delete_Some, Hs, not_elem_of_union, not_elem_of_singleton. split.
    + intros (Hn & Hx & Hnt). split_and!; [done| |done]. intros ->. congruence.
    + intros (Hx & Hne & Hnt). split_and!; [|done|done]. intros <-. apply Hne. assert (slots i !! id = Some s) by by apply Hs. congruence.
  - intros t. rewrite elem_of_union, elem_of_singleton. intros [->|Hin%Ht]; [by eapply lookup_lt_Some|done].
Qed.

(** *** Search *)

Definition live_hit (i : HnswVectorIndex) (p : nat * f32) : option hit :=
  if bool_decide (fst p ∈ tombstones i) then None
  else n ← ids i !! fst p; Some (n, backend_score (backend i) (snd p)).

Lemma live_hit_slot i p n s : hnsw_ok i -> live_hit i p = Some (n, s) -> slots i !! n = Some (fst p) /\ s = backend_score (backend i) (snd p).
Proof using.
  intros (Hs & _). unfold live_hit. case_bool_decide as Hd; [done|]. destruct (ids i !! fst p) as [n'|] eqn:E; [|done].
  cbn. intros [= <- <-]. split; [|done]. by apply Hs.
Qed.

(** The loop takes the live neighbours until the room is used up; the second
    defence against duplicates is never needed. *)
Lemma live_hits_take i found room seen :
  hnsw_ok i -> NoDup (fst <$> found) -> (0 < room)%nat ->
  (forall p n s, p ∈ found -> live_hit i p = Some (n, s) -> (n ∉ seen)) ->
  live_hits i room seen found = take room (omap (live_hit i) found).
Proof using.
  intros Hok. revert room seen. induction found as [|[id d] found IH]; intros room seen Hn Hr Hseen; [by destruct room|].
  cbn [fmap list_fmap fst] in Hn. apply NoDup_cons in Hn as [Hid Hn]. cbn [live_hits omap list_omap].
  change (list_omap _ _ ?f ?l) with (omap f l).
  assert (forall p n s, p ∈ found -> live_hit i p = Some (n, s) -> (n ∉ seen)) as Hrest by (intros; eapply Hseen; [by right|done]).
  unfold live_hit at 1. cbn [fst snd]. case_bool_decide as Hd; [by apply IH|]. destruct (ids i !! id) as [n|] eqn:E; [|by apply IH].
  cbn [mbind option_bind]. assert (live_hit i (id, d) = Some (n, backend_score (backend i) d)) as Hl.
  { unfold live_hit. cbn. by rewrite bool_decide_false, E. }
  rewrite bool_decide_false by (eapply Hseen; [by left|done]).
  destruct room as [|[|room]]; [lia|by cbn; rewrite take_0|]. cbn [take]. f_equal. apply IH; [done|lia|].
  intros [id' d'] n' s' Hp Hl'. rewrite not_elem_of_union, not_elem_of_singleton. split; [|by eapply Hrest].
  intros ->. apply live_hit_slot in Hl as [Hl _], Hl' as [Hl' _]; [|done..]. cbn in *. apply Hid, list_elem_of_fmap.
  exists (id', d'). split; [cbn; congruence|done].
Qed.

Lemma backend_search_once q knn ef i : hnsw_ok i -> NoDup (fst <$> backend_search q knn ef (backend i)).
Proof using.
  intros (_ & _ & Hb). destruct (backend i) as [g|g]; cbn in *; apply find_once; rewrite Hb; apply NoDup_seq.
Qed.

Lemma backend_search_inserted q knn ef b id d : (id, d) ∈ backend_search q knn ef b -> id ∈ inserted_ids b.
Proof using.
  destruct b as [g|g]; cbn; intros (v & Hv & _)%find_inserted; apply list_elem_of_fmap; by exists (id, v).
Qed.

Lemma omap_hits_nodup i found : hnsw_ok i -> NoDup (fst <$> found) -> NoDup (fst <$> omap (live_hit i) found).
Proof using.
  intros Hok. induction found as [|[id d] found IH]; [by constructor|]. cbn [fmap list_fmap fst]. intros [Hid Hn]%NoDup_cons. cbn [omap list_omap].
  change (list_omap _ _ ?f ?l) with (omap f l). destruct (live_hit i (id, d)) as [[n s]|] eqn:E; [|by apply IH].
  cbn [fmap list_fmap fst]. apply NoDup_cons. split; [|by apply IH].
  intros ([n' s'] & -> & ([id' d'] & Hp & E')%list_elem_of_omap)%list_elem_of_fmap.
  apply live_hit_slot in E as [E _], E' as [E' _]; [|done..]. cbn in *. apply Hid, list_elem_of_fmap. exists (id', d'). split; [cbn; congruence|done].
Qed.

(** At most the tombstones are lost. *)
Lemma omap_hits_length i found : hnsw_ok i -> NoDup (fst <$> found) -> (forall p, p ∈ found -> fst p ∈ inserted_ids (backend i)) ->
  (length found <= length (omap (live_hit i) found) + size (tombstones i))%nat.
Proof using.
  intros Hok Hn Hin. set (dead := filter (fun s => s ∈ tombstones i) (fst <$> found)).
  assert (length found = length (omap (live_hit i) found) + length dead)%nat as ->.
  { unfold dead. clear Hn dead. induction found as [|[id d] found IH]; [done|]. cbn [fmap list_fmap fst length omap list_omap].
    change (list_omap _ _ ?f ?l) with (omap f l). rewrite IH by (intros; apply Hin; by right). rewrite filter_cons. unfold live_hit at 2. cbn [fst snd].
    destruct (decide (id ∈ tombstones i)) as [Hd|Hd]; [by rewrite bool_decide_true; cbn; [lia|]|]. rewrite bool_decide_false by done.
    destruct Hok as (_ & _ & Hb). specialize (Hin (id, d) ltac:(by left)). cbn in Hin. rewrite Hb, elem_of_seq in Hin.
    destruct (lookup_lt_is_Some_2 (ids i) id) as [n ->]; [lia|]. done. }
  apply Nat.add_le_mono_l. rewrite <- (size_list_to_set (C := gset nat) dead) by by apply NoDup_filter.
  apply subseteq_size. intros s. unfold dead. rewrite elem_of_list_to_set, list_elem_of_filter. by intros [? _].
Qed.

(** What the graph says about a slot. *)
Definition slot_distance (b : HnswBackend) (query : list f32) (slot : nat) (d : f32) : Prop :=
  match b with
  | CosineGraph g => exists v, (slot, v) ∈ (view g).2 /\ d = (view g).1 (data (quantize_i8 query)) v
  | L2Graph g => exists v, (slot, v) ∈ (view g).2 /\ d = (view g).1 query v
  end.

Lemma backend_search_distance q knn ef b id d : (id, d) ∈ backend_search q knn ef b -> slot_distance b q id d.
Proof using. destruct b as [g|g]; cbn; apply find_inserted. Qed.

(** A search returns live nodes only, each once, with the distance of the vector
    that was written last; removed and overwritten vectors in the graph do not
    take anything away from the answer: if the graph finds what it is asked for,
    the answer is as long as it can be. *)
Theorem hnsw_search_finds i query k :
  hnsw_ok i -> Z.of_nat (length query) = dimension (hnsw_config i) ->
  exists hits, hnsw_search query k i = Ok hits /\ NoDup (fst <$> hits) /\ (length hits <= k `min` size (slots i))%nat /\
    (forall n s, (n, s) ∈ hits -> exists slot d, slots i !! n = Some slot /\ slot_distance (backend i) query slot d /\
       s = backend_score (backend i) d) /\
    (finds_all -> length hits = (k `min` size (slots i))%nat).
Proof using.
  intros Hok Hd. pose proof (hnsw_len_slots i Hok) as Hlen. unfold hnsw_search. rewrite Hd, Z.eqb_refl. cbn [negb].
  destruct ((k =? 0)%nat || (hnsw_len i =? 0)%nat) eqn:E0.
  { exists []. rewrite <- Hlen. split_and!; try done; [constructor|cbn; lia|set_solver|]. intros _. cbn. apply orb_true_iff in E0 as [E%Nat.eqb_eq|E%Nat.eqb_eq]; lia. }
  apply orb_false_iff in E0 as [Hk%Nat.eqb_neq Hl%Nat.eqb_neq]. cbv zeta. set (knn := (_ `min` length (ids i))%nat). set (ef := (_ `max` knn)%nat).
  set (found := backend_search query knn ef (backend i)). pose proof (backend_search_once query knn ef i Hok) as Hn. fold found in Hn.
  assert (forall p, p ∈ found -> fst p ∈ inserted_ids (backend i)) as Hin by (intros [id d] Hp; by eapply backend_search_inserted).
  rewrite (live_hits_take i found _ ∅) by (done || lia || set_solver). eexists. split; [done|].
  set (all := omap (live_hit i) found). set (room := (k `min` hnsw_len i)%nat) in *. split_and!.
  - rewrite fmap_take. eapply sublist_NoDup; [|apply sublist_take]. by apply omap_hits_nodup.
  - rewrite length_take, <- Hlen. unfold room. lia.
  - intros n s Hp. assert ((n, s) ∈ all) as Hp' by by eapply subseteq_take. unfold all in Hp'.
    apply list_elem_of_omap in Hp' as ([slot d] & Hf & E). apply live_hit_slot in E as [Hs ->]; [|done].
    exists slot, d. split_and!; [done|by eapply backend_search_distance|done].
  - intros Hall. rewrite length_take, <- Hlen. fold room. apply Nat.min_l.
    pose proof (omap_hits_length i found Hok Hn Hin) as Hlost. fold all in Hlost.
    assert (length found = knn) as Hfound.
    { destruct Hok as (_ & _ & Hb). unfold found, backend_search. destruct (backend i) as [g|g]; cbn in Hb;
        (rewrite Hall by (unfold ef; lia)); rewrite <- (length_fmap fst), Hb, length_seq; unfold knn; lia. }
    unfold hnsw_len in *. unfold knn in Hfound. lia.
Qed.
End NativeProofs.

Lemma brute_force_finds_all l2 : @finds_all (brute_force l2).
Proof.
  intros T q knn ef g _. cbn. unfold nearest. by rewrite length_take, merge_sort_Permutation, length_fmap.
Qed.

(** Two vectors were written under one name, another one was removed. *)
Lemma hnsw_search_finds_witness :
  let H := brute_force (similarity_score Euclidean) in
  let c := {| dimension := 2; distance_metric := Cosine; graph_m := 16; graph_ef := 50 |} in
  let v x y := [f32_of_Z x; f32_of_Z y] in
  let add n v i := (hnsw_insert_internal (lit n) v i).2 in
  let i := (hnsw_remove (lit "b") (add "a" (v 0 1) (add "b" (v 1 1) (add "a" (v 1 0) (hnsw_new Personal c))))).2 in
  match hnsw_search (v 2 1) 2 i with Ok hits => map fst hits = [lit "a"] | Err _ => False end /\
  exists hits, hnsw_search (v 2 1) 2 i = Ok hits /\ length hits = 1%nat.
Proof.
  intros H c v add i. split; [vm_compute; reflexivity|].
  assert (forall n v i, hnsw_ok i -> hnsw_ok (add n v i)) as Hadd.
  { intros n x j Hj. unfold add. pose proof (hnsw_insert_spec (lit n) x j Hj) as Hs. destruct (hnsw_insert_internal (lit n) x j); apply Hs. }
  assert (hnsw_ok i) as Hok.
  { unfold i. set (j := add "a" _ _). assert (hnsw_ok j) as Hj by apply Hadd, Hadd, Hadd, hnsw_new_ok.
    pose proof (hnsw_remove_spec (lit "b") j Hj) as Hs. destruct (hnsw_remove (lit "b") j); apply Hs. }
  destruct (hnsw_search_finds i (v 2 1) 2 Hok ltac:(vm_compute; reflexivity)) as (hits & E & _ & _ & _ & Hl).
  exists hits. split; [done|]. rewrite (Hl (brute_force_finds_all _)). vm_compute. reflexivity.
Defined.
