(* ===== verification/VectorManager.v ===== *)
(** * The index manager ([memory/vector_manager.rs])

    Each namespace has a slot: registered ([Pending]) or materialised ([Loaded]).
    The first search of a namespace loads the index from the table of embeddings;
    writes to a pending slot do nothing, because the row is in the table already.

    [IndexLaws] is what the manager relies on: which vectors an index stands for,
    what its operations do to them, and what loading makes of a table.  Both indexes
    of [VectorIndex] satisfy it.  [coherent] says that what is materialised stands
    for the rows of the table; then it does not show whether a slot is loaded.

    A search holds the lock of its slot: [holding] keeps the slot from the others
    meanwhile.  The iteration order of the hash map of slots is an argument of
    [save_all]. *)

From Stdlib Require Import SpecFloat.
From stdpp Require Import sorting.
From S2P Require Import Prelude Utf8 JsonValue Messages Sql Kv Runs Vectors VectorIndex.

Open Scope string_scope.
Open Scope list_scope.
Open Scope Z_scope.
Open Scope sql_scope.

(** ** The manager *)

Definition debug_name (ns : MemoryNamespace) : str :=
  match ns with
  | Personal => lit "Personal"
  | Document => lit "Document"
  | Code => lit "Code"
  | EnterpriseKnowledge => lit "EnterpriseKnowledge"
  | Temporary => lit "Temporary"
  end.

Definition saturated_error : MemoryError :=
  Storage (lit "vector index is physically saturated (all physical slots occupied, no tombstones to reclaim); remove entries to make room").

Section Manager.
Context {I : Type} `{VectorIndex I}.
Abbreviation M := (Sql.M (Stores I) MemoryError).

(** What the manager does to its own slots, at no command of a table. *)
Definition modify {A} (f : Stores I -> A * Stores I) : M A := fun _ n s => let '(a, s') := f s in (Ok a, s', n).

Definition slot_of (ns : MemoryNamespace) : M (option (IndexSlot I)) := modify (fun s => (indexes s !! ns, s)).
Definition put_slot (ns : MemoryNamespace) (slot : IndexSlot I) : M unit := modify (fun s => (tt, set_slot ns slot s)).
Definition drop_slot (ns : MemoryNamespace) (s : Stores I) : Stores I :=
  {| memories := memories s; embeddings := embeddings s; hnsw_cache := hnsw_cache s; indexes := delete ns (indexes s) |}.

Definition create_index (ns : MemoryNamespace) (config : VectorIndexConfig) : M unit :=
  modify (fun s => (tt, match indexes s !! ns with Some _ => s | None => set_slot ns (Pending config) s end)).

Definition remove_index (ns : MemoryNamespace) : M unit :=
  kv_delete_prefix embeddings set_embeddings (storage_prefix ns) ;;;
  kv_delete hnsw_cache set_hnsw_cache (lit "hnsw/" ++ namespace_str ns) ;;;
  modify (fun s => (tt, drop_slot ns s)).

Definition is_loaded (ns : MemoryNamespace) (s : Stores I) : bool :=
  match indexes s !! ns with Some (Loaded _ _) => true | _ => false end.

Definition manager_add (ns : MemoryNamespace) (node_id : str) (vector : list f32) : M unit :=
  slot <- slot_of ns ;;
  match slot with
  | None => fail (NamespaceNotFound (debug_name ns))
  | Some (Pending config) =>
      guard_else (Z.of_nat (length vector) =? dimension config) (dimension_mismatch (dimension config) (length vector))
  | Some (Loaded config index) =>
      if is_physically_saturated index && negb (contains_node node_id index) then fail saturated_error
      else
        let '(result, added) := index_add node_id vector index in
        let '(rebuild_required, index) :=
          match result with Err _ => take_rebuild_required added | Ok _ => (false, added) end in
        put_slot ns (Loaded config index) ;;;
        if negb rebuild_required then lift result
        else rebuilt <- index_load ns config ;; put_slot ns (Loaded config rebuilt)
  end.

Definition manager_remove (ns : MemoryNamespace) (node_id : str) : M unit :=
  slot <- slot_of ns ;;
  match slot with
  | None => fail (NamespaceNotFound (debug_name ns))
  | Some (Pending _) => ret tt
  | Some (Loaded config index) =>
      let '(result, index) := index_remove node_id index in
      put_slot ns (Loaded config index) ;;; lift result
  end.

(** The lock of a slot: the others run once more before it is granted, and leave
    the slot alone afterwards. *)
Definition keep_slot (ns : MemoryNamespace) (f : Stores I -> Stores I) (s : Stores I) : Stores I :=
  let now := f s in
  {| memories := memories now; embeddings := embeddings now; hnsw_cache := hnsw_cache now;
     indexes := partial_alter (fun _ => indexes s !! ns) ns (indexes now) |}.

Definition holding {A} (ns : MemoryNamespace) (m : M A) : M A := fun w n s =>
  m (fun n => {| clock := clock (w n); fault := fault (w n); others := keep_slot ns (others (w n)) |}) (Datatypes.S n) (others (w n) s).

Definition search_body (ns : MemoryNamespace) (query : list f32) (top_k : nat) : M (list hit) :=
  slot <- slot_of ns ;;
  match slot with
  | None => fail (NamespaceNotFound (debug_name ns))
  | Some (Pending config) =>
      if (top_k =? 0)%nat then ret []
      else if negb (Z.of_nat (length query) =? dimension config)
      then fail (dimension_mismatch (dimension config) (length query))
      else
        index <- index_load ns config ;;
        put_slot ns (Loaded config index) ;;;
        lift (index_search query top_k index)
  | Some (Loaded _ index) => lift (index_search query top_k index)
  end.

Definition manager_search (ns : MemoryNamespace) (query : list f32) (top_k : nat) : M (list hit) :=
  holding ns (search_body ns query top_k).

Definition save_slot (ns : MemoryNamespace) : M unit :=
  slot <- slot_of ns ;;
  match slot with Some (Loaded _ index) => index_save index | _ => ret tt end.

Definition save_index (ns : MemoryNamespace) : M unit :=
  slot <- slot_of ns ;;
  match slot with None => fail (NamespaceNotFound (debug_name ns)) | Some _ => holding ns (save_slot ns) end.

Fixpoint save_all (order : list MemoryNamespace) : M unit :=
  match order with [] => ret tt | ns :: order => holding ns (save_slot ns) ;;; save_all order end.
End Manager.

(** ** What a table of embeddings stands for *)

Definition row_vector (r : Row) : option (list f32) :=
  match row_value r with
  | Ok (Some x) => match vector_from_value x with Ok v => Some v | Err _ => None end
  | _ => None
  end.

(** The row of a vector of the namespace with the right dimension. *)
Definition row_entry (c : VectorIndexConfig) (ns : MemoryNamespace) (kr : str * Row) : option (str * list f32) :=
  id ← strip_prefix (storage_prefix ns) (fst kr);
  v ← row_vector (snd kr);
  if Z.of_nat (length v) =? dimension c then Some (id, v) else None.

Definition row_vectors (c : VectorIndexConfig) (ns : MemoryNamespace) (t : Rows) : gmap str (list f32) :=
  list_to_map (omap (row_entry c ns) (map_to_list t)).

Lemma strip_prefix_spec p k id : strip_prefix p k = Some id <-> k = p ++ id.
Proof.
  unfold strip_prefix. split.
  - destruct (starts_with p k) eqn:E; [|done]. apply starts_with_spec in E as [t ->]. intros [= <-]. by rewrite drop_app_length.
  - intros ->. assert (starts_with p (p ++ id) = true) as -> by (apply starts_with_spec; by exists id). by rewrite drop_app_length.
Qed.

Lemma row_entry_spec c ns k r id v : row_entry c ns (k, r) = Some (id, v) <->
  k = storage_key ns id /\ row_vector r = Some v /\ Z.of_nat (length v) = dimension c.
Proof.
  unfold row_entry. cbn [fst snd]. rewrite storage_key_prefix. destruct (strip_prefix (storage_prefix ns) k) as [id'|] eqn:E.
  - apply strip_prefix_spec in E as ->. cbn [mbind option_bind]. destruct (row_vector r) as [v'|]; [|cbn; naive_solver].
    cbn [mbind option_bind]. destruct (Z.eqb_spec (Z.of_nat (length v')) (dimension c)) as [Hd|Hd]; [|naive_solver].
    split; [intros [= -> ->]; done|]. by intros (->%app_inv_head & [= ->] & _).
  - split; [done|]. intros [E' _]. apply strip_prefix_spec in E'. congruence.
Qed.

Lemma row_vectors_lookup c ns t id v : row_vectors c ns t !! id = Some v <->
  exists r, t !! storage_key ns id = Some r /\ row_vector r = Some v /\ Z.of_nat (length v) = dimension c.
Proof.
  unfold row_vectors. rewrite <- elem_of_list_to_map.
  - rewrite list_elem_of_omap. split.
    + intros ([k r] & Hin%elem_of_map_to_list & (-> & Hv)%row_entry_spec). eauto.
    + intros (r & Hr & Hv & Hd). exists (storage_key ns id, r). split; [by apply elem_of_map_to_list|by apply row_entry_spec].
  - assert (NoDup (fst <$> map_to_list t)) as Hn by apply NoDup_fst_map_to_list.
    induction (map_to_list t) as [|[k r] l IH]; [constructor|]. cbn [fmap list_fmap fst] in Hn. apply NoDup_cons in Hn as [Hk Hn].
    cbn [omap list_omap]. change (list_omap _ _ ?f ?l) with (omap f l). destruct (row_entry c ns (k, r)) as [[x y]|] eqn:E; [|by apply IH].
    cbn [fmap list_fmap fst]. apply NoDup_cons. split; [|by apply IH]. apply row_entry_spec in E as (-> & _).
    intros ([x' y'] & -> & ([k' r'] & Hin & (-> & _)%row_entry_spec)%list_elem_of_omap)%list_elem_of_fmap.
    apply Hk, list_elem_of_fmap. by exists (storage_key ns x', r').
Qed.

(** A row that is written or removed. *)
Lemma row_vectors_insert c ns t id r v : row_vector r = Some v -> Z.of_nat (length v) = dimension c ->
  row_vectors c ns (<[storage_key ns id := r]> t) = <[id := v]> (row_vectors c ns t).
Proof.
  intros Hr Hd. apply map_eq. intros x. apply option_eq. intros y. rewrite row_vectors_lookup, lookup_insert_Some, row_vectors_lookup.
  destruct (decide (id = x)) as [<-|Hn].
  - rewrite lookup_insert_eq. split; [intros (? & [= <-] & ? & ?); left; split; [done|congruence]|]. intros [[_ <-]|[? _]]; [eauto|done].
  - rewrite lookup_insert_ne by (intros [_ E]%storage_key_inj; done). naive_solver.
Qed.

Lemma row_vectors_delete c ns t id : row_vectors c ns (delete (storage_key ns id) t) = delete id (row_vectors c ns t).
Proof.
  apply map_eq. intros x. apply option_eq. intros y. rewrite row_vectors_lookup, lookup_delete_Some, row_vectors_lookup.
  setoid_rewrite lookup_delete_Some. split.
  - intros (r & [Hne Hr] & Hv). split; [intros ->; by apply Hne|eauto].
  - intros [Hn (r & Hr & Hv)]. exists r. split; [|done]. split; [intros [_ E]%storage_key_inj; done|done].
Qed.

(** Rows outside of a namespace do not matter to it. *)
Lemma row_vectors_other c ns t k r : starts_with (storage_prefix ns) k = false -> row_vectors c ns (<[k := r]> t) = row_vectors c ns t.
Proof.
  intros Hk. apply map_eq. intros x. apply option_eq. intros y. rewrite !row_vectors_lookup.
  rewrite lookup_insert_ne; [done|]. intros ->. by rewrite storage_key_starts in Hk.
Qed.

(** ** Loading *)

Section Loading.
Context {I : Type}.
Abbreviation M := (Sql.M (Stores I) MemoryError).

Lemma set_embeddings_same (s : Stores I) : set_embeddings (embeddings s) s = s.
Proof using. by destruct s. Qed.

(** One round of the loop over a table that is read without failures. *)
Definition load_step (insert : str -> list f32 -> I -> result unit MemoryError * I) (ns : MemoryNamespace) (t : Rows) (i : I) (key : str) : I :=
  match strip_prefix (storage_prefix ns) key with
  | None => i
  | Some id => match t !! key ≫= row_vector with Some v => (insert id v i).2 | None => i end
  end.

Lemma load_rows_spec insert ns keys i w n (s : Stores I) r s' n' :
  alone w -> permanent (embeddings s) -> load_rows insert (storage_prefix ns) keys i w n s = (r, s', n') ->
  s' = s /\ (n <= n')%nat /\ (r = Ok (foldl (load_step insert ns (embeddings s)) i keys) \/ r = Err (internal "storage")).
Proof using.
  intros Hw Hp. revert i n. induction keys as [|key keys IH]; intros i n; cbn [load_rows foldl].
  - intros [= <- <- <-]. split_and!; [done|done|by left].
  - assert (forall i, load_rows insert (storage_prefix ns) keys i w (Datatypes.S n) s = (r, s', n') ->
      s' = s /\ (n <= n')%nat /\ (r = Ok (foldl (load_step insert ns (embeddings s)) i keys) \/ r = Err (internal "storage"))) as IH'.
    { intros j E. destruct (IH j _ E) as (? & ? & ?). split_and!; [done|lia|done]. }
    unfold load_step at 2. destruct (strip_prefix (storage_prefix ns) key) as [id|]; [|apply IH].
    unfold bind, tried, get_embedding. rewrite (get_permanent embeddings) by (apply set_embeddings_same || done).
    destruct (fault (w n)); [intros [= <- <- <-]; split_and!; [done|lia|by right]|].
    destruct (embeddings s !! key) as [[|e [v|]]|]; cbn -[vector_from_value]; try apply IH'.
    unfold row_vector. cbn -[vector_from_value]. destruct (vector_from_value v); apply IH'.
Qed.

(** The keys that the scan finds. *)
Definition scanned (ns : MemoryNamespace) (t : Rows) (keys : list str) : Prop :=
  NoDup keys /\ forall k, k ∈ keys <-> starts_with (storage_prefix ns) k = true /\ exists r, t !! k = Some r /\ r <> Damaged.

Lemma list_embeddings_spec ns w n (s : Stores I) r s' n' :
  alone w -> permanent (embeddings s) -> list_embeddings (storage_prefix ns) w n s = (r, s', n') ->
  s' = s /\ n' = Datatypes.S n /\ (r = Err (internal "storage") \/ exists keys, r = Ok keys /\ scanned ns (embeddings s) keys).
Proof using.
  intros Hw Hp. unfold list_embeddings, kv_list_prefix, command. cbv zeta. rewrite !Hw. destruct (fault (w n)).
  { intros [= <- <- <-]. split_and!; [done..|by left]. }
  intros [= <- <- <-]. rewrite set_embeddings_same. split_and!; [done..|]. right. eexists. split; [done|]. split.
  - rewrite merge_sort_Permutation. apply nodup_keys_where.
  - intros k. rewrite merge_sort_Permutation, elem_keys_where. apply and_iff_compat_l, exist_proper. intros x. split.
    + intros [Hx Hl]. split; [done|]. by intros ->.
    + intros [Hx Hd]. split; [done|]. pose proof (Hp _ _ Hx) as Hpx. by destruct x as [|[]].
Qed.

(** An index that is filled vector by vector. *)
Section Fill.
Context (insert : str -> list f32 -> I -> result unit MemoryError * I).
Context (c : VectorIndexConfig) (filled : gmap str (list f32) -> I -> Prop) (room : Z).
Hypothesis fill : forall m i id v, filled m i -> Z.of_nat (length v) = dimension c -> m !! id = None ->
  Z.of_nat (size m) < room -> filled (<[id := v]> m) (insert id v i).2.
Hypothesis skip : forall m i id v, filled m i -> Z.of_nat (length v) <> dimension c -> filled m (insert id v i).2.

Lemma fill_rows ns t keys i m :
  let target := row_vectors c ns t in
  Z.of_nat (size target) <= room -> NoDup keys -> (forall k, k ∈ keys -> starts_with (storage_prefix ns) k = true) ->
  (forall id v, m !! id = Some v -> target !! id = Some v /\ (storage_key ns id ∉ keys)) -> filled m i ->
  exists m', filled m' (foldl (load_step insert ns t) i keys) /\
    forall id, m' !! id = if bool_decide (storage_key ns id ∈ keys) then target !! id else m !! id.
Proof using fill skip.
  intros target Hroom. revert i m. induction keys as [|k keys IH]; intros i m Hn Hk Hm Hi.
  { exists m. split; [done|]. intros id. by rewrite bool_decide_false by set_solver. }
  apply NoDup_cons in Hn as [Hkn Hn]. destruct (starts_with_spec (storage_prefix ns) k) as [(id & E) _]; [apply Hk; by left|].
  rewrite <- storage_key_prefix in E. subst k. cbn [foldl]. unfold load_step at 2. rewrite strip_storage_prefix.
  assert (forall m' : gmap str (list f32), (forall x, m' !! x = if bool_decide (storage_key ns x ∈ keys) then target !! x else if decide (id = x) then target !! id else m !! x) ->
    forall x, m' !! x = if bool_decide (storage_key ns x ∈ storage_key ns id :: keys) then target !! x else m !! x) as Hfin.
  { intros m' Hm' x. rewrite Hm'. destruct (decide (id = x)) as [->|Hx].
    - rewrite (bool_decide_true (_ ∈ _ :: _)) by by left. by case_bool_decide.
    - rewrite (bool_decide_ext (storage_key ns x ∈ storage_key ns id :: keys) (storage_key ns x ∈ keys)); [done|].
      rewrite elem_of_cons. split; [intros [[_ E]%storage_key_inj|?]; [congruence|done]|by right]. }
  assert (m !! id = None) as Hfresh.
  { destruct (m !! id) as [v|] eqn:E; [|done]. apply Hm in E as [_ E]. exfalso. apply E. by left. }
  assert (forall x v, m !! x = Some v -> target !! x = Some v /\ (storage_key ns x ∉ keys)) as Hm0.
  { intros x v Hx. apply Hm in Hx as [? Hx]. split; [done|]. intros ?. apply Hx. by right. }
  assert (forall x, x ∈ keys -> starts_with (storage_prefix ns) x = true) as Hk0 by (intros x Hx; apply Hk; by right).
  destruct (target !! id) as [v|] eqn:Et.
  - pose proof Et as (r & -> & Hv & Hd)%row_vectors_lookup. cbn [mbind option_bind]. rewrite Hv.
    assert (Z.of_nat (size m) < room) as Hlt.
    { assert (size (<[id := v]> m) <= size target)%nat as Hle; [|rewrite map_size_insert_None in Hle by done; lia].
      apply map_subseteq_size, map_subseteq_spec. intros x y [[<- <-]|[_ Hx]]%lookup_insert_Some; [done|by apply Hm0 in Hx as [? _]]. }
    destruct (IH (insert id v i).2 (<[id := v]> m) Hn Hk0) as (m' & Hi' & Hm'); [|by apply fill|].
    + intros x y [[<- <-]|[_ Hx]]%lookup_insert_Some; [done|by apply Hm0].
    + exists m'. split; [done|]. apply Hfin. intros x. rewrite Hm'. destruct (decide (id = x)) as [<-|Hx]; [by rewrite lookup_insert_eq|by rewrite lookup_insert_ne].
  - assert (filled m (match t !! storage_key ns id ≫= row_vector with Some v => (insert id v i).2 | None => i end)) as Hi'.
    { destruct (t !! storage_key ns id) as [r|] eqn:Er; [|done]. cbn [mbind option_bind]. destruct (row_vector r) as [v|] eqn:Ev; [|done].
      apply skip; [done|]. intros Hd. assert (target !! id = Some v); [|congruence]. apply row_vectors_lookup. eauto. }
    destruct (IH _ m Hn Hk0 Hm0 Hi') as (m' & Hi2 & Hm'). exists m'. split; [done|]. apply Hfin. intros x. rewrite Hm'.
    destruct (decide (id = x)) as [<-|Hx]; [by rewrite Hfresh|done].
Qed.

(** A load of all rows fills the index with the vectors of the namespace. *)
Lemma fill_all ns t keys i :
  Z.of_nat (size (row_vectors c ns t)) <= room -> scanned ns t keys -> filled ∅ i ->
  filled (row_vectors c ns t) (foldl (load_step insert ns t) i keys).
Proof using fill skip.
  intros Hroom [Hn Hk] Hi. destruct (fill_rows ns t keys i ∅ Hroom Hn) as (m' & Hf & Hm'); [by intros k [? _]%Hk|done|done|].
  assert (m' = row_vectors c ns t) as ->; [|done]. apply map_eq. intros id. rewrite Hm'. case_bool_decide as Hin; [done|].
  rewrite lookup_empty. symmetry. apply eq_None_not_Some. intros [v (r & Hr & Hv & _)%row_vectors_lookup]. apply Hin, Hk.
  split; [apply storage_key_starts|]. exists r. split; [done|]. by intros ->.
Qed.
End Fill.
End Loading.

(** ** What an index stands for *)

Definition same_tables {I} (s s' : Stores I) : Prop :=
  memories s' = memories s /\ embeddings s' = embeddings s /\ indexes s' = indexes s.

#[export] Instance same_tables_trans {I} : Transitive (@same_tables I).
Proof. intros a b c (H1 & H2 & H3) (H4 & H5 & H6). unfold same_tables. by rewrite H4, H5, H6. Qed.

Class IndexLaws (I : Type) `{VectorIndex I} := {
  represents : VectorIndexConfig -> gmap str (list f32) -> I -> Prop;
  index_score : VectorIndexConfig -> list f32 -> list f32 -> f32;
  index_capacity : Z;
  add_law c m i id v : represents c m i ->
    let '(r, i') := index_add id v i in
    match r with
    | Ok _ => Z.of_nat (length v) = dimension c /\ represents c (<[id := v]> m) i'
    | Err _ =>
        let '(rebuild, i') := take_rebuild_required i' in
        represents c m i' /\ (rebuild = true -> Z.of_nat (length v) = dimension c)
    end;
  remove_law c m i id : represents c m i ->
    let '(r, i') := index_remove id i in
    match r with
    | Ok _ => is_Some (m !! id) /\ represents c (delete id m) i'
    | Err e => i' = i /\ e = EntryNotFound id /\ m !! id = None
    end;
  search_law c m i q k hits : represents c m i -> index_search q k i = Ok hits ->
    NoDup (fst <$> hits) /\ (length hits <= k)%nat /\
    forall n s, (n, s) ∈ hits -> exists v, m !! n = Some v /\ s = index_score c q v;
  load_law ns c w n s r s' n' : alone w -> permanent (embeddings s) -> index_load ns c w n s = (r, s', n') ->
    same_tables s s' /\ (n <= n')%nat /\
    forall i, r = Ok i -> Z.of_nat (size (row_vectors c ns (embeddings s))) <= index_capacity ->
      represents c (row_vectors c ns (embeddings s)) i
}.

(** *** The linear index *)

Definition linear_represents (c : VectorIndexConfig) (m : gmap str (list f32)) (i : LinearVectorIndex) : Prop :=
  linear_ok i /\ linear_config i = c /\ contents i = stored_form (distance_metric c) <$> m.

Lemma linear_fill c m i id v :
  linear_represents c m i -> Z.of_nat (length v) = dimension c -> m !! id = None ->
  Z.of_nat (size m) < VECTOR_MAX_ENTRIES_WEB -> linear_represents c (<[id := v]> m) (linear_add id v i).2.
Proof.
  intros (Hok & <- & Hm) Hd Hid Hroom. unfold linear_add. destruct (linear_insert_spec id v i Hok) as (r & i' & -> & Hok' & Hc & Hr).
  cbn. destruct r as [[]|e].
  - destruct Hr as [_ Hr]. split_and!; [done|done|]. by rewrite Hr, fmap_insert, Hm.
  - destruct Hr as [-> Hfull]. destruct (Hfull Hd) as [_ Hsize]. rewrite Hm, map_size_fmap in Hsize. lia.
Qed.

Lemma linear_skip c m i id v :
  linear_represents c m i -> Z.of_nat (length v) <> dimension c -> linear_represents c m (linear_add id v i).2.
Proof.
  intros (Hok & <- & Hm) Hd%Z.eqb_neq. unfold linear_add, linear_insert_internal. by rewrite Hd.
Qed.

#[export] Program Instance linear_laws : IndexLaws LinearVectorIndex := {|
  represents := linear_represents;
  index_score c q v := score_of c q (stored_form (distance_metric c) v);
  index_capacity := VECTOR_MAX_ENTRIES_WEB
|}.
Next Obligation.
  intros c m i id v (Hok & <- & Hm). cbn. unfold linear_add. destruct (linear_insert_spec id v i Hok) as (r & i' & -> & Hok' & Hc & Hr).
  cbn. destruct r as [[]|e]; [destruct Hr as [Hd Hr]|by destruct Hr as [-> _]].
  split; [done|]. split_and!; [done|done|]. by rewrite Hr, fmap_insert, Hm.
Qed.
Next Obligation.
  intros c m i id (Hok & <- & Hm). cbn. destruct (linear_remove_spec id i Hok) as (r & i' & -> & Hok' & Hc & Hr). cbn.
  rewrite Hm in Hr. destruct r as [[]|e].
  - destruct Hr as [Hs Hr]. rewrite lookup_fmap, fmap_is_Some in Hs. split; [done|]. split_and!; [done|done|]. by rewrite Hr, fmap_delete.
  - destruct Hr as (-> & -> & Hn). by rewrite lookup_fmap, fmap_None in Hn.
Qed.
Next Obligation.
  intros c m i q k hits (Hok & <- & Hm). cbn. rewrite linear_search_spec by done. cbn. unfold exact_search.
  destruct ((k =? 0)%nat || _). { intros [= <-]. split_and!; [constructor|cbn; lia|set_solver]. }
  destruct (negb _); [done|]. intros [= <-]. split_and!.
  - rewrite fmap_take. eapply sublist_NoDup; [|apply sublist_take]. rewrite merge_sort_Permutation. apply scored_nodup.
  - rewrite length_take. lia.
  - intros n s Hh. eapply subseteq_take in Hh. rewrite merge_sort_Permutation in Hh. unfold scored in Hh.
    apply list_elem_of_fmap in Hh as ([x st] & [= -> ->] & Hx%elem_of_map_to_list). cbn in *.
    rewrite Hm, lookup_fmap in Hx. apply fmap_Some in Hx as (v & Hv & ->). by exists v.
Qed.
Next Obligation.
  intros ns c w n s r s' n' Hw Hp. cbn. unfold linear_load, bind.
  destruct (list_embeddings (storage_prefix ns) w n s) as [[rk s1] n1] eqn:E.
  destruct (list_embeddings_spec _ _ _ _ _ _ _ Hw Hp E) as (-> & -> & [->|(keys & -> & Hk)]); [intros [= <- <- <-]; split_and!; [done|lia|done]|].
  intros (-> & Hn & Hr)%load_rows_spec; [|done..]. split_and!; [done|lia|]. intros i ->. destruct Hr as [Hr|]; [|done]. injection Hr as ->. intros Hroom.
  eapply fill_all; [apply linear_fill|apply linear_skip|done|done|]. split_and!; [apply linear_new_ok|done|]. by rewrite fmap_empty.
Qed.

(** *** The HNSW index *)

Lemma pair_unique {A B} (l : list (A * B)) a x y : NoDup (fst <$> l) -> (a, x) ∈ l -> (a, y) ∈ l -> x = y.
Proof.
  intros Hn [i Hi]%list_elem_of_lookup [j Hj]%list_elem_of_lookup.
  assert (i = j) as <- by (eapply (NoDup_lookup _ _ _ a Hn); by rewrite list_lookup_fmap, ?Hi, ?Hj). congruence.
Qed.

Section Native.
Context `{Hnsw}.

Definition point (b : HnswBackend) (slot : nat) (v : list f32) : Prop :=
  match b with CosineGraph g => (slot, data (quantize_i8 v)) ∈ (view g).2 | L2Graph g => (slot, v) ∈ (view g).2 end.

Definition metric_of (b : HnswBackend) (metric : Metric) : Prop :=
  match b, metric with
  | CosineGraph g, Cosine => (view g).1 = dist_cosine_i8
  | L2Graph g, Euclidean => (view g).1 = dist_l2
  | _, _ => False
  end.

Definition hnsw_represents (c : VectorIndexConfig) (m : gmap str (list f32)) (i : HnswVectorIndex) : Prop :=
  hnsw_ok i /\ rebuild_required i = false /\ hnsw_config i = c /\ metric_of (backend i) (distance_metric c) /\ dom m = dom (slots i) /\
  forall n v slot, m !! n = Some v -> slots i !! n = Some slot -> point (backend i) slot v.

Definition native_score (c : VectorIndexConfig) (q v : list f32) : f32 :=
  match distance_metric c with
  | Cosine => sub32 (f32_of_Z 1) (dist_cosine_i8 (data (quantize_i8 q)) (data (quantize_i8 v)))
  | Euclidean => SFopp (dist_l2 q v)
  end.

Lemma point_inserted b id v : point (backend_insert v id b) id v.
Proof using. destruct b as [g|g]; cbn; rewrite view_insert; cbn; set_solver. Qed.

Lemma point_stays b slot x id v : point b slot x -> point (backend_insert v id b) slot x.
Proof using. destruct b as [g|g]; cbn; rewrite view_insert; cbn; set_solver. Qed.

Lemma metric_stays b metric id v : metric_of b metric -> metric_of (backend_insert v id b) metric.
Proof using. destruct b as [g|g], metric; cbn; try done; by rewrite view_insert. Qed.

Lemma hnsw_written id v i i' : hnsw_insert_internal id v i = (Ok tt, i') ->
  backend i' = backend_insert v (length (ids i)) (backend i) /\ rebuild_required i' = rebuild_required i.
Proof using.
  unfold hnsw_insert_internal. destruct (negb _); [done|]. destruct (negb _ && _); [done|]. destruct (_ <=? _); [done|]. by intros [= <-].
Qed.

Lemma hnsw_refused id v i e i' : hnsw_insert_internal id v i = (Err e, i') ->
  i' = i \/ i' = set_rebuild_required true i /\ Z.of_nat (length v) = dimension (hnsw_config i).
Proof using.
  unfold hnsw_insert_internal. destruct (Z.eqb_spec (Z.of_nat (length v)) (dimension (hnsw_config i))) as [Hd|]; cbn [negb].
  - destruct (negb _ && _); [intros [= _ <-]; by left|]. destruct (_ <=? _); [|done]. intros [= _ <-]. by right.
  - intros [= _ <-]. by left.
Qed.

Lemma hnsw_add_represents c m i id v : hnsw_represents c m i ->
  let '(r, i') := hnsw_insert_internal id v i in
  match r with
  | Ok _ => Z.of_nat (length v) = dimension c /\ hnsw_represents c (<[id := v]> m) i'
  | Err _ => hnsw_represents c m (set_rebuild_required false i') /\ (rebuild_required i' = true -> Z.of_nat (length v) = dimension c)
  end.
Proof using.
  intros Hr. pose proof Hr as (Hok & Hf & Hc & Hmt & Hdom & Hp).
  pose proof (hnsw_insert_spec id v i Hok) as Hs. destruct (hnsw_insert_internal id v i) as [[[]|e] i'] eqn:E.
  - destruct Hs as (Hok' & Hc' & _ & Hd & Hsl & Hids). rewrite Hc in Hd, Hc'. destruct (hnsw_written _ _ _ _ E) as [Hb Hf']. split; [done|].
    split_and!; [done|congruence|done|rewrite Hb; by apply metric_stays|by rewrite Hsl, !dom_insert_L, Hdom|].
    intros n x slot. rewrite Hsl, Hb. destruct (decide (id = n)) as [<-|Hn].
    + rewrite !lookup_insert_eq. intros [= <-] [= <-]. apply point_inserted.
    + rewrite !lookup_insert_ne by done. intros Hx Hslot. apply point_stays. by eapply Hp.
  - destruct (hnsw_refused _ _ _ _ _ E) as [->|[-> Hd]]; (split; [by split_and!|]); [congruence|intros _; congruence].
Qed.

Lemma hnsw_remove_represents c m i id : hnsw_represents c m i ->
  let '(r, i') := hnsw_remove id i in
  match r with
  | Ok _ => is_Some (m !! id) /\ hnsw_represents c (delete id m) i'
  | Err e => i' = i /\ e = EntryNotFound id /\ m !! id = None
  end.
Proof using.
  intros (Hok & Hf & Hc & Hmt & Hdom & Hp). pose proof (hnsw_remove_spec id i Hok) as Hs. unfold hnsw_remove in *.
  assert (m !! id = None <-> slots i !! id = None) as Hnone by (by rewrite <- !not_elem_of_dom, Hdom).
  destruct (slots i !! id) as [slot|] eqn:E.
  - destruct Hs as (Hok' & _). split.
    { destruct (m !! id) as [x|]; [by eexists|]. by discriminate (proj1 Hnone eq_refl). }
    split_and!; [done|done|done|done|cbn; by rewrite !dom_delete_L, Hdom|].
    cbn. intros n x sl [_ Hx]%lookup_delete_Some [_ Hy]%lookup_delete_Some. by eapply Hp.
  - split_and!; try done. by apply Hnone.
Qed.

(** An index that is being loaded has no tombstones, so it has a slot for every
    vector. *)
Definition hnsw_filled (c : VectorIndexConfig) (m : gmap str (list f32)) (i : HnswVectorIndex) : Prop :=
  hnsw_represents c m i /\ tombstones i = ∅ /\ max_slots i = VECTOR_MAX_ENTRIES /\ max_entries i = VECTOR_MAX_ENTRIES.

Lemma hnsw_fill c m i id v :
  hnsw_filled c m i -> Z.of_nat (length v) = dimension c -> m !! id = None ->
  Z.of_nat (size m) < VECTOR_MAX_ENTRIES -> hnsw_filled c (<[id := v]> m) (hnsw_insert_internal id v i).2.
Proof using.
  intros (Hr & Ht & Hms & Hme) Hd Hid Hroom. pose proof (hnsw_add_represents c m i id v Hr) as Ha. destruct Hr as (Hok & _ & Hc & Hmt & Hdom & Hp).
  assert (slots i !! id = None) as Hsl by (apply not_elem_of_dom; rewrite <- Hdom; by apply not_elem_of_dom).
  assert (length (ids i) = size m) as Hlen.
  { pose proof (hnsw_len_slots i Hok) as Hl. unfold hnsw_len in Hl. rewrite Ht, size_empty, Nat.sub_0_r in Hl.
    rewrite Hl, <- !size_dom. by rewrite Hdom. }
  unfold hnsw_insert_internal in *. rewrite Hc, (proj2 (Z.eqb_eq _ _) Hd) in *. cbn [negb] in *.
  unfold hnsw_len in *. rewrite Hsl, Ht, size_empty, Nat.sub_0_r, Hlen, Hms, Hme, (proj2 (Z.leb_gt _ _) Hroom), andb_false_r in *. cbn [snd] in *.
  split; [apply Ha|done].
Qed.

Lemma hnsw_skip c m i id v :
  hnsw_filled c m i -> Z.of_nat (length v) <> dimension c -> hnsw_filled c m (hnsw_insert_internal id v i).2.
Proof using.
  intros Hf Hd%Z.eqb_neq. pose proof Hf as ((_ & _ & Hc & _) & _). unfold hnsw_insert_internal. by rewrite Hc, Hd.
Qed.

Lemma hnsw_new_filled ns c : hnsw_filled c ∅ (with_max_slots VECTOR_MAX_ENTRIES (hnsw_new ns c)).
Proof using.
  split; [|done]. split_and!; [apply (hnsw_new_ok ns c)|done|done| |done|by intros n v slot; rewrite lookup_empty].
  cbn. unfold backend_new. destruct (distance_metric c); cbn; by rewrite view_new.
Qed.

Lemma reset_represents c m i : hnsw_represents c m i -> hnsw_represents c m (set_rebuild_required false i).
Proof using. intros (? & _ & ?). by split. Qed.

Lemma save_tables (valid : bool) i w n s : alone w ->
  let x := (if valid then ret tt else hnsw_save i) w n s in same_tables s (state_of x) /\ (n <= x.2)%nat.
Proof using.
  intros Hw. destruct valid; [done|]. unfold hnsw_save, with_clock, state_of. destruct (kv_set _ _ _ _ _ w n s) as [[r s'] n'] eqn:E. cbn.
  split; [|apply command_counts in E; lia]. apply command_cases in E as [[_ ->]|(t & _ & ->)]; by rewrite Hw.
Qed.

#[export] Program Instance hnsw_laws : IndexLaws HnswVectorIndex := {|
  represents := hnsw_represents; index_score := native_score; index_capacity := VECTOR_MAX_ENTRIES;
  add_law := hnsw_add_represents; remove_law := hnsw_remove_represents
|}.
Next Obligation.
  intros c m i q k hits (Hok & _ & Hc & Hmt & Hdom & Hp). cbn. destruct (decide (Z.of_nat (length q) = dimension (hnsw_config i))) as [Hd|Hd].
  - destruct (hnsw_search_finds i q k Hok Hd) as (hits' & -> & Hn & Hl & Hs & _). intros [= ->]. split_and!; [done|lia|].
    intros n s Hh. apply Hs in Hh as (slot & d & Hx & Hdist & ->).
    assert (is_Some (m !! n)) as [v Hv] by (apply elem_of_dom; rewrite Hdom; apply elem_of_dom; by eexists).
    exists v. split; [done|]. pose proof (Hp _ _ _ Hv Hx) as Hpt. destruct Hok as (_ & _ & Hb). unfold native_score.
    destruct (backend i) as [g|g], (distance_metric c); try done; cbn in *; destruct Hdist as (x & Hin & ->); rewrite Hmt;
      (assert (NoDup (fst <$> (view g).2)) as Hnd by (rewrite Hb; apply NoDup_seq)); do 2 f_equal; by eapply pair_unique.
  - unfold hnsw_search. destruct ((k =? 0)%nat || _); [intros [= <-]; split_and!; [constructor|cbn; lia|set_solver]|].
    apply Z.eqb_neq in Hd. by rewrite Hd.
Qed.
Next Obligation.
  intros ns c w n s r s' n' Hw Hp. cbn. unfold hnsw_load, hnsw_load_impl, bind.
  set (get := kv_get hnsw_cache set_hnsw_cache (cache_key ns)).
  destruct (get w n s) as [[g s1] n1] eqn:Eg. assert (same_tables s s1 /\ n1 = Datatypes.S n) as [Hs1 ->].
  { split; [|by eapply command_counts]. apply command_cases in Eg as [[_ ->]|(t & _ & ->)]; by rewrite Hw. }
  destruct g as [raw|e]; [|intros [= <- <- <-]; split_and!; [done|lia|done]]. pose proof Hs1 as (_ & He & _). rewrite <- He in Hp.
  destruct (list_embeddings (storage_prefix ns) w (Datatypes.S n) s1) as [[rk s2] n2] eqn:E.
  destruct (list_embeddings_spec _ _ _ _ _ _ _ Hw Hp E) as (-> & -> & [->|(keys & -> & Hk)]); [intros [= <- <- <-]; split_and!; [done|lia|done]|].
  destruct (load_rows _ _ keys _ w _ s1) as [[rl s3] n3] eqn:El. apply load_rows_spec in El as (-> & Hn3 & Hl); [|done..].
  destruct Hl as [->| ->]; [|intros [= <- <- <-]; split_and!; [done|lia|done]]. rewrite He in *. set (index := foldl _ _ keys).
  assert (Z.of_nat (size (row_vectors c ns (embeddings s))) <= VECTOR_MAX_ENTRIES -> hnsw_represents c (row_vectors c ns (embeddings s)) index) as Hrep.
  { intros Hroom. eapply (fill_all hnsw_insert_internal c (hnsw_filled c)); [apply hnsw_fill|apply hnsw_skip|done|done|apply hnsw_new_filled]. }
  set (valid := match raw with Some raw => cache_valid c raw | None => false end).
  pose proof (save_tables valid index w n3 s1 Hw) as Hsave.
  destruct ((if valid then ret tt else hnsw_save index) w n3 s1) as [[[[]|e] s4] n4]; cbn in Hsave; destruct Hsave as [Hsave Hn4];
    intros [= <- <- <-]; (split_and!; [by transitivity s1|lia|]); [|done].
  intros i [= <-] Hroom. by apply reset_represents, Hrep.
Qed.
End Native.

(** ** What is materialised stands for the table *)

Section Coherence.
Context {I : Type} `{IndexLaws I}.
Abbreviation M := (Sql.M (Stores I) MemoryError).

Definition slot_config (slot : IndexSlot I) : VectorIndexConfig := match slot with Pending c | Loaded c _ => c end.
Definition config_of (ns : MemoryNamespace) (s : Stores I) : option VectorIndexConfig := slot_config <$> indexes s !! ns.

Definition stands (ns : MemoryNamespace) (f : VectorIndexConfig -> gmap str (list f32)) (s : Stores I) : Prop :=
  match indexes s !! ns with Some (Loaded c i) => represents c (f c) i | _ => True end.

Definition table_of (ns : MemoryNamespace) (s : Stores I) (c : VectorIndexConfig) : gmap str (list f32) :=
  row_vectors c ns (embeddings s).

Definition coherent (ns : MemoryNamespace) (s : Stores I) : Prop := stands ns (table_of ns s) s.

(** The rows of the namespace have room in an index. *)
Definition has_room (ns : MemoryNamespace) (s : Stores I) : Prop :=
  forall c, config_of ns s = Some c -> Z.of_nat (size (table_of ns s c)) <= index_capacity.

(** Only the slot of a namespace is touched, and it stays registered as it is. *)
Definition only_slot (ns : MemoryNamespace) (s s' : Stores I) : Prop :=
  memories s' = memories s /\ embeddings s' = embeddings s /\ config_of ns s' = config_of ns s /\
  forall ns', ns' <> ns -> indexes s' !! ns' = indexes s !! ns'.

Lemma only_slot_refl ns s : only_slot ns s s.
Proof using. done. Qed.

Lemma only_slot_trans ns a b c : only_slot ns a b -> only_slot ns b c -> only_slot ns a c.
Proof using.
  intros (A1 & A2 & A3 & A4) (B1 & B2 & B3 & B4). split_and!; [congruence..|]. intros ns' Hn. by rewrite B4, A4.
Qed.

Lemma only_slot_tables ns s s' : same_tables s s' -> only_slot ns s s'.
Proof using. intros (H1 & H2 & H3). split_and!; [done|done|unfold config_of; by rewrite H3|]. intros. by rewrite H3. Qed.

Lemma only_slot_put ns slot s c : config_of ns s = Some c -> slot_config slot = c -> only_slot ns s (set_slot ns slot s).
Proof using.
  intros Hc Hs. split_and!; [done|done| |].
  - unfold config_of at 1. cbn. rewrite lookup_insert_eq. cbn. by rewrite Hs, Hc.
  - intros ns' Hn. cbn. by rewrite lookup_insert_ne.
Qed.

Lemma table_of_same ns s s' c : embeddings s' = embeddings s -> table_of ns s' c = table_of ns s c.
Proof using. unfold table_of. by intros ->. Qed.

Lemma stands_put ns f c i s : represents c (f c) i -> stands ns f (set_slot ns (Loaded c i) s).
Proof using. intros Hr. unfold stands. cbn. by rewrite lookup_insert_eq. Qed.

(** A write after the row is in the table, [f] being what the slot stood for
    before: with it the slot stands for the table; when it is refused, for [f]. *)
Lemma manager_add_spec ns id v f w n s r s' n' :
  alone w -> permanent (embeddings s) -> has_room ns s -> stands ns f s ->
  (forall c, config_of ns s = Some c -> Z.of_nat (length v) = dimension c -> table_of ns s c = <[id := v]> (f c)) ->
  manager_add ns id v w n s = (r, s', n') ->
  only_slot ns s s' /\ (n <= n')%nat /\
  match r with
  | Ok _ => coherent ns s' /\ exists c, config_of ns s = Some c /\ Z.of_nat (length v) = dimension c
  | Err _ => stands ns f s'
  end.
Proof using.
  intros Hw Hp Hroom Hst Htab. unfold manager_add, slot_of, modify, bind. unfold stands in Hst. unfold config_of in *.
  destruct (indexes s !! ns) as [[c|c i]|] eqn:Es; cbn in Htab.
  - destruct (Z.eqb_spec (Z.of_nat (length v)) (dimension c)) as [Hd|Hd]; intros [= <- <- <-]; (split; [done|split; [done|]]).
    + split; [unfold coherent, stands; by rewrite Es|]. by exists c.
    + unfold stands. by rewrite Es.
  - assert (config_of ns s = Some c) as Hc by (unfold config_of; by rewrite Es).
    destruct (is_physically_saturated i && _).
    { intros [= <- <- <-]. split; [done|split; [done|]]. unfold stands. by rewrite Es. }
    pose proof (add_law c (f c) i id v Hst) as Ha. destruct (index_add id v i) as [[[]|e] i'].
    + destruct Ha as [Hd Hr]. cbn. intros [= <- <- <-]. split; [by eapply only_slot_put|split; [done|]]. split; [|by exists c].
      apply stands_put. rewrite (table_of_same ns s) by done. by rewrite (Htab c eq_refl Hd).
    + destruct (take_rebuild_required i') as [rebuild i2]. destruct Ha as [Ht Hd]. cbn [negb fst snd put_slot modify] in *.
      set (s2 := set_slot ns (Loaded c i2) s). assert (only_slot ns s s2) as Ho by by eapply only_slot_put.
      unfold put_slot, modify. fold s2. destruct rebuild; cbn [negb]; [|intros [= <- <- <-]; split; [done|split; [done|by apply stands_put]]].
      destruct (index_load ns c w n s2) as [[[i3|e'] s3] n3] eqn:El; intros [= <- <- <-];
        destruct (load_law ns c w n s2 _ s3 n3 Hw Hp El) as (Hsame & Hn3 & Hload); pose proof (only_slot_tables ns _ _ Hsame) as Ho3.
      * split; [|split; [done|]].
        { eapply only_slot_trans; [done|]. eapply only_slot_trans; [done|]. eapply only_slot_put; [|done]. by destruct Ho3 as (_ & _ & -> & _), Ho as (_ & _ & -> & _). }
        split; [|exists c; split; [done|by apply Hd]]. apply stands_put. destruct Hsame as (_ & He & _). unfold table_of. cbn. rewrite He.
        apply Hload; [done|]. by apply Hroom.
      * split; [by eapply only_slot_trans|split; [done|]]. unfold stands. destruct Hsame as (_ & _ & ->). by apply stands_put.
  - intros [= <- <- <-]. split; [done|split; [done|]]. unfold stands. by rewrite Es.
Qed.

(** A removal: what is not there cannot be removed, and then nothing changes. *)
Lemma manager_remove_spec ns id f w n s r s' n' :
  stands ns f s -> manager_remove ns id w n s = (r, s', n') ->
  n' = n /\ only_slot ns s s' /\ stands ns (fun c => delete id (f c)) s' /\
  match r with
  | Ok _ => True
  | Err e => s' = s /\ (e = EntryNotFound id \/ e = NamespaceNotFound (debug_name ns) /\ indexes s !! ns = None)
  end.
Proof using.
  intros Hst. unfold manager_remove, slot_of, modify, bind. unfold stands in Hst.
  destruct (indexes s !! ns) as [[c|c i]|] eqn:Es.
  - intros [= <- <- <-]. split; [done|]. split; [done|]. unfold stands. by rewrite Es.
  - assert (config_of ns s = Some c) as Hc by (unfold config_of; by rewrite Es).
    pose proof (remove_law c (f c) i id Hst) as Hr. destruct (index_remove id i) as [[[]|e] i'].
    + destruct Hr as [_ Hr]. intros [= <- <- <-]. split; [done|]. split; [by eapply only_slot_put|]. split; [|done]. by apply (stands_put ns (fun c => delete id (f c))).
    + destruct Hr as (-> & -> & Hn). intros [= <- <- <-].
      assert (set_slot ns (Loaded c i) s = s) as -> by (destruct s; unfold set_slot; cbn in *; by rewrite insert_id).
      split; [done|]. split; [done|]. split; [|split; [done|by left]]. unfold stands. rewrite Es. by rewrite delete_id.
  - intros [= <- <- <-]. split; [done|]. split; [done|]. split; [unfold stands; by rewrite Es|]. split; [done|]. by right.
Qed.

(** The lock changes nothing when nobody else is there. *)
Lemma alone_holding ns w : alone (S := Stores I) w ->
  alone (S := Stores I) (fun n => {| clock := clock (w n); fault := fault (w n); others := keep_slot ns (others (w n)) |}).
Proof using.
  intros Hw n s. cbn. unfold keep_slot. rewrite Hw. destruct s as [m e h i]; cbn. f_equal. by apply partial_alter_id.
Qed.

(** A search: the hits have rows, and their scores are those of the vectors in the
    table.  It materialises the slot or leaves everything as it is. *)
Theorem manager_search_spec ns q k w n s r s' n' :
  alone w -> permanent (embeddings s) -> has_room ns s -> coherent ns s ->
  manager_search ns q k w n s = (r, s', n') ->
  only_slot ns s s' /\ coherent ns s' /\
  match r with
  | Ok hits => NoDup (fst <$> hits) /\ (length hits <= k)%nat /\ exists c, config_of ns s = Some c /\
      forall id x, (id, x) ∈ hits -> exists v, table_of ns s c !! id = Some v /\ x = index_score c q v
  | Err _ => s' = s \/ is_loaded ns s' = true \/ indexes s' = indexes s
  end.
Proof using.
  intros Hw Hp Hroom Hco. unfold manager_search, holding. rewrite Hw. set (w' := fun n => _). pose proof (alone_holding ns w Hw) as Hw'. fold w' in Hw'.
  generalize (Datatypes.S n). clearbody w'. clear n w Hw. intros n. unfold search_body, slot_of, modify, bind. pose proof Hco as Hst. unfold coherent, stands in Hst.
  destruct (indexes s !! ns) as [[c|c i]|] eqn:Es.
  - assert (config_of ns s = Some c) as Hc by (unfold config_of; by rewrite Es).
    destruct (k =? 0)%nat.
    { intros [= <- <- _]. split_and!; [done..|constructor|cbn; lia|]. exists c. split; [done|]. set_solver. }
    destruct (negb _); [intros [= <- <- _]; split_and!; [done..|by left]|].
    destruct (index_load ns c w' n s) as [[[i|e] s2] n2] eqn:El; destruct (load_law ns c w' n s _ s2 n2 Hw' Hp El) as (Hsame & _ & Hload).
    + specialize (Hload i eq_refl (Hroom c Hc)). pose proof (only_slot_tables ns _ _ Hsame) as Ho.
      assert (only_slot ns s (set_slot ns (Loaded c i) s2)) as Ho'.
      { eapply only_slot_trans; [done|]. eapply only_slot_put; [|done]. by destruct Ho as (_ & _ & -> & _). }
      assert (coherent ns (set_slot ns (Loaded c i) s2)) as Hco'.
      { apply stands_put. destruct Hsame as (_ & He & _). unfold table_of. cbn. by rewrite He. }
      unfold put_slot, modify. intros [= <- <- _]. split_and!; [done..|]. destruct (index_search q k i) as [hits|e] eqn:Eq.
      * destruct (search_law c _ i q k hits Hload Eq) as (Hn & Hl & Hs). split_and!; [done..|]. by exists c.
      * right. left. unfold is_loaded. cbn. by rewrite lookup_insert_eq.
    + intros [= <- <- _]. split_and!; [by apply only_slot_tables| |right; right; apply Hsame].
      unfold coherent, stands. destruct Hsame as (_ & _ & ->). by rewrite Es.
  - assert (config_of ns s = Some c) as Hc by (unfold config_of; by rewrite Es). intros [= <- <- _]. split_and!; [done..|].
    destruct (index_search q k i) as [hits|e] eqn:Eq; [|by left].
    destruct (search_law c _ i q k hits Hst Eq) as (Hn & Hl & Hs). split_and!; [done..|]. by exists c.
  - intros [= <- <- _]. split_and!; [done..|by left].
Qed.

Lemma create_index_spec ns c w n s r s' n' : create_index ns c w n s = (r, s', n') ->
  memories s' = memories s /\ embeddings s' = embeddings s /\ (forall ns', ns' <> ns -> indexes s' !! ns' = indexes s !! ns') /\
  (forall ns' f, stands ns' f s -> stands ns' f s') /\ is_Some (config_of ns s') /\ (forall c', config_of ns s = Some c' -> s' = s).
Proof using.
  unfold create_index, modify, config_of. intros [= <- <- _]. destruct (indexes s !! ns) as [slot|] eqn:Es.
  - split_and!; try done. rewrite Es. by eexists.
  - split_and!; try done.
    + intros ns' Hn. cbn. by rewrite lookup_insert_ne.
    + intros ns' f. unfold stands. cbn. destruct (decide (ns = ns')) as [<-|Hn]; [by rewrite lookup_insert_eq|by rewrite lookup_insert_ne].
    + cbn. rewrite lookup_insert_eq. by eexists.
Qed.
End Coherence.

(** Whether a slot of the linear index (the one of the web build) is loaded does not
    show: with the dimension of the index and room for every row, a search answers
    with the best entries of the table, unless a failure of the table keeps it
    from being loaded. *)
Theorem lazy_loading_is_invisible ns c q k w n (s : Stores LinearVectorIndex) r s' n' :
  alone w -> permanent (embeddings s) -> config_of ns s = Some c -> has_room ns s -> coherent ns s ->
  Z.of_nat (length q) = dimension c -> manager_search ns q k w n s = (r, s', n') ->
  (r = exact_search c q k (stored_form (distance_metric c) <$> table_of ns s c) \/ r = Err (internal "storage")) /\
  coherent ns s' /\ (is_loaded ns s = true -> r = exact_search c q k (stored_form (distance_metric c) <$> table_of ns s c)).
Proof.
  intros Hw Hp Hc Hroom Hco Hd E. destruct (manager_search_spec ns q k w n s r s' n' Hw Hp Hroom Hco E) as (_ & Hco' & _).
  revert E. unfold manager_search, holding. rewrite Hw. set (w' := fun n => _). pose proof (alone_holding ns w Hw) as Hw'. fold w' in Hw'.
  generalize (Datatypes.S n). clearbody w'. clear n w Hw. intros n. unfold search_body, slot_of, modify, bind. unfold coherent, stands in Hco.
  assert (forall i, linear_represents c (table_of ns s c) i -> index_search q k i = exact_search c q k (stored_form (distance_metric c) <$> table_of ns s c)) as Hsearch.
  { intros i (Hok & <- & Hm). cbn. rewrite linear_search_spec by done. by rewrite Hm. }
  unfold config_of in Hc. unfold is_loaded. destruct (indexes s !! ns) as [[c'|c' i]|] eqn:Es; [| |done]; cbn in Hc; injection Hc as ->.
  - destruct (Nat.eqb_spec k 0) as [->|Hk]; [intros [= <- <- _]; split_and!; [by left|done|done]|].
    rewrite Hd, Z.eqb_refl. cbn [negb]. destruct (index_load ns c w' n s) as [[[i|e] s2] n2] eqn:El.
    + destruct (load_law ns c w' n s _ s2 n2 Hw' Hp El) as (_ & _ & Hload).
      specialize (Hload i eq_refl ltac:(apply Hroom; unfold config_of; by rewrite Es)). intros [= <- <- _]. split_and!; [left; by apply Hsearch|done|done].
    + intros [= <- <- _]. split_and!; [right|done|done]. cbn in El. unfold linear_load, bind in El.
      destruct (list_embeddings (storage_prefix ns) w' n s) as [[rk s1] n1] eqn:Ek.
      destruct (list_embeddings_spec _ _ _ _ _ _ _ Hw' Hp Ek) as (-> & -> & [->|(keys & -> & _)]); [by injection El as <- _ _|].
      apply load_rows_spec in El as (_ & _ & [?|?]); [done|congruence|done|done].
  - intros [= <- <- _]. split_and!; [left; by apply Hsearch|done|intros _; by apply Hsearch].
Qed.

Lemma lazy_loading_is_invisible_witness :
  let c := {| dimension := 2; distance_metric := Cosine; graph_m := 16; graph_ef := 50 |} in
  let v x y := [f32_of_Z x; f32_of_Z y] in
  let row x y := Stored None (Some (vector_to_value (v x y))) in
  let t := <[storage_key Code (lit "a") := row 1 0]> (<[storage_key Code (lit "b") := row 0 1]> ∅) in
  let s := {| memories := ∅; embeddings := t; hnsw_cache := ∅; indexes := <[Code := Pending c]> ∅ |} : Stores LinearVectorIndex in
  exists r s' n', manager_search Code (v 1 3) 1 (quiet 0) 0%nat s = (r, s', n') /\
    r = exact_search c (v 1 3) 1 (stored_form Cosine <$> table_of Code s c) /\
    match r with Ok hits => map fst hits = [lit "b"] | Err _ => False end.
Proof.
  intros c v row t s. destruct (manager_search Code (v 1 3) 1 (quiet 0) 0%nat s) as [[r s'] n'] eqn:E. exists r, s', n'. split; [done|].
  assert (match r with Ok hits => map fst hits = [lit "b"] | Err _ => False end) as Hr.
  { assert (match result_of (manager_search Code (v 1 3) 1 (quiet 0) 0%nat s) with Ok hits => map fst hits = [lit "b"] | Err _ => False end) as H
      by (vm_compute; reflexivity). by rewrite E in H. }
  split; [|done].
  assert (permanent (embeddings s)) as Hp.
  { intros k x. cbn. unfold t. intros [[_ <-]|[_ [[_ <-]|[_ Hx]]%lookup_insert_Some]]%lookup_insert_Some; [exact I|exact I|].
    by rewrite lookup_empty in Hx. }
  assert (config_of Code s = Some c) as Hc by (vm_compute; reflexivity).
  assert (has_room Code s) as Hroom.
  { intros c' Hc'. rewrite Hc in Hc'. injection Hc' as <-. apply Z.leb_le. vm_compute. reflexivity. }
  assert (coherent Code s) as Hco by (vm_compute; exact I).
  destruct (lazy_loading_is_invisible Code c (v 1 3) 1 (quiet 0) 0%nat s r s' n' (alone_quiet 0) Hp Hc Hroom Hco eq_refl E) as [[H|H] _];
    [exact H|]. exfalso. rewrite H in Hr. exact Hr.
Defined.
