(* ===== verification/MemoryEngine.v ===== *)
(** * The memory engine ([memory/engine.rs], [memory/manage.rs])

    Long-term memories: a row in [memories], its vector in [embeddings], a node in
    the index of the namespace, and a row that maps the signature of the content
    (within a dedupe domain) to the memory.  The engine writes the tables first and
    the index last, and takes back what it wrote when a later step fails.

    Operations are computations over [Stores]; the engine is behind a mutable
    reference, so nobody else uses its index, and the theorems let the tables fail
    at any command ([alone]).  Randomness and the process-wide counter of ids are
    arguments ([draw]).  [powf] is the interface [Power]. *)

From Stdlib Require Import SpecFloat.
From stdpp Require Import sorting.
From S2P Require Import Prelude Utf8 JsonValue Messages Sql Kv Runs Vectors VectorIndex VectorManager.

Open Scope string_scope.
Open Scope list_scope.
Open Scope Z_scope.
Open Scope sql_scope.

(** ** Policy ([manage.rs]) *)

Definition is_ascii_punctuation (c : char) : bool :=
  ((33 <=? c) && (c <=? 47) || (58 <=? c) && (c <=? 64) || (91 <=? c) && (c <=? 96) || (123 <=? c) && (c <=? 126))%N.

Definition normalize_for_signature `{Unicode} (text : str) : str :=
  join (lit " ") (split_whitespace (List.filter (fun c => negb (is_ascii_punctuation c)) (to_lowercase text))).

Definition content_signature `{Unicode} `{Digest} (content namespace : str) : str :=
  sha256_hex (normalize_for_signature content ++ lit "|" ++ namespace).

Definition max64 (x y : f64) : f64 := max32 x y.

Definition importance_of (metadata : value) : f64 :=
  max64 (default f64_one (get "importance" metadata ≫= as_f64)) f64_zero.

Definition DEFAULT_HALF_LIFE_DAYS : f64 := f64_of_Z 30.
Definition DAY_MS : f64 := f64_of_Z 86400000.
Definition half : f64 := div64 f64_one (f64_of_Z 2).

(** [now_ms - created_at_ms] wraps in a release build. *)
Definition time_decay `{Power} (created_at_ms now_ms : Z) (half_life_days : f64) : f64 :=
  if SFleb half_life_days f64_zero then f64_one
  else
    let age_ms := f64_of_Z (Z.max (i64_of_u64 (now_ms - created_at_ms)) 0) in
    powf half (div64 (div64 age_ms DAY_MS) half_life_days).

Definition effective_recency_ms (metadata : value) (created_at_ms : Z) : Z :=
  default created_at_ms (get "refreshed_at" metadata ≫= i64_of_value).

Definition retention_score `{Power} (metadata : value) (created_at_ms now_ms : Z) : f64 :=
  mul64 (importance_of metadata) (time_decay (effective_recency_ms metadata created_at_ms) now_ms DEFAULT_HALF_LIFE_DAYS).

Definition f32_min : f32 := S754_finite true 16777215 104.

Definition decayed_search_score `{Power} (similarity : f32) (created_at_ms now_ms : Z) (half_life_days : f64) : f32 :=
  let decay := f32_of_f64 (time_decay created_at_ms now_ms half_life_days) in
  if SFleb f32_zero similarity then mul32 similarity decay
  else if SFltb f32_zero decay then div32 similarity decay
  else f32_min.

(** ** Entries *)

Record MemoryEntry := { id : str; content : str; namespace : MemoryNamespace; metadata : value; created_at : Z }.

Definition namespace_of_str (s : str) : option MemoryNamespace :=
  snd <$> List.find (fun p => str_eqb (fst p) s) ((fun ns => (namespace_str ns, ns)) <$> ALL).

(** A unit variant: its name, or an object from its name to null. *)
Definition namespace_of_value (v : value) : option MemoryNamespace :=
  match v with
  | VString s => namespace_of_str s
  | VObject [(s, VNull)] => namespace_of_str s
  | _ => None
  end.

Definition entry_value (e : MemoryEntry) : value :=
  json [("id", VString (id e)); ("content", VString (content e)); ("namespace", VString (namespace_str (namespace e)));
        ("metadata", metadata e); ("created_at", value_of_i64 (created_at e))].

(** What serde derives: an object by its fields, or an array in their order. *)
Definition entry_of_value (v : value) : option MemoryEntry :=
  match v with
  | VObject _ =>
      i ← get_str "id" v; c ← get_str "content" v; ns ← get "namespace" v ≫= namespace_of_value;
      m ← get "metadata" v; t ← get "created_at" v ≫= i64_of_value;
      Some {| id := i; content := c; namespace := ns; metadata := m; created_at := t |}
  | VArray [VString i; VString c; ns; m; t] =>
      ns ← namespace_of_value ns; t ← i64_of_value t;
      Some {| id := i; content := c; namespace := ns; metadata := m; created_at := t |}
  | _ => None
  end.

Definition with_metadata (m : value) (e : MemoryEntry) : MemoryEntry :=
  {| id := id e; content := content e; namespace := namespace e; metadata := m; created_at := created_at e |}.
Definition with_content (c : str) (e : MemoryEntry) : MemoryEntry :=
  {| id := id e; content := c; namespace := namespace e; metadata := metadata e; created_at := created_at e |}.

(** *** Provenance *)

Definition add_unique (ids : list str) (i : str) : list str :=
  if negb (is_empty i) && negb (existsb (str_eqb i) ids) then ids ++ [i] else ids.

Definition append_unique_session_ids (v : option value) (ids : list str) : list str :=
  match v with
  | Some (VString i) => add_unique ids i
  | Some (VArray values) => fold_left add_unique (omap as_str values) ids
  | _ => ids
  end.

Definition merge_source_session_provenance (existing : value) (incoming : list (str * value)) : list (str * value) :=
  match map_get (lit "source_session_ids") incoming with
  | None => incoming
  | Some _ =>
      let ids := append_unique_session_ids (get "source_session_ids" existing) [] in
      let ids := append_unique_session_ids (get "source_session_id" existing) ids in
      let ids := append_unique_session_ids (map_get (lit "source_session_ids") incoming) ids in
      let ids := append_unique_session_ids (map_get (lit "source_session_id") incoming) ids in
      map_insert (lit "source_session_ids") (VArray (VString <$> ids)) incoming
  end.

Definition refreshed_metadata (existing incoming : value) (merged : f64) (domain : str) (now : Z) : value :=
  match incoming with
  | VObject fields =>
      let fields := merge_source_session_provenance existing fields in
      set_field "dedupe_domain" (VString domain)
        (set_field "refreshed_at" (value_of_i64 now) (set_field "importance" (number_of_f64 merged) (VObject fields)))
  | VNull => json [("importance", number_of_f64 merged); ("refreshed_at", value_of_i64 now); ("dedupe_domain", VString domain)]
  | other => other
  end.

Definition new_metadata (incoming : value) (domain : str) : value :=
  match incoming with
  | VObject fields =>
      set_field "dedupe_domain" (VString domain)
        (match map_get (lit "importance") fields with
         | Some _ => VObject fields
         | None => set_field "importance" (number_of_f64 f64_one) (VObject fields)
         end)
  | VNull => json [("importance", number_of_f64 f64_one); ("dedupe_domain", VString domain)]
  | other => other
  end.

Definition entry_dedupe_domain (m : value) : option str := get_str "dedupe_domain" m.

(** *** Keys *)

Definition sig_key (ns : MemoryNamespace) (signature : str) : str := lit "sig/" ++ namespace_str ns ++ lit "/" ++ signature.

Definition sig_key_v2 `{Digest} (ns : MemoryNamespace) (domain signature : str) : str :=
  lit "sig/v2/" ++ namespace_str ns ++ lit "/" ++ sha256_hex domain ++ lit "/" ++ signature.

Definition sig_prefix (ns : MemoryNamespace) : str := lit "sig/" ++ namespace_str ns ++ lit "/".
Definition sig_v2_prefix (ns : MemoryNamespace) : str := lit "sig/v2/" ++ namespace_str ns ++ lit "/".

(** The row that leads to an entry. *)
Definition signature_row `{Unicode} `{Digest} (ns : MemoryNamespace) (e : MemoryEntry) : str :=
  let signature := content_signature (content e) (namespace_str ns) in
  match entry_dedupe_domain (metadata e) with
  | Some domain => sig_key_v2 ns domain signature
  | None => sig_key ns signature
  end.

Definition memory_id_from_components (now : Z) (sequence : N) (random : list N) (signature : str) : str :=
  lit "mem-" ++ show_Z now ++ lit "-" ++ show_N sequence ++ lit "-" ++ hex_encode random ++ lit "-" ++ take 12 signature.

(** The counter, and twelve random bytes unless the source fails. *)
Abbreviation draw := (N * option (list N))%type (only parsing).

Definition generate_memory_id (now : Z) (d : draw) (signature : str) : result str MemoryError :=
  match snd d with
  | Some random => Ok (memory_id_from_components now (fst d) random signature)
  | None => Err (Storage (lit "generate durable memory id randomness"))
  end.

Definition ensure_finite (vector : list f32) : result unit MemoryError :=
  if forallb is_finite vector then Ok tt else Err (Storage (lit "vector contains non-finite component (NaN or Inf)")).

Record EvictedSnapshot := {
  evicted_namespace : MemoryNamespace; evicted_id : str; entry_raw : option value; embedding_raw : option value
}.

(** ** The engine *)

Section Engine.
Context {I : Type} `{VectorIndex I} `{Unicode} `{Digest} `{Power}.
Abbreviation M := (Sql.M (Stores I) MemoryError).

Definition get_memory (key : str) : M (option value) := kv_get memories set_memories key.
Definition set_memory (key : str) (v : value) : M unit := kv_set memories set_memories key v None.
Definition delete_memory (key : str) : M unit := kv_delete memories set_memories key.
Definition list_memories (prefix : str) : M (list str) := kv_list_prefix memories set_memories prefix.
Definition delete_memories (prefix : str) : M nat := kv_delete_prefix memories set_memories prefix.
Definition set_embedding (key : str) (v : value) : M unit := kv_set embeddings set_embeddings key v None.
Definition delete_embedding (key : str) : M unit := kv_delete embeddings set_embeddings key.

(** [let _ = m.await;] *)
Definition attempt {A} (m : M A) : M unit := caught (E' := MemoryError) m ;;; ret tt.

(** A read for which a row that cannot be decoded counts as missing. *)
Definition get_lenient (read : M (option value)) : M (option value) :=
  found <- tried read ;;
  match found with
  | Ok v => ret v
  | Err (Serialization _) => ret None
  | Err e => fail e
  end.

Definition index_add_node (ns : MemoryNamespace) (i : str) (vector : list f32) : M unit := manager_add ns i vector.

Definition count (ns : MemoryNamespace) : M Z := keys <- list_memories (storage_prefix ns) ;; ret (Z.of_nat (length keys)).

Definition list_ids (ns : MemoryNamespace) (id_prefix : str) : M (list str) :=
  keys <- list_memories (storage_prefix ns ++ id_prefix) ;; ret (omap (strip_prefix (storage_prefix ns)) keys).

Definition get_entry (ns : MemoryNamespace) (i : str) : M (option MemoryEntry) :=
  raw <- get_memory (storage_key ns i) ;;
  match raw with
  | None => ret None
  | Some raw => e <- some_or (entry_of_value raw) unreadable ;; ret (Some e)
  end.

Definition update_metadata (ns : MemoryNamespace) (i : str) (m : value) : M unit :=
  raw <- get_memory (storage_key ns i) ;;
  raw <- some_or raw (EntryNotFound i) ;;
  e <- some_or (entry_of_value raw) unreadable ;;
  set_memory (storage_key ns i) (entry_value (with_metadata m e)).

(** *** Forgetting *)

(** No index to remove from is no obstacle. *)
Definition remove_node (ns : MemoryNamespace) (i : str) : M unit :=
  removed <- tried (manager_remove ns i) ;;
  match removed with
  | Ok _ | Err (EntryNotFound _) | Err (NamespaceNotFound _) => ret tt
  | Err e => fail e
  end.

Definition forget_signature (skey i : str) : M unit :=
  found <- get_memory skey ;;
  match found with
  | Some (VString mapped) => if str_eqb mapped i then delete_memory skey else ret tt
  | _ => ret tt
  end.

Definition forget (ns : MemoryNamespace) (i : str) : M unit :=
  raw <- get_lenient (get_memory (storage_key ns i)) ;;
  let signature_key := signature_row ns <$> (raw ≫= entry_of_value) in
  remove_node ns i ;;;
  delete_embedding (storage_key ns i) ;;;
  match signature_key with Some skey => forget_signature skey i | None => ret tt end ;;;
  delete_memory (storage_key ns i).

Definition clear_namespace (ns : MemoryNamespace) : M unit :=
  delete_memories (storage_prefix ns) ;;;
  delete_memories (sig_prefix ns) ;;;
  delete_memories (sig_v2_prefix ns) ;;;
  remove_index ns.

(** *** Making room *)

(** The entry of a row, if it belongs to the domain. *)
Definition entry_in_domain (domain : str) (raw : option value) : option MemoryEntry :=
  e ← raw ≫= entry_of_value;
  d ← entry_dedupe_domain (metadata e);
  if str_eqb d domain then Some e else None.

Fixpoint scan_lowest (ns : MemoryNamespace) (domain : str) (now : Z) (keys : list str) (lowest : option (str * f64)) : M (option (str * f64)) :=
  match keys with
  | [] => ret lowest
  | key :: rest =>
      match strip_prefix (storage_prefix ns) key with
      | None => scan_lowest ns domain now rest lowest
      | Some i =>
          raw <- get_lenient (get_memory key) ;;
          match entry_in_domain domain raw with
          | None => scan_lowest ns domain now rest lowest
          | Some e =>
              let score := retention_score (metadata e) (created_at e) now in
              scan_lowest ns domain now rest
                (match lowest with
                 | Some (_, s) => if SFltb score s then Some (i, score) else lowest
                 | None => Some (i, score)
                 end)
          end
      end
  end.

Definition evict_lowest_in_domain (ns : MemoryNamespace) (domain : str) : M (option EvictedSnapshot) :=
  with_clock (fun now =>
    keys <- list_memories (storage_prefix ns) ;;
    lowest <- scan_lowest ns domain now keys None ;;
    match lowest with
    | None => ret None
    | Some (i, _) =>
        entry <- get_lenient (get_memory (storage_key ns i)) ;;
        embedding <- get_lenient (get_embedding (storage_key ns i)) ;;
        forget ns i ;;;
        ret (Some {| evicted_namespace := ns; evicted_id := i; entry_raw := entry; embedding_raw := embedding |})
    end).

Definition restore_signature (ns : MemoryNamespace) (i : str) (raw : value) : M unit :=
  match entry_of_value raw with
  | None => ret tt
  | Some e =>
      slot <- tried (get_memory (signature_row ns e)) ;;
      match slot with Ok None => attempt (set_memory (signature_row ns e) (VString i)) | _ => ret tt end
  end.

Definition restore_evicted (snapshot : option EvictedSnapshot) : M unit :=
  match snapshot with
  | None => ret tt
  | Some s =>
      let ns := evicted_namespace s in
      let entry_key := storage_key ns (evicted_id s) in
      match entry_raw s with
      | None => ret tt
      | Some raw =>
          restored <- tried (set_memory entry_key raw) ;;
          if negb (is_ok restored) then ret tt
          else
            restore_signature ns (evicted_id s) raw ;;;
            match embedding_raw s with
            | None => ret tt
            | Some vraw =>
                written <- tried (set_embedding entry_key vraw) ;;
                if negb (is_ok written) then ret tt
                else match vector_from_value vraw with
                     | Ok vector => attempt (index_add_node ns (evicted_id s) vector)
                     | Err _ => ret tt
                     end
            end
      end
  end.

(** *** Remembering *)

(** An existing memory: its id, key, raw row and entry. *)
Definition find_dedupe_target (ns : MemoryNamespace) (skey : str) : M (option (str * str * value * MemoryEntry)) :=
  found <- get_lenient (get_memory skey) ;;
  match found with
  | Some (VString existing_id) =>
      let entry_key := storage_key ns existing_id in
      row <- get_lenient (get_memory entry_key) ;;
      ret (raw ← row; e ← entry_of_value raw; Some (existing_id, entry_key, raw, e))
  | _ => ret None
  end.

(** The index did not take the new vector: the rows and, as far as possible, the
    node are put back. *)
Definition undo_refresh (ns : MemoryNamespace) (i entry_key : str) (raw : value) (previous_vector : option value) : M unit :=
  attempt (set_memory entry_key raw) ;;;
  match previous_vector with
  | Some prev =>
      attempt (set_embedding entry_key prev) ;;;
      match vector_from_value prev with
      | Ok previous => attempt (index_add_node ns i previous)
      | Err _ => ret tt
      end
  | None => attempt (delete_embedding entry_key) ;;; attempt (manager_remove ns i)
  end.

(** [if let Err(e) = m.await { undo; return Err(e) }] *)
Definition or_undo {A} (m : M A) (undo : M unit) : M A :=
  r <- tried m ;;
  match r with Ok a => ret a | Err e => undo ;;; fail e end.

Definition refresh (ns : MemoryNamespace) (domain text : str) (vector : list f32) (m : value)
    (target : str * str * value * MemoryEntry) : M MemoryEntry :=
  let '(existing_id, entry_key, raw, old) := target in
  with_clock (fun now =>
    let merged := max64 (importance_of (metadata old)) (importance_of m) in
    let entry := with_metadata (refreshed_metadata (metadata old) m merged domain now) (with_content text old) in
    previous_vector <- get_lenient (get_embedding entry_key) ;;
    set_memory entry_key (entry_value entry) ;;;
    or_undo (set_embedding entry_key (vector_to_value vector)) (attempt (set_memory entry_key raw)) ;;;
    or_undo (index_add_node ns existing_id vector) (undo_refresh ns existing_id entry_key raw previous_vector) ;;;
    ret entry).

Definition no_room : MemoryError :=
  Storage (lit "memory capacity is occupied by other isolated domains; no entry in the current domain can be evicted").

Definition make_room (max_entries : Z) (ns : MemoryNamespace) (domain : str) : M (option EvictedSnapshot) :=
  n <- count ns ;;
  if max_entries <=? n then
    evicted <- evict_lowest_in_domain ns domain ;;
    match evicted with None => fail no_room | Some snapshot => ret (Some snapshot) end
  else ret None.

Definition create (max_entries : Z) (d : draw) (ns : MemoryNamespace) (domain text : str) (vector : list f32) (m : value)
    (signature skey : str) : M MemoryEntry :=
  with_clock (fun now =>
    i <- lift (generate_memory_id now d signature) ;;
    let entry := {| id := i; content := text; namespace := ns; metadata := new_metadata m domain; created_at := now |} in
    evicted <- make_room max_entries ns domain ;;
    let entry_key := storage_key ns i in
    or_undo (set_memory entry_key (entry_value entry)) (restore_evicted evicted) ;;;
    or_undo (set_embedding entry_key (vector_to_value vector))
      (attempt (delete_memory entry_key) ;;; restore_evicted evicted) ;;;
    or_undo (set_memory skey (VString i))
      (attempt (delete_embedding entry_key) ;;; attempt (delete_memory entry_key) ;;; restore_evicted evicted) ;;;
    or_undo (index_add_node ns i vector)
      (attempt (manager_remove ns i) ;;; attempt (delete_memory skey) ;;; attempt (delete_embedding entry_key) ;;;
       attempt (delete_memory entry_key) ;;; restore_evicted evicted) ;;;
    ret entry).

Definition remember_in_domain (max_entries : Z) (d : draw) (ns : MemoryNamespace) (domain text : str) (vector : list f32)
    (m : value) : M MemoryEntry :=
  lift (ensure_finite vector) ;;;
  let signature := content_signature text (namespace_str ns) in
  let skey := sig_key_v2 ns domain signature in
  target <- find_dedupe_target ns skey ;;
  match target with
  | Some target => refresh ns domain text vector m target
  | None => create max_entries d ns domain text vector m signature skey
  end.

Definition remember (max_entries : Z) (d : draw) (ns : MemoryNamespace) (text : str) (vector : list f32) (m : value) : M MemoryEntry :=
  remember_in_domain max_entries d ns (namespace_str ns) text vector m.

(** *** Entries with an id of the caller *)

Definition undo_insert (ns : MemoryNamespace) (entry_key : str) (previous_entry : option value) : M unit :=
  match previous_entry with
  | Some raw => attempt (set_memory entry_key raw)
  | None => attempt (delete_memory entry_key)
  end.

Definition namespace_full (ns : MemoryNamespace) (max_entries : Z) : MemoryError :=
  Storage (lit "namespace " ++ namespace_str ns ++ lit " is full (" ++ show_Z max_entries ++ lit " entries)").

Definition insert_with_id (max_entries : Z) (ns : MemoryNamespace) (i text : str) (vector : list f32) (m : value) : M MemoryEntry :=
  lift (ensure_finite vector) ;;;
  let entry_key := storage_key ns i in
  previous_entry <- get_memory entry_key ;;
  (match previous_entry with
   | None => n <- count ns ;; guard_else (n <? max_entries) (namespace_full ns max_entries)
   | Some _ => ret tt
   end) ;;;
  with_clock (fun now =>
    let entry := {| id := i; content := text; namespace := ns; metadata := m; created_at := now |} in
    previous_vector <- get_embedding entry_key ;;
    set_memory entry_key (entry_value entry) ;;;
    or_undo (set_embedding entry_key (vector_to_value vector)) (undo_insert ns entry_key previous_entry) ;;;
    or_undo (index_add_node ns i vector)
      (undo_insert ns entry_key previous_entry ;;;
       match previous_vector with
       | Some raw =>
           attempt (set_embedding entry_key raw) ;;;
           match vector_from_value raw with
           | Ok previous => attempt (index_add_node ns i previous)
           | Err _ => ret tt
           end
       | None => attempt (delete_embedding entry_key) ;;; attempt (manager_remove ns i)
       end) ;;;
    ret entry).

(** *** Searching *)

Fixpoint fill_in (ns : MemoryNamespace) (hits : list hit) : M (list (MemoryEntry * f32)) :=
  match hits with
  | [] => ret []
  | (i, score) :: rest =>
      raw <- get_lenient (get_memory (storage_key ns i)) ;;
      results <- fill_in ns rest ;;
      ret (match raw ≫= entry_of_value with Some e => (e, score) :: results | None => results end)
  end.

Definition search (ns : MemoryNamespace) (query : list f32) (top_k : nat) : M (list (MemoryEntry * f32)) :=
  lift (ensure_finite query) ;;;
  hits <- manager_search ns query top_k ;;
  fill_in ns hits.

Definition RANKED_OVERFETCH_FACTOR : nat := 4.

(** [b.1.partial_cmp(&a.1)], where incomparable scores are equal. *)
Definition ranked_before (a b : MemoryEntry * f32) : Prop := SFltb (snd a) (snd b) = false.
#[export] Instance ranked_before_dec a b : Decision (ranked_before a b).
Proof. unfold ranked_before. apply _. Defined.

Definition rank (now : Z) (results : list (MemoryEntry * f32)) : list (MemoryEntry * f32) :=
  merge_sort ranked_before
    ((fun r => (fst r, decayed_search_score (snd r) (effective_recency_ms (metadata (fst r)) (created_at (fst r))) now DEFAULT_HALF_LIFE_DAYS))
     <$> results).

Definition search_ranked (ns : MemoryNamespace) (query : list f32) (top_k : nat) : M (list (MemoryEntry * f32)) :=
  with_clock (fun now =>
    results <- search ns query (top_k * RANKED_OVERFETCH_FACTOR) ;;
    ret (take top_k (rank now results))).
End Engine.

(** ** Commands over the tables of the engine *)

Section Runs.
Context {I : Type} `{IndexLaws I} `{Unicode} `{Digest} `{Power}.
Abbreviation M := (Sql.M (Stores I) MemoryError).
Abbreviation budget := (option nat) (only parsing).

Lemma runs_attempt {A} b (m : M A) s (Q : budget -> result unit MemoryError -> Stores I -> Prop) :
  runs b m s (fun b' _ s' => Q b' (Ok tt) s') -> runs b (attempt m) s Q.
Proof using.
  intros Hm w n r s' n' Ha Hb. unfold attempt, bind, caught. destruct (m w n s) as [[x s1] n1] eqn:E. intros [= <- <- <-]. by eapply Hm.
Qed.

Lemma set_memories_same (s : Stores I) : set_memories (memories s) s = s.
Proof using. by destruct s. Qed.

Lemma runs_get_memory b key (s : Stores I) Q : permanent (memories s) ->
  Q b (row_at (memories s) key) s -> (b <> Some 0%nat -> Q (spend b) (Err storage_failure) s) -> runs b (get_memory key) s Q.
Proof using. apply runs_get, set_memories_same. Qed.

Lemma runs_get_embedding b key (s : Stores I) Q : permanent (embeddings s) ->
  Q b (row_at (embeddings s) key) s -> (b <> Some 0%nat -> Q (spend b) (Err storage_failure) s) -> runs b (get_embedding key) s Q.
Proof using. apply runs_get, set_embeddings_same. Qed.

Lemma runs_set_memory b key v (s : Stores I) Q :
  Q b (Ok tt) (set_memories (<[key := stored v]> (memories s)) s) -> (b <> Some 0%nat -> Q (spend b) (Err storage_failure) s) ->
  runs b (set_memory key v) s Q.
Proof using. apply runs_set. Qed.

Lemma runs_delete_memory b key (s : Stores I) Q :
  Q b (Ok tt) (set_memories (delete key (memories s)) s) -> (b <> Some 0%nat -> Q (spend b) (Err storage_failure) s) ->
  runs b (delete_memory key) s Q.
Proof using. apply runs_delete. Qed.

Lemma runs_set_embedding b key v (s : Stores I) Q :
  Q b (Ok tt) (set_embeddings (<[key := stored v]> (embeddings s)) s) -> (b <> Some 0%nat -> Q (spend b) (Err storage_failure) s) ->
  runs b (set_embedding key v) s Q.
Proof using. apply runs_set. Qed.

Lemma runs_delete_embedding b key (s : Stores I) Q :
  Q b (Ok tt) (set_embeddings (delete key (embeddings s)) s) -> (b <> Some 0%nat -> Q (spend b) (Err storage_failure) s) ->
  runs b (delete_embedding key) s Q.
Proof using. apply runs_delete. Qed.

Lemma runs_list_memories b prefix (s : Stores I) Q :
  (forall keys, NoDup keys -> (forall k, k ∈ keys -> starts_with prefix k = true /\ is_Some (memories s !! k)) -> Q b (Ok keys) s) ->
  (b <> Some 0%nat -> Q (spend b) (Err storage_failure) s) -> runs b (list_memories prefix) s Q.
Proof using. apply runs_list, set_memories_same. Qed.

Lemma runs_lenient b read s (Q : budget -> result (option value) MemoryError -> Stores I -> Prop) :
  runs b read s (fun b' r s' => match r with
    | Ok v => Q b' (Ok v) s'
    | Err (Serialization _) => Q b' (Ok None) s'
    | Err e => Q b' (Err e) s'
    end) -> runs b (get_lenient read) s Q.
Proof using.
  intros Hr. apply runs_bind, runs_tried. eapply runs_weaken; [exact Hr|]. intros b' [v|e] s' HQ; [by apply runs_ret|].
  destruct e; by (apply runs_ret || apply runs_fail).
Qed.
End Runs.

(** ** Forgetting is complete, or can be repeated *)

Definition entry_at (t : Rows) (key : str) : option MemoryEntry :=
  match row_at t key with Ok (Some v) => entry_of_value v | _ => None end.

(** The signature row of an entry, if it leads there. *)
Definition without_signature `{Unicode} `{Digest} (ns : MemoryNamespace) (i : str) (t : Rows) : Rows :=
  match entry_at t (storage_key ns i) with
  | Some e =>
      match row_at t (signature_row ns e) with
      | Ok (Some (VString mapped)) => if str_eqb mapped i then delete (signature_row ns e) t else t
      | _ => t
      end
  | None => t
  end.

Lemma storage_key_not_sig ns i rest : storage_key ns i <> lit "sig/" ++ rest.
Proof. unfold storage_key. by destruct ns. Qed.

Lemma signature_row_sig `{Unicode} `{Digest} ns e : exists rest, signature_row ns e = lit "sig/" ++ rest.
Proof.
  unfold signature_row. destruct (entry_dedupe_domain (metadata e)) as [d|]; unfold sig_key, sig_key_v2; [|by eexists].
  exists (lit "v2/" ++ namespace_str ns ++ lit "/" ++ sha256_hex d ++ lit "/" ++ content_signature (content e) (namespace_str ns)). done.
Qed.

Lemma signature_row_ne `{Unicode} `{Digest} ns e ns' i : signature_row ns e <> storage_key ns' i.
Proof. destruct (signature_row_sig ns e) as [rest ->]. intros E. by apply (storage_key_not_sig ns' i rest). Qed.

Section Forgetting.
Context {I : Type} `{IndexLaws I} `{Unicode} `{Digest} `{Power}.
Abbreviation M := (Sql.M (Stores I) MemoryError).

Lemma runs_remove_node b ns i f s (Q : option nat -> result unit MemoryError -> Stores I -> Prop) :
  stands ns f s ->
  (forall s', only_slot ns s s' -> stands ns (fun c => delete i (f c)) s' -> Q b (Ok tt) s') ->
  runs b (remove_node ns i) s Q.
Proof using.
  intros Hst HQ. apply runs_bind, runs_tried. intros w n r s' n' Ha Hb E.
  destruct (manager_remove_spec ns i f w n s r s' n' Hst E) as (-> & Ho & Hs & Hr). exists b. split; [done|].
  destruct r as [[]|e]; [apply runs_ret; auto|]. destruct Hr as [-> [->|[-> _]]]; apply runs_ret; auto.
Qed.

Lemma runs_forget_signature b skey i s (Q : option nat -> result unit MemoryError -> Stores I -> Prop) :
  permanent (memories s) ->
  (forall s', s' = set_memories (match row_at (memories s) skey with
      | Ok (Some (VString mapped)) => if str_eqb mapped i then delete skey (memories s) else memories s
      | _ => memories s end) s -> Q b (Ok tt) s') ->
  (forall b' e, Q b' (Err e) s) ->
  runs b (forget_signature skey i) s Q.
Proof using.
  intros Hp Hok Herr. apply runs_bind, runs_get_memory; [done| |auto].
  destruct (row_at (memories s) skey) as [[v|]|e] eqn:E; [| |auto].
  - destruct v as [| | |x| |]; try (apply runs_ret, Hok; by rewrite set_memories_same).
    destruct (str_eqb x i); [apply runs_delete_memory; auto|]. apply runs_ret, Hok. by rewrite set_memories_same.
  - apply runs_ret, Hok. by rewrite set_memories_same.
Qed.

Lemma runs_forget b ns i f s :
  permanent (memories s) -> permanent (embeddings s) -> stands ns f s ->
  runs b (forget ns i) s (fun _ r s' =>
    (forall ns', ns' <> ns -> indexes s' !! ns' = indexes s !! ns') /\ config_of ns s' = config_of ns s /\
    match r with
    | Ok _ => memories s' = delete (storage_key ns i) (without_signature ns i (memories s)) /\
              embeddings s' = delete (storage_key ns i) (embeddings s) /\ stands ns (fun c => delete i (f c)) s'
    | Err _ => (memories s' = memories s \/ memories s' = without_signature ns i (memories s)) /\
               (embeddings s' = embeddings s \/ embeddings s' = delete (storage_key ns i) (embeddings s)) /\
               (stands ns f s' \/ stands ns (fun c => delete i (f c)) s')
    end).
Proof using.
  intros Hpm Hpe Hst. unfold forget. set (key := storage_key ns i).
  apply runs_bind, runs_lenient, runs_get_memory; [done| |by intros; split_and!; auto].
  assert (forall o, (match row_at (memories s) key with Ok v => v | Err _ => None end) = o ->
    runs b (let signature_key := signature_row ns <$> (o ≫= entry_of_value) in
      remove_node ns i ;;; delete_embedding key ;;;
      match signature_key with Some skey => forget_signature skey i | None => ret tt end ;;; delete_memory key) s
    (fun _ r s' =>
    (forall ns', ns' <> ns -> indexes s' !! ns' = indexes s !! ns') /\ config_of ns s' = config_of ns s /\
    match r with
    | Ok _ => memories s' = delete key (without_signature ns i (memories s)) /\
              embeddings s' = delete key (embeddings s) /\ stands ns (fun c => delete i (f c)) s'
    | Err _ => (memories s' = memories s \/ memories s' = without_signature ns i (memories s)) /\
               (embeddings s' = embeddings s \/ embeddings s' = delete key (embeddings s)) /\
               (stands ns f s' \/ stands ns (fun c => delete i (f c)) s')
    end)) as Hrest.
  2:{ destruct (row_at (memories s) key) as [o|e] eqn:E; [by apply Hrest|]. destruct (row_at_error _ _ _ E) as [x ->]. by apply Hrest. }
  intros o Ho. cbv zeta. apply runs_bind, (runs_remove_node b ns i f); [done|]. intros s1 (Hm & He & Hc & Hi) Hs1.
  apply runs_bind, runs_delete_embedding; [|intros _; rewrite Hm, He; split_and!; auto].
  set (s2 := set_embeddings _ _). assert (stands ns (fun c => delete i (f c)) s2) as Hs2 by done.
  assert (memories s2 = memories s) as Hm2 by done. assert (embeddings s2 = delete key (embeddings s)) as He2 by (unfold s2; cbn; by rewrite He).
  apply runs_bind.
  assert (entry_at (memories s) key = o ≫= entry_of_value) as Hentry.
  { unfold entry_at. destruct (row_at (memories s) key) as [[v|]|e]; by subst o. }
  destruct (o ≫= entry_of_value) as [e|]; cbn [fmap option_fmap option_map].
  - apply runs_forget_signature; [by rewrite Hm2| |].
    + intros s3 ->. apply runs_delete_memory; cbn; unfold without_signature; fold key; rewrite Hentry, Hm, ?He2; [split_and!; auto|].
      intros _. split_and!; auto.
    + intros b' e'. rewrite Hm2, He2. split_and!; auto.
  - apply runs_ret, runs_delete_memory; cbn; unfold without_signature; fold key; rewrite Hentry, Hm; [split_and!; auto|].
    intros _. split_and!; auto.
Qed.
End Forgetting.

Lemma without_signature_entry `{Unicode} `{Digest} ns i t : without_signature ns i t !! storage_key ns i = t !! storage_key ns i.
Proof.
  unfold without_signature. destruct (entry_at t (storage_key ns i)) as [e|]; [|done].
  destruct (row_at t (signature_row ns e)) as [[[| | |x| |]|]|]; try done. destruct (str_eqb x i); [|done].
  rewrite lookup_delete_ne; [done|apply signature_row_ne].
Qed.

(** Once it is gone, nothing more is taken. *)
Lemma without_signature_again `{Unicode} `{Digest} ns i t :
  without_signature ns i (without_signature ns i t) = without_signature ns i t.
Proof.
  set (t' := without_signature ns i t).
  assert (entry_at t' (storage_key ns i) = entry_at t (storage_key ns i)) as He.
  { unfold entry_at, row_at, t'. by rewrite without_signature_entry. }
  unfold without_signature at 1. rewrite He. unfold t', without_signature. destruct (entry_at t (storage_key ns i)) as [e|]; [|done].
  destruct (row_at t (signature_row ns e)) as [[[| | |x| |]|]|] eqn:Er; try by rewrite Er.
  destruct (str_eqb x i) eqn:Ex; [|by rewrite Er, Ex]. unfold row_at. by rewrite lookup_delete_eq.
Qed.

(** One attempt to forget: done, or to be repeated. *)
Lemma forget_attempt {I : Type} `{IndexLaws I} `{Unicode} `{Digest} ns i f w n (s : Stores I) r s' n' :
  let key := storage_key ns i in
  alone w -> permanent (memories s) -> permanent (embeddings s) -> stands ns f s -> forget ns i w n s = (r, s', n') ->
  (forall ns', ns' <> ns -> indexes s' !! ns' = indexes s !! ns') /\ config_of ns s' = config_of ns s /\
  permanent (memories s') /\ permanent (embeddings s') /\
  match r with
  | Ok _ => memories s' = delete key (without_signature ns i (memories s)) /\
            embeddings s' = delete key (embeddings s) /\ stands ns (fun c => delete i (f c)) s'
  | Err _ => without_signature ns i (memories s') = without_signature ns i (memories s) /\
             delete key (embeddings s') = delete key (embeddings s) /\
             (stands ns f s' \/ stands ns (fun c => delete i (f c)) s')
  end.
Proof.
  intros key Hw Hpm Hpe Hst E. destruct (runs_forget None ns i f s Hpm Hpe Hst w n r s' n' Hw Logic.I E) as (_ & _ & Hi & Hc & Hr).
  assert (permanent (without_signature ns i (memories s))) as Hps.
  { unfold without_signature. destruct (entry_at _ _); [|done].
    destruct (row_at _ (signature_row _ _)) as [[[| | |x| |]|]|]; try done. destruct (str_eqb x i); [by apply permanent_delete|done]. }
  split; [done|split; [done|]]. destruct r as [[]|e].
  - destruct Hr as (-> & -> & Hs). split_and!; [by apply permanent_delete|by apply permanent_delete|done..].
  - destruct Hr as (Hm & He & Hs). split_and!; [by destruct Hm as [->| ->]| | | |done].
    + destruct He as [->| ->]; [done|by apply permanent_delete].
    + destruct Hm as [->| ->]; [done|apply without_signature_again].
    + destruct He as [->| ->]; [done|by rewrite delete_delete_eq].
Qed.

(** Forgetting, and forgetting again after each failure, until it succeeds. *)
Inductive forgotten {I : Type} `{IndexLaws I} `{Unicode} `{Digest} (ns : MemoryNamespace) (i : str) : Stores I -> Stores I -> Prop :=
| forgotten_now w n s s' n' : alone w -> forget ns i w n s = (Ok tt, s', n') -> forgotten ns i s s'
| forgotten_later w n s e s1 n1 s' :
    alone w -> forget ns i w n s = (Err e, s1, n1) -> forgotten ns i s1 s' -> forgotten ns i s s'.

Lemma forgotten_rows {I : Type} `{IndexLaws I} `{Unicode} `{Digest} ns i f (s s' : Stores I) :
  let key := storage_key ns i in
  permanent (memories s) -> permanent (embeddings s) ->
  (stands ns f s \/ stands ns (fun c => delete i (f c)) s) -> forgotten ns i s s' ->
  memories s' = delete key (without_signature ns i (memories s)) /\ embeddings s' = delete key (embeddings s) /\
  stands ns (fun c => delete i (f c)) s' /\ forall ns', ns' <> ns -> indexes s' !! ns' = indexes s !! ns'.
Proof.
  intros key Hm He Hst Hf. induction Hf as [w n s s' n' Hw E|w n s e s1 n1 s' Hw E _ IH].
  - assert (forall g, stands ns g s -> memories s' = delete key (without_signature ns i (memories s)) /\
      embeddings s' = delete key (embeddings s) /\ stands ns (fun c => delete i (g c)) s' /\
      forall ns', ns' <> ns -> indexes s' !! ns' = indexes s !! ns') as Hg.
    { intros g Hg. destruct (forget_attempt _ _ _ _ _ _ _ _ _ Hw Hm He Hg E) as (Hi & _ & _ & _ & Q1 & Q2 & Q3). done. }
    destruct Hst as [Hst|Hst]; [by apply Hg|]. destruct (Hg _ Hst) as (? & ? & Q3 & ?). split_and!; [done|done| |done].
    revert Q3. unfold stands. destruct (indexes s' !! ns) as [[|c x]|]; [done| |done]. by rewrite delete_delete_eq.
  - assert (forall g, stands ns g s -> permanent (memories s1) /\ permanent (embeddings s1) /\
      without_signature ns i (memories s1) = without_signature ns i (memories s) /\ delete key (embeddings s1) = delete key (embeddings s) /\
      (stands ns g s1 \/ stands ns (fun c => delete i (g c)) s1) /\
      forall ns', ns' <> ns -> indexes s1 !! ns' = indexes s !! ns') as Hg.
    { intros g Hg. destruct (forget_attempt _ _ _ _ _ _ _ _ _ Hw Hm He Hg E) as (Hi & _ & ? & ? & Q1 & Q2 & Q3). done. }
    assert (permanent (memories s1) /\ permanent (embeddings s1) /\
      without_signature ns i (memories s1) = without_signature ns i (memories s) /\ delete key (embeddings s1) = delete key (embeddings s) /\
      (stands ns f s1 \/ stands ns (fun c => delete i (f c)) s1) /\
      forall ns', ns' <> ns -> indexes s1 !! ns' = indexes s !! ns') as (Hm1 & He1 & Hs1 & Hd1 & Hst1 & Hi1).
    { destruct Hst as [Hst|Hst]; [by apply Hg|]. destruct (Hg _ Hst) as (? & ? & ? & ? & [Q3|Q3] & ?); split_and!; try done; right; [done|].
      revert Q3. unfold stands. destruct (indexes s1 !! ns) as [[|c x]|]; [done| |done]. by rewrite delete_delete_eq. }
    destruct (IH Hm1 He1 Hst1) as (Q1 & Q2 & Q3 & Q4). rewrite Hs1 in Q1. rewrite Hd1 in Q2. split_and!; [done|done|done|].
    intros ns' Hn. by rewrite Q4, Hi1.
Qed.

(** ** Dedupe domains are apart

    A signature row belongs to a namespace and to the digest of a domain.  All that
    [remember_in_domain] does for one domain happens to memories and signature rows
    that no other domain has a claim on, whatever fails on the way. *)

Definition sig_key_h (ns : MemoryNamespace) (h signature : str) : str :=
  lit "sig/v2/" ++ namespace_str ns ++ lit "/" ++ h ++ lit "/" ++ signature.

(** A signature row of the digest leads to the memory. *)
Definition leads (t : Rows) (ns : MemoryNamespace) (h i : str) : Prop :=
  exists signature, row_at t (sig_key_h ns h signature) = Ok (Some (VString i)).

Definition domain_at (t : Rows) (ns : MemoryNamespace) (i : str) : option str :=
  entry_at t (storage_key ns i) ≫= fun e => entry_dedupe_domain (metadata e).

(** Every row leads to a memory of its own domain, and no memory is reached from two
    domains. *)
Definition apart `{Digest} (t : Rows) : Prop :=
  (forall ns h i d, (slash ∉ h) -> leads t ns h i -> domain_at t ns i = Some d -> sha256_hex d = h) /\
  (forall ns h h' i, (slash ∉ h) -> (slash ∉ h') -> leads t ns h i -> leads t ns h' i -> h = h').

(** Only this digest has a claim on the memory, if any. *)
Definition claimable `{Digest} (t : Rows) (ns : MemoryNamespace) (h i : str) : Prop :=
  (forall d, domain_at t ns i = Some d -> sha256_hex d = h) /\
  (forall h', (slash ∉ h') -> leads t ns h' i -> h' = h).

Definition own_signature (ns : MemoryNamespace) (h k : str) : Prop :=
  exists signature, k = sig_key_h ns h signature \/ k = sig_key ns signature.

Definition own_key `{Digest} (t : Rows) (ns : MemoryNamespace) (h k : str) : Prop :=
  own_signature ns h k \/ exists i, k = storage_key ns i /\ claimable t ns h i.

Lemma slash_free_inj (a b x y : str) :
  (slash ∉ a) -> (slash ∉ b) -> a ++ slash :: x = b ++ slash :: y -> a = b /\ x = y.
Proof.
  revert b. induction a as [|c a IH]; intros [|c' b] Ha Hb E; cbn in E; injection E.
  - by intros ->.
  - intros _ <-. by destruct Hb; left.
  - intros _ ->. by destruct Ha; left.
  - intros E' <-. destruct (IH b) as [-> ->]; [by intros ?; apply Ha; right|by intros ?; apply Hb; right|done|done].
Qed.

Lemma namespace_slash_free ns : slash ∉ namespace_str ns.
Proof. destruct ns; apply (bool_decide_unpack _); by vm_compute. Qed.

Lemma namespace_str_inj ns ns' : namespace_str ns = namespace_str ns' -> ns = ns'.
Proof. by destruct ns, ns'. Qed.

Lemma sig_key_h_inj ns ns' h h' x y :
  (slash ∉ h) -> (slash ∉ h') -> sig_key_h ns h x = sig_key_h ns' h' y -> ns = ns' /\ h = h' /\ x = y.
Proof.
  intros Hh Hh' E. unfold sig_key_h in E. apply app_inv_head in E.
  apply (slash_free_inj _ _ _ _ (namespace_slash_free ns) (namespace_slash_free ns')) in E as [Hn E].
  by apply (slash_free_inj _ _ _ _ Hh Hh') in E as [-> ->]; apply namespace_str_inj in Hn.
Qed.

Lemma own_signature_sig ns h k : own_signature ns h k -> exists rest, k = lit "sig/" ++ rest.
Proof. intros (x & [->| ->]); [exists (lit "v2/" ++ namespace_str ns ++ lit "/" ++ h ++ lit "/" ++ x)|]; by eexists. Qed.

Lemma sig_key_not_h ns ns' h x y : sig_key ns x <> sig_key_h ns' h y.
Proof. by destruct ns. Qed.

Lemma own_signature_foreign ns h ns' h' x :
  (slash ∉ h) -> (slash ∉ h') -> own_signature ns h (sig_key_h ns' h' x) -> ns' = ns /\ h' = h.
Proof. intros Hh Hh' (y & [E|E]); [by apply sig_key_h_inj in E as (-> & -> & _)|by symmetry in E; apply sig_key_not_h in E]. Qed.

Lemma storage_not_own_signature ns h ns' i : ~ own_signature ns h (storage_key ns' i).
Proof. intros Hs. apply own_signature_sig in Hs as [rest E]. by apply (storage_key_not_sig ns' i rest). Qed.

Lemma own_storage `{Digest} t ns h ns' i : own_key t ns h (storage_key ns' i) -> ns' = ns /\ claimable t ns h i.
Proof. intros [Hs|(j & [<- <-]%storage_key_inj & Hj)]; [by apply storage_not_own_signature in Hs|done]. Qed.

Lemma own_sig_key `{Digest} t ns h ns' h' x :
  (slash ∉ h) -> (slash ∉ h') -> own_key t ns h (sig_key_h ns' h' x) -> ns' = ns /\ h' = h.
Proof.
  intros Hh Hh' [Hs|(j & E & _)]; [by eapply own_signature_foreign|]. exfalso. symmetry in E.
  by apply (storage_key_not_sig ns j (lit "v2/" ++ namespace_str ns' ++ lit "/" ++ h' ++ lit "/" ++ x)).
Qed.

(** *** What the writes of one domain do to the table *)

Section OwnWrites.
Context `{Unicode} `{Digest} (ns : MemoryNamespace) (d : str) (t0 : Rows).
Abbreviation h := (sha256_hex d).
Context (h_slash : slash ∉ h).

Definition own (i : str) : Prop := claimable t0 ns h i.

(** A table that differs from the first one in what is the domain's own. *)
Record ours (t : Rows) : Prop := {
  ours_permanent : permanent t;
  ours_apart : apart t;
  ours_others k : ~ own_key t0 ns h k -> t !! k = t0 !! k;
  ours_domain i d' : own i -> domain_at t ns i = Some d' -> sha256_hex d' = h
}.

Lemma leads_same t t' ns' h' i : (forall x, t' !! sig_key_h ns' h' x = t !! sig_key_h ns' h' x) -> leads t' ns' h' i -> leads t ns' h' i.
Proof using. intros Hs (x & Hx). exists x. unfold row_at in *. by rewrite <- Hs. Qed.

Lemma domain_same t t' ns' i : t' !! storage_key ns' i = t !! storage_key ns' i -> domain_at t' ns' i = domain_at t ns' i.
Proof using. intros Hs. unfold domain_at, entry_at, row_at. by rewrite Hs. Qed.

Lemma others_lead t ns' h' i : ours t -> (slash ∉ h') -> (ns', h') <> (ns, h) -> leads t ns' h' i <-> leads t0 ns' h' i.
Proof using h_slash.
  intros Ht Hh Hn. assert (forall x, t !! sig_key_h ns' h' x = t0 !! sig_key_h ns' h' x) as E.
  { intros x. apply Ht. intros [-> ->]%own_sig_key; done. }
  split; apply leads_same; intros x; by rewrite E.
Qed.

Lemma others_domain t ns' i : ours t -> (ns' = ns -> ~ own i) -> domain_at t ns' i = domain_at t0 ns' i.
Proof using. intros Ht Hn. apply domain_same, Ht. intros [-> Hi]%own_storage. by apply Hn. Qed.

(** No other domain's row leads to what is our own. *)
Lemma ours_leads t h' i : ours t -> own i -> (slash ∉ h') -> leads t ns h' i -> h' = h.
Proof using h_slash.
  intros Ht Hi Hh Hl. destruct (decide (h' = h)) as [|Hn]; [done|]. apply Hi; [done|]. by apply (others_lead t ns h' i); [..|congruence|].
Qed.

(** What our rows lead to is our own, and so is every entry of the domain. *)
Lemma ours_led t i : ours t -> leads t ns h i -> own i.
Proof using h_slash.
  intros Ht Hl. destruct (ours_apart t Ht) as [A1 A2]. split.
  - intros d' Hd. destruct (decide (sha256_hex d' = h)) as [|Hn]; [done|]. eapply A1; [done|exact Hl|].
    rewrite (others_domain t); [done..|]. intros _ [Hc _]. by apply Hn, Hc.
  - intros h' Hh Hl'. destruct (decide (h' = h)) as [|Hn]; [done|]. eapply A2; [done|done| |exact Hl].
    by apply (others_lead t ns h' i); [..|congruence|].
Qed.

Lemma ours_in_domain t i : ours t -> domain_at t ns i = Some d -> own i.
Proof using h_slash.
  intros Ht Hd. destruct (ours_apart t Ht) as [A1 A2].
  assert (forall h', (slash ∉ h') -> leads t0 ns h' i -> h' = h) as Hl.
  { intros h' Hh Hl. destruct (decide (h' = h)) as [|Hn]; [done|]. symmetry. eapply A1; [exact Hh| |exact Hd].
    by apply (others_lead t ns h' i); [..|congruence|]. }
  split; [|done]. intros d' Hd'. destruct (decide (sha256_hex d' = h)) as [|Hn]; [done|].
  rewrite <- (others_domain t) in Hd'; [congruence|done|]. intros _ [Hc _]. by apply Hn, Hc.
Qed.

(** *** The four writes *)

Lemma apart_shrink t t' :
  apart t -> (forall ns' h' i, (slash ∉ h') -> leads t' ns' h' i -> leads t ns' h' i) ->
  (forall ns' h' i d', (slash ∉ h') -> leads t' ns' h' i -> domain_at t' ns' i = Some d' -> domain_at t ns' i = Some d' \/ sha256_hex d' = h') -> apart t'.
Proof using. intros [A1 A2] Hl Hd. split; [|eauto]. intros ns' h' i d' Hh Hi Hi'. destruct (Hd _ _ _ _ Hh Hi Hi'); eauto. Qed.

Lemma leads_entry t ns' i r ns2 h2 i2 : leads (<[storage_key ns' i := r]> t) ns2 h2 i2 <-> leads t ns2 h2 i2.
Proof using.
  split; apply leads_same; intros x; (rewrite lookup_insert_ne; [done|]);
    apply (storage_key_not_sig ns' i (lit "v2/" ++ namespace_str ns2 ++ lit "/" ++ h2 ++ lit "/" ++ x)).
Qed.

Lemma ours_put_entry t i v :
  ours t -> own i -> (forall e d', entry_of_value v = Some e -> entry_dedupe_domain (metadata e) = Some d' -> sha256_hex d' = h) ->
  ours (<[storage_key ns i := stored v]> t).
Proof using h_slash.
  intros Ht Hi Hv.
  assert (forall d', domain_at (<[storage_key ns i := stored v]> t) ns i = Some d' -> sha256_hex d' = h) as Hnew.
  { intros d'. unfold domain_at, entry_at, row_at. rewrite lookup_insert_eq. cbn. destruct (entry_of_value v) as [e|]; [cbn; by apply Hv|done]. }
  assert (forall ns' j, storage_key ns' j <> storage_key ns i -> domain_at (<[storage_key ns i := stored v]> t) ns' j = domain_at t ns' j) as Hold.
  { intros ns' j Hn. apply domain_same. by rewrite lookup_insert_ne. }
  split.
  - apply permanent_insert, Ht.
  - apply (apart_shrink t); [apply Ht|by intros ns' h' j _ Hl%leads_entry|].
    intros ns' h' j d' Hh Hl%leads_entry Hd. destruct (decide (storage_key ns' j = storage_key ns i)) as [[-> ->]%storage_key_inj|Hn].
    + right. rewrite (ours_leads t h' i) by done. by apply Hnew.
    + left. by rewrite <- Hold.
  - intros k Hk. rewrite lookup_insert_ne; [by apply Ht|]. intros <-. apply Hk. right. eauto.
  - intros j d' Hj Hd. destruct (decide (storage_key ns j = storage_key ns i)) as [[_ ->]%storage_key_inj|Hn]; [by apply Hnew|].
    rewrite Hold in Hd by done. by apply (ours_domain t Ht j).
Qed.

Lemma ours_delete t k : ours t -> own_key t0 ns h k -> ours (delete k t).
Proof using.
  intros Ht Hk.
  assert (forall ns' j d', domain_at (delete k t) ns' j = Some d' -> domain_at t ns' j = Some d') as Hd.
  { intros ns' j d'. unfold domain_at, entry_at, row_at. rewrite lookup_delete. by destruct (decide _). }
  split.
  - apply permanent_delete, Ht.
  - apply (apart_shrink t); [apply Ht| |auto]. intros ns' h' i _ (x & Hx). exists x. revert Hx. unfold row_at. rewrite lookup_delete. by destruct (decide _).
  - intros k' Hk'. rewrite lookup_delete_ne; [by apply Ht|]. by intros <-.
  - intros j d' Hj Hd'. apply (ours_domain t Ht j); [done|]. by apply Hd.
Qed.

Lemma ours_put_signature t k i : ours t -> own i -> own_signature ns h k -> ours (<[k := stored (VString i)]> t).
Proof using h_slash.
  intros Ht Hi Hk.
  assert (forall ns' j, domain_at (<[k := stored (VString i)]> t) ns' j = domain_at t ns' j) as Hd.
  { intros ns' j. apply domain_same. rewrite lookup_insert_ne; [done|]. intros ->. by apply storage_not_own_signature in Hk. }
  assert (forall ns' h' j, (slash ∉ h') -> leads (<[k := stored (VString i)]> t) ns' h' j -> leads t ns' h' j \/ ns' = ns /\ h' = h /\ j = i) as Hl.
  { intros ns' h' j Hh (x & Hx). destruct (decide (k = sig_key_h ns' h' x)) as [->|Hn].
    - right. destruct (own_signature_foreign ns h ns' h' x h_slash Hh Hk) as [-> ->]. split; [done|split; [done|]].
      unfold row_at in Hx. rewrite lookup_insert_eq in Hx. cbn in Hx. congruence.
    - left. exists x. unfold row_at in *. by rewrite lookup_insert_ne in Hx. }
  destruct (ours_apart t Ht) as [A1 A2]. split.
  - apply permanent_insert, Ht.
  - split.
    + intros ns' h' j d' Hh [Hj|(-> & -> & ->)]%Hl; [|by rewrite Hd; apply (ours_domain t Ht)|done]. rewrite Hd. by apply A1.
    + intros ns' h1 h2 j Hh1 Hh2 [H1|(-> & -> & ->)]%Hl; [..|done].
      * intros [H2|(-> & -> & ->)]%Hl; [by eapply A2| |done]. by apply (ours_leads t h1 i).
      * intros [H2|(_ & -> & _)]%Hl; [|done..]. symmetry. by apply (ours_leads t h2 i).
  - intros k' Hk'. rewrite lookup_insert_ne; [by apply Ht|]. intros <-. apply Hk'. by left.
  - intros j d' Hj. rewrite Hd. by apply (ours_domain t Ht).
Qed.
End OwnWrites.

(** What is written is of the domain that wrote it. *)

Lemma entry_value_metadata e e' : entry_of_value (entry_value e) = Some e' -> metadata e' = metadata e.
Proof.
  assert (get "metadata" (entry_value e) = Some (metadata e)) as Hm by reflexivity.
  unfold entry_of_value. change (entry_value e) with (VObject (object_of [("id", VString (id e)); ("content", VString (content e));
    ("namespace", VString (namespace_str (namespace e))); ("metadata", metadata e); ("created_at", value_of_i64 (created_at e))])) at 1.
  cbv iota. destruct (get_str "id" _); [|done]. destruct (get_str "content" _); [|done]. cbn [mbind option_bind].
  destruct (get "namespace" _ ≫= _); [|done]. rewrite Hm. cbn [mbind option_bind].
  destruct (get "created_at" _ ≫= _); [|done]. by intros [= <-].
Qed.

Lemma set_field_domain d v d' : entry_dedupe_domain (set_field "dedupe_domain" (VString d) v) = Some d' -> d' = d \/ as_object v = None.
Proof.
  destruct v as [| | | | |fields]; auto. unfold entry_dedupe_domain, get_str. rewrite get_set_field. cbn. intros [= <-]. by left.
Qed.

Lemma refreshed_domain existing incoming merged d now d' :
  entry_dedupe_domain (refreshed_metadata existing incoming merged d now) = Some d' -> d' = d.
Proof.
  destruct incoming as [| | | | |fields]; try done.
  - cbn. by intros [= <-].
  - unfold refreshed_metadata. cbv zeta. intros [?|Hn]%set_field_domain; [done|]. by cbn in Hn.
Qed.

Lemma new_domain incoming d d' : entry_dedupe_domain (new_metadata incoming d) = Some d' -> d' = d.
Proof.
  destruct incoming as [| | | | |fields]; try done.
  - cbn. by intros [= <-].
  - unfold new_metadata. destruct (map_get _ fields); intros [?|Hn]%set_field_domain; done.
Qed.

(** Metadata that can carry a domain: an object, or none. *)
Definition attributable (m : value) : Prop := match m with VObject _ | VNull => True | _ => False end.

Lemma set_field_has_domain d fields : entry_dedupe_domain (set_field "dedupe_domain" (VString d) (VObject fields)) = Some d.
Proof. unfold entry_dedupe_domain, get_str. by rewrite get_set_field. Qed.

Lemma new_has_domain incoming d : attributable incoming -> entry_dedupe_domain (new_metadata incoming d) = Some d.
Proof.
  destruct incoming as [| | | | |fields]; try done. intros _. unfold new_metadata.
  destruct (map_get _ fields); apply set_field_has_domain.
Qed.

Lemma refreshed_has_domain existing incoming merged d now :
  attributable incoming -> entry_dedupe_domain (refreshed_metadata existing incoming merged d now) = Some d.
Proof. destruct incoming as [| | | | |fields]; try done. intros _. apply set_field_has_domain. Qed.

(** *** The index is not a table *)

Section IndexRows.
Context {I : Type} `{HL : IndexLaws I} (ns : MemoryNamespace).

Definition same_rows (s s' : Stores I) : Prop := memories s' = memories s /\ embeddings s' = embeddings s.

Lemma index_add_rows i v w n s r s' n' : alone w -> permanent (embeddings s) -> index_add_node ns i v w n s = (r, s', n') -> same_rows s s'.
Proof using HL.
  intros Ha He. unfold index_add_node, manager_add, slot_of, modify, bind.
  destruct (indexes s !! ns) as [[c|c x]|]; [|destruct (is_physically_saturated x && _)|].
  - unfold guard_else. destruct (_ =? _); by intros [= _ <- _].
  - by intros [= _ <- _].
  - destruct (index_add i v x) as [[[]|e] x'].
    + cbn. by intros [= _ <- _].
    + destruct (take_rebuild_required x') as [rebuild x2]. unfold put_slot, modify. cbn. destruct rebuild; cbn [negb]; [|by intros [= _ <- _]].
      set (s2 := set_slot ns (Loaded c x2) s). destruct (index_load ns c w n s2) as [[rl s3] n3] eqn:El.
      destruct (load_law ns c w n s2 _ s3 n3 Ha He El) as ((Hm3 & He3 & _) & _). destruct rl as [x3|e']; intros [= _ <- _]; by split.
  - by intros [= _ <- _].
Qed.

Lemma index_remove_rows i w n s r s' n' : manager_remove ns i w n s = (r, s', n') -> same_rows s s'.
Proof using HL.
  unfold manager_remove, slot_of, modify, bind. destruct (indexes s !! ns) as [[c|c x]|]; [by intros [= _ <- _]| |by intros [= _ <- _]].
  destruct (index_remove i x) as [r' x']. unfold put_slot, modify. cbn. destruct r'; by intros [= _ <- _].
Qed.
Lemma index_search_rows q k w n s r s' n' : alone w -> permanent (embeddings s) -> manager_search ns q k w n s = (r, s', n') -> same_rows s s'.
Proof using HL.
  intros Hw He. unfold manager_search, holding. rewrite Hw. set (w' := fun n => _). pose proof (alone_holding ns w Hw) as Hw'. fold w' in Hw'.
  clearbody w'. unfold search_body, slot_of, modify, bind. destruct (indexes s !! ns) as [[c|c i]|]; [|by intros [= _ <- _]..].
  destruct (k =? 0)%nat; [by intros [= _ <- _]|]. destruct (negb _); [by intros [= _ <- _]|].
  destruct (index_load ns c w' (Datatypes.S n) s) as [[[i|e] s2] n2] eqn:El;
    destruct (load_law ns c w' _ s _ s2 n2 Hw' He El) as ((Hm2 & He2 & _) & _); intros [= _ <- _]; by split.
Qed.
End IndexRows.

(** *** What is found has a row *)

Section Found.
Context {I : Type} `{HL : IndexLaws I} `{Unicode} `{Digest} `{Power} (ns : MemoryNamespace).
Abbreviation M := (Sql.M (Stores I) MemoryError).

Definition from_row (t : Rows) (e : MemoryEntry) : Prop := exists i, entry_at t (storage_key ns i) = Some e.

Lemma runs_fill_in hits s (Q : option nat -> result (list (MemoryEntry * f32)) MemoryError -> Stores I -> Prop) :
  permanent (memories s) -> (forall found, Forall (fun h => from_row (memories s) (fst h)) found -> Q None (Ok found) s) ->
  (forall e, Q None (Err e) s) -> runs None (fill_in ns hits) s Q.
Proof using.
  revert Q. induction hits as [|[i x] hits IH]; intros Q Hp Hok Herr; [by apply runs_ret, Hok|]. cbn [fill_in].
  apply runs_bind, runs_lenient, runs_get_memory; [done| |by intros; apply Herr].
  assert (forall raw, (raw = None \/ row_at (memories s) (storage_key ns i) = Ok raw) ->
    runs None (results <- fill_in ns hits ;; ret (match raw ≫= entry_of_value with Some e => (e, x) :: results | None => results end)) s Q) as Hrest.
  { intros raw Hraw. apply runs_bind, IH; [done| |by auto]. intros found Hf. apply runs_ret, Hok.
    destruct (raw ≫= entry_of_value) as [e|] eqn:Ee; [|done]. constructor; [|done]. exists i. unfold entry_at.
    destruct Hraw as [->| ->]; [done|]. by destruct raw. }
  destruct (row_at (memories s) (storage_key ns i)) as [raw|e] eqn:E; [apply Hrest; by right|].
  destruct (row_at_error _ _ _ E) as [m ->]. apply Hrest. by left.
Qed.

(** The tables stay as they are, and every result is what some row holds. *)
Lemma runs_search q k s (Q : option nat -> result (list (MemoryEntry * f32)) MemoryError -> Stores I -> Prop) :
  permanent (memories s) -> permanent (embeddings s) ->
  (forall found s', same_rows s s' -> Forall (fun h => from_row (memories s) (fst h)) found -> Q None (Ok found) s') ->
  (forall e s', same_rows s s' -> Q None (Err e) s') -> runs None (search ns q k) s Q.
Proof using HL.
  intros Hm He Hok Herr. apply runs_bind, runs_lift. destruct (ensure_finite q) as [[]|e]; [|by apply Herr].
  apply runs_bind. intros w n r s' n' Ha _ E. pose proof (index_search_rows ns q k w n s r s' n' Ha He E) as Hs. exists None. split; [done|].
  destruct r as [hits|e]; [|by apply Herr]. destruct Hs as [Hsm Hse]. apply runs_fill_in; [by rewrite Hsm| |].
  - intros found. rewrite Hsm. by apply Hok.
  - intros e. by apply Herr.
Qed.

Lemma runs_search_ranked q k s (Q : option nat -> result (list (MemoryEntry * f32)) MemoryError -> Stores I -> Prop) :
  permanent (memories s) -> permanent (embeddings s) ->
  (forall found s', same_rows s s' -> Forall (fun h => from_row (memories s) (fst h)) found -> (length found <= k)%nat -> Q None (Ok found) s') ->
  (forall e s', same_rows s s' -> Q None (Err e) s') -> runs None (search_ranked ns q k) s Q.
Proof using HL.
  intros Hm He Hok Herr. apply runs_clock. intros now. apply runs_bind, runs_search; [done|done| |by auto].
  intros found s' Hs Hf. apply runs_ret, Hok; [done| |apply firstn_le_length].
  apply Forall_take. unfold rank. rewrite merge_sort_Permutation. by apply Forall_fmap.
Qed.
End Found.

(** *** Invariants of the engine *)

Section Attempts.
Context {I : Type} {inv : Stores I -> Prop}.
Abbreviation M := (Sql.M (Stores I) MemoryError).
Abbreviation yields := (Runs.yields inv).
Abbreviation keeps m := (yields m (fun _ => True)).

Lemma keeps_attempt {A} (m : M A) (Q : A -> Prop) : yields m Q -> keeps (attempt m).
Proof using. intros Hm s Hs. apply runs_attempt. eapply runs_weaken; [by apply Hm|]. by intros _ r s' [? _]. Qed.

Lemma yields_or_undo {A} (m : M A) (undo : M unit) (Q : A -> Prop) : yields m Q -> keeps undo -> yields (or_undo m undo) Q.
Proof using.
  intros Hm Hu. eapply yields_bind; [by apply yields_tried|]. intros [a|e] HQ; [by apply yields_ret|].
  eapply yields_bind; [exact Hu|]. intros. apply yields_fail.
Qed.

Lemma yields_lenient read (Q : option value -> Prop) : yields read Q -> Q None -> yields (get_lenient read) Q.
Proof using.
  intros Hr HN. eapply yields_bind; [by apply yields_tried|]. intros [v|e] HQ; [by apply yields_ret|].
  destruct e; by (apply yields_ret || apply yields_fail).
Qed.
End Attempts.

(** *** Remembering writes its own rows only *)

Section OwnRuns.
Context {I : Type} `{HL : IndexLaws I} `{Unicode} `{Digest} `{Power} (ns : MemoryNamespace) (d : str) (s0 : Stores I).
Abbreviation M := (Sql.M (Stores I) MemoryError).
Abbreviation h := (sha256_hex d).
Abbreviation mine := (own ns d (memories s0)).
Context (h_slash : slash ∉ h).

Definition kept (s : Stores I) : Prop :=
  ours ns d (memories s0) (memories s) /\ permanent (embeddings s) /\
  forall k, ~ own_key (memories s0) ns h k -> embeddings s !! k = embeddings s0 !! k.

Abbreviation yields := (Runs.yields kept).
Abbreviation keeps m := (yields m (fun _ => True)).

(** Reading changes nothing; what is read is what the table holds. *)
Lemma yields_get_memory key (Q : option value -> Prop) :
  (forall s v, kept s -> row_at (memories s) key = Ok v -> Q v) -> yields (get_memory key) Q.
Proof using.
  intros HQ s Hs. apply runs_get_memory; [apply Hs| |done]. split; [done|]. destruct (row_at (memories s) key) eqn:E; [by eapply HQ|done].
Qed.

Lemma keeps_get_embedding key : keeps (get_embedding key).
Proof using. intros s Hs. apply runs_get_embedding; [apply Hs| |done]. split; [done|]. by destruct (row_at _ _). Qed.

Lemma keeps_list_memories prefix : keeps (list_memories prefix).
Proof using. intros s Hs. by apply runs_list_memories. Qed.

(** Writing one's own rows. *)
Lemma kept_memories s t : kept s -> ours ns d (memories s0) t -> kept (set_memories t s).
Proof using. intros (_ & He & Ho) Ht. done. Qed.

Lemma keeps_put_entry i v :
  mine i -> (forall e d', entry_of_value v = Some e -> entry_dedupe_domain (metadata e) = Some d' -> sha256_hex d' = h) ->
  keeps (set_memory (storage_key ns i) v).
Proof using h_slash.
  intros Hi Hv s Hs. apply runs_set_memory; [|done]. split; [|done]. apply kept_memories; [done|]. apply ours_put_entry; [done|apply Hs|done|done].
Qed.

Lemma keeps_put_signature k i : mine i -> own_signature ns h k -> keeps (set_memory k (VString i)).
Proof using h_slash.
  intros Hi Hk s Hs. apply runs_set_memory; [|done]. split; [|done]. apply kept_memories; [done|]. apply ours_put_signature; [done|apply Hs|done|done].
Qed.

Lemma keeps_delete_memory k : own_key (memories s0) ns h k -> keeps (delete_memory k).
Proof using.
  intros Hk s Hs. apply runs_delete_memory; [|done]. split; [|done]. apply kept_memories; [done|]. apply ours_delete; [apply Hs|done].
Qed.

Lemma own_storage_key i : mine i -> own_key (memories s0) ns h (storage_key ns i).
Proof using. intros Hi. right. eauto. Qed.

Lemma keeps_put_embedding i v : mine i -> keeps (set_embedding (storage_key ns i) v).
Proof using.
  intros Hi s (Hm & He & Ho). apply runs_set_embedding; [|done]. split; [|done]. split; [done|split; [by apply permanent_insert|]].
  intros k Hk. cbn. rewrite lookup_insert_ne; [by apply Ho|]. intros <-. by apply Hk, own_storage_key.
Qed.

Lemma keeps_delete_embedding i : mine i -> keeps (delete_embedding (storage_key ns i)).
Proof using.
  intros Hi s (Hm & He & Ho). apply runs_delete_embedding; [|done]. split; [|done]. split; [done|split; [by apply permanent_delete|]].
  intros k Hk. cbn. rewrite lookup_delete_ne; [by apply Ho|]. intros <-. by apply Hk, own_storage_key.
Qed.

Lemma kept_same_rows s s' : kept s -> same_rows s s' -> kept s'.
Proof using. unfold kept. by intros Hs [-> ->]. Qed.

Lemma keeps_index_add i v : keeps (index_add_node ns i v).
Proof using HL.
  intros s Hs w n r s' n' Ha _ E. exists None. split; [done|]. split; [|by destruct r].
  eapply kept_same_rows; [exact Hs|]. by eapply index_add_rows; [..|exact E]; [done|apply Hs].
Qed.

Lemma keeps_index_remove i : keeps (manager_remove ns i).
Proof using HL.
  intros s Hs w n r s' n' Ha _ E. exists None. split; [done|]. split; [|by destruct r].
  eapply kept_same_rows; [exact Hs|]. by eapply index_remove_rows.
Qed.

(** *** The operations *)

Definition own_entry (v : value) : Prop :=
  forall e d', entry_of_value v = Some e -> entry_dedupe_domain (metadata e) = Some d' -> sha256_hex d' = h.

Lemma own_signature_row e : (forall d', entry_dedupe_domain (metadata e) = Some d' -> sha256_hex d' = h) -> own_signature ns h (signature_row ns e).
Proof using HL.
  intros He. unfold signature_row. destruct (entry_dedupe_domain (metadata e)) as [d'|]; [|by eexists; right].
  eexists. left. unfold sig_key_v2. by rewrite (He d').
Qed.

Lemma yields_own_entry i :
  mine i -> yields (get_lenient (get_memory (storage_key ns i))) (fun raw => forall v, raw = Some v -> own_entry v).
Proof using HL.
  intros Hi. apply yields_lenient; [|done]. apply yields_get_memory. intros s v (Hs & _) Hv x -> e d' He Hd.
  apply (ours_domain _ _ _ _ Hs i); [done|]. unfold domain_at, entry_at. by rewrite Hv, He.
Qed.

Lemma keeps_remove_node i : keeps (remove_node ns i).
Proof using HL.
  eapply yields_bind; [apply yields_tried, keeps_index_remove|]. intros [[]|[]] _; by (apply yields_ret || apply yields_fail).
Qed.

Lemma keeps_forget i : mine i -> keeps (forget ns i).
Proof using HL.
  intros Hi. eapply yields_bind; [by apply yields_own_entry|]. intros raw Hraw. cbv zeta.
  eapply yields_bind; [apply keeps_remove_node|]. intros _ _. eapply yields_bind; [by apply keeps_delete_embedding|]. intros _ _.
  eapply (yields_bind _ _ (fun _ => True)); [|intros _ _; by apply keeps_delete_memory, own_storage_key].
  destruct raw as [v|]; [|by apply yields_ret]. cbn. destruct (entry_of_value v) as [e|] eqn:Ev; cbn; [|by apply yields_ret].
  eapply (yields_bind _ _ (fun _ => True)); [by apply yields_get_memory|]. intros [[]|] _; try by apply yields_ret.
  destruct (str_eqb _ _); [|by apply yields_ret]. apply keeps_delete_memory. left. apply own_signature_row. intros d'. by apply (Hraw v).
Qed.

Lemma yields_scan now keys lowest :
  (forall p, lowest = Some p -> mine (fst p)) -> yields (scan_lowest ns d now keys lowest) (fun o => forall p, o = Some p -> mine (fst p)).
Proof using HL h_slash.
  revert lowest. induction keys as [|key keys IH]; intros lowest Hl; [by apply yields_ret|]. cbn [scan_lowest].
  destruct (strip_prefix (storage_prefix ns) key) as [i|] eqn:Ek; [|by apply IH].
  assert (key = storage_key ns i) as ->.
  { unfold strip_prefix in Ek. destruct (starts_with _ key) eqn:Es; [|done]. injection Ek as <-. apply starts_with_spec in Es as [x ->].
    rewrite drop_app_length. unfold storage_key, storage_prefix. by rewrite <- app_assoc. }
  eapply (yields_bind _ _ (fun raw => entry_in_domain d raw <> None -> mine i)).
  - apply yields_lenient; [|done]. apply yields_get_memory. intros s v (Hs & _) Hv Hd. apply (ours_in_domain ns d _ h_slash _ _ Hs).
    unfold domain_at, entry_at. rewrite Hv. unfold entry_in_domain in Hd. destruct v as [v|]; [|done]. cbn in *. destruct (entry_of_value v) as [e|]; [|done].
    cbn in *. destruct (entry_dedupe_domain (metadata e)) as [d'|]; [|done]. cbn in Hd. destruct (str_eqb d' d) eqn:E; [|done].
    apply str_eqb_eq in E as ->. done.
  - intros raw Hraw. destruct (entry_in_domain d raw) as [e|]; [|by apply IH]. apply IH.
    assert (mine i) as Hi by by apply Hraw. intros p. destruct lowest as [[j x]|]; [|by intros [= <-]].
    destruct (SFltb _ x); [by intros [= <-]|by apply Hl].
Qed.

Definition own_snapshot (snapshot : option EvictedSnapshot) : Prop :=
  forall s, snapshot = Some s -> evicted_namespace s = ns /\ mine (evicted_id s) /\ forall v, entry_raw s = Some v -> own_entry v.

Lemma yields_evict : yields (evict_lowest_in_domain ns d) own_snapshot.
Proof using HL h_slash.
  apply yields_clock. intros now. eapply yields_bind; [apply keeps_list_memories|]. intros keys _.
  eapply yields_bind; [by apply yields_scan|]. intros [[i x]|] Hi; [|by apply yields_ret]. specialize (Hi _ eq_refl). cbn in Hi.
  eapply yields_bind; [by apply yields_own_entry|]. intros raw Hraw.
  eapply (yields_bind _ _ (fun _ => True)); [by apply yields_lenient; [apply keeps_get_embedding|]|]. intros v _.
  eapply yields_bind; [by apply keeps_forget|]. intros _ _. apply yields_ret. by intros s [= <-].
Qed.

Lemma keeps_restore_signature i v : mine i -> own_entry v -> keeps (restore_signature ns i v).
Proof using HL h_slash.
  intros Hi Hv. unfold restore_signature. destruct (entry_of_value v) as [e|] eqn:Ev; [|by apply yields_ret].
  eapply (yields_bind _ _ (fun _ => True)); [eapply yields_weaken; [by apply yields_tried, (yields_get_memory _ (fun _ => True))|done]|].
  intros [[x|]|] _; try by apply yields_ret. eapply keeps_attempt, keeps_put_signature; [done|]. apply own_signature_row. by intros d' ?; eapply Hv.
Qed.

Lemma keeps_readd i v : keeps (match vector_from_value v with Ok vector => attempt (index_add_node ns i vector) | Err _ => ret tt end).
Proof using HL. destruct (vector_from_value v); [by eapply keeps_attempt, keeps_index_add|by apply yields_ret]. Qed.

Lemma keeps_restore snapshot : own_snapshot snapshot -> keeps (restore_evicted snapshot).
Proof using HL h_slash.
  intros Hs. destruct snapshot as [s|]; [|by apply yields_ret]. destruct (Hs s eq_refl) as (Hn & Hi & Hv). cbn. rewrite Hn.
  destruct (entry_raw s) as [raw|]; [|by apply yields_ret].
  eapply yields_bind; [by eapply yields_tried, keeps_put_entry; [..|apply Hv]|]. intros r _. destruct (negb _); [by apply yields_ret|].
  eapply yields_bind; [by apply keeps_restore_signature; [|apply Hv]|]. intros _ _.
  destruct (embedding_raw s) as [vraw|]; [|by apply yields_ret].
  eapply yields_bind; [by apply yields_tried, keeps_put_embedding|]. intros r' _. destruct (negb _); [by apply yields_ret|apply keeps_readd].
Qed.

Definition own_target (target : option (str * str * value * MemoryEntry)) : Prop :=
  forall i key raw e, target = Some (i, key, raw, e) -> key = storage_key ns i /\ mine i /\ own_entry raw.

Lemma yields_target signature : yields (find_dedupe_target ns (sig_key_v2 ns d signature)) own_target.
Proof using HL h_slash.
  eapply (yields_bind _ _ (fun found => forall i, found = Some (VString i) -> mine i)).
  - apply yields_lenient; [|done]. apply yields_get_memory. intros s v (Hs & _) Hv i ->. apply (ours_led ns d _ h_slash _ _ Hs). by eexists.
  - intros [[| | |i| |]|] Hi; try by apply yields_ret. specialize (Hi i eq_refl). eapply yields_bind; [by apply yields_own_entry|].
    intros row Hrow. apply yields_ret. intros j key raw e E. destruct row as [v|]; [|done]. cbn in E.
    destruct (entry_of_value v); [|done]. injection E as <- <- <- <-. split; [done|split; [done|by apply Hrow]].
Qed.

Lemma keeps_undo_refresh i raw previous : mine i -> own_entry raw -> keeps (undo_refresh ns i (storage_key ns i) raw previous).
Proof using HL h_slash.
  intros Hi Hr. eapply yields_bind; [eapply keeps_attempt, keeps_put_entry; [done|apply Hr]|]. intros _ _.
  destruct previous as [v|].
  - eapply yields_bind; [by eapply keeps_attempt, keeps_put_embedding|]. intros _ _. apply keeps_readd.
  - eapply yields_bind; [by eapply keeps_attempt, keeps_delete_embedding|]. intros _ _. eapply keeps_attempt, keeps_index_remove.
Qed.

Lemma keeps_refresh text vector m target : own_target (Some target) -> keeps (refresh ns d text vector m target).
Proof using HL h_slash.
  destruct target as [[[i key] raw] old]. intros Ht. destruct (Ht _ _ _ _ eq_refl) as (-> & Hi & Hr). apply yields_clock. intros now. cbv zeta.
  set (entry := with_metadata _ _).
  eapply (yields_bind _ _ (fun _ => True)); [by apply yields_lenient; [apply keeps_get_embedding|]|]. intros previous _.
  eapply yields_bind; [apply keeps_put_entry; [done|]|intros _ _].
  { intros e d' He. rewrite (entry_value_metadata _ _ He). by intros ->%refreshed_domain. }
  eapply yields_bind; [apply yields_or_undo; [by apply keeps_put_embedding|eapply keeps_attempt, keeps_put_entry; [done|apply Hr]]|]. intros _ _.
  eapply yields_bind; [apply yields_or_undo; [apply keeps_index_add|by apply keeps_undo_refresh]|]. intros _ _. by apply yields_ret.
Qed.

Lemma yields_make_room max : yields (make_room max ns d) own_snapshot.
Proof using HL h_slash.
  eapply (yields_bind _ _ (fun _ => True)).
  { eapply yields_bind; [apply keeps_list_memories|]. intros keys _. by apply yields_ret. }
  intros n _. destruct (max <=? n); [|by apply yields_ret]. eapply yields_bind; [apply yields_evict|]. intros [s|] Hs; [|apply yields_fail].
  by apply yields_ret.
Qed.

(** An id that nobody has a claim on yet. *)
Definition fresh (dr : draw) (signature : str) : Prop :=
  forall now i, generate_memory_id now dr signature = Ok i -> mine i.

Lemma keeps_create max dr text vector m signature :
  fresh dr signature -> keeps (create max dr ns d text vector m signature (sig_key_v2 ns d signature)).
Proof using HL h_slash.
  intros Hf. apply yields_clock. intros now. eapply yields_bind; [apply yields_lift; intros i Ei; exact (Hf _ _ Ei)|]. intros i Hi. cbv zeta.
  set (entry := {| id := i |}). eapply yields_bind; [apply yields_make_room|]. intros evicted Hev.
  pose proof (keeps_restore evicted Hev) as Hrest.
  assert (own_signature ns h (sig_key_v2 ns d signature)) as Hsig by (by eexists; left).
  pose proof (keeps_attempt _ _ (keeps_delete_memory _ (own_storage_key i Hi))) as Hdel.
  pose proof (keeps_attempt _ _ (keeps_delete_embedding i Hi)) as Hdele.
  assert (keeps (attempt (delete_memory (storage_key ns i)) ;;; restore_evicted evicted)) as Hu1 by (by eapply yields_bind).
  assert (keeps (attempt (delete_embedding (storage_key ns i)) ;;; attempt (delete_memory (storage_key ns i)) ;;; restore_evicted evicted)) as Hu2
    by (by eapply yields_bind).
  eapply yields_bind; [apply yields_or_undo; [apply keeps_put_entry; [done|]|done]|intros _ _].
  { intros e d' He. rewrite (entry_value_metadata _ _ He). by intros ->%new_domain. }
  eapply yields_bind; [apply yields_or_undo; [by apply keeps_put_embedding|done]|intros _ _].
  eapply yields_bind; [apply yields_or_undo; [by apply keeps_put_signature|done]|intros _ _].
  eapply yields_bind; [apply yields_or_undo; [apply keeps_index_add|]|intros _ _; by apply yields_ret].
  eapply yields_bind; [eapply keeps_attempt, keeps_index_remove|intros _ _].
  eapply yields_bind; [eapply keeps_attempt, keeps_delete_memory; by left|done].
Qed.

Lemma keeps_remember max dr text vector m :
  fresh dr (content_signature text (namespace_str ns)) -> keeps (remember_in_domain max dr ns d text vector m).
Proof using HL h_slash.
  intros Hf. eapply (yields_bind _ _ (fun _ => True)); [by apply yields_lift|]. intros _ _. cbv zeta.
  eapply yields_bind; [apply yields_target|]. intros [target|] Ht; [by apply keeps_refresh|by apply keeps_create].
Qed.
End OwnRuns.

(** C22: Whatever fails while a domain remembers something: the memories and vectors of
    all other domains and namespaces, and their signature rows, are as they were, and
    the domains stay apart. *)
Theorem domains_are_isolated {I : Type} `{IndexLaws I} `{Unicode} `{Digest} `{Power} max dr ns d text vector m w n (s : Stores I) r s' n' :
  (forall x, slash ∉ sha256_hex x) -> alone w -> permanent (memories s) -> permanent (embeddings s) -> apart (memories s) ->
  (forall now i, generate_memory_id now dr (content_signature text (namespace_str ns)) = Ok i ->
     domain_at (memories s) ns i = None /\ forall h, ~ leads (memories s) ns h i) ->
  remember_in_domain max dr ns d text vector m w n s = (r, s', n') ->
  apart (memories s') /\ permanent (memories s') /\ permanent (embeddings s') /\
  (forall ns' d' i, (ns' <> ns \/ sha256_hex d' <> sha256_hex d) -> ns' <> ns \/ domain_at (memories s) ns' i = Some d' ->
     memories s' !! storage_key ns' i = memories s !! storage_key ns' i /\
     embeddings s' !! storage_key ns' i = embeddings s !! storage_key ns' i) /\
  (forall ns' d' signature, (ns' <> ns \/ sha256_hex d' <> sha256_hex d) ->
     memories s' !! sig_key_v2 ns' d' signature = memories s !! sig_key_v2 ns' d' signature).
Proof.
  intros Hd Hw Hpm Hpe Ha Hf E.
  assert (kept ns d s s) as Hk.
  { split; [|done]. split; [done|done|done|]. intros i d' Hi. by apply Hi. }
  assert (fresh ns d s dr (content_signature text (namespace_str ns))) as Hfresh.
  { intros now i [Hn Hl]%Hf. split; [by rewrite Hn|]. intros h' _ Hx. by apply Hl in Hx. }
  destruct (keeps_remember ns d s (Hd d) max dr text vector m Hfresh s Hk w n r s' n' Hw Logic.I E) as (_ & _ & (Ho & Hp' & He) & _).
  split; [apply Ho|]. split; [apply Ho|]. split; [done|]. split.
  - intros ns' d' i Hne Hi.
    assert (~ own_key (memories s) ns (sha256_hex d) (storage_key ns' i)) as Hn.
    { intros [-> [Hc _]]%own_storage. destruct Hi as [|Hi]; [done|]. destruct Hne as [|Hne]; [done|]. by apply Hne, Hc. }
    split; [by apply Ho|by apply He].
  - intros ns' d' x Hne. apply Ho. intros [-> Hh]%own_sig_key; [|done|done]. by destruct Hne.
Qed.

(** Another domain has remembered the same text.  The domain stores its own copy;
    with no room left it is refused, and does not take the room of the other. *)
Lemma domains_are_isolated_witness :
  let U := ascii_tables in
  let D := {| sha256_hex s := List.filter (fun c => negb (c =? slash)%N) s |} : Digest in
  let P := {| powf x _ := x |} : Power in
  let text := lit "Use tabs." in
  let sig := sig_key_v2 Code (lit "a") (content_signature text (lit "code")) in
  let key := storage_key Code (lit "m") in
  let e := {| id := lit "m"; content := text; namespace := Code; metadata := json [("dedupe_domain", VString (lit "a"))]; created_at := 7 |} in
  let t : Rows := <[key := stored (entry_value e)]> (<[sig := stored (VString (lit "m"))]> ∅) in
  let c := {| dimension := 1; distance_metric := Cosine; graph_m := 16; graph_ef := 50 |} in
  let s := {| memories := t; embeddings := <[key := stored (vector_to_value [f32_of_Z 1])]> ∅; hnsw_cache := ∅;
              indexes := <[Code := Pending c]> ∅ |} : Stores LinearVectorIndex in
  let out max := remember_in_domain max (0%N, Some [1; 2]%N) Code (lit "b") text [f32_of_Z 1] VNull (quiet 9) 0%nat s in
  is_ok (out 2).1.1 = true /\ (out 1).1.1 = Err no_room /\
  forall max, apart (memories (out max).1.2) /\ memories (out max).1.2 !! key = memories s !! key /\ memories (out max).1.2 !! sig = memories s !! sig.
Proof.
  intros U D P text sig key e t c s out. split; [vm_compute; reflexivity|]. split; [vm_compute; reflexivity|]. intros max.
  assert (forall x, slash ∉ sha256_hex x) as Hd.
  { intros x Hx%list_elem_of_In%List.filter_In. destruct Hx as [_ Hx]. discriminate Hx. }
  assert (permanent t) as Hp by (apply permanent_insert, permanent_insert; intros k x Hx; by rewrite lookup_empty in Hx).
  assert (permanent (embeddings s)) as Hv by (apply permanent_insert; intros k x Hx; by rewrite lookup_empty in Hx).
  assert (forall ns h i, (slash ∉ h) -> leads t ns h i -> ns = Code /\ h = lit "a" /\ i = lit "m") as Hl.
  { intros ns h i Hh (x & Hx). unfold row_at in Hx. destruct (t !! sig_key_h ns h x) as [r|] eqn:E; [|discriminate Hx]. unfold t in E.
    apply lookup_insert_Some in E as [[E _]|[_ E]]; [exfalso; symmetry in E; by destruct ns|].
    apply lookup_insert_Some in E as [[E <-]|[_ E]]; [|by rewrite lookup_empty in E]. injection Hx as <-.
    apply (sig_key_h_inj Code ns (lit "a") h) in E as (<- & <- & _); [done| |done]. apply (Hd (lit "a")). }
  assert (domain_at t Code (lit "m") = Some (lit "a")) as Hm by (vm_compute; reflexivity).
  assert (apart t) as Ha.
  { split; [|intros ns h h' i Hh Hh' (_ & -> & _)%Hl (_ & -> & _)%Hl; done]. intros ns h i d Hh (-> & -> & ->)%Hl Hdom; [|done].
    rewrite Hm in Hdom. by injection Hdom as <-. }
  assert (out max = ((out max).1.1, (out max).1.2, (out max).2)) as E by (by destruct (out max) as [[? ?] ?]).
  assert (forall now i, generate_memory_id now (0%N, Some [1; 2]%N) (content_signature text (namespace_str Code)) = Ok i ->
    domain_at (memories s) Code i = None /\ forall h, ~ leads (memories s) Code h i) as Hf.
  { intros now i [= <-]. split.
    - unfold domain_at, entry_at, row_at, s, memories, t. rewrite lookup_insert_ne by (by intros [_ Hi]%storage_key_inj).
      rewrite lookup_insert_ne; [by rewrite lookup_empty|done].
    - intros h (x & Hx). unfold row_at in Hx. destruct (memories s !! sig_key_h Code h x) as [r|] eqn:Er; [|discriminate Hx].
      unfold s, memories, t in Er. apply lookup_insert_Some in Er as [[Er _]|[_ Er]]; [discriminate Er|].
      apply lookup_insert_Some in Er as [[_ <-]|[_ Er]]; [|by rewrite lookup_empty in Er]. discriminate Hx. }
  destruct (domains_are_isolated max (0%N, Some [1; 2]%N) Code (lit "b") text [f32_of_Z 1] VNull (quiet 9) 0%nat s (out max).1.1 (out max).1.2
    (out max).2 Hd (alone_quiet 9) Hp Hv Ha Hf E) as (Ha' & _ & _ & Hrow & Hsig).
  split; [exact Ha'|]. split; [|apply (Hsig Code (lit "a")); right; discriminate].
  apply (Hrow Code (lit "a") (lit "m")); [right; discriminate|right; exact Hm].
Defined.

Lemma sig_key_v2_ne `{Digest} ns d x ns' i : sig_key_v2 ns d x <> storage_key ns' i.
Proof.
  intros E. symmetry in E. by apply (storage_key_not_sig ns' i (lit "v2/" ++ namespace_str ns ++ lit "/" ++ sha256_hex d ++ lit "/" ++ x)).
Qed.

(** ** The same content is one memory

    What holds when an operation reports success. *)

Section Successes.
Context {I : Type} `{HL : IndexLaws I} `{Unicode} `{Digest} `{Power} (ns : MemoryNamespace).
Abbreviation M := (Sql.M (Stores I) MemoryError).

Definition lasting (s : Stores I) : Prop := permanent (memories s) /\ permanent (embeddings s).

Definition oks {A} (m : M A) (s : Stores I) (Q : A -> Stores I -> Prop) : Prop :=
  runs None m s (fun _ r s' => match r with Ok a => Q a s' | Err _ => True end).

Lemma oks_weaken {A} (m : M A) s (Q R : A -> Stores I -> Prop) : oks m s Q -> (forall a s', Q a s' -> R a s') -> oks m s R.
Proof using. intros Hm HQ. eapply runs_weaken; [exact Hm|]. intros _ [a|e] s' ?; auto. Qed.

Lemma oks_ret {A} (a : A) s (Q : A -> Stores I -> Prop) : Q a s -> oks (ret a) s Q.
Proof using. intros HQ. by apply runs_ret. Qed.

Lemma oks_lift {A} (x : result A MemoryError) s (Q : A -> Stores I -> Prop) : (forall a, x = Ok a -> Q a s) -> oks (lift x) s Q.
Proof using. intros HQ. apply runs_lift. destruct x; auto. Qed.

Lemma oks_bind {A B} (m : M A) (k : A -> M B) s (Q : A -> Stores I -> Prop) (R : B -> Stores I -> Prop) :
  oks m s Q -> (forall a s', Q a s' -> oks (k a) s' R) -> oks (bind m k) s R.
Proof using.
  intros Hm Hk. apply runs_bind. eapply runs_weaken; [exact Hm|]. intros b [a|e] s' HQ; [|done].
  intros w n r s'' n' Ha _. by apply (Hk a s' HQ w n).
Qed.

Lemma oks_clock {A} (k : Z -> M A) s (Q : A -> Stores I -> Prop) : (forall now, oks (k now) s Q) -> oks (with_clock k) s Q.
Proof using. intros Hk. by apply runs_clock. Qed.

(** A success of what has an undo is its own success. *)
Lemma oks_or_undo {A} (m : M A) undo s (Q : A -> Stores I -> Prop) : oks m s Q -> oks (or_undo m undo) s Q.
Proof using.
  intros Hm. apply runs_bind, runs_tried. eapply runs_weaken; [exact Hm|]. intros b [a|e] s' HQ; [by apply runs_ret|].
  intros w n r s2 n' Ha _ E. exists None. split; [done|]. revert E. unfold bind. destruct (undo w n s') as [[[[]|?] ?] ?]; by intros [= <- _ _].
Qed.

Lemma oks_get_memory key s (Q : option value -> Stores I -> Prop) :
  lasting s -> (forall v, row_at (memories s) key = Ok v -> Q v s) -> oks (get_memory key) s Q.
Proof using. intros [Hp _] HQ. apply runs_get_memory; [done| |done]. destruct (row_at _ _); auto. Qed.

Lemma oks_get_embedding key s (Q : option value -> Stores I -> Prop) : lasting s -> (forall v, Q v s) -> oks (get_embedding key) s Q.
Proof using. intros [_ Hp] HQ. apply runs_get_embedding; [done| |done]. destruct (row_at _ _); auto. Qed.

Lemma oks_lenient read s (Q : option value -> Stores I -> Prop) :
  runs None read s (fun _ r s' => match r with Ok v => Q v s' | Err (Serialization _) => Q None s' | _ => True end) -> oks (get_lenient read) s Q.
Proof using. intros Hr. apply runs_lenient. eapply runs_weaken; [exact Hr|]. by intros _ [v|[]] s' HQ. Qed.

Lemma oks_lenient_memory key s (Q : option value -> Stores I -> Prop) :
  lasting s -> Q (match row_at (memories s) key with Ok v => v | Err _ => None end) s -> oks (get_lenient (get_memory key)) s Q.
Proof using.
  intros [Hp _] HQ. apply oks_lenient, runs_get_memory; [done| |done]. destruct (row_at _ _) as [v|e] eqn:E; [done|].
  by destruct (row_at_error _ _ _ E) as [x ->].
Qed.

Lemma oks_lenient_embedding key s (Q : option value -> Stores I -> Prop) : lasting s -> (forall v, Q v s) -> oks (get_lenient (get_embedding key)) s Q.
Proof using.
  intros [_ Hp] HQ. apply oks_lenient, runs_get_embedding; [done| |done]. destruct (row_at _ _) as [v|e] eqn:E; [done|].
  destruct (row_at_error _ _ _ E) as [x ->]. apply HQ.
Qed.

Lemma oks_set_memory key v s (Q : unit -> Stores I -> Prop) : Q tt (set_memories (<[key := stored v]> (memories s)) s) -> oks (set_memory key v) s Q.
Proof using. intros HQ. by apply runs_set_memory. Qed.

Lemma oks_set_embedding key v s (Q : unit -> Stores I -> Prop) :
  Q tt (set_embeddings (<[key := stored v]> (embeddings s)) s) -> oks (set_embedding key v) s Q.
Proof using. intros HQ. by apply runs_set_embedding. Qed.


Lemma oks_index_add i v s (Q : unit -> Stores I -> Prop) :
  lasting s -> (forall s', same_rows s s' -> Q tt s') -> oks (index_add_node ns i v) s Q.
Proof using HL.
  intros [_ He] HQ w n r s' n' Ha _ E. exists None. split; [done|]. destruct r as [[]|]; [|done]. by eapply HQ, index_add_rows.
Qed.

Lemma lasting_rows s s' : lasting s -> same_rows s s' -> lasting s'.
Proof using. unfold lasting. by intros Hs [-> ->]. Qed.

Abbreviation lasts m := (forall s, lasting s -> oks m s (fun _ s' => lasting s')).

Lemma lasts_remove_node i : lasts (remove_node ns i).
Proof using HL.
  intros s Hs. apply (oks_bind _ _ _ (fun _ s' => lasting s')).
  - apply runs_tried. intros w n r s' n' Ha _ E. exists None. split; [done|]. eapply lasting_rows; [exact Hs|]. by eapply index_remove_rows.
  - intros [[]|[]] s' Hs'; by (apply oks_ret || apply runs_fail).
Qed.

Lemma lasts_delete_memory key : lasts (delete_memory key).
Proof using. intros s [Hm He]. apply runs_delete_memory; [|done]. split; [by apply permanent_delete|done]. Qed.

Lemma lasts_forget i : lasts (forget ns i).
Proof using HL.
  intros s Hs. apply (oks_bind _ _ _ (fun _ s' => lasting s')); [by apply oks_lenient_memory|]. clear s Hs. intros raw s Hs. cbv zeta.
  apply (oks_bind _ _ _ (fun _ s' => lasting s')); [by apply lasts_remove_node|]. clear s Hs. intros _ s Hs.
  apply (oks_bind _ _ _ (fun _ s' => lasting s')).
  { destruct Hs as [Hm He]. apply runs_delete_embedding; [|done]. split; [done|by apply permanent_delete]. }
  clear s Hs. intros _ s Hs. apply (oks_bind _ _ _ (fun _ s' => lasting s')); [|intros _ s' Hs'; by apply lasts_delete_memory].
  destruct (signature_row ns <$> _) as [skey|]; [|by apply oks_ret].
  apply (oks_bind _ _ _ (fun _ s' => lasting s')); [by apply oks_get_memory|]. clear s Hs. intros [[| | |x| |]|] s Hs; try by apply oks_ret.
  destruct (str_eqb _ _); [by apply lasts_delete_memory|by apply oks_ret].
Qed.

Lemma lasts_scan domain now keys lowest : lasts (scan_lowest ns domain now keys lowest).
Proof using.
  revert lowest. induction keys as [|key keys IH]; intros lowest s Hs; [by apply oks_ret|]. cbn [scan_lowest].
  destruct (strip_prefix _ key); [|by apply IH]. apply (oks_bind _ _ _ (fun _ s' => lasting s')); [by apply oks_lenient_memory|].
  intros raw s' Hs'. destruct (entry_in_domain domain raw); by apply IH.
Qed.

Lemma lasts_list prefix : lasts (list_memories prefix).
Proof using. intros s Hs. by apply runs_list_memories. Qed.

Lemma lasts_make_room max domain : lasts (make_room max ns domain).
Proof using HL.
  intros s Hs. apply (oks_bind _ _ _ (fun _ s' => lasting s')).
  { apply (oks_bind _ _ _ (fun _ s' => lasting s')); [by apply lasts_list|]. intros keys s' Hs'. by apply oks_ret. }
  clear s Hs. intros n s Hs. destruct (max <=? n); [|by apply oks_ret].
  apply (oks_bind _ _ _ (fun _ s' => lasting s')); [|intros [x|] s' Hs'; by (apply oks_ret || apply runs_fail)].
  apply oks_clock. intros now. apply (oks_bind _ _ _ (fun _ s' => lasting s')); [by apply lasts_list|]. clear s Hs. intros keys s Hs.
  apply (oks_bind _ _ _ (fun _ s' => lasting s')); [by apply lasts_scan|]. clear s Hs. intros [[i x]|] s Hs; [|by apply oks_ret].
  apply (oks_bind _ _ _ (fun _ s' => lasting s')); [by apply oks_lenient_memory|]. clear s Hs. intros raw s Hs.
  apply (oks_bind _ _ _ (fun _ s' => lasting s')); [by apply oks_lenient_embedding|]. clear s Hs. intros v s Hs.
  apply (oks_bind _ _ _ (fun _ s' => lasting s')); [by apply lasts_forget|]. intros _ s' Hs'. by apply oks_ret.
Qed.

(** *** What a success leaves behind *)

(** The rows of a memory that a signature row leads to. *)
Definition remembered (skey i : str) (e : MemoryEntry) (vector : list f32) (s : Stores I) : Prop :=
  row_at (memories s) skey = Ok (Some (VString i)) /\ row_at (memories s) (storage_key ns i) = Ok (Some (entry_value e)) /\
  row_at (embeddings s) (storage_key ns i) = Ok (Some (vector_to_value vector)).

Lemma row_at_insert t k v : row_at (<[k := stored v]> t) k = Ok (Some v).
Proof using. unfold row_at. by rewrite lookup_insert_eq. Qed.

Lemma row_at_insert_ne t k k' v : k <> k' -> row_at (<[k := stored v]> t) k' = row_at t k'.
Proof using. intros Hn. unfold row_at. by rewrite lookup_insert_ne. Qed.

Lemma oks_then_memory {B} key v undo (k : unit -> M B) s R :
  oks (k tt) (set_memories (<[key := stored v]> (memories s)) s) R -> oks (bind (or_undo (set_memory key v) undo) k) s R.
Proof using.
  intros Hk. apply (oks_bind _ _ _ (fun _ s' => s' = set_memories (<[key := stored v]> (memories s)) s)); [by apply oks_or_undo, oks_set_memory|].
  by intros [] s' ->.
Qed.

Lemma oks_then_embedding {B} key v undo (k : unit -> M B) s R :
  oks (k tt) (set_embeddings (<[key := stored v]> (embeddings s)) s) R -> oks (bind (or_undo (set_embedding key v) undo) k) s R.
Proof using.
  intros Hk. apply (oks_bind _ _ _ (fun _ s' => s' = set_embeddings (<[key := stored v]> (embeddings s)) s)); [by apply oks_or_undo, oks_set_embedding|].
  by intros [] s' ->.
Qed.

(** The index comes last. *)
Lemma oks_finish (A : Type) i v undo s (a : A) (Q : A -> Stores I -> Prop) :
  lasting s -> (forall s', same_rows s s' -> Q a s') -> oks (bind (or_undo (index_add_node ns i v) undo) (fun _ => ret a)) s Q.
Proof using HL.
  intros Hs HQ. apply (oks_bind _ _ _ (fun _ s' => same_rows s s')); [by apply oks_or_undo, oks_index_add|]. intros _ s' Hs'. by apply oks_ret, HQ.
Qed.

Lemma oks_create max dr domain text vector m signature skey s :
  lasting s -> (forall i, skey <> storage_key ns i) ->
  oks (create max dr ns domain text vector m signature skey) s
    (fun e s' => lasting s' /\ remembered skey (id e) e vector s' /\ content e = text /\
      (attributable m -> entry_dedupe_domain (metadata e) = Some domain)).
Proof using HL.
  intros Hs Hsk. apply oks_clock. intros now.
  apply (oks_bind _ _ _ (fun _ s' => s' = s)); [by apply oks_lift|]. intros i s' ->. cbv zeta. set (entry := {| id := i |}).
  apply (oks_bind _ _ _ (fun _ s' => lasting s')); [by apply lasts_make_room|]. clear s Hs. intros evicted s [Hm He].
  apply oks_then_memory, oks_then_embedding, oks_then_memory, oks_finish.
  - split; [by apply permanent_insert, permanent_insert|by apply permanent_insert].
  - intros s' Hs'. split; [|split; [|split; [done|apply new_has_domain]]].
    + eapply lasting_rows; [|exact Hs']. split; [by apply permanent_insert, permanent_insert|by apply permanent_insert].
    + destruct Hs' as [Hm' He']. unfold remembered. rewrite Hm', He'. cbn [memories embeddings set_memories set_embeddings id].
      rewrite !row_at_insert, row_at_insert_ne, row_at_insert by apply Hsk. done.
Qed.

Lemma oks_refresh domain text vector m i raw old s :
  lasting s ->
  oks (refresh ns domain text vector m (i, storage_key ns i, raw, old)) s
    (fun e s' => lasting s' /\ id e = id old /\ created_at e = created_at old /\ content e = text /\
      (attributable m -> entry_dedupe_domain (metadata e) = Some domain) /\
      memories s' = <[storage_key ns i := stored (entry_value e)]> (memories s) /\
      embeddings s' = <[storage_key ns i := stored (vector_to_value vector)]> (embeddings s)).
Proof using HL.
  intros Hs. apply oks_clock. intros now. cbv zeta. set (entry := with_metadata _ _).
  apply (oks_bind _ _ _ (fun _ s' => s' = s)); [by apply oks_lenient_embedding|]. intros previous s' ->.
  apply (oks_bind _ _ _ (fun _ s' => s' = set_memories (<[storage_key ns i := stored (entry_value entry)]> (memories s)) s)); [by apply oks_set_memory|].
  intros [] s' ->. destruct Hs as [Hm He].
  apply oks_then_embedding, oks_finish.
  - split; by apply permanent_insert.
  - intros s' Hs'. split; [eapply lasting_rows; [|exact Hs']; split; by apply permanent_insert|].
    destruct Hs' as [-> ->]. split_and!; try done. apply refreshed_has_domain.
Qed.

(** The memory that the signature row leads to, if there is one that can be read. *)
Definition target_of (skey : str) (s : Stores I) : option (str * MemoryEntry) :=
  match row_at (memories s) skey with
  | Ok (Some (VString i)) => (fun e => (i, e)) <$> entry_at (memories s) (storage_key ns i)
  | _ => None
  end.

Lemma oks_target skey s : lasting s ->
  oks (find_dedupe_target ns skey) s (fun target s' => s' = s /\
    match target with
    | Some (i, key, raw, e) => key = storage_key ns i /\ target_of skey s = Some (i, e)
    | None => target_of skey s = None
    end).
Proof using.
  intros Hs.
  apply (oks_bind _ _ _ (fun found s' => s' = s /\ found = match row_at (memories s) skey with Ok v => v | Err _ => None end)); [by apply oks_lenient_memory|].
  intros found s' [-> ->]. unfold target_of. destruct (row_at (memories s) skey) as [[[| | |i| |]|]|]; try by apply oks_ret.
  apply (oks_bind _ _ _ (fun row s' => s' = s /\ row = match row_at (memories s) (storage_key ns i) with Ok v => v | Err _ => None end)); [by apply oks_lenient_memory|].
  intros row s' [-> ->]. apply oks_ret. split; [done|]. unfold entry_at. destruct (row_at _ (storage_key ns i)) as [[v|]|]; cbn; [|done..].
  by destruct (entry_of_value v).
Qed.

Lemma oks_remember max dr domain text vector m s :
  let skey := sig_key_v2 ns domain (content_signature text (namespace_str ns)) in
  lasting s ->
  oks (remember_in_domain max dr ns domain text vector m) s
    (fun e s' => lasting s' /\ content e = text /\ (attributable m -> entry_dedupe_domain (metadata e) = Some domain) /\
      match target_of skey s with
      | Some (i, old) => id e = id old /\ created_at e = created_at old /\
          memories s' = <[storage_key ns i := stored (entry_value e)]> (memories s) /\
          embeddings s' = <[storage_key ns i := stored (vector_to_value vector)]> (embeddings s)
      | None => remembered skey (id e) e vector s'
      end).
Proof using HL.
  intros skey Hs. apply (oks_bind _ _ _ (fun _ s' => s' = s)); [by apply oks_lift|]. intros [] s' ->. cbv zeta. fold skey.
  eapply oks_bind; [by apply oks_target|]. intros [[[[i key] raw] old]|] s' [-> Ht].
  - destruct Ht as [-> ->]. eapply oks_weaken; [by apply oks_refresh|]. by intros e s' (? & ? & ? & ? & ? & ? & ?).
  - rewrite Ht. eapply oks_weaken; [apply oks_create; [done|]|by intros e s' (? & ? & ? & ?)].
    intros i. apply sig_key_v2_ne.
Qed.
End Successes.

Lemma remembered_after {I : Type} `{IndexLaws I} `{Digest} ns d x e vector (s s1 : Stores I) :
  let skey := sig_key_v2 ns d x in
  match target_of ns skey s with
  | Some (i, old) => id e = id old /\ created_at e = created_at old /\
      memories s1 = <[storage_key ns i := stored (entry_value e)]> (memories s) /\
      embeddings s1 = <[storage_key ns i := stored (vector_to_value vector)]> (embeddings s)
  | None => remembered ns skey (id e) e vector s1
  end -> exists i, remembered ns skey i e vector s1.
Proof.
  intros skey Hr. destruct (target_of ns skey s) as [[i old]|] eqn:E; [|by eexists]. destruct Hr as (_ & _ & Hm1 & He1). exists i.
  unfold target_of in E. destruct (row_at (memories s) skey) as [[[| | |j| |]|]|] eqn:Er; try done.
  destruct (entry_at _ _); [|done]. injection E as <- _. unfold remembered. rewrite Hm1, He1, !row_at_insert, row_at_insert_ne; [done|].
  apply not_eq_sym, sig_key_v2_ne.
Qed.

Lemma entry_round_trip e : created_at e <= i64_max -> entry_of_value (entry_value e) = Some e.
Proof.
  intros Ht. transitivity (ns ← namespace_of_value (VString (namespace_str (namespace e))); t ← i64_of_value (value_of_i64 (created_at e));
    Some {| id := id e; content := content e; namespace := ns; metadata := metadata e; created_at := t |}); [reflexivity|].
  rewrite i64_round_trip by done. destruct e as [i c ns m t]. by destruct ns.
Qed.

(** C23: In one domain the same content is one memory: whatever failed on the way, when
    something was remembered and then something with the same signature is, the
    second replaces text and vector of the first under its id and touches no other
    row. *)
Theorem same_content_is_one_memory {I : Type} `{IndexLaws I} `{Unicode} `{Digest} `{Power}
    max dr ns d text vector m w n (s : Stores I) e s1 n1 max' dr' text' vector' m' w' n' e' s2 n2 :
  let skey := sig_key_v2 ns d (content_signature text (namespace_str ns)) in
  alone w -> alone w' -> permanent (memories s) -> permanent (embeddings s) ->
  remember_in_domain max dr ns d text vector m w n s = (Ok e, s1, n1) -> created_at e <= i64_max ->
  content_signature text' (namespace_str ns) = content_signature text (namespace_str ns) ->
  remember_in_domain max' dr' ns d text' vector' m' w' n' s1 = (Ok e', s2, n2) ->
  exists i, remembered ns skey i e vector s1 /\ remembered ns skey i e' vector' s2 /\
    content e = text /\ content e' = text' /\ id e' = id e /\ created_at e' = created_at e /\
    forall k, k <> storage_key ns i -> memories s2 !! k = memories s1 !! k /\ embeddings s2 !! k = embeddings s1 !! k.
Proof.
  intros skey Hw Hw' Hm He E1 Ht Hsame E2.
  destruct (oks_remember ns max dr d text vector m s (conj Hm He) w n _ _ _ Hw Logic.I E1) as (_ & _ & Hs1 & Hc & _ & Hr1). fold skey in Hr1.
  destruct (remembered_after _ _ _ _ _ _ _ Hr1) as [i Hi]. fold skey in Hi.
  destruct (oks_remember ns max' dr' d text' vector' m' s1 Hs1 w' n' _ _ _ Hw' Logic.I E2) as (_ & _ & _ & Hc' & _ & Hr2). rewrite Hsame in Hr2. fold skey in Hr2.
  pose proof Hi as (R1 & R2 & _). unfold target_of, entry_at in Hr2. rewrite R1, R2, entry_round_trip in Hr2 by done. destruct Hr2 as (Hid & Hct & Hm2 & He2).
  exists i. split; [done|]. split.
  { unfold remembered. rewrite Hm2, He2, !row_at_insert, row_at_insert_ne; [done|]. apply not_eq_sym, sig_key_v2_ne. }
  split_and!; try done. intros k Hk. rewrite Hm2, He2. by rewrite !lookup_insert_ne by done.
Qed.

(** The same words with other case, spaces and punctuation. *)
Lemma same_content_is_one_memory_witness :
  let U := ascii_tables in let D := {| sha256_hex s := s |} : Digest in let P := {| powf x _ := x |} : Power in
  let c := {| dimension := 1; distance_metric := Cosine; graph_m := 16; graph_ef := 50 |} in
  let s := {| memories := ∅; embeddings := ∅; hnsw_cache := ∅; indexes := <[Code := Pending c]> ∅ |} : Stores LinearVectorIndex in
  let first := remember_in_domain 9 (0%N, Some [1; 2]%N) Code (lit "a") (lit "Use tabs.") [f32_of_Z 1] VNull (quiet 7) 0%nat s in
  let again := remember_in_domain 9 (1%N, Some [3; 4]%N) Code (lit "a") (lit "use  TABS") [f32_of_Z 2] VNull (quiet 8) 0%nat first.1.2 in
  exists e e', first.1.1 = Ok e /\ again.1.1 = Ok e' /\ id e' = id e /\ created_at e' = 7 /\ content e' = lit "use  TABS" /\
    (size (memories first.1.2), size (memories again.1.2)) = (2%nat, 2%nat).
Proof.
  intros U D P c s first again.
  assert (is_ok first.1.1 = true) as Ok1 by (vm_compute; reflexivity). assert (is_ok again.1.1 = true) as Ok2 by (vm_compute; reflexivity).
  assert (size (memories first.1.2) = 2%nat /\ size (memories again.1.2) = 2%nat) as [-> ->] by (split; vm_compute; reflexivity).
  assert (match again.1.1 with Ok e => created_at e = 7 /\ content e = lit "use  TABS" | Err _ => False end) as Hr by (vm_compute; split; reflexivity).
  assert (match first.1.1 with Ok e => created_at e <= i64_max | Err _ => False end) as Ht by (vm_compute; discriminate).
  assert (forall A B C (x : A * B * C), x = (x.1.1, x.1.2, x.2)) as Hx by (intros A B C [[? ?] ?]; reflexivity).
  pose proof (Hx _ _ _ first) as E1. pose proof (Hx _ _ _ again) as E2.
  destruct first.1.1 as [e|]; [|discriminate Ok1]. destruct again.1.1 as [e'|]; [|discriminate Ok2]. exists e, e'.
  assert (permanent (∅ : Rows)) as Hp by (intros k x Hk; by rewrite lookup_empty in Hk).
  assert (content_signature (lit "use  TABS") (namespace_str Code) = content_signature (lit "Use tabs.") (namespace_str Code)) as Hsig
    by (vm_compute; reflexivity).
  destruct (same_content_is_one_memory _ _ _ _ _ _ _ _ _ s e first.1.2 first.2 _ _ _ _ _ _ _ e' again.1.2 again.2
    (alone_quiet 7) (alone_quiet 8) Hp Hp E1 Ht Hsig E2) as (i & _ & _ & _ & _ & Hid & _ & _).
  split_and!; [reflexivity|reflexivity|exact Hid|apply Hr|apply Hr|reflexivity].
Defined.

(** ** Forgetting undoes remembering *)

(** C21: What was remembered can be forgotten without a trace, whatever fails on the
    way.  After [remember_in_domain] reports success (for metadata that is an object
    or null), the signature row of the content, the row of the memory and its vector
    are there; forgetting the memory, and forgetting it again after every failure,
    until it succeeds, deletes exactly these two rows and the vector and takes the
    node out of a loaded index.  No other row, and no other namespace's index,
    changes, and the content is unknown again. *)
Theorem forgetting_is_complete {I : Type} `{IndexLaws I} `{Unicode} `{Digest} `{Power}
    max dr ns d text vector m w n (s : Stores I) e s1 n1 f :
  let skey := sig_key_v2 ns d (content_signature text (namespace_str ns)) in
  alone w -> permanent (memories s) -> permanent (embeddings s) -> attributable m ->
  remember_in_domain max dr ns d text vector m w n s = (Ok e, s1, n1) -> created_at e <= i64_max -> stands ns f s1 ->
  exists i, remembered ns skey i e vector s1 /\
    forall s2, forgotten ns i s1 s2 ->
      memories s2 = delete (storage_key ns i) (delete skey (memories s1)) /\
      embeddings s2 = delete (storage_key ns i) (embeddings s1) /\
      stands ns (fun c => delete i (f c)) s2 /\ (forall ns', ns' <> ns -> indexes s2 !! ns' = indexes s1 !! ns') /\
      target_of ns skey s2 = None.
Proof.
  intros skey Hw Hm He Hatt E Ht Hst.
  destruct (oks_remember ns max dr d text vector m s (conj Hm He) w n _ _ _ Hw Logic.I E) as (_ & _ & Hs1 & Hc & Hd & Hr). fold skey in Hr.
  specialize (Hd Hatt). destruct (remembered_after _ _ _ _ _ _ _ Hr) as [i Hi]. fold skey in Hi. exists i. split; [done|]. intros s2 Hf.
  destruct (forgotten_rows ns i f s1 s2 (proj1 Hs1) (proj2 Hs1) (or_introl Hst) Hf) as (Q1 & Q2 & Q3 & Q4).
  pose proof Hi as (R1 & R2 & _).
  assert (without_signature ns i (memories s1) = delete skey (memories s1)) as Hsig.
  { unfold without_signature, entry_at. rewrite R2, entry_round_trip by done. unfold signature_row. rewrite Hd, Hc. fold skey.
    rewrite R1. by rewrite str_eqb_refl. }
  rewrite Hsig in Q1. split_and!; try done. unfold target_of. rewrite Q1. unfold row_at.
  rewrite lookup_delete_ne by (apply not_eq_sym, sig_key_v2_ne). by rewrite lookup_delete_eq.
Qed.

(** The fourth command of the first attempt fails; the second attempt succeeds. *)
Lemma forgetting_is_complete_witness :
  let U := ascii_tables in let D := {| sha256_hex s := s |} : Digest in let P := {| powf x _ := x |} : Power in
  let c := {| dimension := 1; distance_metric := Cosine; graph_m := 16; graph_ef := 50 |} in
  let s := {| memories := ∅; embeddings := ∅; hnsw_cache := ∅; indexes := <[Code := Pending c]> ∅ |} : Stores LinearVectorIndex in
  let known := remember_in_domain 9 (0%N, Some [1; 2]%N) Code (lit "a") (lit "Use tabs.") [f32_of_Z 1] VNull (quiet 7) 0%nat s in
  let i := match known.1.1 with Ok e => id e | Err _ => [] end in
  let w := (fun n => {| clock := 0; fault := (n =? 3)%nat; others := fun s => s |}) : nat -> moment (Stores LinearVectorIndex) in
  let first := forget Code i w 0%nat known.1.2 in
  let again := forget Code i w first.2 first.1.2 in
  size (memories known.1.2) = 2%nat /\ first.1.1 = Err (internal "storage") /\ again.1.1 = Ok tt /\
  exists key skey, memories again.1.2 = delete key (delete skey (memories known.1.2)) /\ map_to_list (memories again.1.2) = [].
Proof.
  intros U D P c s known i w first again.
  assert (is_ok known.1.1 = true) as Ok1 by (vm_compute; reflexivity).
  assert (first.1.1 = Err (internal "storage")) as Hr1 by (vm_compute; reflexivity).
  assert (again.1.1 = Ok tt) as Hr2 by (vm_compute; reflexivity).
  assert (size (memories known.1.2) = 2%nat) as Hsize by (vm_compute; reflexivity).
  assert (map_to_list (memories again.1.2) = []) as Hempty by (vm_compute; reflexivity).
  assert (match known.1.1 with Ok e => created_at e <= i64_max | Err _ => False end) as Ht by (vm_compute; discriminate).
  assert (row_at (memories known.1.2) (sig_key_v2 Code (lit "a") (content_signature (lit "Use tabs.") (namespace_str Code))) = Ok (Some (VString i)))
    as Hrow by (vm_compute; reflexivity).
  assert (forall (A B C : Type) (x : A * B * C), x = (x.1.1, x.1.2, x.2)) as Hx by (intros A B C [[? ?] ?]; reflexivity).
  pose proof (Hx _ _ _ first) as E1. pose proof (Hx _ _ _ again) as E2. rewrite Hr1 in E1. rewrite Hr2 in E2.
  assert (permanent (∅ : Rows)) as Hp by (intros k x Hk; by rewrite lookup_empty in Hk).
  assert (stands Code (fun _ => row_vectors c Code (embeddings known.1.2)) known.1.2) as Hst.
  { assert (indexes known.1.2 !! Code = Some (Pending c)) as Hl by (vm_compute; reflexivity). unfold stands. rewrite Hl. exact Logic.I. }
  pose proof (Hx _ _ _ known) as E. destruct known.1.1 as [e|] eqn:Ee; [|discriminate Ok1].
  destruct (forgetting_is_complete 9 (0%N, Some [1; 2]%N) Code (lit "a") (lit "Use tabs.") [f32_of_Z 1] VNull (quiet 7) 0%nat s e known.1.2 known.2
    (fun _ => row_vectors c Code (embeddings known.1.2)) (alone_quiet 7) Hp Hp Logic.I E Ht Hst) as (j & Hj & Hall).
  split_and!; [exact Hsize|exact Hr1|exact Hr2|]. eexists _, _. split; [|exact Hempty].
  assert (j = i) as -> by (destruct Hj as (Hj & _); rewrite Hrow in Hj; by injection Hj).
  apply Hall. eapply forgotten_later; [|exact E1|eapply forgotten_now; [|exact E2]]; intros n x; reflexivity.
Defined.

(** ** What holds of every entry

    A predicate [P] that the entries of a namespace satisfy, and one [E] of their
    vectors, that an incoming record satisfies as a new entry and as a refreshment of
    an old one. *)

Section Every.
Context {I : Type} `{HL : IndexLaws I} `{Unicode} `{Digest} `{Power} (ns : MemoryNamespace) (P : MemoryEntry -> Prop) (E : value -> Prop).
Abbreviation M := (Sql.M (Stores I) MemoryError).

Definition every (s : Stores I) : Prop :=
  permanent (memories s) /\ permanent (embeddings s) /\
  (forall i e, entry_at (memories s) (storage_key ns i) = Some e -> P e) /\
  (forall i v, row_at (embeddings s) (storage_key ns i) = Ok (Some v) -> E v).

Abbreviation yields := (Runs.yields every).
Abbreviation keeps m := (yields m (fun _ => True)).

Definition good_raw (v : value) : Prop := forall e, entry_of_value v = Some e -> P e.

Lemma every_same_rows s s' : every s -> same_rows s s' -> every s'.
Proof using. unfold every. by intros Hs [-> ->]. Qed.

Lemma every_get_entry i : yields (get_memory (storage_key ns i)) (fun raw => forall v, raw = Some v -> good_raw v).
Proof using.
  intros s (Hm & He & Hp & Hv). apply runs_get_memory; [done| |done]. split; [done|]. destruct (row_at _ _) as [raw|] eqn:Er; [|done].
  intros v -> e Hx. apply (Hp i). unfold entry_at. by rewrite Er.
Qed.

Lemma every_get key : keeps (get_memory key).
Proof using. intros s (Hm & Hs). apply runs_get_memory; [done| |done]. split; [done|]. by destruct (row_at _ _). Qed.

Lemma every_get_vector i : yields (get_embedding (storage_key ns i)) (fun raw => forall v, raw = Some v -> E v).
Proof using.
  intros s (Hm & He & Hp & Hv). apply runs_get_embedding; [done| |done]. split; [done|]. destruct (row_at _ _) as [raw|] eqn:Er; [|done].
  intros v ->. by apply (Hv i).
Qed.

Lemma every_get_embedding key : keeps (get_embedding key).
Proof using. intros s (Hm & He & Hs). apply runs_get_embedding; [done| |done]. split; [done|]. by destruct (row_at _ _). Qed.

Lemma every_list prefix : keeps (list_memories prefix).
Proof using. intros s Hs. by apply runs_list_memories. Qed.

Lemma every_put_entry i v : good_raw v -> keeps (set_memory (storage_key ns i) v).
Proof using.
  intros Hg s (Hm & He & Hp & Hv). apply runs_set_memory; [|done]. split; [|done]. split; [by apply permanent_insert|split; [done|split; [|done]]].
  intros j e. cbn. unfold entry_at, row_at. destruct (decide (storage_key ns i = storage_key ns j)) as [<-|Hn].
  - rewrite lookup_insert_eq. cbn. apply Hg.
  - rewrite lookup_insert_ne by done. apply Hp.
Qed.

Lemma every_put_other k v : (forall i, k <> storage_key ns i) -> keeps (set_memory k v).
Proof using.
  intros Hk s (Hm & He & Hp & Hv). apply runs_set_memory; [|done]. split; [|done]. split; [by apply permanent_insert|split; [done|split; [|done]]].
  intros j e. cbn. unfold entry_at, row_at. rewrite lookup_insert_ne by done. apply Hp.
Qed.

Lemma every_delete k : keeps (delete_memory k).
Proof using.
  intros s (Hm & He & Hp & Hv). apply runs_delete_memory; [|done]. split; [|done]. split; [by apply permanent_delete|split; [done|split; [|done]]].
  intros j e. cbn. unfold entry_at, row_at. rewrite lookup_delete. destruct (decide _); [done|]. apply Hp.
Qed.

Lemma every_put_vector i v : E v -> keeps (set_embedding (storage_key ns i) v).
Proof using.
  intros Hx s (Hm & He & Hp & Hv). apply runs_set_embedding; [|done]. split; [|done]. split; [done|split; [by apply permanent_insert|split; [done|]]].
  intros j x. cbn. unfold row_at. destruct (decide (storage_key ns i = storage_key ns j)) as [<-|Hn].
  - rewrite lookup_insert_eq. cbn. by intros [= <-].
  - rewrite lookup_insert_ne by done. apply Hv.
Qed.

Lemma every_put_embedding_other k v : (forall i, k <> storage_key ns i) -> keeps (set_embedding k v).
Proof using.
  intros Hk s (Hm & He & Hp & Hv). apply runs_set_embedding; [|done]. split; [|done]. split; [done|split; [by apply permanent_insert|split; [done|]]].
  intros j x. cbn. unfold row_at. rewrite lookup_insert_ne by done. apply Hv.
Qed.

Lemma every_delete_embedding k : keeps (delete_embedding k).
Proof using.
  intros s (Hm & He & Hp & Hv). apply runs_delete_embedding; [|done]. split; [|done]. split; [done|split; [by apply permanent_delete|split; [done|]]].
  intros j x. cbn. unfold row_at. rewrite lookup_delete. destruct (decide _); [done|]. apply Hv.
Qed.

Lemma every_index_add ns' i v : keeps (index_add_node ns' i v).
Proof using HL.
  intros s Hs w n r s' n' Ha _ Er. exists None. split; [done|]. split; [|by destruct r]. eapply every_same_rows; [exact Hs|].
  eapply index_add_rows; [exact Ha|apply Hs|exact Er].
Qed.

Lemma every_index_remove ns' i : keeps (manager_remove ns' i).
Proof using HL.
  intros s Hs w n r s' n' Ha _ Er. exists None. split; [done|]. split; [|by destruct r]. eapply every_same_rows; [exact Hs|]. by eapply index_remove_rows.
Qed.

Lemma every_then {A B} (m : M A) (k : M B) : keeps m -> keeps k -> keeps (bind m (fun _ => k)).
Proof using. intros Hm Hk. by eapply yields_bind. Qed.

Lemma every_attempt {A} (m : M A) : keeps m -> keeps (attempt m).
Proof using. apply keeps_attempt. Qed.

Lemma every_lenient read : keeps read -> keeps (get_lenient read).
Proof using. intros Hr. by apply yields_lenient. Qed.

Create HintDb every discriminated.
#[local] Hint Resolve every_get every_get_embedding every_list every_put_entry every_delete every_put_vector every_delete_embedding every_index_add
  every_index_remove every_attempt every_then every_lenient : every.

Lemma every_lenient_entry i : yields (get_lenient (get_memory (storage_key ns i))) (fun raw => forall v, raw = Some v -> good_raw v).
Proof using. by apply yields_lenient; [apply every_get_entry|]. Qed.

Lemma every_lenient_vector i : yields (get_lenient (get_embedding (storage_key ns i))) (fun raw => forall v, raw = Some v -> E v).
Proof using. by apply yields_lenient; [apply every_get_vector|]. Qed.

Lemma every_remove_node ns' i : keeps (remove_node ns' i).
Proof using HL.
  eapply yields_bind; [apply yields_tried, every_index_remove|]. intros [[]|[]] _; by (apply yields_ret || apply yields_fail).
Qed.

Lemma every_forget_signature k i : keeps (forget_signature k i).
Proof using.
  eapply yields_bind; [apply every_get|]. intros [[]|] _; try by apply yields_ret. destruct (str_eqb _ _); [auto with every|by apply yields_ret].
Qed.

(** Forgetting, in whatever namespace, only takes rows away. *)
Lemma every_forget ns' i : keeps (forget ns' i).
Proof using HL.
  eapply yields_bind; [apply every_lenient, every_get|]. intros raw _. cbv zeta. apply every_then; [apply every_remove_node|].
  apply every_then; [auto with every|]. apply every_then; [|auto with every]. destruct (_ <$> _); [apply every_forget_signature|by apply yields_ret].
Qed.

Lemma every_search ns' q k : keeps (search ns' q k).
Proof using HL.
  intros s Hs. apply runs_search; [apply Hs|apply Hs|..]; intros; split; try done; by eapply every_same_rows.
Qed.

Lemma every_count ns' : keeps (count ns').
Proof using. eapply yields_bind; [apply every_list|]. intros keys _. by apply yields_ret. Qed.

Lemma every_scan d now keys lowest : keeps (scan_lowest ns d now keys lowest).
Proof using.
  revert lowest. induction keys as [|key keys IH]; intros lowest; [by apply yields_ret|]. cbn [scan_lowest].
  destruct (strip_prefix _ key); [|apply IH]. eapply yields_bind; [apply every_lenient, every_get|]. intros raw _.
  destruct (entry_in_domain d raw); apply IH.
Qed.

Definition good_snapshot (snapshot : option EvictedSnapshot) : Prop :=
  forall x, snapshot = Some x ->
    evicted_namespace x = ns /\ (forall v, entry_raw x = Some v -> good_raw v) /\ (forall v, embedding_raw x = Some v -> E v).

Lemma every_evict d : yields (evict_lowest_in_domain ns d) good_snapshot.
Proof using HL.
  apply yields_clock. intros now. eapply yields_bind; [apply every_list|]. intros keys _. eapply yields_bind; [apply every_scan|].
  intros [[i x]|] _; [|by apply yields_ret]. eapply yields_bind; [apply every_lenient_entry|]. intros raw Hraw.
  eapply yields_bind; [apply every_lenient_vector|]. intros v Hv.
  eapply yields_bind; [apply every_forget|]. intros _ _. apply yields_ret. by intros y [= <-].
Qed.

Lemma every_readd i v : keeps (match vector_from_value v with Ok vector => attempt (index_add_node ns i vector) | Err _ => ret tt end).
Proof using HL. destruct (vector_from_value v); [auto with every|by apply yields_ret]. Qed.

Lemma every_restore snapshot : good_snapshot snapshot -> keeps (restore_evicted snapshot).
Proof using HL.
  intros Hs. destruct snapshot as [x|]; [|by apply yields_ret]. destruct (Hs x eq_refl) as (Hn & Hv & He). cbn. rewrite Hn.
  destruct (entry_raw x) as [raw|]; [|by apply yields_ret].
  eapply yields_bind; [by apply yields_tried, every_put_entry, Hv|]. intros r _. destruct (negb _); [by apply yields_ret|].
  apply every_then.
  - unfold restore_signature. destruct (entry_of_value raw) as [e|]; [|by apply yields_ret].
    eapply yields_bind; [apply yields_tried, every_get|]. intros [[?|]|?] _; try by apply yields_ret.
    apply every_attempt, every_put_other. intros j. apply signature_row_ne.
  - destruct (embedding_raw x) as [vraw|]; [|by apply yields_ret]. eapply yields_bind; [by apply yields_tried, every_put_vector, He|].
    intros r' _. destruct (negb _); [by apply yields_ret|apply every_readd].
Qed.

Definition good_target (target : option (str * str * value * MemoryEntry)) : Prop :=
  forall i key raw e, target = Some (i, key, raw, e) -> key = storage_key ns i /\ good_raw raw /\ P e.

Lemma every_target skey : yields (find_dedupe_target ns skey) good_target.
Proof using.
  eapply yields_bind; [apply every_lenient, every_get|]. intros found _. destruct found as [[| | |i| |]|]; try by apply yields_ret.
  eapply yields_bind; [apply every_lenient_entry|]. intros row Hrow. apply yields_ret. intros j key raw e Er. destruct row as [v|]; [|done]. cbn in Er.
  destruct (entry_of_value v) eqn:Ev; [|done]. injection Er as <- <- <- <-. split; [done|split; [by apply Hrow|by eapply Hrow]].
Qed.

(** What is decoded from the row of an entry. *)
Context (decoded : forall e e', entry_of_value (entry_value e) = Some e' -> P e -> P e').

Lemma every_update i m : (forall e, P e -> P (with_metadata m e)) -> keeps (update_metadata ns i m).
Proof using decoded.
  intros Hm. eapply yields_bind; [apply every_get_entry|]. intros raw Hraw.
  eapply (yields_bind _ _ (fun v => good_raw v)); [apply yields_some; intros v ->; by apply Hraw|]. intros v Hv.
  eapply (yields_bind _ _ P); [apply yields_some; by apply Hv|]. intros e He. apply every_put_entry. intros e' He'. eapply decoded; [done|]. by apply Hm.
Qed.

Context (d text : str) (m : value) (vector : list f32).
Context (refreshes : forall old merged now, P old -> P (with_metadata (refreshed_metadata (metadata old) m merged d now) (with_content text old))).
Context (creates : forall i now, P {| id := i; content := text; namespace := ns; metadata := new_metadata m d; created_at := now |}).
Context (fits : E (vector_to_value vector)).

Lemma every_undo_refresh i raw previous : good_raw raw -> (forall v, previous = Some v -> E v) -> keeps (undo_refresh ns i (storage_key ns i) raw previous).
Proof using HL.
  intros Hr Hv. apply every_then; [auto with every|]. destruct previous as [v|]; (apply every_then; [auto with every|]); [apply every_readd|auto with every].
Qed.

Lemma every_refresh target : good_target (Some target) -> keeps (refresh ns d text vector m target).
Proof using HL refreshes decoded fits.
  destruct target as [[[i key] raw] old]. intros Ht. destruct (Ht _ _ _ _ eq_refl) as (-> & Hr & Hp). apply yields_clock. intros now. cbv zeta.
  set (entry := with_metadata _ _). assert (P entry) as Hentry by by apply refreshes.
  eapply yields_bind; [apply every_lenient_vector|]. intros previous Hprev.
  apply every_then; [apply every_put_entry; intros e He; by eapply decoded|].
  apply every_then; [apply yields_or_undo; auto with every|].
  apply every_then; [apply yields_or_undo; [apply every_index_add|by apply every_undo_refresh]|by apply yields_ret].
Qed.

Lemma every_make_room max : yields (make_room max ns d) good_snapshot.
Proof using HL.
  eapply (yields_bind _ _ (fun _ => True)); [apply every_count|].
  intros n _. destruct (max <=? n); [|by apply yields_ret]. eapply yields_bind; [apply every_evict|]. intros [x|] Hx; [|apply yields_fail].
  by apply yields_ret.
Qed.

Lemma every_create max dr signature : keeps (create max dr ns d text vector m signature (sig_key_v2 ns d signature)).
Proof using HL creates decoded fits.
  apply yields_clock. intros now. eapply (yields_bind _ _ (fun _ => True)); [by apply yields_lift|]. intros i _. cbv zeta.
  set (entry := {| id := i |}). eapply yields_bind; [apply every_make_room|]. intros evicted Hev. pose proof (every_restore evicted Hev) as Hrest.
  apply every_then; [apply yields_or_undo; [apply every_put_entry; intros e He; eapply decoded; [exact He|apply creates]|done]|].
  apply every_then; [apply yields_or_undo; auto with every|].
  apply every_then; [apply yields_or_undo; [apply every_put_other; intros j; apply sig_key_v2_ne|auto with every]|].
  apply every_then; [apply yields_or_undo; auto 8 with every|by apply yields_ret].
Qed.

Lemma every_remember max dr : keeps (remember_in_domain max dr ns d text vector m).
Proof using HL refreshes creates decoded fits.
  eapply (yields_bind _ _ (fun _ => True)); [by apply yields_lift|]. intros _ _. cbv zeta.
  eapply yields_bind; [apply every_target|]. intros [target|] Ht; [by apply every_refresh|apply every_create].
Qed.

(** Entries of other namespaces are no concern. *)
Lemma every_insert_other max ns' i t v x : ns' <> ns -> keeps (insert_with_id max ns' i t v x).
Proof using HL.
  intros Hn. assert (forall j, storage_key ns' i <> storage_key ns j) as Hk by (intros j [Hx _]%storage_key_inj; done).
  assert (forall y, keeps (set_memory (storage_key ns' i) y)) as Hput by (intros y; by apply every_put_other).
  assert (forall y, keeps (set_embedding (storage_key ns' i) y)) as Hpute by (intros y; by apply every_put_embedding_other).
  eapply (yields_bind _ _ (fun _ => True)); [by apply yields_lift|]. intros _ _. cbv zeta.
  eapply yields_bind; [apply every_get|]. intros previous _.
  assert (keeps (undo_insert ns' (storage_key ns' i) previous)) as Hundo by (destruct previous; cbn; auto with every).
  apply every_then.
  { destruct previous; [by apply yields_ret|]. eapply yields_bind; [apply every_count|]. intros c _. unfold guard_else.
    destruct (_ <? _); [by apply yields_ret|apply yields_fail]. }
  apply yields_clock. intros now. cbv zeta. eapply yields_bind; [apply every_get_embedding|]. intros previous_vector _.
  apply every_then; [apply Hput|]. apply every_then; [by apply yields_or_undo|].
  apply every_then; [|by apply yields_ret]. apply yields_or_undo; [apply every_index_add|]. apply every_then; [done|].
  destruct previous_vector as [raw|]; (apply every_then; [auto with every|]); [|auto with every].
  destruct (vector_from_value raw); [auto with every|by apply yields_ret].
Qed.
End Every.

(** ** Forgetting, row by row *)

Section ForgetRows.
Context {I : Type} `{HL : IndexLaws I} `{Unicode} `{Digest} `{Power} (ns : MemoryNamespace) (i : str) (s0 : Stores I).
Abbreviation M := (Sql.M (Stores I) MemoryError).
Abbreviation key := (storage_key ns i).

(** The other memories are as they were. *)
Definition others_stay (s : Stores I) : Prop :=
  permanent (memories s) /\ permanent (embeddings s) /\
  forall ns' j, storage_key ns' j <> key -> memories s !! storage_key ns' j = memories s0 !! storage_key ns' j /\
                                            embeddings s !! storage_key ns' j = embeddings s0 !! storage_key ns' j.

Lemma others_stay_sig s k : others_stay s -> (forall ns' j, k <> storage_key ns' j) -> others_stay (set_memories (delete k (memories s)) s).
Proof using.
  intros (Hm & He & Ho) Hk. split; [by apply permanent_delete|split; [done|]]. intros ns' j Hn. cbn. rewrite lookup_delete_ne by apply Hk. by apply Ho.
Qed.

Lemma runs_forget_rows : permanent (memories s0) -> permanent (embeddings s0) ->
  runs None (forget ns i) s0 (fun _ r s => others_stay s /\ match r with
    | Ok _ => memories s !! key = None /\ embeddings s !! key = None
    | Err _ => memories s !! key = memories s0 !! key
    end).
Proof using HL.
  intros Hm He. apply runs_bind, runs_lenient, runs_get_memory; [done| |by intros; split; [split|]].
  assert (forall o : option value, runs None (let signature_key := signature_row ns <$> (o ≫= entry_of_value) in
      remove_node ns i ;;; delete_embedding key ;;;
      match signature_key with Some skey => forget_signature skey i | None => ret tt end ;;; delete_memory key) s0
    (fun _ r s => others_stay s /\ match r with
      | Ok _ => memories s !! key = None /\ embeddings s !! key = None
      | Err _ => memories s !! key = memories s0 !! key
      end)) as Hrest.
  2:{ destruct (row_at (memories s0) key) as [o|e] eqn:E; [by apply Hrest|]. destruct (row_at_error _ _ _ E) as [x ->]. by apply Hrest. }
  intros o. cbv zeta. apply runs_bind, runs_bind, runs_tried. intros w n r s1 n1 Ha _ E. destruct (index_remove_rows ns i w n s0 r s1 n1 E) as [Hm1 He1].
  assert (others_stay s1) as H1' by (unfold others_stay; by rewrite Hm1, He1).
  exists None. split; [done|]. assert (runs None (delete_embedding key ;;;
      match signature_row ns <$> (o ≫= entry_of_value) with Some skey => forget_signature skey i | None => ret tt end ;;; delete_memory key) s1
    (fun _ r s => others_stay s /\ match r with
      | Ok _ => memories s !! key = None /\ embeddings s !! key = None
      | Err _ => memories s !! key = memories s0 !! key
      end)) as Hx.
  2:{ destruct r as [[]|e]; [by apply runs_ret|]. destruct e; try (apply runs_fail; split; [done|by rewrite Hm1]); by apply runs_ret. }
  clear E. apply runs_bind, runs_delete_embedding; [|intros _; split; [done|by rewrite Hm1]]. set (s2 := set_embeddings _ s1).
  assert (others_stay s2) as H2'.
  { destruct H1' as (? & ? & Ho). split; [done|split; [by apply permanent_delete|]]. intros ns' j Hn. cbn. rewrite lookup_delete_ne by done. by apply Ho. }
  assert (embeddings s2 !! key = None) as Hn2 by apply lookup_delete_eq. assert (memories s2 !! key = memories s0 !! key) as Hk2 by (cbn; by rewrite Hm1).
  assert (forall s, others_stay s -> embeddings s !! key = None -> memories s !! key = memories s0 !! key -> runs None (delete_memory key) s
    (fun _ r s => others_stay s /\ match r with
      | Ok _ => memories s !! key = None /\ embeddings s !! key = None
      | Err _ => memories s !! key = memories s0 !! key
      end)) as Hlast.
  { intros s (Hp & Hpe & Ho) Hn Hk. apply runs_delete_memory; [|done]. split; [|split; [apply lookup_delete_eq|done]].
    split; [by apply permanent_delete|split; [done|]]. intros ns' j Hne. cbn. rewrite lookup_delete_ne by done. by apply Ho. }
  apply runs_bind. destruct (o ≫= entry_of_value) as [e|]; cbn [fmap option_fmap option_map]; [|by apply runs_ret, Hlast].
  assert (forall ns' j, signature_row ns e <> storage_key ns' j) as Hsig by (intros; apply signature_row_ne).
  apply runs_bind, runs_get_memory; [apply H2'| |done]. destruct (row_at _ _) as [found|x]; [|done].
  destruct found as [[| | |y| |]|]; try by apply runs_ret, Hlast. destruct (str_eqb y i); [|by apply runs_ret, Hlast].
  apply runs_delete_memory; [|done]. apply Hlast; [by apply others_stay_sig|done|]. cbn. rewrite lookup_delete_ne by apply Hsig. done.
Qed.
End ForgetRows.
