(* ===== verification/MemoryStores.v ===== *)
(** * The shared stores of the memory services ([memory/stores.rs])

    A [Host] is what the operations of a memory service and of a document store work
    on: the engine with its tables, the general rows and the rows of documents, which
    all sessions share, and the context of the service itself, which its host may
    change between two of its steps.

    The engine is behind a mutex: [engine_locked] is a region that holds it, in which
    others leave the engine alone, and [on_engine] one operation of the engine in
    such a region.  What others do to the general rows while the engine works is
    seen by the next command on those rows.  (The code drops the epoch of a session
    that no service holds any more; here it is kept.)  The other gates of the code serialise
    services among themselves; here the others are whatever a [moment] says.

    A model is a pair of functions of the moment: the vector of a text, or why there
    is none, and the answer to a prompt. *)

From Stdlib Require Import SpecFloat.
From S2P Require Import Prelude JsonValue Messages Sql Kv Runs Vectors VectorIndex VectorManager MemoryEngine.

Open Scope string_scope.
Open Scope list_scope.
Open Scope Z_scope.
Open Scope sql_scope.

Record MemoryContext := { project_key : str; session_id : str; owner_key : str; team_id : option str }.

#[export] Instance memory_context_eq_dec : EqDecision MemoryContext.
Proof. solve_decision. Defined.

(** The stores, and the service that works on them: its context, the name of the
    extraction state it holds, and the last error. *)
Record Host (I : Type) := {
  shared : Stores I; kv : Rows; documents : Rows; revision : Z; epochs : gmap str Z;
  context : MemoryContext; extraction_session : str; last_error : option str
}.
Arguments shared {I} h.
Arguments kv {I} h.
Arguments documents {I} h.
Arguments revision {I} h.
Arguments epochs {I} h.
Arguments context {I} h.
Arguments extraction_session {I} h.
Arguments last_error {I} h.

Section Host.
Context {I : Type}.

Definition set_shared (x : Stores I) (h : Host I) : Host I :=
  {| shared := x; kv := kv h; documents := documents h; revision := revision h; epochs := epochs h; context := context h;
     extraction_session := extraction_session h; last_error := last_error h |}.
Definition set_kv (x : Rows) (h : Host I) : Host I :=
  {| shared := shared h; kv := x; documents := documents h; revision := revision h; epochs := epochs h; context := context h;
     extraction_session := extraction_session h; last_error := last_error h |}.
Definition set_documents (x : Rows) (h : Host I) : Host I :=
  {| shared := shared h; kv := kv h; documents := x; revision := revision h; epochs := epochs h; context := context h;
     extraction_session := extraction_session h; last_error := last_error h |}.
Definition set_revision (x : Z) (h : Host I) : Host I :=
  {| shared := shared h; kv := kv h; documents := documents h; revision := x; epochs := epochs h; context := context h;
     extraction_session := extraction_session h; last_error := last_error h |}.
Definition set_epochs (x : gmap str Z) (h : Host I) : Host I :=
  {| shared := shared h; kv := kv h; documents := documents h; revision := revision h; epochs := x; context := context h;
     extraction_session := extraction_session h; last_error := last_error h |}.
Definition set_context (x : MemoryContext) (session : str) (h : Host I) : Host I :=
  {| shared := shared h; kv := kv h; documents := documents h; revision := revision h; epochs := epochs h; context := x;
     extraction_session := session; last_error := last_error h |}.
Definition set_last_error (x : option str) (h : Host I) : Host I :=
  {| shared := shared h; kv := kv h; documents := documents h; revision := revision h; epochs := epochs h; context := context h;
     extraction_session := extraction_session h; last_error := x |}.

(** The table of memories, read without the lock of the engine. *)
Definition memory_rows (h : Host I) : Rows := memories (shared h).
Definition set_memory_rows (x : Rows) (h : Host I) : Host I := set_shared (set_memories x (shared h)) h.
End Host.

Section Locks.
Context {I : Type}.
Abbreviation M := (Sql.M (Host I) MemoryError).

(** Holding the lock of the engine. *)
Definition engine_held (w : nat -> moment (Host I)) : nat -> moment (Host I) := fun n =>
  {| clock := clock (w n); fault := fault (w n); others := fun h => set_shared (shared h) (others (w n) h) |}.

Definition engine_locked {A} (m : M A) : M A := fun w n h => m (engine_held w) n (others (w n) h).

(** An operation of the engine, by the one who holds its lock. *)
Definition unshared (w : nat -> moment (Host I)) : nat -> moment (Stores I) := fun n =>
  {| clock := clock (w n); fault := fault (w n); others := fun s => s |}.

Definition engine {A} (m : Sql.M (Stores I) MemoryError A) : M A := fun w n h =>
  let '(r, s, n') := m (unshared w) n (shared h) in (r, set_shared s h, n').

Definition on_engine {A} (m : Sql.M (Stores I) MemoryError A) : M A := engine_locked (engine m).

(** Looking at and changing what is no table. *)
Definition look {A} (f : Host I -> A) : M A := fun _ n h => (Ok (f h), h, n).
Definition change (f : Host I -> Host I) : M unit := fun _ n h => (Ok tt, f h, n).

(** Waiting for a gate: the others run. *)
Definition acquire : M unit := fun w n h => (Ok tt, others (w n) h, Datatypes.S n).

Definition ctx : M MemoryContext := look context.
Definition bump_revision : M unit := change (fun h => set_revision (u64_wrap (revision h + 1)) h).

Definition epoch_of (session : str) (h : Host I) : Z := default 0 (epochs h !! session).
Definition bump_epoch (session : str) : M unit :=
  change (fun h => set_epochs (<[session := u64_wrap (epoch_of session h + 1)]> (epochs h)) h).

(** Commands on the general rows, on documents, and on memories beside the engine. *)
Definition get_kv (key : str) : M (option value) := kv_get kv set_kv key.
Definition put_kv (key : str) (v : value) : M unit := kv_set kv set_kv key v None.
Definition delete_kv (key : str) : M unit := kv_delete kv set_kv key.
Definition get_document (key : str) : M (option value) := kv_get documents set_documents key.
Definition put_document (key : str) (v : value) : M unit := kv_set documents set_documents key v None.
Definition delete_document (key : str) : M unit := kv_delete documents set_documents key.
Definition list_documents (prefix : str) : M (list str) := kv_list_prefix documents set_documents prefix.
Definition peek_memory (key : str) : M (option value) := kv_get memory_rows set_memory_rows key.
Definition peek_memories (prefix : str) : M (list str) := kv_list_prefix memory_rows set_memory_rows prefix.

(** [let _ = m.await] *)
Definition ignore {A} (m : M A) : M unit := caught (E' := MemoryError) m ;;; ret tt.

(** A read for which a row that cannot be decoded counts as missing. *)
Definition forgiving (read : M (option value)) : M (option value) :=
  found <- tried read ;;
  match found with Ok v => ret v | Err (Serialization _) => ret None | Err e => fail e end.
End Locks.

(** ** Structs as values

    What serde derives for a struct reads an object by its fields, or an array in
    their order. *)

Definition struct_fields (names : list string) (v : value) : option value :=
  match v with
  | VObject _ => Some v
  | VArray items => if (length items =? length names)%nat then Some (VObject (object_of (zip names items))) else None
  | _ => None
  end.

(** A list of strings. *)
Definition strings_of_value (v : value) : option (list str) := items ← as_array v; mapM as_str items.
Definition strings_value (l : list str) : value := VArray (VString <$> l).

(** ** The model *)

Record Models := { embed : nat -> str -> result (list f32) str; complete : nat -> str -> result (option str) str }.

Definition embedding {I} (models : Models) (text : str) : Sql.M (Host I) MemoryError (list f32) := fun _ n h =>
  (match embed models n text with Ok v => Ok v | Err e => Err (Storage (lit "embedding failed: " ++ e)) end, h, n).

(** The last complete message of the stream, if there is one. *)
Definition completion {I} (models : Models) (prompt : str) : Sql.M (Host I) MemoryError (option str) := fun _ n h =>
  (match complete models n prompt with Ok v => Ok v | Err e => Err (Storage (lit "extraction model request failed: " ++ e)) end, h, n).

(** ** Reasoning *)

Section HostRuns.
Context {I : Type}.
Abbreviation M := (Sql.M (Host I) MemoryError).

Lemma set_shared_same (h : Host I) : set_shared (shared h) h = h.
Proof using. by destruct h. Qed.
Lemma set_kv_same (h : Host I) : set_kv (kv h) h = h.
Proof using. by destruct h. Qed.
Lemma set_documents_same (h : Host I) : set_documents (documents h) h = h.
Proof using. by destruct h. Qed.
Lemma set_memory_rows_same (h : Host I) : set_memory_rows (memory_rows h) h = h.
Proof using. destruct h as [s]. by destruct s. Qed.

Lemma alone_held (w : nat -> moment (Host I)) : alone w -> alone (engine_held w).
Proof using. intros Hw n h. cbn. rewrite Hw. apply set_shared_same. Qed.

(** The budget of failures is that of the moments, whatever they are moments of. *)
Lemma within_same {S T} (w : nat -> moment S) (w' : nat -> moment T) n b : (forall m, fault (w' m) = fault (w m)) -> within w n b -> within w' n b.
Proof using. intros Hf. destruct b as [k|]; [|done]. intros (l & Hl & Hw). exists l. split; [done|]. intros m Hm. rewrite Hf. by apply Hw. Qed.

Lemma runs_engine {A} b (m : Sql.M (Stores I) MemoryError A) h (Q : option nat -> result A MemoryError -> Host I -> Prop) :
  runs b m (shared h) (fun b' r s => Q b' r (set_shared s h)) -> runs b (engine m) h Q.
Proof using.
  intros Hm w n r h' n' Ha Hb. unfold engine. destruct (m (unshared w) n (shared h)) as [[x s] n1] eqn:E. intros [= <- <- <-].
  destruct (Hm (unshared w) n x s n1) as (b' & Hb' & HQ); [done|by eapply within_same|done|]. exists b'. split; [|done]. by eapply within_same.
Qed.

Lemma runs_locked {A} b (m : M A) h Q : runs b m h Q -> runs b (engine_locked m) h Q.
Proof using.
  intros Hm w n r h' n' Ha Hb. unfold engine_locked. rewrite Ha. intros E.
  destruct (Hm (engine_held w) n r h' n') as (b' & Hb' & HQ); [by apply alone_held|by eapply within_same|done|].
  exists b'. split; [|done]. by eapply within_same.
Qed.

Lemma runs_on_engine {A} b (m : Sql.M (Stores I) MemoryError A) h (Q : option nat -> result A MemoryError -> Host I -> Prop) :
  runs b m (shared h) (fun b' r s => Q b' r (set_shared s h)) -> runs b (on_engine m) h Q.
Proof using. intros Hm. by apply runs_locked, runs_engine. Qed.

Lemma runs_look {A} b (f : Host I -> A) h Q : Q b (Ok (f h)) h -> runs b (look f) h Q.
Proof using. intros HQ w n r h' n' Ha Hb [= <- <- <-]. eauto. Qed.

Lemma runs_change b (f : Host I -> Host I) h Q : Q b (Ok tt) (f h) -> runs b (change f) h Q.
Proof using. intros HQ w n r h' n' Ha Hb [= <- <- <-]. eauto. Qed.

Lemma runs_acquire b (h : Host I) Q : Q b (Ok tt) h -> runs b acquire h Q.
Proof using.
  intros HQ w n r h' n' Ha Hb [= <- <- <-]. exists b. rewrite Ha. split; [|done]. by apply (within_later w n); [lia|].
Qed.

Lemma runs_ignore {A} b (m : M A) h (Q : option nat -> result unit MemoryError -> Host I -> Prop) :
  runs b m h (fun b' _ h' => Q b' (Ok tt) h') -> runs b (ignore m) h Q.
Proof using.
  intros Hm w n r h' n' Ha Hb. unfold ignore, bind, caught. destruct (m w n h) as [[x h1] n1] eqn:E. intros [= <- <- <-]. by eapply Hm.
Qed.

Lemma runs_embedding models text b (h : Host I) Q :
  (forall n, Q b (match embed models n text with Ok v => Ok v | Err e => Err (Storage (lit "embedding failed: " ++ e)) end) h) ->
  runs b (embedding models text) h Q.
Proof using. intros HQ w n r h' n' Ha Hb [= <- <- <-]. eauto. Qed.

Lemma runs_completion models prompt b (h : Host I) Q :
  (forall n, Q b (match complete models n prompt with Ok v => Ok v | Err e => Err (Storage (lit "extraction model request failed: " ++ e)) end) h) ->
  runs b (completion models prompt) h Q.
Proof using. intros HQ w n r h' n' Ha Hb [= <- <- <-]. eauto. Qed.
End HostRuns.
