(* ===== verification/Documents.v ===== *)
(** * Documents ([memory/parser.rs], [memory/document.rs])

    A document is cut into chunks of bounded size, each of which is embedded and
    stored in the namespace of documents; its row maps the digest of the content to
    the document, so that the same content is indexed once.  A search is restricted
    to the documents it may see by widening its window until it has enough.

    Where headings start in a Markdown text is the parameter [heading_starts]
    ([pulldown_cmark]); reading files and extracting text from PDF files are left
    out. *)

From Stdlib Require Import SpecFloat.
From stdpp Require Import sorting.
From S2P Require Import Prelude JsonValue Messages Sql Kv Runs Vectors VectorIndex VectorManager MemoryEngine MemoryStores.

Open Scope string_scope.
Open Scope list_scope.
Open Scope nat_scope.
Open Scope sql_scope.

(** ** Chunks ([parser.rs]) *)

Inductive DocumentKind := PlainText | Markdown | SourceCode | Pdf.

(** [rsplit('.').next()]: what follows the last dot, or everything. *)
Definition extension (name : str) : str := default name (last (split_on 46%N name)).

Definition CODE_EXTENSIONS : list string :=
  ["rs"; "py"; "js"; "ts"; "tsx"; "jsx"; "go"; "java"; "c"; "cc"; "cpp"; "h"; "hpp"; "cs"; "rb"; "php"; "swift"; "kt"; "scala"; "sh"; "sql";
   "toml"; "yaml"; "yml"; "json"].

Definition one_of (s : str) (words : list string) : bool := existsb (fun x => str_eqb s (lit x)) words.

Definition from_name `{Unicode} (name : str) : DocumentKind :=
  let ext := to_lowercase (extension name) in
  if one_of ext ["md"; "markdown"] then Markdown
  else if one_of ext ["pdf"] then Pdf
  else if one_of ext CODE_EXTENSIONS then SourceCode
  else PlainText.

Definition CHUNK_TARGET_TOKENS : N := 512.
Definition CHARS_PER_TOKEN : N := 4.
Definition MAX_CHUNK_CHARS : N := CHUNK_TARGET_TOKENS * CHARS_PER_TOKEN.

(** The longest prefix of at most so many bytes that ends between characters. *)
Fixpoint split_bytes (room : N) (s : str) : str * str :=
  match s with
  | [] => ([], [])
  | c :: rest =>
      if (len_utf8 c <=? room)%N
      then let '(a, b) := split_bytes (room - len_utf8 c) rest in (c :: a, b)
      else ([], s)
  end.

(** Every round takes a character away. *)
Fixpoint hard_cut (fuel : nat) (s : str) : list str :=
  match s, fuel with
  | [], _ => []
  | _, 0 => [s]
  | _, S fuel => let '(a, b) := split_bytes MAX_CHUNK_CHARS s in a :: hard_cut fuel b
  end.

Definition flush (current : str) : list str := if is_empty current then [] else [current].

Fixpoint pack_go (current : str) (paragraphs : list str) : list str :=
  match paragraphs with
  | [] => flush current
  | para :: rest =>
      let para := trim para in
      if is_empty para then pack_go current rest
      else
        let full := negb (is_empty current) && (MAX_CHUNK_CHARS <? utf8_len current + utf8_len para + 2)%N in
        let done := if full then [current] else [] in
        let current := if full then [] else current in
        if (MAX_CHUNK_CHARS <? utf8_len para)%N then done ++ flush current ++ hard_cut (length para) para ++ pack_go [] rest
        else done ++ pack_go (if is_empty current then para else current ++ [newline; newline] ++ para) rest
  end.

Definition pack_paragraphs : list str -> list str := pack_go [].

Definition is_blank (c : char) : bool := ((c =? 32) || (c =? 9) || (c =? 13))%N.

(** The number of blanks before the newline that ends an empty line. *)
Fixpoint blank_line (s : str) : option nat :=
  match s with
  | [] => None
  | c :: rest => if (c =? newline)%N then Some 0 else if is_blank c then S <$> blank_line rest else None
  end.

(** [cur] is the paragraph being read, reversed; [skip] counts the characters of an
    empty line still to be passed over. *)
Fixpoint paragraphs_go (cur : str) (skip : nat) (s : str) : list str :=
  match s with
  | [] => flush (reverse cur)
  | c :: rest =>
      match skip with
      | S k => paragraphs_go cur k rest
      | 0 =>
          if (c =? newline)%N then
            match blank_line rest with
            | Some blanks => reverse cur :: paragraphs_go [] (S blanks) rest
            | None => paragraphs_go (c :: cur) 0 rest
            end
          else paragraphs_go (c :: cur) 0 rest
      end
  end.

Definition chunk_text (s : str) : list str := pack_paragraphs (paragraphs_go [] 0 s).

Section Chunks.
Context (heading_starts : str -> list nat).

(** [Vec::dedup]. *)
Fixpoint dedup (l : list nat) : list nat :=
  match l with
  | x :: (y :: _) as rest => if x =? y then dedup rest else x :: dedup rest
  | _ => l
  end.

Definition boundaries (s : str) : list nat := dedup (0 :: List.filter (fun i => 0 <? i) (heading_starts s) ++ [length s]).

Definition windows {A} (l : list A) : list (A * A) := zip l (tail l).

Definition chunk_section (s : str) (window : nat * nat) : list str :=
  let section := trim (take (snd window - fst window) (drop (fst window) s)) in
  if is_empty section then []
  else if (utf8_len section <=? MAX_CHUNK_CHARS)%N then [section]
  else chunk_text section.

Definition chunk_markdown (s : str) : list str := windows (boundaries s) ≫= chunk_section s.

Definition chunk_document (kind : DocumentKind) (s : str) : list str :=
  match kind with Markdown => chunk_markdown s | _ => chunk_text s end.
End Chunks.

(** ** The store ([document.rs]) *)

Record DocumentMeta := { meta_id : str; meta_name : str; chunk_count : Z; source_hash : str }.

Definition META_FIELDS : list string := ["id"; "name"; "chunk_count"; "source_hash"].

Definition meta_value (m : DocumentMeta) : value :=
  json [("id", VString (meta_id m)); ("name", VString (meta_name m)); ("chunk_count", vnat (chunk_count m)); ("source_hash", VString (source_hash m))].

Definition meta_of_value (v : value) : option DocumentMeta :=
  v ← struct_fields META_FIELDS v;
  i ← get_str "id" v; n ← get_str "name" v; c ← get_u64 "chunk_count" v; h ← get_str "source_hash" v;
  Some {| meta_id := i; meta_name := n; chunk_count := c; source_hash := h |}.

Record SearchResult := { chunk_id : str; chunk_doc : str; chunk_content : str; doc_name : str; doc_score : f32 }.

Definition doc_key (i : str) : str := lit "doc/" ++ i.
Definition hash_key (h : str) : str := lit "hash/" ++ h.
Definition chunk_key (doc : str) (i : nat) : str := doc ++ lit "-c" ++ show_nat i.

Section Documents.
Context {I : Type} `{VectorIndex I} `{Unicode} `{Digest} `{Power}.
Context (models : Models) (max_entries : Z) (heading_starts : str -> list nat).
Abbreviation M := (Sql.M (Host I) MemoryError).

Definition get_meta (i : str) : M (option DocumentMeta) :=
  raw <- get_document (doc_key i) ;;
  match raw with
  | None => ret None
  | Some v => m <- some_or (meta_of_value v) unreadable ;; ret (Some m)
  end.

(** A document whose row cannot be decoded counts as missing. *)
Definition known_meta (i : str) : M (option DocumentMeta) :=
  found <- tried (get_meta i) ;;
  match found with Ok m => ret m | Err (Serialization _) => ret None | Err e => fail e end.

Fixpoint cleanup_chunks (doc : str) (i count : nat) : M unit :=
  match count with
  | 0 => ret tt
  | S count => ignore (on_engine (forget Document (chunk_key doc i))) ;;; cleanup_chunks doc (S i) count
  end.

Definition chunk_metadata (doc name : str) (i : nat) : value :=
  json [("doc_id", VString doc); ("doc_name", VString name); ("chunk_index", vnat (Z.of_nat i))].

Definition insert_chunk (doc name : str) (i : nat) (chunk : str) : M unit :=
  vector <- embedding models chunk ;;
  on_engine (insert_with_id max_entries Document (chunk_key doc i) chunk vector (chunk_metadata doc name i)) ;;; ret tt.

(** The chunks from the [i]-th on; after a failure, those written are taken back. *)
Fixpoint insert_chunks (doc name : str) (i : nat) (chunks : list str) : M unit :=
  match chunks with
  | [] => ret tt
  | chunk :: rest =>
      inserted <- tried (insert_chunk doc name i chunk) ;;
      match inserted with
      | Ok _ => insert_chunks doc name (S i) rest
      | Err e => cleanup_chunks doc 0 (S i) ;;; fail e
      end
  end.

Definition index_content (name text : str) : M DocumentMeta :=
  let hash := sha256_hex text in
  existing <- forgiving (get_document (hash_key hash)) ;;
  found <- match existing with Some (VString i) => known_meta i | _ => ret None end ;;
  match found with
  | Some meta => ret meta
  | None =>
      let chunks := chunk_document heading_starts (from_name name) text in
      if is_empty chunks then fail (Storage (lit "document " ++ name ++ lit " produced no chunks"))
      else
        with_clock (fun now =>
          let doc := lit "doc-" ++ show_Z now ++ lit "-" ++ take 12 hash in
          insert_chunks doc name 0 chunks ;;;
          let meta := {| meta_id := doc; meta_name := name; chunk_count := Z.of_nat (length chunks); source_hash := hash |} in
          written <- tried (put_document (doc_key doc) (meta_value meta) ;;; put_document (hash_key hash) (VString doc)) ;;
          match written with
          | Ok _ => ret meta
          | Err e => ignore (delete_document (doc_key doc)) ;;; cleanup_chunks doc 0 (length chunks) ;;; fail e
          end)
  end.

(** *** Searching *)

Definition metadata_str (key : string) (e : MemoryEntry) : str := default [] (get_str key (metadata e)).

Definition search_result (doc_ids : option (list str)) (h : MemoryEntry * f32) : option SearchResult :=
  let doc := metadata_str "doc_id" (fst h) in
  let allowed := match doc_ids with Some filter => existsb (fun d => str_eqb d doc) filter | None => true end in
  if allowed
  then Some {| chunk_id := id (fst h); chunk_doc := doc; chunk_content := content (fst h); doc_name := metadata_str "doc_name" (fst h); doc_score := snd h |}
  else None.

Definition out_of_fuel : MemoryError := Storage (lit "the window no longer grows").

(** [saturating_mul] is multiplication here: no namespace has as many entries as
    there are numbers in a [usize], and all windows above its size are one. *)
Fixpoint widen (fuel : nat) (vector : list f32) (top_k : nat) (doc_ids : option (list str)) (total fetch_k : nat) : M (list SearchResult) :=
  hits <- on_engine (search Document vector fetch_k) ;;
  let results := take top_k (omap (search_result doc_ids) hits) in
  if (top_k <=? length results) || negb (bool_decide (is_Some doc_ids)) || (total <=? fetch_k) then ret results
  else match fuel with
       | 0 => fail out_of_fuel
       | S fuel => widen fuel vector top_k doc_ids total (fetch_k * 4)
       end.

Definition search_documents (query : str) (top_k : nat) (doc_ids : option (list str)) : M (list SearchResult) :=
  if (top_k =? 0) || match doc_ids with Some ids => is_empty ids | None => false end then ret []
  else
    vector <- embedding models query ;;
    match doc_ids with
    | Some _ => total <- on_engine (count Document) ;; widen (Z.to_nat total) vector top_k doc_ids (Z.to_nat total) (top_k * 4)
    | None => widen 0 vector top_k doc_ids 0 top_k
    end.

(** *** The rest *)

Fixpoint read_metas (keys : list str) : M (list DocumentMeta) :=
  match keys with
  | [] => ret []
  | key :: rest =>
      raw <- forgiving (get_document key) ;;
      docs <- read_metas rest ;;
      ret (match raw ≫= meta_of_value with Some meta => meta :: docs | None => docs end)
  end.

Definition list_docs : M (list DocumentMeta) := keys <- list_documents (lit "doc/") ;; read_metas keys.

Fixpoint forget_chunks (chunk_ids : list str) : M unit :=
  match chunk_ids with
  | [] => ret tt
  | i :: rest => on_engine (forget Document i) ;;; forget_chunks rest
  end.

(** The digests that lead to the document. *)
Fixpoint drop_hashes (doc : str) (keys : list str) : M unit :=
  match keys with
  | [] => ret tt
  | key :: rest =>
      found <- forgiving (get_document key) ;;
      (match found with Some (VString i) => if str_eqb i doc then delete_document key else ret tt | _ => ret tt end) ;;;
      drop_hashes doc rest
  end.

Definition delete_document_by_id (doc : str) : M unit :=
  found <- tried (get_meta doc) ;;
  meta <- match found with
          | Ok (Some m) => ret (Some m)
          | Ok None => fail (EntryNotFound doc)
          | Err (Serialization _) => ret None
          | Err e => fail e
          end ;;
  chunk_ids <- on_engine (list_ids Document (doc ++ lit "-c")) ;;
  forget_chunks chunk_ids ;;;
  delete_document (doc_key doc) ;;;
  match meta with
  | Some m => delete_document (hash_key (source_hash m))
  | None => keys <- list_documents (lit "hash/") ;; drop_hashes doc keys
  end.

Definition is_indexed (hash : str) : M bool :=
  found <- forgiving (get_document (hash_key hash)) ;; ret (match found with Some _ => true | None => false end).
End Documents.

(** ** Nothing is lost in the cutting *)

(** What can be seen of a text. *)
Definition ink (s : str) : str := List.filter (fun c => negb (is_whitespace c)) s.

Lemma ink_app a b : ink (a ++ b) = ink a ++ ink b.
Proof. apply List.filter_app. Qed.

Lemma ink_reverse s : ink (reverse s) = reverse (ink s).
Proof.
  induction s as [|c s IH]; [done|]. rewrite reverse_cons, ink_app, IH.
  change (ink (c :: s)) with (if negb (is_whitespace c) then c :: ink s else ink s). change (ink [c]) with (if negb (is_whitespace c) then [c] else []).
  destruct (negb (is_whitespace c)); [by rewrite reverse_cons|by rewrite app_nil_r].
Qed.

Lemma ink_drop_while s : ink (drop_while is_whitespace s) = ink s.
Proof. induction s as [|c s IH]; [done|]. cbn [drop_while]. destruct (is_whitespace c) eqn:E; [|done]. rewrite IH. cbn. by rewrite E. Qed.

Lemma ink_trim s : ink (trim s) = ink s.
Proof. unfold trim, trim_end, trim_start. by rewrite ink_reverse, ink_drop_while, ink_reverse, reverse_involutive, ink_drop_while. Qed.

Lemma ink_newlines : ink [newline; newline] = [].
Proof. done. Qed.

Lemma blank_line_ink s k : blank_line s = Some k -> ink (take (S k) s) = [].
Proof.
  revert k. induction s as [|c s IH]; intros k; [done|]. cbn [blank_line]. destruct (N.eqb_spec c newline) as [->|_]; [by intros [= <-]|].
  destruct (is_blank c) eqn:Eb; [|done]. destruct (blank_line s) as [j|]; [|done]. intros [= <-]. cbn [take ink List.filter].
  assert (is_whitespace c = true) as ->.
  { unfold is_blank in Eb. apply orb_true_iff in Eb as [[->%N.eqb_eq| ->%N.eqb_eq]%orb_true_iff| ->%N.eqb_eq]; done. }
  by apply IH.
Qed.

Lemma ink_paragraphs cur skip s : ink (concat (paragraphs_go cur skip s)) = ink (reverse cur) ++ ink (drop skip s).
Proof.
  revert cur skip. induction s as [|c s IH]; intros cur skip.
  - rewrite drop_nil. cbn. unfold flush. destruct (is_empty (reverse cur)) eqn:E; cbn; [by apply is_empty_true in E as ->|by rewrite ink_app].
  - cbn [paragraphs_go]. destruct skip as [|k]; [|by rewrite IH]. cbn [drop].
    assert (ink (concat (paragraphs_go (c :: cur) 0 s)) = ink (reverse cur) ++ ink (c :: s)) as Hc.
    { rewrite IH, reverse_cons, ink_app, <- app_assoc, drop_0. by rewrite <- (ink_app [c]). }
    destruct (N.eqb_spec c newline) as [->|_]; [|done]. destruct (blank_line s) as [b|] eqn:Eb; [|done].
    cbn [concat]. rewrite ink_app, IH. f_equal. change (ink (newline :: s)) with (ink s). cbn [reverse ink List.filter app].
    rewrite <- (take_drop (S b) s) at 2. by rewrite ink_app, (blank_line_ink s b).
Qed.

Lemma split_bytes_spec room s a b : split_bytes room s = (a, b) ->
  s = a ++ b /\ (utf8_len a <= room)%N /\ ((4 <= room)%N -> s <> [] -> a <> []).
Proof.
  revert room a b. induction s as [|c s IH]; intros room a b; cbn [split_bytes]; [intros [= <- <-]; by split_and!; [|cbn; lia|]|].
  assert (len_utf8 c <= 4)%N as Hc by (unfold len_utf8; repeat case_match; lia).
  destruct (N.leb_spec (len_utf8 c) room) as [Hr|Hr].
  - destruct (split_bytes _ s) as [a' b'] eqn:E. intros [= <- <-]. destruct (IH _ _ _ E) as (-> & Hl & _). cbn. split_and!; [done|lia|done].
  - intros [= <- <-]. split_and!; [done|cbn; lia|]. intros H4. lia.
Qed.

(** A chunk is not empty and stays within its budget. *)
Definition sized (c : str) : Prop := c <> [] /\ (utf8_len c <= MAX_CHUNK_CHARS)%N.

Lemma hard_cut_spec fuel s : length s <= fuel -> Forall sized (hard_cut fuel s) /\ concat (hard_cut fuel s) = s.
Proof.
  revert s. induction fuel as [|fuel IH]; intros s Hl; [by destruct s; [|cbn in Hl; lia]|]. destruct s as [|c s]; [done|].
  cbn [hard_cut]. destruct (split_bytes _ _) as [a b] eqn:E. destruct (split_bytes_spec _ _ _ _ E) as (Es & Ha & Hn).
  assert (a <> []) as Hne by (apply Hn; done). assert (length b <= fuel) as Hb.
  { apply (f_equal length) in Es. rewrite length_app in Es. destruct a; [done|]. cbn in *. lia. }
  destruct (IH b Hb) as [Hf Hc]. cbn [concat]. rewrite Hc, Es. split; [|done]. by constructor.
Qed.

Lemma flush_sized c : (utf8_len c <= MAX_CHUNK_CHARS)%N -> Forall sized (flush c) /\ concat (flush c) = c.
Proof.
  intros Hc. unfold flush. destruct (is_empty c) eqn:E; [by apply is_empty_true in E as ->|]. apply is_empty_false in E. cbn. rewrite app_nil_r.
  split; [|done]. by repeat constructor.
Qed.

Lemma pack_spec current ps : (utf8_len current <= MAX_CHUNK_CHARS)%N ->
  Forall sized (pack_go current ps) /\ ink (concat (pack_go current ps)) = ink current ++ ink (concat ps).
Proof.
  revert current. induction ps as [|para ps IH]; intros current Hc.
  - cbn. rewrite app_nil_r. destruct (flush_sized current Hc) as [Hf Hx]. by rewrite Hx.
  - cbn [pack_go concat]. rewrite ink_app, <- (ink_trim para). generalize (trim para). clear para. intros para.
    destruct (is_empty para) eqn:Ep; [apply is_empty_true in Ep as ->; by apply IH|]. apply is_empty_false in Ep.
    set (full := negb (is_empty current) && _). set (rest_of := if full then [] else current). set (done_ := if full then [current] else []).
    assert ((utf8_len rest_of <= MAX_CHUNK_CHARS)%N) as Hr by (unfold rest_of; destruct full; [cbn; lia|done]).
    assert (Forall sized done_ /\ ink current = ink (concat done_) ++ ink rest_of) as [Hd Hi].
    { unfold done_, rest_of. destruct full eqn:Ef; [|done]. cbn. rewrite !app_nil_r. split; [|done]. constructor; [|done]. split; [|done].
      apply andb_true_iff in Ef as [Ee _]. by apply negb_true_iff, is_empty_false in Ee. }
    rewrite Hi. destruct (N.ltb_spec MAX_CHUNK_CHARS (utf8_len para)) as [Hbig|Hsmall].
    + destruct (hard_cut_spec (length para) para (le_n _)) as [Hh Hx]. destruct (IH [] ltac:(cbn; lia)) as [Hf Hy].
      destruct (flush_sized rest_of Hr) as [Hg Hz]. rewrite !Forall_app, !concat_app, !ink_app, Hx, Hy, Hz, <- !app_assoc. by split.
    + set (next := if is_empty rest_of then para else rest_of ++ [newline; newline] ++ para).
      assert ((utf8_len next <= MAX_CHUNK_CHARS)%N /\ ink next = ink rest_of ++ ink para) as [Hn Hx].
      { unfold next. destruct (is_empty rest_of) eqn:Ee; [apply is_empty_true in Ee; by rewrite Ee|].
        rewrite !ink_app, ink_newlines. split; [|done]. rewrite !utf8_len_app. change (utf8_len [newline; newline]) with 2%N.
        unfold rest_of in *. destruct full eqn:Ef; [done|]. unfold full in Ef. rewrite Ee in Ef. cbn in Ef. apply N.ltb_ge in Ef. lia. }
      destruct (IH next Hn) as [Hf Hy]. rewrite Forall_app, concat_app, ink_app, Hy, Hx, <- !app_assoc. by split.
Qed.

Lemma chunk_text_spec s : Forall sized (chunk_text s) /\ ink (concat (chunk_text s)) = ink s.
Proof.
  unfold chunk_text, pack_paragraphs. destruct (pack_spec [] (paragraphs_go [] 0 s)) as [Hf Hi]; [cbn; lia|]. split; [done|].
  rewrite Hi, ink_paragraphs, drop_0. done.
Qed.

(** *** Sections *)

Section Sections.
Context (heading_starts : str -> list nat).

(** Headings are met in the order of the text. *)
Definition headings_ordered : Prop := forall s, StronglySorted le (heading_starts s) /\ Forall (fun i => i <= length s) (heading_starts s).

Lemma dedup_cons x l : dedup (x :: l) = match l with y :: _ => if x =? y then dedup l else x :: dedup l | [] => [x] end.
Proof using. by destruct l. Qed.

Lemma dedup_head x l : exists rest, dedup (x :: l) = x :: rest.
Proof using.
  revert x. induction l as [|y l IH]; intros x; rewrite dedup_cons; [by eexists|]. destruct (Nat.eqb_spec x y) as [<-|_]; [apply IH|by eexists].
Qed.

Lemma dedup_last l : last (dedup l) = last l.
Proof using.
  induction l as [|x l IH]; [done|]. rewrite dedup_cons. destruct l as [|y l]; [done|]. destruct (x =? y); [done|].
  destruct (dedup_head y l) as [rest E]. rewrite E in *. cbn [last] in *. by rewrite IH.
Qed.

Lemma dedup_elem x l : x ∈ dedup l -> x ∈ l.
Proof using.
  revert x. induction l as [|y l IH]; intros x; [done|]. rewrite dedup_cons. destruct l as [|z l]; [done|]. destruct (y =? z).
  - intros Hx. right. by apply IH.
  - intros [->|Hx]%elem_of_cons; [by left|right; by apply IH].
Qed.

Lemma dedup_sorted l : StronglySorted le l -> StronglySorted le (dedup l).
Proof using.
  induction l as [|x l IH]; [done|]. rewrite dedup_cons. intros [Hs Hf]%StronglySorted_inv. destruct l as [|y l]; [by constructor|].
  destruct (x =? y); [by apply IH|]. constructor; [by apply IH|]. rewrite Forall_forall in *. intros z Hz. by apply Hf, dedup_elem.
Qed.

Lemma chunk_section_spec s window : Forall sized (chunk_section s window) /\
  ink (concat (chunk_section s window)) = ink (take (snd window - fst window) (drop (fst window) s)).
Proof using.
  unfold chunk_section. cbv zeta. rewrite <- (ink_trim (take _ _)). generalize (trim (take (snd window - fst window) (drop (fst window) s))).
  intros section. destruct (is_empty section) eqn:E; [by apply is_empty_true in E as ->|]. apply is_empty_false in E.
  destruct (N.leb_spec (utf8_len section) MAX_CHUNK_CHARS); [|apply chunk_text_spec]. cbn. rewrite app_nil_r. split; [|done]. by repeat constructor.
Qed.

Lemma windows_cover s x l : StronglySorted le (x :: l) -> last (x :: l) = Some (length s) ->
  Forall sized (windows (x :: l) ≫= chunk_section s) /\ ink (concat (windows (x :: l) ≫= chunk_section s)) = ink (drop x s).
Proof using.
  revert x. induction l as [|y l IH]; intros x Hs Hl.
  - cbn in Hl. injection Hl as ->. cbn. by rewrite drop_all.
  - apply StronglySorted_inv in Hs as [Hs Hf]. apply Forall_cons in Hf as [Hxy _]. destruct (IH y Hs Hl) as [IHf IHi].
    change (windows (x :: y :: l)) with ((x, y) :: windows (y :: l)). rewrite bind_cons, Forall_app, concat_app, ink_app, IHi.
    destruct (chunk_section_spec s (x, y)) as [Hc Hi]. rewrite Hi. split; [done|]. cbn [fst snd]. rewrite <- ink_app. f_equal.
    rewrite <- (take_drop (y - x) (drop x s)) at 2. rewrite drop_drop. do 2 f_equal. lia.
Qed.

Lemma boundaries_ok s : headings_ordered -> exists l, boundaries heading_starts s = 0 :: l /\ StronglySorted le (0 :: l) /\ last (0 :: l) = Some (length s).
Proof using.
  intros Ho. destruct (Ho s) as [Hs Hf]. unfold boundaries. destruct (dedup_head 0 (List.filter (fun i => 0 <? i) (heading_starts s) ++ [length s])) as [l E].
  exists l. split; [done|]. rewrite <- E. split; [|by rewrite dedup_last, app_comm_cons, last_snoc].
  apply dedup_sorted. constructor; [|apply Forall_forall; lia]. clear E.
  induction Hs as [|x hs Hs IH Hx]; [by repeat constructor|]. apply Forall_cons in Hf as [Hx' Hf]. cbn [List.filter].
  destruct (0 <? x); [|by apply IH]. cbn. constructor; [by apply IH|]. rewrite Forall_forall in *. intros z [Hz| ->%list_elem_of_singleton]%elem_of_app; [|done].
  apply Hx. apply list_elem_of_In in Hz. apply List.filter_In in Hz as [Hz _]. by apply list_elem_of_In.
Qed.

(** C38: Cutting a document loses nothing that can be seen, keeps its order, and
    gives chunks that are not empty and have at most 2048 bytes. *)
Theorem chunks_are_complete kind s : headings_ordered ->
  Forall (fun c => c <> [] /\ (utf8_len c <= MAX_CHUNK_CHARS)%N) (chunk_document heading_starts kind s) /\
  ink (concat (chunk_document heading_starts kind s)) = ink s.
Proof using.
  intros Ho. destruct kind; try apply chunk_text_spec. change (chunk_document heading_starts Markdown s) with (windows (boundaries heading_starts s) ≫= chunk_section s). destruct (boundaries_ok s Ho) as (l & -> & Hs & Hl).
  destruct (windows_cover s 0 l Hs Hl) as [Hf Hi]. by rewrite Hi.
Qed.
End Sections.

Lemma chunks_are_complete_witness :
  let text := lit "# A" ++ [newline; newline] ++ lit "one" ++ [newline] ++ lit "# B" ++ [newline] ++ lit "two " in
  let headings := fun s : str => if str_eqb s text then [0; 9] else [] in
  chunk_document headings Markdown text = [lit "# A" ++ [newline; newline] ++ lit "one"; lit "# B" ++ [newline] ++ lit "two"] /\
  ink (concat (chunk_document headings Markdown text)) = ink text.
Proof.
  intros text headings. split; [vm_compute; reflexivity|]. apply (chunks_are_complete headings Markdown text). intros s. unfold headings.
  destruct (str_eqb s text) eqn:E; [|by repeat constructor]. apply str_eqb_eq in E as ->. split.
  - constructor; [by repeat constructor|]. apply Forall_singleton. lia.
  - repeat constructor; apply Nat.leb_le; vm_compute; reflexivity.
Defined.

(** ** A search stays within its documents *)

Section Searching.
Context {I : Type} `{IndexLaws I} `{Unicode} `{Digest} `{Power} (models : Models).
Abbreviation M := (Sql.M (Host I) MemoryError).

(** More fuel makes no difference once the window can cover the namespace. *)
Lemma widen_enough fuel more vector k ids total fetch w n (h : Host I) : 0 < fetch -> total <= fetch + fuel ->
  widen (fuel + more) vector k ids total fetch w n h = widen fuel vector k ids total fetch w n h.
Proof using.
  revert fetch n h. induction fuel as [|fuel IH]; intros fetch n h Hf Ht.
  - destruct more as [|more]; [done|]. cbn [Nat.add widen]. unfold bind. destruct (on_engine _ _ _ _) as [[[hits|e] h'] n']; [|done]. cbv zeta.
    rewrite (proj2 (Nat.leb_le total fetch)) by lia. by rewrite orb_true_r.
  - cbn [Nat.add widen]. unfold bind. destruct (on_engine _ _ _ _) as [[[hits|e] h'] n']; [|done]. cbv zeta. destruct (_ || _); [done|]. apply IH; lia.
Qed.

Definition result_from (t : Rows) (x : SearchResult) : Prop :=
  exists e, from_row Document t e /\ chunk_id x = id e /\ chunk_doc x = metadata_str "doc_id" e /\ chunk_content x = content e.

Lemma runs_widen fuel vector k ids total fetch h (Q : option nat -> result (list SearchResult) MemoryError -> Host I -> Prop) :
  permanent (memory_rows h) -> permanent (embeddings (shared h)) ->
  (forall b r s', same_rows (shared h) s' -> match r with
     | Ok results => length results <= k /\ Forall (fun x => chunk_doc x ∈ ids /\ result_from (memory_rows h) x) results
     | Err _ => True
     end -> Q b r (set_shared s' h)) ->
  runs None (widen fuel vector k (Some ids) total fetch) h Q.
Proof using H0.
  revert fetch h Q. induction fuel as [|fuel IH]; intros fetch h Q Hm He HQ; cbn [widen];
    apply runs_bind, runs_on_engine, runs_search; [done|done| |by intros e s' Hs; apply HQ|done|done| |by intros e s' Hs; apply HQ].
  all: intros found s' Hs Hf; cbv zeta.
  all: assert (Forall (fun x => chunk_doc x ∈ ids /\ result_from (memory_rows h) x) (take k (omap (search_result (Some ids)) found))) as Hr.
  1, 3: apply Forall_take, Forall_forall; intros x (hit & Hh & Hx)%list_elem_of_omap; rewrite Forall_forall in Hf; specialize (Hf _ Hh);
    unfold search_result in Hx; destruct (existsb _ ids) eqn:Ee; [|done]; injection Hx as <-; cbn; split; [|by exists (fst hit)];
    apply existsb_elem in Ee as (d & Hd & ->%str_eqb_eq); done.
  all: destruct (_ || _ || _); [apply runs_ret, HQ; [done|split; [apply firstn_le_length|done]]|].
  - by apply runs_fail, HQ.
  - destruct Hs as [Hsm Hse]. apply IH; unfold memory_rows; cbn; [by rewrite Hsm|by rewrite Hse|].
    intros b r s2 [Hsm2 Hse2] Hx. unfold memory_rows in Hx. cbn in *. rewrite Hsm in Hx.
    change (set_shared s2 (set_shared s' h)) with (set_shared s2 h). apply HQ; [|done]. by split; congruence.
Qed.
End Searching.
