(* ===== verification/Accounts.v ===== *)
(** * Accounts, sessions and tenants: the tables
    ([server/src/repositories/{user,refresh_token,tenant}.rs])

    The rows that the account services share, the atomic steps by which these
    services change them, what always holds of them, and the account of guesses:
    between two codes at most five guesses are compared with a code.  The
    services themselves are in [Verification], [PasswordReset], [Auth], [Users]
    and [Tenants]; [Sessions] puts them together. *)

From S2P Require Import Prelude Sql.

Open Scope string_scope.
Open Scope list_scope.
Open Scope Z_scope.

(** ** Rows *)

(** A one-time code that was mailed: the four columns [.._hash], [.._expires_at],
    [.._sent_at] and [.._failed_attempts].  A user has one to verify the address
    and one to reset the password. *)
Record Code := { code_hash : option str; expires_at : option Z; sent_at : option Z; failed_attempts : Z }.

Inductive Kind := Verification | Reset.

#[export] Instance Kind_eq_dec : EqDecision Kind.
Proof. solve_decision. Defined.

(** [user::Model]; the balance is in [Billing]. *)
Record User := {
  id : Z; email : str; password_hash : str; name : str; role : str; created_at : Z; updated_at : Z;
  token_version : Z; email_verified : bool; verification : Code; reset : Code; tenant_id : str
}.

(** [refresh_token::Model]. *)
Record RefreshToken := { t_user_id : Z; token_hash : str; t_expires_at : Z; t_created_at : Z }.

(** [tenant::Model]. *)
Record Tenant := { tenant_name : str; tenant_status : str; tenant_created_at : Z }.

(** [UserResponse]; the version is not serialised. *)
Record UserResponse := {
  r_id : Z; r_email : str; r_name : str; r_role : str; r_tenant_id : str; r_tenant_name : option str;
  r_email_verified : bool; r_created_at : Z; r_updated_at : Z
}.

(** What the services keep in Redis, already parsed, until a deadline. *)
Inductive Cached := CBool (b : bool) | CNumber (n : Z) | CProfile (r : UserResponse) | CNull.
Record Entry := { content : Cached; deadline : Z }.

Definition DEFAULT_TENANT_ID : str := lit "default".

(** Of channels and plans only the reference to a tenant matters here. *)
Record tables := {
  users : gmap Z User; tokens : gmap Z RefreshToken; tenants : gmap str Tenant;
  channels : gmap str str; plans : gmap Z str; cached : gmap str Entry
}.

Definition set_users (f : gmap Z User -> gmap Z User) (s : tables) : tables :=
  {| users := f (users s); tokens := tokens s; tenants := tenants s; channels := channels s; plans := plans s; cached := cached s |}.
Definition set_tokens (f : gmap Z RefreshToken -> gmap Z RefreshToken) (s : tables) : tables :=
  {| users := users s; tokens := f (tokens s); tenants := tenants s; channels := channels s; plans := plans s; cached := cached s |}.
Definition set_tenants (f : gmap str Tenant -> gmap str Tenant) (s : tables) : tables :=
  {| users := users s; tokens := tokens s; tenants := f (tenants s); channels := channels s; plans := plans s; cached := cached s |}.

Definition set_cached (f : gmap str Entry -> gmap str Entry) (s : tables) : tables :=
  {| users := users s; tokens := tokens s; tenants := tenants s; channels := channels s; plans := plans s; cached := f (cached s) |}.

(** ** Columns *)

Definition no_code : Code := {| code_hash := None; expires_at := None; sent_at := None; failed_attempts := 0 |}.
Definition with_attempts (n : Z) (c : Code) : Code :=
  {| code_hash := code_hash c; expires_at := expires_at c; sent_at := sent_at c; failed_attempts := n |}.

Definition code (k : Kind) (u : User) : Code := match k with Verification => verification u | Reset => reset u end.

Definition with_code (k : Kind) (c : Code) (u : User) : User :=
  {| id := id u; email := email u; password_hash := password_hash u; name := name u; role := role u;
     created_at := created_at u; updated_at := updated_at u; token_version := token_version u;
     email_verified := email_verified u;
     verification := match k with Verification => c | Reset => verification u end;
     reset := match k with Verification => reset u | Reset => c end; tenant_id := tenant_id u |}.

Definition touched (now : Z) (u : User) : User :=
  {| id := id u; email := email u; password_hash := password_hash u; name := name u; role := role u;
     created_at := created_at u; updated_at := now; token_version := token_version u;
     email_verified := email_verified u; verification := verification u; reset := reset u; tenant_id := tenant_id u |}.

Definition marked_verified (u : User) : User :=
  {| id := id u; email := email u; password_hash := password_hash u; name := name u; role := role u;
     created_at := created_at u; updated_at := updated_at u; token_version := token_version u;
     email_verified := true; verification := verification u; reset := reset u; tenant_id := tenant_id u |}.

Definition with_password (hash : str) (u : User) : User :=
  {| id := id u; email := email u; password_hash := hash; name := name u; role := role u;
     created_at := created_at u; updated_at := updated_at u; token_version := token_version u;
     email_verified := email_verified u; verification := verification u; reset := reset u; tenant_id := tenant_id u |}.

Definition with_version (v : Z) (u : User) : User :=
  {| id := id u; email := email u; password_hash := password_hash u; name := name u; role := role u;
     created_at := created_at u; updated_at := updated_at u; token_version := v;
     email_verified := email_verified u; verification := verification u; reset := reset u; tenant_id := tenant_id u |}.

Definition with_profile (e n r t : str) (u : User) : User :=
  {| id := id u; email := e; password_hash := password_hash u; name := n; role := r;
     created_at := created_at u; updated_at := updated_at u; token_version := token_version u;
     email_verified := email_verified u; verification := verification u; reset := reset u; tenant_id := t |}.

(** ** Statements *)

Definition rows {K A} `{Countable K} (m : gmap K A) : list A := (map_to_list m).*2.

(** [find().filter(Email.eq(..)).one()]. *)
Definition find_by_email (e : str) (s : tables) : option User :=
  head (List.filter (fun u => str_eqb (email u) e) (rows (users s))).

(** The unique index on [email]: another row has it. *)
Definition email_taken (i : Z) (e : str) (s : tables) : bool :=
  existsb (fun u => str_eqb (email u) e && negb (id u =? i)) (rows (users s)).

(** [ActiveModel::update] and [UPDATE .. WHERE id = ..] of one row: [None] when
    there is no such row. *)
Definition update_user_row (i : Z) (f : User -> User) (s : tables) : option tables :=
  match users s !! i with Some u => Some (set_users <[i := f u]> s) | None => None end.

(** [token_version + 1] in a column of type [INTEGER]. *)
Definition next_version (v : Z) : option Z := if v + 1 <=? 2 ^ 31 - 1 then Some (v + 1) else None.

Lemma next_version_Some v v' : next_version v = Some v' -> v' = v + 1.
Proof. unfold next_version. destruct (_ <=? _); [by intros [= <-]|done]. Qed.

(** [UPDATE users SET token_version = token_version + 1 WHERE id = ..]: no row
    is no error, an overflow is. *)
Definition bump_version (i : Z) (s : tables) : option tables :=
  match users s !! i with
  | Some u => v ← next_version (token_version u); Some (set_users <[i := with_version v u]> s)
  | None => Some s
  end.

Definition delete_tokens_where (drop : RefreshToken -> bool) : tables -> tables :=
  set_tokens (filter (fun kv => drop kv.2 = false)).

Definition of_user (i : Z) (t : RefreshToken) : bool := t_user_id t =? i.
Definition has_hash (h : str) (t : RefreshToken) : bool := str_eqb (token_hash t) h.

(** [DELETE FROM refresh_tokens WHERE user_id = ..]. *)
Definition delete_user_tokens (i : Z) : tables -> tables := delete_tokens_where (of_user i).
Definition delete_token (h : str) : tables -> tables := delete_tokens_where (has_hash h).

Definition find_token (h : str) (now : Z) (s : tables) : option RefreshToken :=
  head (List.filter (fun t => has_hash h t && (now <? t_expires_at t)) (rows (tokens s))).

(** [INSERT INTO refresh_tokens]: the database chooses a fresh key; a repeated
    hash or an unknown user is refused. *)
Definition insert_token (t : RefreshToken) (s : tables) : option tables :=
  if existsb (has_hash (token_hash t)) (rows (tokens s)) then None
  else match users s !! t_user_id t with
       | Some _ => Some (set_tokens <[fresh (dom (tokens s)) := t]> s)
       | None => None
       end.

(** Deleting a user deletes his tokens ([ON DELETE CASCADE]). *)
Definition delete_user_row (i : Z) (s : tables) : tables := delete_user_tokens i (set_users (delete i) s).

Definition in_tenant (t : str) (s : tables) : nat * nat * nat :=
  (length (List.filter (fun u => str_eqb (tenant_id u) t) (rows (users s))),
   length (List.filter (str_eqb t) (rows (channels s))),
   length (List.filter (str_eqb t) (rows (plans s)))).

Definition tenant_active (t : str) (s : tables) : bool :=
  match tenants s !! t with Some row => str_eqb (tenant_status row) (lit "active") | None => false end.

Lemma update_twice i u v s : set_users <[i := u]> (set_users <[i := v]> s) = set_users <[i := u]> s.
Proof. unfold set_users; cbn. by rewrite insert_insert_eq. Qed.

(** ** What always holds *)

Definition MAX_FAILED_ATTEMPTS : Z := 5.

Definition ROLES : list str := [lit "user"; lit "admin"; lit "system"].
Definition TENANT_STATUSES : list str := [lit "active"; lit "disabled"].

(** ** The claim of a guess *)

(** [UPDATE users SET attempts = attempts + 1 WHERE id = .. AND attempts < MAX]:
    whether a row was updated. *)
Definition claim_attempt (k : Kind) (i : Z) (s : tables) : bool * tables :=
  match users s !! i with
  | Some u =>
      if failed_attempts (code k u) <? MAX_FAILED_ATTEMPTS
      then (true, set_users <[i := with_code k (with_attempts (failed_attempts (code k u) + 1) (code k u)) u]> s)
      else (false, s)
  | None => (false, s)
  end.

Lemma claim_attempt_claimed k i s s' : claim_attempt k i s = (true, s') ->
  exists u, users s !! i = Some u /\ failed_attempts (code k u) < MAX_FAILED_ATTEMPTS /\
    s' = set_users <[i := with_code k (with_attempts (failed_attempts (code k u) + 1) (code k u)) u]> s.
Proof.
  unfold claim_attempt. destruct (users s !! i) as [u|] eqn:Hu; [|done].
  destruct (Z.ltb_spec (failed_attempts (code k u)) MAX_FAILED_ATTEMPTS); [|done]. intros [= <-]. by exists u.
Qed.

Record code_ok (c : Code) : Prop := {
  attempts_bounded : 0 <= failed_attempts c <= MAX_FAILED_ATTEMPTS;
  hash_expires : code_hash c = None <-> expires_at c = None
}.

(** [root] are the system accounts; the bootstrap makes them. *)
Section Invariant.
Context (root : Z -> bool).

Record user_ok (s : tables) (i : Z) (u : User) : Prop := {
  own_key : id u = i;
  known_role : role u ∈ ROLES;
  only_roots : role u = lit "system" <-> root i = true;
  codes : forall k, code_ok (code k u);
  version_bounds : 1 <= token_version u <= 2 ^ 31 - 1;
  has_tenant : is_Some (tenants s !! tenant_id u)
}.

Record accounts_ok (s : tables) : Prop := {
  users_ok : forall i u, users s !! i = Some u -> user_ok s i u;
  emails_unique : forall i j u v, users s !! i = Some u -> users s !! j = Some v -> email u = email v -> i = j;
  tokens_owned : forall k t, tokens s !! k = Some t -> is_Some (users s !! t_user_id t);
  hashes_unique : forall k l t v, tokens s !! k = Some t -> tokens s !! l = Some v -> token_hash t = token_hash v -> k = l;
  statuses : forall i t, tenants s !! i = Some t -> tenant_status t ∈ TENANT_STATUSES;
  default_active : tenant_active DEFAULT_TENANT_ID s = true
}.

(** ** Steps

    What one statement, or one transaction, may do to the tables. *)

Inductive event :=
| Issued (k : Kind) (i : Z)   (* a new code; the guesses start over *)
| Claimed (k : Kind) (i : Z)  (* a guess may be compared *)
| Settled (k : Kind) (i : Z)  (* the code was right and is gone *)
| Created (i : Z)
| Other.

#[export] Instance event_eq_dec : EqDecision event.
Proof. solve_decision. Defined.

(** A code that was just made. *)
Definition new_code (hash : str) (now expires : Z) : Code :=
  {| code_hash := Some hash; expires_at := Some expires; sent_at := Some now; failed_attempts := 0 |}.

Definition free_email (i : Z) (e : str) (s : tables) : Prop :=
  forall j v, users s !! j = Some v -> email v = e -> j = i.

Inductive step : event -> tables -> tables -> Prop :=
| step_issued s k i u hash now expires updated :
    users s !! i = Some u ->
    step (Issued k i) s (set_users <[i := with_code k (new_code hash now expires) (touched updated u)]> s)
| step_claimed s s' k i : claim_attempt k i s = (true, s') -> step (Claimed k i) s s'
| step_verified s i u now :
    users s !! i = Some u ->
    step (Settled Verification i) s (set_users <[i := touched now (marked_verified (with_code Verification no_code u))]> s)
| step_auto_verified s i u now :
    users s !! i = Some u -> step Other s (set_users <[i := touched now (marked_verified u)]> s)
| step_reset s i u v hash now :
    users s !! i = Some u -> next_version (token_version u) = Some v ->
    step (Settled Reset i) s (delete_user_tokens i
      (set_users <[i := touched now (with_version v (with_password hash (with_code Reset no_code u)))]> s))
| step_password s i u v hash now :
    users s !! i = Some u -> next_version (token_version u) = Some v ->
    step Other s (delete_user_tokens i (set_users <[i := touched now (with_password hash (with_version v u))]> s))
| step_profile s i u v e n r t now :
    users s !! i = Some u -> (root i = false /\ r ∈ [lit "user"; lit "admin"]) \/ r = role u ->
    v = token_version u \/ next_version (token_version u) = Some v ->
    is_Some (tenants s !! t) -> free_email i e s ->
    step Other s (set_users <[i := touched now (with_profile e n r t (with_version v u))]> s)
| step_created s u :
    users s !! id u = None -> root (id u) = false -> role u ∈ [lit "user"; lit "admin"] ->
    verification u = no_code -> reset u = no_code -> token_version u = 1 ->
    is_Some (tenants s !! tenant_id u) -> free_email (id u) (email u) s ->
    step (Created (id u)) s (set_users <[id u := u]> s)
| step_deleted s i : root i = false -> step Other s (delete_user_row i s)
| step_revoked s s' i : bump_version i (delete_user_tokens i s) = Some s' -> step Other s s'
| step_token_deleted s h : step Other s (delete_token h s)
| step_tokens_deleted s i : step Other s (delete_user_tokens i s)
| step_tokens_expired s now : step Other s (delete_tokens_where (fun t => t_expires_at t <=? now) s)
| step_login s s' t : insert_token t (delete_user_tokens (t_user_id t) s) = Some s' -> step Other s s'
| step_rotated s s' h t : insert_token t (delete_token h s) = Some s' -> step Other s s'
| step_tenant s i t :
    tenant_status t ∈ TENANT_STATUSES -> (i = DEFAULT_TENANT_ID -> tenant_status t = lit "active") ->
    step Other s (set_tenants <[i := t]> s)
| step_cached s f : step Other s (set_cached f s)
| step_tenant_deleted s i :
    i <> DEFAULT_TENANT_ID -> in_tenant i s = (0, 0, 0)%nat -> step Other s (set_tenants (delete i) s).

Definition some_step (s s' : tables) : Prop := exists e, step e s s'.

(** ** Steps keep the invariant *)

Lemma rows_elem {K A} `{Countable K} (m : gmap K A) x : x ∈ rows m <-> exists i, m !! i = Some x.
Proof.
  unfold rows. rewrite list_elem_of_fmap. split.
  - intros ([i y] & -> & Hi%elem_of_map_to_list). by exists i.
  - intros (i & Hi). exists (i, x). split; [done|]. by apply elem_of_map_to_list.
Qed.

Lemma head_filter {A} (f : A -> bool) l x : head (List.filter f l) = Some x -> x ∈ l /\ f x = true.
Proof.
  intros Hx. assert (In x (List.filter f l)) as Hin by (destruct (List.filter f l); [done|injection Hx as <-; by left]).
  apply filter_In in Hin as [H1 H2]. split; [by apply list_elem_of_In|done].
Qed.

Lemma head_filter_none {A} (f : A -> bool) l : head (List.filter f l) = None -> forall x, x ∈ l -> f x = false.
Proof.
  intros Hh x Hx. destruct (f x) eqn:E; [|done]. apply list_elem_of_In in Hx.
  assert (In x (List.filter f l)) as Hin by by apply filter_In. by destruct (List.filter f l).
Qed.

Lemma find_by_email_Some e s u : accounts_ok s -> find_by_email e s = Some u -> users s !! id u = Some u /\ email u = e.
Proof.
  intros H (Hu & He)%head_filter. apply rows_elem in Hu as (i & Hi). apply str_eqb_eq in He.
  by rewrite (own_key _ _ _ (users_ok _ H _ _ Hi)).
Qed.

Lemma find_by_email_iff e s u :
  accounts_ok s -> find_by_email e s = Some u <-> users s !! id u = Some u /\ email u = e.
Proof.
  intros H. split; [by apply find_by_email_Some|]. intros [Hu He].
  destruct (find_by_email e s) as [v|] eqn:E.
  - apply find_by_email_Some in E as [Hv He']; [|done].
    assert (id v = id u) as Hi by (eapply (emails_unique _ H); [done|done|congruence]). congruence.
  - exfalso. pose proof (head_filter_none _ _ E u) as Hn. rewrite rows_elem in Hn.
    rewrite (proj2 (str_eqb_eq _ _) He) in Hn. discriminate Hn. by eexists.
Qed.

Lemma email_free i e s : email_taken i e s = false -> accounts_ok s -> free_email i e s.
Proof.
  intros Ht H j v Hj He. unfold email_taken in Ht.
  destruct (decide (j = i)) as [|Hne]; [done|]. exfalso.
  assert (existsb (fun u => str_eqb (email u) e && negb (id u =? i)) (rows (users s)) = true) as Hx; [|congruence].
  apply existsb_exists. exists v. split; [apply list_elem_of_In, rows_elem; by exists j|].
  rewrite (proj2 (str_eqb_eq _ _) He), (own_key _ _ _ (users_ok _ H _ _ Hj)). cbn.
  apply negb_true_iff, Z.eqb_neq. done.
Qed.

Lemma user_ok_same s s' i u : tenants s' = tenants s -> user_ok s i u -> user_ok s' i u.
Proof. intros E []. split; try done. by rewrite E. Qed.

Lemma set_user_ok s i u u' :
  accounts_ok s -> users s !! i = Some u -> user_ok s i u' -> free_email i (email u') s ->
  accounts_ok (set_users <[i := u']> s).
Proof.
  intros H Hu Hok He. split; cbn; try apply H.
  - intros j v [[<- <-]|[_ Hj]]%lookup_insert_Some; [by apply (user_ok_same s)|].
    eapply user_ok_same; [|by apply (users_ok _ H)]. done.
  - intros j k v v' [[<- <-]|[Hj Hv]]%lookup_insert_Some [[<- <-]|[Hk Hv']]%lookup_insert_Some Heq; [done| | |].
    + symmetry. by eapply He.
    + by eapply He.
    + by eapply (emails_unique _ H).
  - intros k t Hk. destruct (tokens_owned _ H _ _ Hk) as [v Hv]. rewrite lookup_insert_is_Some'. right. by eexists.
Qed.

Lemma keep_email s i u : accounts_ok s -> users s !! i = Some u -> free_email i (email u) s.
Proof. intros H Hu j v Hj He. by eapply (emails_unique _ H). Qed.

Lemma delete_tokens_ok f s : accounts_ok s -> accounts_ok (delete_tokens_where f s).
Proof.
  intros H. split; try apply H; cbn.
  - intros i u Hu. eapply user_ok_same; [|by apply (users_ok _ H)]. done.
  - intros k t [Hk _]%map_lookup_filter_Some. by eapply (tokens_owned _ H).
  - intros k l t v [Hk _]%map_lookup_filter_Some [Hl _]%map_lookup_filter_Some. by apply (hashes_unique _ H).
Qed.

Lemma insert_token_Some t s s' : insert_token t s = Some s' ->
  (forall k v, tokens s !! k = Some v -> token_hash v <> token_hash t) /\ is_Some (users s !! t_user_id t) /\
  exists k, tokens s !! k = None /\ s' = set_tokens <[k := t]> s.
Proof.
  unfold insert_token. destruct (existsb _ _) eqn:E; [done|].
  destruct (users s !! t_user_id t) eqn:Hu; [|done]. intros [= <-]. split; [|split; [by eexists|]].
  - intros k v Hk Heq. assert (existsb (has_hash (token_hash t)) (rows (tokens s)) = true) as Hx; [|congruence].
    apply existsb_exists. exists v. split; [apply list_elem_of_In, rows_elem; by exists k|]. by apply str_eqb_eq.
  - exists (fresh (dom (tokens s))). split; [|done]. apply not_elem_of_dom. apply is_fresh.
Qed.

Lemma insert_token_ok t s s' : accounts_ok s -> insert_token t s = Some s' -> accounts_ok s'.
Proof.
  intros H (Hh & Hu & k & Hk & ->)%insert_token_Some. split; try apply H; cbn.
  - intros i u Hi. eapply user_ok_same; [|by apply (users_ok _ H)]. done.
  - intros l v [[<- <-]|[_ Hl]]%lookup_insert_Some; [done|]. by eapply (tokens_owned _ H).
  - intros l l' v v' [[<- <-]|[_ Hl]]%lookup_insert_Some [[<- <-]|[_ Hl']]%lookup_insert_Some Heq; [done| | |].
    + by destruct (Hh _ _ Hl').
    + by destruct (Hh _ _ Hl).
    + by eapply (hashes_unique _ H).
Qed.

Lemma delete_user_ok i s : accounts_ok s -> accounts_ok (delete_user_row i s).
Proof.
  intros H. split; try apply H; cbn.
  - intros j u [_ Hj]%lookup_delete_Some. eapply user_ok_same; [|by apply (users_ok _ H)]. done.
  - intros j k u v [_ Hj]%lookup_delete_Some [_ Hk]%lookup_delete_Some. by eapply (emails_unique _ H).
  - intros k t [Hk Hf]%map_lookup_filter_Some. cbn in Hf. unfold of_user in Hf. apply Z.eqb_neq in Hf.
    rewrite lookup_delete_is_Some. split; [done|]. by eapply (tokens_owned _ H).
  - intros k l t v [Hk _]%map_lookup_filter_Some [Hl _]%map_lookup_filter_Some. by apply (hashes_unique _ H).
Qed.

Lemma next_version_bounds v v' : 1 <= v -> next_version v = Some v' -> v' = v + 1 /\ 1 <= v' <= 2 ^ 31 - 1.
Proof. unfold next_version. intros Hv. destruct (Z.leb_spec (v + 1) (2 ^ 31 - 1)); [|done]. intros [= <-]. lia. Qed.

(** The changes of one row. *)
Lemma with_code_ok s i u k c : user_ok s i u -> code_ok c -> user_ok s i (with_code k c u).
Proof. intros [H1 H2 H3 H4 H5 H6] Hc. split; try done. intros k'. pose proof (H4 Verification). pose proof (H4 Reset). by destruct k, k'. Qed.
Lemma touched_ok s i u now : user_ok s i u -> user_ok s i (touched now u).
Proof. intros []. by split. Qed.
Lemma marked_ok s i u : user_ok s i u -> user_ok s i (marked_verified u).
Proof. intros []. by split. Qed.
Lemma password_ok s i u h : user_ok s i u -> user_ok s i (with_password h u).
Proof. intros []. by split. Qed.
Lemma version_ok s i u v : user_ok s i u -> next_version (token_version u) = Some v -> user_ok s i (with_version v u).
Proof. intros [H1 H2 H3 H4 H5 H6] Hv. destruct (next_version_bounds _ _ (proj1 H5) Hv). by split. Qed.

Lemma no_code_ok : code_ok no_code.
Proof. split; cbn; [unfold MAX_FAILED_ATTEMPTS; lia|done]. Qed.
Lemma new_code_ok h now e : code_ok (new_code h now e).
Proof. split; cbn; [unfold MAX_FAILED_ATTEMPTS; lia|done]. Qed.
Lemma claimed_ok c : code_ok c -> failed_attempts c < MAX_FAILED_ATTEMPTS -> code_ok (with_attempts (failed_attempts c + 1) c).
Proof. intros [[H1 H2] H3] Hl. split; cbn; [lia|done]. Qed.

Lemma profile_ok s i u e n r t v now :
  user_ok s i u -> (root i = false /\ r ∈ [lit "user"; lit "admin"]) \/ r = role u ->
  v = token_version u \/ next_version (token_version u) = Some v -> is_Some (tenants s !! t) ->
  user_ok s i (touched now (with_profile e n r t (with_version v u))).
Proof.
  intros [H1 H2 H3 H4 H5 H6] Hr Hv Ht.
  assert (1 <= v <= 2 ^ 31 - 1) as Hb.
  { destruct Hv as [->|Hv]; [done|]. by destruct (next_version_bounds _ _ (proj1 H5) Hv). }
  split; cbn -[lit]; try done.
  - destruct Hr as [[_ Hr]| ->]; [|done]. unfold ROLES. set_solver.
  - destruct Hr as [[Hroot Hr]| ->]; [|done]. rewrite Hroot. split; [|done]. intros ->.
    apply elem_of_cons in Hr as [Hr|Hr%list_elem_of_singleton]; vm_compute in Hr; discriminate Hr.
Qed.

Lemma created_ok s u :
  accounts_ok s -> users s !! id u = None -> root (id u) = false -> role u ∈ [lit "user"; lit "admin"] ->
  verification u = no_code -> reset u = no_code -> token_version u = 1 ->
  is_Some (tenants s !! tenant_id u) -> free_email (id u) (email u) s -> accounts_ok (set_users <[id u := u]> s).
Proof.
  intros H Hnew Hroot Hr Hv Hre Hver Ht He. split; cbn; try apply H.
  - intros j v [[<- <-]|[_ Hj]]%lookup_insert_Some.
    + split; cbn -[lit]; try done.
      * unfold ROLES. set_solver.
      * rewrite Hroot. split; [|done]. intros E. rewrite E in Hr.
        apply elem_of_cons in Hr as [Hr|Hr%list_elem_of_singleton]; vm_compute in Hr; discriminate Hr.
      * intros []; cbn; rewrite ?Hv, ?Hre; apply no_code_ok.
      * rewrite Hver. lia.
    + eapply user_ok_same; [|by apply (users_ok _ H)]. done.
  - intros j k v v' [[<- <-]|[Hj Hv1]]%lookup_insert_Some [[<- <-]|[Hk Hv2]]%lookup_insert_Some Heq; [done| | |].
    + symmetry. by eapply He.
    + by eapply He.
    + by eapply (emails_unique _ H).
  - intros k t Hk. destruct (tokens_owned _ H _ _ Hk) as [v Hv']. rewrite lookup_insert_is_Some'. right. by eexists.
Qed.

Lemma bump_version_ok i s s' : accounts_ok s -> bump_version i s = Some s' -> accounts_ok s'.
Proof.
  intros H. unfold bump_version. destruct (users s !! i) as [u|] eqn:Hu; [|by intros [= <-]].
  destruct (next_version (token_version u)) as [v|] eqn:Hv; [|done]. intros [= <-].
  apply (set_user_ok _ _ u); [done|done| |exact (keep_email _ _ _ H Hu)].
  apply version_ok; [by apply (users_ok _ H)|done].
Qed.

Lemma tenant_ok s i t :
  accounts_ok s -> tenant_status t ∈ TENANT_STATUSES -> (i = DEFAULT_TENANT_ID -> tenant_status t = lit "active") ->
  accounts_ok (set_tenants <[i := t]> s).
Proof.
  intros H Ht Hd. split; try apply H; cbn.
  - intros j u Hj. destruct (users_ok _ H _ _ Hj). split; try done. cbn. rewrite lookup_insert_is_Some'. by right.
  - intros j v [[<- <-]|[_ Hj]]%lookup_insert_Some; [done|]. by eapply (statuses _ H).
  - pose proof (default_active _ H) as Ha. unfold tenant_active in *; cbn.
    destruct (decide (i = DEFAULT_TENANT_ID)) as [->|]; [|by rewrite lookup_insert_ne].
    rewrite lookup_insert_eq. apply str_eqb_eq. by apply Hd.
Qed.

Lemma tenant_deleted_ok s i :
  accounts_ok s -> i <> DEFAULT_TENANT_ID -> in_tenant i s = (0, 0, 0)%nat -> accounts_ok (set_tenants (delete i) s).
Proof.
  intros H Hd [= Hu _ _]. split; try apply H; cbn.
  - intros j u Hj. destruct (users_ok _ H _ _ Hj). split; try done. cbn. apply lookup_delete_is_Some. split; [|done].
    intros ->. apply length_zero_iff_nil in Hu.
    assert (In u (List.filter (fun u' => str_eqb (tenant_id u') (tenant_id u)) (rows (users s)))) as Hin; [|by rewrite Hu in Hin].
    apply filter_In. split; [apply list_elem_of_In, rows_elem; by exists j|]. by apply str_eqb_eq.
  - intros j v [_ Hj]%lookup_delete_Some. by eapply (statuses _ H).
  - pose proof (default_active _ H) as Ha. unfold tenant_active in *; cbn. by rewrite lookup_delete_ne.
Qed.

Lemma cached_ok f s : accounts_ok s -> accounts_ok (set_cached f s).
Proof.
  intros H. split; try apply H; cbn. intros i u Hu. eapply user_ok_same; [|by apply (users_ok _ H)]. done.
Qed.

Lemma step_keeps_ok e s s' : accounts_ok s -> step e s s' -> accounts_ok s'.
Proof.
  intros H Hs. destruct Hs;
    try match goal with Hu : users s !! ?j = Some ?v |- _ => pose proof (users_ok _ H _ _ Hu) as Hok; pose proof (keep_email _ _ _ H Hu) end.
  - apply (set_user_ok _ _ u); [done|done|by apply with_code_ok, new_code_ok; apply touched_ok|done].
  - apply claim_attempt_claimed in H0 as (u & Hu & Hl & ->). specialize (users_ok _ H _ _ Hu) as Hok.
    apply (set_user_ok _ _ u); [done|done| |by destruct k; exact (keep_email _ _ _ H Hu)].
    apply with_code_ok; [done|]. apply claimed_ok; [apply Hok|done].
  - apply (set_user_ok _ _ u); [done|done| |done]. by apply touched_ok, marked_ok, with_code_ok, no_code_ok.
  - apply (set_user_ok _ _ u); [done|done| |done]. by apply touched_ok, marked_ok.
  - apply delete_tokens_ok. apply (set_user_ok _ _ u); [done|done| |done].
    apply touched_ok, version_ok; [|done]. by apply password_ok, with_code_ok, no_code_ok.
  - apply delete_tokens_ok. apply (set_user_ok _ _ u); [done|done| |done]. by apply touched_ok, password_ok, version_ok.
  - apply (set_user_ok _ _ u); [done|done| |done]. by apply profile_ok.
  - by apply created_ok.
  - by apply delete_user_ok.
  - eapply bump_version_ok; [|done]. by apply delete_tokens_ok.
  - by apply delete_tokens_ok.
  - by apply delete_tokens_ok.
  - by apply delete_tokens_ok.
  - eapply insert_token_ok; [|done]. by apply delete_tokens_ok.
  - eapply insert_token_ok; [|done]. by apply delete_tokens_ok.
  - by apply tenant_ok.
  - by apply cached_ok.
  - by apply tenant_deleted_ok.
Qed.

Lemma some_step_ok s s' : accounts_ok s -> some_step s s' -> accounts_ok s'.
Proof. intros H [e He]. by eapply step_keeps_ok. Qed.

(** ** Histories *)

Inductive run : list event -> tables -> tables -> Prop :=
| run_nil s : run [] s s
| run_cons e es s s1 s2 : step e s s1 -> run es s1 s2 -> run (e :: es) s s2.

Lemma run_accounts_ok es s s' : accounts_ok s -> run es s s' -> accounts_ok s'.
Proof. intros H Hr. induction Hr; [done|]. by eapply IHHr, step_keeps_ok. Qed.

Lemma steps_run s s' : rtc some_step s s' -> exists es, run es s s'.
Proof.
  induction 1 as [s|s s1 s2 [e He] _ [es Hes]]; [exists []; constructor|]. exists (e :: es). by econstructor.
Qed.

(** The guesses already made at the code of a user; all of them if he is not there. *)
Definition attempts (k : Kind) (i : Z) (s : tables) : Z :=
  match users s !! i with Some u => failed_attempts (code k u) | None => MAX_FAILED_ATTEMPTS end.

Definition count (e : event) (es : list event) : Z := Z.of_nat (length (List.filter (fun x => bool_decide (x = e)) es)).

(** The events that let the guesses start over. *)
Definition renewals (k : Kind) (i : Z) (es : list event) : Z := count (Issued k i) es + count (Settled k i) es + count (Created i) es.

Lemma count_event_cons e x es : count e (x :: es) = (if bool_decide (x = e) then 1 else 0) + count e es.
Proof. unfold count. cbn. case_bool_decide; cbn [length]; lia. Qed.

Lemma attempts_insert k i j u s :
  attempts k i (set_users <[j := u]> s) = if bool_decide (j = i) then failed_attempts (code k u) else attempts k i s.
Proof. unfold attempts; cbn. case_bool_decide as E; [subst; by rewrite lookup_insert_eq|by rewrite lookup_insert_ne]. Qed.

Lemma attempts_same k i s s' : users s' = users s -> attempts k i s' = attempts k i s.
Proof. intros E. unfold attempts. by rewrite E. Qed.

Lemma attempts_bound k i s : accounts_ok s -> 0 <= attempts k i s <= MAX_FAILED_ATTEMPTS.
Proof.
  intros H. unfold attempts. destruct (users s !! i) as [u|] eqn:Hu; [|unfold MAX_FAILED_ATTEMPTS; lia].
  apply attempts_bounded. apply (codes _ _ _ (users_ok _ H _ _ Hu)).
Qed.

Lemma attempts_code k i s u f : users s !! i = Some u -> (forall k', code k' (f u) = code k' u) ->
  attempts k i (set_users <[i := f u]> s) = attempts k i s.
Proof. intros Hu Hf. rewrite attempts_insert, bool_decide_true by done. rewrite Hf. unfold attempts. by rewrite Hu. Qed.

Lemma attempts_other k i j u s : j <> i -> attempts k i (set_users <[j := u]> s) = attempts k i s.
Proof. intros Hne. rewrite attempts_insert, bool_decide_false by done. done. Qed.

(** What one event does to the guesses at one code. *)
Definition claims (k : Kind) (i : Z) (e : event) : Z := if bool_decide (e = Claimed k i) then 1 else 0.
Definition renews (k : Kind) (i : Z) (e : event) : Z :=
  if bool_decide (e = Issued k i) || bool_decide (e = Settled k i) || bool_decide (e = Created i) then 1 else 0.

Lemma renews_nonneg k i e : 0 <= renews k i e.
Proof. unfold renews. destruct (_ || _); lia. Qed.

Lemma renews_renewal k i e : e = Issued k i \/ e = Settled k i \/ e = Created i -> renews k i e = 1.
Proof.
  intros He. unfold renews. assert (bool_decide (e = Issued k i) || bool_decide (e = Settled k i) || bool_decide (e = Created i) = true) as ->; [|done].
  rewrite !orb_true_iff, !bool_decide_eq_true. tauto.
Qed.

(** A row that changes a code of kind [k] of user [j]. *)
Lemma attempts_set_code k i j k' c u u' s :
  users s !! j = Some u -> (forall x, code x u' = code x (with_code k' c u)) ->
  attempts k i (set_users <[j := u']> s) = (if bool_decide (k = k' /\ i = j) then failed_attempts c else attempts k i s).
Proof.
  intros Hu Hc. rewrite attempts_insert. destruct (decide (j = i)) as [->|Hne].
  - rewrite bool_decide_true by done. rewrite Hc. unfold attempts. rewrite Hu. destruct k, k'; cbn;
      first [rewrite bool_decide_true by done | rewrite bool_decide_false by naive_solver]; done.
  - rewrite (bool_decide_false (j = i)), bool_decide_false by naive_solver. done.
Qed.

Lemma attempts_kept k i j u u' s :
  users s !! j = Some u -> (forall x, code x u' = code x u) -> attempts k i (set_users <[j := u']> s) = attempts k i s.
Proof.
  intros Hu Hc. rewrite attempts_insert. case_bool_decide as E; [|done]. subst. rewrite Hc. unfold attempts. by rewrite Hu.
Qed.

Lemma attempts_bump k i j s s' : bump_version j s = Some s' -> attempts k i s' = attempts k i s.
Proof.
  unfold bump_version. destruct (users s !! j) as [u|] eqn:Hu; [|by intros [= <-]].
  destruct (next_version (token_version u)) as [v|]; [|done]. intros [= <-]. apply (attempts_kept _ _ _ u); [done|by intros []].
Qed.

Lemma step_attempts k i e s s' :
  accounts_ok s -> step e s s' -> claims k i e + attempts k i s <= attempts k i s' + MAX_FAILED_ATTEMPTS * renews k i e.
Proof.
  intros H Hs. pose proof (attempts_bound k i s H) as Hb. pose proof (attempts_bound k i s' (step_keeps_ok _ _ _ H Hs)) as Hb'.
  pose proof (renews_nonneg k i e) as Hn. unfold MAX_FAILED_ATTEMPTS in *.
  assert (claims k i e = 0 -> attempts k i s <= attempts k i s' \/ renews k i e = 1 ->
          claims k i e + attempts k i s <= attempts k i s' + 5 * renews k i e) as Hdone by (intros ? [?|?]; lia).
  destruct Hs; try (apply Hdone; [by unfold claims; rewrite bool_decide_false|]).
  - destruct (decide (k = k0 /\ i = i0)) as [[-> ->]|Hne]; [right; apply renews_renewal; naive_solver|left].
    rewrite (attempts_set_code _ _ _ k0 (new_code hash now expires) u) by (done || by intros []; destruct k0).
    by rewrite bool_decide_false.
  - apply claim_attempt_claimed in H0 as (u & Hu & Hl & ->).
    rewrite (attempts_set_code _ _ _ k0 (with_attempts (failed_attempts (code k0 u) + 1) (code k0 u)) u) by done.
    unfold claims. destruct (decide (k = k0 /\ i = i0)) as [[-> ->]|Hne].
    + rewrite !bool_decide_true by done. unfold attempts in *. rewrite Hu in *. cbn. lia.
    + rewrite !bool_decide_false by naive_solver. lia.
  - destruct (decide (k = Verification /\ i = i0)) as [[-> ->]|Hne]; [right; apply renews_renewal; naive_solver|left].
    rewrite (attempts_set_code _ _ _ Verification no_code u) by (done || by intros []). by rewrite bool_decide_false.
  - left. by rewrite (attempts_kept _ _ _ u) by (done || by intros []).
  - destruct (decide (k = Reset /\ i = i0)) as [[-> ->]|Hne]; [right; apply renews_renewal; naive_solver|left].
    rewrite (attempts_same _ _ _ _ eq_refl : attempts k i (delete_user_tokens i0 _) = attempts k i (set_users _ s)).
    rewrite (attempts_set_code _ _ _ Reset no_code u) by (done || by intros []). by rewrite bool_decide_false.
  - left. rewrite (attempts_same _ _ _ _ eq_refl : attempts k i (delete_user_tokens i0 _) = attempts k i (set_users _ s)).
    by rewrite (attempts_kept _ _ _ u) by (done || by intros []).
  - left. by rewrite (attempts_kept _ _ _ u) by (done || by intros []).
  - destruct (decide (i = id u)) as [->|Hne]; [right; apply renews_renewal; naive_solver|left].
    by rewrite attempts_other.
  - left. unfold attempts at 2; cbn. destruct (delete i0 (users s) !! i) as [u|] eqn:Hu; [|unfold MAX_FAILED_ATTEMPTS; lia].
    apply lookup_delete_Some in Hu as [_ Hu]. unfold attempts. by rewrite Hu.
  - left. by rewrite (attempts_bump _ _ _ _ _ H0).
  - by left.
  - by left.
  - by left.
  - left. apply insert_token_Some in H0 as (_ & _ & j & _ & ->). done.
  - left. apply insert_token_Some in H0 as (_ & _ & j & _ & ->). done.
  - by left.
  - by left.
  - by left.
Qed.

Lemma count_claims k i es : count (Claimed k i) es = foldr (fun e n => claims k i e + n) 0 es.
Proof. induction es as [|e es IH]; [done|]. rewrite count_event_cons. cbn. by rewrite IH. Qed.

(** C3: However the services interleave and fail, the guesses that are compared with
    the codes of one kind of one user are at most five, and five more for every
    new code, settled code or new account. *)
Theorem guesses_are_bounded k i es s s' :
  accounts_ok s -> run es s s' -> count (Claimed k i) es <= MAX_FAILED_ATTEMPTS * (1 + renewals k i es).
Proof.
  intros H Hr.
  enough (count (Claimed k i) es + attempts k i s <= attempts k i s' + MAX_FAILED_ATTEMPTS * renewals k i es).
  { pose proof (attempts_bound k i s H). pose proof (attempts_bound k i s' (run_accounts_ok _ _ _ H Hr)). lia. }
  induction Hr as [s|e es s s1 s2 He Hr IH]; [unfold renewals, count; cbn; lia|].
  specialize (IH (step_keeps_ok _ _ _ H He)). pose proof (step_attempts k i _ _ _ H He) as Ha.
  unfold renewals in *. rewrite !count_event_cons. unfold claims, renews in Ha.
  destruct (bool_decide (e = Claimed k i)), (bool_decide (e = Issued k i)) eqn:E1, (bool_decide (e = Settled k i)) eqn:E2,
    (bool_decide (e = Created i)) eqn:E3; cbn [orb] in Ha; unfold MAX_FAILED_ATTEMPTS in *; lia.
Qed.
(** ** Sessions *)

Definition stored (h : str) (s : tables) : Prop := exists k t, tokens s !! k = Some t /\ token_hash t = h.
Definition has_session (i : Z) (s : tables) : Prop := exists k t, tokens s !! k = Some t /\ t_user_id t = i.

Lemma no_session_left i s : ~ has_session i (delete_user_tokens i s).
Proof.
  intros (k & t & [_ Hf]%map_lookup_filter_Some & Ht). cbn in Hf. unfold of_user in Hf. apply Z.eqb_neq in Hf. done.
Qed.

Lemma not_stored h s : ~ stored h (delete_token h s).
Proof.
  intros (k & t & [_ Hf]%map_lookup_filter_Some & Ht). cbn in Hf. unfold has_hash in Hf.
  by rewrite (proj2 (str_eqb_eq _ _) Ht) in Hf.
Qed.

Lemma not_stored_insert h t s s' : insert_token t s = Some s' -> token_hash t <> h -> ~ stored h s -> ~ stored h s'.
Proof.
  intros (_ & _ & k & _ & ->)%insert_token_Some Hh Hn (l & v & Hl & Hv). cbn in Hl.
  apply lookup_insert_Some in Hl as [[_ ->]|[_ Hl]]; [done|]. apply Hn. by exists l, v.
Qed.

(** A login leaves the user one session. *)
Lemma only_session t s s' : insert_token t (delete_user_tokens (t_user_id t) s) = Some s' ->
  has_session (t_user_id t) s' /\ forall k v, tokens s' !! k = Some v -> t_user_id v = t_user_id t -> v = t.
Proof.
  intros (_ & _ & k & _ & ->)%insert_token_Some. split; cbn.
  - exists k, t. cbn. by rewrite lookup_insert_eq.
  - intros l v Hl Hv. cbn in Hl. apply lookup_insert_Some in Hl as [[_ <-]|[_ Hl]]; [done|]. destruct (no_session_left (t_user_id t) s). by exists l, v.
Qed.

(** ** Versions only grow *)

(** The version of a user, when he is there, is at least [v]. *)
Definition at_least (i v : Z) (s : tables) : Prop := forall u, users s !! i = Some u -> v <= token_version u.

Lemma at_least_insert i v j u u' s :
  users s !! j = Some u -> token_version u <= token_version u' -> at_least i v s -> at_least i v (set_users <[j := u']> s).
Proof.
  intros Hu Hle H x Hx. cbn in Hx. apply lookup_insert_Some in Hx as [[-> <-]|[_ Hx]]; [|by apply H]. specialize (H _ Hu). lia.
Qed.

Lemma at_least_same i v s s' : users s' = users s -> at_least i v s -> at_least i v s'.
Proof. intros E H u. rewrite E. apply H. Qed.

Lemma next_version_grows v v' : next_version v = Some v' -> v <= v'.
Proof. intros ->%next_version_Some. lia. Qed.

Lemma bump_at_least i v j s s' : bump_version j s = Some s' -> at_least i v s -> at_least i v s'.
Proof.
  unfold bump_version. destruct (users s !! j) as [u|] eqn:Hu; [|by intros [= <-]].
  destruct (next_version (token_version u)) as [v'|] eqn:Hv; [|done]. intros [= <-].
  apply (at_least_insert _ _ _ u); [done|]. by apply next_version_grows.
Qed.

Lemma step_at_least i v e s s' : step e s s' -> e <> Created i -> at_least i v s -> at_least i v s'.
Proof.
  intros Hs Hc H.
  destruct Hs as [s k j u h n x m Hu|s s' k j Hc'|s j u n Hu|s j u n Hu|s j u v' h n Hu Hv|s j u v' h n Hu Hv
                 |s j u v' e n r t m Hu _ Hv _ _|s u _ _ _ _ _ _ _ _|s j _|s s' j Hb|s h|s j|s n|s s' t Hi|s s' h t Hi|s j t _ _|s f|s j _ _].
  - by apply (at_least_insert _ _ _ u).
  - apply claim_attempt_claimed in Hc' as (u & Hu & _ & ->). by apply (at_least_insert _ _ _ u).
  - by apply (at_least_insert _ _ _ u).
  - by apply (at_least_insert _ _ _ u).
  - apply (at_least_same _ _ (set_users <[j := touched n (with_version v' (with_password h (with_code Reset no_code u)))]> s)); [done|].
    apply (at_least_insert _ _ _ u); [done|by apply next_version_grows|done].
  - apply (at_least_same _ _ (set_users <[j := touched n (with_password h (with_version v' u))]> s)); [done|].
    apply (at_least_insert _ _ _ u); [done|by apply next_version_grows|done].
  - apply (at_least_insert _ _ _ u); [done| |done]. destruct Hv as [->|Hv]; [done|by apply next_version_grows].
  - intros x Hx. cbn in Hx. apply lookup_insert_Some in Hx as [[E _]|[_ Hx]]; [by destruct Hc; rewrite E|by apply H].
  - intros x Hx. cbn in Hx. apply lookup_delete_Some in Hx as [_ Hx]. by apply H.
  - eapply bump_at_least; [exact Hb|]. done.
  - done.
  - done.
  - done.
  - apply insert_token_Some in Hi as (_ & _ & k & _ & ->). done.
  - apply insert_token_Some in Hi as (_ & _ & k & _ & ->). done.
  - done.
  - done.
  - done.
Qed.
(** ** System accounts *)

Lemma still_there_insert i j u (m : gmap Z User) : is_Some (m !! i) -> is_Some (<[j := u]> m !! i).
Proof. intros H. rewrite lookup_insert_is_Some'. by right. Qed.

Lemma bump_keys i j s s' : bump_version j s = Some s' -> is_Some (users s !! i) -> is_Some (users s' !! i).
Proof.
  unfold bump_version. destruct (users s !! j) as [u|]; [|by intros [= <-]].
  destruct (next_version (token_version u)); [|done]. intros [= <-]. apply still_there_insert.
Qed.

Lemma step_keeps_roots e s s' i : step e s s' -> root i = true -> is_Some (users s !! i) -> is_Some (users s' !! i).
Proof.
  intros Hs Hroot H.
  destruct Hs; try (by apply still_there_insert); try done.
  - apply claim_attempt_claimed in H0 as (u & _ & _ & ->). by apply still_there_insert.
  - cbn. rewrite lookup_delete_is_Some. split; [|done]. intros ->. congruence.
  - eapply bump_keys; [exact H0|]. done.
  - apply insert_token_Some in H0 as (_ & _ & k & _ & ->). done.
  - apply insert_token_Some in H0 as (_ & _ & k & _ & ->). done.
Qed.

(** Whatever the services do, in whatever order, a system account is there, is a
    system account, and no other account becomes one. *)
Theorem system_accounts_stay es s s' i u :
  accounts_ok s -> run es s s' -> users s !! i = Some u -> role u = lit "system" ->
  (exists u', users s' !! i = Some u' /\ role u' = lit "system") /\
  forall j v, users s' !! j = Some v -> role v = lit "system" -> root j = true.
Proof.
  intros Hok Hr Hu Hrole. pose proof (run_accounts_ok _ _ _ Hok Hr) as Hok'.
  assert (root i = true) as Hroot by by apply (only_roots _ _ _ (users_ok _ Hok _ _ Hu)).
  split.
  - assert (is_Some (users s' !! i)) as [u' Hu'].
    { assert (is_Some (users s !! i)) as Hs by by eexists. clear - Hr Hs Hroot.
      induction Hr as [|e es s s1 s2 He _ IH]; [done|]. apply IH. by eapply step_keeps_roots. }
    exists u'. split; [done|]. by apply (only_roots _ _ _ (users_ok _ Hok' _ _ Hu')).
  - intros j v Hv Hs. by apply (only_roots _ _ _ (users_ok _ Hok' _ _ Hv)).
Qed.
End Invariant.

(** ** Passwords, codes and mail

    [argon2] hashes with a salt; [None] is its error. *)
Class Argon2 := {
  argon_hash : str -> str -> option str;
  argon_verify : str -> str -> option bool;
  argon_right : forall salt text h, argon_hash salt text = Some h -> argon_verify text h = Some true
}.

(** A hash that anyone can read, for evaluating concrete inputs. *)
Definition small_argon : Argon2.
Proof.
  refine {| argon_hash salt text := Some (salt ++ lit "$" ++ text);
            argon_verify text h := Some (ends_with (lit "$" ++ text) h) |}.
  intros salt text h [= <-]. f_equal. apply ends_with_spec. by exists salt.
Defined.

(** A code of kind [k] of the user with address [e] could be guessed: it was
    alive at [checked] and [guess] is right. *)
Definition good_guess {U : Unicode} {A : Argon2} (k : Kind) (checked : Z) (e guess : str) (u : User) : Prop :=
  email u = to_lowercase e /\
  exists hash expires, code_hash (code k u) = Some hash /\ expires_at (code k u) = Some expires /\
    checked <= expires /\ argon_verify guess hash = Some true.

(** The mail service during one request: [is_configured], the permit of the
    semaphore, the answer of the mail server. *)
Record Mail := { configured : bool; permitted : bool; delivered : bool }.

Definition minutes (n : Z) : Z := n * 60000000.
Definition seconds (n : Z) : Z := n * 1000000.
Definition CODE_EXPIRY_MINUTES : Z := 10.
Definition RESEND_COOLDOWN_SECONDS : Z := 60.

(** [format!("{:06}", gen_range(0..1_000_000))]. *)
Definition generate_code (draw : N) : str :=
  (fun place => 48 + draw / place mod 10)%N <$> [100000; 10000; 1000; 100; 10; 1]%N.

Lemma generate_code_shape draw : length (generate_code draw) = 6%nat /\ Forall (fun c => 48 <= c <= 57)%N (generate_code draw).
Proof.
  split; [done|]. unfold generate_code. apply Forall_fmap, Forall_true. intros place. unfold compose. cbv beta.
  assert ((draw / place) mod 10 < 10)%N as Hd by by apply N.mod_upper_bound.
  set (d := ((draw / place) mod 10)%N) in *. clearbody d. lia.
Qed.

(** [UPDATE users SET .. WHERE id = .. AND (sent_at IS NULL OR sent_at <= ..)]. *)
Definition renew_code (k : Kind) (i : Z) (hash : str) (now : Z) (s : tables) : bool * tables :=
  match users s !! i with
  | Some u =>
      if match sent_at (code k u) with None => true | Some t => t <=? now - seconds RESEND_COOLDOWN_SECONDS end
      then (true, set_users <[i := with_code k (new_code hash now (now + minutes CODE_EXPIRY_MINUTES)) u]> s)
      else (false, s)
  | None => (false, s)
  end.

(** [ActiveModel::update]: the row as it is then. *)
Definition update_returning (i : Z) (f : User -> User) (s : tables) : option (User * tables) :=
  s' ← update_user_row i f s; u ← users s' !! i; Some (u, s').

(** ** The cache

    [CacheService] with parsed contents ([Cache] has it in full): best effort, a
    command that fails is a miss. *)

Section CacheCommands.
Context {E : Type}.
Abbreviation M := (Sql.M tables E).

Definition null_key (key : str) : str := key ++ lit ":null".
Definition live (now : Z) (key : str) (s : tables) : option Cached :=
  e ← cached s !! key; if now <? deadline e then Some (content e) else None.

Definition cache_get (key : str) : M (option Cached) := best_effort None (fun now s => (live now key s, s)).
Definition cache_set (key : str) (c : Cached) (ttl : Z) : M unit :=
  best_effort tt (fun now s => (tt, set_cached <[key := {| content := c; deadline := now + ttl |}]> s)).
Definition cache_set_null (key : str) (ttl : Z) : M unit := cache_set (null_key key) CNull ttl.
Definition cache_exists (key : str) : M bool :=
  best_effort false (fun now s => (match live now key s with Some _ => true | None => false end, s)).
Definition invalidate (key : str) : M unit :=
  best_effort tt (fun _ s => (tt, set_cached (fun c => delete (null_key key) (delete key c)) s)).
End CacheCommands.

(** The cache is not the tables. *)
Definition facts (s : tables) := (users s, tokens s, tenants s, channels s, plans s).

Lemma keeps_cache_get {E} w key : alone w -> keeps facts w (cache_get (E := E) key).
Proof. intros Hw. by apply keeps_best_effort. Qed.
Lemma keeps_cache_set {E} w key c ttl : alone w -> keeps facts w (cache_set (E := E) key c ttl).
Proof. intros Hw. by apply keeps_best_effort. Qed.
Lemma keeps_cache_exists {E} w key : alone w -> keeps facts w (cache_exists (E := E) key).
Proof. intros Hw. by apply keeps_best_effort. Qed.
Lemma keeps_invalidate {E} w key : alone w -> keeps facts w (invalidate (E := E) key).
Proof. intros Hw. by apply keeps_best_effort. Qed.

Definition version_key (i : Z) : str := lit "user:token_version:" ++ show_Z i.
Definition profile_key (i : Z) : str := lit "user:" ++ show_Z i.
Definition active_key (t : str) : str := lit "tenant:active:" ++ t.

(** ** Rules for the services *)

Section Rules.
Context (root : Z -> bool) {E : Type} `{ERR : Errors E}.

Definition steps {A} (m : M tables E A) (Q : A -> Prop) : Prop := spec (some_step root) (accounts_ok root) m Q.

Lemma steps_bind {A B} (m : M tables E A) (k : A -> M tables E B) Q R :
  steps m Q -> (forall a, Q a -> steps (k a) R) -> steps (bind m k) R.
Proof. apply spec_bind, some_step_ok. Qed.

Lemma steps_seq {A B} (m : M tables E A) (k : A -> M tables E B) R : steps m (fun a => steps (k a) R) -> steps (bind m k) R.
Proof. apply spec_seq, some_step_ok. Qed.

Lemma steps_query {A} context (f : tables -> A) (Q : A -> Prop) :
  (forall s, accounts_ok root s -> Q (f s)) -> steps (query context f) Q.
Proof. apply spec_query, some_step_ok. Qed.

(** A statement that changes nothing or makes a step. *)
Lemma steps_execute {A} context (f : tables -> option (A * tables)) (Q : A -> Prop) :
  (forall s a s', accounts_ok root s -> f s = Some (a, s') -> (s' = s \/ some_step root s s') /\ Q a) ->
  steps (execute context f) Q.
Proof.
  intros Hf. apply spec_statement; [apply some_step_ok|]. intros t before now _ Hn _ a s' Hs.
  destruct (Hf now a s' Hn Hs) as [[->|Hst] HQ]; split; [done|done|by apply rtc_once|done].
Qed.

Lemma steps_transaction {A} start commit (body : M tables E A) (Q : A -> Prop) :
  (forall w n s a, accounts_ok root s -> result_of (body (locked w) n s) = Ok a ->
     some_step root s (state_of (body (locked w) n s)) /\ Q a) ->
  steps (transaction start commit body) Q.
Proof. apply spec_transaction, some_step_ok. Qed.

(** What a successful computation did, with the others in between. *)
Definition writes_cache {A} (m : M tables E A) : Prop := steps m (fun _ => True).

Lemma cache_get_steps key : writes_cache (cache_get key).
Proof. apply spec_best_effort; [apply some_step_ok|done|]. intros t s _. split; [by left|done]. Qed.
Lemma cache_exists_steps key : writes_cache (cache_exists key).
Proof. apply spec_best_effort; [apply some_step_ok|done|]. intros t s _. split; [by left|done]. Qed.
Lemma cache_set_steps key c ttl : writes_cache (cache_set key c ttl).
Proof.
  apply spec_best_effort; [apply some_step_ok|done|]. intros t s _. split; [right|done]. exists Other. apply step_cached.
Qed.
Lemma invalidate_steps key : writes_cache (invalidate key).
Proof.
  apply spec_best_effort; [apply some_step_ok|done|]. intros t s _. split; [right|done]. exists Other. apply step_cached.
Qed.

(** A command of the cache in front of the rest. *)
Lemma steps_cache {A B} (m : M tables E A) (k : A -> M tables E B) R :
  writes_cache m -> (forall a, steps (k a) R) -> steps (bind m k) R.
Proof. intros Hm Hk. eapply steps_bind; [exact Hm|]. intros a _. apply Hk. Qed.

Definition reaches : tables -> tables -> Prop := rtc (some_step root).
Lemma reaches_ok s s' : accounts_ok root s -> reaches s s' -> accounts_ok root s'.
Proof. intros H Hs. eapply inv_steps; [apply some_step_ok|done|done]. Qed.

Lemma reaches_then s1 s2 s3 : reaches s1 s2 -> some_step root s2 s3 -> reaches s1 s3.
Proof. intros. by eapply rtc_r. Qed.

Lemma invalidate_calm key w n s (a : unit) s' n' :
  invalidate (E := E) key w n s = (Ok a, s', n') -> calm (some_step root) w -> reaches s s'.
Proof.
  intros Hi Hw. apply best_effort_calm with (2 := Hw) in Hi as (s1 & Hs & [[_ ->]|[= _ <-]]); [done|].
  eapply reaches_then; [exact Hs|]. exists Other. apply step_cached.
Qed.

Lemma claimed k i s s' : claim_attempt k i s = (true, s') -> step root (Claimed k i) s s'.
Proof. apply step_claimed. Qed.

Lemma claim_step k i s : (claim_attempt k i s).2 = s \/ some_step root s (claim_attempt k i s).2.
Proof.
  destruct (claim_attempt k i s) as [[] s'] eqn:Hc; [right; exists (Claimed k i); by apply claimed|left].
  revert Hc. unfold claim_attempt. destruct (users s !! i); [destruct (_ <? _)|]; by intros [= <-].
Qed.

Lemma touched_same u : touched (updated_at u) u = u.
Proof. by destruct u. Qed.

Lemma renew_step k i hash now s : (renew_code k i hash now s).2 = s \/ some_step root s (renew_code k i hash now s).2.
Proof.
  unfold renew_code. destruct (users s !! i) as [u|] eqn:Hu; [|by left].
  destruct (match _ with None => _ | _ => _ end); [right|by left]. exists (Issued k i). cbn [snd].
  rewrite <- (touched_same u). by apply step_issued.
Qed.

Lemma update_returning_Some i f s a s' : update_returning i f s = Some (a, s') ->
  exists u, users s !! i = Some u /\ a = f u /\ s' = set_users <[i := f u]> s.
Proof.
  unfold update_returning, update_user_row. destruct (users s !! i) as [u|]; cbn; [|done].
  rewrite lookup_insert_eq. intros [= <- <-]. by exists u.
Qed.
End Rules.

(** ** A small world *)

Definition demo_code : Code := new_code (lit "salt$123456") 0 (minutes CODE_EXPIRY_MINUTES).

Definition demo_user (i : Z) (e r : string) (verified : bool) (v w : Code) : User :=
  {| id := i; email := lit e; password_hash := lit "salt$Secret1!"; name := lit "demo"; role := lit r;
     created_at := 0; updated_at := 0; token_version := 1; email_verified := verified; verification := v; reset := w;
     tenant_id := DEFAULT_TENANT_ID |}.

(** The system account 1, the verified user 7 with a reset code and a session,
    and the unverified user 8. *)
Definition demo_tables : tables := {|
  users := {[ 1 := demo_user 1 "root@ains" "system" true no_code no_code;
              7 := demo_user 7 "ann@ains" "user" true no_code demo_code;
              8 := demo_user 8 "bob@ains" "user" false demo_code no_code ]};
  tokens := {[ 1 := {| t_user_id := 7; token_hash := lit "h"; t_expires_at := minutes 100; t_created_at := 0 |} ]};
  tenants := {[ DEFAULT_TENANT_ID := {| tenant_name := lit "Default"; tenant_status := lit "active"; tenant_created_at := 0 |} ]};
  channels := ∅; plans := ∅; cached := ∅ |}.

Definition demo_root (i : Z) : bool := i =? 1.

Lemma demo_ok : accounts_ok demo_root demo_tables.
Proof.
  assert (forall i u, users demo_tables !! i = Some u ->
    (i = 1 /\ u = demo_user 1 "root@ains" "system" true no_code no_code) \/
    (i = 7 /\ u = demo_user 7 "ann@ains" "user" true no_code demo_code) \/
    (i = 8 /\ u = demo_user 8 "bob@ains" "user" false demo_code no_code)) as Hu.
  { intros i u Hu. cbn [users demo_tables] in Hu.
    apply lookup_insert_Some in Hu as [[<- <-]|[_ Hu]]; [by left|].
    apply lookup_insert_Some in Hu as [[<- <-]|[_ Hu]]; [by right; left|].
    apply lookup_singleton_Some in Hu as [<- <-]. by right; right. }
  assert (forall k t, tokens demo_tables !! k = Some t ->
    k = 1 /\ t = {| t_user_id := 7; token_hash := lit "h"; t_expires_at := minutes 100; t_created_at := 0 |}) as Ht.
  { intros k t Hk. cbn [tokens demo_tables] in Hk. by apply lookup_singleton_Some in Hk as [<- <-]. }
  split.
  - intros i u [[-> ->]|[[-> ->]|[-> ->]]]%Hu; (split; [done|unfold ROLES; set_solver|by vm_compute|
      intros []; first [apply no_code_ok|apply new_code_ok]|done|by eexists]).
  - intros i j u v [[-> ->]|[[-> ->]|[-> ->]]]%Hu [[-> ->]|[[-> ->]|[-> ->]]]%Hu E; try done; vm_compute in E; discriminate E.
  - intros k t [-> ->]%Ht. by eexists.
  - intros k l t v [-> ->]%Ht [-> ->]%Ht _. done.
  - intros i t Hi. cbn [tenants demo_tables] in Hi. apply lookup_singleton_Some in Hi as [<- <-]. unfold TENANT_STATUSES. cbn -[lit]. set_solver.
  - done.
Qed.

Lemma guesses_are_bounded_witness :
  let s1 := (claim_attempt Reset 7 demo_tables).2 in
  count (Claimed Reset 7) [Claimed Reset 7] <= MAX_FAILED_ATTEMPTS * (1 + renewals Reset 7 [Claimed Reset 7]) /\
  run demo_root [Claimed Reset 7] demo_tables s1.
Proof.
  assert (run demo_root [Claimed Reset 7] demo_tables (claim_attempt Reset 7 demo_tables).2) as Hr.
  { eapply run_cons; [|apply run_nil]. apply claimed. vm_compute. reflexivity. }
  split; [|exact Hr]. apply (guesses_are_bounded demo_root Reset 7 [Claimed Reset 7] _ _ demo_ok Hr).
Defined.

Lemma system_accounts_stay_witness :
  (exists u', users (delete_user_row 7 demo_tables) !! 1 = Some u' /\ role u' = lit "system") /\
  forall j v, users (delete_user_row 7 demo_tables) !! j = Some v -> role v = lit "system" -> demo_root j = true.
Proof.
  apply (system_accounts_stay demo_root [Other] demo_tables (delete_user_row 7 demo_tables) 1
    (demo_user 1 "root@ains" "system" true no_code no_code) demo_ok); [|vm_compute; reflexivity|reflexivity].
  eapply run_cons; [|apply run_nil]. apply step_deleted. reflexivity.
Defined.

Create HintDb keeps.
#[export] Hint Resolve keeps_cache_get keeps_cache_set keeps_cache_exists keeps_invalidate keeps_bind : keeps.
#[export] Hint Extern 5 (keeps _ _ _) => apply keeps_reads; auto with reads : keeps.
