(* ===== verification/Tenants.v ===== *)
(** * Tenants ([server/src/services/tenant.rs], [server/src/handlers/tenant.rs])

    Tenants are made active, disabled and deleted; the default tenant is neither
    disabled nor deleted, a tenant with users, channels or plans is not deleted,
    and only the system account moves users between tenants. *)

From S2P Require Import Prelude Sql Http Accounts.

Open Scope string_scope.
Open Scope list_scope.
Open Scope Z_scope.
Open Scope sql_scope.

Inductive TenantError :=
| NotFound | NotEmpty (id : str) (users channels plans : nat) | InvalidStatus | CannotDisableDefault
| CannotDeleteDefault | InvalidInput (m : str) | TenantInternal (context : string).

#[export] Instance tenant_errors : Errors TenantError := TenantInternal.

Record TenantResponse := {
  tr_id : str; tr_name : str; tr_status : str; tr_created_at : Z; user_count : nat; channel_count : nat
}.

Definition tenant_response (id : str) (t : Tenant) : TenantResponse :=
  {| tr_id := id; tr_name := tenant_name t; tr_status := tenant_status t; tr_created_at := tenant_created_at t;
     user_count := 0; channel_count := 0 |}.

Module TenantService.

Abbreviation M := (Sql.M tables TenantError).

Definition ACTIVE_TTL : Z := seconds 30.

(** [caching]: made by [with_cache] rather than by [new]. *)
Definition is_active (caching : bool) (id : str) : M bool :=
  hit <- (if caching then cache_get (active_key id) else ret None) ;;
  match hit with
  | Some (CBool true) => ret true
  | _ =>
      found <- query "load tenant" (fun s => tenants s !! id) ;;
      let active := match found with Some t => str_eqb (tenant_status t) (lit "active") | None => false end in
      (if active && caching then cache_set (active_key id) (CBool true) ACTIVE_TTL else ret tt) ;;;
      ret active
  end.

Definition validate_tenant_status (status : str) : result unit TenantError :=
  if str_eqb status (lit "active") || str_eqb status (lit "disabled") then Ok tt else Err InvalidStatus.

Definition get (id : str) : M TenantResponse :=
  found <- query "load tenant" (fun s => tenants s !! id) ;;
  t <- some_or found NotFound ;;
  ret (tenant_response id t).

(** [SELECT tenant_id, COUNT] by [GROUP BY tenant_id], of users and of channels. *)
Definition users_in (s : tables) (t : str) : nat := (in_tenant t s).1.1.
Definition channels_in (s : tables) (t : str) : nat := (in_tenant t s).1.2.

Definition list_paginated (page per_page : Z) : M (list TenantResponse * Z) :=
  p <- paginated "count tenants" "fetch tenants page"
         (fun s => cheapest (fun kt => tenant_created_at kt.2) (map_to_list (tenants s))) page per_page ;;
  if (length (items p) =? 0)%nat then ret ([], total p)
  else
    all_user_counts <- query "count users per tenant" users_in ;;
    all_channel_counts <- query "count channels per tenant" channels_in ;;
    ret ((fun kt => let r := tenant_response kt.1 kt.2 in
            {| tr_id := tr_id r; tr_name := tr_name r; tr_status := tr_status r; tr_created_at := tr_created_at r;
               user_count := all_user_counts (tr_id r); channel_count := all_channel_counts (tr_id r) |}) <$> items p,
         total p).

Definition names_for (ids : list str) : M (gmap str str) :=
  match ids with
  | [] => ret ∅
  | _ => query "batch fetch tenant names" (fun s => filter (fun kn => kn.1 ∈ ids) (tenant_name <$> tenants s))
  end.

(** [uuid]: a fresh version 4 UUID; the primary key refuses a repeated one. *)
Definition create (uuid name : str) (now : Z) : M TenantResponse :=
  let t := {| tenant_name := name; tenant_status := lit "active"; tenant_created_at := now |} in
  execute "create tenant" (fun s =>
    match tenants s !! uuid with
    | Some _ => None
    | None => Some (tenant_response uuid t, set_tenants <[uuid := t]> s)
    end).

(** [ActiveModel::update]: the columns that were set. *)
Definition update_tenant_row (id : str) (name status : option str) (s : tables) : option (TenantResponse * tables) :=
  t ← tenants s !! id;
  let t' := {| tenant_name := default (tenant_name t) name; tenant_status := default (tenant_status t) status;
               tenant_created_at := tenant_created_at t |} in
  Some (tenant_response id t', set_tenants <[id := t']> s).

Definition update (caching : bool) (id : str) (name status : option str) : M TenantResponse :=
  guard_else (negb (str_eqb id DEFAULT_TENANT_ID && bool_decide (status = Some (lit "disabled")))) CannotDisableDefault ;;;
  lift (match status with Some st => validate_tenant_status st | None => Ok tt end) ;;;
  found <- query "load tenant" (fun s => tenants s !! id) ;;
  some_or found NotFound ;;;
  guard_else (match name with Some n => negb (str_eqb (trim n) []) | None => true end)
    (InvalidInput (lit "name must not be empty")) ;;;
  result <- execute "update tenant" (update_tenant_row id name status) ;;
  (if (match status with Some _ => true | None => false end) && caching then invalidate (active_key id) else ret tt) ;;;
  ret result.

(** [DELETE]: [false] when a foreign key refuses. *)
Definition delete_row (id : str) (s : tables) : option (bool * tables) :=
  if bool_decide (in_tenant id s = (0, 0, 0)%nat) then Some (true, set_tenants (delete id) s) else Some (false, s).

Definition counts (id : str) : M (nat * nat * nat) :=
  users <- query "count users" (fun s => (in_tenant id s).1.1) ;;
  channels <- query "count channels" (fun s => (in_tenant id s).1.2) ;;
  plans <- query "count plans" (fun s => (in_tenant id s).2) ;;
  ret (users, channels, plans).

Definition not_empty (id : str) (n : nat * nat * nat) : TenantError := NotEmpty id n.1.1 n.1.2 n.2.

Definition delete (caching : bool) (id : str) : M unit :=
  guard_else (negb (str_eqb id DEFAULT_TENANT_ID)) CannotDeleteDefault ;;;
  found <- query "load tenant" (fun s => tenants s !! id) ;;
  some_or found NotFound ;;;
  n <- counts id ;;
  guard_else (bool_decide (n = (0, 0, 0)%nat)) (not_empty id n) ;;;
  deleted <- execute "delete tenant" (delete_row id) ;;
  (if deleted then ret tt
   else
     recount <- caught (counts id) ;;
     fail (not_empty id (default (0, 0, 0)%nat recount))) ;;;
  (if caching then invalidate (active_key id) else ret tt).

(** [Ok(true)], of an answer of [is_active]. *)
Definition open_for (active : option bool) : bool := match active with Some true => true | _ => false end.

End TenantService.

(** ** Handlers *)

#[export] Instance http_errors : Errors HttpError := http_internal.

(** "a", "a and b", "a, b and c". *)
Fixpoint natural_join (parts : list str) : str :=
  match parts with
  | [] => lit "dependent resource(s)"
  | [a] => a
  | [a; b] => a ++ lit " and " ++ b
  | a :: rest => a ++ lit ", " ++ natural_join rest
  end.

Definition counted (n : nat) (what : string) : list str :=
  if (0 <? n)%nat then [show_nat n ++ lit " " ++ lit what] else [].

Definition tenant_error (e : TenantError) : HttpError :=
  match e with
  | NotFound => not_found "Tenant not found"
  | NotEmpty id users channels plans =>
      let parts := counted users "user(s)" ++ counted channels "channel(s)" ++ counted plans "plan(s)" in
      conflict (lit "Tenant '" ++ id ++ lit "' has " ++ natural_join parts ++ lit ". Remove them first.")
  | InvalidStatus => bad_request "status must be active or disabled"
  | CannotDisableDefault => bad_request "Cannot disable the default tenant"
  | CannotDeleteDefault => bad_request "Cannot delete the default tenant"
  | InvalidInput m => bad_request_str m
  | TenantInternal _ => http_internal "Tenant operation failed"
  end.

Abbreviation H := (Sql.M tables HttpError).

Definition has_role (a : AuthUser) (r : string) : bool := str_eqb (au_role a) (lit r).
Definition own_tenant (a : AuthUser) (t : str) : bool := str_eqb (au_tenant_id a) t.

Definition list_tenants (a : AuthUser) (page per_page : Z) : H (Page TenantResponse) :=
  let page := clamp 1 1000000 page in
  let per_page := clamp 1 100 per_page in
  listed <-
    (if has_role a "system" then mapped tenant_error (TenantService.list_paginated page per_page)
     else if has_role a "admin" then
       tenant <- mapped tenant_error (TenantService.get (au_tenant_id a)) ;;
       ret ([tenant], 1)
     else fail (forbidden "Only system and admin can list tenants")) ;;
  let '(shown, count) := listed in
  ret {| items := shown; total := count; page := page; per_page := per_page; total_pages := (count + per_page - 1) / per_page |}.

Definition create_tenant (a : AuthUser) (uuid name : str) (now : Z) : H TenantResponse :=
  guard_else (has_role a "system") (forbidden "Only system can create tenants") ;;;
  guard_else (negb (str_eqb (trim name) [])) (bad_request "name is required") ;;;
  mapped tenant_error (TenantService.create uuid name now).

Definition update_tenant (a : AuthUser) (id : str) (name status : option str) : H TenantResponse :=
  guard_else (has_role a "system" || own_tenant a id) (not_found "Tenant not found") ;;;
  guard_else (negb (str_eqb id DEFAULT_TENANT_ID && bool_decide (status = Some (lit "disabled"))))
    (bad_request "Cannot disable the default tenant") ;;;
  mapped tenant_error (TenantService.update true id name status).

Definition delete_tenant (a : AuthUser) (id : str) : H unit :=
  guard_else (has_role a "system" || own_tenant a id) (not_found "Tenant not found") ;;;
  mapped tenant_error (TenantService.delete true id).

Definition user_response (u : User) : UserResponse :=
  {| r_id := id u; r_email := email u; r_name := name u; r_role := role u; r_tenant_id := tenant_id u;
     r_tenant_name := None; r_email_verified := email_verified u; r_created_at := created_at u; r_updated_at := updated_at u |}.

(** [UPDATE users SET tenant_id = .., token_version = token_version + 1, ..]:
    an unknown tenant is refused, an unknown user is no error. *)
Definition move_user_row (i : Z) (t : str) (now : Z) (s : tables) : option (unit * tables) :=
  match users s !! i with
  | None => Some (tt, s)
  | Some u =>
      v ← next_version (token_version u); _ ← tenants s !! t;
      Some (tt, set_users <[i := touched now (with_profile (email u) (name u) (role u) t (with_version v u))]> s)
  end.

Definition invalidate_counts (t : str) : H unit :=
  invalidate (lit "user:count:admin:" ++ t) ;;; invalidate (lit "user:count:user:" ++ t).

Definition move_user_tenant (a : AuthUser) (user_id : Z) (to : str) (now : Z) : H UserResponse :=
  found <- query "Failed to load user" (fun s => users s !! user_id) ;;
  u <- some_or found (not_found "User not found") ;;
  (if has_role a "system" then ret tt
   else
     guard_else (str_eqb (role u) (lit "user") && own_tenant a (tenant_id u)) (not_found "User not found") ;;;
     guard_else (own_tenant a to) (forbidden "Admin can only move users to their own tenant")) ;;;
  active <- mapped tenant_error (TenantService.is_active true to) ;;
  guard_else active (bad_request "Tenant does not exist or is disabled") ;;;
  if str_eqb (tenant_id u) to then ret (user_response u)
  else
    execute "Failed to move user" (move_user_row user_id to now) ;;;
    moved <- query "Failed to load updated user" (fun s => users s !! user_id) ;;
    updated <- some_or moved (http_internal "User not found after update") ;;
    invalidate (profile_key user_id) ;;;
    invalidate (version_key user_id) ;;;
    invalidate_counts (tenant_id u) ;;;
    invalidate_counts to ;;;
    ret (user_response updated).

(** ** Only steps *)

Section Steps.
Context (root : Z -> bool).

Lemma is_active_steps caching id : steps root (TenantService.is_active caching id) (fun _ => True).
Proof.
  eapply steps_bind; [destruct caching; [apply cache_get_steps|by apply spec_ret with (Q := fun _ => True)]|].
  intros hit _. assert (forall m : Sql.M tables TenantError bool, steps root m (fun _ => True) ->
    steps root (match hit with Some (CBool true) => ret true | _ => m end) (fun _ => True)) as Hm.
  { intros m Hm. destruct hit as [[[]| | |]|]; first [exact Hm|by apply spec_ret]. }
  apply Hm. apply steps_seq, steps_query. intros s _. apply steps_cache.
  - destruct (_ && caching); [apply cache_set_steps|by apply spec_ret].
  - intros _. by apply spec_ret.
Qed.

Lemma get_steps id : steps root (TenantService.get id) (fun _ => True).
Proof. apply steps_seq, steps_query. intros s _. apply steps_seq, spec_some. intros t _. by apply spec_ret. Qed.

Lemma create_steps uuid name now : steps root (TenantService.create uuid name now) (fun _ => True).
Proof.
  apply steps_execute. intros s a s' H. destruct (tenants s !! uuid) eqn:Hu; [done|]. intros [= <- <-]. split; [right|done].
  exists Other. apply step_tenant; cbn -[lit]; [unfold TENANT_STATUSES; set_solver|done].
Qed.

Lemma status_known status : TenantService.validate_tenant_status status = Ok tt -> status ∈ TENANT_STATUSES.
Proof.
  unfold TenantService.validate_tenant_status. destruct (_ || _) eqn:E; [|done]. intros _.
  apply orb_true_iff in E as [->%str_eqb_eq| ->%str_eqb_eq]; unfold TENANT_STATUSES; set_solver.
Qed.

Lemma update_steps caching id name status : steps root (TenantService.update caching id name status) (fun _ => True).
Proof.
  apply steps_seq, spec_guard. intros Hd. apply steps_seq, spec_lift. intros [] Hs. apply steps_seq, steps_query. intros s0 _.
  apply steps_seq, spec_some. intros _ _. apply steps_seq, spec_guard. intros _. apply steps_seq, steps_execute.
  intros s a s' H Hr. unfold TenantService.update_tenant_row in Hr. destruct (tenants s !! id) as [t|] eqn:Ht; [|done].
  cbn in Hr. injection Hr as <- <-. split.
  - right. exists Other. apply step_tenant; cbn [tenant_status].
    + destruct status as [st|]; cbn; [by apply status_known|by eapply (statuses _ _ H)].
    + intros ->. pose proof (default_active _ _ H) as Ha. unfold tenant_active in Ha. rewrite Ht in Ha. apply str_eqb_eq in Ha.
      destruct status as [st|]; cbn [default]; [|done]. pose proof (status_known st Hs) as Hk. unfold TENANT_STATUSES in Hk.
      apply elem_of_cons in Hk as [->|Hk%list_elem_of_singleton]; [done|]. subst st.
      by rewrite bool_decide_true, (proj2 (str_eqb_eq _ _) eq_refl) in Hd.
  - apply steps_cache; [destruct (_ && caching); [apply invalidate_steps|by apply spec_ret]|]. intros _. by apply spec_ret.
Qed.

Lemma counts_steps id : steps root (TenantService.counts id) (fun _ => True).
Proof. do 3 (apply steps_seq, steps_query; intros ? _). by apply spec_ret. Qed.

Lemma delete_steps caching id : steps root (TenantService.delete caching id) (fun _ => True).
Proof.
  apply steps_seq, spec_guard. intros Hd. apply steps_seq, steps_query. intros s0 _. apply steps_seq, spec_some. intros _ _.
  eapply steps_bind; [apply counts_steps|]. intros n _. apply steps_seq, spec_guard. intros _. apply steps_seq, steps_execute.
  intros s deleted s' H Hr. unfold TenantService.delete_row in Hr. case_bool_decide as Hz; injection Hr as <- <-.
  - split.
    + right. exists Other. apply step_tenant_deleted; [|done]. intros ->. by rewrite (proj2 (str_eqb_eq _ _) eq_refl) in Hd.
    + apply steps_seq, spec_ret. destruct caching; [apply invalidate_steps|by apply spec_ret].
  - split; [by left|]. apply steps_seq. eapply steps_bind; [by eapply (spec_caught _ _ _ _ (fun _ => True)); [apply counts_steps|..]|].
    intros recount _. apply spec_fail.
Qed.

Lemma move_row_step i t now s a s' : move_user_row i t now s = Some (a, s') -> accounts_ok root s -> s' = s \/ some_step root s s'.
Proof.
  unfold move_user_row. destruct (users s !! i) as [u|] eqn:Hu; [|intros [= <- <-]; by left].
  destruct (next_version (token_version u)) as [v|] eqn:Hv; cbn; [|done].
  destruct (tenants s !! t) eqn:Ht; cbn; [|done]. intros [= <- <-] H. right. exists Other.
  apply step_profile; [done|by right|by right|by eexists|by apply (keep_email root)].
Qed.

Lemma invalidate_counts_steps t : steps root (invalidate_counts t) (fun _ => True).
Proof. apply steps_cache; [apply invalidate_steps|]. intros _. apply invalidate_steps. Qed.

Lemma move_user_tenant_steps a i t now : steps root (move_user_tenant a i t now) (fun _ => True).
Proof.
  apply steps_seq, steps_query. intros s0 _. apply steps_seq, spec_some. intros u _.
  eapply (steps_bind _ _ _ (fun _ => True)).
  { destruct (has_role a "system"); [by apply spec_ret|]. apply steps_seq, spec_guard. intros _. by apply spec_guard. }
  intros _ _. eapply steps_bind; [apply spec_mapped, is_active_steps|]. intros active _.
  apply steps_seq, spec_guard. intros _. destruct (str_eqb _ _); [by apply spec_ret|].
  apply steps_seq, steps_execute. intros s r s' H Hm. split; [by eapply move_row_step|].
  apply steps_seq, steps_query. intros s1 _. apply steps_seq, spec_some. intros updated _.
  do 2 (apply steps_cache; [apply invalidate_steps|intros _]).
  do 2 (apply steps_cache; [apply invalidate_counts_steps|intros _]). by apply spec_ret.
Qed.

(** Without the cache. *)
Lemma is_active_calm t w n s a s' n' :
  calm (some_step root) w -> TenantService.is_active false t w n s = (Ok a, s', n') -> reaches root s s' /\ a = tenant_active t s'.
Proof.
  intros Hw Ha. unfold TenantService.is_active in Ha. calm_ok Hw. rewrite ?andb_false_r in *. calm_ok Hw.
  split; [done|]. unfold tenant_active. by destruct (tenants _ !! t).
Qed.
End Steps.

Lemma reads_is_active w t : alone w -> reads w (TenantService.is_active false t).
Proof.
  intros Hw. apply reads_bind; [apply reads_ret|]. intros hit.
  assert (forall m : Sql.M tables TenantError bool, reads w m ->
    reads w (match hit with Some (CBool true) => ret true | _ => m end)) as Hm.
  { intros m Hm. destruct hit as [[[]| | |]|]; auto with reads. }
  apply Hm. apply reads_bind; [auto with reads|]. intros found. cbv zeta. rewrite andb_false_r. auto with reads.
Qed.
#[export] Hint Resolve reads_is_active : reads.
#[export] Hint Resolve alone_quiet alone_locked : reads.

(** ** Who moves whom *)

Lemma keeps_is_active w caching t : alone w -> keeps facts w (TenantService.is_active caching t).
Proof.
  intros Hw. apply keeps_bind; [destruct caching; [by apply keeps_cache_get|apply keeps_reads, reads_ret]|]. intros hit.
  assert (forall m : Sql.M tables TenantError bool, keeps facts w m ->
    keeps facts w (match hit with Some (CBool true) => ret true | _ => m end)) as Hm.
  { intros m Hm. destruct hit as [[[]| | |]|]; try exact Hm. apply keeps_reads, reads_ret. }
  apply Hm, keeps_bind; [by apply keeps_reads, reads_query|]. intros found. cbv zeta. apply keeps_bind.
  - destruct (_ && caching); [by apply keeps_cache_set|apply keeps_reads, reads_ret].
  - intros _. apply keeps_reads, reads_ret.
Qed.

Lemma keeps_mapped {E E' A} (f : E -> E') w (m : Sql.M tables E A) : keeps facts w m -> keeps facts w (mapped f m).
Proof.
  intros Hm n s r s' n'. unfold mapped. destruct (m w n s) as [[x s1] n1] eqn:E1. intros [= _ <- _]. by eapply Hm.
Qed.

(** Only the system account moves users between tenants: for anybody else the
    endpoint changes nothing, whatever it is asked and whatever fails. *)
Theorem only_system_moves_users a i to now w n s r s' n' :
  alone w -> has_role a "system" = false -> move_user_tenant a i to now w n s = (r, s', n') -> facts s' = facts s.
Proof.
  intros Hw Ha Hr. unfold move_user_tenant in Hr. pass Hr Hf; [done|]. pass Hr Hu; [done|]. rewrite Ha in Hr.
  pass Hr Hg; [done|].
  match type of Hu with some_or _ _ _ _ _ = (Ok ?x, _, _) => rename x into u end.
  apply bind_ok in Hg as (? & ? & ? & Hg & Hg'). apply guard_ok in Hg as [Hg ->]. apply guard_ok in Hg' as [Hto _].
  apply andb_true_iff in Hg as [_ Hown]. unfold own_tenant in *. apply str_eqb_eq in Hown, Hto.
  apply bind_cases in Hr as [(? & Hr & _)|(? & s1 & ? & Hr1 & Hr)].
  - revert Hr. by apply keeps_mapped, keeps_is_active.
  - assert (facts s1 = facts s) as <- by (revert Hr1; by apply keeps_mapped, keeps_is_active).
    pass Hr Hact; [done|]. rewrite <- Hown, <- Hto in Hr. rewrite (proj2 (str_eqb_eq _ _) eq_refl) in Hr. by unchanged Hr.
Qed.

Lemma only_system_moves_users_witness :
  let a := {| au_user_id := lit "8"; au_role := lit "admin"; au_exp := 0; au_iat := 0; au_token_version := 1; au_remember := false;
              au_tenant_id := lit "default" |} in
  facts (state_of (move_user_tenant a 7 (lit "t2") 60 (quiet 60) 0%nat demo_tables)) = facts demo_tables /\
  result_of (move_user_tenant a 7 (lit "t2") 60 (quiet 60) 0%nat demo_tables) =
    Err (forbidden "Admin can only move users to their own tenant").
Proof.
  cbv zeta. split; [|vm_compute; reflexivity].
  eapply (only_system_moves_users {| au_user_id := lit "8"; au_role := lit "admin"; au_exp := 0; au_iat := 0; au_token_version := 1;
    au_remember := false; au_tenant_id := lit "default" |} 7 (lit "t2") 60 (quiet 60) 0%nat demo_tables).
  - apply alone_quiet.
  - vm_compute. reflexivity.
  - vm_compute. reflexivity.
Defined.
