(* ===== verification/Verification.v ===== *)
(** * Address verification ([server/src/services/verification.rs])

    A code is mailed, at most one a minute, and compared with at most five
    guesses.  The work factor of the comparisons that hide whether an address is
    registered is not modelled. *)

From S2P Require Import Prelude Sql Accounts.

Open Scope string_scope.
Open Scope list_scope.
Open Scope Z_scope.
Open Scope sql_scope.

Inductive VerificationError :=
| InvalidOrExpired | TooManyAttempts | TooSoon | EmailNotConfigured | VerificationInternal (context : string).

#[export] Instance verification_errors : Errors VerificationError := VerificationInternal.

Section Service.
Context {U : Unicode} {A : Argon2}.

Abbreviation M := (Sql.M tables VerificationError).

Definition hash_code (salt code : str) : M str :=
  some_or (argon_hash salt code) (VerificationInternal "Failed to hash verification code").
Definition verify_code (code hash : str) : M bool :=
  some_or (argon_verify code hash) (VerificationInternal "Failed to parse stored code hash").

Definition find_user_by_email (e : str) : M (option User) := query "Failed to query user" (find_by_email e).

(** [draw] and [salt] are what the random generator gives, [now] is the clock. *)
Definition store_verification_code (draw : N) (salt : str) (now : Z) (user : User) : M (User * str) :=
  let code := generate_code draw in
  hash <- hash_code salt code ;;
  updated <- execute "Failed to store verification code"
    (update_returning (id user) (fun u =>
       with_code Verification (new_code hash now (now + minutes CODE_EXPIRY_MINUTES)) (touched now u))) ;;
  ret (updated, code).

(** [send_registration_code_email] behind the semaphore. *)
Definition send_code_email (mail : Mail) : M unit :=
  guard_else (permitted mail) (VerificationInternal "Email send semaphore closed") ;;;
  guard_else (delivered mail) (VerificationInternal "Failed to send verification email").

Definition send_verification_email (draw : N) (salt : str) (now : Z) (mail : Mail) (e : str) : M unit :=
  found <- find_user_by_email (to_lowercase e) ;;
  match found with
  | None => ret tt
  | Some user =>
      if negb (configured mail) then fail EmailNotConfigured
      else if email_verified user then ret tt
      else
        store_verification_code draw salt now user ;;;
        send_code_email mail
  end.

Definition auto_verify (now : Z) (e : str) : M unit :=
  found <- find_user_by_email (to_lowercase e) ;;
  match found with
  | None => ret tt
  | Some user =>
      if email_verified user then ret tt
      else
        execute "Failed to auto-verify email"
          (update_returning (id user) (fun u => touched now (marked_verified u))) ;;;
        ret tt
  end.

Definition increment_failed_attempts (user_id : Z) : M unit :=
  updated <- execute "Failed to increment failed attempts" (fun s => Some (claim_attempt Verification user_id s)) ;;
  guard_else updated TooManyAttempts.

(** [checked] is the clock when the expiry is looked at, [now] at the update. *)
Definition verify_email (checked now : Z) (e code : str) : M unit :=
  found <- find_user_by_email (to_lowercase e) ;;
  user <- some_or found InvalidOrExpired ;;
  guard_else (negb (email_verified user)) InvalidOrExpired ;;;
  hash <- some_or (code_hash (verification user)) InvalidOrExpired ;;
  expires <- some_or (expires_at (verification user)) InvalidOrExpired ;;
  guard_else (checked <=? expires) InvalidOrExpired ;;;
  increment_failed_attempts (id user) ;;;
  right <- verify_code code hash ;;
  guard_else right InvalidOrExpired ;;;
  execute "Failed to verify email"
    (update_returning (id user) (fun u => touched now (marked_verified (with_code Verification no_code u)))) ;;;
  ret tt.

Definition resend_code (draw : N) (salt : str) (now : Z) (mail : Mail) (e : str) : M unit :=
  found <- find_user_by_email (to_lowercase e) ;;
  match found with
  | None => ret tt
  | Some user =>
      if email_verified user then ret tt
      else if negb (configured mail) then fail EmailNotConfigured
      else
        hash <- hash_code salt (generate_code draw) ;;
        updated <- execute "Failed to store verification code"
          (fun s => Some (renew_code Verification (id user) hash now s)) ;;
        guard_else updated TooSoon ;;;
        send_code_email mail
  end.

(** ** Only steps *)

Context (root : Z -> bool).

Lemma find_steps e : steps root (find_user_by_email e) (fun found => forall u, found = Some u -> email u = e).
Proof. apply steps_query. intros s H u Hu. by apply (find_by_email_Some root) in Hu as [_ ?]. Qed.

Lemma send_steps mail Q : Q tt -> steps root (send_code_email mail) Q.
Proof. intros HQ. apply steps_seq, spec_guard. intros _. by apply spec_guard. Qed.

Lemma store_steps draw salt now user : steps root (store_verification_code draw salt now user) (fun _ => True).
Proof.
  apply steps_seq, spec_some. intros hash _. apply steps_seq, steps_execute.
  intros s a s' _ (u & Hu & -> & ->)%update_returning_Some. split; [right; eexists; by apply step_issued|]. by apply spec_ret.
Qed.

Lemma send_verification_email_steps draw salt now mail e :
  steps root (send_verification_email draw salt now mail e) (fun _ => True).
Proof.
  eapply steps_bind; [apply find_steps|]. intros [user|] _; [|by apply spec_ret].
  destruct (negb (configured mail)); [apply spec_fail|]. destruct (email_verified user); [by apply spec_ret|].
  eapply steps_bind; [apply store_steps|]. intros _ _. by apply send_steps.
Qed.

Lemma auto_verify_steps now e : steps root (auto_verify now e) (fun _ => True).
Proof.
  eapply steps_bind; [apply find_steps|]. intros [user|] _; [|by apply spec_ret].
  destruct (email_verified user); [by apply spec_ret|]. apply steps_seq, steps_execute.
  intros s a s' _ (u & Hu & -> & ->)%update_returning_Some. split; [right; eexists; by apply step_auto_verified|]. by apply spec_ret.
Qed.

Lemma count_attempt_steps i : steps root (increment_failed_attempts i) (fun _ => True).
Proof.
  apply steps_seq, steps_execute. intros s a s' _ [= Hc]. pose proof (claim_step root Verification i s) as Hs.
  rewrite Hc in Hs. split; [exact Hs|]. by apply spec_guard.
Qed.

Lemma verify_email_steps checked now e code : steps root (verify_email checked now e code) (fun _ => True).
Proof.
  eapply steps_bind; [apply find_steps|]. intros found _. apply steps_seq, spec_some. intros user _.
  apply steps_seq, spec_guard. intros _. apply steps_seq, spec_some. intros hash _. apply steps_seq, spec_some. intros expires _.
  apply steps_seq, spec_guard. intros _. eapply steps_bind; [apply count_attempt_steps|]. intros _ _.
  apply steps_seq, spec_some. intros right _. apply steps_seq, spec_guard. intros _. apply steps_seq, steps_execute.
  intros s a s' _ (u & Hu & -> & ->)%update_returning_Some. split; [right; eexists; by apply step_verified|]. by apply spec_ret.
Qed.

Lemma resend_code_steps draw salt now mail e : steps root (resend_code draw salt now mail e) (fun _ => True).
Proof.
  eapply steps_bind; [apply find_steps|]. intros [user|] _; [|by apply spec_ret].
  destruct (email_verified user); [by apply spec_ret|]. destruct (negb (configured mail)); [apply spec_fail|].
  apply steps_seq, spec_some. intros hash _. apply steps_seq, steps_execute. intros s a s' _ [= Hc].
  pose proof (renew_step root Verification (id user) hash now s) as Hs. rewrite Hc in Hs. split; [exact Hs|].
  apply steps_seq, spec_guard. intros _. by apply send_steps.
Qed.

(** ** Soundness among the others *)

(** Whatever else goes on, an address is only marked as verified for a guess
    that was right for an unexpired code of an unverified user, and that was
    counted against the five attempts before it was compared; the row keeps
    whatever the others changed in the meantime. *)
Theorem verify_email_sound checked now e code w n s s' n' :
  calm (some_step root) w -> accounts_ok root s ->
  verify_email checked now e code w n s = (Ok tt, s', n') ->
  exists s0 u s1 s2 s3 v,
    reaches root s s0 /\ users s0 !! id u = Some u /\ email_verified u = false /\ good_guess Verification checked e code u /\
    reaches root s0 s1 /\ step root (Claimed Verification (id u)) s1 s2 /\
    reaches root s2 s3 /\ users s3 !! id u = Some v /\
    s' = set_users <[id u := touched now (marked_verified (with_code Verification no_code v))]> s3.
Proof using.
  intros Hw Hok Hv. unfold verify_email, increment_failed_attempts, verify_code, find_user_by_email in Hv.
  calm_ok Hw.
  match goal with
  | Hs : rtc _ s ?a, Hf : find_by_email _ ?a = Some ?u, Hc : Some (claim_attempt _ _ ?b) = Some (_, ?d),
    Hup : update_returning _ _ ?t = Some _ |- _ =>
      apply find_by_email_Some with (root := root) in Hf as [Hu He]; [|by eapply reaches_ok];
      apply update_returning_Some in Hup as (v & Hvv & _ & ->);
      exists a, u, b, d, t, v
  end.
  split_and!; try done.
  - by apply negb_true_iff.
  - split; [done|]. do 2 eexists. split_and!; [done|done|by apply Z.leb_le|by subst].
  - apply claimed. congruence.
Qed.

(** ** Exactly

    When nobody interferes and nothing fails. *)

Definition verify_email_spec (checked now : Z) (e code : str) (s : tables) : result unit VerificationError * tables :=
  match find_by_email (to_lowercase e) s with
  | None => (Err InvalidOrExpired, s)
  | Some u =>
      match email_verified u, code_hash (verification u), expires_at (verification u) with
      | false, Some hash, Some expires =>
          if expires <? checked then (Err InvalidOrExpired, s)
          else if MAX_FAILED_ATTEMPTS <=? failed_attempts (verification u) then (Err TooManyAttempts, s)
          else
            match argon_verify code hash with
            | Some true => (Ok tt, set_users <[id u := touched now (marked_verified (with_code Verification no_code u))]> s)
            | Some false => (Err InvalidOrExpired, (claim_attempt Verification (id u) s).2)
            | None => (Err (VerificationInternal "Failed to parse stored code hash"), (claim_attempt Verification (id u) s).2)
            end
      | _, _, _ => (Err InvalidOrExpired, s)
      end
  end.

(** A wrong guess costs one attempt and nothing else changes; the right one
    clears the code and marks the address. *)
Theorem verify_email_exact t checked now e code n s :
  accounts_ok root s ->
  let r := verify_email checked now e code (quiet t) n s in
  (result_of r, state_of r) = verify_email_spec checked now e code s.
Proof using.
  intros Hok. unfold verify_email, verify_email_spec, find_user_by_email, increment_failed_attempts, verify_code.
  at_rest.
  destruct (find_by_email (to_lowercase e) s) as [u|] eqn:Hf; [|done].
  apply find_by_email_Some with (root := root) in Hf as [Hu _]; [|done].
  destruct (email_verified u); cbn; [done|].
  destruct (code_hash (verification u)) as [hash|]; cbn; [|done].
  destruct (expires_at (verification u)) as [expires|]; cbn; [|done].
  rewrite Z.leb_antisym. destruct (expires <? checked); cbn; [done|].
  unfold claim_attempt. rewrite Hu. cbn. rewrite Z.leb_antisym.
  destruct (failed_attempts (verification u) <? MAX_FAILED_ATTEMPTS); cbn; [|done].
  destruct (argon_verify code hash) as [[]|]; cbn; [|done|done].
  unfold update_returning, update_user_row. cbn. rewrite lookup_insert_eq. cbn. rewrite lookup_insert_eq. cbn.
  by rewrite update_twice.
Qed.
End Service.

#[local] Existing Instance small_argon.
#[local] Existing Instance ascii_tables.

Lemma verify_email_sound_witness : exists s', exists s0 u s1 s2 s3 v,
  reaches demo_root demo_tables s0 /\ users s0 !! id u = Some u /\ email_verified u = false /\
  good_guess Verification 60 (lit "Bob@ains") (lit "123456") u /\
  reaches demo_root s0 s1 /\ step demo_root (Claimed Verification (id u)) s1 s2 /\
  reaches demo_root s2 s3 /\ users s3 !! id u = Some v /\
  s' = set_users <[id u := touched 60 (marked_verified (with_code Verification no_code v))]> s3.
Proof.
  eexists.
  apply (verify_email_sound demo_root 60 60 (lit "Bob@ains") (lit "123456") (quiet 60) 0%nat demo_tables _ 3%nat).
  - apply calm_quiet.
  - apply demo_ok.
  - vm_compute. reflexivity.
Defined.

Lemma verify_email_exact_witness :
  let r := verify_email 60 60 (lit "Bob@ains") (lit "654321") (quiet 60) 0%nat demo_tables in
  (result_of r, state_of r) = verify_email_spec 60 60 (lit "Bob@ains") (lit "654321") demo_tables /\
  result_of r = Err InvalidOrExpired /\ attempts Verification 8 (state_of r) = 1.
Proof.
  split; [|split; vm_compute; reflexivity].
  apply (verify_email_exact demo_root 60 60 60 (lit "Bob@ains") (lit "654321") 0%nat demo_tables), demo_ok.
Defined.

(** Two codes are a minute apart: the second request is refused. *)
Example resend_twice :
  let m := {| configured := true; permitted := true; delivered := true |} in
  let r := resend_code 42 (lit "salt") (seconds 59) m (lit "bob@ains") (quiet 0) 0%nat demo_tables in
  let r' := resend_code 42 (lit "salt") (seconds 60) m (lit "bob@ains") (quiet 0) 0%nat demo_tables in
  result_of r = Err TooSoon /\ result_of r' = Ok tt /\
  code_hash <$> (verification <$> users (state_of r') !! 8) = Some (Some (lit "salt$000042")).
Proof. split_and!; vm_compute; reflexivity. Qed.
