(* ===== verification/PasswordReset.v ===== *)
(** * Password reset ([server/src/services/password_reset.rs])

    A code is mailed, at most one a minute, and compared with at most five
    guesses; the right one replaces the password, ends every session and is
    gone, all in one transaction. *)

From S2P Require Import Prelude Sql Http Accounts Tenants.

Open Scope string_scope.
Open Scope list_scope.
Open Scope Z_scope.
Open Scope sql_scope.

Inductive PasswordResetError :=
| InvalidOrExpired | TooManyAttempts | TooSoon | EmailNotConfigured | ResetInternal (context : string).

#[export] Instance reset_errors : Errors PasswordResetError := ResetInternal.

Record PasswordResetOutcome := { o_user_id : Z; o_role : str; o_token_version : Z; o_tenant_id : str }.

Section Service.
Context {U : Unicode} {A : Argon2}.

Abbreviation M := (Sql.M tables PasswordResetError).

Definition hash_code (salt code : str) : M str :=
  some_or (argon_hash salt code) (ResetInternal "Failed to hash reset code").
Definition verify_code (code hash : str) : M bool :=
  some_or (argon_verify code hash) (ResetInternal "Failed to parse stored reset code hash").

Definition find_user_by_email (e : str) : M (option User) := query "Failed to query user" (find_by_email e).

Definition request_reset (draw : N) (salt : str) (now : Z) (mail : Mail) (e : str) : M unit :=
  found <- find_user_by_email (to_lowercase e) ;;
  match found with
  | None => ret tt
  | Some user =>
      guard_else (configured mail) EmailNotConfigured ;;;
      hash <- hash_code salt (generate_code draw) ;;
      updated <- execute "Failed to store password-reset code"
        (fun s => Some (renew_code Reset (id user) hash now s)) ;;
      guard_else updated TooSoon ;;;
      guard_else (delivered mail) (ResetInternal "Failed to send password-reset code email")
  end.

Definition increment_failed_attempts (user_id : Z) : M unit :=
  updated <- execute "Failed to increment reset failed attempts" (fun s => Some (claim_attempt Reset user_id s)) ;;
  guard_else updated TooManyAttempts.

(** [UPDATE users SET .. WHERE id = .. AND password_reset_token_hash IS NOT NULL]:
    whether a row was updated. *)
Definition consume_code (i : Z) (hash : str) (now : Z) (s : tables) : option (bool * tables) :=
  match users s !! i with
  | Some u =>
      match code_hash (reset u) with
      | Some _ =>
          v ← next_version (token_version u);
          Some (true, set_users <[i := touched now (with_version v (with_password hash (with_code Reset no_code u)))]> s)
      | None => Some (false, s)
      end
  | None => Some (false, s)
  end.

Definition replace_password (i : Z) (hash : str) (now : Z) : M User :=
  claimed <- execute "Failed to atomically update password and consume reset code" (consume_code i hash now) ;;
  guard_else claimed InvalidOrExpired ;;;
  found <- query "Failed to re-fetch user after password reset" (fun s => users s !! i) ;;
  updated <- some_or found (ResetInternal "User vanished after password-reset UPDATE") ;;
  execute "Failed to revoke refresh tokens during password reset" (fun s => Some (tt, delete_user_tokens (id updated) s)) ;;;
  ret updated.

Definition tenant_open (t : str) : M unit :=
  active <- caught (TenantService.is_active false t) ;;
  guard_else (TenantService.open_for active) InvalidOrExpired.

(** [checked] is the clock when the expiry is looked at, [now] in the database. *)
Definition reset_password (checked now : Z) (salt : str) (e code new_password : str) : M PasswordResetOutcome :=
  found <- find_user_by_email (to_lowercase e) ;;
  user <- some_or found InvalidOrExpired ;;
  stored_hash <- some_or (code_hash (reset user)) InvalidOrExpired ;;
  tenant_open (tenant_id user) ;;;
  expires <- some_or (expires_at (reset user)) InvalidOrExpired ;;
  guard_else (checked <=? expires) InvalidOrExpired ;;;
  increment_failed_attempts (id user) ;;;
  right <- verify_code code stored_hash ;;
  guard_else right InvalidOrExpired ;;;
  new_hash <- some_or (argon_hash salt new_password) (ResetInternal "Failed to hash new password") ;;
  updated <- transaction "Failed to begin transaction for password reset" "Failed to commit password-reset transaction"
    (replace_password (id user) new_hash now) ;;
  ret {| o_user_id := id updated; o_role := role updated; o_token_version := token_version updated; o_tenant_id := tenant_id updated |}.

(** ** Only steps *)

Context (root : Z -> bool).

Lemma request_reset_steps draw salt now mail e : steps root (request_reset draw salt now mail e) (fun _ => True).
Proof using.
  apply steps_seq, steps_query. intros s0 _. destruct (find_by_email _ s0) as [user|]; [|by apply spec_ret].
  apply steps_seq, spec_guard. intros _. apply steps_seq, spec_some. intros hash _. apply steps_seq, steps_execute.
  intros s a s' _ [= Hc]. pose proof (renew_step root Reset (id user) hash now s) as Hs. rewrite Hc in Hs. split; [exact Hs|].
  apply steps_seq, spec_guard. intros _. by apply spec_guard.
Qed.

(** What the transaction does: the row, its new version, and no session left. *)
Lemma replace_password_ok i hash now w n s a s' n' :
  accounts_ok root s -> replace_password i hash now (locked w) n s = (Ok a, s', n') ->
  exists u v, users s !! i = Some u /\ is_Some (code_hash (reset u)) /\ next_version (token_version u) = Some v /\
    a = touched now (with_version v (with_password hash (with_code Reset no_code u))) /\
    s' = delete_user_tokens i (set_users <[i := a]> s).
Proof using.
  intros Hok Hr. unfold replace_password in Hr. sql_ok.
  match goal with Hc : consume_code _ _ _ _ = Some _ |- _ => unfold consume_code in Hc end.
  destruct (users s !! i) as [u|] eqn:Hu; [|congruence]. destruct (code_hash (reset u)) as [h|] eqn:Hh; [|congruence].
  destruct (next_version (token_version u)) as [v|] eqn:Hv; [|done].
  simplify_eq/=.
  match goal with Hl : lookup i (insert i _ _) = Some _ |- _ => rewrite lookup_insert_eq in Hl; injection Hl as <- end.
  exists u, v. split_and!; try done. f_equal. exact (own_key _ _ _ _ (users_ok _ _ Hok _ _ Hu)).
Qed.

Lemma tenant_open_steps t : steps root (tenant_open t) (fun _ => True).
Proof using.
  eapply steps_bind; [by eapply (spec_caught _ _ _ _ (fun _ => True)); [apply is_active_steps|..]|].
  intros active _. by apply spec_guard.
Qed.

Lemma increment_steps i : steps root (increment_failed_attempts i) (fun _ => True).
Proof using.
  apply steps_seq, steps_execute. intros s a s' _ [= Hc]. pose proof (claim_step root Reset i s) as Hs.
  rewrite Hc in Hs. split; [exact Hs|]. by apply spec_guard.
Qed.

Lemma replace_password_steps start commit i hash now :
  steps root (transaction start commit (replace_password i hash now)) (fun _ => True).
Proof using.
  apply steps_transaction. intros w n s a Hok Hr. split; [|done].
  destruct (replace_password i hash now (locked w) n s) as [[r s'] n'] eqn:E. unfold result_of, state_of in *; cbn in *. subst r.
  destruct (replace_password_ok _ _ _ _ _ _ _ _ _ Hok E) as (u & v & Hu & _ & Hv & -> & ->).
  eexists. by apply step_reset.
Qed.

Lemma reset_password_steps checked now salt e code new_password :
  steps root (reset_password checked now salt e code new_password) (fun _ => True).
Proof using.
  apply steps_seq, steps_query. intros s0 _. apply steps_seq, spec_some. intros user _. apply steps_seq, spec_some. intros hash _.
  eapply steps_bind; [apply tenant_open_steps|]. intros _ _. apply steps_seq, spec_some. intros expires _.
  apply steps_seq, spec_guard. intros _. eapply steps_bind; [apply increment_steps|]. intros _ _.
  apply steps_seq, spec_some. intros right _. apply steps_seq, spec_guard. intros _. apply steps_seq, spec_some. intros new_hash _.
  eapply steps_bind; [apply replace_password_steps|]. intros updated _. by apply spec_ret.
Qed.

(** ** Soundness among the others *)

(** The row and the tables after a reset. *)
Definition reset_row (hash : str) (now : Z) (u : User) : User :=
  touched now (with_version (token_version u + 1) (with_password hash (with_code Reset no_code u))).
Definition after_reset (i : Z) (u : User) (s : tables) : tables := delete_user_tokens i (set_users <[i := u]> s).

Lemma tenant_open_calm t w n s s' n' :
  calm (some_step root) w -> tenant_open t w n s = (Ok tt, s', n') -> reaches root s s' /\ tenant_active t s' = true.
Proof using.
  intros Hw Ha. unfold tenant_open in Ha. calm_ok Hw.
  match goal with Hc : caught _ _ _ _ = _ |- _ => apply caught_calm in Hc as (r & Hr & ->) end.
  destruct r as [[]|]; try done. by apply (is_active_calm root) in Hr as [? <-].
Qed.

(** C5: Whatever else goes on, a password is only replaced for a guess that was
    right for an unexpired code, that was counted against the five attempts
    before it was compared, and while the tenant was active; then the row has a
    new password and a new version and no code, and no session of the user is
    left, all at once. *)
Theorem reset_password_sound checked now salt e code new_password w n s o s' n' :
  calm (some_step root) w -> accounts_ok root s ->
  reset_password checked now salt e code new_password w n s = (Ok o, s', n') ->
  exists s0 u st s1 s2 s3 v hash,
    reaches root s s0 /\ users s0 !! id u = Some u /\ good_guess Reset checked e code u /\
    reaches root s0 st /\ tenant_active (tenant_id u) st = true /\
    reaches root st s1 /\ step root (Claimed Reset (id u)) s1 s2 /\
    reaches root s2 s3 /\ users s3 !! id u = Some v /\ is_Some (code_hash (reset v)) /\
    argon_hash salt new_password = Some hash /\
    s' = after_reset (id u) (reset_row hash now v) s3 /\
    o = {| o_user_id := id u; o_role := role v; o_token_version := token_version v + 1; o_tenant_id := tenant_id v |}.
Proof using.
  intros Hw Hok Hv. unfold reset_password, increment_failed_attempts, verify_code, find_user_by_email in Hv. calm_ok Hw.
  match goal with
  | Hs : rtc _ s ?a, Hf : find_by_email _ ?a = Some ?u, Ht : tenant_open _ _ _ ?a = (Ok ?t, ?st, _),
    Hc : Some (claim_attempt _ _ ?b) = Some (_, ?d), Hx : rtc _ _ ?b, Hy : rtc _ ?d ?f,
    Hr : replace_password _ ?nh _ _ _ ?f = (Ok _, _, _) |- _ =>
      apply find_by_email_Some with (root := root) in Hf as [Hu He]; [|by eapply reaches_ok];
      destruct t; apply tenant_open_calm in Ht as [Hst Hact]; [|done];
      assert (step root (Claimed Reset (id u)) b d) as Hclaim by (apply claimed; congruence);
      assert (accounts_ok root f) as Hokf
        by (repeat (eapply reaches_ok; [|eassumption]); eapply step_keeps_ok; [|exact Hclaim]; by repeat (eapply reaches_ok; [|eassumption]));
      apply replace_password_ok in Hr as (v & ver & Hv & Hcode & ->%next_version_Some & -> & ->); [|done];
      exists a, u, st, b, d, f, v, nh
  end.
  split_and!; try done.
  - split; [done|]. do 2 eexists. split_and!; [done|done|by apply Z.leb_le|by subst].
  - cbn. by rewrite (own_key _ _ _ _ (users_ok _ _ Hokf _ _ Hv)).
Qed.

(** ** Nothing by halves *)

Lemma increment_state i w n s r s' n' :
  alone w -> increment_failed_attempts i w n s = (r, s', n') -> s' = s \/ s' = (claim_attempt Reset i s).2.
Proof using.
  intros Hw Hr. apply bind_cases in Hr as [(? & Hx & _)|(a & ? & ? & Hx & Hr)].
  - left. by eapply execute_err.
  - apply execute_ok in Hx; [|done]. injection Hx as Hx. unchanged Hr. right. by rewrite Hx.
Qed.

(** When nobody interferes, a request that is refused, or fails at any of its
    statements, has at most counted one guess: the password, the version, the
    code and the sessions are as they were. *)
Theorem refused_reset_changes_nothing checked now salt e code new_password w n s err s' n' :
  alone w -> reset_password checked now salt e code new_password w n s = (Err err, s', n') ->
  s' = s \/ exists u, find_by_email (to_lowercase e) s = Some u /\ s' = (claim_attempt Reset (id u) s).2.
Proof using.
  intros Hw Hr. unfold reset_password, find_user_by_email, tenant_open in Hr.
  pass Hr Hf; [by left|]. pass Hr Hu; [by left|]. pass Hr Hh; [by left|].
  pass Hr Ht; [by left|]. pass Hr He; [by left|]. pass Hr Hc; [by left|].
  match type of Hu with some_or ?f _ _ _ _ = (Ok ?x, _, _) => rename x into user end.
  apply query_ok in Hf as [-> _]; [|done]. apply some_or_ok in Hu as [Hu _].
  apply bind_cases in Hr as [(? & Hi & ?)|(? & s1 & ? & Hi & Hr)]; apply increment_state in Hi as Hs; [|done| |done].
  { destruct Hs as [->| ->]; [by left|right; by exists user]. }
  assert (s' = s1) as ->; [|destruct Hs as [->| ->]; [by left|right; by exists user]]. clear Hs Hi.
  unfold verify_code in Hr. pass Hr Hv; [done|]. pass Hr Hg; [done|]. pass Hr Hh2; [done|].
  apply bind_cases in Hr as [(? & Hx & ?)|(? & ? & ? & _ & Hr)]; [by eapply transaction_err|done].
Qed.
End Service.

#[local] Existing Instance small_argon.
#[local] Existing Instance ascii_tables.

Lemma reset_password_sound_witness : exists s' o, exists s0 u st s1 s2 s3 v hash,
  reaches demo_root demo_tables s0 /\ users s0 !! id u = Some u /\ good_guess Reset 60 (lit "ann@ains") (lit "123456") u /\
  reaches demo_root s0 st /\ tenant_active (tenant_id u) st = true /\
  reaches demo_root st s1 /\ step demo_root (Claimed Reset (id u)) s1 s2 /\
  reaches demo_root s2 s3 /\ users s3 !! id u = Some v /\ is_Some (code_hash (reset v)) /\
  argon_hash (lit "s") (lit "New-pass1") = Some hash /\
  s' = after_reset (id u) (reset_row hash 60 v) s3 /\
  o = {| o_user_id := id u; o_role := role v; o_token_version := token_version v + 1; o_tenant_id := tenant_id v |}.
Proof.
  do 2 eexists.
  apply (reset_password_sound demo_root 60 60 (lit "s") (lit "ann@ains") (lit "123456") (lit "New-pass1") (quiet 60) 0%nat
    demo_tables _ _ 8%nat).
  - apply calm_quiet.
  - apply demo_ok.
  - vm_compute. reflexivity.
Defined.

Lemma refused_reset_changes_nothing_witness : exists s',
  s' = demo_tables \/ exists u, find_by_email (to_lowercase (lit "ann@ains")) demo_tables = Some u /\
    s' = (claim_attempt Reset (id u) demo_tables).2.
Proof.
  eexists.
  apply (refused_reset_changes_nothing 60 60 (lit "s") (lit "ann@ains") (lit "654321") (lit "New-pass1") (quiet 60) 0%nat
    demo_tables InvalidOrExpired _ 3%nat).
  - apply alone_quiet.
  - vm_compute. reflexivity.
Defined.

(** The transaction only asks whether there is a code, not whether it is the
    one that was compared.  Two requests read the same code; while the second
    hashes its password the first consumes the code and a new one is requested;
    then the second consumes the new code with the old one. *)
Definition in_between (s : tables) : tables :=
  let s1 := state_of (reset_password 60 60 (lit "s") (lit "ann@ains") (lit "123456") (lit "First-pass1") (quiet 60) 0%nat s) in
  let mail := {| configured := true; permitted := true; delivered := true |} in
  state_of (request_reset 777777 (lit "salt") 60 mail (lit "ann@ains") (quiet 60) 0%nat s1).

Definition second_request (n : nat) : moment tables :=
  {| clock := 60; fault := false; others := if (n =? 3)%nat then in_between else fun s => s |}.

Example spent_code_redeemed_again :
  let r := reset_password 60 60 (lit "s") (lit "ann@ains") (lit "123456") (lit "Second-pass1") second_request 0%nat demo_tables in
  option_map (fun u => code_hash (reset u)) (users (in_between demo_tables) !! 7) = Some (Some (lit "salt$777777")) /\
  (exists o, result_of r = Ok o) /\
  option_map password_hash (users (state_of r) !! 7) = Some (lit "s$Second-pass1").
Proof. split_and!; [vm_compute; reflexivity|eexists; vm_compute; reflexivity|vm_compute; reflexivity]. Qed.
