(* ===== verification/Auth.v ===== *)
(** * Sessions ([server/src/services/auth.rs], [server/src/utils/jwt.rs],
    [crates/ains-runtime/src/auth.rs], [server/src/lib.rs] and the
    authentication middleware of [crates/ains-axum/src/middleware.rs])

    A login gives a signed token that carries the user's [token_version], and a
    refresh token when asked to remember; a refresh token is exchanged once; and
    revoking deletes the refresh tokens and increments the version, so that no
    token signed before passes the middleware again. *)

From S2P Require Import Prelude Sql Http Accounts Tenants.

Open Scope string_scope.
Open Scope list_scope.
Open Scope Z_scope.
Open Scope sql_scope.

Inductive AuthError := InvalidCredentials | AuthInternal (context : string).

#[export] Instance auth_errors : Errors AuthError := AuthInternal.

(** ** Tokens *)

Record JwtClaims := {
  sub : str; exp : Z; iat : Z; iss : str; aud : str; c_role : str; c_token_version : Z; remember : bool; c_tenant_id : str
}.

(** [jsonwebtoken]: HS256 signatures, checked with a leeway for the expiry and
    against the issuer and the audience. *)
Record Validation := { leeway : Z; issuer : str; audience : str }.

Class Jwt := {
  Token : Type;
  no_token : Token;
  encode : JwtClaims -> str -> option Token;
  decode : Validation -> Z -> Token -> str -> option JwtClaims;
  decode_sound : forall v now t k c, decode v now t k = Some c -> iss c = issuer v /\ aud c = audience v /\ now - leeway v <= exp c;
  decode_signed : forall v now t k c c', encode c k = Some t -> decode v now t k = Some c' -> c' = c;
  decode_complete : forall v now t k c,
    encode c k = Some t -> iss c = issuer v -> aud c = audience v -> now - leeway v <= exp c -> decode v now t k = Some c
}.

(** Tokens that anyone can sign, for evaluating concrete inputs. *)
Definition small_jwt : Jwt.
Proof.
  refine {| Token := option (JwtClaims * str);
    no_token := None;
    encode c k := Some (Some (c, k));
    decode v now t k := match t with
      | Some (c, k') =>
          if str_eqb k k' && str_eqb (iss c) (issuer v) && str_eqb (aud c) (audience v) && (now - leeway v <=? exp c)
          then Some c else None
      | None => None
      end |}.
  - intros v now [[c' k']|] k c; [|done]. destruct (_ && _) eqn:E; [|done]. intros [= ->].
    apply andb_true_iff in E as [[[_ H1%str_eqb_eq]%andb_true_iff H2%str_eqb_eq]%andb_true_iff H3%Z.leb_le]. done.
  - intros v now t k c c' [= <-]. by destruct (_ && _); [intros [= <-]|].
  - intros v now t k c [= <-] H1 H2 H3. rewrite !(proj2 (str_eqb_eq _ _)) by done. by rewrite (proj2 (Z.leb_le _ _) H3).
Defined.

Section Tokens.
Context {J : Jwt}.

Definition wrap_u64 (n : Z) : Z := n mod 2 ^ 64.

(** [now]: seconds since the epoch. *)
Definition claims_of (now : Z) (user_id role : str) (expiry_seconds : Z) (remember : bool) (token_version : Z) (tenant_id : str) :
    JwtClaims :=
  {| sub := user_id; exp := wrap_u64 (now + expiry_seconds); iat := now; iss := lit "ains-server"; aud := lit "ains";
     c_role := role; c_token_version := token_version; remember := remember; c_tenant_id := tenant_id |}.

Definition generate_token (now : Z) (user_id role secret : str) (expiry_seconds : Z) (remember : bool) (token_version : Z)
    (tenant_id : str) : option Token :=
  encode (claims_of now user_id role expiry_seconds remember token_version tenant_id) secret.

Definition the_validation : Validation := {| leeway := 5; issuer := lit "ains-server"; audience := lit "ains" |}.

Definition validate_jwt (now : Z) (token : Token) (secret : str) : option JwtClaims := decode the_validation now token secret.

Definition auth_user (c : JwtClaims) : AuthUser :=
  {| au_user_id := sub c; au_role := c_role c; au_exp := exp c; au_iat := iat c; au_token_version := c_token_version c;
     au_remember := remember c; au_tenant_id := c_tenant_id c |}.

(** ** The service *)

Record Config := {
  jwt_secret : str; jwt_expiry_seconds : Z; jwt_remember_expiry_seconds : Z; refresh_token_expiry_seconds : Z
}.

Record LoginRequest := { l_email : str; l_password : str; l_remember : bool }.

Record LoginResponse := {
  token : Token; token_type : str; expires_in : Z; user_id : str; l_role : str; l_tenant_id : str;
  refresh_token : str; refresh_expires_in : Z
}.

(** [DateTime::from_timestamp], in the clock's unit. *)
Context {U : Unicode} {A : Argon2} {D : Digest} (from_timestamp : Z -> option Z) (config : Config).

Abbreviation M := (Sql.M tables AuthError).


(** [bytes]: the 48 random bytes. *)
Definition generate_refresh_token (bytes : list N) : str * str :=
  let raw := hex_encode bytes in (raw, sha256_hex raw).

Definition delete_all_refresh_tokens (user_id : Z) : M unit :=
  execute "Failed to delete all refresh tokens for user" (fun s => Some (tt, delete_user_tokens user_id s)).
Definition delete_refresh_token (hash : str) : M unit :=
  execute "Failed to delete refresh token" (fun s => Some (tt, delete_token hash s)).
Definition store_refresh_token {E} `{Errors E} (t : RefreshToken) : Sql.M tables E unit :=
  execute "Failed to store refresh token" (fun s => s' ← insert_token t s; Some (tt, s')).

Definition store_session (t : RefreshToken) : M unit :=
  transaction "Failed to begin transaction for refresh token rotation" "Failed to commit refresh token rotation"
    (delete_all_refresh_tokens (t_user_id t) ;;; store_refresh_token t).

(** What the clock and the random generator give: the seconds since the epoch
    for the token and for the refresh token, the time of its row, 48 bytes. *)
Record Draws := { token_secs : Z; refresh_secs : Z; stored_at : Z; bytes : list N }.

(** The rest of [login], once the user may. *)
Definition issue (d : Draws) (request : LoginRequest) (user : User) : M LoginResponse :=
  let jwt_expiry := if l_remember request then jwt_remember_expiry_seconds config else jwt_expiry_seconds config in
  signed <- some_or (generate_token (token_secs d) (show_Z (id user)) (role user) (jwt_secret config) jwt_expiry
                       (l_remember request) (token_version user) (tenant_id user))
                    (AuthInternal "Failed to generate token") ;;
  refresh <-
    (if l_remember request then
       let (raw, hash) := generate_refresh_token (bytes d) in
       expires <- some_or (from_timestamp (wrap_u64 (refresh_secs d + refresh_token_expiry_seconds config)))
                    (AuthInternal "Failed to compute refresh token expiry") ;;
       store_session {| t_user_id := id user; token_hash := hash; t_expires_at := expires; t_created_at := stored_at d |} ;;;
       ret (raw, refresh_token_expiry_seconds config)
     else ret ([], 0)) ;;
  ret {| token := signed; token_type := lit "Bearer"; expires_in := jwt_expiry; user_id := show_Z (id user);
         l_role := role user; l_tenant_id := tenant_id user; refresh_token := refresh.1; refresh_expires_in := refresh.2 |}.

Definition login (d : Draws) (request : LoginRequest) : M LoginResponse :=
  found <- query "Failed to query user" (find_by_email (to_lowercase (l_email request))) ;;
  user <- some_or found InvalidCredentials ;;
  is_valid <- some_or (argon_verify (l_password request) (password_hash user)) (AuthInternal "Failed to verify password") ;;
  guard_else is_valid InvalidCredentials ;;;
  guard_else (email_verified user) InvalidCredentials ;;;
  active <- caught (TenantService.is_active false (tenant_id user)) ;;
  guard_else (TenantService.open_for active) InvalidCredentials ;;;
  issue d request user.

Definition revoke_all_sessions (user_id : Z) : M unit :=
  transaction "Failed to begin transaction for revoke_all_sessions" "Failed to commit revoke_all_sessions transaction"
    (execute "Failed to delete refresh tokens" (fun s => Some (tt, delete_user_tokens user_id s)) ;;;
     execute "Failed to increment token_version" (fun s => s' ← bump_version user_id s; Some (tt, s'))).

(** [now]: the clock in the transaction; [None] when the token is unknown,
    expired, spent, or its tenant is not active. *)
Definition rotate_body (now created : Z) (old_hash new_hash : str) (new_expires_at : Z) :
    Sql.M tables (option AuthError) (Z * str * Z * str) :=
  token_record <- query "Failed to query refresh token" (find_token old_hash now) ;;
  t <- some_or token_record None ;;
  found <- query "Failed to query user" (fun s => users s !! t_user_id t) ;;
  user <- some_or found None ;;
  tenant <- query "Failed to query tenant" (tenant_active (tenant_id user)) ;;
  guard_else tenant None ;;;
  execute "Failed to delete old refresh token" (fun s => Some (tt, delete_token old_hash s)) ;;;
  execute "Failed to store new refresh token"
    (fun s => s' ← insert_token {| t_user_id := id user; token_hash := new_hash; t_expires_at := new_expires_at; t_created_at := created |} s;
              Some (tt, s')) ;;;
  ret (id user, role user, token_version user, tenant_id user).

Definition rotate_refresh_token (now created : Z) (old_hash new_hash : str) (new_expires_at : Z) : M (option (Z * str * Z * str)) :=
  or_none (transaction "Failed to begin transaction" "Failed to commit transaction"
    (rotate_body now created old_hash new_hash new_expires_at)).

Definition expired (now : Z) (t : RefreshToken) : bool := t_expires_at t <=? now.
Definition cleanup_expired_refresh_tokens (now : Z) : M Z :=
  execute "Failed to cleanup expired refresh tokens" (fun s =>
    Some (Z.of_nat (length (List.filter (expired now) (rows (tokens s)))), delete_tokens_where (expired now) s)).

(** ** Authentication of a request *)

Inductive VersionError := Mismatch | UserNotFound | VersionQuery (context : string).
#[export] Instance version_errors : Errors VersionError := VersionQuery.

Definition VERSION_TTL : Z := seconds 30.

Definition verify_token_version (user_id token_version : Z) : Sql.M tables VersionError unit :=
  hit <- cache_get (version_key user_id) ;;
  match hit with
  | Some (CNumber cached_version) => guard_else (cached_version =? token_version) Mismatch
  | _ =>
      found <- query "Failed to query user for token version check" (fun s => users s !! user_id) ;;
      user <- some_or found UserNotFound ;;
      cache_set (version_key user_id) (CNumber (Accounts.token_version user)) VERSION_TTL ;;;
      guard_else (Accounts.token_version user =? token_version) Mismatch
  end.

(** [auth_middleware]: [token] was found in the header or the cookie, [now] is
    in seconds. *)
Definition authenticate (now : Z) (presented : option Token) : Sql.M tables HttpError AuthUser :=
  t <- some_or presented (unauthorized "Missing or invalid Authorization header") ;;
  claims <- some_or (validate_jwt now t (jwt_secret config)) (unauthorized "Invalid or expired token") ;;
  user_id <- some_or (parse_i64 (sub claims)) (unauthorized "Invalid or expired token") ;;
  mapped (fun _ => unauthorized "Invalid or expired token") (verify_token_version user_id (c_token_version claims)) ;;;
  ret (auth_user claims).

Definition require_admin (a : AuthUser) : bool := str_eqb (au_role a) (lit "admin") || str_eqb (au_role a) (lit "system").

(** ** Only steps *)

Context (root : Z -> bool).

Lemma store_session_body t w n s a s' n' :
  (delete_all_refresh_tokens (t_user_id t) ;;; store_refresh_token t) (locked w) n s = (Ok a, s', n') ->
  insert_token t (delete_user_tokens (t_user_id t) s) = Some s'.
Proof using.
  intros E. unfold delete_all_refresh_tokens, store_refresh_token in E. sql_ok. simplify_eq/=.
  by destruct (insert_token t _); simplify_eq/=.
Qed.

Lemma store_session_steps t : steps root (store_session t) (fun _ => True).
Proof using.
  apply steps_transaction. intros w n s a _ Hr. split; [|done].
  destruct ((_ ;;; _) (locked w) n s) as [[r s1] n1] eqn:E. unfold result_of, state_of in *; cbn [fst snd] in *. subst r.
  exists Other. apply (step_login root s _ t). by eapply store_session_body.
Qed.

Lemma store_session_calm t w n s a s' n' :
  calm (some_step root) w -> store_session t w n s = (Ok a, s', n') ->
  has_session (t_user_id t) s' /\ forall k v, tokens s' !! k = Some v -> t_user_id v = t_user_id t -> v = t.
Proof using.
  intros Hw Hs. apply transaction_calm with (2 := Hw) in Hs as (s1 & n1 & n2 & _ & Hb).
  by apply store_session_body, only_session in Hb.
Qed.

Lemma issue_steps d request user : steps root (issue d request user) (fun _ => True).
Proof using.
  apply steps_seq, spec_some. intros signed _. eapply (steps_bind _ _ _ (fun _ => True)).
  - destruct (l_remember request); [|by apply spec_ret]. destruct (generate_refresh_token _) as [raw hash].
    apply steps_seq, spec_some. intros expires _. eapply steps_bind; [apply store_session_steps|]. intros _ _. by apply spec_ret.
  - intros refresh _. by apply spec_ret.
Qed.

Lemma issue_fails d request user : fails (fun e => e <> InvalidCredentials) (issue d request user).
Proof using.
  apply fails_bind; [auto with fails|]. intros signed. apply fails_bind; [|auto with fails].
  destruct (l_remember request); [|auto with fails]. destruct (generate_refresh_token _) as [raw hash].
  apply fails_bind; [auto with fails|]. intros expires. apply fails_bind; [|auto with fails].
  apply fails_transaction; [done|done|]. apply fails_bind; [by apply fails_execute|]. intros _. by apply fails_execute.
Qed.

Lemma login_steps d request : steps root (login d request) (fun _ => True).
Proof using.
  apply steps_seq, steps_query. intros s0 _. apply steps_seq, spec_some. intros user _. apply steps_seq, spec_some. intros is_valid _.
  do 2 (apply steps_seq, spec_guard; intros _).
  eapply steps_bind; [by eapply (spec_caught _ _ _ _ (fun _ => True)); [apply is_active_steps|..]|].
  intros active _. apply steps_seq, spec_guard. intros _. apply issue_steps.
Qed.

Lemma revoke_body_ok i w n s a s' n' :
  (execute "Failed to delete refresh tokens" (fun s => Some (tt, delete_user_tokens i s)) ;;;
   execute (E := AuthError) "Failed to increment token_version" (fun s => s' ← bump_version i s; Some (tt, s'))) (locked w) n s =
    (Ok a, s', n') -> bump_version i (delete_user_tokens i s) = Some s'.
Proof using. intros Hr. sql_ok. simplify_eq/=. destruct (bump_version i _); by simplify_eq/=. Qed.

Lemma revoke_steps i : steps root (revoke_all_sessions i) (fun _ => True).
Proof using.
  apply steps_transaction. intros w n s a _ Hr. split; [|done].
  destruct ((_ ;;; _) (locked w) n s) as [[r s1] n1] eqn:E. unfold result_of, state_of in *; cbn [fst snd] in *. subst r.
  exists Other. apply (step_revoked root _ _ i). by eapply revoke_body_ok.
Qed.

Lemma rotate_body_ok now created old_hash new_hash e w n s x s' n' :
  rotate_body now created old_hash new_hash e (locked w) n s = (Ok x, s', n') ->
  exists t u, find_token old_hash now s = Some t /\ users s !! t_user_id t = Some u /\
    tenant_active (tenant_id u) s = true /\ x = (id u, role u, token_version u, tenant_id u) /\
    insert_token {| t_user_id := id u; token_hash := new_hash; t_expires_at := e; t_created_at := created |} (delete_token old_hash s)
      = Some s'.
Proof using.
  intros Hr. unfold rotate_body in Hr. sql_ok. simplify_eq/=.
  match goal with Hf : find_token _ _ _ = Some ?t, Hu : users _ !! t_user_id ?t = Some ?u |- _ => exists t, u end.
  split_and!; try done. by destruct (insert_token _ _); simplify_eq/=.
Qed.

Lemma rotate_steps now created old_hash new_hash e : steps root (rotate_refresh_token now created old_hash new_hash e) (fun _ => True).
Proof using.
  eapply spec_or_none with (Q := fun _ => True); [|done|done].
  apply steps_transaction. intros w n s a _ Hr. split; [|done].
  destruct (rotate_body _ _ _ _ _ _ _ _) as [[r s1] n1] eqn:E. unfold result_of, state_of in *; cbn in *. subst r.
  apply rotate_body_ok in E as (t & u & _ & _ & _ & _ & Hi). exists Other. by eapply step_rotated.
Qed.

Lemma delete_token_steps h : steps root (delete_refresh_token h) (fun _ => True).
Proof using. apply steps_execute. intros s a s' _ [= _ <-]. split; [right; exists Other; apply step_token_deleted|done]. Qed.

Lemma cleanup_steps now : steps root (cleanup_expired_refresh_tokens now) (fun _ => True).
Proof using. apply steps_execute. intros s a s' _ [= _ <-]. split; [right; exists Other; apply step_tokens_expired|done]. Qed.

Lemma verify_token_version_steps i v : steps root (verify_token_version i v) (fun _ => True).
Proof using.
  apply steps_cache; [apply cache_get_steps|]. intros hit.
  assert (forall m : Sql.M tables VersionError unit, steps root m (fun _ => True) ->
    steps root (match hit with Some (CNumber c) => guard_else (c =? v) Mismatch | _ => m end) (fun _ => True)) as Hm.
  { intros m Hm. destruct hit as [[|c| |]|]; try exact Hm. by apply spec_guard. }
  apply Hm. apply steps_seq, steps_query. intros s0 _. apply steps_seq, spec_some. intros u _.
  apply steps_cache; [apply cache_set_steps|]. intros _. by apply spec_guard.
Qed.

Lemma authenticate_steps now presented : steps root (authenticate now presented) (fun _ => True).
Proof using.
  apply steps_seq, spec_some. intros t _. apply steps_seq, spec_some. intros c _. apply steps_seq, spec_some. intros i _.
  eapply steps_bind; [apply spec_mapped, verify_token_version_steps|]. intros _ _. by apply spec_ret.
Qed.

(** ** Logins *)

(** A user who may log in with [password]. *)
Definition good_login (e password : str) (u : User) : Prop :=
  email u = to_lowercase e /\ argon_verify password (password_hash u) = Some true /\ email_verified u = true.

(** Whatever else goes on, a login only succeeds for a verified user who gave his
    password while his tenant was active; the token is signed with his row as it
    was; and there is a refresh token when he asked to be remembered: then it is
    the only one he has. *)
Theorem login_sound d request w n s r s' n' :
  calm (some_step root) w -> accounts_ok root s -> login d request w n s = (Ok r, s', n') ->
  exists s0 u st,
    reaches root s s0 /\ users s0 !! id u = Some u /\ good_login (l_email request) (l_password request) u /\
    reaches root s0 st /\ tenant_active (tenant_id u) st = true /\
    generate_token (token_secs d) (show_Z (id u)) (role u) (jwt_secret config) (expires_in r) (l_remember request)
      (token_version u) (tenant_id u) = Some (token r) /\
    if l_remember request then
      refresh_token r = hex_encode (bytes d) /\ has_session (id u) s' /\
      forall k t, tokens s' !! k = Some t -> t_user_id t = id u -> token_hash t = sha256_hex (refresh_token r)
    else refresh_token r = [] /\ s' = st.
Proof using.
  intros Hw Hok Hl. unfold login, issue in Hl. calm_ok Hw.
  match goal with Hc : caught _ _ _ _ = _ |- _ => apply caught_calm in Hc as (a & Ha & ->) end.
  destruct a as [[]|]; try done. apply (is_active_calm root) in Ha as [Hst Hact]; [|done].
  match goal with Hf : find_by_email _ ?a = Some ?u |- _ =>
    apply find_by_email_Some with (root := root) in Hf as [Hu He]; [|by eapply reaches_ok]; exists a, u end.
  match goal with Hst : reaches root _ ?st |- _ => exists st end.
  split_and!; try done.
  - split; [done|]. split; [congruence|done].
  - destruct (l_remember request); [|by calm_ok Hw]. destruct (generate_refresh_token (bytes d)) as [raw hash] eqn:Hg.
    injection Hg as <- <-. calm_ok Hw.
    match goal with Hs : store_session _ _ _ _ = _ |- _ => apply store_session_calm in Hs as [Hone Hall]; [|done] end.
    split_and!; [done|done|]. intros k t Hk Ht. by rewrite (Hall k t Hk Ht).
Qed.

(** When nothing fails and nobody interferes, the refusals are alike, and leave
    the tables alone: unknown address, wrong password, unverified address and
    inactive tenant cannot be told apart. *)
Theorem login_refusals_alike t d request n s :
  accounts_ok root s ->
  let r := login d request (quiet t) n s in
  (result_of r = Err InvalidCredentials <->
   match find_by_email (to_lowercase (l_email request)) s with
   | None => True
   | Some u => exists valid, argon_verify (l_password request) (password_hash u) = Some valid /\
                 valid && email_verified u && tenant_active (tenant_id u) s = false
   end) /\
  (result_of r = Err InvalidCredentials -> state_of r = s).
Proof using.
  intros Hok. unfold login, TenantService.is_active. at_rest.
  destruct (find_by_email _ s) as [u|]; cbn; [|done].
  destruct (argon_verify _ _) as [[]|]; cbn; [|split; [|done]; split; [by exists false|done]|split; [|done]; by split; [|intros (? & ? & _)]].
  destruct (email_verified u); cbn; [|split; [|done]; split; [by exists true|done]].
  rewrite ?andb_false_r; cbn. unfold tenant_active.
  destruct (match tenants s !! tenant_id u with Some _ => _ | None => _ end); cbn;
    [|split; [|done]; split; [by exists true|done]].
  match goal with |- context [issue d request u ?w ?n ?s0] => pose proof (issue_fails d request u w n s0) as Hf; destruct (issue d request u w n s0) as [[[r|e] s1] n1] end;
    cbn; (split; [split; [|by intros (? & [= <-] & ?)]|]); [done|done| |]; intros [= ->]; by destruct (Hf _ _ _ eq_refl).
Qed.

(** ** Refresh tokens *)

(** A step that does not store the hash [h] again; the hashes are of 48 random
    bytes. *)
Definition fresh_step (h : str) (s s' : tables) : Prop := some_step root s s' /\ (stored h s' -> stored h s).

Lemma fresh_steps h s s' : rtc (fresh_step h) s s' -> ~ stored h s -> ~ stored h s'.
Proof using. induction 1 as [|s s1 s2 [_ Hs] _ IH]; [done|]. intros Hn. apply IH. auto. Qed.

Lemma rotate_calm (step : tables -> tables -> Prop) now created old_hash new_hash e w n s x s' n' :
  calm step w -> rotate_refresh_token now created old_hash new_hash e w n s = (Ok (Some x), s', n') ->
  exists s1 t u, rtc step s s1 /\ find_token old_hash now s1 = Some t /\ users s1 !! t_user_id t = Some u /\
    tenant_active (tenant_id u) s1 = true /\ x = (id u, role u, token_version u, tenant_id u) /\
    insert_token {| t_user_id := id u; token_hash := new_hash; t_expires_at := e; t_created_at := created |} (delete_token old_hash s1)
      = Some s'.
Proof using.
  intros Hw Hr. apply or_none_Some in Hr. apply transaction_calm with (2 := Hw) in Hr as (s1 & n1 & n2 & Hs & Hb).
  apply rotate_body_ok in Hb as (t & u & Hb). by exists s1, t, u.
Qed.

Lemma find_token_stored h now s t : find_token h now s = Some t -> stored h s.
Proof using.
  intros [Ht Hh]%head_filter. apply rows_elem in Ht as (k & Hk). apply andb_true_iff in Hh as [Hh%str_eqb_eq _]. by exists k, t.
Qed.

(** C6: A refresh token is exchanged once, however the requests of a thief and of
    the owner interleave: after a rotation has committed, no rotation of the same
    token succeeds, as long as its hash is not stored again. *)
Theorem refresh_token_used_once now created h new e w n s x s1 n1 now' created' new' e' w' n' s2 y s3 n2 :
  calm (some_step root) w -> rotate_refresh_token now created h new e w n s = (Ok (Some x), s1, n1) -> new <> h ->
  rtc (fresh_step h) s1 s2 -> calm (fresh_step h) w' ->
  rotate_refresh_token now' created' h new' e' w' n' s2 = (Ok y, s3, n2) -> y = None.
Proof using.
  intros Hw Hr Hne Hs Hw' Hr'. destruct y as [y|]; [|done]. exfalso.
  apply (rotate_calm _ _ _ _ _ _ _ _ _ _ _ _ Hw) in Hr as (s0 & t & u & _ & _ & _ & _ & _ & Hi).
  apply (rotate_calm _ _ _ _ _ _ _ _ _ _ _ _ Hw') in Hr' as (s4 & t' & _ & Hs4 & Hf & _).
  apply find_token_stored in Hf. revert Hf. apply (fresh_steps _ s1); [by etrans|].
  eapply not_stored_insert; [exact Hi|done|apply not_stored].
Qed.

(** ** Revocation *)

(** All at once: the refresh tokens are gone and the version has grown. *)
Lemma revoke_sound i w n s s' n' :
  calm (some_step root) w -> revoke_all_sessions i w n s = (Ok tt, s', n') ->
  exists s1, reaches root s s1 /\ ~ has_session i s' /\
    forall u, users s1 !! i = Some u -> users s' !! i = Some (with_version (token_version u + 1) u).
Proof using.
  intros Hw Hr. apply transaction_calm with (2 := Hw) in Hr as (s1 & n1 & n2 & Hs & Hb).
  apply revoke_body_ok in Hb. exists s1. split; [done|]. unfold bump_version in Hb. cbn in Hb.
  destruct (users s1 !! i) as [u|] eqn:Hu.
  - destruct (next_version (token_version u)) as [v|] eqn:Hv; cbn in Hb; [|done]. injection Hb as <-.
    apply next_version_Some in Hv as ->. split; [apply no_session_left|]. intros v [= <-]. cbn. by rewrite lookup_insert_eq.
  - injection Hb as <-. split; [apply no_session_left|]. done.
Qed.

(** The cache has no version of [i] older than [v]. *)
Definition not_stale (i v : Z) (s : tables) : Prop :=
  forall e n, cached s !! version_key i = Some e -> content e = CNumber n -> v <= n.

(** A step that neither makes the account [i] again nor caches a version of it
    that is older than [v]. *)
Definition later_step (i v : Z) (s s' : tables) : Prop :=
  (exists e, step root e s s' /\ e <> Created i) /\ (not_stale i v s -> not_stale i v s').

Definition current (i v : Z) (s : tables) : Prop := at_least i v s /\ not_stale i v s.

Lemma later_current i v s s' : rtc (later_step i v) s s' -> current i v s -> current i v s'.
Proof using.
  induction 1 as [|s s1 s2 [(e & He & Hc) Hn] _ IH]; [done|]. intros [Ha Hx]. apply IH. split; [|auto].
  by eapply step_at_least.
Qed.

Lemma live_not_stale i v n t s : not_stale i v s -> live t (version_key i) s = Some (CNumber n) -> v <= n.
Proof using.
  intros Hs Hl. unfold live in Hl. destruct (cached s !! version_key i) as [e|] eqn:He; [|done]. cbn in Hl.
  destruct (t <? deadline e); [|done]. injection Hl as Hl. by eapply Hs.
Qed.

Lemma verify_old_version i v c w n s s' n' :
  calm (later_step i v) w -> current i v s -> c < v -> verify_token_version i c w n s <> (Ok tt, s', n').
Proof using.
  intros Hw Hc Hlt Hr. unfold verify_token_version in Hr. apply bind_ok in Hr as (hit & s1 & n1 & Hg & Hr).
  apply best_effort_calm with (2 := Hw) in Hg as (s2 & Hs & Hg).
  assert (current i v s2) as [Ha Hn] by by eapply later_current.
  assert (forall m : Sql.M tables VersionError unit, m w n1 s1 <> (Ok tt, s', n') ->
    match hit with Some (CNumber c') => guard_else (c' =? c) Mismatch | _ => m end w n1 s1 <> (Ok tt, s', n')) as Hm.
  { intros m Hm. destruct hit as [[|c'| |]|]; try exact Hm. intros [He _]%guard_ok. apply Z.eqb_eq in He. subst c'.
    destruct Hg as [[? _]|[= Hg _]]; [done|]. apply (live_not_stale i v) in Hg; [lia|done]. }
  revert Hr. apply Hm. clear Hm. intros Hr.
  assert (reaches_s1 : current i v s1) by (destruct Hg as [[_ ->]|[= _ <-]]; done).
  calm_ok Hw.
  match goal with Hx : rtc _ s1 ?a, Hu : users ?a !! i = Some ?u, He : (token_version ?u =? c) = true |- _ =>
    assert (current i v a) as [Ha' _] by (by eapply later_current); apply Z.eqb_eq in He; specialize (Ha' _ Hu) end. lia.
Qed.

(** C7: A token that carries an older version does not pass: whoever signed it and
    whatever the others do, except for making the account again and for caching
    a version they read before. *)
Theorem revoked_tokens_are_refused now i v presented w n s a s' n' :
  calm (later_step i v) w -> current i v s -> authenticate now presented w n s = (Ok a, s', n') ->
  parse_i64 (au_user_id a) = Some i -> v <= au_token_version a.
Proof using.
  intros Hw Hc Hr Hi. destruct (Z.le_gt_cases v (au_token_version a)) as [|Hlt]; [done|exfalso].
  unfold authenticate in Hr. calm_ok Hw.
  match goal with Hp : parse_i64 _ = Some ?j, Hv : verify_token_version ?j _ _ _ _ = (Ok ?t, _, _) |- _ =>
    cbn in Hi, Hlt; rewrite Hi in Hp; injection Hp as <-; destruct t; by eapply verify_old_version in Hv end.
Qed.

Lemma verify_version_sound i c w n s s' n' :
  calm (some_step root) w -> verify_token_version i c w n s = (Ok tt, s', n') ->
  exists s1, reaches root s s1 /\
    ((exists u, users s1 !! i = Some u /\ token_version u = c) \/ live (clock (w n)) (version_key i) s1 = Some (CNumber c)).
Proof using.
  intros Hw Hr. unfold verify_token_version in Hr. apply bind_ok in Hr as (hit & s1 & n1 & Hg & Hr).
  apply best_effort_calm with (2 := Hw) in Hg as (s2 & Hs & Hg).
  set (m := (found <- query "Failed to query user for token version check" _ ;; _)) in Hr.
  assert (m w n1 s1 = (Ok tt, s', n') ->
    exists s1, reaches root s s1 /\
      ((exists u, users s1 !! i = Some u /\ token_version u = c) \/ live (clock (w n)) (version_key i) s1 = Some (CNumber c))) as Hm.
  { subst m. intros Hq. assert (reaches root s s1) as Hs1 by (destruct Hg as [[_ ->]|[= _ <-]]; done). calm_ok Hw.
    match goal with Hx : rtc _ s1 ?a, Hu : users ?a !! i = Some ?u, He : (token_version ?u =? c) = true |- _ =>
      exists a; split; [by etrans|left; exists u; split; [done|by apply Z.eqb_eq]] end. }
  destruct hit as [[|c'| |]|]; try by apply Hm. apply guard_ok in Hr as [He%Z.eqb_eq _]. subst c'.
  destruct Hg as [[? _]|[= Hg _]]; [done|]. exists s2. split; [done|by right].
Qed.

(** What passes was signed with the secret for the right audience, is not past
    its expiry by more than the leeway, and carries the version of the user as it
    is, or as it was cached in the last thirty seconds. *)
Theorem authenticate_sound now presented w n s a s' n' :
  calm (some_step root) w -> authenticate now presented w n s = (Ok a, s', n') ->
  exists t c i m s1, presented = Some t /\ decode the_validation now t (jwt_secret config) = Some c /\ a = auth_user c /\
    aud c = lit "ains" /\ iss c = lit "ains-server" /\ now <= exp c + 5 /\ parse_i64 (sub c) = Some i /\ reaches root s s1 /\
    ((exists u, users s1 !! i = Some u /\ token_version u = c_token_version c) \/
     live (clock (w m)) (version_key i) s1 = Some (CNumber (c_token_version c))).
Proof using.
  intros Hw Hr. unfold authenticate in Hr. calm_ok Hw.
  match goal with Hv : validate_jwt _ ?t _ = Some ?c, Hi : parse_i64 _ = Some ?i |- _ => exists t, c, i;
    destruct (decode_sound _ _ _ _ _ Hv) as (Hiss & Haud & Hexp) end.
  cbn in Hiss, Haud, Hexp.
  match goal with Hv : verify_token_version _ _ _ ?m _ = (Ok ?u, _, _) |- _ => destruct u;
    apply verify_version_sound in Hv as (s1 & Hs & Hv); [|done]; exists m, s1 end.
  split_and!; try done. lia.
Qed.

(** The version of user [i] that a check reads at [t]: the cached one while it
    lives, else the one in the tables. *)
Definition known_version (t i : Z) (s : tables) : option Z :=
  match live t (version_key i) s with
  | Some (CNumber c) => Some c
  | _ => Accounts.token_version <$> users s !! i
  end.

Lemma verify_version_quiet i v t n s :
  result_of (verify_token_version i v (quiet t) n s) = Ok tt <-> known_version t i s = Some v.
Proof using.
  assert (cache_get (E := VersionError) (version_key i) (quiet t) n s = (Ok (live t (version_key i) s), s, S n)) as Hget by done.
  assert (forall o : option User, o = users s !! i ->
    result_of ((user <- some_or o UserNotFound ;;
      cache_set (version_key i) (CNumber (Accounts.token_version user)) VERSION_TTL ;;;
      guard_else (Accounts.token_version user =? v) Mismatch) (quiet t) (S (S n)) s) = Ok tt <->
    (Accounts.token_version <$> o) = Some v) as Hrows.
  { intros [u|] _; [|by split]. unfold cache_set. at_rest. destruct (Z.eqb_spec (Accounts.token_version u) v); cbn; split; congruence. }
  specialize (Hrows _ eq_refl). unfold known_version, verify_token_version, bind at 1. rewrite Hget.
  destruct (live t (version_key i) s) as [[|c| |]|]; try exact Hrows.
  at_rest. destruct (Z.eqb_spec c v); cbn; split; congruence.
Qed.

Lemma authenticate_signed now c i presented w n s :
  validate_jwt now presented (jwt_secret config) = Some c -> parse_i64 (sub c) = Some i ->
  result_of (authenticate now (Some presented) w n s) =
  match result_of (verify_token_version i (c_token_version c) w n s) with
  | Ok _ => Ok (auth_user c)
  | Err _ => Err (unauthorized "Invalid or expired token")
  end.
Proof using.
  intros Hv Hp. unfold authenticate, bind, some_or, ret, mapped, result_of. rewrite Hv, Hp.
  by destruct (verify_token_version i (c_token_version c) w n s) as [[[[]|e] s1] n1].
Qed.

(** The claims of a successful login are signed for a user of the given address. *)
Lemma login_signs t d request n s r s' n' :
  login d request (quiet t) n s = (Ok r, s', n') ->
  exists u, find_by_email (to_lowercase (l_email request)) s = Some u /\
    generate_token (token_secs d) (show_Z (id u)) (role u) (jwt_secret config) (expires_in r) (l_remember request)
      (token_version u) (tenant_id u) = Some (token r).
Proof using.
  intros Hl. unfold login, issue in Hl. sql_ok.
  match goal with Hc : caught _ _ _ _ = _ |- _ => unchanged Hc; clear Hc end.
  match goal with Hf : find_by_email _ _ = Some ?u |- _ => exists u; split; [done|] end.
  match goal with Hi : (if l_remember request then _ else _) _ _ _ = _ |- _ => rename Hi into Hif end.
  destruct (l_remember request); [|by sql_ok]. destruct (generate_refresh_token (bytes d)) as [raw hash]. by sql_ok.
Qed.

(** C29: What the token of a login is worth.  The token was signed for a user with
    the address and the password of the login.  Presented at any later time,
    whatever happened to the tables and the cache meanwhile, the check that is
    not disturbed accepts it, as exactly that user with the role, the tenant and
    the version he had, if and only if it is not past its expiry by more than
    the leeway of five seconds and its version is the one the check reads: the
    cached version of the user while one is cached, and the version in the
    tables else.  Otherwise the answer is the refusal of an invalid token. *)
Theorem login_then_authenticate t d request n s r s' n' :
  login d request (quiet t) n s = (Ok r, s', n') ->
  exists u, find_by_email (to_lowercase (l_email request)) s = Some u /\
    let claims := claims_of (token_secs d) (show_Z (id u)) (role u) (expires_in r) (l_remember request) (token_version u) (tenant_id u) in
    (- 2 ^ 63 <= id u < 2 ^ 63 ->
     forall now t2 n2 s2, let answer := result_of (authenticate now (Some (token r)) (quiet t2) n2 s2) in
     (answer = Ok (auth_user claims) <-> now <= exp claims + 5 /\ known_version t2 (id u) s2 = Some (token_version u)) /\
     (answer = Ok (auth_user claims) \/ answer = Err (unauthorized "Invalid or expired token"))).
Proof using.
  intros (u & Hf & Hg)%login_signs. exists u. split; [done|]. intros claims Hid now t2 n2 s2.
  destruct (Z.le_gt_cases now (exp claims + 5)) as [Hnow|Hnow].
  - assert (validate_jwt now (token r) (jwt_secret config) = Some claims) as Hd.
    { eapply decode_complete; [exact Hg|done|done|]. unfold claims in Hnow. cbn in *. lia. }
    intros answer. unfold answer. rewrite (authenticate_signed _ _ _ _ _ _ _ Hd (parse_show_i64 _ Hid)).
    change (c_token_version claims) with (token_version u). rewrite <- (verify_version_quiet _ _ _ n2).
    destruct (result_of (verify_token_version _ _ _ _ _)) as [[]|e]; (split; [|auto]); [by split|]; split; [done|by intros [_ ?]].
  - assert (validate_jwt now (token r) (jwt_secret config) = None) as Hd.
    { unfold validate_jwt. destruct (decode _ _ _ _) as [c|] eqn:E; [|done]. exfalso.
      pose proof (decode_signed _ _ _ _ _ _ Hg E) as ->. apply decode_sound in E as (_ & _ & E). unfold claims in *. cbn in *. lia. }
    intros answer. assert (answer = Err (unauthorized "Invalid or expired token")) as ->.
    { unfold answer, authenticate, bind, some_or, ret, result_of. by rewrite Hd. }
    split; [|by right]. split; [done|]. intros [? _]. lia.
Qed.
End Tokens.

(** ** At concrete inputs *)

#[local] Existing Instance small_argon.
#[local] Existing Instance ascii_tables.
#[local] Existing Instance small_jwt.

(** A digest that anyone can invert. *)
Definition small_digest : Digest := {| sha256_hex s := lit "#" ++ s |}.
#[local] Existing Instance small_digest.

Definition demo_config : Config :=
  {| jwt_secret := lit "secret"; jwt_expiry_seconds := 3600; jwt_remember_expiry_seconds := 2592000;
     refresh_token_expiry_seconds := 7776000 |}.
Definition demo_draws : Draws := {| token_secs := 1000; refresh_secs := 1000; stored_at := 5; bytes := [171; 205]%N |}.
Definition demo_request : LoginRequest := {| l_email := lit "Ann@ains"; l_password := lit "Secret1!"; l_remember := true |}.
Abbreviation demo_time := (fun s : Z => Some (seconds s)).
Abbreviation demo_login := (login demo_time demo_config demo_draws).

Lemma login_sound_witness : exists r s', exists s0 u st,
  reaches demo_root demo_tables s0 /\ users s0 !! id u = Some u /\ good_login (lit "Ann@ains") (lit "Secret1!") u /\
  reaches demo_root s0 st /\ tenant_active (tenant_id u) st = true /\
  generate_token 1000 (show_Z (id u)) (role u) (lit "secret") (expires_in r) true (token_version u) (tenant_id u) = Some (token r) /\
  refresh_token r = hex_encode [171; 205]%N /\ has_session (id u) s' /\
  forall k t, tokens s' !! k = Some t -> t_user_id t = id u -> token_hash t = sha256_hex (refresh_token r).
Proof.
  do 2 eexists.
  apply (login_sound demo_time demo_config demo_root demo_draws demo_request (quiet 60) 0%nat demo_tables _ _ 6%nat).
  - apply calm_quiet.
  - apply demo_ok.
  - vm_compute. reflexivity.
Defined.

Lemma login_refusals_alike_witness :
  let r := demo_login {| l_email := lit "bob@ains"; l_password := lit "Secret1!"; l_remember := false |} (quiet 60) 0%nat demo_tables in
  result_of r = Err InvalidCredentials /\ state_of r = demo_tables.
Proof.
  cbv zeta.
  assert (result_of (demo_login {| l_email := lit "bob@ains"; l_password := lit "Secret1!"; l_remember := false |} (quiet 60) 0%nat
    demo_tables) = Err InvalidCredentials) as Hr by (vm_compute; reflexivity).
  split; [exact Hr|]. revert Hr.
  apply (login_refusals_alike demo_time demo_config demo_root 60 demo_draws
    {| l_email := lit "bob@ains"; l_password := lit "Secret1!"; l_remember := false |} 0%nat demo_tables), demo_ok.
Defined.

Definition demo_rotated : tables :=
  state_of (rotate_refresh_token 5 5 (lit "h") (lit "k") (minutes 200) (quiet 5) 0%nat demo_tables).

Lemma refresh_token_used_once_witness : exists y s3, y = None /\
  rotate_refresh_token 6 6 (lit "h") (lit "l") (minutes 200) (quiet 6) 0%nat demo_rotated = (Ok y, s3, 2%nat).
Proof.
  assert (rotate_refresh_token 6 6 (lit "h") (lit "l") (minutes 200) (quiet 6) 0%nat demo_rotated = (Ok None, demo_rotated, 2%nat)) as Hr
    by (vm_compute; reflexivity).
  exists None, demo_rotated. split; [|exact Hr].
  apply (refresh_token_used_once demo_root 5 5 (lit "h") (lit "k") (minutes 200) (quiet 5) 0%nat demo_tables
    (7, lit "user", 1, lit "default") demo_rotated 7%nat 6 6 (lit "l") (minutes 200) (quiet 6) 0%nat demo_rotated None demo_rotated 2%nat);
    [apply calm_quiet|vm_compute; reflexivity| |apply rtc_refl|apply calm_quiet|exact Hr].
  intros E. vm_compute in E. discriminate E.
Defined.

Definition demo_claims : JwtClaims := claims_of 1000 (lit "7") (lit "user") 3600 false 1 (lit "default").

Lemma authenticate_sound_witness : exists a s', exists t c i m s1,
  Some (Some (demo_claims, lit "secret")) = Some t /\ decode the_validation 2000 t (lit "secret") = Some c /\ a = auth_user c /\
  aud c = lit "ains" /\ iss c = lit "ains-server" /\ 2000 <= exp c + 5 /\ parse_i64 (sub c) = Some i /\ reaches demo_root demo_tables s1 /\
  ((exists u, users s1 !! i = Some u /\ token_version u = c_token_version c) \/
   live (clock (quiet 60 m : moment tables)) (version_key i) s1 = Some (CNumber (c_token_version c))) /\ users s' = users demo_tables.
Proof.
  assert (exists a s', authenticate demo_config 2000 (Some (Some (demo_claims, lit "secret"))) (quiet 60) 0%nat demo_tables = (Ok a, s', 3%nat)
    /\ users s' = users demo_tables) as (a & s' & Hr & Hu) by (do 2 eexists; split; vm_compute; reflexivity).
  exists a, s'.
  destruct (authenticate_sound (J := small_jwt) demo_config demo_root 2000 (Some (Some (demo_claims, lit "secret"))) (quiet 60) 0%nat demo_tables _ _ _
    (calm_quiet _ _) Hr) as (t & c & i & m & s1 & H). exists t, c, i, m, s1. tauto.
Defined.

Lemma demo_current : current 7 1 demo_tables.
Proof.
  split; [|by intros e n He]. intros u Hu. pose proof (users_ok _ _ demo_ok _ _ Hu) as H. apply (version_bounds _ _ _ _ H).
Qed.

Lemma revoked_tokens_are_refused_witness : exists a s', 1 <= au_token_version a /\
  authenticate demo_config 2000 (Some (Some (demo_claims, lit "secret"))) (quiet 60) 0%nat demo_tables = (Ok a, s', 3%nat).
Proof.
  assert (exists s', authenticate demo_config 2000 (Some (Some (demo_claims, lit "secret"))) (quiet 60) 0%nat demo_tables =
    (Ok (auth_user demo_claims), s', 3%nat)) as (s' & Hr) by (eexists; vm_compute; reflexivity).
  exists (auth_user demo_claims), s'. split; [|exact Hr].
  apply (revoked_tokens_are_refused (J := small_jwt) demo_config demo_root 2000 7 1 (Some (Some (demo_claims, lit "secret"))) (quiet 60) 0%nat demo_tables
    _ _ _ (calm_quiet _ _) demo_current Hr). vm_compute. reflexivity.
Defined.

(** The token passes at once, and no more once another version is cached or the
    version of the user has changed. *)
Lemma login_then_authenticate_witness : exists r s',
  demo_login demo_request (quiet 60) 0%nat demo_tables = (Ok r, s', 6%nat) /\
  result_of (authenticate demo_config 2000 (Some (token r)) (quiet 60) 0%nat s') =
    Ok (auth_user (claims_of 1000 (lit "7") (lit "user") 2592000 true 1 DEFAULT_TENANT_ID)) /\
  result_of (authenticate demo_config 2000 (Some (token r)) (quiet 60) 0%nat
    (set_cached <[version_key 7 := {| content := CNumber 2; deadline := 100 |}]> s')) = Err (unauthorized "Invalid or expired token").
Proof.
  assert (exists r s', demo_login demo_request (quiet 60) 0%nat demo_tables = (Ok r, s', 6%nat) /\ expires_in r = 2592000 /\
    known_version 60 7 s' = Some 1) as (r & s' & Hr & He & Hk) by (do 2 eexists; split_and!; vm_compute; reflexivity).
  exists r, s'. split; [exact Hr|].
  assert (find_by_email (to_lowercase (l_email demo_request)) demo_tables = Some (demo_user 7 "ann@ains" "user" true no_code demo_code)) as Hann
    by (vm_compute; reflexivity).
  destruct (login_then_authenticate demo_time demo_config 60 demo_draws demo_request 0%nat demo_tables r s' 6%nat Hr) as (u & Hu & H).
  rewrite Hann in Hu. injection Hu as <-. rewrite He in H.
  assert (- 2 ^ 63 <= 7 < 2 ^ 63) as Hid by lia. cbv zeta in H. specialize (H Hid 2000 60 0%nat).
  split.
  - apply H. split; [vm_compute; discriminate|exact Hk].
  - destruct (H (set_cached <[version_key 7 := {| content := CNumber 2; deadline := 100 |}]> s')) as [[H1 _] [H2|H2]]; [|exact H2].
    destruct (H1 H2) as [_ Hv]. unfold known_version, live in Hv. cbn [id demo_user cached set_cached] in Hv.
    rewrite lookup_insert_eq in Hv. cbn in Hv. discriminate Hv.
Defined.

(** The cache can undo a revocation for thirty seconds: a request reads the
    version, then the sessions are revoked and the cache invalidated, then the
    request caches what it read; the next request with a revoked token passes. *)
Definition logged_out (s : tables) : tables :=
  state_of (invalidate (E := AuthError) (version_key 7) (quiet 60) 0%nat (state_of (revoke_all_sessions 7 (quiet 60) 0%nat s))).
Definition slow_request (n : nat) : moment tables :=
  {| clock := 60; fault := false; others := if (n =? 2)%nat then logged_out else fun s => s |}.

Example revoked_token_passes_again :
  let r := verify_token_version 7 1 slow_request 0%nat demo_tables in
  option_map token_version (users (state_of r) !! 7) = Some 2 /\
  result_of (verify_token_version 7 1 (quiet (seconds 29)) 0%nat (state_of r)) = Ok tt /\
  result_of (verify_token_version 7 1 (quiet (60 + seconds 30)) 0%nat (state_of r)) = Err Mismatch.
Proof. split_and!; vm_compute; reflexivity. Qed.
