(* ===== verification/Users.v ===== *)
(** * User accounts ([server/src/services/user.rs], [server/src/utils/validator.rs])

    Who may create, change and delete whom: the system account anybody but
    itself, an admin the plain users of his tenant.  The balances are in
    [Orders]. *)

From S2P Require Import Prelude Sql Http Accounts Tenants.

Open Scope string_scope.
Open Scope list_scope.
Open Scope Z_scope.
Open Scope sql_scope.

Inductive UserError :=
| NotFound | EmailConflict | InvalidCredentials | Forbidden (m : str) | WeakPassword (m : str) | SamePassword (m : str)
| NotAllowed (m : str) | InsufficientBalance | UserInternal (context : string).

#[export] Instance user_errors : Errors UserError := UserInternal.

(** ** Passwords ([validator.rs]) *)

Definition in_range (lo hi : N) (c : char) : bool := ((lo <=? c) && (c <=? hi))%N.
Definition is_ascii_lowercase : char -> bool := in_range 97 122.
Definition is_ascii_uppercase : char -> bool := in_range 65 90.
Definition is_ascii_digit : char -> bool := in_range 48 57.
Definition is_ascii_punctuation (c : char) : bool :=
  in_range 33 47 c || in_range 58 64 c || in_range 91 96 c || in_range 123 126 c.

Definition validate_password (password : str) : bool :=
  if ((utf8_len password <? 8) || (128 <? utf8_len password))%N then false
  else existsb is_ascii_lowercase password && existsb is_ascii_uppercase password && existsb is_ascii_digit password
       && existsb is_ascii_punctuation password.

Definition WEAK : string :=
  "Password must be at least 8 characters and contain at least one uppercase letter, one lowercase letter, one digit, and one special character".

Definition require_password (password : str) : result unit str :=
  if validate_password password then Ok tt else Err (lit WEAK).
Definition check_password_strength (password : str) : result unit ApiError :=
  match require_password password with Ok _ => Ok tt | Err m => Err (ApiValidation m) end.

(** ** The service *)

Record CreateUserInput := { n_email : str; n_password : str; n_name : str; n_role : option str }.
Record UpdateUserInput := { w_email : option str; w_name : option str; w_role : option str; w_tenant_id : option str }.

Definition PROFILE_TTL : Z := seconds 300.
Definition NULL_TTL : Z := seconds 30.
Definition COUNT_TTL : Z := seconds 30.

Section Service.
Context {U : Unicode} {A : Argon2}.

Abbreviation M := (Sql.M tables UserError).

Definition user_count_cache_key (actor_role : str) (actor_tenant_id : option str) : str :=
  if str_eqb actor_role (lit "system") then lit "user:count:" ++ actor_role
  else lit "user:count:" ++ actor_role ++ lit ":" ++ default [] actor_tenant_id.

Definition invalidate_counts_of (tenants : list str) : M unit :=
  foldr (fun t m =>
    invalidate (user_count_cache_key (lit "admin") (Some t)) ;;;
    invalidate (user_count_cache_key (lit "user") (Some t)) ;;;
    m) (invalidate (user_count_cache_key (lit "system") None)) tenants.

Definition role_for (actor_role : str) (wanted : option str) : result str UserError :=
  if str_eqb actor_role (lit "system") then
    let r := default (lit "user") wanted in
    if negb (str_eqb r (lit "user")) && negb (str_eqb r (lit "admin"))
    then Err (NotAllowed (lit "Role must be 'user' or 'admin'")) else Ok r
  else if str_eqb actor_role (lit "admin") then
    if bool_decide (wanted = Some (lit "admin")) then Err (NotAllowed (lit "Admin can only create user accounts")) else Ok (lit "user")
  else Ok (lit "user").

(** [INSERT]: [false] when a unique index refuses. *)
Definition insert_user (u : User) (s : tables) : option (bool * tables) :=
  match users s !! id u with
  | Some _ => Some (false, s)
  | None =>
      if email_taken (id u) (email u) s then Some (false, s)
      else _ ← tenants s !! tenant_id u; Some (true, set_users <[id u := u]> s)
  end.

(** [new_id] is the identifier from [Snowflake]. *)
Definition create_user_for_tenant (new_id : Z) (salt : str) (now : Z) (input : CreateUserInput) (actor_role tenant_id : str) :
    M UserResponse :=
  lift (match require_password (n_password input) with Ok _ => Ok tt | Err m => Err (WeakPassword m) end) ;;;
  hash <- some_or (argon_hash salt (n_password input)) (UserInternal "Failed to hash password") ;;
  r <- lift (role_for actor_role (n_role input)) ;;
  let u := {| id := new_id; email := to_lowercase (n_email input); password_hash := hash; name := n_name input; role := r;
              created_at := now; updated_at := now; token_version := 1; email_verified := false;
              verification := no_code; reset := no_code; tenant_id := tenant_id |} in
  inserted <- execute "Failed to create user" (insert_user u) ;;
  guard_else inserted EmailConflict ;;;
  invalidate_counts_of [tenant_id] ;;;
  ret (user_response u).

Definition create_user (new_id : Z) (salt : str) (now : Z) (input : CreateUserInput) (actor_role : str) : M UserResponse :=
  create_user_for_tenant new_id salt now input actor_role DEFAULT_TENANT_ID.

Definition get_user (i : Z) : M (option UserResponse) :=
  hit <- cache_get (profile_key i) ;;
  match hit with
  | Some (CProfile r) => ret (Some r)
  | _ =>
      missing <- cache_exists (null_key (profile_key i)) ;;
      if (missing : bool) then ret None
      else
        found <- query "Failed to query user" (fun s => users s !! i) ;;
        match found with
        | Some u =>
            cache_set (profile_key i) (CProfile (user_response u)) PROFILE_TTL ;;;
            ret (Some (user_response u))
        | None =>
            cache_set_null (profile_key i) NULL_TTL ;;;
            ret None
        end
  end.

Definition get_user_scoped (i : Z) (actor_role actor_tenant_id : str) : M (option UserResponse) :=
  found <- get_user i ;;
  ret (match found with
       | Some r =>
           if str_eqb actor_role (lit "admin")
              && (negb (str_eqb (r_role r) (lit "user")) || negb (str_eqb (r_tenant_id r) actor_tenant_id))
           then None else Some r
       | None => None
       end).

(** The guards of [update_user] and [delete_user] on the row they read. *)
Definition in_scope (u : User) (actor_role actor_tenant_id : str) : bool :=
  negb (str_eqb (role u) (lit "system")) &&
  negb (str_eqb actor_role (lit "admin") && negb (str_eqb (tenant_id u) actor_tenant_id)) &&
  negb (str_eqb actor_role (lit "admin") && negb (str_eqb (role u) (lit "user"))).

Definition known_or_kept (wanted : option str) : bool :=
  match wanted with Some r => str_eqb r (lit "user") || str_eqb r (lit "admin") | None => true end.

(** [ActiveModel::update] with the columns that were set: no row when the
    unique index on the address refuses. *)
Definition write_profile (i : Z) (e n r t : option str) (now : Z) (s : tables) : option (option User * tables) :=
  u ← users s !! i;
  let u' := touched now (with_profile (default (email u) e) (default (name u) n) (default (role u) r) (default (tenant_id u) t) u) in
  if email_taken i (email u') s then Some (None, s)
  else _ ← tenants s !! tenant_id u'; Some (Some u', set_users <[i := u']> s).

Definition moved_to (actor_role old_tenant : str) (wanted : option str) : option str :=
  match wanted with
  | Some t => if str_eqb actor_role (lit "system") && negb (str_eqb t old_tenant) then Some t else None
  | None => None
  end.

Definition update_user (i : Z) (now : Z) (input : UpdateUserInput) (actor_role actor_tenant_id : str) : M UserResponse :=
  found <- query "Failed to query user" (fun s => users s !! i) ;;
  user <- some_or found NotFound ;;
  guard_else (in_scope user actor_role actor_tenant_id) NotFound ;;;
  guard_else (negb (str_eqb actor_role (lit "admin") && bool_decide (w_role input = Some (lit "admin"))))
    (NotAllowed (lit "Admin cannot promote users to admin")) ;;;
  guard_else (known_or_kept (w_role input)) (NotAllowed (lit "Role must be 'user' or 'admin'")) ;;;
  let new_tenant_id := moved_to actor_role (tenant_id user) (w_tenant_id input) in
  let role_changed := match w_role input with Some r => negb (str_eqb r (role user)) | None => false end in
  let bump := role_changed || (match new_tenant_id with Some _ => true | None => false end) in
  let write context := execute context
    (write_profile i (to_lowercase <$> w_email input) (w_name input) (w_role input) new_tenant_id now) in
  result <-
    (if bump then
       transaction "Failed to begin transaction for token_version change" "Failed to commit token_version-change transaction"
         (execute "Failed to atomically increment token_version" (fun s => s' ← bump_version i s; Some (tt, s')) ;;;
          written <- write "Failed to update user in transaction" ;;
          some_or written EmailConflict) ;;;
       again <- query "Failed to re-query user after role change" (fun s => users s !! i) ;;
       some_or again NotFound
     else
       written <- write "Failed to update user" ;;
       some_or written EmailConflict) ;;
  invalidate (profile_key i) ;;;
  (if bump then invalidate (version_key i) else ret tt) ;;;
  (match new_tenant_id with Some t => invalidate_counts_of [tenant_id user; t] | None => ret tt end) ;;;
  ret (user_response result).

(** [SET password_hash = .., updated_at = ..] of one row. *)
Definition write_password (i : Z) (hash : str) (now : Z) (s : tables) : option (unit * tables) :=
  s' ← update_user_row i (fun u => touched now (with_password hash u)) s; Some (tt, s').

Definition replace_password (i : Z) (hash : str) (now : Z) : M unit :=
  execute "Failed to atomically increment token_version" (fun s => s' ← bump_version i s; Some (tt, s')) ;;;
  execute "Failed to update password" (write_password i hash now) ;;;
  execute "Failed to revoke refresh tokens during password change" (fun s => Some (tt, delete_user_tokens i s)).

Definition change_password (i : Z) (salt : str) (now : Z) (current_password new_password : str) : M (UserResponse * Z) :=
  found <- query "Failed to query user" (fun s => users s !! i) ;;
  user <- some_or found NotFound ;;
  is_valid <- some_or (argon_verify current_password (password_hash user)) (UserInternal "Failed to verify password") ;;
  guard_else is_valid InvalidCredentials ;;;
  guard_else (negb (str_eqb current_password new_password))
    (SamePassword (lit "New password must be different from current password")) ;;;
  lift (match require_password new_password with Ok _ => Ok tt | Err m => Err (WeakPassword m) end) ;;;
  new_hash <- some_or (argon_hash salt new_password) (UserInternal "Failed to hash password") ;;
  transaction "Failed to begin transaction for password change" "Failed to commit password-change transaction"
    (replace_password i new_hash now) ;;;
  again <- query "Failed to re-query user after password change" (fun s => users s !! i) ;;
  updated <- some_or again NotFound ;;
  invalidate (profile_key i) ;;;
  invalidate (version_key i) ;;;
  ret (user_response updated, token_version updated).

(** [DELETE .. WHERE id = .. [AND role = 'user']]: whether there was a row. *)
Definition delete_row (only_users : bool) (i : Z) (s : tables) : bool * tables :=
  match users s !! i with
  | Some u => if only_users && negb (str_eqb (role u) (lit "user")) then (false, s) else (true, delete_user_row i s)
  | None => (false, s)
  end.

Definition delete_user (i : Z) (actor_role : str) (actor_id : Z) (actor_tenant_id : str) : M unit :=
  found <- query "Failed to query user" (fun s => users s !! i) ;;
  target <- some_or found NotFound ;;
  guard_else (negb (i =? actor_id)) (NotAllowed (lit "Cannot delete your own account")) ;;;
  guard_else (in_scope target actor_role actor_tenant_id) NotFound ;;;
  caught (E := UserError) (execute "Failed to cascade-delete refresh tokens" (fun s => Some (tt, delete_user_tokens i s))) ;;;
  deleted <- execute "Failed to delete user" (fun s => Some (delete_row (str_eqb actor_role (lit "admin")) i s)) ;;
  guard_else deleted NotFound ;;;
  invalidate (profile_key i) ;;;
  invalidate (version_key i) ;;;
  invalidate_counts_of [actor_tenant_id].

Definition visible (actor_role actor_tenant_id : str) (u : User) : bool :=
  if str_eqb actor_role (lit "admin") then str_eqb (role u) (lit "user") && str_eqb (tenant_id u) actor_tenant_id else true.

(** The count is cached; the page is not. *)
Definition list_users (page per_page : Z) (actor_role actor_tenant_id : str) : M (Page UserResponse) :=
  let page := clamp 1 1000000 page in
  let per_page := clamp 1 100 per_page in
  let shown s := newest created_at (List.filter (visible actor_role actor_tenant_id) (rows (users s))) in
  let key := user_count_cache_key actor_role (if str_eqb actor_role (lit "system") then None else Some actor_tenant_id) in
  hit <- cache_get key ;;
  total <-
    (match hit with
     | Some (CNumber n) => ret n
     | _ =>
         count <- query "Failed to count users" (fun s => Z.of_nat (length (shown s))) ;;
         cache_set key (CNumber count) COUNT_TTL ;;;
         ret count
     end) ;;
  its <- query "Failed to fetch users" (fun s => slice page per_page (shown s)) ;;
  ret {| items := user_response <$> its; total := total; page := page; per_page := per_page;
         total_pages := (total + per_page - 1) / per_page |}.

(** ** Only steps *)

Context (root : Z -> bool).

Lemma invalidate_counts_of_steps ts : steps root (invalidate_counts_of ts) (fun _ => True).
Proof using.
  induction ts as [|t ts IH]; [apply invalidate_steps|].
  apply steps_cache; [apply invalidate_steps|intros _]. apply steps_cache; [apply invalidate_steps|intros _]. exact IH.
Qed.

Lemma role_for_known actor wanted r : role_for actor wanted = Ok r -> r ∈ [lit "user"; lit "admin"].
Proof using.
  unfold role_for. destruct (str_eqb actor (lit "system")).
  - destruct (negb (str_eqb (default _ wanted) (lit "user")) && _) eqn:E; [done|]. intros [= <-].
    apply andb_false_iff in E as [E%negb_false_iff%str_eqb_eq|E%negb_false_iff%str_eqb_eq]; rewrite E; set_solver.
  - destruct (str_eqb actor (lit "admin")); [case_bool_decide; [done|]|]; intros [= <-]; set_solver.
Qed.

(** An identifier is not the one of a system account. *)
Lemma create_user_for_steps new_id salt now input actor t :
  root new_id = false -> steps root (create_user_for_tenant new_id salt now input actor t) (fun _ => True).
Proof using.
  intros Hid. apply steps_seq, spec_lift. intros _ _. apply steps_seq, spec_some. intros hash _.
  apply steps_seq, spec_lift. intros r Hr%role_for_known. apply steps_seq, steps_execute. intros s a s' Hok Hi.
  assert ((s' = s \/ some_step root s s')) as Hs.
  { unfold insert_user in Hi. cbn [id email tenant_id] in Hi. destruct (users s !! new_id) eqn:Hn; [injection Hi as _ <-; by left|].
    destruct (email_taken _ _ _) eqn:He; [injection Hi as _ <-; by left|]. destruct (tenants s !! t) eqn:Ht; [|done].
    cbn in Hi. injection Hi as _ <-. right. eexists. apply step_created; cbn -[lit]; try done; first [by eexists|by eapply email_free]. }
  split; [exact Hs|]. apply steps_seq, spec_guard. intros _. eapply steps_bind; [apply invalidate_counts_of_steps|].
  intros _ _. by apply spec_ret.
Qed.

Lemma get_user_steps i : steps root (get_user i) (fun _ => True).
Proof using.
  apply steps_cache; [apply cache_get_steps|]. intros hit.
  assert (forall m : Sql.M tables UserError (option UserResponse), steps root m (fun _ => True) ->
    steps root (match hit with Some (CProfile r) => ret (Some r) | _ => m end) (fun _ => True)) as Hm.
  { intros m Hm. destruct hit as [[| |r|]|]; try exact Hm. by apply spec_ret. }
  apply Hm. apply steps_cache; [apply cache_exists_steps|]. intros []; [by apply spec_ret|].
  apply steps_seq, steps_query. intros s _. destruct (users s !! i); (apply steps_cache; [apply cache_set_steps|]); intros _; by apply spec_ret.
Qed.

Lemma get_user_scoped_steps i actor t : steps root (get_user_scoped i actor t) (fun _ => True).
Proof using. eapply steps_bind; [apply get_user_steps|]. intros found _. by apply spec_ret. Qed.

Lemma in_scope_spec u actor t : in_scope u actor t = true ->
  role u <> lit "system" /\ (actor = lit "admin" -> role u = lit "user" /\ tenant_id u = t).
Proof using.
  unfold in_scope. intros [[H1%negb_true_iff H2%negb_true_iff]%andb_true_iff H3%negb_true_iff]%andb_true_iff. split.
  - intros E. by rewrite E in H1.
  - intros ->. rewrite (proj2 (str_eqb_eq _ _) eq_refl) in H2, H3. cbn in H2, H3.
    apply negb_false_iff, str_eqb_eq in H2, H3. done.
Qed.

Lemma in_scope_no_root s i u actor t :
  accounts_ok root s -> users s !! i = Some u -> in_scope u actor t = true -> root i = false.
Proof using.
  intros Hok Hu [Hr _]%in_scope_spec. destruct (root i) eqn:E; [|done]. by apply (only_roots _ _ _ _ (users_ok _ _ Hok _ _ Hu)) in E.
Qed.

Lemma known_spec wanted u : known_or_kept wanted = true ->
  default (role u) wanted ∈ [lit "user"; lit "admin"] \/ default (role u) wanted = role u.
Proof using.
  destruct wanted as [r|]; cbn -[lit]; [|by right]. intros [->%str_eqb_eq| ->%str_eqb_eq]%orb_true_iff; left; set_solver.
Qed.

(** The write of [update_user], after the increment of the version or not. *)
Lemma write_profile_spec i e n r t now s a s' : write_profile i e n r t now s = Some (a, s') ->
  (a = None /\ s' = s) \/
  exists u u', users s !! i = Some u /\ is_Some (tenants s !! tenant_id u') /\ email_taken i (email u') s = false /\
    u' = touched now (with_profile (default (email u) e) (default (name u) n) (default (role u) r) (default (tenant_id u) t) u) /\
    a = Some u' /\ s' = set_users <[i := u']> s.
Proof using.
  unfold write_profile. destruct (users s !! i) as [u|] eqn:Hu; cbn; [|done].
  destruct (email_taken _ _ _) eqn:He; [intros [= <- <-]; by left|].
  destruct (tenants s !! default (tenant_id u) t) eqn:Ht; cbn; [|done]. intros [= <- <-]. right.
  exists u, (touched now (with_profile (default (email u) e) (default (name u) n) (default (role u) r) (default (tenant_id u) t) u)).
  split_and!; done.
Qed.

Lemma with_profile_version e n r t v now u :
  touched now (with_profile e n r t (with_version v u)) = with_version v (touched now (with_profile e n r t u)).
Proof using. done. Qed.

Lemma email_taken_insert i e u v s :
  users s !! i = Some u -> id u = i -> id v = i ->
  email_taken i e (set_users <[i := v]> s) = email_taken i e s.
Proof using.
  intros Hu Hid Hv. unfold email_taken. apply eq_true_iff_eq. rewrite !existsb_exists. split; intros (x & Hx & He).
  - apply list_elem_of_In, rows_elem in Hx as (j & Hj). cbn in Hj. apply lookup_insert_Some in Hj as [[_ <-]|[_ Hj]].
    + by rewrite Hv, Z.eqb_refl, andb_false_r in He.
    + exists x. split; [by apply list_elem_of_In, rows_elem; exists j|done].
  - apply list_elem_of_In, rows_elem in Hx as (j & Hj). destruct (decide (j = i)) as [->|Hne].
    + assert (x = u) as -> by congruence. by rewrite Hid, Z.eqb_refl, andb_false_r in He.
    + exists x. split; [|done]. apply list_elem_of_In, rows_elem. exists j. cbn. by rewrite lookup_insert_ne.
Qed.

Lemma write_profile_step i e n r t now s a s' v u0 :
  accounts_ok root s -> users s !! i = Some u0 -> (v = token_version u0 \/ next_version (token_version u0) = Some v) ->
  root i = false -> known_or_kept r = true ->
  write_profile i e n r t now (set_users <[i := with_version v u0]> s) = Some (Some a, s') -> some_step root s s'.
Proof using.
  intros Hok Hu Hv Hroot Hr Hw. pose proof (users_ok _ _ Hok _ _ Hu) as Hi.
  apply write_profile_spec in Hw as [[? _]|(u & u' & Hu1 & Ht & He & Hu' & [= ->] & ->)]; [done|].
  cbn in Hu1. rewrite lookup_insert_eq in Hu1. injection Hu1 as <-.
  rewrite update_twice. rewrite (email_taken_insert i _ u0) in He by (done || apply (own_key _ _ _ _ Hi)).
  exists Other. rewrite Hu' in Ht, He |- *. apply step_profile; [done| |done|exact Ht|by eapply email_free].
  destruct (known_spec r u0 Hr) as [Hk|Hk]; [by left|by right].
Qed.

Lemma with_version_same u : with_version (token_version u) u = u.
Proof using. by destruct u. Qed.

Lemma insert_same i u s : users s !! i = Some u -> set_users <[i := u]> s = s.
Proof using. intros Hu. destruct s. unfold set_users; cbn in *. by rewrite insert_id. Qed.

Lemma bump_write_ok i e n r t now w m s a s' n' :
  (execute "Failed to atomically increment token_version" (fun s => s' ← bump_version i s; Some (tt, s')) ;;;
   written <- execute "Failed to update user in transaction" (write_profile i e n r t now) ;;
   some_or written EmailConflict) (locked w) m s = (Ok a, s', n') ->
  exists u v, users s !! i = Some u /\ next_version (token_version u) = Some v /\
    write_profile i e n r t now (set_users <[i := with_version v u]> s) = Some (Some a, s').
Proof using.
  intros Hr. sql_ok. subst.
  match goal with Hb : (_ ← bump_version _ _; _) = Some _, Hw : write_profile _ _ _ _ _ _ _ = Some _ |- _ => rename Hb into Hbump; rename Hw into Hwrite end.
  unfold bump_version in Hbump. destruct (users s !! i) as [u|] eqn:Hu.
  - destruct (next_version (token_version u)) as [v|] eqn:Hv; cbn in Hbump; [|done]. injection Hbump as _ <-. by exists u, v.
  - cbn in Hbump. injection Hbump as _ <-. unfold write_profile in Hwrite. by rewrite Hu in Hwrite.
Qed.

Lemma update_user_steps i now input actor t : steps root (update_user i now input actor t) (fun _ => True).
Proof using.
  apply steps_seq, steps_query. intros s0 Hok0. apply steps_seq, spec_some. intros user Hu0.
  apply steps_seq, spec_guard. intros Hscope. pose proof (in_scope_no_root _ _ _ _ _ Hok0 Hu0 Hscope) as Hroot.
  apply steps_seq, spec_guard. intros _. apply steps_seq, spec_guard. intros Hknown. cbv zeta.
  eapply (steps_bind _ _ _ (fun _ => True)).
  - destruct (_ || _).
    + eapply (steps_bind _ _ _ (fun _ => True)).
      * apply steps_transaction. intros w m s a Hok Hr. split; [|done].
        destruct ((_ ;;; _) (locked w) m s) as [[r s1] n1] eqn:E. unfold result_of, state_of in *; cbn [fst snd] in *. subst r.
        apply bump_write_ok in E as (u & v & Hu & Hv & Hw). eapply write_profile_step; [done|done|by right|done|done|exact Hw].
      * intros _ _. apply steps_seq, steps_query. intros s _. by apply spec_some.
    + apply steps_seq, steps_execute. intros s a s' Hok Hw. split; [|by apply spec_some].
      destruct a as [a|].
      * right. pose proof Hw as Hw'. apply write_profile_spec in Hw' as [[? _]|(u & _ & Hu & _)]; [done|].
        eapply (write_profile_step i _ _ _ _ _ s a s' (token_version u) u); [done|done|by left|done|done|].
        rewrite with_version_same, insert_same by done. exact Hw.
      * left. by apply write_profile_spec in Hw as [[_ ->]|(? & ? & _ & _ & _ & _ & [=] & _)].
  - intros result _. apply steps_cache; [apply invalidate_steps|intros _].
    apply steps_cache; [destruct (_ || _); [apply invalidate_steps|by apply spec_ret]|intros _].
    apply steps_cache; [destruct (moved_to _ _ _); [apply invalidate_counts_of_steps|by apply spec_ret]|intros _].
    by apply spec_ret.
Qed.

(** The transaction of [change_password]. *)
Lemma write_password_ok i hash now w n s a s' n' :
  replace_password i hash now (locked w) n s = (Ok a, s', n') ->
  exists u v, users s !! i = Some u /\ next_version (token_version u) = Some v /\
    s' = delete_user_tokens i (set_users <[i := touched now (with_password hash (with_version v u))]> s).
Proof using.
  intros Hr. unfold replace_password in Hr. sql_ok. simplify_eq/=.
  match goal with Hb : (_ ← bump_version _ _; _) = Some _, Hw : write_password _ _ _ _ = Some _ |- _ => rename Hb into Hbump; rename Hw into Hwrite end.
  unfold write_password, update_user_row in Hwrite. unfold bump_version in Hbump. destruct (users s !! i) as [u|] eqn:Hu.
  - destruct (next_version (token_version u)) as [v|] eqn:Hv; cbn in Hbump; [|done]. simplify_eq/=.
    rewrite lookup_insert_eq in Hwrite. simplify_eq/=.
    exists u, v. split_and!; [done|done|]. by rewrite update_twice.
  - simplify_eq/=. by rewrite Hu in Hwrite.
Qed.

Lemma change_password_steps i salt now current new : steps root (change_password i salt now current new) (fun _ => True).
Proof using.
  apply steps_seq, steps_query. intros s0 _. apply steps_seq, spec_some. intros user _. apply steps_seq, spec_some. intros is_valid _.
  do 2 (apply steps_seq, spec_guard; intros _). apply steps_seq, spec_lift. intros _ _. apply steps_seq, spec_some. intros hash _.
  eapply (steps_bind _ _ _ (fun _ => True)).
  - apply steps_transaction. intros w n s a Hok Hr. split; [|done].
    destruct (replace_password i hash now (locked w) n s) as [[r s1] n1] eqn:E. unfold result_of, state_of in *; cbn in *. subst r.
    apply write_password_ok in E as (u & v & Hu & Hv & ->). exists Other. by apply step_password.
  - intros _ _. apply steps_seq, steps_query. intros s _. apply steps_seq, spec_some. intros updated _.
    do 2 (apply steps_cache; [apply invalidate_steps|intros _]). by apply spec_ret.
Qed.

Lemma delete_row_step b i s : root i = false -> (delete_row b i s).2 = s \/ some_step root s (delete_row b i s).2.
Proof using.
  intros Hroot. unfold delete_row. destruct (users s !! i) as [u|]; [|by left]. destruct (b && _); [by left|right].
  exists Other. by apply step_deleted.
Qed.

Lemma delete_user_steps i actor actor_id t : steps root (delete_user i actor actor_id t) (fun _ => True).
Proof using.
  apply steps_seq, steps_query. intros s0 Hok0. apply steps_seq, spec_some. intros target Hu0. apply steps_seq, spec_guard. intros _.
  apply steps_seq, spec_guard. intros Hscope. pose proof (in_scope_no_root _ _ _ _ _ Hok0 Hu0 Hscope) as Hroot.
  eapply steps_bind; [eapply (spec_caught _ _ _ (fun _ => True) (fun _ => True)); [|done|done]|].
  { apply steps_execute. intros s a s' _ [= _ <-]. split; [right; exists Other; apply step_tokens_deleted|done]. }
  intros _ _. apply steps_seq, steps_execute. intros s a s' _ [= Hd]. pose proof (delete_row_step (str_eqb actor (lit "admin")) i s Hroot) as Hs.
  rewrite Hd in Hs. split; [exact Hs|]. apply steps_seq, spec_guard. intros _.
  do 2 (apply steps_cache; [apply invalidate_steps|intros _]). apply invalidate_counts_of_steps.
Qed.

Lemma list_users_steps page per_page actor t : steps root (list_users page per_page actor t) (fun _ => True).
Proof using.
  apply steps_cache; [apply cache_get_steps|]. intros hit. eapply (steps_bind _ _ _ (fun _ => True)).
  - assert (forall m : Sql.M tables UserError Z, steps root m (fun _ => True) ->
      steps root (match hit with Some (CNumber n) => ret n | _ => m end) (fun _ => True)) as Hm.
    { intros m Hm. destruct hit as [[| n| |]|]; try exact Hm. by apply spec_ret. }
    apply Hm, steps_seq, steps_query. intros s _. apply steps_cache; [apply cache_set_steps|]. intros _. by apply spec_ret.
  - intros total _. apply steps_seq, steps_query. intros s _. by apply spec_ret.
Qed.

(** ** The scope of an admin *)

Lemma keeps_counts w ts : alone w -> keeps facts w (invalidate_counts_of ts).
Proof using. intros Hw. induction ts as [|t ts IH]; cbn [invalidate_counts_of foldr]; auto with keeps. Qed.

(** What an admin of tenant [t] may do to an account: nothing, or something to a
    plain user of his tenant, who stays one. *)
Definition admin_change (t : str) (before after : gmap Z User) (i : Z) : Prop :=
  forall j, after !! j <> before !! j ->
    j = i /\ exists u, before !! i = Some u /\ role u = lit "user" /\ tenant_id u = t /\
    forall u', after !! i = Some u' -> role u' = lit "user" /\ tenant_id u' = t.

Lemma admin_change_refl t m i : admin_change t m m i.
Proof using. by intros j. Qed.

Lemma users_kept s s' : facts s' = facts s -> users s' = users s.
Proof using. by intros [= -> _ _ _ _]. Qed.

Lemma write_own_user context i e n r now t w m s x s' m' u :
  alone w -> users s !! i = Some u -> role u = lit "user" -> tenant_id u = t -> r = None \/ r = Some (lit "user") ->
  (written <- execute context (write_profile i e n r None now) ;; some_or written EmailConflict) w m s = (x, s', m') ->
  admin_change t (users s) (users s') i.
Proof using.
  intros Hw Hu Hrole Hten Hr H. apply bind_cases in H as [(? & H & _)|(a & s1 & n1 & H & H')].
  - apply execute_err in H as ->; [|done]. apply admin_change_refl.
  - unchanged H'. apply execute_ok in H; [|done]. apply write_profile_spec in H as [[_ ->]|(v & v' & Hv & _ & _ & Hv' & _ & ->)];
      [apply admin_change_refl|].
    assert (v = u) as -> by congruence. intros j Hj. cbn in Hj. destruct (decide (i = j)) as [<-|]; [|by rewrite lookup_insert_ne in Hj].
    split; [done|]. exists u. split_and!; [done..|]. intros u' Hu'. cbn in Hu'. rewrite lookup_insert_eq in Hu'.
    injection Hu' as <-. subst v'. cbn -[lit]. split; [|done]. by destruct Hr as [->| ->].
Qed.

Lemma moved_to_admin old wanted : moved_to (lit "admin") old wanted = None.
Proof using. by destruct wanted. Qed.

Lemma admin_updates_own_users i now input t w n s r s' n' :
  alone w -> update_user i now input (lit "admin") t w n s = (r, s', n') -> admin_change t (users s) (users s') i.
Proof using.
  intros Hw Hr. unfold update_user in Hr.
  pass Hr Hf; [apply admin_change_refl|]. pass Hr Hu; [apply admin_change_refl|].
  pass Hr Hsc; [apply admin_change_refl|]. pass Hr Hp; [apply admin_change_refl|]. pass Hr Hk; [apply admin_change_refl|].
  apply query_ok in Hf as [-> _]; [|done]. apply some_or_ok in Hu as [Hu _]. apply guard_ok in Hsc as [Hsc _].
  apply guard_ok in Hp as [Hp _]. apply guard_ok in Hk as [Hk _]. match type of Hu with _ = Some ?x => rename x into user end.
  destruct (in_scope_spec _ _ _ Hsc) as [_ [Hrole Hten]]; [done|].
  rewrite moved_to_admin in Hr.
  assert (w_role input = None \/ w_role input = Some (lit "user")) as Hwanted.
  { destruct (w_role input) as [x|]; [right|by left]. cbn -[lit] in Hk. apply orb_true_iff in Hk as [->%str_eqb_eq|Hx%str_eqb_eq]; [done|].
    subst x. by rewrite bool_decide_true in Hp. }
  assert ((match w_role input with Some x => negb (str_eqb x (role user)) | None => false end || false) = false) as Hb
    by (rewrite Hrole; by destruct Hwanted as [->| ->]). rewrite Hb in Hr.
  apply bind_cases in Hr as [(? & Hr & _)|(? & s1 & ? & Hr1 & Hr)]; [by eapply write_own_user|].
  assert (users s' = users s1) as ->; [|by eapply write_own_user].
  apply users_kept. revert Hr. match goal with |- ?m _ _ _ = _ -> _ => enough (keeps facts w m) as Hkeep by apply Hkeep end.
  auto 10 with keeps.
Qed.

Lemma admin_deletes_own_users i actor_id t w n s r s' n' :
  alone w -> delete_user i (lit "admin") actor_id t w n s = (r, s', n') -> admin_change t (users s) (users s') i.
Proof using.
  intros Hw Hr. unfold delete_user in Hr. 
  pass Hr Hf; [apply admin_change_refl|]. pass Hr Hu; [apply admin_change_refl|].
  pass Hr Hself; [apply admin_change_refl|]. pass Hr Hsc; [apply admin_change_refl|].
  apply query_ok in Hf as [-> _]; [|done]. apply some_or_ok in Hu as [Hu _]. apply guard_ok in Hsc as [Hsc _].
  destruct (in_scope_spec _ _ _ Hsc) as [_ [Hrole Hten]]; [done|].
  assert (forall x s1 n1 m, caught (E' := UserError) (execute (E := UserError) "Failed to cascade-delete refresh tokens"
    (fun s => Some (tt, delete_user_tokens i s))) w m s = (x, s1, n1) -> users s1 = users s) as Hdrop.
  { intros y s1 n1 m Hc. unfold caught in Hc. destruct (execute _ _ _ _ _) as [[q s2] n2] eqn:E. injection Hc as _ -> _.
    destruct q; [apply execute_ok in E; [by injection E as _ <-|done]|by apply execute_err in E as ->]. }
  apply bind_cases in Hr as [(? & Hr & _)|(? & s1 & ? & Hr1 & Hr)].
  { apply Hdrop in Hr as ->. apply admin_change_refl. }
  apply Hdrop in Hr1. rewrite <- Hr1 in *. clear Hdrop.
  apply bind_cases in Hr as [(? & Hr & _)|(d & s2 & ? & Hr2 & Hr)].
  { apply execute_err in Hr as ->; [|done]. apply admin_change_refl. }
  assert (users s' = users s2) as ->.
  { apply users_kept. revert Hr. match goal with |- ?m _ _ _ = _ -> _ => enough (keeps facts w m) as Hkeep by apply Hkeep end.
    pose proof keeps_counts. auto 10 with keeps. }
  apply execute_ok in Hr2; [|done]. injection Hr2 as Hr2. unfold delete_row in Hr2. rewrite Hu in Hr2.
  destruct (_ && _); injection Hr2 as _ <-; [apply admin_change_refl|]. intros j Hj. cbn in Hj.
  destruct (decide (i = j)) as [<-|]; [|by rewrite lookup_delete_ne in Hj].
  split; [done|]. eexists. split_and!; [done..|]. intros u' Hu'. cbn in Hu'. by rewrite lookup_delete_eq in Hu'.
Qed.

(** Whatever an admin asks for and whatever fails, when nobody interferes only a
    plain user of his own tenant changes, and he stays one or is gone. *)
Theorem admins_stay_in_scope i t w n s s' n' :
  alone w ->
  (exists now input r, update_user i now input (lit "admin") t w n s = (r, s', n')) \/
  (exists actor_id r, delete_user i (lit "admin") actor_id t w n s = (r, s', n')) ->
  admin_change t (users s) (users s') i.
Proof using.
  intros Hw [(now & input & r & Hr)|(actor_id & r & Hr)]; [by eapply admin_updates_own_users|by eapply admin_deletes_own_users].
Qed.

(** A password is only changed by who knows the current one; then the version
    has grown and no session is left, at once. *)
Theorem change_password_sound i salt now current new w n s r s' n' :
  calm (some_step root) w -> change_password i salt now current new w n s = (Ok r, s', n') ->
  exists s0 u s1 x hash,
    reaches root s s0 /\ users s0 !! i = Some u /\ argon_verify current (password_hash u) = Some true /\
    validate_password new = true /\ current <> new /\ argon_hash salt new = Some hash /\
    reaches root s0 s1 /\ users s1 !! i = Some x /\
    let s2 := delete_user_tokens i (set_users <[i := touched now (with_password hash (with_version (token_version x + 1) x))]> s1) in
    ~ has_session i s2 /\ reaches root s2 s'.
Proof using.
  intros Hw Hr. unfold change_password in Hr. calm_ok Hw.
  match goal with
  | Hs : rtc _ s ?a, Hu : users ?a !! i = Some ?u, Hb : replace_password _ ?h _ _ _ ?b = _ |- _ =>
      exists a, u; apply write_password_ok in Hb as (row & v & Hx & Hv%next_version_Some & Hafter); exists b, row, h end.
  match goal with H : match require_password new with Ok _ => Ok tt | Err m => Err _ end = Ok _ |- _ =>
    unfold require_password in H; destruct (validate_password new) eqn:Hnew; [|done] end.
  split_and!; try done.
  - congruence.
  - match goal with H : negb (str_eqb _ _) = true |- _ => apply negb_true_iff in H; intros ->; by rewrite (proj2 (str_eqb_eq _ _) eq_refl) in H end.
  - cbv zeta. split; [apply no_session_left|]. subst v. rewrite <- Hafter.
    repeat match goal with H : invalidate _ _ _ _ = (Ok _, _, _) |- _ => apply (invalidate_calm root) in H; [|done] end.
    unfold reaches in *. by repeat (etrans; [eassumption|]).
Qed.
End Service.

(** ** At concrete inputs *)

#[local] Existing Instance small_argon.
#[local] Existing Instance ascii_tables.

Definition rename (n : string) : UpdateUserInput := {| w_email := None; w_name := Some (lit n); w_role := None; w_tenant_id := None |}.

Lemma admins_stay_in_scope_witness :
  let s' := state_of (update_user 8 60 (rename "renamed") (lit "admin") (lit "default") (quiet 60) 0%nat demo_tables) in
  admin_change (lit "default") (users demo_tables) (users s') 8 /\ option_map name (users s' !! 8) = Some (lit "renamed").
Proof.
  split; [|vm_compute; reflexivity].
  apply (admins_stay_in_scope 8 (lit "default") (quiet 60) 0%nat demo_tables
    (state_of (update_user 8 60 (rename "renamed") (lit "admin") (lit "default") (quiet 60) 0%nat demo_tables)) 3%nat); [apply alone_quiet|].
  left. exists 60, (rename "renamed"). eexists. vm_compute. reflexivity.
Defined.

Lemma change_password_sound_witness : exists (r : UserResponse * Z) s', r.2 = 2 /\ exists s0 u s1 x hash,
  reaches demo_root demo_tables s0 /\ users s0 !! 7 = Some u /\ argon_verify (lit "Secret1!") (password_hash u) = Some true /\
  validate_password (lit "Secret2!") = true /\ lit "Secret1!" <> lit "Secret2!" /\ argon_hash (lit "s") (lit "Secret2!") = Some hash /\
  reaches demo_root s0 s1 /\ users s1 !! 7 = Some x /\
  let s2 := delete_user_tokens 7 (set_users <[7 := touched 60 (with_password hash (with_version (token_version x + 1) x))]> s1) in
  ~ has_session 7 s2 /\ reaches demo_root s2 s'.
Proof.
  assert (exists r s', change_password 7 (lit "s") 60 (lit "Secret1!") (lit "Secret2!") (quiet 60) 0%nat demo_tables = (Ok r, s', 9%nat)
    /\ r.2 = 2) as (r & s' & Hr & Hv) by (do 2 eexists; split; vm_compute; reflexivity).
  exists r, s'. split; [exact Hv|].
  exact (change_password_sound demo_root 7 (lit "s") 60 (lit "Secret1!") (lit "Secret2!") (quiet 60) 0%nat demo_tables r s' 9%nat
    (calm_quiet _ _) Hr).
Defined.

(** The guards of [update_user] are on the row it read: an admin who was about
    to change a plain user still does so after the user has been made an admin. *)
Definition promoted (s : tables) : tables :=
  state_of (update_user 8 60 {| w_email := None; w_name := None; w_role := Some (lit "admin"); w_tenant_id := None |}
    (lit "system") (lit "default") (quiet 60) 0%nat s).
Definition late_update (n : nat) : moment tables :=
  {| clock := 60; fault := false; others := if (n =? 1)%nat then promoted else fun s => s |}.

Example admin_changes_admin :
  let r := update_user 8 60 {| w_email := Some (lit "Eve@ains"); w_name := None; w_role := None; w_tenant_id := None |}
    (lit "admin") (lit "default") late_update 0%nat demo_tables in
  option_map role (users (promoted demo_tables) !! 8) = Some (lit "admin") /\
  option_map (fun u => (role u, email u)) (users (state_of r) !! 8) = Some (lit "admin", lit "eve@ains").
Proof. split; vm_compute; reflexivity. Qed.

(** [delete_user] invalidates the counts of the tenant of whoever deletes, not of
    the tenant of the deleted user. *)
Definition other_tenant : tables :=
  let s := state_of (TenantService.create (lit "t2") (lit "Two") 0 (quiet 0) 0%nat demo_tables) in
  state_of (create_user_for_tenant 9 (lit "s") 0
    {| n_email := lit "cy@ains"; n_password := lit "Secret1!"; n_name := lit "cy"; n_role := None |}
    (lit "system") (lit "t2") (quiet 0) 0%nat s).

Example count_of_the_other_tenant_is_stale :
  let listed := list_users 1 10 (lit "admin") (lit "t2") (quiet 0) 0%nat other_tenant in
  let deleted := delete_user 9 (lit "system") 1 (lit "default") (quiet 1) 0%nat (state_of listed) in
  let again := list_users 1 10 (lit "admin") (lit "t2") (quiet 2) 0%nat (state_of deleted) in
  result_of deleted = Ok tt /\
  match result_of again with Ok p => (total p, length (items p)) | Err _ => (0, 0%nat) end = (1, 0%nat).
Proof. split; vm_compute; reflexivity. Qed.
