(* ===== verification/Sessions.v ===== *)
(** * The account endpoints ([server/src/handlers/auth.rs], [server/src/handlers/api.rs],
    [server/src/utils/error.rs])

    The services put together as the handlers call them, what their errors turn
    into, and what holds of any number of requests however they interleave.  The
    requests have passed [validate()]; the captcha of the WeChat login is a
    parameter. *)

From S2P Require Import Prelude Sql Http Accounts Tenants Verification PasswordReset Auth Users.

Open Scope string_scope.
Open Scope list_scope.
Open Scope Z_scope.
Open Scope sql_scope.

Abbreviation H := (Sql.M tables HttpError).

(** ** What errors turn into *)

Definition internal_error : ApiError := ApiInternal (lit "An unexpected error occurred").

Definition api_of_user (e : UserError) : ApiError :=
  match e with
  | Users.NotFound => ApiNotFound (lit "User not found")
  | EmailConflict => ApiConflict (lit "Email already registered")
  | Users.InvalidCredentials => ApiUnauthorized (lit "Current password is incorrect")
  | Forbidden m => ApiForbidden m
  | WeakPassword m => ApiBadRequest m
  | SamePassword m => ApiBadRequest m
  | NotAllowed m => ApiForbidden m
  | InsufficientBalance => ApiInsufficientBalance (lit "Insufficient balance")
  | UserInternal _ => internal_error
  end.

Definition api_of_auth (e : AuthError) : ApiError :=
  match e with
  | Auth.InvalidCredentials => ApiUnauthorized (lit "Invalid email or password")
  | AuthInternal _ => internal_error
  end.

Definition api_of_verification (e : VerificationError) : ApiError :=
  match e with
  | Verification.InvalidOrExpired => ApiBadRequest (lit "Invalid or expired verification code")
  | Verification.TooManyAttempts => ApiBadRequest (lit "Invalid or expired verification code")
  | Verification.TooSoon => ApiBadRequest (lit "Please wait before requesting a new code")
  | Verification.EmailNotConfigured => ApiServiceUnavailable (lit "Email verification is currently unavailable")
  | VerificationInternal _ => internal_error
  end.

Definition api_of_reset (e : PasswordResetError) : ApiError :=
  match e with
  | PasswordReset.InvalidOrExpired => ApiBadRequest (lit "Invalid or expired reset code")
  | PasswordReset.TooManyAttempts => ApiBadRequest (lit "Invalid or expired reset code")
  | PasswordReset.TooSoon => ApiBadRequest (lit "Please wait before requesting a new reset code")
  | PasswordReset.EmailNotConfigured => ApiServiceUnavailable (lit "Password reset is currently unavailable")
  | ResetInternal _ => internal_error
  end.

Definition http_of_user (e : UserError) : HttpError := http_of_api (api_of_user e).
Definition http_of_auth (e : AuthError) : HttpError := http_of_api (api_of_auth e).
Definition http_of_verification (e : VerificationError) : HttpError := http_of_api (api_of_verification e).
Definition http_of_reset (e : PasswordResetError) : HttpError := http_of_api (api_of_reset e).

Section Handlers.
Context {U : Unicode} {A : Argon2} {J : Jwt} {D : Digest} (from_timestamp : Z -> option Z) (config : Config) (cookie_secure : bool).

(** ** Cookies *)

Inductive CookieValue := Plain (s : str) | Signed (t : Token).

Record Cookie := { ck_name : str; ck_value : CookieValue; max_age : Z; http_only : bool; secure : bool }.

Definition JWT_COOKIE : str := lit "ains_jwt".
Definition REFRESH_COOKIE : str := lit "ains_refresh".
Definition EXPIRY_COOKIE : str := lit "ains_exp".

Definition token_cookie (name : str) (value : CookieValue) (max_age_secs : Z) : Cookie :=
  {| ck_name := name; ck_value := value; max_age := max_age_secs; http_only := true; secure := cookie_secure |}.
Definition expiry_cookie (value : str) (max_age_secs : Z) : Cookie :=
  {| ck_name := EXPIRY_COOKIE; ck_value := Plain value; max_age := max_age_secs; http_only := false; secure := cookie_secure |}.
Definition clear_auth_cookies : list Cookie :=
  [token_cookie JWT_COOKIE (Plain []) 0; token_cookie REFRESH_COOKIE (Plain []) 0; expiry_cookie [] 0].

(** [now]: seconds since the epoch. *)
Definition unix_timestamp_from_now (now seconds_from_now : Z) : str := show_Z (now + seconds_from_now).

(** ** Public endpoints *)

Definition api_guard (r : result unit ApiError) : H unit :=
  lift (match r with Ok _ => Ok tt | Err e => Err (http_of_api e) end).

Definition six_digits (code : str) : bool := forallb is_ascii_digit code.

Definition login_inner (d : Draws) (cookie_now : Z) (captcha : H unit) (request : LoginRequest) : H (LoginResponse * list Cookie) :=
  captcha ;;;
  result <- mapped http_of_auth (Auth.login from_timestamp config d
    {| l_email := to_lowercase (l_email request); l_password := l_password request; l_remember := l_remember request |}) ;;
  let jwt_max_age := expires_in result in
  let refresh_cookie :=
    if is_empty (refresh_token result) then token_cookie REFRESH_COOKIE (Plain []) 0
    else token_cookie REFRESH_COOKIE (Plain (refresh_token result)) (refresh_expires_in result) in
  ret (result, [token_cookie JWT_COOKIE (Signed (token result)) jwt_max_age; refresh_cookie;
                expiry_cookie (unix_timestamp_from_now cookie_now jwt_max_age) (Z.max (refresh_expires_in result) jwt_max_age)]).

Record RegisterRequestBody := { g_email : str; g_password : str; g_name : str; g_password_confirm : str }.
Record RegisterResponse := { g_message : str; g_user_id : str; g_email_verified : bool }.

Definition REGISTRATION_FAILED : string := "Registration failed due to an internal error. Please try again later.".

Definition register (new_id : Z) (salt code_salt : str) (draw : N) (now : Z) (mail : Mail) (p : RegisterRequestBody) : H RegisterResponse :=
  guard_else (str_eqb (g_password p) (g_password_confirm p)) (bad_request "passwords do not match") ;;;
  api_guard (check_password_strength (g_password p)) ;;;
  let e := to_lowercase (g_email p) in
  user <- mapped http_of_user (create_user new_id salt now
    {| n_email := e; n_password := g_password p; n_name := g_name p; n_role := None |} (lit "user")) ;;
  sent <- tried (send_verification_email draw code_salt now mail e) ;;
  let auto := mapped (fun _ => http_internal REGISTRATION_FAILED) (auto_verify now e) in
  outcome <-
    (match sent with
     | Ok _ => ret (lit "Verification code sent to your email", false)
     | Err Verification.EmailNotConfigured => auto ;;; ret (lit "User registered successfully", true)
     | Err _ =>
         auto ;;;
         ret (lit "User registered successfully. Note: verification email could not be sent, but your account is active.", true)
     end) ;;
  ret {| g_message := fst outcome; g_user_id := show_Z (r_id user); g_email_verified := snd outcome |}.

Definition verify_email (checked now : Z) (e code : str) : H str :=
  guard_else (six_digits code) (bad_request "code must be 6 digits") ;;;
  mapped http_of_verification (Verification.verify_email checked now (to_lowercase e) code) ;;;
  ret (lit "Email verified successfully").

Definition resend_code (draw : N) (salt : str) (now : Z) (mail : Mail) (e : str) : H str :=
  sent <- tried (Verification.resend_code draw salt now mail (to_lowercase e)) ;;
  match sent with
  | Err Verification.TooSoon | Ok _ => ret (lit "If that email is registered, a new verification code has been sent")
  | Err err => fail (http_of_verification err)
  end.

Definition forgot_password (draw : N) (salt : str) (now : Z) (mail : Mail) (e : str) : H str :=
  sent <- tried (request_reset draw salt now mail (to_lowercase e)) ;;
  match sent with
  | Err PasswordReset.TooSoon | Ok _ => ret (lit "If that email is registered, a reset code has been sent")
  | Err err => fail (http_of_reset err)
  end.

Record ResetPasswordResponse := { p_token : Token; p_expires_in : Z; p_user_id : str; p_role : str }.

Definition signed_or_internal (t : option Token) : H Token := some_or t (http_of_api internal_error).

Definition reset_password_inner (checked now token_now cookie_now : Z) (salt e code new_password : str) :
    H (ResetPasswordResponse * list Cookie) :=
  api_guard (check_password_strength new_password) ;;;
  guard_else (six_digits code) (bad_request "code must be 6 digits") ;;;
  outcome <- mapped http_of_reset (PasswordReset.reset_password checked now salt (to_lowercase e) code new_password) ;;
  invalidate (version_key (o_user_id outcome)) ;;;
  let jwt_max_age := jwt_expiry_seconds config in
  new_token <- signed_or_internal (generate_token token_now (show_Z (o_user_id outcome)) (o_role outcome) (jwt_secret config)
                 jwt_max_age false (o_token_version outcome) (o_tenant_id outcome)) ;;
  ret ({| p_token := new_token; p_expires_in := jwt_max_age; p_user_id := show_Z (o_user_id outcome); p_role := o_role outcome |},
       [token_cookie JWT_COOKIE (Signed new_token) jwt_max_age; token_cookie REFRESH_COOKIE (Plain []) 0;
        expiry_cookie (unix_timestamp_from_now cookie_now jwt_max_age) jwt_max_age]).

(** [bytes] are the random bytes of the new token, [expires_now] the seconds its
    expiry counts from. *)
Definition refresh_inner (now created expires_now token_now cookie_now : Z) (bytes : list N) (cookie : option str) :
    H (LoginResponse * list Cookie) :=
  raw_old <- some_or cookie (unauthorized "Missing refresh token cookie") ;;
  let (raw, new_hash) := generate_refresh_token bytes in
  let refresh_max_age := refresh_token_expiry_seconds config in
  expires <- some_or (from_timestamp (wrap_u64 (expires_now + refresh_max_age))) (http_of_api internal_error) ;;
  rotated <- mapped (fun _ => http_of_api internal_error) (rotate_refresh_token now created (sha256_hex raw_old) new_hash expires) ;;
  granted <- some_or rotated (unauthorized "Invalid or expired refresh token") ;;
  let '(uid, r, version, tenant) := granted in
  let jwt_max_age := jwt_remember_expiry_seconds config in
  new_token <- signed_or_internal (generate_token token_now (show_Z uid) r (jwt_secret config) jwt_max_age true version tenant) ;;
  ret ({| token := new_token; token_type := lit "Bearer"; expires_in := jwt_max_age; user_id := show_Z uid; l_role := r;
          l_tenant_id := tenant; refresh_token := raw; refresh_expires_in := refresh_max_age |},
       [token_cookie JWT_COOKIE (Signed new_token) jwt_max_age; token_cookie REFRESH_COOKIE (Plain raw) refresh_max_age;
        expiry_cookie (unix_timestamp_from_now cookie_now jwt_max_age) (Z.max refresh_max_age jwt_max_age)]).

Definition logout (cookie : option str) : H (list Cookie) :=
  (match cookie with
   | Some raw =>
       if is_empty raw then ret tt
       else
         tried (delete_refresh_token (sha256_hex raw)) ;;;
         ret tt
   | None => ret tt
   end) ;;;
  ret clear_auth_cookies.

(** ** Authenticated endpoints *)

Definition actor_id (a : AuthUser) : H Z := some_or (parse_i64 (au_user_id a)) (http_internal "An unexpected error occurred").

Definition change_my_password_inner (now token_now cookie_now : Z) (salt : str) (a : AuthUser) (current_password new_password : str) :
    H (Token * list Cookie) :=
  api_guard (check_password_strength new_password) ;;;
  i <- actor_id a ;;
  guard_else (negb (str_eqb current_password new_password)) (bad_request "New password must be different from current password") ;;;
  changed <- mapped http_of_user (change_password i salt now current_password new_password) ;;
  let (u, version) := changed in
  let jwt_expiry := if au_remember a then jwt_remember_expiry_seconds config else jwt_expiry_seconds config in
  new_token <- signed_or_internal (generate_token token_now (show_Z (r_id u)) (r_role u) (jwt_secret config) jwt_expiry
                 (au_remember a) version (r_tenant_id u)) ;;
  ret (new_token,
       [token_cookie JWT_COOKIE (Signed new_token) jwt_expiry; token_cookie REFRESH_COOKIE (Plain []) 0;
        expiry_cookie (unix_timestamp_from_now cookie_now jwt_expiry) jwt_expiry]).

Definition logout_all (a : AuthUser) : H (list Cookie) :=
  i <- actor_id a ;;
  mapped (fun _ => http_internal "Failed to revoke all sessions") (revoke_all_sessions i) ;;;
  invalidate (version_key i) ;;;
  ret clear_auth_cookies.

Definition require_tenant (t : str) : H unit :=
  active <- mapped (fun _ => http_internal "Failed to verify tenant") (TenantService.is_active true t) ;;
  guard_else active (bad_request "Tenant does not exist or is disabled").

(** [with_verified]: the answer says so when the update did not fail. *)
Definition with_verified (r : UserResponse) : UserResponse :=
  {| r_id := r_id r; r_email := r_email r; r_name := r_name r; r_role := r_role r; r_tenant_id := r_tenant_id r;
     r_tenant_name := r_tenant_name r; r_email_verified := true; r_created_at := r_created_at r; r_updated_at := r_updated_at r |}.

Definition create_user_handler (new_id : Z) (salt : str) (now : Z) (a : AuthUser) (input : CreateUserInput) (tenant : option str) :
    H UserResponse :=
  api_guard (check_password_strength (n_password input)) ;;;
  let e := to_lowercase (n_email input) in
  let requested_role := if has_role a "system" then n_role input else None in
  let t := if has_role a "system" then default DEFAULT_TENANT_ID tenant else au_tenant_id a in
  require_tenant t ;;;
  created <- mapped http_of_user (create_user_for_tenant new_id salt now
    {| n_email := e; n_password := n_password input; n_name := n_name input; n_role := requested_role |} (au_role a) t) ;;
  verified <- tried (auto_verify now e) ;;
  ret (match verified with Ok _ => with_verified created | Err _ => created end).

Definition get_me (a : AuthUser) : H UserResponse :=
  i <- actor_id a ;;
  found <- mapped http_of_user (get_user i) ;;
  some_or found (not_found "User not found").

Definition get_user_handler (a : AuthUser) (i : Z) : H UserResponse :=
  found <- mapped http_of_user (get_user_scoped i (au_role a) (au_tenant_id a)) ;;
  some_or found (not_found "User not found").

Definition update_user_handler (now : Z) (a : AuthUser) (i : Z) (p : UpdateUserInput) : H UserResponse :=
  guard_else (match w_email p, w_name p, w_role p, w_tenant_id p with None, None, None, None => false | _, _, _, _ => true end)
    (bad_request "At least one field (email, name, role, or tenant_id) must be provided") ;;;
  let requested_role := if has_role a "system" then w_role p else None in
  let requested_tenant_id := if has_role a "system" then w_tenant_id p else None in
  (match requested_tenant_id with Some t => require_tenant t | None => ret tt end) ;;;
  mapped http_of_user (update_user i now
    {| w_email := w_email p; w_name := w_name p; w_role := requested_role; w_tenant_id := requested_tenant_id |}
    (au_role a) (au_tenant_id a)).

Definition delete_user_handler (a : AuthUser) (i : Z) : H unit :=
  self <- actor_id a ;;
  mapped http_of_user (delete_user i (au_role a) self (au_tenant_id a)).

(** ** Every request makes only steps *)

Inductive operation :=
| OpLogin (d : Draws) (cookie_now : Z) (captcha : result unit HttpError) (request : LoginRequest)
| OpRegister (new_id : Z) (salt code_salt : str) (draw : N) (now : Z) (mail : Mail) (p : RegisterRequestBody)
| OpVerifyEmail (checked now : Z) (e code : str)
| OpResendCode (draw : N) (salt : str) (now : Z) (mail : Mail) (e : str)
| OpForgotPassword (draw : N) (salt : str) (now : Z) (mail : Mail) (e : str)
| OpResetPassword (checked now token_now cookie_now : Z) (salt e code new_password : str)
| OpRefresh (now created expires_now token_now cookie_now : Z) (bytes : list N) (cookie : option str)
| OpLogout (cookie : option str)
| OpAuthenticate (now : Z) (presented : option Token)
| OpChangePassword (now token_now cookie_now : Z) (salt : str) (a : AuthUser) (current_password new_password : str)
| OpLogoutAll (a : AuthUser)
| OpCreateUser (new_id : Z) (salt : str) (now : Z) (a : AuthUser) (input : CreateUserInput) (tenant : option str)
| OpGetMe (a : AuthUser)
| OpGetUser (a : AuthUser) (i : Z)
| OpListUsers (a : AuthUser) (page per_page : Z)
| OpUpdateUser (now : Z) (a : AuthUser) (i : Z) (p : UpdateUserInput)
| OpDeleteUser (a : AuthUser) (i : Z)
| OpCreateTenant (a : AuthUser) (uuid name : str) (now : Z)
| OpUpdateTenant (a : AuthUser) (id : str) (name status : option str)
| OpDeleteTenant (a : AuthUser) (id : str)
| OpMoveUser (a : AuthUser) (i : Z) (to : str) (now : Z)
| OpCleanup (now : Z).

Definition quietly {X} (m : H X) : H unit := m ;;; ret tt.

Definition perform (op : operation) : H unit :=
  match op with
  | OpLogin d cookie_now captcha request => quietly (login_inner d cookie_now (lift captcha) request)
  | OpRegister new_id salt code_salt draw now mail p => quietly (register new_id salt code_salt draw now mail p)
  | OpVerifyEmail checked now e code => quietly (verify_email checked now e code)
  | OpResendCode draw salt now mail e => quietly (resend_code draw salt now mail e)
  | OpForgotPassword draw salt now mail e => quietly (forgot_password draw salt now mail e)
  | OpResetPassword checked now token_now cookie_now salt e code new_password =>
      quietly (reset_password_inner checked now token_now cookie_now salt e code new_password)
  | OpRefresh now created expires_now token_now cookie_now bytes cookie =>
      quietly (refresh_inner now created expires_now token_now cookie_now bytes cookie)
  | OpLogout cookie => quietly (logout cookie)
  | OpAuthenticate now presented => quietly (authenticate config now presented)
  | OpChangePassword now token_now cookie_now salt a current_password new_password =>
      quietly (change_my_password_inner now token_now cookie_now salt a current_password new_password)
  | OpLogoutAll a => quietly (logout_all a)
  | OpCreateUser new_id salt now a input tenant => quietly (create_user_handler new_id salt now a input tenant)
  | OpGetMe a => quietly (get_me a)
  | OpGetUser a i => quietly (get_user_handler a i)
  | OpListUsers a page per_page => quietly (mapped http_of_user (list_users page per_page (au_role a) (au_tenant_id a)))
  | OpUpdateUser now a i p => quietly (update_user_handler now a i p)
  | OpDeleteUser a i => quietly (delete_user_handler a i)
  | OpCreateTenant a uuid name now => quietly (create_tenant a uuid name now)
  | OpUpdateTenant a id name status => quietly (update_tenant a id name status)
  | OpDeleteTenant a id => quietly (delete_tenant a id)
  | OpMoveUser a i to now => quietly (move_user_tenant a i to now)
  | OpCleanup now => quietly (mapped http_of_auth (cleanup_expired_refresh_tokens now))
  end.

Context (root : Z -> bool).

(** A new identifier is not the one of a system account. *)
Definition admissible (op : operation) : Prop :=
  match op with
  | OpRegister new_id _ _ _ _ _ _ | OpCreateUser new_id _ _ _ _ _ => root new_id = false
  | _ => True
  end.

Abbreviation safe m := (steps root m (fun _ => True)).

Lemma safe_bind {X Y} (m : H X) (k : X -> H Y) : safe m -> (forall x, safe (k x)) -> safe (bind m k).
Proof using. intros Hm Hk. eapply steps_bind; [exact Hm|]. intros x _. apply Hk. Qed.
Lemma safe_ret {X} (x : X) : steps root (E := HttpError) (ret x) (fun _ => True).
Proof using. by apply spec_ret. Qed.
Lemma safe_fail {X} (e : HttpError) : steps root (fail (A := X) e) (fun _ => True).
Proof using. apply spec_fail. Qed.
Lemma safe_guard b (e : HttpError) : safe (guard_else b e).
Proof using. by apply spec_guard. Qed.
Lemma safe_some {X} (o : option X) (e : HttpError) : safe (some_or o e).
Proof using. by apply spec_some. Qed.
Lemma safe_lift {X} (r : result X HttpError) : safe (lift r).
Proof using. by apply spec_lift. Qed.
Lemma safe_mapped {E X} (f : E -> HttpError) (m : Sql.M tables E X) : safe m -> safe (mapped f m).
Proof using. apply spec_mapped. Qed.
Lemma safe_tried {E X} (m : Sql.M tables E X) : safe m -> steps root (E := HttpError) (tried m) (fun _ => True).
Proof using. apply spec_tried. Qed.
Lemma safe_invalidate key : steps root (E := HttpError) (invalidate key) (fun _ => True).
Proof using. apply invalidate_steps. Qed.

Create HintDb safe.
#[local] Hint Resolve safe_bind safe_ret safe_fail safe_guard safe_some safe_lift safe_mapped safe_tried safe_invalidate : safe.
#[local] Hint Resolve login_steps send_verification_email_steps auto_verify_steps verify_email_steps resend_code_steps
  request_reset_steps reset_password_steps rotate_steps delete_token_steps authenticate_steps change_password_steps revoke_steps get_user_scoped_steps
  is_active_steps get_user_steps list_users_steps update_user_steps delete_user_steps create_steps update_steps delete_steps
  move_user_tenant_steps cleanup_steps : safe.

Lemma register_safe new_id salt code_salt draw now mail p :
  root new_id = false -> safe (register new_id salt code_salt draw now mail p).
Proof using.
  intros Hid. apply safe_bind; [auto with safe|intros _]. apply safe_bind; [apply safe_lift|intros _]. cbv zeta.
  apply safe_bind; [by apply safe_mapped, create_user_for_steps|intros user]. apply safe_bind; [auto with safe|intros sent].
  apply safe_bind; [|auto with safe]. destruct sent as [u|[]]; auto with safe.
Qed.

Ltac safe :=
  intros; cbv beta zeta;
  lazymatch goal with
  | |- steps _ (bind _ _) _ => apply safe_bind; [safe|safe]
  | |- steps _ (match ?x with _ => _ end) _ => destruct x; safe
  | _ => solve [auto with safe]
  end.

Lemma require_tenant_safe t : safe (require_tenant t).
Proof using. unfold require_tenant. safe. Qed.

Lemma create_user_safe new_id salt now a input tenant : root new_id = false -> safe (create_user_handler new_id salt now a input tenant).
Proof using.
  intros Hid. unfold create_user_handler. apply safe_bind; [apply safe_lift|intros _]. cbv zeta.
  apply safe_bind; [apply require_tenant_safe|intros _]. apply safe_bind; [by apply safe_mapped, create_user_for_steps|intros created].
  safe.
Qed.

#[local] Hint Resolve require_tenant_safe register_safe create_user_safe get_steps : safe.

(** C4: Whatever requests arrive, whatever fails and however they interleave, each
    only makes steps, so that the tables stay well-formed and no guess goes
    uncounted. *)
Theorem every_request_is_steps op : admissible op -> steps root (perform op) (fun _ => True).
Proof using.
  intros Hop. destruct op; cbn in Hop; cbn [perform]; unfold quietly; (apply safe_bind; [|intros; apply safe_ret]).
  - unfold login_inner. safe.
  - auto with safe.
  - unfold verify_email. safe.
  - unfold resend_code. safe.
  - unfold forgot_password. safe.
  - unfold reset_password_inner, api_guard, signed_or_internal. safe.
  - unfold refresh_inner, signed_or_internal. safe.
  - unfold logout. safe.
  - auto with safe.
  - unfold change_my_password_inner, api_guard, signed_or_internal, actor_id. safe.
  - unfold logout_all, actor_id. safe.
  - auto with safe.
  - unfold get_me, actor_id. safe.
  - unfold get_user_handler. safe.
  - auto with safe.
  - unfold update_user_handler. safe.
  - unfold delete_user_handler, actor_id. safe.
  - unfold create_tenant. safe.
  - unfold update_tenant. safe.
  - unfold delete_tenant. safe.
  - auto with safe.
  - auto with safe.
Qed.

(** ** What an answer tells *)

(** The address as the services look it up: lowered by the handler and by the
    service. *)
Definition looked_up (e : str) (s : tables) : option User := find_by_email (to_lowercase (to_lowercase e)) s.

(** The guess is wrong: there is no such user, he has no code, or another one. *)
Definition wrong_code (k : Kind) (e guess : str) (s : tables) : Prop :=
  forall u h, looked_up e s = Some u -> code_hash (code k u) = Some h -> argon_verify guess h = Some false.
Definition wrong_password (e password : str) (s : tables) : Prop :=
  forall u, looked_up e s = Some u -> argon_verify password (password_hash u) = Some false.

Lemma mapped_err {E X} (f : E -> HttpError) (m : Sql.M tables E X) {Y} (k : X -> H Y) w n s e :
  result_of (m w n s) = Err e -> result_of (bind (mapped f m) k w n s) = Err (f e).
Proof using. unfold bind, mapped, result_of. destruct (m w n s) as [[[x|e'] s1] n1]; cbn; [done|by intros [= ->]]. Qed.

Lemma passed_guard b (e : HttpError) {Y} (k : unit -> H Y) w n s :
  bind (guard_else b e) k w n s = if b then k tt w n s else (Err e, s, n).
Proof using. by destruct b. Qed.

Lemma passed_lift (r : result unit HttpError) {Y} (k : unit -> H Y) w n s :
  bind (lift r) k w n s = match r with Ok _ => k tt w n s | Err e => (Err e, s, n) end.
Proof using. by destruct r as [[]|]. Qed.

Lemma passed_ret {X Y} (x : X) (k : X -> H Y) w n s : bind (ret x) k w n s = k x w n s.
Proof using. done. Qed.

Lemma verify_wrong t checked now e code n s :
  accounts_ok root s -> wrong_code Verification e code s ->
  result_of (Verification.verify_email checked now (to_lowercase e) code (quiet t) n s) = Err Verification.InvalidOrExpired \/
  result_of (Verification.verify_email checked now (to_lowercase e) code (quiet t) n s) = Err Verification.TooManyAttempts.
Proof using.
  intros Hok Hw. pose proof (verify_email_exact root t checked now (to_lowercase e) code n s Hok) as Hx. cbv zeta in Hx.
  apply (f_equal fst) in Hx. unfold verify_email_spec in Hx. fold (looked_up e s) in Hx. destruct (looked_up e s) as [u|] eqn:Hu; [|left; exact Hx].
  destruct (email_verified u); [left; exact Hx|]. destruct (code_hash (verification u)) as [h|] eqn:Hh; [|left; exact Hx].
  destruct (expires_at (verification u)); [|left; exact Hx]. destruct (_ <? _); [left; exact Hx|]. destruct (_ <=? _); [right; exact Hx|].
  rewrite (Hw u h) in Hx by done. left. exact Hx.
Qed.

Lemma reset_wrong t checked now salt e code new_password n s :
  accounts_ok root s -> wrong_code Reset e code s ->
  result_of (PasswordReset.reset_password checked now salt (to_lowercase e) code new_password (quiet t) n s) = Err PasswordReset.InvalidOrExpired \/
  result_of (PasswordReset.reset_password checked now salt (to_lowercase e) code new_password (quiet t) n s) = Err PasswordReset.TooManyAttempts.
Proof using.
  intros Hok Hw. unfold PasswordReset.reset_password, PasswordReset.find_user_by_email, tenant_open, TenantService.is_active,
    PasswordReset.increment_failed_attempts, PasswordReset.verify_code. at_rest. fold (looked_up e s).
  destruct (looked_up e s) as [u|] eqn:Hu; cbn; [|by left]. destruct (code_hash (reset u)) as [h|] eqn:Hh; cbn; [|by left].
  rewrite ?andb_false_r; cbn. destruct (match tenants s !! tenant_id u with Some _ => _ | None => _ end); cbn; [|by left].
  destruct (expires_at (reset u)); cbn; [|by left]. destruct (_ <=? _); cbn; [|by left].
  destruct (claim_attempt Reset (id u) s) as [[] s1]; cbn; [|by right]. rewrite (Hw u h) by done. cbn. by left.
Qed.

Lemma login_wrong t d request n s :
  accounts_ok root s -> wrong_password (l_email request) (l_password request) s ->
  result_of (Auth.login from_timestamp config d
    {| l_email := to_lowercase (l_email request); l_password := l_password request; l_remember := l_remember request |} (quiet t) n s)
    = Err Auth.InvalidCredentials.
Proof using.
  intros Hok Hw.
  destruct (login_refusals_alike from_timestamp config root t d
    {| l_email := to_lowercase (l_email request); l_password := l_password request; l_remember := l_remember request |} n s Hok)
    as [[_ Hi] _].
  apply Hi. cbn. unfold looked_up in *. pose proof (Hw) as Hw'. unfold wrong_password, looked_up in Hw'.
  destruct (find_by_email _ s) as [u|]; [|done]. exists false. split; [by apply Hw'|done].
Qed.
Lemma verify_answer t checked now e code n s :
  accounts_ok root s -> wrong_code Verification e code s ->
  result_of (verify_email checked now e code (quiet t) n s) =
    Err (bad_request (if six_digits code then "Invalid or expired verification code" else "code must be 6 digits")).
Proof using.
  intros Hok Hw. unfold verify_email. rewrite passed_guard. destruct (six_digits code); [|done].
  by destruct (verify_wrong t checked now e code n s Hok Hw) as [Hr|Hr]; rewrite (mapped_err _ _ _ _ _ _ _ Hr).
Qed.

Lemma reset_answer t checked now token_now cookie_now salt e code new_password n s :
  accounts_ok root s -> wrong_code Reset e code s ->
  result_of (reset_password_inner checked now token_now cookie_now salt e code new_password (quiet t) n s) =
    Err (match check_password_strength new_password with
         | Err err => http_of_api err
         | Ok _ => bad_request (if six_digits code then "Invalid or expired reset code" else "code must be 6 digits")
         end).
Proof using.
  intros Hok Hw. unfold reset_password_inner, api_guard. rewrite passed_lift. destruct (check_password_strength new_password); [|done].
  rewrite passed_guard. destruct (six_digits code); [|done].
  by destruct (reset_wrong t checked now salt e code new_password n s Hok Hw) as [Hr|Hr]; rewrite (mapped_err _ _ _ _ _ _ _ Hr).
Qed.

Lemma login_answer t d cookie_now request n s :
  accounts_ok root s -> wrong_password (l_email request) (l_password request) s ->
  result_of (login_inner d cookie_now (ret tt) request (quiet t) n s) = Err (unauthorized "Invalid email or password").
Proof using.
  intros Hok Hw. unfold login_inner. rewrite passed_ret.
  by rewrite (mapped_err http_of_auth _ _ _ _ _ Auth.InvalidCredentials (login_wrong t d request n s Hok Hw)).
Qed.

(** C20: Who does not know the code or the password learns nothing from the answer:
    it is the same over any two databases in which the guess is wrong, be the
    address registered, verified, locked or without a code, or not. *)
Theorem wrong_guesses_learn_nothing t t' n n' s s' :
  accounts_ok root s -> accounts_ok root s' ->
  (forall checked now e code, wrong_code Verification e code s -> wrong_code Verification e code s' ->
     result_of (verify_email checked now e code (quiet t) n s) = result_of (verify_email checked now e code (quiet t') n' s')) /\
  (forall checked now token_now cookie_now salt e code new_password, wrong_code Reset e code s -> wrong_code Reset e code s' ->
     result_of (reset_password_inner checked now token_now cookie_now salt e code new_password (quiet t) n s) =
     result_of (reset_password_inner checked now token_now cookie_now salt e code new_password (quiet t') n' s')) /\
  (forall d cookie_now request, wrong_password (l_email request) (l_password request) s ->
     wrong_password (l_email request) (l_password request) s' ->
     result_of (login_inner d cookie_now (ret tt) request (quiet t) n s) =
     result_of (login_inner d cookie_now (ret tt) request (quiet t') n' s')).
Proof using.
  intros Hs Hs'. split_and!; intros; [by rewrite !verify_answer|by rewrite !reset_answer|by rewrite !login_answer].
Qed.
End Handlers.

(** ** At concrete inputs *)

#[local] Existing Instance small_argon.
#[local] Existing Instance ascii_tables.
#[local] Existing Instance small_jwt.
#[local] Existing Instance small_digest.

Definition nobody : tables := delete_user_row 8 demo_tables.

Lemma nobody_ok : accounts_ok demo_root nobody.
Proof. apply delete_user_ok, demo_ok. Qed.

Lemma wrong_guesses_learn_nothing_witness :
  result_of (verify_email 60 60 (lit "bob@ains") (lit "654321") (quiet 60) 0%nat demo_tables) =
  result_of (verify_email 60 60 (lit "bob@ains") (lit "654321") (quiet 60) 0%nat nobody) /\
  looked_up (lit "bob@ains") demo_tables <> None /\ looked_up (lit "bob@ains") nobody = None.
Proof.
  split; [|split; [intros E; vm_compute in E; discriminate E|vm_compute; reflexivity]].
  apply (wrong_guesses_learn_nothing demo_time demo_config true demo_root 60 60 0%nat 0%nat demo_tables nobody demo_ok nobody_ok).
  - intros u h Hu Hh. vm_compute in Hu. injection Hu as <-. cbn in Hh. injection Hh as <-. vm_compute. reflexivity.
  - intros u h Hu Hh. vm_compute in Hu. discriminate Hu.
Defined.

Definition no_mail : Mail := {| configured := false; permitted := true; delivered := true |}.

(** Where mail is not set up, the answer to a forgotten password does tell who is
    registered. *)
Example missing_mail_tells :
  result_of (forgot_password 42 (lit "s") 60 no_mail (lit "ann@ains") (quiet 60) 0%nat demo_tables) =
    Err (service_unavailable "Password reset is currently unavailable") /\
  result_of (forgot_password 42 (lit "s") 60 no_mail (lit "eve@ains") (quiet 60) 0%nat demo_tables) =
    Ok (lit "If that email is registered, a reset code has been sent").
Proof. split; vm_compute; reflexivity. Qed.

Lemma every_request_is_steps_witness :
  steps demo_root (perform demo_time demo_config true (OpVerifyEmail 60 60 (lit "bob@ains") (lit "123456"))) (fun _ => True).
Proof. apply (every_request_is_steps demo_time demo_config true demo_root (OpVerifyEmail 60 60 (lit "bob@ains") (lit "123456"))). done. Defined.
