(* ===== verification/AiHandler.v ===== *)
(** * The AI endpoint ([server/src/handlers/responses.rs])

    [POST /api/ai/response]: validation and normalisation of the request, one call
    of the caller's plan, the gateway, and the answer in the Responses format.
    Streaming after the gateway has opened is [Streaming]. *)

From S2P Require Import Prelude Utf8 Sql Billing Plans Http.
From S2P Require Import Sse Redis Lock Cache Quota Channels JsonValue Responses Dispatch Metering Gateway Streaming.

Open Scope string_scope.
Open Scope list_scope.
Open Scope Z_scope.

(** ** Errors *)

(** [nanos]: the clock since the epoch. *)
Definition ai_response_error_body (nanos : Z) (hex : Z -> str) (error_type message : str) : value :=
  json [("id", VString (lit "resp_" ++ hex nanos)); ("object", vstr "response");
        ("created_at", vnat (nanos / 1000000000)); ("model", VNull); ("capability", VNull);
        ("status", vstr "failed"); ("incomplete_details", VNull); ("output", VArray []); ("usage", VNull);
        ("error", json [("code", VString error_type); ("message", VString message)])].

(** A failed request is an answer with the error's status. *)
Definition failed_response (nanos : Z) (hex : Z -> str) (e : HttpError) : Z * value :=
  (status e, ai_response_error_body nanos hex (error_type e) (message e)).

Definition handle_gateway_error (e : GatewayError) : HttpError :=
  match e with
  | NoChannel => service_unavailable "No active AI channel supports this capability"
  | NotFound => not_found "Channel not found"
  | InvalidInput s => bad_request_str s
  | RateLimited s => too_many_requests s
  | UpstreamClient code =>
      with_status code "upstream_rejected" (lit "AI provider rejected the request (HTTP " ++ show_N (Z.to_N code) ++ lit ")")
  | HasUsage id usage_count =>
      conflict (lit "Channel " ++ [dquote] ++ id ++ [dquote] ++ lit " has " ++ show_N (Z.to_N usage_count)
                ++ lit " token usage record(s). Disable the channel instead, or clean up usage data first.")
  | Upstream _ => service_unavailable "AI provider request failed"
  | Internal _ => http_internal "AI gateway operation failed"
  end.

(** ** Validation *)

Abbreviation fields := (list (str * value)) (only parsing).
Definition field (name : string) (object : fields) : option value := map_get (lit name) object.
Definition put (name : string) (x : value) (object : fields) : fields := map_insert (lit name) x object.
Definition drop_field (name : string) (object : fields) : fields := map_remove (lit name) object.

Definition validate_requested_model (body : value) : result unit HttpError :=
  match get "model" body with
  | None => Ok tt
  | Some model => if not_blank model then Ok tt else Err (bad_request "model must be a non-empty string when provided")
  end.

Definition validate_generation_options (r : ResponsesRequest) : result unit HttpError :=
  if bool_decide (max_output_tokens r = Some 0) then Err (bad_request "max_output_tokens must be greater than zero")
  else if match temperature r with Some t => negb (between f64_zero f64_one t) | None => false end
  then Err (bad_request "temperature must be between 0 and 1")
  else if match tools r with Some l => negb (is_empty l) | None => false end
  then Err (bad_request "tools are not supported by this AI response endpoint")
  else if bool_decide (store r = Some true)
  then Err (bad_request "store=true is not supported by this stateless AI response endpoint")
  else if bool_decide (is_Some (previous_response_id r))
  then Err (bad_request "previous_response_id is not supported by this stateless AI response endpoint")
  else Ok tt.

Definition has (c : ModelCapability) (l : list ModelCapability) : bool := bool_decide (c ∈ l).

Definition validate_capability_combination (l : list ModelCapability) : result unit HttpError :=
  if has Stt l && (has Vision l || has WebSearch l)
  then Err (bad_request "STT cannot be combined with vision or web search in one request") else Ok tt.

Definition required_capabilities (detected : list ModelCapability) (requested : option ModelCapability) :
    list ModelCapability :=
  match requested with
  | Some c => if has c detected then detected else detected ++ [c]
  | None => detected
  end.

Definition parse_requested_capability (body : value) : result (option ModelCapability) HttpError :=
  match get "capability" body with
  | None => Ok None
  | Some raw =>
      match as_str raw with
      | None => Err (bad_request "capability must be a string")
      | Some raw =>
          let eq_to s := str_eqb raw (lit s) in
          if eq_to "chat" then Ok (Some Chat) else if eq_to "vision" then Ok (Some Vision)
          else if eq_to "embedding" || eq_to "embed" then Ok (Some Embedding)
          else if eq_to "stt" then Ok (Some Stt) else if eq_to "tts" then Ok (Some Tts)
          else if eq_to "web_search" || eq_to "websearch" then Ok (Some WebSearch)
          else Err (bad_request "Unsupported AI capability")
      end
  end.

(** The most specific capability that was asked for or detected. *)
Definition primary_capability (requested : option ModelCapability) (detected : list ModelCapability) : ModelCapability :=
  match requested with
  | Some c => c
  | None => default Chat (List.find (fun c => bool_decide (c <> Chat)) detected)
  end.

(** *** Direct capabilities *)

(** One removed field of the envelope: absent or harmless values pass. *)
Definition removed (name : string) (object : fields) (check : option value -> result unit HttpError) :
    result fields HttpError :=
  and_then (check (field name object)) (fun _ => Ok (drop_field name object)).

Definition flag_off (on not_bool : string) (o : option value) : result unit HttpError :=
  match o with
  | None | Some VNull | Some (VBool false) => Ok tt
  | Some (VBool true) => Err (bad_request on)
  | Some _ => Err (bad_request not_bool)
  end.

Definition no_tools (o : option value) : result unit HttpError :=
  match o with
  | None | Some VNull | Some (VArray []) => Ok tt
  | Some (VArray _) => Err (bad_request "tools are not supported by this AI response endpoint")
  | Some _ => Err (bad_request "tools must be an array")
  end.

Definition no_previous (o : option value) : result unit HttpError :=
  match o with
  | None | Some VNull => Ok tt
  | Some _ => Err (bad_request "previous_response_id is not supported by this stateless AI response endpoint")
  end.

Definition string_metadata (o : option value) : result unit HttpError :=
  match o with
  | None | Some VNull => Ok tt
  | Some (VObject metadata) => if forallb (fun kv => is_string (snd kv)) metadata then Ok tt
                               else Err (bad_request "metadata must be an object with string values")
  | Some _ => Err (bad_request "metadata must be an object with string values")
  end.

Definition normalize_direct_common_fields (object : fields) : result fields HttpError :=
  and_then (removed "stream" object
    (flag_off "Streaming is only supported for chat and vision" "stream must be a boolean")) (fun object =>
  and_then (removed "store" object
    (flag_off "store=true is not supported by this stateless AI response endpoint" "store must be a boolean")) (fun object =>
  and_then (removed "tools" object no_tools) (fun object =>
  and_then (removed "previous_response_id" object no_previous) (fun object =>
  removed "metadata" object string_metadata)))).

Definition validate_direct_input (capability : ModelCapability) (object : fields) : result unit HttpError :=
  match capability with
  | Embedding =>
      if match field "input" object with
         | Some (VString input) => negb (is_empty (trim input))
         | Some (VArray values) => negb (is_empty values) && forallb not_blank values
         | _ => false
         end
      then Ok tt else Err (bad_request "Embedding input must be a string or non-empty string array")
  | Tts =>
      if match field "input" object ≫= as_str with Some input => is_empty (trim input) | None => true end
      then Err (bad_request "TTS input must be a non-empty string") else Ok tt
  | _ => Ok tt
  end.

Definition is_supported_stt_audio_format (format : str) : bool :=
  existsb (fun f => str_eqb format (lit f)) ["flac"; "mp3"; "mp4"; "mpeg"; "mpga"; "m4a"; "ogg"; "wav"; "webm"].
Definition is_supported_tts_format (format : str) : bool :=
  existsb (fun f => str_eqb format (lit f)) ["mp3"; "opus"; "aac"; "flac"; "wav"; "pcm"].

(** [rsplit_once('.')]: what follows the last dot. *)
Definition extension_of (filename : str) : option str :=
  match split_on 46%N filename with
  | [] | [_] => None
  | parts => last parts
  end.

(** The optional field, when present, passes the test. *)
Definition optional (name : string) (object : fields) (ok : value -> bool) (m : str) : result unit HttpError :=
  match field name object with
  | Some v => if ok v then Ok tt else Err (bad_request_str m)
  | None => Ok tt
  end.

Definition one_of (l : list string) (v : value) : bool :=
  match as_str v with Some s => existsb (fun x => str_eqb s (lit x)) l | None => false end.

Section Base64.
Context {B : Base64Text}.

Definition validate_stt_fields (object : fields) : result unit HttpError :=
  match field "file" object ≫= as_str with
  | None => Err (bad_request "STT input_audio.data must be a non-empty base64 string")
  | Some file =>
      if is_empty (trim file) then Err (bad_request "STT input_audio.data must be a non-empty base64 string")
      else
      match decode_audio file with
      | None => Err (bad_request "STT input_audio.data must be valid base64")
      | Some audio =>
          if is_empty audio then Err (bad_request "STT input_audio.data must decode to non-empty audio data")
          else
          let filename := field "filename" object ≫= as_str in
          if negb match filename ≫= extension_of with
                  | Some e => is_supported_stt_audio_format (to_ascii_lowercase e)
                  | None => false
                  end
          then Err (bad_request "Unsupported STT audio format")
          else if match filename with Some f => is_empty (trim f) | None => true end
          then Err (bad_request "STT filename must be a non-empty string")
          else
          and_then (optional "language" object not_blank (lit "STT language must be a non-empty string")) (fun _ =>
          and_then (optional "prompt" object not_blank (lit "STT prompt must be a non-empty string")) (fun _ =>
          and_then (optional "response_format" object (one_of ["json"; "text"; "srt"; "verbose_json"; "vtt"])
                      (lit "Unsupported STT response_format")) (fun _ =>
          optional "temperature" object in_unit_interval (lit "STT temperature must be between 0 and 1"))))
      end
  end.

Definition allowed_fields (capability : ModelCapability) : option (list str) :=
  match capability with
  | Embedding => Some (map lit ["model"; "input"; "encoding_format"; "dimensions"; "user"])
  | Stt => Some (map lit ["model"; "file"; "filename"; "language"; "prompt"; "response_format"; "temperature"])
  | Tts => Some (map lit ["model"; "input"; "voice"; "response_format"; "speed"; "instructions"; "stream_format"])
  | _ => None
  end.

Definition positive_integer (v : value) : bool := match as_u64 v with Some n => 0 <? n | None => false end.

Definition validate_direct_fields (capability : ModelCapability) (object : fields) : result unit HttpError :=
  match allowed_fields capability with
  | None => Ok tt
  | Some allowed =>
      match List.find (fun kv => negb (existsb (str_eqb (fst kv)) allowed)) object with
      | Some (name, _) =>
          Err (bad_request_str (lit "Unsupported " ++ capability_as_str capability ++ lit " field: " ++ name))
      | None =>
          match capability with
          | Embedding =>
              and_then (optional "encoding_format" object (one_of ["float"; "base64"])
                          (lit "Embedding encoding_format must be 'float' or 'base64'")) (fun _ =>
              and_then (optional "dimensions" object positive_integer
                          (lit "Embedding dimensions must be a positive integer")) (fun _ =>
              optional "user" object not_blank (lit "Embedding user must be a non-empty string")))
          | Stt => validate_stt_fields object
          | _ => Ok tt
          end
      end
  end.

(** *** Speech requests *)

Definition audio_fields : list (string * string) :=
  [("voice", "voice"); ("format", "response_format"); ("speed", "speed");
   ("instructions", "instructions"); ("stream_format", "stream_format")].

(** Copy the [audio] fields to the top level; equal duplicates pass. *)
Fixpoint merge_audio (l : list (string * string)) (audio object : fields) : result fields HttpError :=
  match l with
  | [] => Ok object
  | (source, target) :: l =>
      match field source audio with
      | None => merge_audio l audio object
      | Some v =>
          match field target object with
          | Some existing =>
              if bool_decide (existing = v) then merge_audio l audio object
              else Err (bad_request_str (lit "TTS audio." ++ lit source ++ lit " conflicts with top-level " ++ lit target))
          | None => merge_audio l audio (put target v object)
          end
      end
  end.

Definition f64_quarter : f64 := SpecFloat.binary_normalize 53 1024 1 (-2) false.
Definition f64_four : f64 := f64_of_Z 4.
Definition speed_ok (v : value) : bool :=
  match as_f64 v with Some f => between f64_quarter f64_four f | None => false end.

(** The format, when given, is a supported one in any case. *)
Definition check_tts_format (object : fields) : result unit HttpError :=
  match field "response_format" object with
  | None => Ok tt
  | Some v =>
      match as_str v with
      | Some format =>
          if is_empty (trim format) then Err (bad_request "TTS response_format must be a non-empty string")
          else if is_supported_tts_format (to_ascii_lowercase format) then Ok tt
          else Err (bad_request_str (lit "Unsupported TTS response_format: " ++ format))
      | None => Err (bad_request "TTS response_format must be a non-empty string")
      end
  end.

Definition normalize_tts_body (object : fields) : result fields HttpError :=
  and_then (match field "audio" object with
            | None => Ok []
            | Some (VObject audio) => Ok audio
            | Some _ => Err (bad_request "TTS audio must be an object")
            end) (fun audio =>
  let object := drop_field "audio" object in
  match List.find (fun kv => negb (existsb (fun f => str_eqb (lit (fst f)) (fst kv)) audio_fields)) audio with
  | Some (key, _) => Err (bad_request_str (lit "Unsupported TTS audio field: " ++ key))
  | None =>
      and_then (merge_audio audio_fields audio object) (fun object =>
      match field "voice" object ≫= as_str with
      | None => Err (bad_request "TTS voice must be a non-empty string")
      | Some voice =>
          if is_empty (trim voice) then Err (bad_request "TTS voice must be a non-empty string")
          else
          let object := put "voice" (VString (trim voice)) object in
          and_then (check_tts_format object) (fun _ =>
          and_then (optional "speed" object speed_ok (lit "TTS speed must be a number between 0.25 and 4.0")) (fun _ =>
          and_then (optional "instructions" object is_string (lit "TTS instructions must be a string")) (fun _ =>
          and_then (optional "stream_format" object (one_of ["audio"])
                      (lit "TTS stream_format must be 'audio' for non-streaming responses")) (fun _ =>
          Ok object))))
      end)
  end).

(** *** Transcription requests *)

(** The content parts of the messages of [input]. *)
Definition input_parts (object : fields) : list value :=
  default [] (field "input" object ≫= as_array) ≫= fun message => default [] (get_array "content" message).

Definition part_is (kind : string) (part : value) : bool := bool_decide (get_str "type" part = Some (lit kind)).

Definition has_input_image (object : fields) : bool := existsb (part_is "input_image") (input_parts object).

Definition option_to_list {A} (o : option A) : list A := match o with Some a => [a] | None => [] end.

Definition find_audio_input (object : fields) : result (option fields) HttpError :=
  match option_to_list (field "input" object ≫= as_object) ++ option_to_list (field "input_audio" object ≫= as_object)
        ++ omap as_object (List.filter (part_is "input_audio") (input_parts object)) with
  | [] => Ok None
  | [first] => Ok (Some first)
  | _ => Err (bad_request "STT accepts exactly one input_audio part per request")
  end.

Definition audio_format (audio : fields) : result str HttpError :=
  match field "format" audio with
  | None => Ok (lit "wav")
  | Some (VString format) =>
      if is_supported_stt_audio_format (to_ascii_lowercase format) then Ok (to_ascii_lowercase format)
      else Err (bad_request "Unsupported STT audio format")
  | Some _ => Err (bad_request "Unsupported STT audio format")
  end.

Definition normalize_stt_body (object : fields) : result fields HttpError :=
  if bool_decide (is_Some (field "file" object ≫= as_str)) then Ok object
  else if has_input_image object then Err (bad_request "STT input cannot be combined with image content")
  else
  and_then (find_audio_input object) (fun found =>
  match found with
  | None => Err (bad_request "STT input must contain input_audio data")
  | Some audio =>
      match field "data" audio ≫= as_str with
      | None => Err (bad_request "STT input_audio.data is required")
      | Some data =>
          and_then (audio_format audio) (fun format =>
          Ok (drop_field "input_audio" (drop_field "input"
                (put "filename" (VString (lit "audio." ++ format)) (put "file" (VString data) object)))))
      end
  end).

(** Everything between the parsed body and the gateway. *)
Definition prepare_direct (capability : ModelCapability) (body : value) : result fields HttpError :=
  match as_object body with
  | None => Err (bad_request "AI response request must be a JSON object")
  | Some object =>
      and_then (normalize_direct_common_fields (drop_field "capability" object)) (fun object =>
      and_then (if decide (capability = Stt) then normalize_stt_body object else Ok object) (fun object =>
      and_then (if decide (capability = Tts) then normalize_tts_body object else Ok object) (fun object =>
      and_then (validate_direct_fields capability object) (fun _ =>
      and_then (validate_direct_input capability object) (fun _ =>
      Ok object)))))
  end.
End Base64.

(** *** The unified answer *)

Definition or_else {A} (a b : option A) : option A := match a with Some _ => a | None => b end.

Definition unified_usage (result : value) : value :=
  match get "usage" result ≫= as_object with
  | None => VNull
  | Some usage =>
      let input := default 0 (or_else (field "input_tokens" usage) (field "prompt_tokens" usage) ≫= as_u64) in
      let output := default 0 (or_else (field "output_tokens" usage) (field "completion_tokens" usage) ≫= as_u64) in
      let total := default (saturating_add input output) (field "total_tokens" usage ≫= as_u64) in
      json [("input_tokens", vnat input); ("output_tokens", vnat output); ("total_tokens", vnat total)]
  end.

Definition embedding_output (result : value) : value := default result (get "data" result).

Definition unified_direct_response (resp_id : str) (created_at : Z) (capability : ModelCapability) (result : value) : value :=
  let output := match capability with
    | Embedding => embedding_output result
    | Stt => VArray [json [("type", vstr "transcription"); ("text", default VNull (get "text" result))]]
    | Tts => VArray [json [("type", vstr "audio"); ("data", default VNull (get "audio" result));
                           ("content_type", default VNull (get "content_type" result))]]
    | _ => result
    end in
  json [("id", VString resp_id); ("object", vstr "response"); ("created_at", vnat created_at);
        ("model", default VNull (get "model" result)); ("capability", VString (capability_as_str capability));
        ("status", vstr "completed"); ("incomplete_details", VNull); ("output", output);
        ("usage", unified_usage result); ("error", VNull)].

Definition validate_chat_result (result : value) : Prelude.result unit HttpError :=
  if is_valid_chat_completions_response result then Ok tt
  else Err (service_unavailable "AI provider returned an invalid response").

(** [responses_response.capability = ..]. *)
Definition with_capability (c : str) (r : ResponsesResponse) : ResponsesResponse :=
  {| resp_id := resp_id r; resp_created_at := resp_created_at r; resp_model := resp_model r; resp_capability := c;
     resp_status := resp_status r; resp_incomplete_details := resp_incomplete_details r;
     resp_output := resp_output r; resp_usage := resp_usage r; resp_error := resp_error r |}.

(** ** The handler *)

Record AuthUser := { auth_user_id : str; auth_role : str; auth_tenant_id : str }.

Section Handler.
Context {U : UrlLibrary} {K : Sealing} {J : JsonText} {B : Base64Text} {D : Jsonb} {R : Redis}.
Context (show_f64 : f64 -> str) (text_of_bytes : bytes -> str) (header_safe : str -> bool).
(** [serde_json::from_value] of the derived request type, or its message. *)
Context (parse_request : value -> result ResponsesRequest str).

(** What is outside of the handler: the gateway's service and provider, the
    database's moments, the answer of the tenant service, fresh names, the clock. *)
Record environment := {
  gateway : Service; upstream : provider; around : surroundings; moments : nat -> Sql.moment Billing.tables;
  tenant_active : option bool; fresh_resp_id : str; fresh_msg_id : str; now : Z
}.

(** The billing tables with the number of statements so far, and the gateway's world. *)
Record server := { billing : Billing.tables; statements : nat; gateway_world : world }.

Inductive reply := Direct (v : value) | Answer (r : ResponsesResponse) | StreamOpened (s : started).

Definition with_billing (s : Billing.tables) (n : nat) (st : server) : server :=
  {| billing := s; statements := n; gateway_world := gateway_world st |}.
Definition with_world (w : world) (st : server) : server :=
  {| billing := billing st; statements := statements st; gateway_world := w |}.

Definition require_active_tenant (e : environment) : result unit HttpError :=
  match tenant_active e with
  | None => Err (http_internal "Failed to verify tenant")
  | Some false => Err (forbidden "Tenant is disabled")
  | Some true => Ok tt
  end.

Definition consume_plan_quota (e : environment) (actor : AuthUser) (st : server) :
    result (option Z) HttpError * server :=
  if negb (str_eqb (auth_role actor) (lit "user")) then (Ok None, st)
  else
  match parse_i64 (auth_user_id actor) with
  | None => (Err (unauthorized "Invalid user ID in token"), st)
  | Some user_id =>
      let '(r, s, n) := consume_call user_id (moments e) (statements st) (billing st) in
      let st := with_billing s n st in
      match r with
      | Ok instance_id => (Ok (Some instance_id), st)
      | Err NoActivePlan =>
          (Err (with_status 403 "no_active_plan"
             (lit "No active plan with remaining calls — purchase or renew a plan to call the AI API")), st)
      | Err _ => (Err (http_internal "Plan quota check failed"), st)
      end
  end.

Definition refund_plan_call (e : environment) (ticket : option Z) (st : server) : server :=
  match ticket with
  | None => st
  | Some instance_id =>
      let '(_, s, n) := refund_call instance_id (moments e) (statements st) (billing st) in with_billing s n st
  end.

(** A gateway failure: only [NoChannel] gives the call back. *)
Definition gateway_failed (e : environment) (ticket : option Z) (error : GatewayError) (st : server) :
    result reply HttpError * server :=
  (Err (handle_gateway_error error), match error with NoChannel => refund_plan_call e ticket st | _ => st end).

Definition handle_direct_capability (e : environment) (actor : AuthUser) (capability : ModelCapability) (body : value)
    (st : server) : result reply HttpError * server :=
  match prepare_direct capability body with
  | Err error => (Err error, st)
  | Ok object =>
      let '(ticket, st) := consume_plan_quota e actor st in
      match ticket with
      | Err error => (Err error, st)
      | Ok ticket =>
          let '(r, w) := proxy show_f64 text_of_bytes header_safe (gateway e) (upstream e) (around e)
                           (auth_tenant_id actor) (auth_user_id actor) capability [capability] (VObject object)
                           (gateway_world st) in
          let st := with_world w st in
          match r with
          | Ok v => (Ok (Direct (unified_direct_response (fresh_resp_id e) (now e) capability v)), st)
          | Err error => gateway_failed e ticket error st
          end
      end
  end.

Definition handle_non_streaming (e : environment) (actor : AuthUser) (capability : ModelCapability)
    (required : list ModelCapability) (upstream_body : value) (ticket : option Z) (st : server) :
    result reply HttpError * server :=
  let '(r, w) := proxy show_f64 text_of_bytes header_safe (gateway e) (upstream e) (around e)
                   (auth_tenant_id actor) (auth_user_id actor) capability required upstream_body (gateway_world st) in
  let st := with_world w st in
  match r with
  | Err error => gateway_failed e ticket error st
  | Ok v =>
      (and_then (validate_chat_result v) (fun _ =>
         Ok (Answer (with_capability (capability_as_str capability)
           (translate_response (now e) (fresh_resp_id e) (fresh_msg_id e) v (default (lit "unknown") (get_str "model" v)))))), st)
  end.

(** Up to the spawned task, which is [Streaming.handle_streaming]. *)
Definition start_streaming (e : environment) (actor : AuthUser) (capability : ModelCapability)
    (required : list ModelCapability) (upstream_body : value) (ticket : option Z) (st : server) :
    result reply HttpError * server :=
  let '(r, w) := proxy_stream show_f64 (gateway e) (around e) (auth_tenant_id actor) capability required upstream_body
                   (gateway_world st) in
  let st := with_world w st in
  match r with
  | Err error => gateway_failed e ticket error st
  | Ok started => (Ok (StreamOpened started), st)
  end.

(** [body] is the parsed request, or the message of the JSON error. *)
Definition ai_response_inner (e : environment) (actor : AuthUser) (body : result value str) (st : server) :
    result reply HttpError * server :=
  match and_then (if str_eqb (auth_role actor) (lit "system") then Ok tt else require_active_tenant e) (fun _ =>
        match body with Err m => Err (bad_request_str m) | Ok body =>
        and_then (validate_requested_model body) (fun _ =>
        and_then (parse_requested_capability body) (fun requested => Ok (body, requested))) end) with
  | Err error => (Err error, st)
  | Ok (body, requested) =>
      if decide (requested = Some Embedding \/ requested = Some Stt \/ requested = Some Tts)
      then handle_direct_capability e actor (default Chat requested) body st
      else
      let stripped := match body with VObject object => VObject (drop_field "capability" object) | _ => body end in
      match and_then (match parse_request stripped with
                      | Ok r => Ok r
                      | Err m => Err (bad_request_str (lit "Invalid Responses API request: " ++ m))
                      end) (fun r =>
            and_then (validate_generation_options r) (fun _ =>
            and_then (validate_capability_combination (detect_capability r)) (fun _ => Ok r))) with
      | Err error => (Err error, st)
      | Ok r =>
          let detected := detect_capability r in
          let primary := primary_capability requested detected in
          if decide (primary = Stt) then handle_direct_capability e actor primary body st
          else
          match translate_request r with
          | Err m => (Err (bad_request_str (lit "Request translation error: " ++ m)), st)
          | Ok upstream_body =>
              let required := required_capabilities detected requested in
              let '(ticket, st) := consume_plan_quota e actor st in
              match ticket with
              | Err error => (Err error, st)
              | Ok ticket =>
                  if default false (stream r)
                  then start_streaming e actor primary required upstream_body ticket st
                  else handle_non_streaming e actor primary required upstream_body ticket st
              end
          end
      end
  end.
End Handler.

(** ** What reaches the gateway *)

Lemma optional_Ok name object ok m :
  optional name object ok m = Ok tt -> forall v, field name object = Some v -> ok v = true.
Proof. unfold optional. intros H v Hv. rewrite Hv in H. by destruct (ok v). Qed.

Lemma get_field name object : get name (VObject object) = field name object.
Proof. done. Qed.

Section Prepared.
Context {U : UrlLibrary} {B : Base64Text}.

(** The fields of a prepared request are the ones the capability allows. *)
Lemma validate_direct_fields_allowed capability object allowed kv :
  validate_direct_fields capability object = Ok tt -> allowed_fields capability = Some allowed -> kv ∈ object ->
  fst kv ∈ allowed.
Proof.
  unfold validate_direct_fields. intros H Ha Hin. rewrite Ha in H.
  destruct (List.find _ object) as [[name v]|] eqn:E; [done|].
  apply list_elem_of_In in Hin. pose proof (find_none _ _ E _ Hin) as Hn. apply negb_false_iff in Hn.
  apply existsb_elem in Hn as (x & Hx & <-%str_eqb_eq). done.
Qed.

Lemma validate_embedding object :
  validate_direct_fields Embedding object = Ok tt -> validate_direct_input Embedding object = Ok tt ->
  is_ok (embedding_response_contract (VObject object)) = true.
Proof.
  unfold validate_direct_fields. cbn [allowed_fields]. destruct (List.find _ object) as [[name v]|]; [done|].
  intros ([] & _ & ([] & Hd & _)%and_then_Ok)%and_then_Ok Hi.
  unfold embedding_response_contract, expected_inputs. rewrite !get_field.
  cbn [validate_direct_input] in Hi.
  assert (forall d, field "dimensions" object = Some d -> exists n, as_u64 d = Some n /\ (0 <? n) = true) as Hdim.
  { intros d Ed. pose proof (optional_Ok _ _ _ _ Hd _ Ed) as Hp. unfold positive_integer in Hp.
    destruct (as_u64 d) as [n|]; [eauto|done]. }
  destruct (field "input" object) as [[| | |input|l|]|]; try done;
    [destruct (is_empty (trim input)); [done|]|destruct (negb (is_empty l) && forallb not_blank l); [|done]];
    destruct (field "dimensions" object) as [d|]; try done;
    destruct (Hdim d eq_refl) as (n & -> & ->); done.
Qed.

Lemma merge_audio_field l audio object object' name v :
  merge_audio l audio object = Ok object' -> field name object = Some v -> field name object' = Some v.
Proof.
  revert object; induction l as [|[source target] l IH]; cbn [merge_audio]; intros object H Hf; [by injection H as <-|].
  destruct (field source audio) as [x|]; [|by eapply IH]. destruct (field target object) as [y|] eqn:Et.
  - case_bool_decide; [by eapply IH|done].
  - eapply IH; [exact H|]. unfold field, put in *. rewrite map_get_insert, str_eqb_lit.
    destruct (String.eqb_spec target name) as [->|]; [|done]. rewrite Et in Hf. done.
Qed.

(** A normalised speech request names a trimmed voice, and a format the gateway knows. *)
Lemma normalize_tts_Ok object object' :
  normalize_tts_body object = Ok object' ->
  (exists voice, field "voice" object' = Some (VString (trim voice)) /\ trim voice <> []) /\
  check_tts_format object' = Ok tt.
Proof.
  unfold normalize_tts_body. intros (audio & _ & H)%and_then_Ok.
  destruct (List.find _ audio) as [[key v]|]; [done|]. apply and_then_Ok in H as (merged & _ & H).
  destruct (field "voice" merged ≫= as_str) as [voice|]; [|done].
  destruct (is_empty (trim voice)) eqn:Ev; [done|].
  apply and_then_Ok in H as ([] & Hf & H). apply and_then_Ok in H as ([] & _ & H).
  apply and_then_Ok in H as ([] & _ & H). apply and_then_Ok in H as ([] & _ & [= <-]).
  split; [|done]. exists voice. split; [|by apply is_empty_false].
  unfold field, put. by rewrite map_get_insert, str_eqb_refl.
Qed.

Lemma supported_tts_format format :
  is_supported_tts_format (to_ascii_lowercase format) = true -> is_ok (tts_format_content_type format) = true.
Proof.
  unfold is_supported_tts_format, tts_format_content_type. cbv zeta. set (f := to_ascii_lowercase format).
  cbn [existsb]. rewrite !orb_true_iff. intros [H|[H|[H|[H|[H|[H|[=]]]]]]]; rewrite H; repeat (case_match; [done|]); done.
Qed.

Lemma check_tts_format_Ok object :
  check_tts_format object = Ok tt ->
  is_ok (tts_format_content_type (default (lit "mp3") (get_str "response_format" (VObject object)))) = true.
Proof.
  unfold check_tts_format, get_str. rewrite get_field. destruct (field "response_format" object) as [v|]; [|done].
  cbn [mbind option_bind]. destruct (as_str v) as [format|]; [|done]. cbn [from_option]. unfold Datatypes.id.
  destruct (is_empty (trim format)); [done|].
  destruct (is_supported_tts_format (to_ascii_lowercase format)) eqn:E; [|done]. intros _. by apply supported_tts_format.
Qed.

Lemma form_texts_Ok names body :
  (forall name v, name ∈ names -> get name body = Some v -> exists s, v = VString s) ->
  exists texts, form_texts names body = Ok texts.
Proof.
  induction names as [|name names IH]; intros H; cbn [form_texts]; [eauto|].
  destruct IH as [texts Ht]; [by intros n v Hn; apply H; apply list_elem_of_further|].
  rewrite Ht. destruct (get name body) as [v|] eqn:E; [|eauto].
  destruct (H name v (list_elem_of_here _ _) E) as [s ->]. cbn. eauto.
Qed.

Lemma not_blank_string v : not_blank v = true -> exists s, v = VString s.
Proof. unfold not_blank. destruct v; cbn; try done. eauto. Qed.
Lemma one_of_string l v : one_of l v = true -> exists s, v = VString s.
Proof. unfold one_of. destruct v; cbn; try done. eauto. Qed.

Lemma validate_stt_dispatches show_f64 object body base url :
  validate_stt_fields object = Ok tt ->
  (forall name, name <> "model" -> get name body = field name object) ->
  join_api_path base (lit "/v1/audio/transcriptions") = Ok url ->
  exists audio filename model texts, dispatch_stt show_f64 base body = Ok (SttMultipart url audio filename model texts) /\
    audio <> [] /\ get_str "filename" body = Some filename.
Proof.
  unfold validate_stt_fields, dispatch_stt. intros H Hb Hj. unfold get_str at 1. rewrite Hb by done.
  destruct (field "file" object ≫= as_str) as [file|]; [|done].
  destruct (is_empty (trim file)); [done|]. destruct (decode_audio file) as [audio|]; [|done].
  destruct (is_empty audio) eqn:Ea; [done|]. destruct (negb _); [done|].
  destruct (field "filename" object ≫= as_str) as [filename|] eqn:Ef; [|done].
  destruct (is_empty (trim filename)); [done|].
  apply and_then_Ok in H as ([] & Hl & H). apply and_then_Ok in H as ([] & Hp & H).
  apply and_then_Ok in H as ([] & Hr & Ht).
  destruct (form_texts_Ok ["language"; "prompt"; "response_format"] body) as [texts Htexts].
  { intros name v Hn Hv. repeat (apply elem_of_cons in Hn as [->|Hn]); [..|by apply not_elem_of_nil in Hn];
      rewrite Hb in Hv by done.
    - eapply not_blank_string, (optional_Ok _ _ _ _ Hl), Hv.
    - eapply not_blank_string, (optional_Ok _ _ _ _ Hp), Hv.
    - eapply one_of_string, (optional_Ok _ _ _ _ Hr), Hv. }
  assert (exists number, form_temperature show_f64 body = Ok number) as [number Hnumber].
  { unfold form_temperature. rewrite Hb by done. destruct (field "temperature" object) as [v|] eqn:Ev; [|eauto].
    pose proof (optional_Ok _ _ _ _ Ht _ Ev) as Hv. unfold in_unit_interval in Hv. destruct (as_f64 v); [eauto|done]. }
  rewrite Htexts, Hnumber. cbn [and_then]. rewrite Hj. cbn [and_then].
  assert (get_str "filename" body = Some filename) as Hname.
  { unfold get_str. rewrite Hb by done. exact Ef. }
  rewrite Hname. do 4 eexists. split; [done|]. split; [by apply is_empty_false|done].
Qed.

(** The endpoint and the gateway agree on what a request may be.  A direct
    request that the endpoint accepts, and charges for, has only the fields its
    capability allows; an embedding request passes the gateway's contract, a
    speech request has a trimmed voice, a text and a format the gateway knows,
    and a transcription request, whatever model the gateway adds, is dispatched
    with its non-empty audio under its own file name. *)
Theorem prepared_requests_are_accepted capability body object :
  prepare_direct capability body = Ok object ->
  (forall allowed kv, allowed_fields capability = Some allowed -> kv ∈ object -> fst kv ∈ allowed) /\
  (capability = Embedding -> is_ok (embedding_response_contract (VObject object)) = true) /\
  (capability = Tts ->
     (exists voice, field "voice" object = Some (VString (trim voice)) /\ trim voice <> []) /\
     (exists input, field "input" object = Some (VString input) /\ trim input <> []) /\
     is_ok (tts_format_content_type (default (lit "mp3") (get_str "response_format" (VObject object)))) = true) /\
  (capability = Stt -> forall show_f64 body' base url,
     (forall name, name <> "model" -> get name body' = field name object) ->
     join_api_path base (lit "/v1/audio/transcriptions") = Ok url ->
     exists audio filename model texts, dispatch_stt show_f64 base body' = Ok (SttMultipart url audio filename model texts) /\
       audio <> [] /\ get_str "filename" body' = Some filename).
Proof.
  unfold prepare_direct. intros H. destruct (as_object body) as [object0|]; [|done].
  apply and_then_Ok in H as (o1 & _ & H). apply and_then_Ok in H as (o2 & _ & H).
  apply and_then_Ok in H as (o3 & Htts & H). apply and_then_Ok in H as ([] & Hf & H).
  apply and_then_Ok in H as ([] & Hi & [= <-]). split_and!.
  - intros allowed kv Ha Hin. by eapply validate_direct_fields_allowed.
  - intros ->. by apply validate_embedding.
  - intros ->. cbn in Htts. apply normalize_tts_Ok in Htts as [Hv Hc]. split_and!; [done| |by apply check_tts_format_Ok].
    unfold validate_direct_input in Hi. destruct (field "input" o3) as [[]|]; try done. cbn in Hi.
    destruct (is_empty (trim s)) eqn:E; [done|]. exists s. split; [done|by apply is_empty_false].
  - intros -> show_f64 body' base url Hb Hj. unfold validate_direct_fields in Hf. cbn [allowed_fields] in Hf.
    destruct (List.find _ o3) as [[name v]|]; [done|]. by eapply validate_stt_dispatches.
Qed.
End Prepared.

Section Examples.
#[local] Existing Instance small_base64_text.
#[local] Existing Instance small_urls.

Definition speech_body : value :=
  json [("capability", vstr "tts"); ("input", vstr "hello"); ("stream", VBool false);
        ("audio", json [("voice", vstr " alloy "); ("format", vstr "MP3")])].

Lemma prepared_requests_are_accepted_witness :
  exists object, prepare_direct Tts speech_body = Ok object /\ field "response_format" object = Some (vstr "MP3") /\
  (exists voice, field "voice" object = Some (VString (trim voice)) /\ trim voice <> []).
Proof.
  destruct (prepare_direct Tts speech_body) as [object|] eqn:E; [|vm_compute in E; discriminate].
  exists object. split_and!; [done|vm_compute in E; injection E as <-; reflexivity|].
  destruct (prepared_requests_are_accepted Tts speech_body object E) as (_ & _ & H & _). exact (proj1 (H eq_refl)).
Defined.
End Examples.

(** ** What a request costs *)

(** One call of the user is charged to a usable instance that expires first. *)
Definition charged (user_id t : Z) (s s' : Billing.tables) : Prop :=
  exists i v, Billing.user_plans s !! i = Some v /\ usable user_id t v = true /\
    (forall k j, Billing.user_plans s !! k = Some j -> usable user_id t j = true -> i_expires_at v <= i_expires_at j) /\
    s' = set_user_plans <[i := with_remaining (i_remaining_calls v - 1) v]> s.


Lemma charged_neq user_id t s s' : charged user_id t s s' -> s' <> s.
Proof.
  intros (i & v & Hv & _ & _ & ->) E. apply (f_equal (fun x => Billing.user_plans x !! i)) in E.
  cbn [Billing.user_plans set_user_plans] in E. rewrite lookup_insert_eq, Hv in E. injection E as E.
  apply (f_equal i_remaining_calls) in E. cbn in E. lia.
Qed.



(** What the endpoint makes of the gateway's answer, and what it does before:
    nothing of this reads or writes the books. *)
Section Specification.
Context {U : UrlLibrary} {K : Sealing} {J : JsonText} {B : Base64Text} {D : Jsonb} {R : Redis}.
Context (show_f64 : f64 -> str) (text_of_bytes : bytes -> str) (header_safe : str -> bool).
Context (parse_request : value -> result ResponsesRequest str).
Context (e : environment) (actor : AuthUser).



End Specification.

Section Paying.
Context {U : UrlLibrary} {K : Sealing} {J : JsonText} {B : Base64Text} {D : Jsonb} {R : Redis}.
Context (show_f64 : f64 -> str) (text_of_bytes : bytes -> str) (header_safe : str -> bool).
Context (parse_request : value -> result ResponsesRequest str).
Context (e : environment) (actor : AuthUser) (t : Z).
Hypothesis steady : moments e = quiet t.













End Paying.

(** ** At concrete inputs *)

Section Concrete.
#[local] Existing Instance small_urls.
#[local] Existing Instance small_sealing.
#[local] Existing Instance small_json_text.
#[local] Existing Instance small_jsonb.
#[local] Existing Instance map_redis.
#[local] Existing Instance small_base64_text.

Definition chat_request : ResponsesRequest := {|
  req_model := None; req_input := InputPlain (lit "hello"); instructions := None; developer_instructions := None;
  max_output_tokens := None; temperature := None; stream := None; tools := None; store := None;
  previous_response_id := None; metadata := None |}.

Definition chat_answer : value :=
  json [("choices", VArray [json [("message", json [("role", vstr "assistant"); ("content", vstr "Hi")]);
                                  ("finish_reason", vstr "stop")]]);
        ("usage", usage_object 3 1 4)].

Definition one_channel (m : Model) : surroundings := {|
  rows := [m]; breaker_commands := [quiet_at 0]; draw _ := 0;
  checks := {| breaker_call := quiet_at 0; rpm_call := quiet_at 0; tpm_call := quiet_at 0; tenant_call := quiet_at 0 |};
  record1 := quiet_at 0; record2 := quiet_at 0; clock := 0; usage_id := 9; usage_stored := true |}.

Definition concrete (m : Model) : environment := {|
  gateway := {| quota := None; metering := true |};
  upstream := fun _ => Reply 200 Absent (Ok (Utf8.encode (to_text chat_answer)));
  around := one_channel m; moments := quiet (days 2); tenant_active := Some true;
  fresh_resp_id := lit "resp_1"; fresh_msg_id := lit "msg_1"; now := 1 |}.

Definition customer : AuthUser := {| auth_user_id := lit "7"; auth_role := lit "user"; auth_tenant_id := lit "t1" |}.
Definition start : server := {|
  billing := demo_tables; statements := 0;
  gateway_world := {| redis := (∅ : @db map_redis); usage := []; left := [] |} |}.



(** Only a missing channel gives the call back: when the selected channel was
    left without models, the request is refused with a 400 before anything is
    sent, and the user has lost the call all the same. *)
Theorem misconfigured_channels_burn_calls :
  let channel := with_models (VArray []) (demo_channel "a" "openai" [Chat] 1) in
  let '(r, st) := ai_response_inner (fun _ => []) (fun b => b) (fun _ => true) (fun _ => Ok chat_request)
                    (concrete channel) customer (Ok (json [("input", vstr "hello")])) start in
  r = Err (bad_request "Selected channel has no usable model") /\ left (gateway_world st) = [] /\
  billing st = set_user_plans <[11 := with_remaining 1 (demo_instance 11 (days 3) 2)]> demo_tables.
Proof. vm_compute. split_and!; reflexivity. Qed.
End Concrete.
