(* ===== verification/Tasks.v ===== *)
(** * Background tasks ([crates/rust-agent/src/tasks/mod.rs])

    The task manager runs shell commands beside the conversation.  Its state is
    shared by the callers of the manager, by one fiber per task that runs the
    command, by one per task that appends the previewed output, and by the
    sandbox, which calls the output sink from threads of its own.  They meet at
    the lock of the state, at an atomic byte counter, at a cancel flag and at a
    notification.  Each access is one [event] here, and a [run] is any
    interleaving of events, for any sandbox and any callers. *)

From S2P Require Import Prelude Utf8 JsonValue SandboxPolicy Messages Hooks ToolRuntime.

Open Scope string_scope.
Open Scope list_scope.
Open Scope nat_scope.

Definition TASK_OUTPUT_MAX_BYTES : N := (256 * 1024)%N.
Definition MAX_ACTIVE_TASKS : nat := 16.
Definition MAX_TASK_RECORDS : nat := 256.

(** ** Output *)

Definition cap_task_output (output : str) : str :=
  if (TASK_OUTPUT_MAX_BYTES <? utf8_len output)%N then take_bytes TASK_OUTPUT_MAX_BYTES output else output.

(** The loop that shortens [bytes[..len]] until it is valid UTF-8. *)
Fixpoint shorten (bs : bytes) (stop : nat) : bytes :=
  match stop with
  | O => []
  | S stop' => match from_utf8 (take stop bs) with Some _ => take stop bs | None => shorten bs stop' end
  end.

Definition utf8_prefix_at_boundary (bs : bytes) (len : nat) : bytes := shorten bs (len `min` length bs).

(** ** Records *)

Inductive TaskStatus := Running | Completed | Failed | Killed.

#[export] Instance TaskStatus_eq_dec : EqDecision TaskStatus.
Proof. solve_decision. Defined.

Definition is_terminal (s : TaskStatus) : bool :=
  match s with Completed | Failed | Killed => true | Running => false end.

Definition status_as_str (s : TaskStatus) : str :=
  lit match s with
      | Running => "running"
      | Completed => "completed"
      | Failed => "failed"
      | Killed => "killed"
      end.

Record TaskRecord := {
  id : str;
  kind : str;
  description : str;
  status : TaskStatus;
  progress : N;
  status_note : option str;
  output : str;
  exit_code : option Z;
  created_at : Z
}.

Definition summary (t : TaskRecord) : str :=
  id t ++ lit " [" ++ status_as_str (status t) ++ lit "] " ++ show_N (progress t) ++ lit "% " ++ description t.

(** The fields of [State]; of join handles, notifications and cancel flags the
    table only says for which tasks they are there. *)
Record State := {
  tasks : gmap str TaskRecord;
  order : list str;
  handles : gset str;
  done : gset str;
  cancels : gset str;
  seq : N
}.

Definition with_tasks (f : gmap str TaskRecord -> gmap str TaskRecord) (st : State) : State :=
  {| tasks := f (tasks st); order := order st; handles := handles st; done := done st;
     cancels := cancels st; seq := seq st |}.

Definition new_state : State :=
  {| tasks := ∅; order := []; handles := ∅; done := ∅; cancels := ∅; seq := 0%N |}.

Definition settled (st : State) (i : str) : bool :=
  match tasks st !! i with Some t => is_terminal (status t) | None => false end.

(** [order.iter().position(..)] of the first finished task. *)
Fixpoint first_terminal (st : State) (ids : list str) : option nat :=
  match ids with
  | [] => None
  | i :: ids => if settled st i then Some 0 else S <$> first_terminal st ids
  end.

Definition forget (index : nat) (i : str) (st : State) : State :=
  {| tasks := delete i (tasks st); order := delete index (order st); handles := handles st ∖ {[i]};
     done := done st ∖ {[i]}; cancels := cancels st ∖ {[i]}; seq := seq st |}.

(** Every round shortens [order], whose length is the fuel. *)
Fixpoint prune_rounds (fuel : nat) (st : State) : State :=
  match fuel with
  | O => st
  | S fuel =>
      if size (tasks st) <=? MAX_TASK_RECORDS then st
      else match first_terminal st (order st) with
           | None => st
           | Some index =>
               match order st !! index with
               | None => st
               | Some i => prune_rounds fuel (forget index i st)
               end
           end
  end.

Definition prune_terminal_tasks (st : State) : State := prune_rounds (length (order st)) st.

(** ** Starting a task *)

(** [std::fs::canonicalize], with the text of its error, and [Path::is_dir]. *)
Class Directories := { resolve : str -> result str str; is_dir : str -> bool }.

Record Manager := { shell_capability : bool; sandbox_name : str; workspace : option str }.

Section Start.
Context {D : Directories}.

Definition resolve_shell_cwd_within_workspace (cwd workspace : str) : result str str :=
  if negb (is_absolute workspace)
  then Err (lit "workspace " ++ workspace ++ lit " must be absolute for shell boundary enforcement")
  else match resolve workspace with
  | Err e => Err (lit "cannot resolve workspace " ++ workspace
                  ++ lit " for shell boundary enforcement: " ++ e)
  | Ok root =>
  match resolve cwd with
  | Err e => Err (lit "cannot resolve shell cwd " ++ cwd
                  ++ lit " for workspace boundary enforcement: " ++ e)
  | Ok dir =>
      if negb (is_dir root) || negb (is_dir dir)
      then Err (lit "workspace and shell cwd must both be directories")
      else if bool_decide (components root `prefix_of` components dir) then Ok dir
      else Err (lit "resolved shell cwd " ++ dir ++ lit " is outside the resolved workspace " ++ root)
  end end.

(** What [spawn_shell] checks before it takes an identifier: the resolved
    directory of the command. *)
Definition spawn_checks (m : Manager) (command cwd : str) : result str ToolError :=
  if is_empty (trim command) then Err (InvalidInput (lit "empty command"))
  else if negb (shell_capability m)
  then Err (PermissionDenied (lit "sandbox '" ++ sandbox_name m
         ++ lit "' does not provide shell execution; background task refused (fail-closed: no un-sandboxed shell)"))
  else match workspace m with
  | None => Err (PermissionDenied (lit "background tasks require an explicitly configured workspace; refusing to bind an arbitrary host cwd"))
  | Some w =>
      match resolve_shell_cwd_within_workspace cwd w with
      | Ok dir => Ok dir
      | Err reason => Err (InvalidInput (lit "background task cwd " ++ cwd ++ lit " is outside the workspace: " ++ reason))
      end
  end.
End Start.

(** [st.seq += 1], at the width of the field, and the identifier. *)
Definition allocate (st : State) : str * State :=
  let n := ((seq st + 1) mod 2 ^ 64)%N in
  (lit "task-" ++ show_N n,
   {| tasks := tasks st; order := order st; handles := handles st; done := done st;
      cancels := cancels st; seq := n |}).

Definition active_tasks (st : State) : nat :=
  size (filter (fun kv => status kv.2 = Running) (tasks st)).

Definition new_record (i descr : str) (now_ms : Z) : TaskRecord :=
  {| id := i; kind := lit "shell"; description := descr; status := Running; progress := 0%N;
     status_note := None; output := []; exit_code := None; created_at := now_ms |}.

Definition register (i descr : str) (now_ms : Z) (st : State) : result State ToolError :=
  if MAX_ACTIVE_TASKS <=? active_tasks st
  then Err (Execution (lit "background task limit reached (" ++ show_nat MAX_ACTIVE_TASKS ++ lit " active tasks)"))
  else Ok (prune_terminal_tasks
         {| tasks := <[i := new_record i descr now_ms]> (tasks st); order := order st ++ [i];
            handles := handles st; done := done st ∪ {[i]}; cancels := cancels st ∪ {[i]}; seq := seq st |}).

Definition insert_handle (i : str) (st : State) : State :=
  if settled st i then st
  else {| tasks := tasks st; order := order st; handles := handles st ∪ {[i]}; done := done st;
          cancels := cancels st; seq := seq st |}.

(** ** Running and finishing *)

Record ShellOutcome := {
  shell_output : str; shell_exit_code : option Z; timed_out : bool; cancelled : bool
}.

(** How the sandbox call ends: it unwinds, or it returns. *)
Inductive Ending := Panicked | Returned (r : result ShellOutcome SandboxError).

Definition append_preview (i text : str) (st : State) : State :=
  match tasks st !! i with
  | Some t =>
      if bool_decide (status t = Running)
      then with_tasks (<[i := {| id := id t; kind := kind t; description := description t; status := status t;
                                 progress := progress t; status_note := status_note t; output := output t ++ text;
                                 exit_code := exit_code t; created_at := created_at t |}]>) st
      else st
  | None => st
  end.

Definition settle (s : TaskStatus) (note : option str) (t : TaskRecord) : TaskRecord :=
  {| id := id t; kind := kind t; description := description t; status := s; progress := progress t;
     status_note := note; output := output t; exit_code := exit_code t; created_at := created_at t |}.

Definition finish_record (ending : Ending) (t : TaskRecord) : TaskRecord :=
  if bool_decide (status t = Killed) then t
  else match ending with
  | Panicked => settle Failed (Some (lit "background task panicked inside sandbox execution")) t
  | Returned (Err e) => settle Failed (Some (lit "sandbox execution failed: " ++ sandbox_error_to_string e)) t
  | Returned (Ok o) =>
      let '(s, note) :=
        if cancelled o then (Killed, status_note t)
        else if timed_out o then (Failed, Some (lit "hit the runtime timeout guard"))
        else if bool_decide (shell_exit_code o = Some 0%Z) then (Completed, status_note t)
        else (Failed, status_note t) in
      {| id := id t; kind := kind t; description := description t; status := s; progress := progress t;
         status_note := note; output := cap_task_output (shell_output o); exit_code := shell_exit_code o;
         created_at := created_at t |}
  end.

Definition finish (i : str) (ending : Ending) (st : State) : State :=
  match tasks st !! i with
  | Some t =>
      {| tasks := <[i := finish_record ending t]> (tasks st); order := order st;
         handles := handles st ∖ {[i]}; done := done st; cancels := cancels st ∖ {[i]}; seq := seq st |}
  | None => st
  end.

(** ** Reading and updating *)

Definition list_tasks (st : State) : list TaskRecord := omap (fun i => tasks st !! i) (order st).
Definition get_task (i : str) (st : State) : option TaskRecord := tasks st !! i.

Definition or_not_found {A} (i : str) (o : option A) : result A ToolError :=
  match o with Some a => Ok a | None => Err (ToolNotFound i) end.

Definition task_output (i : str) (st : State) : result str ToolError := or_not_found i (output <$> get_task i st).

Definition updated (new_progress : option N) (note : option str) (t : TaskRecord) : TaskRecord :=
  {| id := id t; kind := kind t; description := description t; status := status t;
     progress := match new_progress with Some p => (p `min` 100)%N | None => progress t end;
     status_note := match note with
                    | Some note => let note := trim note in if is_empty note then None else Some note
                    | None => status_note t
                    end;
     output := output t; exit_code := exit_code t; created_at := created_at t |}.

Definition update (i : str) (new_progress : option N) (note : option str) (st : State) :
    result TaskRecord ToolError * State :=
  match tasks st !! i with
  | None => (Err (ToolNotFound i), st)
  | Some t =>
      if is_terminal (status t)
      then (Err (InvalidInput (lit "task " ++ i ++ lit " is already " ++ status_as_str (status t)
                               ++ lit " and cannot be updated")), st)
      else let t := updated new_progress note t in (Ok t, with_tasks (<[i := t]>) st)
  end.

(** ** The fibers *)

(** How far [spawn_shell] is: the identifier is taken, the record is in the
    table and the fibers run, the handle is stored and the caller has its
    answer. *)
Inductive Stage := Allocated | Registered | Released.

(** What the fibers of one task share: the byte counter, the texts that a sink
    call has accepted and not sent yet, the channel, the cancel flag, how often
    [notify_waiters] was called. *)
Record Job := {
  job_description : str;
  stage : Stage;
  finished : bool;
  streamed_bytes : N;
  pending : list str;
  channel : list str;
  cancel : bool;
  notified : nat
}.

(** Where a call of [wait] or [stop] is: before it sets the cancel flag, before
    it looks up the notification, before it registers with it, between that and
    the look at the record, in [notified.await], after the wait of a [stop].  A
    waiter remembers the notifications that were over when it registered. *)
Inductive Phase := Signalling | Looking | Arming | Checking (seen : nat) | Sleeping (seen : nat) | Collecting.

Record Client := { target : str; stopping : bool; phase : Phase }.

Record World := { state : State; jobs : gmap str Job; clients : gmap nat Client }.

Definition new_world : World := {| state := new_state; jobs := ∅; clients := ∅ |}.

Inductive Answer :=
| Spawned (r : result str ToolError)
| Updated (r : result TaskRecord ToolError)
| Waited (r : result TaskRecord ToolError)
| Stopped (r : result TaskRecord ToolError).

Definition answered (c : Client) (r : result TaskRecord ToolError) : Answer :=
  if stopping c then Stopped r else Waited r.

Inductive event :=
| Spawn (descr command cwd : str)       (* [spawn_shell], up to the identifier *)
| Register (i : str) (now_ms : Z)       (* its second lock region *)
| StoreHandle (i : str)                 (* its third, and the answer *)
| Output (i : str) (chunk : bytes)      (* the sink reserves room for a chunk *)
| Send (i : str) (n : nat)              (* a sink call sends what it accepted *)
| Deliver (i : str)                     (* the consumer appends one text *)
| Finish (i : str) (ending : Ending)    (* the sandbox call is over *)
| Update (i : str) (new_progress : option N) (note : option str)
| Wait (k : nat) (i : str)
| Stop (k : nat) (i : str)
| Signal (k : nat)
| Look (k : nat)
| Arm (k : nat)
| CheckRecord (k : nat)
| Wake (k : nat)
| Collect (k : nat)
| Expire (k : nat).                     (* the grace period is over *)

Definition with_state (st : State) (w : World) : World := {| state := st; jobs := jobs w; clients := clients w |}.
Definition with_job (i : str) (j : Job) (w : World) : World :=
  {| state := state w; jobs := <[i := j]> (jobs w); clients := clients w |}.
Definition with_client (k : nat) (c : Client) (w : World) : World :=
  {| state := state w; jobs := jobs w; clients := <[k := c]> (clients w) |}.
Definition without_client (k : nat) (w : World) : World :=
  {| state := state w; jobs := jobs w; clients := delete k (clients w) |}.
Definition at_phase (p : Phase) (c : Client) : Client := {| target := target c; stopping := stopping c; phase := p |}.

Definition new_job (descr : str) : Job :=
  {| job_description := descr; stage := Allocated; finished := false; streamed_bytes := 0%N; pending := [];
     channel := []; cancel := false; notified := 0 |}.
Definition at_stage (s : Stage) (j : Job) : Job :=
  {| job_description := job_description j; stage := s; finished := finished j; streamed_bytes := streamed_bytes j;
     pending := pending j; channel := channel j; cancel := cancel j; notified := notified j |}.
Definition with_queues (streamed : N) (waiting sent : list str) (j : Job) : Job :=
  {| job_description := job_description j; stage := stage j; finished := finished j; streamed_bytes := streamed;
     pending := waiting; channel := sent; cancel := cancel j; notified := notified j |}.
Definition with_cancel (j : Job) : Job :=
  {| job_description := job_description j; stage := stage j; finished := finished j;
     streamed_bytes := streamed_bytes j; pending := pending j; channel := channel j; cancel := true;
     notified := notified j |}.
(** The closure is over: [notify_waiters], under the lock. *)
Definition notify_waiters (j : Job) : Job :=
  {| job_description := job_description j; stage := stage j; finished := true; streamed_bytes := streamed_bytes j;
     pending := pending j; channel := channel j; cancel := cancel j; notified := S (notified j) |}.

(** The sink: the compare-and-exchange that succeeds, and the accepted text. *)
Definition output_sink (chunk : bytes) (j : Job) : Job :=
  let used := streamed_bytes j in
  if (TASK_OUTPUT_MAX_BYTES <=? used)%N then j
  else
    let accepted_len := (N.of_nat (length chunk) `min` (TASK_OUTPUT_MAX_BYTES - used))%N in
    let accepted := utf8_prefix_at_boundary chunk (N.to_nat accepted_len) in
    with_queues (used + accepted_len)
      (if is_empty accepted then pending j else pending j ++ [default [] (from_utf8 accepted)]) (channel j) j.

Definition GRACE_ERROR : str :=
  lit "task did not stop within the grace period; the sandbox backend did not respond to cooperative cancellation".

(** The last lock region of [stop]. *)
Definition collect (i : str) (st : State) : result TaskRecord ToolError * State :=
  match tasks st !! i with
  | None => (Err (ToolNotFound i), st)
  | Some t =>
      let t := if is_terminal (status t) then t else settle Killed (status_note t) t in
      (Ok t, with_tasks (<[i := t]>) st)
  end.

(** ** Steps *)

Section Steps.
Context {D : Directories} (m : Manager).

Definition spawn_step (descr command cwd : str) (w : World) : World * option Answer :=
  match spawn_checks m command cwd with
  | Err e => (w, Some (Spawned (Err e)))
  | Ok _ => let '(i, st) := allocate (state w) in (with_job i (new_job descr) (with_state st w), None)
  end.

Definition register_step (i : str) (now_ms : Z) (w : World) : option (World * option Answer) :=
  j ← jobs w !! i;
  match stage j with
  | Allocated =>
      match register i (job_description j) now_ms (state w) with
      | Err e => Some ({| state := state w; jobs := delete i (jobs w); clients := clients w |}, Some (Spawned (Err e)))
      | Ok st => Some (with_job i (at_stage Registered j) (with_state st w), None)
      end
  | _ => None
  end.

Definition store_step (i : str) (w : World) : option (World * option Answer) :=
  j ← jobs w !! i;
  match stage j with
  | Registered => Some (with_job i (at_stage Released j) (with_state (insert_handle i (state w)) w), Some (Spawned (Ok i)))
  | _ => None
  end.

(** The sink is handed to the sandbox after the registration. *)
Definition launched (j : Job) : bool := match stage j with Allocated => false | _ => true end.

Definition output_step (i : str) (chunk : bytes) (w : World) : option (World * option Answer) :=
  j ← jobs w !! i;
  if launched j then Some (with_job i (output_sink chunk j) w, None) else None.

Definition send_step (i : str) (n : nat) (w : World) : option (World * option Answer) :=
  j ← jobs w !! i; text ← pending j !! n;
  Some (with_job i (with_queues (streamed_bytes j) (delete n (pending j)) (channel j ++ [text]) j) w, None).

Definition deliver_step (i : str) (w : World) : option (World * option Answer) :=
  j ← jobs w !! i;
  match channel j with
  | [] => None
  | text :: rest =>
      Some (with_job i (with_queues (streamed_bytes j) (pending j) rest j)
              (with_state (append_preview i text (state w)) w), None)
  end.

Definition finish_step (i : str) (ending : Ending) (w : World) : option (World * option Answer) :=
  j ← jobs w !! i;
  if launched j && negb (finished j)
  then Some (with_job i (notify_waiters j) (with_state (finish i ending (state w)) w), None) else None.

Definition update_step (i : str) (new_progress : option N) (note : option str) (w : World) : World * option Answer :=
  let '(r, st) := update i new_progress note (state w) in (with_state st w, Some (Updated r)).

Definition open_client (k : nat) (c : Client) (w : World) : option (World * option Answer) :=
  match clients w !! k with Some _ => None | None => Some (with_client k c w, None) end.

Definition stop_step (k : nat) (i : str) (w : World) : option (World * option Answer) :=
  match tasks (state w) !! i with
  | None => Some (w, Some (Stopped (Err (ToolNotFound i))))
  | Some t =>
      if is_terminal (status t) then Some (w, Some (Stopped (Ok t)))
      else open_client k {| target := i; stopping := true;
                            phase := if bool_decide (i ∈ cancels (state w)) then Signalling else Looking |} w
  end.

Definition leave (k : nat) (c : Client) (r : result TaskRecord ToolError) (w : World) : option (World * option Answer) :=
  Some (without_client k w, Some (answered c r)).

Definition signal_step (k : nat) (w : World) : option (World * option Answer) :=
  c ← clients w !! k;
  match phase c with
  | Signalling =>
      let w := with_client k (at_phase Looking c) w in
      Some (match jobs w !! target c with Some j => with_job (target c) (with_cancel j) w | None => w end, None)
  | _ => None
  end.

Definition look_step (k : nat) (w : World) : option (World * option Answer) :=
  c ← clients w !! k;
  match phase c with
  | Looking =>
      if bool_decide (target c ∈ done (state w)) then Some (with_client k (at_phase Arming c) w, None)
      else leave k c (Err (ToolNotFound (target c))) w
  | _ => None
  end.

Definition arm_step (k : nat) (w : World) : option (World * option Answer) :=
  c ← clients w !! k;
  match phase c with
  | Arming => j ← jobs w !! target c; Some (with_client k (at_phase (Checking (notified j)) c) w, None)
  | _ => None
  end.

Definition check_step (k : nat) (w : World) : option (World * option Answer) :=
  c ← clients w !! k;
  match phase c with
  | Checking seen =>
      match tasks (state w) !! target c with
      | Some t =>
          if is_terminal (status t)
          then if stopping c then Some (with_client k (at_phase Collecting c) w, None) else leave k c (Ok t) w
          else Some (with_client k (at_phase (Sleeping seen) c) w, None)
      | None => leave k c (Err (ToolNotFound (target c))) w
      end
  | _ => None
  end.

Definition wake_step (k : nat) (w : World) : option (World * option Answer) :=
  c ← clients w !! k;
  match phase c with
  | Sleeping seen =>
      j ← jobs w !! target c;
      if seen <? notified j then Some (with_client k (at_phase Arming c) w, None) else None
  | _ => None
  end.

Definition collect_step (k : nat) (w : World) : option (World * option Answer) :=
  c ← clients w !! k;
  match phase c with
  | Collecting => let '(r, st) := collect (target c) (state w) in leave k c r (with_state st w)
  | _ => None
  end.

Definition expire_step (k : nat) (w : World) : option (World * option Answer) :=
  c ← clients w !! k;
  match phase c with
  | Looking | Arming | Checking _ | Sleeping _ =>
      if stopping c then leave k c (Err (Execution GRACE_ERROR)) w else None
  | _ => None
  end.

(** One access to the shared state; [None] where the code is not at that point. *)
Definition step (e : event) (w : World) : option (World * option Answer) :=
  match e with
  | Spawn descr command cwd => Some (spawn_step descr command cwd w)
  | Register i now_ms => register_step i now_ms w
  | StoreHandle i => store_step i w
  | Output i chunk => output_step i chunk w
  | Send i n => send_step i n w
  | Deliver i => deliver_step i w
  | Finish i ending => finish_step i ending w
  | Update i new_progress note => Some (update_step i new_progress note w)
  | Wait k i => open_client k {| target := i; stopping := false; phase := Looking |} w
  | Stop k i => stop_step k i w
  | Signal k => signal_step k w
  | Look k => look_step k w
  | Arm k => arm_step k w
  | CheckRecord k => check_step k w
  | Wake k => wake_step k w
  | Collect k => collect_step k w
  | Expire k => expire_step k w
  end.

(** An interleaving; events at the wrong point do not happen. *)
Definition take_step (e : event) (w : World) : World :=
  match step e w with Some (w', _) => w' | None => w end.
Fixpoint run (es : list event) (w : World) : World :=
  match es with [] => w | e :: es => run es (take_step e w) end.
End Steps.

(** ** Output stays within its bytes *)

Lemma take_bytes_len limit s : (utf8_len (take_bytes limit s) <= limit)%N.
Proof.
  revert limit. induction s as [|c s IH]; intros limit; cbn [take_bytes]; [cbn; lia|].
  destruct (N.leb_spec (len_utf8 c) limit); cbn [utf8_len]; [|lia]. specialize (IH (limit - len_utf8 c)%N). lia.
Qed.

Lemma cap_task_output_len output : (utf8_len (cap_task_output output) <= TASK_OUTPUT_MAX_BYTES)%N.
Proof.
  unfold cap_task_output. destruct (N.ltb_spec TASK_OUTPUT_MAX_BYTES (utf8_len output)); [apply take_bytes_len|done].
Qed.

Lemma shorten_spec bs stop :
  exists k s, k <= stop /\ shorten bs stop = take k bs /\ from_utf8 (take k bs) = Some s /\
    forall l, k < l <= stop -> from_utf8 (take l bs) = None.
Proof.
  induction stop as [|stop (k & s & Hk & E & Hs & Hl)]; cbn [shorten].
  - exists 0, []. repeat split; [lia|..]; intros; lia.
  - destruct (from_utf8 (take (S stop) bs)) as [s'|] eqn:E'.
    + exists (S stop), s'. repeat split; [lia|done|]. intros; lia.
    + exists k, s. repeat split; [lia|done|done|]. intros l Hl'. destruct (decide (l = S stop)) as [->|]; [done|].
      apply Hl. lia.
Qed.

Lemma from_utf8_len bs s : from_utf8 bs = Some s -> utf8_len s = N.of_nat (length bs).
Proof. intros [<- _]%from_utf8_spec. by rewrite length_encode. Qed.

Lemma accepted_len chunk len :
  (utf8_len (default [] (from_utf8 (utf8_prefix_at_boundary chunk len))) <= N.of_nat len)%N.
Proof.
  unfold utf8_prefix_at_boundary. destruct (shorten_spec chunk (len `min` length chunk)) as (k & s & Hk & -> & E & _).
  rewrite E. cbn. rewrite (from_utf8_len _ _ E), length_take. lia.
Qed.

(** ** The books of the table *)

Definition total (texts : list str) : N := foldr (fun t n => (utf8_len t + n)%N) 0%N texts.

Lemma total_app l k : total (l ++ k) = (total l + total k)%N.
Proof. unfold total. induction l as [|x l IH]; [done|]. cbn. rewrite IH. lia. Qed.

Lemma total_cons x l : total (x :: l) = (utf8_len x + total l)%N.
Proof. done. Qed.

Lemma total_delete l n text : l !! n = Some text -> total l = (utf8_len text + total (delete n l))%N.
Proof.
  intros E. rewrite <- (take_drop_middle _ _ _ E) at 1. rewrite delete_take_drop, !total_app, total_cons. lia.
Qed.

Definition running (st : State) (i : str) : Prop := exists t, tasks st !! i = Some t /\ status t = Running.

Record record_ok (i : str) (t : TaskRecord) : Prop := {
  own_id : id t = i;
  percent : (progress t <= 100)%N;
  bounded : (utf8_len (output t) <= TASK_OUTPUT_MAX_BYTES)%N
}.

Record books_ok (st : State) : Prop := {
  order_unique : NoDup (order st);
  order_listed : forall i, i ∈ order st <-> is_Some (tasks st !! i);
  done_listed : forall i, i ∈ done st <-> is_Some (tasks st !! i);
  cancels_running : forall i, i ∈ cancels st <-> running st i;
  handles_running : forall i t, i ∈ handles st -> tasks st !! i = Some t -> status t = Running;
  records : forall i t, tasks st !! i = Some t -> record_ok i t
}.

Lemma is_terminal_running s : is_terminal s = false <-> s = Running.
Proof. by destruct s. Qed.
Lemma is_terminal_not_running s : is_terminal s = true <-> s <> Running.
Proof. by destruct s. Qed.

Lemma active_is_cancels st : books_ok st -> active_tasks st = size (cancels st).
Proof.
  intros H. unfold active_tasks. rewrite <- size_dom. f_equal. apply set_eq. intros i.
  rewrite (cancels_running _ H), elem_of_dom. unfold is_Some, running. apply exist_proper. intros t.
  rewrite map_lookup_filter_Some. done.
Qed.

Lemma settled_spec st i : settled st i = true <-> exists t, tasks st !! i = Some t /\ status t <> Running.
Proof.
  unfold settled. destruct (tasks st !! i) as [t|]; [|naive_solver].
  rewrite is_terminal_not_running. naive_solver.
Qed.

Lemma first_terminal_Some st ids n :
  first_terminal st ids = Some n -> exists i, ids !! n = Some i /\ settled st i = true.
Proof.
  revert n. induction ids as [|i ids IH]; intros n; [done|]. cbn [first_terminal].
  destruct (settled st i) eqn:E; [intros [= <-]; by exists i|].
  destruct (first_terminal st ids) as [n'|]; [|done]. intros [= <-]. by apply IH.
Qed.

Lemma first_terminal_None st ids : first_terminal st ids = None -> forall i, i ∈ ids -> settled st i = false.
Proof.
  induction ids as [|j ids IH]; [intros _ i Hi; by apply not_elem_of_nil in Hi|]. cbn [first_terminal].
  destruct (settled st j) eqn:E; [done|]. destruct (first_terminal st ids); [done|].
  intros _ i [->|Hi]%elem_of_cons; [done|]. by apply IH.
Qed.

Lemma forget_books st n i :
  books_ok st -> order st !! n = Some i -> settled st i = true -> books_ok (forget n i st).
Proof.
  intros H Hn Hs. apply settled_spec in Hs as (t & Ht & Hr).
  assert (forall j, j ∈ delete n (order st) <-> j ∈ order st /\ j <> i) as Hin.
  { intros j. pose proof (order_unique _ H) as Hu. rewrite <- (take_drop_middle _ _ _ Hn) in Hu |- *.
    rewrite (take_drop_middle _ _ _ Hn), delete_take_drop. rewrite <- (take_drop_middle _ _ _ Hn) at 3.
    apply NoDup_app in Hu as (_ & Hd & (Hi & _)%NoDup_cons).
    specialize (Hd i). rewrite !elem_of_app, !elem_of_cons in *. set_solver. }
  split; cbn [forget order tasks done cancels handles].
  - rewrite delete_take_drop. pose proof (order_unique _ H) as Hu. rewrite <- (take_drop_middle _ _ _ Hn) in Hu.
    apply NoDup_app in Hu as (H1 & Hd & (Hi & H2)%NoDup_cons). apply NoDup_app. set_solver.
  - intros j. rewrite Hin, (order_listed _ H), lookup_delete_is_Some. naive_solver.
  - intros j. rewrite elem_of_difference, elem_of_singleton, (done_listed _ H), lookup_delete_is_Some. naive_solver.
  - intros j. rewrite elem_of_difference, elem_of_singleton, (cancels_running _ H). unfold running; cbn.
    setoid_rewrite lookup_delete_Some. naive_solver.
  - intros j u [Hj _]%elem_of_difference [_ Hu]%lookup_delete_Some. by apply (handles_running _ H j).
  - intros j u [_ Hu]%lookup_delete_Some. by apply (records _ H).
Qed.

Record table_ok (st : State) : Prop := {
  books : books_ok st;
  few_active : size (cancels st) <= MAX_ACTIVE_TASKS;
  few_records : size (tasks st) <= MAX_TASK_RECORDS
}.

(** What pruning leaves alone. *)
Record pruned (st st' : State) : Prop := {
  pruned_tasks : forall i t, tasks st' !! i = Some t -> tasks st !! i = Some t;
  pruned_running : forall i t, tasks st !! i = Some t -> status t = Running -> tasks st' !! i = Some t;
  pruned_cancels : cancels st' ⊆ cancels st;
  pruned_seq : seq st' = seq st
}.

Lemma size_running st : books_ok st -> size (tasks st) <= length (order st).
Proof.
  intros H. rewrite <- size_dom. rewrite <- (size_list_to_set (C := gset str) _ (order_unique _ H)).
  apply subseteq_size. intros i. by rewrite elem_of_dom, elem_of_list_to_set, (order_listed _ H).
Qed.

Lemma all_running st : books_ok st -> (forall i, i ∈ order st -> settled st i = false) -> size (tasks st) <= size (cancels st).
Proof.
  intros H Hs. rewrite <- size_dom. apply subseteq_size. intros i. rewrite elem_of_dom, (cancels_running _ H).
  intros [t Ht]. exists t. split; [done|]. apply dec_stable. intros Hr.
  assert (settled st i = true) as E by (apply settled_spec; by exists t).
  rewrite Hs in E; [done|]. by apply (order_listed _ H).
Qed.

Lemma prune_rounds_ok fuel st :
  books_ok st -> size (cancels st) <= MAX_ACTIVE_TASKS -> length (order st) <= fuel ->
  table_ok (prune_rounds fuel st) /\ pruned st (prune_rounds fuel st).
Proof.
  revert st. induction fuel as [|fuel IH]; intros st H Ha Hf; cbn [prune_rounds].
  - split; [|by split]. split; [done|done|]. pose proof (size_running _ H). unfold MAX_TASK_RECORDS. lia.
  - destruct (Nat.leb_spec (size (tasks st)) MAX_TASK_RECORDS) as [Hn|Hn]; [split; by split|].
    destruct (first_terminal st (order st)) as [n|] eqn:E.
    2:{ pose proof (all_running _ H (first_terminal_None _ _ E)). unfold MAX_TASK_RECORDS, MAX_ACTIVE_TASKS in *. lia. }
    apply first_terminal_Some in E as (i & Hi & Hs). rewrite Hi.
    destruct (IH (forget n i st)) as [H1 H2]; [by apply forget_books|..].
    + etrans; [|exact Ha]. apply subseteq_size. cbn. set_solver.
    + cbn. rewrite length_delete by done. apply lookup_lt_Some in Hi. lia.
    + split; [done|]. apply settled_spec in Hs as (t & Ht & Hr). split.
      * intros j u Hu%(pruned_tasks _ _ H2). cbn in Hu. by apply lookup_delete_Some in Hu as [_ ?].
      * intros j u Hu Hj. apply (pruned_running _ _ H2); [|done]. cbn. apply lookup_delete_Some. split; [congruence|done].
      * pose proof (pruned_cancels _ _ H2). cbn in *. set_solver.
      * exact (pruned_seq _ _ H2).
Qed.

(** A record changes and keeps its status. *)
Lemma rewrite_record_ok i t t' st :
  table_ok st -> tasks st !! i = Some t -> status t' = status t -> record_ok i t' ->
  table_ok (with_tasks (<[i := t']>) st).
Proof.
  intros [H Ha Hn] Ht Hs Ho. assert (forall j, is_Some (<[i := t']> (tasks st) !! j) <-> is_Some (tasks st !! j)) as Hin.
  { intros j. rewrite lookup_insert_is_Some'. naive_solver. }
  split; [split|done|]; cbn [with_tasks order tasks done cancels handles].
  - apply H.
  - intros j. rewrite Hin. apply H.
  - intros j. rewrite Hin. apply H.
  - intros j. rewrite (cancels_running _ H). unfold running; cbn. destruct (decide (i = j)) as [<-|].
    + rewrite lookup_insert_eq, Ht. naive_solver congruence.
    + by rewrite lookup_insert_ne.
  - intros j u Hj [[<- <-]|[_ Hu]]%lookup_insert_Some; [rewrite Hs|]; by eapply (handles_running _ H).
  - intros j u [[<- <-]|[_ Hu]]%lookup_insert_Some; [done|]. by apply (records _ H).
  - rewrite map_size_insert_Some by done. done.
Qed.

Lemma register_ok i descr now st st' :
  table_ok st -> tasks st !! i = None -> register i descr now st = Ok st' ->
  table_ok st' /\ seq st' = seq st /\
  (forall j t, tasks st' !! j = Some t -> j = i /\ t = new_record i descr now \/ tasks st !! j = Some t) /\
  tasks st' !! i = Some (new_record i descr now) /\
  (forall j t, tasks st !! j = Some t -> status t = Running -> tasks st' !! j = Some t).
Proof.
  intros [H Ha Hn] Hi. unfold register. rewrite active_is_cancels by done.
  destruct (Nat.leb_spec MAX_ACTIVE_TASKS (size (cancels st))) as [|Hlt]; [done|]. intros [= <-].
  unfold prune_terminal_tasks.
  match goal with |- context [prune_rounds _ ?s] => set (st1 := s) end.
  assert (books_ok st1) as H1.
  { split; cbn.
    - apply NoDup_app. split; [apply H|]. split; [|apply NoDup_singleton]. intros j Hj%(order_listed _ H) ->%list_elem_of_singleton.
      rewrite Hi in Hj. by destruct Hj.
    - intros j. rewrite elem_of_app, list_elem_of_singleton, (order_listed _ H), lookup_insert_is_Some'. naive_solver.
    - intros j. rewrite elem_of_union, elem_of_singleton, (done_listed _ H), lookup_insert_is_Some'. naive_solver.
    - intros j. rewrite elem_of_union, elem_of_singleton, (cancels_running _ H). unfold running; cbn.
      destruct (decide (i = j)) as [<-|].
      + rewrite lookup_insert_eq. naive_solver.
      + rewrite lookup_insert_ne by done. naive_solver.
    - intros j u Hj [[<- <-]|[_ Hu]]%lookup_insert_Some; [done|]. by eapply (handles_running _ H).
    - intros j u [[<- <-]|[_ Hu]]%lookup_insert_Some; [|by apply (records _ H)]. split; cbn; [done|lia|lia]. }
  destruct (prune_rounds_ok (length (order st1)) st1) as [H2 H3]; [done| |done|].
  { cbn. pose proof (size_union_alt (cancels st) {[i]}) as Hu. rewrite Hu.
    assert (size (({[i]} : gset str) ∖ cancels st) <= 1) as Hle.
    { rewrite <- (size_singleton (C := gset str) i). apply subseteq_size. set_solver. }
    unfold MAX_ACTIVE_TASKS in *. lia. }
  split; [done|]. split; [exact (pruned_seq _ _ H3)|]. split; [|split].
  - intros j t Hj%(pruned_tasks _ _ H3). cbn in Hj. apply lookup_insert_Some in Hj as [[<- <-]|[_ Hj]]; [by left|by right].
  - apply (pruned_running _ _ H3); [|done]. cbn. by rewrite lookup_insert_eq.
  - intros j t Hj Hr. apply (pruned_running _ _ H3); [|done]. cbn. rewrite lookup_insert_ne; [done|]. congruence.
Qed.

Lemma insert_handle_ok i st : table_ok st -> table_ok (insert_handle i st).
Proof.
  intros [H Ha Hn]. unfold insert_handle. destruct (settled st i) eqn:E; [by split|].
  split; [split|done|done]; cbn; try apply H.
  intros j t [Hj|Hj%elem_of_singleton]%elem_of_union Ht; [by eapply (handles_running _ H)|]. subst j.
  unfold settled in E. rewrite Ht in E. by apply is_terminal_running.
Qed.

Lemma finish_record_terminal ending t : status (finish_record ending t) <> Running.
Proof.
  unfold finish_record. case_bool_decide as E; [by rewrite E|]. destruct ending as [|[o|e]]; [done| |done].
  destruct (cancelled o); [done|]. destruct (timed_out o); [done|]. by case_bool_decide.
Qed.

Lemma finish_record_ok i ending t : record_ok i t -> record_ok i (finish_record ending t).
Proof.
  intros [H1 H2 H3]. unfold finish_record. case_bool_decide; [done|].
  destruct ending as [|[o|e]]; [done| |done].
  assert (forall s note, record_ok i {| id := id t; kind := kind t; description := description t; status := s;
    progress := progress t; status_note := note; output := cap_task_output (shell_output o);
    exit_code := shell_exit_code o; created_at := created_at t |}) as Hr.
  { intros s note. split; [done|done|apply cap_task_output_len]. }
  destruct (cancelled o); [apply Hr|]. destruct (timed_out o); [apply Hr|]. case_bool_decide; apply Hr.
Qed.

Lemma finish_ok i ending st : table_ok st -> table_ok (finish i ending st).
Proof.
  intros [H Ha Hn]. unfold finish. destruct (tasks st !! i) as [t|] eqn:Ht; [|by split].
  assert (forall j, is_Some (<[i := finish_record ending t]> (tasks st) !! j) <-> is_Some (tasks st !! j)) as Hin.
  { intros j. rewrite lookup_insert_is_Some'. naive_solver. }
  split; [split|..]; cbn [order tasks done cancels handles].
  - apply H.
  - intros j. rewrite Hin. apply H.
  - intros j. rewrite Hin. apply H.
  - intros j. rewrite elem_of_difference, elem_of_singleton, (cancels_running _ H). unfold running; cbn.
    destruct (decide (i = j)) as [<-|].
    + rewrite lookup_insert_eq. pose proof (finish_record_terminal ending t). naive_solver.
    + rewrite lookup_insert_ne by done. naive_solver.
  - intros j u [Hj Hi%not_elem_of_singleton]%elem_of_difference [[<- _]|[_ Hu]]%lookup_insert_Some; [done|].
    by eapply (handles_running _ H).
  - intros j u [[<- <-]|[_ Hu]]%lookup_insert_Some; [|by apply (records _ H)].
    apply finish_record_ok. by apply (records _ H).
  - etrans; [|exact Ha]. apply subseteq_size. set_solver.
  - by rewrite map_size_insert_Some.
Qed.

Lemma append_preview_ok i text st :
  table_ok st ->
  (forall t, tasks st !! i = Some t -> status t = Running -> (utf8_len (output t) + utf8_len text <= TASK_OUTPUT_MAX_BYTES)%N) ->
  table_ok (append_preview i text st).
Proof.
  intros H Hb. unfold append_preview. destruct (tasks st !! i) as [t|] eqn:Ht; [|done].
  case_bool_decide as Hr; [|done]. eapply rewrite_record_ok; [done|done|done|].
  pose proof (records _ (books _ H) _ _ Ht) as [H1 H2 _]. split; [done|done|]. cbn. rewrite utf8_len_app. by apply Hb.
Qed.

Lemma update_ok i p note st : table_ok st -> table_ok (update i p note st).2.
Proof.
  intros H. unfold update. destruct (tasks st !! i) as [t|] eqn:Ht; [|done].
  destruct (is_terminal (status t)) eqn:Hr; [done|]. cbn [snd]. eapply rewrite_record_ok; [done|done|done|].
  pose proof (records _ (books _ H) _ _ Ht) as [H1 H2 H3]. split; [done| |done]. cbn. destruct p; lia.
Qed.

(** On a record that is final, the last region of [stop] changes nothing. *)
Lemma collect_settled i st : (forall t, tasks st !! i = Some t -> status t <> Running) ->
  collect i st = (or_not_found i (tasks st !! i), st).
Proof.
  intros Hs. unfold collect. destruct (tasks st !! i) as [t|] eqn:Ht; [|done].
  rewrite (proj2 (is_terminal_not_running _)) by by apply Hs. cbn. f_equal.
  unfold with_tasks. rewrite insert_id by done. by destruct st.
Qed.

(** ** The fibers agree with the table *)

Definition preview_len (st : State) (i : str) : N :=
  match tasks st !! i with
  | Some t => if bool_decide (status t = Running) then utf8_len (output t) else 0
  | None => 0
  end.

Definition task_id (n : N) : str := lit "task-" ++ show_N n.

(** The fibers of the task [i]: the sandbox call is over exactly when the task
    runs no more, and then the waiters were notified; the texts on their way
    fit in what the sink has reserved. *)
Record job_ok (st : State) (i : str) (j : Job) : Prop := {
  job_live : launched j = true /\ finished j = false <-> running st i;
  job_launched : is_Some (tasks st !! i) \/ finished j = true -> launched j = true;
  job_notified : notified j = if finished j then 1 else 0;
  job_room : (preview_len st i + total (channel j) + total (pending j) <= streamed_bytes j <= TASK_OUTPUT_MAX_BYTES)%N
}.

(** A waiter registered when nobody had been notified, if it found the task
    running. *)
Definition client_ok (w : World) (c : Client) : Prop :=
  let job (Q : Job -> Prop) := exists j, jobs w !! target c = Some j /\ launched j = true /\ Q j in
  match phase c with
  | Signalling | Looking => True
  | Arming => job (fun _ => True)
  | Checking seen => job (fun j => seen <= notified j)
  | Sleeping seen => job (fun _ => seen = 0)
  | Collecting => job (fun j => finished j = true)
  end.

Record world_ok (n : N) (w : World) : Prop := {
  table : table_ok (state w);
  job_of_task : forall i, is_Some (tasks (state w) !! i) -> is_Some (jobs w !! i);
  jobs_ok : forall i j, jobs w !! i = Some j -> job_ok (state w) i j;
  taken : forall i, is_Some (jobs w !! i) -> exists k, (1 <= k <= seq (state w))%N /\ i = task_id k;
  few_spawns : (seq (state w) <= n)%N;
  clients_ok : forall k c, clients w !! k = Some c -> client_ok w c
}.

Definition grows (j j' : Job) : Prop :=
  launched j' = true /\ notified j <= notified j' /\ (finished j = true -> finished j' = true).

Lemma move n w st' js' :
  world_ok n w -> table_ok st' -> seq st' = seq (state w) ->
  (forall i, is_Some (tasks st' !! i) -> is_Some (js' !! i)) ->
  (forall i j, js' !! i = Some j -> job_ok st' i j) ->
  (forall i, is_Some (js' !! i) -> is_Some (jobs w !! i)) ->
  (forall i j, jobs w !! i = Some j -> launched j = true -> exists j', js' !! i = Some j' /\ grows j j') ->
  world_ok n {| state := st'; jobs := js'; clients := clients w |}.
Proof.
  intros H Ht Hq H1 H2 H3 H4. split; cbn; [done|done|done| | |].
  - intros i Hi. rewrite Hq. apply (taken _ _ H), H3, Hi.
  - rewrite Hq. apply H.
  - intros k c Hc. pose proof (clients_ok _ _ H k c Hc) as Ho. unfold client_ok in *; cbn.
    destruct (phase c); [done|done|..]; destruct Ho as (j & Hj & Hl & Ho); destruct (H4 _ _ Hj Hl) as (j' & Hj' & ? & ? & ?);
      exists j'; split_and!; auto; lia.
Qed.

Lemma grows_refl j : launched j = true -> grows j j.
Proof. by split. Qed.

(** The other tasks keep their records, or lose a final one. *)
Definition frame (st st' : State) (i : str) : Prop :=
  tasks st' !! i = tasks st !! i \/ settled st i = true /\ tasks st' !! i = None.

Lemma job_ok_frame st st' i j : frame st st' i -> job_ok st i j -> job_ok st' i j.
Proof.
  unfold frame. intros [E|[Hs E]] [H1 H2 H3 H4]; unfold running, preview_len in *.
  - by split; unfold running, preview_len; rewrite ?E.
  - apply settled_spec in Hs as (t & Ht & Hr). rewrite Ht in *. rewrite bool_decide_false in H4 by done.
    split; unfold running, preview_len; rewrite ?E; [naive_solver|naive_solver|done|done].
Qed.

Lemma move_job n w st' i j j' :
  world_ok n w -> table_ok st' -> seq st' = seq (state w) ->
  jobs w !! i = Some j -> (forall k, k <> i -> frame (state w) st' k) ->
  job_ok st' i j' -> (launched j = true -> grows j j') ->
  world_ok n (with_job i j' (with_state st' w)).
Proof.
  intros H Ht Hq Hj Hf Hj' Hg. apply (move n w st' (<[i := j']> (jobs w))); [done|done|done|..].
  - intros k Hk. destruct (decide (k = i)) as [->|Hne]; [by rewrite lookup_insert_eq|]. rewrite lookup_insert_ne by done.
    apply (job_of_task _ _ H). destruct (Hf k Hne) as [E|[_ E]]; rewrite E in Hk; [done|by destruct Hk].
  - intros k l [[<- <-]|[Hne Hk]]%lookup_insert_Some; [done|]. eapply job_ok_frame; [by apply Hf|]. by apply (jobs_ok _ _ H).
  - intros k [Hk|Hk]%lookup_insert_is_Some; [by rewrite <- Hk, Hj|by destruct Hk].
  - intros k l Hk Hl. destruct (decide (k = i)) as [->|Hne]; [rewrite lookup_insert_eq|rewrite lookup_insert_ne by done].
    + rewrite Hj in Hk. injection Hk as <-. exists j'. split; [done|]. by apply Hg.
    + exists l. split; [done|]. by apply grows_refl.
Qed.

Lemma move_state n w st' :
  world_ok n w -> table_ok st' -> seq st' = seq (state w) ->
  (forall i, is_Some (tasks st' !! i) <-> is_Some (tasks (state w) !! i)) ->
  (forall i, running st' i <-> running (state w) i) ->
  (forall i, preview_len st' i = preview_len (state w) i) -> world_ok n (with_state st' w).
Proof.
  intros H Ht Hq Hi Hr Hp. apply (move n w st' (jobs w)); [done|done|done|..].
  - intros i. rewrite Hi. apply H.
  - intros i j Hj. destruct (jobs_ok _ _ H _ _ Hj) as [H1 H2 H3 H4]. split; [by rewrite Hr|by rewrite Hi|done|by rewrite Hp].
  - done.
  - intros i j Hj Hl. exists j. split; [done|]. by apply grows_refl.
Qed.

Lemma move_client n w k c : world_ok n w -> client_ok w c -> world_ok n (with_client k c w).
Proof.
  intros H Hc. split; cbn; try apply H. intros k' c' [[<- <-]|[_ Hk]]%lookup_insert_Some; [done|]. by apply (clients_ok _ _ H k').
Qed.

Lemma drop_client n w k : world_ok n w -> world_ok n (without_client k w).
Proof. intros H. split; cbn; try apply H. intros k' c' [_ Hk]%lookup_delete_Some. by apply (clients_ok _ _ H k'). Qed.

(** A job whose queues shrink by what the record gains keeps its room. *)
Lemma queues_ok st i j streamed waiting sent :
  job_ok st i j ->
  (preview_len st i + total sent + total waiting <= streamed <= TASK_OUTPUT_MAX_BYTES)%N ->
  job_ok st i (with_queues streamed waiting sent j).
Proof. intros [H1 H2 H3 H4] Hb. by split. Qed.

Lemma queues_grow streamed waiting sent j : launched j = true -> grows j (with_queues streamed waiting sent j).
Proof. by split. Qed.

Lemma frame_refl st i : frame st st i.
Proof. by left. Qed.

Lemma with_state_same w : with_state (state w) w = w.
Proof. by destruct w. Qed.

Lemma output_sink_ok st i chunk j :
  job_ok st i j -> launched j = true -> job_ok st i (output_sink chunk j) /\ grows j (output_sink chunk j).
Proof.
  intros H Hl. unfold output_sink.
  destruct (N.leb_spec TASK_OUTPUT_MAX_BYTES (streamed_bytes j)); [by split; [|apply grows_refl]|].
  split; [|by apply queues_grow]. apply queues_ok; [done|]. pose proof (job_room _ _ _ H).
  set (a := (N.of_nat (length chunk) `min` (TASK_OUTPUT_MAX_BYTES - streamed_bytes j))%N).
  pose proof (accepted_len chunk (N.to_nat a)) as Ha. rewrite N2Nat.id in Ha.
  destruct (is_empty _); [lia|]. rewrite total_app, total_cons. cbn [total foldr]. unfold TASK_OUTPUT_MAX_BYTES in *. lia.
Qed.

Lemma append_preview_effect i text st t :
  tasks st !! i = Some t -> status t = Running ->
  preview_len (append_preview i text st) i = (preview_len st i + utf8_len text)%N.
Proof.
  intros Ht Hr. unfold append_preview, preview_len. rewrite Ht, bool_decide_true by done. cbn.
  rewrite lookup_insert_eq. cbn. by rewrite bool_decide_true, utf8_len_app.
Qed.

Lemma append_preview_idle i text st : ~ running st i -> append_preview i text st = st.
Proof.
  intros Hr. unfold append_preview. destruct (tasks st !! i) as [t|] eqn:Ht; [|done].
  rewrite bool_decide_false; [done|]. intros E. apply Hr. by exists t.
Qed.

Lemma append_preview_fields i text st :
  seq (append_preview i text st) = seq st /\
  (forall k, k <> i -> frame st (append_preview i text st) k) /\
  (is_Some (tasks (append_preview i text st) !! i) <-> is_Some (tasks st !! i)) /\
  (running (append_preview i text st) i <-> running st i).
Proof.
  unfold append_preview. destruct (tasks st !! i) as [t|] eqn:Ht; [case_bool_decide as Hr|].
  - split; [done|]. split; [intros k Hk; left; cbn; by rewrite lookup_insert_ne|].
    unfold running; cbn. rewrite lookup_insert_eq, Ht. naive_solver.
  - split; [done|]. split; [intros; apply frame_refl|]. done.
  - split; [done|]. split; [intros; apply frame_refl|]. by rewrite Ht.
Qed.

(** ** Every step keeps the invariant *)

Lemma show_N_inj a b : show_N a = show_N b -> a = b.
Proof. intros E%lit_inj. by apply (inj pretty) in E. Qed.

Lemma task_id_inj a b : task_id a = task_id b -> a = b.
Proof. intros E. apply (app_inv_head (lit "task-")) in E. by apply show_N_inj in E. Qed.

Section Invariant.
Context {D : Directories} (m : Manager).

Lemma spawn_step_ok n descr command cwd w :
  world_ok n w -> (n + 1 < 2 ^ 64)%N -> world_ok (n + 1) (spawn_step m descr command cwd w).1.
Proof.
  intros H Hn. pose proof (few_spawns _ _ H) as Hf. unfold spawn_step.
  destruct (spawn_checks m command cwd); [|split; try apply H; cbn; lia]. unfold allocate. rewrite N.mod_small by lia.
  change (lit "task-" ++ show_N (seq (state w) + 1)) with (task_id (seq (state w) + 1)).
  remember (task_id (seq (state w) + 1)) as i eqn:Ei. cbn [fst].
  assert (jobs w !! i = None) as Hi.
  { destruct (jobs w !! i) eqn:E; [|done]. destruct (taken _ _ H i) as (k & Hk & Ek); [by eexists|].
    rewrite Ei in Ek. apply task_id_inj in Ek. lia. }
  assert (tasks (state w) !! i = None) as Ht.
  { destruct (tasks (state w) !! i) eqn:E; [|done]. destruct (job_of_task _ _ H i) as [? ?]; [by eexists|congruence]. }
  destruct (table _ _ H) as [Hb Ha Hr]. split; cbn.
  - split; [split; cbn; apply Hb|done|done].
  - intros k Hk. rewrite lookup_insert_is_Some'. right. by apply (job_of_task _ _ H).
  - intros k j [[<- <-]|[_ Hk]]%lookup_insert_Some.
    + split; unfold running, preview_len; cbn [tasks]; rewrite ?Ht;
        [split; [intros [E _]; discriminate E|by intros (? & ? & _)]|intros [[? E]|E]; discriminate E|done|done].
    + destruct (jobs_ok _ _ H _ _ Hk). by split.
  - intros k [<-|Hk]%lookup_insert_is_Some'; [exists (seq (state w) + 1)%N; split; [lia|exact Ei]|].
    destruct (taken _ _ H k Hk) as (x & Hx & ->). exists x. split; [lia|done].
  - lia.
  - intros k c Hk. pose proof (clients_ok _ _ H k c Hk) as Hc. unfold client_ok in *; cbn.
    destruct (phase c); try done; destruct Hc as (j & Hj & Hc); exists j; (split; [|exact Hc]);
      (rewrite lookup_insert_ne; [done|congruence]).
Qed.

Lemma register_step_ok n i now w w' a : world_ok n w -> register_step i now w = Some (w', a) -> world_ok n w'.
Proof.
  intros H. unfold register_step. destruct (jobs w !! i) as [j|] eqn:Hj; cbn; [|done].
  destruct (stage j) eqn:Es; [|done|done]. assert (launched j = false) as Hl by (unfold launched; by rewrite Es).
  pose proof (jobs_ok _ _ H _ _ Hj) as Hjob.
  assert (tasks (state w) !! i = None) as Ht.
  { destruct (tasks (state w) !! i) eqn:E; [|done]. rewrite (job_launched _ _ _ Hjob) in Hl; [done|]. left. by eexists. }
  destruct (register i (job_description j) now (state w)) as [st|e] eqn:Er; intros [= <- <-].
  - destruct (register_ok _ _ _ _ _ (table _ _ H) Ht Er) as (H1 & H2 & H3 & H4 & H5).
    apply (move_job n w st i j); [done|done|done|done| | |by rewrite Hl].
    + intros k Hk. unfold frame. destruct (tasks st !! k) as [t|] eqn:E.
      * left. destruct (H3 _ _ E) as [[-> _]|Hw]; [done|by rewrite Hw].
      * destruct (tasks (state w) !! k) as [t|] eqn:E'; [|by left]. right. split; [|done].
        apply settled_spec. exists t. split; [done|]. intros Hr. rewrite (H5 _ _ E' Hr) in E. done.
    + destruct Hjob as [J1 J2 J3 J4].
      assert (finished j = false) as Hfj. { destruct (finished j); [|done]. rewrite J2 in Hl; [done|by right]. }
      unfold preview_len in J4. rewrite Ht in J4.
      split; unfold running, preview_len; rewrite ?H4; cbn; [|done|done|done]. rewrite Hfj. naive_solver.
  - apply (move n w (state w) (delete i (jobs w))); [done|apply H|done|..].
    + intros k Hk. rewrite lookup_delete_is_Some. split; [|by apply H]. intros ->. rewrite Ht in Hk. by destruct Hk.
    + intros k l [_ Hk]%lookup_delete_Some. by apply H.
    + by intros k [_ Hk]%lookup_delete_is_Some.
    + intros k l Hk Hl'. exists l. split; [|by apply grows_refl]. apply lookup_delete_Some. split; [congruence|done].
Qed.

Lemma insert_handle_same i st : tasks (insert_handle i st) = tasks st /\ seq (insert_handle i st) = seq st.
Proof. unfold insert_handle. by destruct (settled st i). Qed.

Lemma store_step_ok n i w w' a : world_ok n w -> store_step i w = Some (w', a) -> world_ok n w'.
Proof.
  intros H. unfold store_step. destruct (jobs w !! i) as [j|] eqn:Hj; cbn; [|done].
  destruct (stage j) eqn:Es; [done| |done]. intros [= <- <-].
  assert (launched j = true) as Hl by (unfold launched; by rewrite Es).
  destruct (insert_handle_same i (state w)) as [Et Eq].
  apply (move_job n w _ i j); [done|by apply insert_handle_ok, H|done|done| | |by intros _].
  - intros k Hk. left. by rewrite Et.
  - destruct (jobs_ok _ _ H _ _ Hj) as [J1 J2 J3 J4].
    split; unfold running, preview_len in *; rewrite ?Et; [|done|done|done]. rewrite <- J1. unfold launched in *; cbn.
    by rewrite Es.
Qed.

Lemma output_step_ok n i chunk w w' a : world_ok n w -> output_step i chunk w = Some (w', a) -> world_ok n w'.
Proof.
  intros H. unfold output_step. destruct (jobs w !! i) as [j|] eqn:Hj; cbn; [|done].
  destruct (launched j) eqn:Hl; [|done]. intros [= <- <-].
  destruct (output_sink_ok (state w) i chunk j (jobs_ok _ _ H _ _ Hj) Hl) as [H1 H2].
  rewrite <- (with_state_same w). apply (move_job n w (state w) i j); try done; [apply H|intros; apply frame_refl].
Qed.

Lemma send_step_ok n i k w w' a : world_ok n w -> send_step i k w = Some (w', a) -> world_ok n w'.
Proof.
  intros H. unfold send_step. destruct (jobs w !! i) as [j|] eqn:Hj; cbn; [|done].
  destruct (pending j !! k) as [text|] eqn:Ek; cbn; [|done]. intros [= <- <-].
  pose proof (jobs_ok _ _ H _ _ Hj) as Hjob. rewrite <- (with_state_same w).
  apply (move_job n w (state w) i j); [done|apply H|done|done|intros; apply frame_refl| |apply queues_grow].
  apply queues_ok; [done|]. pose proof (job_room _ _ _ Hjob). rewrite (total_delete _ _ _ Ek) in *.
  rewrite total_app, total_cons. cbn [total foldr]. lia.
Qed.

Lemma deliver_step_ok n i w w' a : world_ok n w -> deliver_step i w = Some (w', a) -> world_ok n w'.
Proof.
  intros H. unfold deliver_step. destruct (jobs w !! i) as [j|] eqn:Hj; cbn; [|done].
  destruct (channel j) as [|text rest] eqn:Ec; [done|]. intros [= <- <-].
  pose proof (jobs_ok _ _ H _ _ Hj) as Hjob. pose proof (job_room _ _ _ Hjob) as Hroom.
  rewrite Ec, total_cons in Hroom.
  destruct (append_preview_fields i text (state w)) as (Hq & Hf & Hs & Hr).
  apply (move_job n w _ i j); [done| |done|done|done| |apply queues_grow].
  - apply append_preview_ok; [apply H|]. intros t Ht Hrun. unfold preview_len in Hroom.
    rewrite Ht, bool_decide_true in Hroom by done. lia.
  - assert (preview_len (append_preview i text (state w)) i <= preview_len (state w) i + utf8_len text)%N as Hp.
    { destruct (tasks (state w) !! i) as [t|] eqn:Ht.
      - destruct (decide (status t = Running)); [by rewrite (append_preview_effect _ _ _ t)|].
        rewrite append_preview_idle; [lia|]. unfold running. naive_solver.
      - rewrite append_preview_idle; [lia|]. unfold running. naive_solver. }
    destruct Hjob as [J1 J2 J3 J4]. split; cbn [channel pending streamed_bytes with_queues notified finished launched stage]; [by rewrite Hr|by rewrite Hs|done|lia].
Qed.

Lemma finish_step_ok n i ending w w' a : world_ok n w -> finish_step i ending w = Some (w', a) -> world_ok n w'.
Proof.
  intros H. unfold finish_step. destruct (jobs w !! i) as [j|] eqn:Hj; cbn; [|done].
  destruct (launched j && negb (finished j)) eqn:El; [|done]. apply andb_true_iff in El as [Hl Hn%negb_true_iff].
  intros [= <- <-]. destruct (jobs_ok _ _ H _ _ Hj) as [J1 J2 J3 J4].
  destruct (proj1 J1) as (t & Ht & Hr); [done|].
  assert (tasks (finish i ending (state w)) !! i = Some (finish_record ending t)) as Ht'.
  { unfold finish. rewrite Ht. cbn. by rewrite lookup_insert_eq. }
  pose proof (finish_record_terminal ending t) as Hterm.
  apply (move_job n w _ i j); [done|by apply finish_ok, H| |done| | |].
  - unfold finish. by rewrite Ht.
  - intros k Hk. left. unfold finish. rewrite Ht. cbn. by rewrite lookup_insert_ne.
  - split; unfold running, preview_len in *; rewrite ?Ht'; cbn -[total].
    + split; [by intros [_ ?]|]. intros (u & [= <-] & ?). done.
    + done.
    + rewrite J3, Hn. done.
    + rewrite bool_decide_false by done. rewrite Ht in J4. rewrite bool_decide_true in J4 by done. lia.
  - intros _. split; [done|]. cbn. split; [lia|done].
Qed.

Lemma update_step_ok n i p note w : world_ok n w -> world_ok n (update_step i p note w).1.
Proof.
  intros H. unfold update_step. pose proof (update_ok i p note (state w) (table _ _ H)) as Ht.
  unfold update in *. destruct (tasks (state w) !! i) as [t|] eqn:E; [|by rewrite with_state_same].
  destruct (is_terminal (status t)) eqn:Er; [by rewrite with_state_same|]. cbn [fst snd] in *.
  assert (forall k, k = i \/ k <> i /\ <[i := updated p note t]> (tasks (state w)) !! k = tasks (state w) !! k) as Hk.
  { intros k. destruct (decide (k = i)); [by left|right]. by rewrite lookup_insert_ne. }
  apply move_state; [done|done|done|..]; intros k; unfold running, preview_len; cbn;
    (destruct (Hk k) as [->|[_ ->]]; [rewrite lookup_insert_eq, E; cbn|done]).
  - naive_solver.
  - naive_solver.
  - done.
Qed.
Lemma recorded_job n w i t : world_ok n w -> tasks (state w) !! i = Some t ->
  exists j, jobs w !! i = Some j /\ launched j = true /\ finished j = is_terminal (status t).
Proof.
  intros H Ht. destruct (job_of_task _ _ H i) as [j Hj]; [by eexists|]. exists j. split; [done|].
  destruct (jobs_ok _ _ H _ _ Hj) as [J1 J2 J3 J4]. assert (launched j = true) as Hl by (apply J2; left; by eexists).
  split; [done|]. destruct (finished j) eqn:Ef; symmetry.
  - apply is_terminal_not_running. intros Hr. destruct (proj2 J1) as [_ ?]; [by exists t|done].
  - apply is_terminal_running. destruct (proj1 J1) as (u & Hu & Hr); [done|]. congruence.
Qed.

Lemma leave_ok n k c r w w' a : world_ok n w -> leave k c r w = Some (w', a) -> world_ok n w'.
Proof. intros H. unfold leave. intros [= <- <-]. by apply drop_client. Qed.

Lemma open_client_ok n k c w w' a :
  world_ok n w -> client_ok w c -> open_client k c w = Some (w', a) -> world_ok n w'.
Proof. intros H Hc. unfold open_client. destruct (clients w !! k); [done|]. intros [= <- <-]. by apply move_client. Qed.

Lemma stop_step_ok n k i w w' a : world_ok n w -> stop_step k i w = Some (w', a) -> world_ok n w'.
Proof.
  intros H. unfold stop_step. destruct (tasks (state w) !! i) as [t|]; [|by intros [= <- <-]].
  destruct (is_terminal (status t)); [by intros [= <- <-]|]. apply open_client_ok; [done|].
  unfold client_ok; cbn. by case_bool_decide.
Qed.

Lemma signal_step_ok n k w w' a : world_ok n w -> signal_step k w = Some (w', a) -> world_ok n w'.
Proof.
  intros H. unfold signal_step. destruct (clients w !! k) as [c|] eqn:Hc; cbn [mbind option_bind]; [|done].
  destruct (phase c); [|done..]. intros [= <- <-].
  assert (world_ok n (with_client k (at_phase Looking c) w)) as H' by by apply move_client.
  destruct (jobs w !! target c) as [j|] eqn:Hj; [|done].
  rewrite <- (with_state_same (with_client k (at_phase Looking c) w)).
  apply (move_job n _ (state w) (target c) j); [done|apply H|done|done|intros; apply frame_refl| |by intros ?].
  destruct (jobs_ok _ _ H _ _ Hj). by split.
Qed.

Lemma look_step_ok n k w w' a : world_ok n w -> look_step k w = Some (w', a) -> world_ok n w'.
Proof.
  intros H. unfold look_step. destruct (clients w !! k) as [c|] eqn:Hc; cbn; [|done].
  destruct (phase c); [done| |done..]. case_bool_decide as Hd; [|by apply leave_ok].
  intros [= <- <-]. apply move_client; [done|].
  apply (done_listed _ (books _ (table _ _ H))) in Hd as [t Ht].
  destruct (recorded_job _ _ _ _ H Ht) as (j & Hj & Hl & _). by exists j.
Qed.

Lemma arm_step_ok n k w w' a : world_ok n w -> arm_step k w = Some (w', a) -> world_ok n w'.
Proof.
  intros H. unfold arm_step. destruct (clients w !! k) as [c|] eqn:Hc; cbn; [|done].
  pose proof (clients_ok _ _ H k c Hc) as Ho. unfold client_ok in Ho.
  destruct (phase c); [done|done| |done..]. destruct Ho as (j & Hj & Hl & _). rewrite Hj; cbn.
  intros [= <- <-]. apply move_client; [done|]. by exists j.
Qed.

Lemma check_step_ok n k w w' a : world_ok n w -> check_step k w = Some (w', a) -> world_ok n w'.
Proof.
  intros H. unfold check_step. destruct (clients w !! k) as [c|] eqn:Hc; cbn [mbind option_bind]; [|done].
  pose proof (clients_ok _ _ H k c Hc) as Ho. unfold client_ok in Ho.
  destruct (phase c) as [| | |seen| |] eqn:Ep; try done. destruct Ho as (j & Hj & Hl & Hle).
  destruct (tasks (state w) !! target c) as [t|] eqn:Ht; [|by apply leave_ok].
  destruct (recorded_job _ _ _ _ H Ht) as (j' & Hj' & _ & Hf). replace j' with j in * by congruence.
  destruct (is_terminal (status t)) eqn:Er; [destruct (stopping c); [|by apply leave_ok]|]; intros [= <- <-];
    (apply move_client; [done|]); exists j; (split; [done|split; [done|]]); [done|].
  pose proof (job_notified _ _ _ (jobs_ok _ _ H _ _ Hj)) as Hn. rewrite Hf in Hn. lia.
Qed.

Lemma wake_step_ok n k w w' a : world_ok n w -> wake_step k w = Some (w', a) -> world_ok n w'.
Proof.
  intros H. unfold wake_step. destruct (clients w !! k) as [c|] eqn:Hc; cbn; [|done].
  pose proof (clients_ok _ _ H k c Hc) as Ho. unfold client_ok in Ho.
  destruct (phase c); try done. destruct Ho as (j & Hj & Hl & _). rewrite Hj; cbn.
  case_match; [|done]. intros [= <- <-]. apply move_client; [done|]. by exists j.
Qed.

(** Whoever collects finds a final record, or none. *)
Lemma collecting_settled n w k c : world_ok n w -> clients w !! k = Some c -> phase c = Collecting ->
  forall t, tasks (state w) !! target c = Some t -> status t <> Running.
Proof.
  intros H Hc Hp t Ht. pose proof (clients_ok _ _ H k c Hc) as Ho. unfold client_ok in Ho. rewrite Hp in Ho.
  destruct Ho as (j & Hj & _ & Hf). destruct (recorded_job _ _ _ _ H Ht) as (j' & Hj' & _ & Hf').
  apply is_terminal_not_running. congruence.
Qed.

Lemma collect_step_ok n k w w' a : world_ok n w -> collect_step k w = Some (w', a) -> world_ok n w'.
Proof.
  intros H. unfold collect_step. destruct (clients w !! k) as [c|] eqn:Hc; cbn [mbind option_bind]; [|done].
  destruct (phase c) eqn:Ep; [done..|].
  rewrite collect_settled by exact (collecting_settled _ _ _ _ H Hc Ep). rewrite with_state_same. by apply leave_ok.
Qed.

Lemma expire_step_ok n k w w' a : world_ok n w -> expire_step k w = Some (w', a) -> world_ok n w'.
Proof.
  intros H. unfold expire_step. destruct (clients w !! k) as [c|] eqn:Hc; cbn; [|done].
  destruct (phase c), (stopping c); try done; by apply leave_ok.
Qed.

Lemma more_events n w : world_ok n w -> world_ok (n + 1) w.
Proof. intros H. split; try apply H. pose proof (few_spawns _ _ H). lia. Qed.

Lemma take_step_ok n e w : world_ok n w -> (n + 1 < 2 ^ 64)%N -> world_ok (n + 1) (take_step m e w).
Proof.
  intros H Hn. unfold take_step. destruct (step m e w) as [[w' a]|] eqn:E; [|by apply more_events].
  destruct e; cbn [step] in E.
  1: { injection E as E. pose proof (spawn_step_ok n descr command cwd w H Hn) as Hs. by rewrite E in Hs. }
  all: apply more_events.
  - by eapply register_step_ok.
  - by eapply store_step_ok.
  - by eapply output_step_ok.
  - by eapply send_step_ok.
  - by eapply deliver_step_ok.
  - by eapply finish_step_ok.
  - injection E as E. pose proof (update_step_ok n i new_progress note w H) as Hu. by rewrite E in Hu.
  - eapply open_client_ok; [exact H| |exact E]. done.
  - by eapply stop_step_ok.
  - by eapply signal_step_ok.
  - by eapply look_step_ok.
  - by eapply arm_step_ok.
  - by eapply check_step_ok.
  - by eapply wake_step_ok.
  - by eapply collect_step_ok.
  - by eapply expire_step_ok.
Qed.

Lemma new_world_ok : world_ok 0 new_world.
Proof.
  split; cbn; [|intros i []; done|done|intros i []; done|lia|done].
  split; [split; cbn|..].
  - constructor.
  - intros i. split; [by intros ?%not_elem_of_nil|intros []; done].
  - intros i. split; [set_solver|intros []; done].
  - intros i. split; [set_solver|intros (? & ? & _); done].
  - set_solver.
  - done.
  - change (size (∅ : gset str) <= MAX_ACTIVE_TASKS). rewrite size_empty. apply Nat.le_0_l.
  - change (size (∅ : gmap str TaskRecord) <= MAX_TASK_RECORDS). rewrite map_size_empty. apply Nat.le_0_l.
Qed.

Lemma tasks_run_ok es n w : world_ok n w -> (n + N.of_nat (length es) < 2 ^ 64)%N -> world_ok (n + N.of_nat (length es)) (run m es w).
Proof.
  revert n w. induction es as [|e es IH]; intros n w H Hn; cbn [run length] in *; [by rewrite N.add_0_r|].
  replace (n + N.of_nat (S (length es)))%N with (n + 1 + N.of_nat (length es))%N by lia. apply IH; [|lia].
  apply take_step_ok; [done|lia].
Qed.

Lemma reachable_ok es : (N.of_nat (length es) < 2 ^ 64)%N -> world_ok (N.of_nat (length es)) (run m es new_world).
Proof. apply (tasks_run_ok es 0), new_world_ok. Qed.
End Invariant.

(** ** What callers can rely on *)

Section Guarantees.
Context {D : Directories} (m : Manager).

Lemma wake_takes k c j seen w :
  clients w !! k = Some c -> phase c = Sleeping seen -> jobs w !! target c = Some j -> seen < notified j ->
  take_step m (Wake k) w = with_client k (at_phase Arming c) w.
Proof.
  intros Hc Hp Hj Hs. unfold take_step; cbn [step]. unfold wake_step. rewrite Hc; cbn [mbind option_bind]. rewrite Hp, Hj; cbn [mbind option_bind].
  by rewrite (proj2 (Nat.ltb_lt _ _) Hs).
Qed.

Lemma arm_takes k c j w :
  clients w !! k = Some c -> phase c = Arming -> jobs w !! target c = Some j ->
  take_step m (Arm k) w = with_client k (at_phase (Checking (notified j)) c) w.
Proof.
  intros Hc Hp Hj. unfold take_step; cbn [step]. unfold arm_step. rewrite Hc; cbn. by rewrite Hp, Hj.
Qed.

(** On a task that is over, the look and what follows it end the call. *)
Lemma check_ends k c seen w :
  clients w !! k = Some c -> phase c = Checking seen -> ~ running (state w) (target c) ->
  clients (take_step m (Collect k) (take_step m (CheckRecord k) w)) !! k = None.
Proof.
  intros Hc Hp Hr.
  assert (forall w', clients w' !! k = None -> clients (take_step m (Collect k) w') !! k = None) as Hgone.
  { intros w' E. unfold take_step; cbn [step]. unfold collect_step. by rewrite E. }
  unfold take_step at 2; cbn [step]. unfold check_step. rewrite Hc; cbn [mbind option_bind]. rewrite Hp.
  destruct (tasks (state w) !! target c) as [t|] eqn:Ht; [|apply Hgone; cbn; by rewrite lookup_delete_eq].
  replace (is_terminal (status t)) with true by (symmetry; apply is_terminal_not_running; intros E; apply Hr; by exists t).
  destruct (stopping c); [|apply Hgone; cbn; by rewrite lookup_delete_eq].
  unfold take_step; cbn [step]. unfold collect_step. cbn [with_client clients]. rewrite lookup_insert_eq; cbn [mbind option_bind at_phase phase].
  destruct (collect _ _). cbn. by rewrite lookup_delete_eq.
Qed.

(** C18: However the callers, the fibers and the sandbox interleave, the table keeps
    its limits and its columns agree: at most sixteen tasks run, at most 256 are
    remembered, the order lists exactly the remembered tasks once each, a cancel
    flag is kept exactly for the running ones, and every record carries its own
    identifier, a percentage and at most 256 KiB of output. *)
Theorem tasks_stay_bounded es :
  (N.of_nat (length es) < 2 ^ 64)%N ->
  let st := state (run m es new_world) in
  active_tasks st <= MAX_ACTIVE_TASKS /\ size (tasks st) <= MAX_TASK_RECORDS /\
  NoDup (order st) /\ (forall i, i ∈ order st <-> is_Some (tasks st !! i)) /\
  (forall i, i ∈ cancels st <-> running st i) /\
  (forall i t, tasks st !! i = Some t ->
     id t = i /\ (progress t <= 100)%N /\ (utf8_len (output t) <= TASK_OUTPUT_MAX_BYTES)%N).
Proof.
  intros Hn. cbv zeta. destruct (table _ _ (reachable_ok m es Hn)) as [H Ha Hr].
  rewrite active_is_cancels by done. split_and!; [done|done|apply H|apply H|apply H|].
  intros i t Ht. by destruct (records _ H _ _ Ht).
Qed.

(** C19: A waiter that sleeps on a task that runs no more has been notified: it
    wakes, looks again and is gone, with no further event needed.  Registering
    before looking is what makes this true. *)
Theorem no_wakeup_is_lost es k c seen :
  (N.of_nat (length es) < 2 ^ 64)%N ->
  let w := run m es new_world in
  clients w !! k = Some c -> phase c = Sleeping seen -> ~ running (state w) (target c) ->
  clients (run m [Wake k; Arm k; CheckRecord k; Collect k] w) !! k = None.
Proof.
  intros Hn. cbv zeta. pose proof (reachable_ok m es Hn) as H. set (w := run m es new_world) in *. clearbody w.
  intros Hc Hp Hr. pose proof (clients_ok _ _ H k c Hc) as Ho. unfold client_ok in Ho. rewrite Hp in Ho.
  destruct Ho as (j & Hj & Hl & ->). destruct (jobs_ok _ _ H _ _ Hj) as [J1 _ J3 _].
  assert (notified j = 1) as Hone.
  { rewrite J3. destruct (finished j); [done|]. exfalso. apply Hr, J1. done. }
  cbn [run]. rewrite (wake_takes k c j 0) by (done || lia).
  rewrite (arm_takes k (at_phase Arming c) j) by (done || (cbn; by rewrite lookup_insert_eq)).
  apply (check_ends k (at_phase (Checking (notified j)) c) (notified j)); [cbn; by rewrite lookup_insert_eq|done|done].
Qed.

(** [stop] and [wait] answer with a task only when it is over, and report what
    its fiber wrote: the record is the one in the table, and a [stop] that comes
    too late does not turn it into a killed one. *)
Theorem answers_are_final es e w' t :
  (N.of_nat (length es) < 2 ^ 64)%N ->
  let w := run m es new_world in
  step m e w = Some (w', Some (Stopped (Ok t))) \/ step m e w = Some (w', Some (Waited (Ok t))) ->
  is_terminal (status t) = true /\ tasks (state w) !! id t = Some t /\ state w' = state w.
Proof.
  intros Hn. cbv zeta. pose proof (reachable_ok m es Hn) as H. set (w := run m es new_world) in *. clearbody w.
  assert (forall i u, tasks (state w) !! i = Some u -> tasks (state w) !! id u = Some u) as Hid.
  { intros i u Hu. by rewrite (own_id _ _ (records _ (books _ (table _ _ H)) _ _ Hu)). }
  enough (forall r, step m e w = Some (w', Some r) -> r = Stopped (Ok t) \/ r = Waited (Ok t) ->
    state w' = state w /\ exists i, tasks (state w) !! i = Some t /\ is_terminal (status t) = true) as Hw.
  { intros [E|E]; (destruct (Hw _ E) as (H1 & i & H2 & H3); [naive_solver|]); eauto. }
  intros r E Hr.
  destruct e; cbn [step] in E; unfold spawn_step, register_step, store_step, output_step, send_step, deliver_step,
    finish_step, update_step, stop_step, open_client, signal_step, look_step, arm_step, check_step, wake_step,
    collect_step, expire_step, leave, answered in E; try (repeat (case_match || simplify_option_eq); naive_solver).
  destruct (clients w !! k) as [c|] eqn:Hc; cbn [mbind option_bind] in E; [|done].
  destruct (phase c) eqn:Ep; try done.
  pose proof (collecting_settled _ _ _ _ H Hc Ep) as Hs. rewrite collect_settled in E by done.
  rewrite with_state_same in E. destruct (tasks (state w) !! target c) as [u|] eqn:Hu; cbn in E.
  - injection E as <- Er. assert (u = t) as -> by (destruct (stopping c), Hr; congruence).
    split; [done|]. exists (target c). split; [done|]. apply is_terminal_not_running. by apply Hs.
  - exfalso. injection E as <- Er. destruct (stopping c), Hr; congruence.
Qed.

(** What one step may do to the records. *)
Definition keeps (st st' : State) : Prop := forall i t,
  tasks st !! i = Some t ->
  exists t', tasks st' !! i = Some t' /\ (status t = Running -> status t' = Running) /\ (status t <> Running -> t' = t).

Lemma keeps_refl st : keeps st st.
Proof. intros i t Ht. by exists t. Qed.

Lemma keeps_same st st' : tasks st' = tasks st -> keeps st st'.
Proof. intros E i t Ht. exists t. by rewrite E. Qed.

Lemma append_preview_keeps i text st : keeps st (append_preview i text st).
Proof.
  intros k u Hu. unfold append_preview. destruct (tasks st !! i) as [t|] eqn:Ht; [|by exists u].
  case_bool_decide as Hr; [|by exists u]. cbn. destruct (decide (i = k)) as [<-|].
  - rewrite lookup_insert_eq. eexists. split; [done|]. cbn. naive_solver.
  - rewrite lookup_insert_ne by done. by exists u.
Qed.

Lemma update_keeps i p note st : keeps st (update i p note st).2.
Proof.
  intros k u Hu. unfold update. destruct (tasks st !! i) as [t|] eqn:Ht; [|by exists u].
  destruct (is_terminal (status t)) eqn:Hr; [by exists u|]. apply is_terminal_running in Hr. cbn.
  destruct (decide (i = k)) as [<-|].
  - rewrite lookup_insert_eq. eexists. split; [done|]. cbn. naive_solver.
  - rewrite lookup_insert_ne by done. by exists u.
Qed.

Lemma insert_handle_keeps i st : keeps st (insert_handle i st).
Proof. intros k u Hu. exists u. by rewrite (proj1 (insert_handle_same i st)). Qed.

Lemma register_keeps i descr now st st' :
  tasks st !! i = None -> size (tasks st) < MAX_TASK_RECORDS -> register i descr now st = Ok st' -> keeps st st'.
Proof.
  intros Hi Hn. unfold register. destruct (_ <=? active_tasks st); [done|]. intros [= <-] k u Hu.
  assert (forall fuel s, size (tasks s) <= MAX_TASK_RECORDS -> prune_rounds fuel s = s) as Hp.
  { intros [|fuel] s Hs; [done|]. cbn [prune_rounds]. by rewrite (proj2 (Nat.leb_le _ _) Hs). }
  unfold prune_terminal_tasks. rewrite Hp by (cbn [tasks]; rewrite map_size_insert_None by done; unfold MAX_TASK_RECORDS in *; lia).
  exists u. cbn. rewrite lookup_insert_ne by congruence. done.
Qed.

Definition settling (w w' : World) (e : event) (i : str) (t : TaskRecord) : Prop :=
  if is_terminal (status t)
  then tasks (state w') !! i = Some t \/
       tasks (state w') !! i = None /\ size (tasks (state w)) = MAX_TASK_RECORDS /\ exists j now, e = Register j now
  else exists t', tasks (state w') !! i = Some t' /\ (is_terminal (status t') = true -> exists ending, e = Finish i ending).

Lemma settling_kept w w' e i t : tasks (state w') !! i = Some t -> settling w w' e i t.
Proof.
  intros Ht. unfold settling. destruct (is_terminal (status t)) eqn:Es; [by left|]. exists t. by rewrite Es.
Qed.

Lemma keeps_settling w w' e i t : keeps (state w) (state w') -> tasks (state w) !! i = Some t -> settling w w' e i t.
Proof.
  intros Hk Ht. destruct (Hk _ _ Ht) as (t' & Ht' & Hr & Hf). unfold settling. destruct (is_terminal (status t)) eqn:Es.
  - left. rewrite Ht'. f_equal. apply Hf. by apply is_terminal_not_running.
  - exists t'. split; [done|]. apply is_terminal_running in Es. by rewrite (proj2 (is_terminal_running _) (Hr Es)).
Qed.

Lemma register_settling n j now w w' a i t :
  world_ok n w -> register_step j now w = Some (w', a) -> tasks (state w) !! i = Some t ->
  settling w w' (Register j now) i t.
Proof.
  intros H E Ht. unfold register_step in E. destruct (jobs w !! j) as [job|] eqn:Hj; cbn [mbind option_bind] in E; [|done].
  destruct (stage job) eqn:Eg; [|done|done].
  assert (tasks (state w) !! j = None) as Hnone.
  { destruct (tasks (state w) !! j) eqn:Ej; [|done]. destruct (recorded_job _ _ _ _ H Ej) as (j' & Hj' & Hl & _).
    unfold launched in Hl. replace j' with job in Hl by congruence. by rewrite Eg in Hl. }
  destruct (register j (job_description job) now (state w)) as [st|err] eqn:Er; injection E as <- <-; [|by apply settling_kept].
  destruct (register_ok _ _ _ _ _ (table _ _ H) Hnone Er) as (_ & _ & H3 & _ & H5).
  destruct (decide (size (tasks (state w)) = MAX_TASK_RECORDS)) as [Hfull|].
  - unfold settling; cbn. destruct (is_terminal (status t)) eqn:Es.
    + destruct (tasks st !! i) as [u|] eqn:Hu; [left|right; eauto]. destruct (H3 _ _ Hu) as [[-> _]|]; congruence.
    + exists t. apply is_terminal_running in Es. split; [by apply H5|]. by rewrite Es.
  - apply keeps_settling; [|done]. cbn. eapply register_keeps; [done| |done].
    pose proof (few_records _ (table _ _ H)). lia.
Qed.

Lemma finish_settling n k ending w w' a i t :
  world_ok n w -> finish_step k ending w = Some (w', a) -> tasks (state w) !! i = Some t ->
  settling w w' (Finish k ending) i t.
Proof.
  intros H E Ht. unfold finish_step in E. destruct (jobs w !! k) as [job|] eqn:Hj; cbn [mbind option_bind] in E; [|done].
  destruct (launched job && negb (finished job)) eqn:El; [|done]. apply andb_true_iff in El as [Hl Hf%negb_true_iff].
  injection E as <- <-. destruct (decide (k = i)) as [->|Hne].
  - destruct (recorded_job _ _ _ _ H Ht) as (j' & Hj' & _ & Hf'). replace j' with job in Hf' by congruence.
    unfold settling; cbn. rewrite <- Hf', Hf. unfold finish. rewrite Ht. cbn. rewrite lookup_insert_eq. eauto.
  - apply settling_kept. cbn. unfold finish. destruct (tasks (state w) !! k); [cbn; by rewrite lookup_insert_ne|done].
Qed.

(** The steps of [wait] and [stop] after their first change no record. *)
Lemma client_steps_read n e k w w' a :
  world_ok n w -> step m e w = Some (w', a) ->
  e ∈ [Signal k; Look k; Arm k; CheckRecord k; Wake k; Collect k; Expire k] -> state w' = state w.
Proof.
  intros H E He. destruct (clients w !! k) as [c|] eqn:Hc.
  2:{ repeat (apply elem_of_cons in He as [->|He]); [..|by apply not_elem_of_nil in He]; cbn [step] in E;
      unfold signal_step, look_step, arm_step, check_step, wake_step, collect_step, expire_step in E; by rewrite Hc in E. }
  repeat (apply elem_of_cons in He as [->|He]); [..|by apply not_elem_of_nil in He]; cbn [step] in E;
    unfold signal_step, look_step, arm_step, check_step, wake_step, collect_step, expire_step in E;
    rewrite Hc in E; cbn [mbind option_bind] in E; destruct (phase c) eqn:Hp; try done; unfold leave in E.
  6: { rewrite collect_settled in E by exact (collecting_settled _ _ _ _ H Hc Hp). rewrite with_state_same in E.
       by injection E as <- _. }
  all: repeat (case_match || simplify_option_eq); try done.
Qed.

Lemma other_steps_keep n e w w' a :
  world_ok n w -> step m e w = Some (w', a) ->
  keeps (state w) (state w') \/ (exists j now, e = Register j now) \/ (exists k ending, e = Finish k ending).
Proof.
  intros H E. destruct e; try (right; by eauto); left.
  9-15: apply keeps_same; f_equal; eapply (client_steps_read n _ k); [exact H|exact E|set_solver].
  all: cbn [step] in E.
  3: { unfold output_step in E. destruct (jobs w !! i) as [j|]; cbn in E; [|done].
       destruct (launched j); [|done]. injection E as <- _. apply keeps_refl. }
  3: { unfold send_step in E. destruct (jobs w !! i) as [j|]; cbn [mbind option_bind] in E; [|done].
       destruct (pending j !! n0); [|done]. injection E as <- _. apply keeps_refl. }
  3: { unfold deliver_step in E. destruct (jobs w !! i) as [j|]; cbn [mbind option_bind] in E; [|done].
       destruct (channel j); [done|]. injection E as <- _. apply append_preview_keeps. }
  3: { injection E as E. unfold update_step in E. pose proof (update_keeps i new_progress note (state w)) as Hk.
       destruct (update _ _ _ _). injection E as <- _. exact Hk. }
  - injection E as E. unfold spawn_step in E. destruct (spawn_checks m command cwd); injection E as <- _; by apply keeps_same.
  - unfold store_step in E. destruct (jobs w !! i) as [j|]; cbn [mbind option_bind] in E; [|done].
    destruct (stage j); try done. injection E as <- _. apply insert_handle_keeps.
  - apply keeps_same. unfold open_client in E. destruct (clients w !! k); [done|]. by injection E as <- _.
  - apply keeps_same. unfold stop_step, open_client in E. repeat case_match; by simplify_eq.
Qed.

(** A record of a running task stays, and only the end of its sandbox call makes
    it final; a final record never changes, and is forgotten only when another
    task registers while the table is full. *)
Theorem final_records_stay es e w' a i t :
  (N.of_nat (length es) < 2 ^ 64)%N ->
  let w := run m es new_world in
  step m e w = Some (w', a) -> tasks (state w) !! i = Some t ->
  if is_terminal (status t)
  then tasks (state w') !! i = Some t \/
       tasks (state w') !! i = None /\ size (tasks (state w)) = MAX_TASK_RECORDS /\ exists j now, e = Register j now
  else exists t', tasks (state w') !! i = Some t' /\ (is_terminal (status t') = true -> exists ending, e = Finish i ending).
Proof.
  intros Hn w E Ht. pose proof (reachable_ok m es Hn) as H. change (settling w w' e i t).
  destruct (other_steps_keep _ _ _ _ _ H E) as [Hk|[(j & now & ->)|(k & ending & ->)]].
  - by apply keeps_settling.
  - by eapply register_settling.
  - by eapply finish_settling.
Qed.
End Guarantees.

(** ** The output preview loses more than it says

    A chunk that begins inside a character is dropped as a whole, although its
    bytes are counted. *)

Lemma from_utf8_continuation b bs : (128 <= b < 192)%N -> from_utf8 (b :: bs) = None.
Proof.
  intros Hb. unfold from_utf8. cbn [length decode]. unfold decode_char. cbn [raw_char].
  by rewrite (proj2 (N.ltb_ge b 128)), (proj2 (N.ltb_lt b 192)) by lia.
Qed.

Lemma split_character_drops_chunk b bs len :
  (128 <= b < 192)%N -> utf8_prefix_at_boundary (b :: bs) len = [].
Proof.
  intros Hb. unfold utf8_prefix_at_boundary.
  destruct (shorten_spec (b :: bs) (len `min` length (b :: bs))) as ([|k] & s & _ & -> & E & _); [done|].
  cbn [take] in E. by rewrite from_utf8_continuation in E.
Qed.

(** ** The tool: one action per call *)

Inductive Action :=
| Run (command descr : str)
| ListTasks
| ShowTask (i : str)
| StopTask (i : str)
| UpdateTask (i : str) (new_progress : option N) (note : option str)
| TaskOutput (i : str).

Definition required (key : string) (message : string) (input : value) : result str ToolError :=
  match get_str key input with Some s => Ok s | None => Err (InvalidInput (lit message)) end.

Definition with_id (input : value) (f : str -> Action) : result Action ToolError :=
  match required "task_id" "missing 'task_id'" input with Ok i => Ok (f i) | Err e => Err e end.

Definition parse_action (input : value) : result Action ToolError :=
  match required "action" "missing 'action'" input with
  | Err e => Err e
  | Ok action =>
      if str_eqb action (lit "run")
      then match required "command" "missing 'command'" input with
           | Err e => Err e
           | Ok command => Ok (Run command (default command (get_str "description" input)))
           end
      else if str_eqb action (lit "list") then Ok ListTasks
      else if str_eqb action (lit "show") then with_id input ShowTask
      else if str_eqb action (lit "stop") then with_id input StopTask
      else if str_eqb action (lit "update")
      then with_id input (fun i =>
             UpdateTask i ((fun p => Z.to_N (p `min` 100)) <$> get_u64 "progress" input) (get_str "note" input))
      else if str_eqb action (lit "output") then with_id input TaskOutput
      else Err (InvalidInput (lit "unknown action: " ++ action))
  end.

Definition is_read_only (input : value) : bool :=
  match get_str "action" input with
  | Some action => existsb (str_eqb action) [lit "list"; lit "show"; lit "output"]
  | None => false
  end.

(** The actions that take one lock region; [run] and [stop] are made of steps.
    [pretty] is [serde_json::to_string_pretty]. *)
Definition execute_at_once (pretty : TaskRecord -> result str str) (a : Action) (st : State) :
    option (result str ToolError * State) :=
  match a with
  | Run _ _ | StopTask _ => None
  | ListTasks =>
      let tasks := list_tasks st in
      Some (Ok (if is_empty tasks then lit "no background tasks" else join [newline] (summary <$> tasks)), st)
  | ShowTask i =>
      Some (match or_not_found i (get_task i st) with
            | Ok t => match pretty t with Ok s => Ok s | Err e => Err (Execution e) end
            | Err e => Err e
            end, st)
  | UpdateTask i new_progress note =>
      let '(r, st) := update i new_progress note st in
      Some (match r with Ok t => Ok (summary t) | Err e => Err e end, st)
  | TaskOutput i => Some (task_output i st, st)
  end.

Definition started_text (i : str) : str := lit "started background task " ++ i.
Definition stopped_text (t : TaskRecord) : str := lit "task " ++ id t ++ lit " is now " ++ status_as_str (status t).

(** A call that the permission engine lets pass as read-only is one lock region
    that changes nothing. *)
Lemma read_only_reads pretty input a st :
  is_read_only input = true -> parse_action input = Ok a ->
  exists r, execute_at_once pretty a st = Some (r, st).
Proof.
  unfold is_read_only, parse_action, required, with_id. destruct (get_str "action" input) as [action|]; [|done].
  intros He. apply existsb_exists in He as (x & Hx & ->%str_eqb_eq).
  destruct Hx as [<-|[<-|[<-|[]]]]; cbn -[get_str lit].
  all: repeat match goal with |- context [str_eqb (lit ?x) (lit ?y)] =>
         let b := eval vm_compute in (str_eqb (lit x) (lit y)) in change (str_eqb (lit x) (lit y)) with b; cbv iota end.
  - intros [= <-]. eauto.
  - unfold required. destruct (get_str "task_id" input); [|done]. intros [= <-]. eauto.
  - unfold required. destruct (get_str "task_id" input); [|done]. intros [= <-]. eauto.
Qed.

(** ** At concrete inputs *)

#[local] Instance demo_directories : Directories := { resolve p := Ok p; is_dir _ := true }.

Definition demo_manager : Manager :=
  {| shell_capability := true; sandbox_name := lit "demo"; workspace := Some (lit "/work") |}.

Definition demo_spawn : event := Spawn (lit "build") (lit "make") (lit "/work/a").
Definition demo_ending : Ending := Returned (Ok {| shell_output := lit "ok"; shell_exit_code := Some 0%Z; timed_out := false; cancelled := false |}).
Definition one_task (n : N) : list event := [demo_spawn; Register (task_id n) 0; Finish (task_id n) demo_ending].

(** A preview, a stop that sleeps, and the end of the task. *)
Definition demo_run : list event :=
  [demo_spawn; Register (task_id 1) 7; StoreHandle (task_id 1); Output (task_id 1) (encode (lit "half")); Send (task_id 1) 0;
   Deliver (task_id 1); Stop 0 (task_id 1); Signal 0; Look 0; Arm 0; CheckRecord 0].
Definition demo_finished : list event := demo_run ++ [Finish (task_id 1) demo_ending].

(** A task that ends, and is forgotten because 256 others follow, while its
    [spawn_shell] has not yet stored the handle: the handle is stored then and
    stays. *)
Definition slow_spawn : list event :=
  one_task 1 ++ concat (map (fun k => one_task (N.of_nat k)) (List.seq 2 256)) ++ [StoreHandle (task_id 1)].

(** The check that keeps handles of finished tasks out of the table misses the
    tasks that are no longer in it: such a handle is never removed. *)
Theorem handle_outlives_record :
  let st := state (run demo_manager slow_spawn new_world) in
  task_id 1 ∈ handles st /\ tasks st !! task_id 1 = None /\ size (tasks st) = MAX_TASK_RECORDS.
Proof.
  cbv zeta. split_and!; [apply (bool_decide_eq_true_1 _)| |]; vm_compute; reflexivity.
Qed.

Lemma tasks_stay_bounded_witness :
  let st := state (run demo_manager demo_run new_world) in
  active_tasks st = 1 /\ output <$> (tasks st !! task_id 1) = Some (lit "half") /\ size (tasks st) <= MAX_TASK_RECORDS.
Proof.
  cbv zeta. split; [vm_compute; reflexivity|]. split; [vm_compute; reflexivity|].
  apply (tasks_stay_bounded demo_manager demo_run). vm_compute; reflexivity.
Defined.

Lemma no_wakeup_is_lost_witness :
  clients (run demo_manager [Wake 0; Arm 0; CheckRecord 0; Collect 0] (run demo_manager demo_finished new_world)) !! 0 = None.
Proof.
  apply (no_wakeup_is_lost demo_manager demo_finished 0 {| target := task_id 1; stopping := true; phase := Sleeping 0 |} 0);
    [vm_compute; reflexivity|vm_compute; reflexivity|reflexivity|].
  intros (t & Ht & Hr). vm_compute in Ht. injection Ht as <-. discriminate Hr.
Defined.

Lemma final_records_stay_witness :
  exists w' t, step demo_manager (Update (task_id 1) (Some 7%N) None) (run demo_manager demo_run new_world) = Some (w', Some (Updated (Ok t))) /\
    exists t', tasks (state w') !! task_id 1 = Some t'.
Proof.
  eexists _, _. split; [vm_compute; reflexivity|].
  destruct (final_records_stay demo_manager demo_run (Update (task_id 1) (Some 7%N) None) _ _ (task_id 1) _
    ltac:(vm_compute; reflexivity) ltac:(vm_compute; reflexivity) ltac:(vm_compute; reflexivity)) as (t' & Ht' & _).
  exists t'. exact Ht'.
Defined.

Lemma answers_are_final_witness :
  exists w' t, step demo_manager (Collect 0) (run demo_manager (demo_finished ++ [Wake 0; Arm 0; CheckRecord 0]) new_world)
    = Some (w', Some (Stopped (Ok t))) /\ is_terminal (status t) = true.
Proof.
  eexists _, _. split; [vm_compute; reflexivity|].
  eapply (answers_are_final demo_manager (demo_finished ++ [Wake 0; Arm 0; CheckRecord 0]) (Collect 0));
    [vm_compute; reflexivity|left; vm_compute; reflexivity].
Defined.
